(* ===== verification/_CoqProject ===== *)
-Q . S2P
Prelude.v
Bytes.v
Text.v
WasmBinary.v
Wasm.v
Queue.v
Net.v
Console.v
Block.v
Ipv4.v
Reassembly.v
Streams.v
Tcp.v
FuseWire.v
FuseNodes.v
Fuse.v
FuseOk.v
FuseReply.v
NodeFs.v
NodeFsOk.v
VsockConn.v
Vsock.v
Device.v
Remote.v
RemoteResets.v
Http.v
HttpBody.v
Conn.v
Abi.v
Syscalls.v
Agent.v
AgentSpawn.v
GatewayDns.v
Gateway.v
Devicetree.v
Worker.v
Machine.v
Client.v
ClientFiles.v
Process.v
