(* ===== verification/Prelude.v ===== *)
(** * The Linux machine in a page: a verification development

    The repository runs Linux, compiled to WebAssembly, in a JavaScript host. The
    host is packages/kernel (the machine: wasm modules, virtio devices) and
    packages/linux-guest (what an embedder uses: the agent's session, the guest's
    syscalls, HTTP, a private network), over packages/bytes (binary layouts). This
    library models the parts of the host that compute and keep state, definition by
    definition from the sources under src/, and proves what each promises.

    ** How the parts interact

    The guest's kernel publishes descriptor chains in packed virtqueues of shared
    memory (Queue). A device (Device) is kicked, answers chains and interrupts the
    guest: disks (Block), files (Fuse, over a directory of the host in NodeFs), Ethernet
    (Net), a console and entropy (Console), vsock (VsockConn, Vsock). A
    device can live in a worker (Remote, RemoteResets), chains and completions
    crossing as messages. Over vsock the host keeps a session of lanes to the guest's
    agent (Conn) and makes the guest's syscalls (Abi, Syscalls), which the agent
    serves (Agent, AgentSpawn). Over Ethernet a gateway speaks IPv4, TCP, UDP, ARP
    and DNS to the guests (Ipv4, Reassembly, Streams, Tcp, GatewayDns, Gateway). HTTP
    messages cross the streams (Http, HttpBody). A machine is configured, laid out in
    memory and described to the guest's kernel (Machine, Devicetree); its kernel runs in
    workers, which check user programs' modules (WasmBinary, Wasm), load them and copy
    between their memory and the kernel's (Worker). An embedder reads and writes the
    guest's files (Client, ClientFiles) and runs processes in it (Process), each
    operation a sequence of the guest's syscalls.

    ** Files and sources

    - Prelude: notations of the bit operators, outcomes (a value, an exception or no
      end), the state monad [M] that keeps the state when it throws, [preserves] and
      [stays] with their tactics, lemmas on lists, tables and integers.
    - Bytes: packages/bytes/src/index.ts. A [ty] is a [Type], [value]s are what it
      reads and writes; [buf] is [Bytes], [reader] is [Reader].
    - Text: the platform's strings and UTF-8.
    - WasmBinary, Wasm: packages/kernel/src/wasm_binary.ts and wasm.ts.
    - Devicetree: packages/kernel/src/devicetree.ts. Worker: worker.ts. Machine:
      index.ts, plugin-internal.ts and virtio/bus.ts.
    - Queue: virtio/queue.ts. Net: virtio/rx.ts and net.ts. Console: virtio/console.ts and
      entropy.ts. Block: virtio/block.ts.
    - FuseWire, FuseNodes, Fuse, FuseOk, FuseReply: virtio/fs.ts: its wire format, its
      tables, its requests, their invariants, their replies.
    - VsockConn, Vsock: virtio/vsock.ts: one connection, and the device.
    - Device: virtio/device.ts. Remote, RemoteResets: virtio/remote.ts.
    - Ipv4, Reassembly, Tcp, GatewayDns, Gateway: linux-guest/src/network.ts; Streams:
      the platform's readable streams.
    - Http, HttpBody: linux-guest/src/http.ts. Conn: conn.ts. Abi: abi.ts. Syscalls:
      syscalls.ts. Agent, AgentSpawn: distro/guest-agent/agent.c.
    - NodeFs, NodeFsOk: linux-guest/src/node.ts, and what it does, alone and behind Fuse.
    - Client: linux-guest/src/client.ts, with the options and metadata of file.ts;
      ClientFiles: what its operations do to files. Process: process.ts, FsFile of
      file.ts and the process slots of client.ts.

    Definitions have the sources' names where they can. State is a record passed on
    (an object's fields); a call is a function in [M]; integers are [Z] with their
    width written out ([to_u32] and the like); a JavaScript [Map] is a list in order
    of insertion or a [gmap]; a byte array is a list of [Z]. An asynchronous function
    is cut where it waits: a constructor names the point, a function runs it from
    there to the next, and a step relation ([flow_step], [gateway_step], [step] of
    Conn, Device, Remote, Vsock) lets everything that can happen in between happen.

    ** What the theorems show

    - Data: what a layout stores it loads; a printed form (a packet, a fragmented
      packet, an HTTP head, a chunked body, a request to the agent, a directory)
      parses to what was printed, however the bytes are cut.
    - Queues and devices: every chain is taken, answered and published once, in an
      order that the guest can rely on; no notification is lost; after a reset nothing
      of before it reaches the guest, also when the device is in a worker, whether the
      worker acknowledges the reset or closes.
    - Files, disks: requests are what the abstract disk or the tables say; no record
      that the guest refers to is collected; every request that the code can answer
      ([answerable]) is answered within its buffer, and ends. A directory of the host
      that a guest shares is one tree of objects; the host is asked for nothing outside
      it, for the names only of a directory that was seen to be one and opened, and,
      when it is read only, for nothing that modifies it.
    - Streams: what is written on a TCP flow or a vsock connection arrives in order,
      once and within the peer's window or credit; what is read is what was sent; a
      console gives the guest its input in order, across the resets of the guest's start.
    - Tables: the gateway's, the session's and the devices' tables hold exactly what
      is open, and nothing is left when they close.
    - Machine: what is printed for the guest's kernel reads back as the machine's
      description, with the ramdisk where it was loaded; whatever happens, a machine that
      closes ends its workers and settles once, with its first failure. Programs are
      loaded all or nothing within their limits, and copies stay within both memories.
    - Refinement: a syscall or a spawn over the wire is one call of the guest's kernel.
    - Embedder: over the wire, a file that is read is the file's bytes, one that is
      written holds the data, one that is copied is another file with the same bytes,
      whatever calls fail or are short, and nothing stays open; the operations on an
      open file do not overlap; a process reads its standard input in order.

    ** Bounds and fuel

    Loops of the sources are fixpoints with fuel; running out is the outcome [Loops],
    never a value, and each has a theorem that the fuel given is enough (a cursor
    advances by a byte at least, a fragment by 1480 bytes, a record by 19, a request
    by one) or that the source itself does not end. Numbers are within their widths
    by the parsers' theorems; lengths are those of JavaScript arrays.

    ** Hypotheses

    The guest's kernel ([Kernel], and [posix] for its files, which it tells apart by
    device and inode number), the engine that compiles modules ([Engine]) and the
    programs' functions ([User]), a disk's storage, a filesystem behind virtio-fs
    ([host_ends]: its methods end and keep an invariant of its own), the calls of
    node:fs, a connection's [close] and the handlers an embedder passes are parameters.
    Promises settle in any order that their producers allow; user code called inside an
    operation does not call back into the same object, unless a file says otherwise.
    The notifications of a virtio-fs device run one after another, except where
    FuseNodes lets the operations on its tables interleave.

    ** Not modelled

    - Glue to platforms: kernel/src/platform.ts, endpoint.ts, plugin.ts, util.ts;
      linux-guest/src/platform.ts, index.ts, browser.ts and
      host-fetch-network.ts bind the library to browsers and Node.
    - The running of WebAssembly: the reading of the packaged kernel and its
      instantiation (kernel/src/index.ts), the start of a worker's function and its
      messages to the page (worker.ts); the modules are built elsewhere.
    - Convenience over the syscalls: the memoized connection and byte_stream of
      linux-guest/src/client.ts, output() of process.ts, agent.ts and
      guest-fetch-handler.ts.
    - The bus's forwarding of calls to devices, and the closing of the host's streams
      that a console was given.
    - packages/runner, packages/browser-tests, apps, the bridge and the scripts; the
      distribution (Nix, C, patches), of which the agent's serving of lanes is
      modelled; vendored and generated code. *)
From stdpp Require Export base tactics option list list_numbers numbers strings gmap.
From Stdlib Require Export ZArith Lia.

Open Scope Z_scope.

(** * Notations for the bit operators of the source *)
Declare Scope js_scope.
Delimit Scope js_scope with js.
Infix "&&&" := Z.land (at level 40, left associativity) : js_scope.
Infix "|||" := Z.lor (at level 50, left associativity) : js_scope.
Infix "<<<" := Z.shiftl (at level 40, left associativity) : js_scope.
Infix ">>>" := Z.shiftr (at level 40, left associativity) : js_scope.
Open Scope js_scope.

(** * Exceptions and outcomes

    A JavaScript computation ends normally, throws, or does not end. [Loops]
    stands for a loop that runs for ever; it is reached only where the
    source's loop has no exit. *)
Inductive exn :=
| AssertionError (msg : string)
| JsError (msg : string)
| RangeError (msg : string)
| JsTypeError (msg : string)
| ProtocolError (msg : string)
| WasmParseError (msg : string) (offset : Z)
| FSError (errno : Z)
| SystemError (errno : Z).

Inductive outcome (A : Type) :=
| Done (a : A)
| Raise (e : exn)
| Loops.
Arguments Done {A} a.
Arguments Raise {A} e.
Arguments Loops {A}.

#[export] Instance exn_eq_dec : EqDecision exn.
Proof. solve_decision. Defined.
#[export] Instance outcome_eq_dec `{EqDecision A} : EqDecision (outcome A).
Proof. solve_decision. Defined.

#[export] Instance outcome_ret : MRet outcome := fun A a => Done a.
#[export] Instance outcome_bind : MBind outcome := fun A B f m =>
  match m with Done a => f a | Raise e => Raise e | Loops => Loops end.
#[export] Instance outcome_fmap : FMap outcome := fun A B f m =>
  match m with Done a => Done (f a) | Raise e => Raise e | Loops => Loops end.

Definition is_done {A} (o : outcome A) : bool :=
  match o with Done _ => true | _ => false end.
Definition raises {A} (o : outcome A) : bool :=
  match o with Raise _ => true | _ => false end.
Definition done_of {A} (o : outcome A) : option A :=
  match o with Done a => Some a | _ => None end.

(** [assert(cond, message)] of util.ts. *)
Definition assert_ (cond : bool) (msg : string) : outcome unit :=
  if cond then Done tt else Raise (AssertionError msg).

Definition of_option {A} (e : exn) (o : option A) : outcome A :=
  match o with Some a => Done a | None => Raise e end.

(** * State and exceptions

    A method that mutates its object is a state transformer: an exception
    leaves the state as it was when the exception was thrown, it is not
    rolled back. *)
Definition M (S A : Type) : Type := S → outcome A * S.

#[export] Instance M_ret S : MRet (M S) := fun A a s => (Done a, s).
#[export] Instance M_bind S : MBind (M S) := fun A B f m s =>
  match m s with
  | (Done a, s') => f a s'
  | (Raise e, s') => (Raise e, s')
  | (Loops, s') => (Loops, s')
  end.

Definition throw {S A} (e : exn) : M S A := fun s => (Raise e, s).
Definition get_state {S} : M S S := fun s => (Done s, s).
Definition put_state {S} (s : S) : M S unit := fun _ => (Done tt, s).
Definition modify {S} (f : S → S) : M S unit := fun s => (Done tt, f s).
Definition gets {S A} (f : S → A) : M S A := fun s => (Done (f s), s).
Definition lift {S A} (o : outcome A) : M S A := fun s => (o, s).
Definition assert_m {S} (cond : bool) (msg : string) : M S unit :=
  lift (assert_ cond msg).

(** One step of a sequence, from what its first part did. *)
Lemma M_bind_done {S A B} (m : M S A) (k : A → M S B) s a s' :
  m s = (Done a, s') → (m ≫= k) s = k a s'.
Proof. unfold mbind, M_bind. by intros ->. Qed.
Lemma M_bind_raise {S A B} (m : M S A) (k : A → M S B) s e s' :
  m s = (Raise e, s') → (m ≫= k) s = (Raise e, s').
Proof. unfold mbind, M_bind. by intros ->. Qed.
Lemma M_bind_loops {S A B} (m : M S A) (k : A → M S B) s s' :
  m s = (Loops, s') → (m ≫= k) s = (Loops, s').
Proof. unfold mbind, M_bind. by intros ->. Qed.

(** A method of an object that is part of a larger state. *)
Definition focus {S T A} (get : S → T) (put : T → S → S) (m : M T A) : M S A := fun s =>
  let '(o, t) := m (get s) in (o, put t s).

(** [try { m } finally { cleanup() }], for a cleanup that does not throw. *)
Definition finally {S A} (m : M S A) (cleanup : S → S) : M S A := fun s =>
  match m s with
  | (Loops, s) => (Loops, s)
  | (o, s) => (o, cleanup s)
  end.

(** [try { m } catch (error) { handler(error) }]; an async function rejects with
    what its body throws. *)
Definition catch {S A} (m : M S A) (handler : exn → M S A) : M S A := fun s =>
  match m s with (Raise e, s) => handler e s | r => r end.

(** Runs [body] [n] times, collecting the results, as a counted [for] loop does. *)
Fixpoint repeat_m {S A} (n : nat) (body : M S A) : M S (list A) :=
  match n with
  | O => mret []
  | Datatypes.S n => x ← body; xs ← repeat_m n body; mret (x :: xs)
  end.

(** * Record update: [r <| field := v |>]

    A mutable object is a record, and an assignment to a field of it an update.
    [Eta] gives a record rebuilt from its own fields; the setter of a field is
    that term with the field replaced. *)
Class Eta (R : Type) := eta : R → R.
Class Setter {R T : Type} (proj : R → T) := set_field : T → R → R.
Arguments set_field {R T} proj {_} v r /.

Ltac setter :=
  lazymatch goal with
  | |- @Setter ?R ?T ?proj =>
      let v := fresh "v" in
      let r := fresh "r" in
      intros v r;
      let e := eval hnf in (@eta R _ r) in
      match e with context C [proj r] => let t := context C [v] in exact t end
  end.
#[export] Hint Extern 1 (Setter _) => setter : typeclass_instances.

Notation "r <| proj := v |>" := (set_field proj v r)
  (at level 12, left associativity, format "r  <| proj  :=  v |>") : js_scope.

(** * Typed arrays

    A [Uint8Array] is the list of its bytes; a byte is a [Z] in [0, 256). *)
Definition byte_ok (b : Z) : Prop := 0 ≤ b < 256.
Abbreviation bytes_ok := (Forall byte_ok).

Definition zlen {A} (l : list A) : Z := Z.of_nat (length l).

(** [l.subarray(b, e)], for the non-negative arguments the source uses:
    both ends are clamped to the length. *)
Definition subarray {A} (l : list A) (b e : Z) : list A :=
  take (Z.to_nat e - Z.to_nat b)%nat (drop (Z.to_nat b) l).

(** Overwrites [l] from index [off] with [src]. *)
Definition splice {A} (l : list A) (off : nat) (src : list A) : list A :=
  take off l ++ src ++ drop (off + length src) l.

(** [target.set(src, off)] *)
Definition ta_set {A} (target src : list A) (off : Z) : outcome (list A) :=
  if bool_decide (0 ≤ off ∧ off + zlen src ≤ zlen target)
  then Done (splice target (Z.to_nat off) src)
  else Raise (RangeError "offset is out of bounds").

Definition zeros (n : Z) : list Z := replicate (Z.to_nat n) 0.

(** [l[i]], [None] being [undefined]. *)
Definition zlookup {A} (l : list A) (i : Z) : option A :=
  if i <? 0 then None else l !! Z.to_nat i.

Definition sum_list_z (l : list Z) : Z := foldr Z.add 0 l.

(** ToUint8, ToUint16, ToUint32 ([x >>> 0]), ToInt32 ([x | 0]) and
    [BigInt.asUintN(64, x)]. *)
Definition to_u8 (z : Z) : Z := z mod 2 ^ 8.
Definition to_u16 (z : Z) : Z := z mod 2 ^ 16.
Definition to_u32 (z : Z) : Z := z mod 2 ^ 32.
Definition to_i32 (z : Z) : Z := (z + 2 ^ 31) mod 2 ^ 32 - 2 ^ 31.
Definition to_u64 (z : Z) : Z := z mod 2 ^ 64.

(** Strings, as the byte lists [TextEncoder] makes of ASCII text. *)
Definition ascii_bytes (s : string) : list Z :=
  (fun a => Z.of_nat (Ascii.nat_of_ascii a)) <$> String.list_ascii_of_string s.

(** JavaScript's largest safe integer. *)
Definition max_safe_integer : Z := 2 ^ 53 - 1.

(** * Tactics *)

(** Case analysis on the booleans the source's guards become. *)
Ltac cases :=
  repeat match goal with
  | |- context [bool_decide ?P] => destruct (bool_decide_reflect P)
  | |- context [if ?b then _ else _] => destruct b eqn:?
  end; simpl in *.

(** Turns boolean comparisons into linear arithmetic. *)
Ltac zbool :=
  repeat match goal with
  | H : (_ && _)%bool = true |- _ => apply andb_true_iff in H as [? ?]
  | H : (_ || _)%bool = false |- _ => apply orb_false_iff in H as [? ?]
  | H : negb _ = true |- _ => apply negb_true_iff in H
  | H : negb _ = false |- _ => apply negb_false_iff in H
  | H : bool_decide _ = true |- _ => apply bool_decide_eq_true in H
  | H : bool_decide _ = false |- _ => apply bool_decide_eq_false in H
  | H : (_ <? _) = true |- _ => apply Z.ltb_lt in H
  | H : (_ <? _) = false |- _ => apply Z.ltb_ge in H
  | H : (_ <=? _) = true |- _ => apply Z.leb_le in H
  | H : (_ <=? _) = false |- _ => apply Z.leb_gt in H
  | H : (_ =? _) = true |- _ => apply Z.eqb_eq in H
  | H : (_ =? _) = false |- _ => apply Z.eqb_neq in H
  end.

(** Splits a successful (or failed) run into the runs of its steps. *)
Ltac run H :=
  repeat (cbn [mbind mret fmap M_bind M_ret outcome_bind outcome_ret outcome_fmap
               throw get_state put_state modify gets lift assert_m] in H;
    match type of H with
    | context [match ?m with Done _ => _ | Raise _ => _ | Loops => _ end] =>
        let E := fresh "E" in destruct m eqn:E; try discriminate H
    end).

(** * Lemmas *)

Lemma assert_done b msg : assert_ b msg = Done tt ↔ b = true.
Proof. destruct b; simpl; naive_solver. Qed.

Section lists.
Context {A : Type}.
Implicit Types l : list A.

Lemma zlen_nonneg l : 0 ≤ zlen l.
Proof. unfold zlen; lia. Qed.
Lemma zlen_app l1 l2 : zlen (l1 ++ l2) = zlen l1 + zlen l2.
Proof. unfold zlen; rewrite length_app; lia. Qed.
Lemma zlen_nil : zlen (@nil A) = 0.
Proof. done. Qed.
Lemma zlen_cons x l : zlen (x :: l) = 1 + zlen l.
Proof. unfold zlen; simpl; lia. Qed.
Lemma zlen_0_nil l : zlen l = 0 → l = [].
Proof. destruct l; [done|]. unfold zlen; simpl; lia. Qed.
Lemma zlen_take n l : zlen (take n l) = Z.min (Z.of_nat n) (zlen l).
Proof. unfold zlen; rewrite length_take; lia. Qed.
Lemma zlen_drop n l : zlen (drop n l) = Z.max 0 (zlen l - Z.of_nat n).
Proof. unfold zlen; rewrite length_drop; lia. Qed.
Lemma zlen_to_nat l : Z.to_nat (zlen l) = length l.
Proof. unfold zlen; lia. Qed.
Lemma zlen_replicate n (x : A) : zlen (replicate n x) = Z.of_nat n.
Proof. unfold zlen; rewrite length_replicate; lia. Qed.

Lemma zlen_subarray l b e :
  0 ≤ b ≤ e → e ≤ zlen l → zlen (subarray l b e) = e - b.
Proof.
  intros ??; unfold subarray, zlen in *. rewrite length_take, length_drop. lia.
Qed.
Lemma subarray_full l : subarray l 0 (zlen l) = l.
Proof.
  unfold subarray; rewrite zlen_to_nat, drop_0, take_ge; [done | lia].
Qed.
Lemma subarray_app_l l1 l2 : subarray (l1 ++ l2) 0 (zlen l1) = l1.
Proof.
  unfold subarray. rewrite zlen_to_nat, drop_0, Nat.sub_0_r. apply take_app_length.
Qed.
Lemma subarray_app_r l1 l2 :
  subarray (l1 ++ l2) (zlen l1) (zlen (l1 ++ l2)) = l2.
Proof.
  unfold subarray. rewrite !zlen_to_nat, drop_app_length, take_ge; [done|].
  rewrite length_app; lia.
Qed.
Lemma subarray_mid l1 l2 l3 : subarray (l1 ++ l2 ++ l3) (zlen l1) (zlen l1 + zlen l2) = l2.
Proof.
  unfold subarray. rewrite <- zlen_app, !zlen_to_nat, drop_app_length, length_app.
  replace (length l1 + length l2 - length l1)%nat with (length l2) by lia. apply take_app_length.
Qed.
Lemma subarray_empty l b : subarray l b b = [].
Proof. unfold subarray. by rewrite Nat.sub_diag. Qed.
Lemma subarray_snoc_range l b m e :
  0 ≤ b ≤ m → m ≤ e → subarray l b m ++ subarray l m e = subarray l b e.
Proof.
  intros ??; unfold subarray.
  replace (Z.to_nat e - Z.to_nat b)%nat
    with ((Z.to_nat m - Z.to_nat b) + (Z.to_nat e - Z.to_nat m))%nat by lia.
  rewrite <- take_take_drop, drop_drop. do 3 f_equal; lia.
Qed.
Lemma subarray_clamp l b e : zlen l ≤ e → subarray l b e = drop (Z.to_nat b) l.
Proof.
  intros; unfold subarray, zlen in *. rewrite take_ge; [done|].
  rewrite length_drop; lia.
Qed.

Lemma take_subarray l b n e :
  0 ≤ b → 0 ≤ n → b + n ≤ e → take (Z.to_nat n) (subarray l b e) = subarray l b (b + n).
Proof. intros. unfold subarray. rewrite take_take. f_equal; lia. Qed.
Lemma drop_subarray l b n e :
  0 ≤ b → 0 ≤ n → drop (Z.to_nat n) (subarray l b e) = subarray l (b + n) e.
Proof. intros. unfold subarray. rewrite skipn_firstn_comm, drop_drop. f_equal; [lia|f_equal; lia]. Qed.

Lemma length_splice l off src :
  (off + length src ≤ length l)%nat → length (splice l off src) = length l.
Proof.
  intros; unfold splice. rewrite !length_app, length_take, length_drop. lia.
Qed.
Lemma splice_lookup_out l off src i :
  (off + length src ≤ length l)%nat → (i < off ∨ off + length src ≤ i)%nat →
  splice l off src !! i = l !! i.
Proof.
  intros Hl [?|?]; unfold splice.
  - rewrite lookup_app_l by (rewrite length_take; lia). by rewrite lookup_take_lt.
  - rewrite lookup_app_r by (rewrite length_take; lia).
    rewrite length_take, Nat.min_l by lia.
    rewrite lookup_app_r by lia. rewrite lookup_drop. f_equal; lia.
Qed.
Lemma splice_range l off src :
  (off + length src ≤ length l)%nat →
  take (length src) (drop off (splice l off src)) = src.
Proof.
  intros; unfold splice.
  rewrite drop_app_le by (rewrite length_take; lia).
  rewrite (drop_ge (take off l)) by (rewrite length_take; lia).
  by rewrite app_nil_l, take_app_length.
Qed.
(** A range that does not meet the written one reads the same. *)
Lemma splice_range_out l off src a n :
  (off + length src ≤ length l)%nat →
  (a + n ≤ off ∨ off + length src ≤ a)%nat →
  take n (drop a (splice l off src)) = take n (drop a l).
Proof.
  intros Hl Hout. apply list_eq; intros i.
  destruct (decide (i < n)%nat).
  - rewrite !lookup_take_lt, !lookup_drop by done. apply splice_lookup_out; lia.
  - by rewrite !lookup_take_ge by lia.
Qed.
Lemma splice_app_end l src : splice l (length l) src = l ++ src.
Proof. unfold splice. rewrite take_ge, drop_ge, app_nil_r by lia. done. Qed.
Lemma splice_app_l l1 l2 l3 src :
  length src = length l2 → splice (l1 ++ l2 ++ l3) (length l1) src = l1 ++ src ++ l3.
Proof.
  intros Hs. unfold splice. rewrite take_app_length, Hs, drop_app_ge by lia.
  replace (length l1 + length l2 - length l1)%nat with (length l2) by lia.
  by rewrite drop_app_length.
Qed.

Lemma ta_set_done l src off l' :
  ta_set l src off = Done l' →
  0 ≤ off ∧ off + zlen src ≤ zlen l ∧ l' = splice l (Z.to_nat off) src.
Proof. unfold ta_set; case_bool_decide; naive_solver. Qed.
Lemma ta_set_ok l src off :
  0 ≤ off → off + zlen src ≤ zlen l →
  ta_set l src off = Done (splice l (Z.to_nat off) src).
Proof. intros; unfold ta_set; by rewrite bool_decide_eq_true_2. Qed.

Lemma zlookup_Some l i x : zlookup l i = Some x → 0 ≤ i < zlen l.
Proof.
  unfold zlookup, zlen. destruct (Z.ltb_spec i 0); [done|].
  intros ?%lookup_lt_Some; lia.
Qed.
Lemma zlookup_lt l i : 0 ≤ i < zlen l → is_Some (zlookup l i).
Proof.
  unfold zlookup, zlen; intros. destruct (Z.ltb_spec i 0); [lia|].
  apply lookup_lt_is_Some; lia.
Qed.
End lists.

Create Rewrite HintDb zlen.
#[export] Hint Rewrite @zlen_app @zlen_nil @zlen_cons @zlen_take @zlen_drop
  @zlen_replicate : zlen.
#[export] Hint Resolve zlen_nonneg : core.

Lemma bytes_ok_subarray l b e : bytes_ok l → bytes_ok (subarray l b e).
Proof. intros; unfold subarray; by apply Forall_take, Forall_drop. Qed.
Lemma bytes_ok_zeros n : bytes_ok (zeros n).
Proof. apply Forall_replicate; unfold byte_ok; lia. Qed.
Lemma bytes_ok_splice l off src :
  bytes_ok l → bytes_ok src → bytes_ok (splice l off src).
Proof.
  intros; unfold splice. rewrite !Forall_app.
  split_and!; auto using Forall_take, Forall_drop.
Qed.
Lemma bytes_ok_ascii s : bytes_ok (ascii_bytes s).
Proof.
  unfold ascii_bytes. apply Forall_fmap, Forall_true; intros a. unfold byte_ok; simpl.
  pose proof (Ascii.nat_ascii_bounded a); lia.
Qed.

Create HintDb js.
#[export] Hint Resolve bytes_ok_subarray bytes_ok_zeros bytes_ok_splice bytes_ok_ascii : js.
#[export] Hint Resolve Forall_app_2 Forall_take Forall_drop : js.

Lemma sum_list_z_app l1 l2 : sum_list_z (l1 ++ l2) = sum_list_z l1 + sum_list_z l2.
Proof. unfold sum_list_z. induction l1 as [|x l1 IH]; cbn; lia. Qed.

Lemma zlen_zeros n : 0 ≤ n → zlen (zeros n) = n.
Proof. intros; unfold zeros; rewrite zlen_replicate; lia. Qed.

Lemma to_u8_id z : byte_ok z → to_u8 z = z.
Proof. unfold byte_ok, to_u8; intros; apply Z.mod_small; lia. Qed.
Lemma to_u8_ok z : byte_ok (to_u8 z).
Proof. unfold byte_ok, to_u8; pose proof (Z.mod_pos_bound z (2 ^ 8)); lia. Qed.
Lemma to_u16_range z : 0 ≤ to_u16 z < 65536.
Proof. unfold to_u16; apply (Z.mod_pos_bound z (2 ^ 16)); lia. Qed.
Lemma to_u32_range z : 0 ≤ to_u32 z < 4294967296.
Proof. unfold to_u32; apply (Z.mod_pos_bound z (2 ^ 32)); lia. Qed.
Lemma to_u32_id z : 0 ≤ z < 4294967296 → to_u32 z = z.
Proof. intros; unfold to_u32; apply Z.mod_small; lia. Qed.

(** A decision for each of the numbers below a bound. *)
Lemma below_seq f n : forallb f (Z.of_nat <$> seq 0 n) = true → ∀ z, 0 ≤ z < Z.of_nat n → f z = true.
Proof.
  intros H z Hz. rewrite forallb_forall in H. apply H, list_elem_of_In, list_elem_of_fmap. exists (Z.to_nat z).
  split; [lia|]. apply elem_of_seq. lia.
Qed.

(** * Tables: a [Map], in the order of insertion *)
Section tables.
Context {K V : Type} `{EqDecision K}.

Definition find_key (k : K) (l : list (K * V)) : option V := snd <$> find (fun kv => bool_decide (kv.1 = k)) l.
Definition remove_key (k : K) (l : list (K * V)) : list (K * V) := filter (fun kv => kv.1 ≠ k) l.

Lemma find_key_elem k l v : find_key k l = Some v → (k, v) ∈ l.
Proof using.
  unfold find_key. destruct (find _ l) as [[k' v']|] eqn:E; [|done]. intros [= <-].
  apply find_some in E as [Hin Hk]. apply bool_decide_eq_true in Hk as <-. by apply list_elem_of_In.
Qed.
Lemma find_key_none k l : find_key k l = None → k ∉ l.*1.
Proof using.
  unfold find_key. destruct (find _ l) as [[k' v']|] eqn:E; [done|]. intros _ ((k'&v)&->&Hin)%list_elem_of_fmap.
  apply list_elem_of_In in Hin. pose proof (find_none _ _ E _ Hin) as Hk. by rewrite bool_decide_eq_false in Hk.
Qed.
Lemma find_key_nodup k v l : NoDup l.*1 → (k, v) ∈ l → find_key k l = Some v.
Proof using.
  unfold find_key. induction l as [|[k' v'] l IH]; [by intros _ ?%not_elem_of_nil|]. cbn.
  intros [Hk Hn]%NoDup_cons [[= <- <-]|Hin]%elem_of_cons; [by rewrite bool_decide_true|].
  rewrite bool_decide_false; [by apply IH|]. intros ->. apply Hk. apply list_elem_of_fmap. by exists (k, v).
Qed.
Lemma elem_remove_key k l kv : kv ∈ remove_key k l ↔ kv.1 ≠ k ∧ kv ∈ l.
Proof using. unfold remove_key. by rewrite list_elem_of_filter. Qed.
Lemma remove_key_nodup k l : NoDup l.*1 → NoDup (remove_key k l).*1.
Proof using. unfold remove_key. intros H. eapply sublist_NoDup; [exact H|]. apply fmap_sublist. apply list_filter_sublist || apply sublist_filter. Qed.
End tables.

(** Invariants of stateful computations: [m] keeps [P] however it ends. *)
Definition preserves {S A} (P : S → Prop) (m : M S A) : Prop :=
  ∀ s, P s → P (m s).2.

Section preserves.
Context {S : Type} (P : S → Prop).

Lemma preserves_ret {A} (a : A) : preserves P (mret a : M S A).
Proof. by intros s ?. Qed.
Lemma preserves_throw {A} e : preserves P (throw e : M S A).
Proof. by intros s ?. Qed.
Lemma preserves_lift {A} (o : outcome A) : preserves P (lift o : M S A).
Proof. by intros s ?. Qed.
Lemma preserves_get : preserves P get_state.
Proof. by intros s ?. Qed.
Lemma preserves_gets {A} (f : S → A) : preserves P (gets f).
Proof. by intros s ?. Qed.
Lemma preserves_modify f : (∀ s, P s → P (f s)) → preserves P (modify f).
Proof. intros Hf s ?; by apply Hf. Qed.
Lemma preserves_bind {A B} (m : M S A) (f : A → M S B) :
  preserves P m → (∀ a, preserves P (f a)) → preserves P (m ≫= f).
Proof.
  intros Hm Hf s Hs. specialize (Hm s Hs). unfold mbind, M_bind.
  destruct (m s) as [[a|e|] s']; simpl in *; [by apply Hf | done | done].
Qed.
Lemma preserves_repeat {A} n (m : M S A) :
  preserves P m → preserves P (repeat_m n m).
Proof.
  intros Hm; induction n; simpl; [apply preserves_ret|].
  apply preserves_bind; [done|]; intros. apply preserves_bind; [done|]; intros.
  apply preserves_ret.
Qed.
End preserves.

#[export] Hint Resolve preserves_ret preserves_throw preserves_lift preserves_get
  preserves_gets preserves_modify preserves_bind preserves_repeat : js.

(** Programs that only move a state along a preorder. *)
Definition stays {S A} (R : S → S → Prop) (m : M S A) : Prop := ∀ s, R s (m s).2.

Section stays.
Context {S : Type} (R : S → S → Prop) `{!PreOrder R}.

Lemma stays_ret {A} (a : A) : stays R (mret a).
Proof using PreOrder0. by intros s. Qed.
Lemma stays_get : stays R get_state.
Proof using PreOrder0. by intros s. Qed.
Lemma stays_throw {A} e : stays R (throw e : M S A).
Proof using PreOrder0. by intros s. Qed.
Lemma stays_lift {A} (o : outcome A) : stays R (lift o).
Proof using PreOrder0. by intros s. Qed.
Lemma stays_modify g : (∀ s, R s (g s)) → stays R (modify g).
Proof using. intros H s. apply H. Qed.
Lemma stays_bind {A B} (m : M S A) (k : A → M S B) :
  stays R m → (∀ a, stays R (k a)) → stays R (m ≫= k).
Proof using PreOrder0.
  intros Hm Hk s. unfold mbind, M_bind. specialize (Hm s).
  destruct (m s) as [[a|e|] s']; cbn in *; auto. etrans; [done|apply Hk].
Qed.
Lemma stays_if {A} (b : bool) (m1 m2 : M S A) :
  stays R m1 → stays R m2 → stays R (if b then m1 else m2).
Proof using. by destruct b. Qed.
Lemma stays_catch {A} (m : M S A) h : stays R m → (∀ e, stays R (h e)) → stays R (catch m h).
Proof using PreOrder0.
  intros Hm Hh s. unfold catch. specialize (Hm s). destruct (m s) as [[a|e|] s']; [done| |done].
  etrans; [exact Hm|apply Hh].
Qed.
End stays.

(** Goes through a program, part by part; [tac] is tried on each part. *)
Ltac stays_with tac :=
  repeat first
    [ solve [tac]
    | match goal with
      | |- stays _ (_ ≫= _) => apply stays_bind; [typeclasses eauto| |intros ?]
      | |- stays _ (if _ then _ else _) => apply stays_if
      | |- stays _ (modify _) => apply stays_modify; intros ?
      | |- stays _ (mret _) => apply stays_ret; typeclasses eauto
      | |- stays _ get_state => apply stays_get; typeclasses eauto
      | |- stays _ (throw _) => apply stays_throw; typeclasses eauto
      | |- stays _ (lift _) => apply stays_lift; typeclasses eauto
      end ].
