(* ===== verification/Bytes.v ===== *)
(** Binary layouts and byte buffers: packages/bytes/src/index.ts.

    A [Type<T>] of the source is a [ty]; the values it reads and writes are
    [value]s. [Struct] computes its field offsets by adding up the sizes of
    the fields before it, as the class's static block does. A [DataView] is a
    window on a buffer; writing returns the new contents of the buffer. *)
From S2P Require Export Prelude.

(** * DataView *)
Record dataview := DV { dv_buffer : list Z; dv_offset : Z; dv_length : Z }.

(** [new DataView(buffer, offset)]: the window reaches to the buffer's end. *)
Definition new_dataview (buffer : list Z) (offset : Z) : outcome dataview :=
  if bool_decide (0 ≤ offset ≤ zlen buffer)
  then Done (DV buffer offset (zlen buffer - offset))
  else Raise (RangeError "Start offset is outside the bounds of the buffer").

Definition dv_of (buffer : list Z) : dataview := DV buffer 0 (zlen buffer).

Definition dv_read (dv : dataview) (offset : Z) (n : nat) : outcome (list Z) :=
  if bool_decide (0 ≤ offset ∧ offset + Z.of_nat n ≤ dv_length dv)
  then Done (take n (drop (Z.to_nat (dv_offset dv + offset)) (dv_buffer dv)))
  else Raise (RangeError "Offset is outside the bounds of the DataView").

Definition dv_write (dv : dataview) (offset : Z) (bs : list Z) : outcome (list Z) :=
  if bool_decide (0 ≤ offset ∧ offset + zlen bs ≤ dv_length dv)
  then Done (splice (dv_buffer dv) (Z.to_nat (dv_offset dv + offset)) bs)
  else Raise (RangeError "Offset is outside the bounds of the DataView").

(** * Scalars *)
Fixpoint le_decode (l : list Z) : Z :=
  match l with [] => 0 | b :: l => b + 256 * le_decode l end.
Fixpoint le_encode (n : nat) (z : Z) : list Z :=
  match n with O => [] | S n => z mod 256 :: le_encode n (z / 256) end.

(** One of the numeric types; [sc_bigint] tells the 64-bit ones, whose
    JavaScript values are bigints. *)
Record scalar := Sc { sc_width : nat; sc_signed : bool; sc_bigint : bool; sc_little : bool }.

#[export] Instance scalar_eq_dec : EqDecision scalar.
Proof. solve_decision. Defined.

Definition sc_bits (s : scalar) : Z := 8 * Z.of_nat (sc_width s).
Definition sc_decode (s : scalar) (bs : list Z) : Z :=
  let u := le_decode (if sc_little s then bs else reverse bs) in
  if (sc_signed s && (2 ^ (sc_bits s - 1) <=? u))%bool then u - 2 ^ sc_bits s else u.
Definition sc_encode (s : scalar) (z : Z) : list Z :=
  let l := le_encode (sc_width s) (z mod 2 ^ sc_bits s) in
  if sc_little s then l else reverse l.

(** * Types and their values *)
Inductive ty :=
| Scalar (s : scalar)
| FixedArray (t : ty) (length : nat)
| Struct (layout : list (string * ty)).

Inductive value :=
| Undef
| Num (z : Z)
| Arr (l : list value)
| Obj (l : list (string * value)).

Definition U8 : ty := Scalar (Sc 1 false false true).
Definition U16LE : ty := Scalar (Sc 2 false false true).
Definition U32LE : ty := Scalar (Sc 4 false false true).
Definition I32LE : ty := Scalar (Sc 4 true false true).
Definition U64LE : ty := Scalar (Sc 8 false true true).
Definition I64LE : ty := Scalar (Sc 8 true true true).
Definition U16BE : ty := Scalar (Sc 2 false false false).
Definition U32BE : ty := Scalar (Sc 4 false false false).
Definition U64BE : ty := Scalar (Sc 8 false true false).

Fixpoint ty_size (t : ty) : Z :=
  match t with
  | Scalar s => Z.of_nat (sc_width s)
  | FixedArray t n => ty_size t * Z.of_nat n
  | Struct layout => foldr (fun '(_, t) acc => ty_size t + acc) 0 layout
  end.

(** [if (offset !== 0) dv = new DataView(dv.buffer, dv.byteOffset + offset)] *)
Definition narrow (dv : dataview) (offset : Z) : outcome dataview :=
  if offset =? 0 then Done dv else new_dataview (dv_buffer dv) (dv_offset dv + offset).

(** The loops over the elements of an array and the fields of a struct. *)
Section loops.
Context (get : ty → dataview → Z → outcome value).

Fixpoint get_elements (t : ty) (dv : dataview) (n : nat) (o : Z) : outcome (list value) :=
  match n with
  | O => Done []
  | S n => v ← get t dv o; vs ← get_elements t dv n (o + ty_size t); Done (v :: vs)
  end.

Fixpoint get_fields (dv : dataview) (layout : list (string * ty)) (o : Z) :
    outcome (list (string * value)) :=
  match layout with
  | [] => Done []
  | (k, t) :: layout =>
      v ← get t dv o; fs ← get_fields dv layout (o + ty_size t); Done ((k, v) :: fs)
  end.
End loops.

Fixpoint ty_get (t : ty) (dv : dataview) (offset : Z) : outcome value :=
  match t with
  | Scalar s => bs ← dv_read dv offset (sc_width s); Done (Num (sc_decode s bs))
  | FixedArray t n => vs ← get_elements ty_get t dv n offset; Done (Arr vs)
  | Struct layout =>
      dv ← narrow dv offset; fs ← get_fields ty_get dv layout 0; Done (Obj fs)
  end.

(** The property [k] of an object. *)
Fixpoint assoc {A} (k : string) (l : list (string * A)) : option A :=
  match l with
  | [] => None
  | (k', a) :: l => if String.eqb k k' then Some a else assoc k l
  end.

(** [setUintN] of an undefined value writes 0, [setBigUint64] throws. *)
Definition sc_set (s : scalar) (dv : dataview) (offset : Z) (v : value) : outcome (list Z) :=
  match v with
  | Num z => dv_write dv offset (sc_encode s z)
  | Undef => if sc_bigint s then Raise (JsTypeError "Cannot convert to a BigInt")
             else dv_write dv offset (sc_encode s 0)
  | _ => Raise (JsTypeError "Cannot convert to a number")
  end.

Definition with_buffer (dv : dataview) (buffer : list Z) : dataview :=
  DV buffer (dv_offset dv) (dv_length dv).

Section loops.
Context (set : ty → dataview → Z → value → outcome (list Z)).

Fixpoint set_elements (t : ty) (dv : dataview) (n : nat) (vs : list value) (o : Z) :
    outcome (list Z) :=
  match n with
  | O => Done (dv_buffer dv)
  | S n =>
      buffer ← set t dv o (default Undef (head vs));
      set_elements t (with_buffer dv buffer) n (tail vs) (o + ty_size t)
  end.

Fixpoint set_fields (dv : dataview) (layout : list (string * ty))
    (fs : list (string * value)) (o : Z) : outcome (list Z) :=
  match layout with
  | [] => Done (dv_buffer dv)
  | (k, t) :: layout =>
      buffer ← match assoc k fs with
               | Some v => set t dv o v
               | None => Done (dv_buffer dv)
               end;
      set_fields (with_buffer dv buffer) layout fs (o + ty_size t)
  end.
End loops.

(** [type.set(dv, offset, value)], returning the buffer it leaves. A struct
    assigns the properties [value] has ([Object.assign]) and leaves the other
    fields alone; an array takes [undefined] for the elements it lacks. *)
Fixpoint ty_set (t : ty) (dv : dataview) (offset : Z) (v : value) : outcome (list Z) :=
  match t with
  | Scalar s => sc_set s dv offset v
  | FixedArray t n =>
      match v with
      | Arr vs => set_elements ty_set t dv n vs offset
      | _ => Raise (JsTypeError "not an array")
      end
  | Struct layout =>
      match v with
      | Obj fs => dv ← narrow dv offset; set_fields ty_set dv layout fs 0
      | _ => Raise (JsTypeError "not an object")
      end
  end.

(** Field accesses on the values read. *)
Definition num (v : value) : Z := match v with Num z => z | _ => 0 end.
Definition nums (v : value) : list Z := match v with Arr l => num <$> l | _ => [] end.
Definition field (v : value) (k : string) : value :=
  match v with Obj l => default Undef (assoc k l) | _ => Undef end.
Notation "v '.[' k ]" := (num (field v k)) (at level 1, left associativity, format "v .[ k ]").

(** [new S(view)] and reading every field: [view] is the whole window. *)
Definition struct_read (t : ty) (view : list Z) : outcome value := ty_get t (dv_of view) 0.

(** * Reader *)
Record reader := Reader { rd_array : list Z; rd_offset : Z }.

Definition rd_take (length : Z) : M reader Z := fun r =>
  if ((length <? 0) || (zlen (rd_array r) <? rd_offset r + length))%bool
  then (Raise (RangeError "read past the end of the buffer"), r)
  else (Done (rd_offset r), Reader (rd_array r) (rd_offset r + length)).

Definition rd_scalar (t : ty) : M reader Z :=
  o ← rd_take (ty_size t);
  r ← get_state;
  v ← lift (ty_get t (dv_of (rd_array r)) o);
  mret (num v).

Definition rd_u8 : M reader Z := rd_scalar U8.
Definition rd_u16 : M reader Z := rd_scalar U16LE.
Definition rd_u32 : M reader Z := rd_scalar U32LE.
Definition rd_i32 : M reader Z := rd_scalar I32LE.
Definition rd_u64 : M reader Z := rd_scalar U64LE.
Definition rd_i64 : M reader Z := rd_scalar I64LE.

Definition rd_skip (length : Z) : M reader unit := rd_take length ;; mret tt.

Definition rd_bytes (length : Z) : M reader (list Z) :=
  offset ← rd_take length;
  r ← get_state;
  mret (subarray (rd_array r) offset (offset + length)).

Definition rd_struct (t : ty) : M reader value :=
  o ← rd_take (ty_size t);
  r ← get_state;
  lift (ty_get t (dv_of (rd_array r)) o).

(** [array.indexOf(x, from)], [None] for -1. *)
Fixpoint index_of_from (x : Z) (l : list Z) (i : Z) : option Z :=
  match l with
  | [] => None
  | b :: l => if b =? x then Some i else index_of_from x l (i + 1)
  end.
Definition index_of (x : Z) (l : list Z) (from : Z) : option Z :=
  index_of_from x (drop (Z.to_nat from) l) from.

(** [cstring] returns the bytes of the string; [utf8_valid] is the fatal
    decoder's acceptance test, from the platform. *)
Definition rd_cstring (utf8_valid : list Z → bool) : M reader (list Z) :=
  r ← get_state;
  match index_of 0 (rd_array r) (rd_offset r) with
  | None => throw (RangeError "unterminated string")
  | Some end_ =>
      bytes ← rd_bytes (end_ - rd_offset r);
      rd_skip 1 ;;
      if utf8_valid bytes then mret bytes
      else throw (RangeError "string is not valid UTF-8")
  end.

(** * Bytes: a growable buffer *)
Record buf := Buf { b_array : list Z; b_length : Z }.

Definition bytes_new (capacity : Z) : buf := Buf (zeros capacity) 0.
Definition capacity (b : buf) : Z := zlen (b_array b).
(** [get array()]: a copy of the used part. *)
Definition array (b : buf) : list Z := subarray (b_array b) 0 (b_length b).

(** [while (length < capacity) length *= 2], with fuel. *)
Fixpoint grow (fuel : nat) (length capacity : Z) : outcome Z :=
  if length <? capacity
  then match fuel with
       | O => Loops
       | S fuel => grow fuel (length * 2) capacity
       end
  else Done length.

(** Every doubling of a non-zero length adds at least one, so [capacity]
    rounds are enough for the loop to end, if it does. *)
Definition ensure_capacity (b : buf) (cap : Z) : outcome buf :=
  if zlen (b_array b) <? cap
  then length ← grow (Z.to_nat cap) (zlen (b_array b)) cap;
       next ← ta_set (zeros length) (b_array b) 0;
       Done (Buf next (b_length b))
  else Done b.

Definition bump (length : Z) : M buf Z := fun b =>
  match ensure_capacity b (b_length b + length) with
  | Done b' => (Done (b_length b), Buf (b_array b') (b_length b' + length))
  | Raise e => (Raise e, b)
  | Loops => (Loops, b)
  end.

Definition append (bytes : list Z) : M buf unit :=
  offset ← bump (zlen bytes);
  b ← get_state;
  next ← lift (ta_set (b_array b) bytes offset);
  put_state (Buf next (b_length b)).

(** [alloc(type)]: the offset stands for the [Allocated] handle, whose
    [value] accessors are [alloc_get] and [alloc_set]. *)
Definition alloc (t : ty) : M buf Z := bump (ty_size t).
Definition alloc_get (t : ty) (offset : Z) : M buf value :=
  b ← get_state; lift (ty_get t (dv_of (b_array b)) offset).
Definition alloc_set (t : ty) (offset : Z) (v : value) : M buf unit :=
  b ← get_state;
  next ← lift (ty_set t (dv_of (b_array b)) offset v);
  put_state (Buf next (b_length b)).

(** [bytes.alloc(T).value = v] *)
Definition emit (t : ty) (v : value) : M buf Z :=
  o ← alloc t; alloc_set t o v ;; mret o.

(** * Specification: the encoding of a value

    [enc t v] is the byte string that stands for [v] at type [t]; [typed t v]
    says that [v] has exactly the shape of [t] and its numbers are in range. *)
Definition sc_in_range (s : scalar) (z : Z) : bool :=
  if sc_signed s
  then ((- 2 ^ (sc_bits s - 1) <=? z) && (z <? 2 ^ (sc_bits s - 1)))%bool
  else ((0 <=? z) && (z <? 2 ^ sc_bits s))%bool.

Section loops.
Context (f : ty → value → list Z) (p : ty → value → bool).

Fixpoint enc_fields (layout : list (string * ty)) (fs : list (string * value)) : list Z :=
  match layout, fs with
  | (_, t) :: layout, (_, v) :: fs => f t v ++ enc_fields layout fs
  | _, _ => []
  end.

Fixpoint typed_fields (layout : list (string * ty)) (fs : list (string * value)) : bool :=
  match layout, fs with
  | [], [] => true
  | (k, t) :: layout, (k', v) :: fs =>
      (String.eqb k k' && p t v && typed_fields layout fs)%bool
  | _, _ => false
  end.
End loops.

Fixpoint enc (t : ty) (v : value) : list Z :=
  match t, v with
  | Scalar s, Num z => sc_encode s z
  | FixedArray t n, Arr vs => concat (enc t <$> vs)
  | Struct layout, Obj fs => enc_fields enc layout fs
  | _, _ => []
  end.

Definition widths_ok (s : scalar) : bool := (0 <? sc_bits s).

Fixpoint typed (t : ty) (v : value) : bool :=
  match t, v with
  | Scalar s, Num z => (widths_ok s && sc_in_range s z)%bool
  | FixedArray t n, Arr vs => (Nat.eqb (length vs) n && forallb (typed t) vs)%bool
  | Struct layout, Obj fs =>
      (typed_fields typed layout fs && bool_decide (NoDup (fst <$> layout)))%bool
  | _, _ => false
  end.

Definition dv_ok (dv : dataview) : Prop :=
  0 ≤ dv_offset dv ∧ 0 ≤ dv_length dv ∧ dv_offset dv + dv_length dv ≤ zlen (dv_buffer dv).

(** * Scalars: lemmas *)
Lemma length_le_encode n z : length (le_encode n z) = n.
Proof. revert z; induction n; simpl; auto. Qed.
Lemma bytes_ok_le_encode n z : bytes_ok (le_encode n z).
Proof.
  revert z; induction n; intros; simpl; constructor; auto.
  unfold byte_ok; pose proof (Z.mod_pos_bound z 256); lia.
Qed.
Lemma le_decode_encode n z : 0 ≤ z < 256 ^ Z.of_nat n → le_decode (le_encode n z) = z.
Proof.
  revert z; induction n as [|n IH]; intros z Hz; simpl.
  - change (256 ^ Z.of_nat 0) with 1 in Hz; lia.
  - rewrite Nat2Z.inj_succ, Z.pow_succ_r in Hz by lia. rewrite IH.
    + pose proof (Z.div_mod z 256); lia.
    + split; [apply Z.div_pos; lia | apply Z.div_lt_upper_bound; lia].
Qed.
Lemma le_encode_decode l : bytes_ok l → le_encode (length l) (le_decode l) = l.
Proof.
  induction 1 as [|b l Hb Hl IH]; simpl; [done|]. unfold byte_ok in Hb. f_equal.
  - rewrite Z.mul_comm, Z.mod_add, Z.mod_small; lia.
  - rewrite Z.mul_comm, Z.div_add, Z.div_small by lia. apply IH.
Qed.
Lemma le_decode_bound l : bytes_ok l → 0 ≤ le_decode l < 256 ^ Z.of_nat (length l).
Proof.
  induction 1 as [|b l Hb Hl IH]; simpl le_decode; simpl length; [done|].
  unfold byte_ok in Hb. rewrite Nat2Z.inj_succ, Z.pow_succ_r by lia. lia.
Qed.

Lemma pow_256 n : 256 ^ Z.of_nat n = 2 ^ (8 * Z.of_nat n).
Proof. rewrite Z.pow_mul_r by lia. done. Qed.

Lemma length_sc_encode s z : length (sc_encode s z) = sc_width s.
Proof.
  unfold sc_encode. destruct (sc_little s); rewrite ?length_reverse; apply length_le_encode.
Qed.
Lemma bytes_ok_sc_encode s z : bytes_ok (sc_encode s z).
Proof.
  unfold sc_encode. destruct (sc_little s); [|apply Forall_reverse];
  apply bytes_ok_le_encode.
Qed.

Lemma sc_decode_encode s z :
  widths_ok s = true → sc_in_range s z = true → sc_decode s (sc_encode s z) = z.
Proof.
  unfold widths_ok, sc_in_range, sc_decode, sc_encode. intros Hw Hr. zbool.
  assert (Hm : le_decode (le_encode (sc_width s) (z mod 2 ^ sc_bits s)) = z mod 2 ^ sc_bits s).
  { apply le_decode_encode. rewrite pow_256. apply Z.mod_pos_bound, Z.pow_pos_nonneg; lia. }
  assert (Hl : (if sc_little s
                then if sc_little s then le_encode (sc_width s) (z mod 2 ^ sc_bits s)
                     else reverse (le_encode (sc_width s) (z mod 2 ^ sc_bits s))
                else reverse (if sc_little s then le_encode (sc_width s) (z mod 2 ^ sc_bits s)
                     else reverse (le_encode (sc_width s) (z mod 2 ^ sc_bits s))))
               = le_encode (sc_width s) (z mod 2 ^ sc_bits s)).
  { destruct (sc_little s); [done|]. apply reverse_involutive. }
  rewrite Hl, Hm.
  assert (H2 : 2 ^ sc_bits s = 2 * 2 ^ (sc_bits s - 1)).
  { rewrite <- Z.pow_succ_r by lia. f_equal; lia. }
  assert (0 < 2 ^ (sc_bits s - 1)) by (apply Z.pow_pos_nonneg; lia).
  destruct (sc_signed s); simpl; zbool; [|by apply Z.mod_small; lia].
  destruct (decide (0 ≤ z)).
  - rewrite Z.mod_small by lia. destruct (Z.leb_spec (2 ^ (sc_bits s - 1)) z); lia.
  - assert (z mod 2 ^ sc_bits s = z + 2 ^ sc_bits s) as ->.
    { rewrite <- (Z.mod_add z 1) by lia. rewrite Z.mul_1_l, Z.mod_small; lia. }
    destruct (Z.leb_spec (2 ^ (sc_bits s - 1)) (z + 2 ^ sc_bits s)); lia.
Qed.

(** * Structure of types *)
Section ty_ind.
Context (P : ty → Prop).
Context (HS : ∀ s, P (Scalar s)) (HA : ∀ t n, P t → P (FixedArray t n)).
Context (HR : ∀ layout, Forall (fun kt => P kt.2) layout → P (Struct layout)).

Fixpoint ty_induction (t : ty) : P t :=
  match t with
  | Scalar s => HS s
  | FixedArray t n => HA t n (ty_induction t)
  | Struct layout =>
      HR layout ((fix go (l : list (string * ty)) : Forall (fun kt => P kt.2) l :=
        match l with
        | [] => Forall_nil_2 _
        | (k, t) :: l => Forall_cons_2 (fun kt => P kt.2) (k, t) l (ty_induction t) (go l)
        end) layout)
  end.
End ty_ind.

Lemma ty_size_nonneg t : 0 ≤ ty_size t.
Proof.
  induction t as [s|t n IH|layout IH] using ty_induction; simpl; [lia|nia|].
  induction IH as [|[k t] l Ht Hl IHl]; simpl in *; lia.
Qed.
#[export] Hint Resolve ty_size_nonneg : core.

Definition layout_size (layout : list (string * ty)) : Z :=
  foldr (fun '(_, t) acc => ty_size t + acc) 0 layout.

Lemma typed_array t n vs :
  typed (FixedArray t n) (Arr vs) = true →
  length vs = n ∧ Forall (fun v => typed t v = true) vs.
Proof.
  cbn [typed]. intros [Hn%Nat.eqb_eq Ht]%andb_true_iff. split; [done|].
  apply List.Forall_forall. by apply forallb_forall.
Qed.

Lemma zlen_enc t v : typed t v = true → zlen (enc t v) = ty_size t.
Proof.
  revert v; induction t as [s|t n IH|layout IH] using ty_induction;
    intros [|z|vs|fs] Ht; try discriminate.
  - unfold zlen; cbn [enc ty_size]; by rewrite length_sc_encode.
  - apply typed_array in Ht as [<- Ht]. cbn [enc ty_size].
    induction Ht as [|v vs Hv Hvs IHvs]; [by rewrite Z.mul_0_r|].
    rewrite fmap_cons. cbn [concat length]. rewrite zlen_app, IH, IHvs by done. lia.
  - cbn [typed enc ty_size] in *. apply andb_true_iff in Ht as [Ht _].
    revert fs Ht; induction IH as [|[k t] l Hk Hl IHl]; intros [|[k' v] fs] Ht;
      simpl in *; try discriminate; [done|]. zbool.
    rewrite zlen_app, Hk, IHl by done. lia.
Qed.

Lemma zlen_enc_elements t vs :
  Forall (fun v => typed t v = true) vs →
  zlen (concat (enc t <$> vs)) = ty_size t * Z.of_nat (length vs).
Proof.
  induction 1; [by rewrite Z.mul_0_r|]. rewrite fmap_cons. cbn [concat length].
  rewrite zlen_app, zlen_enc by done. lia.
Qed.
Lemma zlen_enc_fields layout fs :
  typed_fields typed layout fs = true → zlen (enc_fields enc layout fs) = layout_size layout.
Proof.
  revert fs; induction layout as [|[k t] l IH]; intros [|[k' v] fs] H; simpl in *;
    try discriminate; [done|]. zbool. by rewrite zlen_app, zlen_enc, IH.
Qed.
Lemma layout_size_cons k t l : layout_size ((k, t) :: l) = ty_size t + layout_size l.
Proof. done. Qed.
Lemma layout_size_nonneg layout : 0 ≤ layout_size layout.
Proof. exact (ty_size_nonneg (Struct layout)). Qed.
#[export] Hint Resolve layout_size_nonneg : core.

Lemma length_enc t v : typed t v = true → length (enc t v) = Z.to_nat (ty_size t).
Proof. intros H%zlen_enc. unfold zlen in H; lia. Qed.
Lemma bytes_ok_enc t v : bytes_ok (enc t v).
Proof.
  revert v; induction t as [s|t n IH|layout IH] using ty_induction;
    intros [|z|vs|fs]; simpl; auto using bytes_ok_sc_encode.
  - induction vs; simpl; auto with js.
  - revert fs; induction IH as [|[k t] l Hk Hl IHl]; intros [|[k' v] fs]; simpl; auto with js.
Qed.
#[export] Hint Resolve bytes_ok_enc : js.

(** * Reading back what was written *)
Lemma dv_read_ok dv o n :
  0 ≤ o → o + Z.of_nat n ≤ dv_length dv →
  dv_read dv o n = Done (take n (drop (Z.to_nat (dv_offset dv + o)) (dv_buffer dv))).
Proof. intros; unfold dv_read; by rewrite bool_decide_eq_true_2. Qed.
Lemma dv_write_ok dv o bs :
  0 ≤ o → o + zlen bs ≤ dv_length dv →
  dv_write dv o bs = Done (splice (dv_buffer dv) (Z.to_nat (dv_offset dv + o)) bs).
Proof. intros; unfold dv_write; by rewrite bool_decide_eq_true_2. Qed.

Lemma narrow_ok dv o n :
  dv_ok dv → 0 ≤ o → 0 ≤ n → o + n ≤ dv_length dv →
  ∃ dv', narrow dv o = Done dv' ∧ dv_ok dv' ∧ dv_buffer dv' = dv_buffer dv
    ∧ dv_offset dv' = dv_offset dv + o ∧ n ≤ dv_length dv'.
Proof.
  intros (?&?&?) ???. unfold narrow, new_dataview.
  destruct (Z.eqb_spec o 0) as [->|?].
  - exists dv. unfold dv_ok. split_and!; try done; lia.
  - rewrite bool_decide_eq_true_2 by lia. eexists. split; [done|].
    unfold dv_ok; simpl. split_and!; try done; lia.
Qed.

(** The bytes of the buffer that the window shows at [o, o + n). *)
Definition window (dv : dataview) (o n : Z) : list Z :=
  take (Z.to_nat n) (drop (Z.to_nat (dv_offset dv + o)) (dv_buffer dv)).

Lemma window_app dv o a b :
  0 ≤ dv_offset dv → 0 ≤ o →
  window dv o (zlen a + zlen b) = a ++ b →
  window dv o (zlen a) = a ∧ window dv (o + zlen a) (zlen b) = b.
Proof.
  unfold window; intros ?? H.
  rewrite Z2Nat.inj_add in H by auto. rewrite !zlen_to_nat in *. split.
  - apply (f_equal (take (length a))) in H.
    rewrite take_take, Nat.min_l, take_app_length in H by lia. done.
  - apply (f_equal (drop (length a))) in H.
    rewrite drop_app_length in H. etrans; [|exact H].
    rewrite skipn_firstn_comm, drop_drop.
    replace (length a + length b - length a)%nat with (length b) by lia.
    do 2 f_equal. unfold zlen; lia.
Qed.

(** The bytes of the encoding read as the value. *)
Definition reads_enc (t : ty) : Prop := ∀ v dv o,
  dv_ok dv → typed t v = true → 0 ≤ o → o + ty_size t ≤ dv_length dv →
  window dv o (ty_size t) = enc t v → ty_get t dv o = Done v.

Lemma get_elements_enc t dv vs o :
  reads_enc t → dv_ok dv → Forall (fun v => typed t v = true) vs →
  0 ≤ o → o + ty_size t * Z.of_nat (length vs) ≤ dv_length dv →
  window dv o (ty_size t * Z.of_nat (length vs)) = concat (enc t <$> vs) →
  get_elements ty_get t dv (length vs) o = Done vs.
Proof.
  intros Hget Hdv Hvs; revert o.
  induction Hvs as [|v vs Hv Hvs IH]; intros o Ho Hlen Hw; [done|].
  rewrite fmap_cons in Hw. cbn [concat length] in *. rewrite Nat2Z.inj_succ in *.
  pose proof (zlen_enc_elements t vs Hvs) as Hz. pose proof (ty_size_nonneg t).
  replace (ty_size t * Z.succ (Z.of_nat (length vs)))
    with (zlen (enc t v) + zlen (concat (enc t <$> vs))) in * by (rewrite Hz, zlen_enc by done; lia).
  apply window_app in Hw as [Hw1 Hw2]; [|apply Hdv|done].
  rewrite Hz in *. rewrite zlen_enc in * by done.
  cbn [get_elements]. rewrite (Hget v) by (try done; nia). simpl.
  rewrite IH; [done|lia|lia|done].
Qed.

Lemma get_fields_enc layout fs dv o :
  Forall (fun kt => reads_enc kt.2) layout → dv_ok dv →
  typed_fields typed layout fs = true →
  0 ≤ o → o + layout_size layout ≤ dv_length dv →
  window dv o (layout_size layout) = enc_fields enc layout fs →
  get_fields ty_get dv layout o = Done fs.
Proof.
  intros Hget Hdv; revert fs o.
  induction Hget as [|[k t] l Ht Hl IH]; intros [|[k' v] fs] o Hty Ho Hlen Hw;
    cbn [typed_fields] in Hty; try discriminate; [done|]. zbool.
  apply String.eqb_eq in H; subst k'.
  rewrite layout_size_cons in *. cbn [enc_fields snd] in *.
  pose proof (ty_size_nonneg t). pose proof (layout_size_nonneg l).
  rewrite <- (zlen_enc t v), <- (zlen_enc_fields l fs) in Hw by done.
  apply window_app in Hw as [Hw1 Hw2]; [|apply Hdv|done].
  rewrite zlen_enc in * by done. rewrite (zlen_enc_fields l fs) in * by done.
  cbn [get_fields]. rewrite (Ht v) by (try done; lia). simpl.
  rewrite (IH fs); [done|done|lia|lia|done].
Qed.

Lemma ty_get_enc t : reads_enc t.
Proof.
  induction t as [s|t n IH|layout IH] using ty_induction;
    intros [|z|vs|fs] dv o Hdv Ht Ho Hlen Hw; try discriminate; cbn [ty_get].
  - cbn [typed ty_size enc] in *. zbool. rewrite dv_read_ok by lia. simpl.
    unfold window in Hw. rewrite Nat2Z.id in Hw. by rewrite Hw, sc_decode_encode.
  - apply typed_array in Ht as [<- Ht].
    by rewrite (get_elements_enc _ _ vs) by done.
  - cbn [typed] in Ht. zbool.
    destruct (narrow_ok dv o (ty_size (Struct layout))) as (dv'&->&Hdv'&Hb&Hoff&Hl); auto.
    simpl. rewrite (get_fields_enc _ fs); [done|done|done|done|lia|exact Hl|].
    change (enc_fields enc layout fs) with (enc (Struct layout) (Obj fs)).
    change (layout_size layout) with (ty_size (Struct layout)).
    rewrite <- Hw. unfold window. rewrite Hb, Hoff. do 3 f_equal; lia.
Qed.

(** * Writing *)
Lemma splice_splice_next (l a b : list Z) i :
  (i + length a + length b ≤ length l)%nat →
  splice (splice l i a) (i + length a) b = splice l i (a ++ b).
Proof.
  intros Hl.
  assert (∃ l1 l2 l3 l4, l = l1 ++ l2 ++ l3 ++ l4 ∧ length l1 = i ∧
    length l2 = length a ∧ length l3 = length b) as (l1&l2&l3&l4&->&<-&H2&H3).
  { exists (take i l), (take (length a) (drop i l)),
      (take (length b) (drop (length a) (drop i l))), (drop (length b) (drop (length a) (drop i l))).
    rewrite !take_drop, !length_take, !length_drop. repeat split; lia. }
  rewrite (splice_app_l l1 l2) by done.
  rewrite (app_assoc l1 a). rewrite <- length_app, (splice_app_l (l1 ++ a) l3) by done.
  rewrite (app_assoc l2 l3), (splice_app_l l1 (l2 ++ l3)) by (rewrite !length_app; lia).
  by rewrite <- !app_assoc.
Qed.

Lemma splice_nil (l : list Z) i : splice l i [] = l.
Proof. unfold splice; simpl. rewrite Nat.add_0_r. apply take_drop. Qed.

(** Writing a value puts its encoding at its offset and changes nothing else. *)
Definition writes_enc (t : ty) : Prop := ∀ v dv o,
  dv_ok dv → typed t v = true → 0 ≤ o → o + ty_size t ≤ dv_length dv →
  ty_set t dv o v = Done (splice (dv_buffer dv) (Z.to_nat (dv_offset dv + o)) (enc t v)).

Lemma with_buffer_ok dv i src :
  dv_ok dv → (i + length src ≤ length (dv_buffer dv))%nat →
  dv_ok (with_buffer dv (splice (dv_buffer dv) i src)).
Proof.
  unfold dv_ok, with_buffer; simpl. intros ??. unfold zlen. by rewrite length_splice.
Qed.

(** Two writes in a row, through the same window. *)
Lemma splice_window_next dv o a b :
  dv_ok dv → 0 ≤ o → o + zlen a + zlen b ≤ dv_length dv →
  splice (splice (dv_buffer dv) (Z.to_nat (dv_offset dv + o)) a)
    (Z.to_nat (dv_offset dv + (o + zlen a))) b
  = splice (dv_buffer dv) (Z.to_nat (dv_offset dv + o)) (a ++ b).
Proof.
  intros (?&?&?) ??. unfold zlen in *.
  replace (Z.to_nat (dv_offset dv + (o + Z.of_nat (length a))))
    with (Z.to_nat (dv_offset dv + o) + length a)%nat by lia.
  apply splice_splice_next; lia.
Qed.

Lemma set_elements_enc t dv vs o :
  writes_enc t → dv_ok dv → Forall (fun v => typed t v = true) vs →
  0 ≤ o → o + ty_size t * Z.of_nat (length vs) ≤ dv_length dv →
  set_elements ty_set t dv (length vs) vs o
  = Done (splice (dv_buffer dv) (Z.to_nat (dv_offset dv + o)) (concat (enc t <$> vs))).
Proof.
  intros Hset Hdv Hvs; revert dv o Hdv.
  induction Hvs as [|v vs Hv Hvs IH]; intros dv o Hdv Ho Hlen.
  { cbn. by rewrite splice_nil. }
  rewrite fmap_cons. cbn [set_elements concat length head tail default option_fmap from_option] in *.
  pose proof (ty_size_nonneg t). pose proof (zlen_enc t v Hv).
  pose proof (zlen_enc_elements t vs Hvs). rewrite Nat2Z.inj_succ in Hlen.
  rewrite Hset by (try done; nia). simpl.
  rewrite IH; [|apply with_buffer_ok; [done|]|lia|simpl; lia].
  - simpl. f_equal. rewrite <- H0. apply splice_window_next; [done|done|lia].
  - destruct Hdv as (?&?&?). unfold zlen in *. nia.
Qed.

Lemma set_fields_enc layout all fs dv o :
  Forall (fun kt => writes_enc kt.2) layout → dv_ok dv →
  typed_fields typed layout fs = true →
  (∀ k v, (k, v) ∈ fs → assoc k all = Some v) →
  0 ≤ o → o + layout_size layout ≤ dv_length dv →
  set_fields ty_set dv layout all o
  = Done (splice (dv_buffer dv) (Z.to_nat (dv_offset dv + o)) (enc_fields enc layout fs)).
Proof.
  intros Hset; revert fs dv o.
  induction Hset as [|[k t] l Ht Hl IH]; intros [|[k' v] fs] dv o Hdv Hty Hall Ho Hlen;
    cbn [typed_fields] in Hty; try discriminate.
  { cbn. by rewrite splice_nil. }
  zbool. apply String.eqb_eq in H; subst k'.
  rewrite layout_size_cons in *. cbn [set_fields enc_fields snd] in *.
  pose proof (ty_size_nonneg t). pose proof (layout_size_nonneg l).
  pose proof (zlen_enc t v H1) as Hz. pose proof (zlen_enc_fields l fs H0) as Hz'.
  rewrite (Hall k v) by set_solver. rewrite Ht by (try done; lia). simpl.
  rewrite (IH fs); [|apply with_buffer_ok; [done|]|done|set_solver|lia|simpl; lia].
  - simpl. f_equal. rewrite <- Hz. apply splice_window_next; [done|done|lia].
  - destruct Hdv as (?&?&?). unfold zlen in *. lia.
Qed.

Lemma assoc_typed layout fs k v :
  typed_fields typed layout fs = true → NoDup (fst <$> layout) →
  (k, v) ∈ fs → assoc k fs = Some v.
Proof.
  revert fs; induction layout as [|[k1 t] l IH]; intros [|[k' v'] fs] Ht Hnd Hin;
    cbn [typed_fields] in Ht; try discriminate; [by apply not_elem_of_nil in Hin|].
  zbool. apply String.eqb_eq in H; subst k'. rewrite fmap_cons in Hnd.
  apply NoDup_cons in Hnd as [Hk Hnd]. cbn [assoc].
  apply elem_of_cons in Hin as [[= -> ->]|Hin]; [by rewrite String.eqb_refl|].
  destruct (String.eqb_spec k k1) as [->|]; [|eauto].
  exfalso. apply Hk. clear -H0 Hin. revert fs H0 Hin.
  induction l as [|[k2 t2] l IH]; intros [|[k' v'] fs] H Hin; cbn [typed_fields] in H;
    try discriminate; [by apply not_elem_of_nil in Hin|].
  zbool. apply String.eqb_eq in H; subst k'. rewrite fmap_cons.
  apply elem_of_cons in Hin as [[= -> ->]|Hin]; set_solver.
Qed.

Lemma ty_set_enc t : writes_enc t.
Proof.
  induction t as [s|t n IH|layout IH] using ty_induction;
    intros [|z|vs|fs] dv o Hdv Ht Ho Hlen; try discriminate; cbn [ty_set].
  - cbn [sc_set ty_size enc] in *. apply dv_write_ok; [done|].
    unfold zlen. by rewrite length_sc_encode.
  - apply typed_array in Ht as [<- Ht]. by rewrite set_elements_enc.
  - cbn [typed] in Ht. zbool.
    destruct (narrow_ok dv o (ty_size (Struct layout))) as (dv'&->&Hdv'&Hb&Hoff&Hl); auto.
    simpl. rewrite (set_fields_enc layout fs fs); [|done|done|done| |done|exact Hl].
    + rewrite Hb, Hoff. cbn [enc]. do 2 f_equal. lia.
    + intros; by eapply assoc_typed.
Qed.

(** * The growable buffer *)

(** [b] holds the bytes [l]; the rest of its array is still zero. *)
Definition repr (b : buf) (l : list Z) : Prop :=
  b_array b = l ++ zeros (capacity b - zlen l) ∧ b_length b = zlen l ∧ zlen l ≤ capacity b.

(** [m], run on a non-empty buffer holding [l], returns [a] and leaves [l']. *)
Definition builds {A} (m : M buf A) (l : list Z) (a : A) (l' : list Z) : Prop :=
  ∀ b, repr b l → 0 < capacity b → ∃ b', m b = (Done a, b') ∧ repr b' l' ∧ 0 < capacity b'.

Lemma repr_new n : 0 ≤ n → repr (bytes_new n) [].
Proof.
  intros. unfold repr, bytes_new, capacity; simpl. rewrite zlen_zeros by done.
  rewrite zlen_nil, Z.sub_0_r. auto with lia.
Qed.
Lemma capacity_new n : 0 ≤ n → capacity (bytes_new n) = n.
Proof. apply zlen_zeros. Qed.

Lemma repr_array b l : repr b l → array b = l.
Proof.
  intros (Ha & Hl & Hc). unfold array. rewrite Hl, Ha. apply subarray_app_l.
Qed.

(** From a non-empty buffer the doubling loop ends, with enough room. *)
Lemma grow_done fuel l cap :
  0 < l → (Z.to_nat (cap - l) ≤ fuel)%nat → ∃ l', grow fuel l cap = Done l' ∧ l ≤ l' ∧ cap ≤ l'.
Proof.
  revert l; induction fuel as [|fuel IH]; intros l Hl Hf; simpl.
  - destruct (Z.ltb_spec l cap); [lia|]. exists l; auto with lia.
  - destruct (Z.ltb_spec l cap); [|exists l; auto with lia].
    destruct (IH (l * 2)) as (l'&->&?&?); [lia|lia|]. exists l'; auto with lia.
Qed.
(** From an empty buffer it runs for ever. *)
Lemma grow_zero fuel cap : 0 < cap → grow fuel 0 cap = Loops.
Proof.
  intros; induction fuel as [|fuel IH]; simpl; destruct (Z.ltb_spec 0 cap); auto; lia.
Qed.

Lemma splice_zeros_l (l : list Z) n :
  zlen l ≤ n → splice (zeros n) 0 l = l ++ zeros (n - zlen l).
Proof.
  intros; unfold splice, zeros, zlen in *. rewrite take_0, app_nil_l, drop_replicate.
  do 2 f_equal. lia.
Qed.

Lemma zeros_app a b : 0 ≤ a → 0 ≤ b → zeros a ++ zeros b = zeros (a + b).
Proof.
  intros; unfold zeros. rewrite <- replicate_add. f_equal; lia.
Qed.

Lemma ensure_capacity_spec b l cap :
  repr b l → 0 < capacity b ∨ cap ≤ 0 → zlen l ≤ cap →
  ∃ b', ensure_capacity b cap = Done b' ∧ repr b' l ∧ b_length b' = b_length b
    ∧ capacity b ≤ capacity b' ∧ cap ≤ capacity b'.
Proof.
  intros (Ha & Hl & Hc) Hcap Hle. unfold ensure_capacity. fold (capacity b).
  destruct (Z.ltb_spec (capacity b) cap).
  - pose proof (zlen_nonneg (b_array b)); fold (capacity b) in *.
    destruct (grow_done (Z.to_nat cap) (capacity b) cap) as (n&->&?&?); [lia|lia|].
    simpl. rewrite ta_set_ok; [|lia|rewrite zlen_zeros by lia; fold (capacity b); lia].
    simpl. eexists; split; [done|]. unfold repr, capacity; simpl.
    rewrite splice_zeros_l by (fold (capacity b); lia).
    fold (capacity b). rewrite zlen_app, zlen_zeros by lia. fold (capacity b).
    repeat split; try lia. rewrite Ha, <- app_assoc, zeros_app by lia. do 2 f_equal. lia.
  - exists b; unfold repr; auto with lia.
Qed.

Lemma bump_spec b l n :
  repr b l → 0 ≤ n → 0 < capacity b ∨ n = 0 →
  ∃ b', bump n b = (Done (zlen l), b') ∧ repr b' (l ++ zeros n) ∧ capacity b ≤ capacity b'.
Proof.
  intros Hr Hn Hcap. destruct Hr as (Ha & Hl & Hc).
  destruct (ensure_capacity_spec b l (zlen l + n)) as (b'&He&(Ha'&Hl'&Hc')&?&?&?);
    [done|pose proof (zlen_nonneg l); destruct Hcap; [by left|] |lia|].
  { subst n. destruct (decide (0 < capacity b)); [by left|right; lia]. }
  unfold bump. rewrite Hl, He. eexists; split; [done|].
  unfold repr, capacity in *; simpl. rewrite zlen_app, zlen_zeros by done.
  repeat split; try lia. rewrite Ha' at 1. rewrite <- app_assoc, zeros_app by lia.
  do 2 f_equal; lia.
Qed.

Lemma repr_write b l o bs :
  repr b l → 0 ≤ o → o + zlen bs ≤ zlen l →
  repr (Buf (splice (b_array b) (Z.to_nat o) bs) (b_length b)) (splice l (Z.to_nat o) bs)
  ∧ capacity (Buf (splice (b_array b) (Z.to_nat o) bs) (b_length b)) = capacity b.
Proof.
  intros (Ha & Hl & Hc) Ho Hb. unfold zlen in *.
  assert (Hcap : capacity (Buf (splice (b_array b) (Z.to_nat o) bs) (b_length b)) = capacity b).
  { unfold capacity, zlen in *; simpl. rewrite length_splice; lia. }
  split; [|done]. unfold repr. rewrite Hcap; simpl. unfold zlen.
  rewrite length_splice by lia. repeat split; try lia.
  rewrite Ha at 1. unfold splice. rewrite take_app_le, drop_app_le, <- !app_assoc by lia. done.
Qed.

Lemma append_spec b l bs :
  repr b l → 0 < capacity b ∨ bs = [] →
  ∃ b', append bs b = (Done tt, b') ∧ repr b' (l ++ bs) ∧ capacity b ≤ capacity b'.
Proof.
  intros Hr Hcap.
  destruct (bump_spec b l (zlen bs)) as (b'&Hb&Hr'&?); [done|done|naive_solver|].
  unfold append. unfold mbind, M_bind. rewrite Hb. simpl.
  assert (Hc' := Hr'). destruct Hc' as (_&_&Hc'). rewrite zlen_app, zlen_zeros in Hc' by done.
  rewrite ta_set_ok by (fold (capacity b'); auto with lia). simpl.
  eexists; split; [done|].
  destruct (repr_write b' _ (zlen l) bs Hr') as [Hw Hcw];
    [done|rewrite zlen_app, zlen_zeros by done; lia|].
  rewrite Hcw. split; [|done]. rewrite zlen_to_nat in *.
  assert (splice (l ++ zeros (zlen bs)) (length l) bs = l ++ bs) as <-; [|done].
  rewrite <- (app_nil_r (zeros _)), (splice_app_l l), app_nil_r; [done|].
  unfold zeros; by rewrite length_replicate, zlen_to_nat.
Qed.

(** Appending what there is room for leaves the capacity alone. *)
Lemma append_room b l bs :
  repr b l → zlen l + zlen bs ≤ capacity b →
  ∃ b', append bs b = (Done tt, b') ∧ repr b' (l ++ bs) ∧ capacity b' = capacity b.
Proof.
  intros Hr Hroom. assert (H := Hr). destruct H as (Ha & Hl & Hc).
  assert (Hcap : 0 < capacity b ∨ bs = []).
  { pose proof (zlen_nonneg l). pose proof (zlen_nonneg bs).
    destruct (decide (zlen bs = 0)) as [?%zlen_0_nil|]; [by right|left; lia]. }
  destruct (append_spec b l bs Hr Hcap) as (b'&E&Hr'&_).
  exists b'. split_and!; [done|done|]. revert E.
  unfold append, bump, mbind, M_bind, ensure_capacity. rewrite Hl. fold (capacity b).
  assert ((capacity b <? zlen l + zlen bs) = false) as -> by (apply Z.ltb_ge; lia).
  cbn [get_state b_array lift]. unfold ta_set. case_bool_decide as Hb; [|done].
  intros [= <-]. unfold capacity in *; cbn [b_array]. unfold zlen in *.
  rewrite length_splice; [done|lia].
Qed.

Lemma alloc_set_spec b l t o v :
  repr b l → typed t v = true → 0 ≤ o → o + ty_size t ≤ zlen l →
  ∃ b', alloc_set t o v b = (Done tt, b') ∧ repr b' (splice l (Z.to_nat o) (enc t v))
    ∧ capacity b' = capacity b.
Proof.
  intros Hr Ht Ho Hl. assert (Hc := Hr). destruct Hc as (_&_&Hc).
  unfold alloc_set, mbind, M_bind, get_state, lift, put_state.
  rewrite ty_set_enc; simpl; [| |done|done|fold (capacity b); lia].
  - eexists; split; [done|]. apply repr_write; [done|done|]. by rewrite zlen_enc.
  - unfold dv_ok; simpl. pose proof (zlen_nonneg (b_array b)); lia.
Qed.

Lemma alloc_get_spec b l t o v :
  repr b l → typed t v = true → 0 ≤ o → o + ty_size t ≤ zlen l →
  subarray l o (o + ty_size t) = enc t v → alloc_get t o b = (Done v, b).
Proof.
  intros (Ha & Hl & Hc) Ht Ho Hle Hs. unfold alloc_get, mbind, M_bind, get_state, lift.
  pose proof (ty_size_nonneg t).
  rewrite (ty_get_enc t v); [done| |done|done|simpl; fold (capacity b); lia|].
  - unfold dv_ok; simpl. pose proof (zlen_nonneg (b_array b)); lia.
  - rewrite <- Hs. unfold window, subarray; simpl. rewrite Ha.
    unfold zlen in *. rewrite drop_app_le, take_app_le; [|rewrite length_drop; lia|lia].
    f_equal; lia.
Qed.

Section builds.
Implicit Types l : list Z.

Lemma builds_ret {A} (a : A) l : builds (mret a) l a l.
Proof. intros b ??; exists b; auto. Qed.
Lemma builds_bind {A B} (m : M buf A) (f : A → M buf B) l a l1 r l2 :
  builds m l a l1 → builds (f a) l1 r l2 → builds (m ≫= f) l r l2.
Proof.
  intros Hm Hf b Hr Hc. destruct (Hm b Hr Hc) as (b1&E&Hr1&Hc1).
  unfold mbind, M_bind. rewrite E. by apply Hf.
Qed.
Lemma builds_eq {A} (m : M buf A) l a l1 l2 : builds m l a l1 → l1 = l2 → builds m l a l2.
Proof. by intros ? <-. Qed.
Lemma builds_append l bs : builds (append bs) l tt (l ++ bs).
Proof.
  intros b Hr Hc. destruct (append_spec b l bs) as (b'&?&?&?); auto with lia.
  exists b'; auto with lia.
Qed.
Lemma builds_bump l n : 0 ≤ n → builds (bump n) l (zlen l) (l ++ zeros n).
Proof.
  intros Hn b Hr Hc. destruct (bump_spec b l n) as (b'&?&?&?); auto with lia.
  exists b'; auto with lia.
Qed.
Lemma builds_alloc l t : builds (alloc t) l (zlen l) (l ++ zeros (ty_size t)).
Proof. by apply builds_bump. Qed.
Lemma builds_alloc_set l t o v :
  typed t v = true → 0 ≤ o → o + ty_size t ≤ zlen l →
  builds (alloc_set t o v) l tt (splice l (Z.to_nat o) (enc t v)).
Proof.
  intros ??? b Hr Hc. destruct (alloc_set_spec b l t o v) as (b'&?&?&?); auto.
  exists b'; auto with lia.
Qed.
Lemma builds_emit l t v : typed t v = true → builds (emit t v) l (zlen l) (l ++ enc t v).
Proof.
  intros Ht. eapply builds_bind; [apply builds_alloc|].
  eapply builds_bind; [|apply builds_ret].
  replace (l ++ enc t v) with (splice (l ++ zeros (ty_size t)) (Z.to_nat (zlen l)) (enc t v)).
  - apply builds_alloc_set; [done|done|]. rewrite zlen_app, zlen_zeros by done; lia.
  - rewrite zlen_to_nat, <- (app_nil_r (zeros _)), (splice_app_l l), app_nil_r; [done|].
    rewrite length_enc by done. unfold zeros. by rewrite length_replicate.
Qed.
End builds.
#[export] Hint Resolve builds_ret builds_append builds_alloc builds_emit : js.

(** Assigning one field of a struct writes that field alone. *)
Lemma layout_size_app l1 l2 : layout_size (l1 ++ l2) = layout_size l1 + layout_size l2.
Proof. induction l1 as [|[k t] l1 IH]; [done|]. cbn [app]. rewrite !layout_size_cons, IH. lia. Qed.

Lemma set_fields_other dv layout k v o :
  k ∉ (fst <$> layout) → set_fields ty_set dv layout [(k, v)] o = Done (dv_buffer dv).
Proof.
  revert o; induction layout as [|[k' t] l IH]; intros o Hk; [done|].
  rewrite fmap_cons in Hk. cbn [set_fields assoc].
  destruct (String.eqb_spec k' k) as [->|]; [set_solver|]. cbn [mbind outcome_bind].
  replace (with_buffer dv (dv_buffer dv)) with dv by by destruct dv. apply IH. set_solver.
Qed.

Lemma set_fields_one dv l1 k t l2 v o :
  k ∉ (fst <$> l1) → k ∉ (fst <$> l2) →
  set_fields ty_set dv (l1 ++ (k, t) :: l2) [(k, v)] o =
    (buffer ← ty_set t dv (o + layout_size l1) v; Done buffer).
Proof.
  revert o; induction l1 as [|[k' t'] l IH]; intros o H1 H2.
  - cbn [app set_fields assoc]. rewrite String.eqb_refl, Z.add_0_r.
    destruct (ty_set t dv o v); [|done..]. cbn [mbind outcome_bind]. by rewrite set_fields_other.
  - rewrite fmap_cons in H1. cbn [app set_fields assoc].
    destruct (String.eqb_spec k' k) as [->|]; [set_solver|]. cbn [mbind outcome_bind].
    replace (with_buffer dv (dv_buffer dv)) with dv by by destruct dv.
    rewrite IH by set_solver. rewrite layout_size_cons, Z.add_assoc. done.
Qed.

Lemma ty_set_field dv l1 k t l2 v o :
  k ∉ (fst <$> l1) → k ∉ (fst <$> l2) → dv_ok dv → typed t v = true → 0 ≤ o →
  o + layout_size (l1 ++ (k, t) :: l2) ≤ dv_length dv →
  ty_set (Struct (l1 ++ (k, t) :: l2)) dv o (Obj [(k, v)]) =
    Done (splice (dv_buffer dv) (Z.to_nat (dv_offset dv + o + layout_size l1)) (enc t v)).
Proof.
  intros H1 H2 Hdv Ht Ho Hl. rewrite layout_size_app, layout_size_cons in Hl.
  pose proof (ty_size_nonneg t). pose proof (layout_size_nonneg l1). pose proof (layout_size_nonneg l2).
  cbn [ty_set]. destruct (narrow_ok dv o (layout_size l1 + ty_size t)) as (dv'&->&Hdv'&Hb&Hoff&Hl');
    [done|done|lia|lia|].
  cbn [mbind outcome_bind]. rewrite set_fields_one by done. rewrite ty_set_enc by (try done; lia).
  cbn [mbind outcome_bind]. rewrite Hb, Hoff. done.
Qed.

Lemma builds_alloc_set_field l l1 k t l2 v o :
  k ∉ (fst <$> l1) → k ∉ (fst <$> l2) → typed t v = true → 0 ≤ o →
  o + layout_size (l1 ++ (k, t) :: l2) ≤ zlen l →
  builds (alloc_set (Struct (l1 ++ (k, t) :: l2)) o (Obj [(k, v)])) l tt
    (splice l (Z.to_nat (o + layout_size l1)) (enc t v)).
Proof.
  intros H1 H2 Ht Ho Hl b Hr Hcap. assert (Hr' := Hr). destruct Hr' as (_&_&Hc).
  unfold alloc_set, mbind, M_bind, get_state, lift, put_state.
  rewrite ty_set_field; cbn [dv_of dv_buffer dv_offset dv_length];
    [|done|done| |done|done|fold (capacity b); lia].
  2: { unfold dv_ok; simpl. pose proof (zlen_nonneg (b_array b)); lia. }
  rewrite Z.add_0_l. eexists; split; [done|].
  rewrite layout_size_app, layout_size_cons in Hl.
  pose proof (layout_size_nonneg l1). pose proof (layout_size_nonneg l2).
  destruct (repr_write b l (o + layout_size l1) (enc t v)) as [Hw Hcw];
    [done|lia|rewrite zlen_enc by done; lia|].
  split; [done|]. lia.
Qed.

Lemma splice_app_r (l1 l2 : list Z) n src :
  splice (l1 ++ l2) (length l1 + n) src = l1 ++ splice l2 n src.
Proof.
  unfold splice. rewrite take_app_ge by lia. rewrite drop_app_ge by lia.
  rewrite <- app_assoc. do 3 f_equal; [lia|]. f_equal. lia.
Qed.

(** Runs a builder on a fresh buffer. *)
Lemma builds_run {A} (m : M buf A) n a l :
  0 < n → builds m [] a l → ∃ b, m (bytes_new n) = (Done a, b) ∧ array b = l.
Proof.
  intros Hn Hm. destruct (Hm (bytes_new n)) as (b&?&?&?).
  - apply repr_new; lia.
  - rewrite capacity_new; lia.
  - exists b; auto using repr_array.
Qed.

(** Reading a struct from a buffer whose first bytes encode it. *)
Lemma struct_read_enc t v rest :
  typed t v = true → struct_read t (enc t v ++ rest) = Done v.
Proof.
  intros Ht. unfold struct_read. apply ty_get_enc; [|done|lia| |].
  - unfold dv_ok; simpl; auto with lia.
  - simpl. rewrite zlen_app, zlen_enc by done. pose proof (zlen_nonneg rest); lia.
  - unfold window; simpl. rewrite Z.add_0_l, drop_0.
    rewrite <- zlen_enc with (v := v) by done. by rewrite zlen_to_nat, take_app_length.
Qed.

(** Reading and writing always end: with a value or with an exception. *)
Lemma outcome_bind_ends {A B} (m : outcome A) (f : A → outcome B) :
  m ≠ Loops → (∀ a, f a ≠ Loops) → m ≫= f ≠ Loops.
Proof. destruct m; simpl; auto. Qed.

(** Reading throws nothing but a [RangeError]. *)
Definition range_outcome {A} (o : outcome A) : Prop :=
  match o with Done _ | Raise (RangeError _) => True | _ => False end.

Lemma range_bind {A B} (m : outcome A) (f : A → outcome B) :
  range_outcome m → (∀ a, range_outcome (f a)) → range_outcome (m ≫= f).
Proof. destruct m as [a|[]|]; simpl; auto. Qed.

Lemma narrow_range dv o : range_outcome (narrow dv o).
Proof. unfold narrow, new_dataview. by repeat case_match. Qed.

Lemma ty_get_range t dv o : range_outcome (ty_get t dv o).
Proof.
  revert dv o; induction t as [s|t n IH|layout IH] using ty_induction; intros dv o; cbn [ty_get].
  - unfold dv_read. by case_bool_decide.
  - apply range_bind; [|done]. revert o; induction n as [|n IHn]; intros o; [done|].
    cbn [get_elements]. apply range_bind; [done|]; intros.
    apply range_bind; [apply IHn|done].
  - apply range_bind; [apply narrow_range|]; intros dv'.
    apply range_bind; [|done]. generalize 0. induction IH as [|[k t] l Ht Hl IHl]; intros z; [done|].
    cbn [get_fields]. apply range_bind; [apply Ht|]; intros.
    apply range_bind; [apply IHl|done].
Qed.

Lemma range_outcome_ends {A} (o : outcome A) : range_outcome o → o ≠ Loops.
Proof. by destruct o. Qed.
Lemma ty_get_total t dv o : ty_get t dv o ≠ Loops.
Proof. apply range_outcome_ends, ty_get_range. Qed.
Lemma narrow_ends dv o : narrow dv o ≠ Loops.
Proof. apply range_outcome_ends, narrow_range. Qed.

Lemma ty_set_total t dv o v : ty_set t dv o v ≠ Loops.
Proof.
  revert dv o v; induction t as [s|t n IH|layout IH] using ty_induction;
    intros dv o v; cbn [ty_set].
  - unfold sc_set, dv_write. by repeat case_match.
  - destruct v as [| |vs|]; try done. revert dv o vs; induction n as [|n IHn]; intros; [done|].
    cbn [set_elements]. apply outcome_bind_ends; [done|]; intros; apply IHn.
  - destruct v as [| | |fs]; try done. apply outcome_bind_ends; [apply narrow_ends|].
    generalize 0. induction IH as [|[k t] l Ht Hl IHl]; intros z dv'; [done|].
    cbn [set_fields]. apply outcome_bind_ends; [|intros; apply IHl].
    destruct (assoc k fs); [apply Ht|done].
Qed.

(** Writing a value through a [DataView] and reading it back gives the
    same value, at every type: scalars of either byte order and sign, fixed
    arrays, and structs nested in one another. The write changes no byte of the
    buffer outside the value's own. *)
Theorem ty_set_get t v dv o :
  dv_ok dv → typed t v = true → 0 ≤ o → o + ty_size t ≤ dv_length dv →
  ∃ buffer, ty_set t dv o v = Done buffer ∧
    ty_get t (with_buffer dv buffer) o = Done v ∧
    zlen buffer = zlen (dv_buffer dv) ∧
    ∀ i, i < dv_offset dv + o ∨ dv_offset dv + o + ty_size t ≤ i →
      zlookup buffer i = zlookup (dv_buffer dv) i.
Proof.
  intros Hdv Ht Ho Hl. assert (H := Hdv). destruct H as (H1&H2&H3).
  pose proof (zlen_enc t v Ht) as Hz. unfold zlen in *.
  set (off := Z.to_nat (dv_offset dv + o)).
  assert (off + length (enc t v) ≤ length (dv_buffer dv))%nat by (subst off; lia).
  rewrite ty_set_enc by done. eexists; split; [done|]. fold off. split_and!.
  - apply ty_get_enc; [by apply with_buffer_ok|done|done|done|].
    unfold window; simpl. fold off. rewrite <- Hz, Nat2Z.id. by apply splice_range.
  - by rewrite length_splice.
  - intros i Hi. unfold zlookup. destruct (Z.ltb_spec i 0); [done|].
    apply splice_lookup_out; [done|]. subst off. lia.
Qed.

(** A struct in the middle of a view that does not start at its buffer's. *)
Definition sample_struct : ty :=
  Struct [("tag", U8); ("size", U32BE); ("pair", FixedArray U16LE 2)].
Definition sample_value : value :=
  Obj [("tag", Num 7); ("size", Num 65538); ("pair", Arr [Num 1; Num 513])].

Lemma ty_set_get_witness :
  ty_set sample_struct (DV (zeros 14) 1 12) 2 sample_value
    = Done [0; 0; 0; 7; 0; 1; 0; 2; 1; 0; 1; 2; 0; 0] ∧
  ∃ buffer, ty_set sample_struct (DV (zeros 14) 1 12) 2 sample_value = Done buffer ∧
    ty_get sample_struct (with_buffer (DV (zeros 14) 1 12) buffer) 2 = Done sample_value ∧
    zlen buffer = 14 ∧
    ∀ i, i < 1 + 2 ∨ 1 + 2 + ty_size sample_struct ≤ i →
      zlookup buffer i = zlookup (zeros 14) i.
Proof.
  split; [vm_compute; reflexivity|].
  apply (ty_set_get sample_struct sample_value (DV (zeros 14) 1 12) 2);
    [vm_compute; repeat split; discriminate|vm_compute; reflexivity|lia|
     vm_compute; discriminate].
Defined.

(** Appends the chunks in turn. *)
Fixpoint append_all (chunks : list (list Z)) : M buf unit :=
  match chunks with
  | [] => mret tt
  | c :: chunks => append c ;; append_all chunks
  end.

Lemma append_all_spec chunks b l :
  repr b l → 0 < capacity b →
  ∃ b', append_all chunks b = (Done tt, b') ∧ repr b' (l ++ concat chunks).
Proof.
  revert b l; induction chunks as [|c chunks IH]; intros b l Hr Hc; simpl.
  { exists b. by rewrite app_nil_r. }
  destruct (append_spec b l c) as (b1&E&Hr1&?); [done|by left|].
  unfold mbind, M_bind. rewrite E, app_assoc. apply IH; [done|lia].
Qed.

Lemma append_empty_buffer c :
  append c (bytes_new 0) = if bool_decide (c = []) then (Done tt, bytes_new 0)
                           else (Loops, bytes_new 0).
Proof.
  case_bool_decide as Hc; [by subst c|].
  assert (0 < zlen c) by (pose proof (zlen_nonneg c); destruct (decide (zlen c = 0)) as [?%zlen_0_nil|]; [done|lia]).
  unfold append, mbind, M_bind, bump, ensure_capacity; cbn [b_array b_length bytes_new].
  change (zlen (zeros 0)) with 0.
  assert ((0 <? 0 + zlen c) = true) as -> by (apply Z.ltb_lt; lia).
  by rewrite grow_zero by lia.
Qed.

(** A buffer created with room for something holds, after any appends, the
    concatenation of what was appended, in order, however often it had to grow.
    A buffer created empty keeps that promise only while nothing but empty
    chunks is appended: the first byte sends its doubling loop round for ever. *)
Theorem append_all_concat n chunks :
  0 ≤ n →
  if decide (0 < n ∨ concat chunks = [])
  then ∃ b, append_all chunks (bytes_new n) = (Done tt, b) ∧ array b = concat chunks
  else (append_all chunks (bytes_new n)).1 = Loops.
Proof.
  intros Hn. destruct (Z_lt_dec 0 n) as [Hp|Hp].
  - rewrite decide_True by auto.
    destruct (append_all_spec chunks (bytes_new n) []) as (b&?&?).
    + by apply repr_new.
    + by rewrite capacity_new.
    + exists b; split; [done|]. by apply repr_array.
  - assert (n = 0) as -> by lia. clear Hn Hp.
    induction chunks as [|c chunks IH].
    + rewrite decide_True by auto. by eexists.
    + cbn [append_all concat]. unfold mbind, M_bind. rewrite append_empty_buffer.
      case_bool_decide as Hc; [by rewrite Hc|].
      rewrite decide_False; [done|]. intros [?|[-> _]%app_nil]; [lia|done].
Qed.

Lemma append_all_witness :
  (∃ b, append_all [[1; 2]; [3]; [4; 5; 6]] (bytes_new 1) = (Done tt, b) ∧
     array b = [1; 2; 3; 4; 5; 6]) ∧
  (append_all [[]; [7]] (bytes_new 0)).1 = Loops.
Proof.
  split.
  - exact (append_all_concat 1 [[1; 2]; [3]; [4; 5; 6]] ltac:(lia)).
  - exact (append_all_concat 0 [[]; [7]] ltac:(lia)).
Defined.

(** * Proving that a value has its type *)
Lemma typed_unsigned s z :
  widths_ok s = true → sc_signed s = false → 0 ≤ z < 2 ^ sc_bits s → typed (Scalar s) (Num z) = true.
Proof.
  intros Hw Hs Hz. cbn [typed]. rewrite Hw. unfold sc_in_range. rewrite Hs.
  apply andb_true_intro; split; [done|].
  apply andb_true_intro; split; [apply Z.leb_le|apply Z.ltb_lt]; lia.
Qed.
Lemma typed_u8 z : 0 ≤ z < 256 → typed U8 (Num z) = true.
Proof. intros H. eapply typed_unsigned; [reflexivity|reflexivity|exact H]. Qed.
Lemma typed_u16be z : 0 ≤ z < 65536 → typed U16BE (Num z) = true.
Proof. intros H. eapply typed_unsigned; [reflexivity|reflexivity|exact H]. Qed.
Lemma typed_u16le z : 0 ≤ z < 65536 → typed U16LE (Num z) = true.
Proof. intros H. eapply typed_unsigned; [reflexivity|reflexivity|exact H]. Qed.
Lemma typed_u32be z : 0 ≤ z < 4294967296 → typed U32BE (Num z) = true.
Proof. intros H. eapply typed_unsigned; [reflexivity|reflexivity|exact H]. Qed.
Lemma typed_u32le z : 0 ≤ z < 4294967296 → typed U32LE (Num z) = true.
Proof. intros H. eapply typed_unsigned; [reflexivity|reflexivity|exact H]. Qed.
Lemma typed_u64le z : 0 ≤ z < 18446744073709551616 → typed U64LE (Num z) = true.
Proof. intros H. eapply typed_unsigned; [reflexivity|reflexivity|exact H]. Qed.

Lemma typed_struct layout fs :
  typed_fields typed layout fs = true → NoDup (fst <$> layout) →
  typed (Struct layout) (Obj fs) = true.
Proof. intros H Hn. cbn [typed]. rewrite H. by apply bool_decide_eq_true. Qed.
Lemma typed_fields_cons k t l v fs :
  typed t v = true → typed_fields typed l fs = true →
  typed_fields typed ((k, t) :: l) ((k, v) :: fs) = true.
Proof. intros Ht Hf. cbn [typed_fields]. by rewrite String.eqb_refl, Ht, Hf. Qed.
Lemma typed_bytes l : bytes_ok l → typed (FixedArray U8 (length l)) (Arr (Num <$> l)) = true.
Proof.
  intros H. cbn [typed]. rewrite length_fmap, Nat.eqb_refl. apply forallb_forall.
  intros v (z&->&Hz)%list_elem_of_In%list_elem_of_fmap. apply typed_u8.
  rewrite Forall_forall in H. by apply H.
Qed.

(** Splits [typed (Struct _) (Obj _)] into a range for each field. *)
Ltac typed_struct :=
  apply typed_struct;
  [repeat first [apply typed_fields_cons; [first
      [apply typed_u8 | apply typed_u16be | apply typed_u16le | apply typed_u32be
      | apply typed_u32le | apply typed_u64le | idtac]|] | reflexivity]
  | apply (bool_decide_unpack _); reflexivity].

Lemma nums_bytes l : nums (Arr (Num <$> l)) = l.
Proof. cbn [nums]. rewrite <- list_fmap_compose. apply list_fmap_id. Qed.

Lemma builds_gets_array l : builds (gets array) l l l.
Proof.
  intros b Hr Hc. exists b. unfold gets. rewrite (repr_array b l) by done. auto.
Qed.
Lemma builds_lift {A} (a : A) l : builds (lift (Done a)) l a l.
Proof. intros b ??; exists b; auto. Qed.

(** A fresh allocation, set to a value, is what [emit] makes. *)
Lemma splice_alloc l t v :
  typed t v = true → splice (l ++ zeros (ty_size t)) (Z.to_nat (zlen l)) (enc t v) = l ++ enc t v.
Proof.
  intros Ht. rewrite zlen_to_nat, <- (app_nil_r (zeros _)), (splice_app_l l), app_nil_r; [done|].
  rewrite length_enc by done. unfold zeros. by rewrite length_replicate.
Qed.

(** Reading inside the window always gives a value. *)
Lemma ty_get_in_range t dv o :
  dv_ok dv → 0 ≤ o → o + ty_size t ≤ dv_length dv → is_done (ty_get t dv o) = true.
Proof.
  revert dv o; induction t as [s|t n IH|layout IH] using ty_induction; intros dv o Hdv Ho Hl;
    cbn [ty_get ty_size] in *.
  - unfold dv_read. by rewrite bool_decide_eq_true_2.
  - assert (is_done (get_elements ty_get t dv n o) = true) as Hd.
    { pose proof (ty_size_nonneg t). revert o Ho Hl. induction n as [|n IHn]; intros o Ho Hl; [done|].
      rewrite Nat2Z.inj_succ in Hl. cbn [get_elements]. specialize (IH dv o Hdv Ho).
      specialize (IH ltac:(nia)). destruct (ty_get t dv o); try discriminate IH.
      cbn [mbind outcome_bind]. specialize (IHn (o + ty_size t)).
      destruct (get_elements ty_get t dv n (o + ty_size t)); [done|..]; apply IHn; nia. }
    by destruct (get_elements ty_get t dv n o).
  - destruct (narrow_ok dv o (ty_size (Struct layout))) as (dv'&->&Hdv'&_&_&Hl'); auto.
    cbn [mbind outcome_bind].
    assert (∀ z, 0 ≤ z → z + layout_size layout ≤ dv_length dv' →
      is_done (get_fields ty_get dv' layout z) = true) as Hd.
    { clear Hl Hl'. induction IH as [|[k t] l Ht Hl1 IHl]; intros z Hz Hzl; [done|].
      rewrite layout_size_cons in Hzl. cbn [get_fields snd] in *. pose proof (layout_size_nonneg l).
      pose proof (ty_size_nonneg t).
      specialize (Ht dv' z Hdv' Hz ltac:(lia)). destruct (ty_get t dv' z); try discriminate Ht.
      cbn [mbind outcome_bind]. specialize (IHl (z + ty_size t)).
      destruct (get_fields ty_get dv' l (z + ty_size t)); [done|..]; apply IHl; lia. }
    specialize (Hd 0 ltac:(lia) Hl'). by destruct (get_fields ty_get dv' layout 0).
Qed.

Lemma struct_read_ok t l : ty_size t ≤ zlen l → ∃ v, struct_read t l = Done v.
Proof.
  intros Hl. unfold struct_read.
  pose proof (ty_get_in_range t (dv_of l) 0) as H. destruct (ty_get t (dv_of l) 0); [by eexists|..].
  all: exfalso; assert (false = true); [|done]; apply H; simpl; try lia;
    unfold dv_ok; simpl; pose proof (zlen_nonneg l); lia.
Qed.
