(* ===== verification/Text.v ===== *)
(** Strings and UTF-8, as the source uses them through [TextEncoder] and
    [TextDecoder]. A string is the list of its code points. *)
From S2P Require Export Prelude.

Abbreviation text := (list Z).

(** An ASCII literal as a string. *)
Definition lit (s : string) : text := ascii_bytes s.

(** [parts.join(separator)] *)
Fixpoint join (sep : text) (parts : list text) : text :=
  match parts with
  | [] => []
  | [p] => p
  | p :: parts => p ++ sep ++ join sep parts
  end.

Definition surrogate (c : Z) : bool := ((0xd800 <=? c) && (c <=? 0xdfff))%bool.

(** [new TextEncoder().encode(c)]: a lone surrogate becomes U+FFFD. *)
Definition utf8_encode_point (c : Z) : list Z :=
  if c <? 0x80 then [c]
  else if c <? 0x800 then [0xc0 + c / 64; 0x80 + c mod 64]
  else if surrogate c then [0xef; 0xbf; 0xbd]
  else if c <? 0x10000 then [0xe0 + c / 4096; 0x80 + (c / 64) mod 64; 0x80 + c mod 64]
  else [0xf0 + c / 262144; 0x80 + (c / 4096) mod 64; 0x80 + (c / 64) mod 64; 0x80 + c mod 64].

Definition utf8_encode (s : text) : list Z := s ≫= utf8_encode_point.

Definition cont (b : Z) : bool := ((0x80 <=? b) && (b <=? 0xbf))%bool.
Definition between (lo b hi : Z) : bool := ((lo <=? b) && (b <=? hi))%bool.

(** The code points of a well-formed UTF-8 sequence (RFC 3629: no overlong
    form, no surrogate, nothing above U+10FFFF). *)
Fixpoint utf8_points (l : list Z) : option text :=
  match l with
  | [] => Some []
  | b0 :: l0 =>
      if between 0 b0 0x7f then cons b0 <$> utf8_points l0
      else match l0 with
      | [] => None
      | b1 :: l1 =>
          if between 0xc2 b0 0xdf then
            if cont b1 then cons ((b0 - 0xc0) * 64 + (b1 - 0x80)) <$> utf8_points l1 else None
          else match l1 with
          | [] => None
          | b2 :: l2 =>
              if between 0xe0 b0 0xef then
                if (cont b1 && cont b2 && negb ((b0 =? 0xe0) && (b1 <? 0xa0))
                    && negb ((b0 =? 0xed) && (0x9f <? b1)))%bool
                then cons ((b0 - 0xe0) * 4096 + (b1 - 0x80) * 64 + (b2 - 0x80)) <$> utf8_points l2
                else None
              else match l2 with
              | [] => None
              | b3 :: l3 =>
                  if (between 0xf0 b0 0xf4 && cont b1 && cont b2 && cont b3
                      && negb ((b0 =? 0xf0) && (b1 <? 0x90))
                      && negb ((b0 =? 0xf4) && (0x8f <? b1)))%bool
                  then cons ((b0 - 0xf0) * 262144 + (b1 - 0x80) * 4096 + (b2 - 0x80) * 64
                             + (b3 - 0x80)) <$> utf8_points l3
                  else None
              end
          end
      end
  end.

(** [new TextDecoder("utf-8", { fatal: true }).decode(bytes)]: a byte-order
    mark at the start is dropped; a malformed sequence throws ([None]). *)
Definition utf8_decode (bytes : list Z) : option text :=
  match bytes with
  | 0xef :: 0xbb :: 0xbf :: rest => utf8_points rest
  | _ => utf8_points bytes
  end.

(** [new TextDecoder().decode(bytes)], of the Encoding Standard: a decoder in the
    middle of a sequence needs [needed] more bytes, the next one within [lower]
    and [upper], and has the bits [point]. A sequence that breaks off gives
    U+FFFD, and the byte that broke it off is read again. *)
Record utf8_state := Utf8 { u8_needed : nat; u8_lower : Z; u8_upper : Z; u8_point : Z }.
Definition utf8_start : utf8_state := Utf8 0 0x80 0xbf 0.
Definition utf8_lead (b : Z) : text * utf8_state :=
  if between 0 b 0x7f then ([b], utf8_start)
  else if between 0xc2 b 0xdf then ([], Utf8 1 0x80 0xbf (b - 0xc0))
  else if between 0xe0 b 0xef then ([], Utf8 2 (if b =? 0xe0 then 0xa0 else 0x80) (if b =? 0xed then 0x9f else 0xbf) (b - 0xe0))
  else if between 0xf0 b 0xf4 then ([], Utf8 3 (if b =? 0xf0 then 0x90 else 0x80) (if b =? 0xf4 then 0x8f else 0xbf) (b - 0xf0))
  else ([0xfffd], utf8_start).
Definition utf8_byte (st : utf8_state) (b : Z) : text * utf8_state :=
  match u8_needed st with
  | O => utf8_lead b
  | S n =>
      if between (u8_lower st) b (u8_upper st) then
        let point := u8_point st * 64 + (b - 0x80) in
        match n with O => ([point], utf8_start) | _ => ([], Utf8 n 0x80 0xbf point) end
      else let '(out, st) := utf8_lead b in (0xfffd :: out, st)
  end.
Fixpoint utf8_replace_from (st : utf8_state) (l : list Z) : text :=
  match l with
  | [] => match u8_needed st with O => [] | _ => [0xfffd] end
  | b :: l => let '(out, st) := utf8_byte st b in out ++ utf8_replace_from st l
  end.
Definition utf8_replace (bytes : list Z) : text :=
  match bytes with
  | 0xef :: 0xbb :: 0xbf :: rest => utf8_replace_from utf8_start rest
  | _ => utf8_replace_from utf8_start bytes
  end.

(** * Strings *)

(** Whitespace of [\s] and [trim]. *)
Definition js_space (c : Z) : bool :=
  (between 9 c 13 || (c =? 0x20) || (c =? 0xa0) || (c =? 0x1680) || between 0x2000 c 0x200a || (c =? 0x2028) ||
   (c =? 0x2029) || (c =? 0x202f) || (c =? 0x205f) || (c =? 0x3000) || (c =? 0xfeff))%bool.
Fixpoint drop_while {A} (f : A → bool) (l : list A) : list A :=
  match l with [] => [] | x :: l' => if f x then drop_while f l' else l end.
Definition trim_with (f : Z → bool) (s : text) : text := reverse (drop_while f (reverse (drop_while f s))).
Definition trim : text → text := trim_with js_space.
(** [s.indexOf(c)], [None] for -1. *)
Fixpoint char_index (c : Z) (s : text) : option nat :=
  match s with [] => None | x :: s => if x =? c then Some 0%nat else S <$> char_index c s end.
(** [s.split(c)] *)
Fixpoint split_on (c : Z) (s : text) : list text :=
  match s with
  | [] => [[]]
  | x :: s => if x =? c then [] :: split_on c s
              else match split_on c s with l :: ls => (x :: l) :: ls | [] => [[x]] end
  end.
(** [s.length]: a code point above U+FFFF is two units. *)
Definition js_length (s : text) : Z := sum_list_z ((fun c => if c <? 0x10000 then 1 else 2) <$> s).
Definition upper_ascii (c : Z) : bool := between 65 c 90.
Definition digit (c : Z) : bool := between 48 c 57.

(** [s.split(sep)], for a separator of one character. *)
Fixpoint split_from (sep : Z) (s part : text) : list text :=
  match s with
  | [] => [reverse part]
  | c :: s => if c =? sep then reverse part :: split_from sep s [] else split_from sep s (c :: part)
  end.
Definition split_text (sep : Z) (s : text) : list text := split_from sep s [].

(** [`${n}`], of a number of at most twenty digits. *)
Fixpoint show_digits (fuel : nat) (n : Z) : text :=
  match fuel with
  | O => []
  | S fuel => if n <? 10 then [48 + n] else show_digits fuel (n / 10) ++ [48 + n mod 10]
  end.
Definition show_number (n : Z) : text := if n <? 0 then 45 :: show_digits 20 (- n) else show_digits 20 n.

(** [Number(value)] of a 64-bit integer: the nearest double. *)
Definition js_number (z : Z) : Z :=
  let a := Z.abs z in
  if a <? 2 ^ 53 then z
  else
    let ulp := 2 ^ (Z.log2 a - 52) in
    let q := a / ulp in
    let up := (ulp <? 2 * (a mod ulp)) || ((2 * (a mod ulp) =? ulp) && Z.odd q) in
    Z.sgn z * ((if up : bool then q + 1 else q) * ulp).

(** [Object.entries]: the integer keys in order, then the others as they came. *)
Definition decimal_value (s : text) : Z := foldl (fun n c => 10 * n + (c - 48)) 0 s.
Definition array_index (s : text) : option Z :=
  match s with
  | [] => None
  | c :: rest =>
      if (forallb digit s && (negb (c =? 48) || bool_decide (rest = [])) && (decimal_value s <? 2 ^ 32 - 1))%bool
      then Some (decimal_value s) else None
  end.
Definition index_key {A} (kv : text * A) : Prop := is_Some (array_index kv.1).
#[export] Instance index_key_dec {A} (kv : text * A) : Decision (index_key kv) := _.
Fixpoint insert_index {A} (kv : text * A) (l : list (text * A)) : list (text * A) :=
  match l with
  | [] => [kv]
  | kv' :: l' => if decimal_value kv.1 <? decimal_value kv'.1 then kv :: l else kv' :: insert_index kv l'
  end.
Definition object_entries {A} (l : list (text * A)) : list (text * A) :=
  foldr insert_index [] (filter index_key l) ++ filter (fun kv => ¬ index_key kv) l.
Definition alpha (c : Z) : bool := (between 65 c 90 || between 97 c 122)%bool.
Definition lower_ascii (s : text) : text := (fun c => if upper_ascii c then c + 32 else c) <$> s.
(** The text of a message. *)
Definition show (s : text) : string :=
  String.string_of_list_ascii ((fun b => Ascii.ascii_of_nat (Z.to_nat b)) <$> utf8_encode s).

(** * Lemmas *)
Definition ascii (s : list Z) : Prop := Forall (fun c => 0 ≤ c < 128) s.

Lemma utf8_points_ascii s : ascii s → utf8_points s = Some s.
Proof.
  induction 1 as [|c s Hc Hs IH]; [done|]. simpl. unfold between.
  replace ((0 <=? c) && (c <=? 127))%bool with true by (symmetry; apply andb_true_iff; lia).
  by rewrite IH.
Qed.
Lemma utf8_decode_ascii s : ascii s → utf8_decode s = Some s.
Proof.
  intros Hs. unfold utf8_decode.
  destruct s as [|c s]; [done|].
  assert (0 ≤ c < 128) by (inversion Hs; lia).
  repeat (case_match; try (by apply utf8_points_ascii)); subst; lia.
Qed.
Lemma utf8_encode_ascii s : ascii s → utf8_encode s = s.
Proof.
  induction 1 as [|c s Hc Hs IH]; [done|].
  unfold utf8_encode in *. rewrite bind_cons, IH.
  unfold utf8_encode_point. by destruct (Z.ltb_spec c 128); [|lia].
Qed.
Lemma ascii_lit s : Forall (fun a => (Ascii.nat_of_ascii a < 128)%nat) (String.list_ascii_of_string s) → ascii (lit s).
Proof.
  unfold ascii, lit, ascii_bytes. intros H. apply Forall_fmap. eapply Forall_impl; [exact H|].
  simpl; intros; lia.
Qed.

Ltac div_bytes := Z.div_mod_to_equations; lia.

Lemma utf8_encode_point_bytes c : 0 ≤ c < 0x110000 → bytes_ok (utf8_encode_point c).
Proof.
  intros. unfold utf8_encode_point, surrogate.
  repeat case_match; zbool; repeat constructor; unfold byte_ok; try lia; div_bytes.
Qed.

(** Decoding what was encoded. *)
Lemma utf8_points_encode s :
  Forall (fun c => 0 ≤ c < 0x110000 ∧ surrogate c = false) s →
  utf8_points (utf8_encode s) = Some s.
Proof.
  induction 1 as [|c s [Hc Hs] H IH]; [done|].
  unfold utf8_encode in *. rewrite bind_cons.
  set (rest := s ≫= utf8_encode_point) in *; clearbody rest.
  unfold utf8_encode_point. rewrite Hs. unfold surrogate in Hs.
  destruct (Z.ltb_spec c 0x80); [|destruct (Z.ltb_spec c 0x800); [|destruct (Z.ltb_spec c 0x10000)]];
  cbn [app utf8_points]; unfold between, cont;
  repeat match goal with
  | |- context [if ?b then _ else _] =>
      first [replace b with true by (symmetry; rewrite ?andb_true_iff, ?negb_true_iff, ?andb_false_iff; div_bytes)
            |replace b with false by (symmetry; rewrite ?andb_false_iff; div_bytes)]
  end; rewrite IH; simpl; do 2 f_equal; div_bytes.
Qed.

Lemma utf8_replace_ascii s : ascii s → utf8_replace s = s.
Proof.
  assert (H : ascii s → utf8_replace_from utf8_start s = s).
  { induction 1 as [|c s Hc Hs IH]; [done|]. cbn. unfold utf8_byte, utf8_lead, between. cbn.
    replace ((0 <=? c) && (c <=? 127))%bool with true by (symmetry; apply andb_true_iff; lia). cbn. by rewrite IH. }
  intros Hs. unfold utf8_replace. destruct s as [|c s]; [done|].
  assert (0 ≤ c < 128) by (inversion Hs; lia).
  repeat (case_match; try (by apply H)); subst; lia.
Qed.
(** It undoes [utf8_encode]. *)
Lemma between_true lo b hi : lo ≤ b ≤ hi → between lo b hi = true.
Proof. intros. unfold between. apply andb_true_iff. lia. Qed.
Lemma between_false lo b hi : b < lo ∨ hi < b → between lo b hi = false.
Proof. intros. unfold between. apply andb_false_iff. lia. Qed.
Lemma utf8_lead2 a rest : 2 ≤ a < 32 →
  utf8_replace_from utf8_start (0xc0 + a :: rest) = utf8_replace_from (Utf8 1 0x80 0xbf a) rest.
Proof.
  intros. cbn [utf8_replace_from]. unfold utf8_byte, utf8_lead. cbn [u8_needed utf8_start].
  rewrite between_false, between_true by lia. cbn [app]. do 2 f_equal. lia.
Qed.
Lemma utf8_lead3 a rest : 0 ≤ a < 16 →
  utf8_replace_from utf8_start (0xe0 + a :: rest) =
  utf8_replace_from (Utf8 2 (if a =? 0 then 0xa0 else 0x80) (if a =? 13 then 0x9f else 0xbf) a) rest.
Proof.
  intros. cbn [utf8_replace_from]. unfold utf8_byte, utf8_lead. cbn [u8_needed utf8_start].
  rewrite !(between_false _ _ 0x7f), !(between_false _ _ 0xdf), between_true by lia. cbn [app]. do 2 f_equal; [..|lia].
  - destruct (Z.eqb_spec a 0), (Z.eqb_spec (0xe0 + a) 0xe0); lia.
  - destruct (Z.eqb_spec a 13), (Z.eqb_spec (0xe0 + a) 0xed); lia.
Qed.
Lemma utf8_lead4 a rest : 0 ≤ a < 5 →
  utf8_replace_from utf8_start (0xf0 + a :: rest) =
  utf8_replace_from (Utf8 3 (if a =? 0 then 0x90 else 0x80) (if a =? 4 then 0x8f else 0xbf) a) rest.
Proof.
  intros. cbn [utf8_replace_from]. unfold utf8_byte, utf8_lead. cbn [u8_needed utf8_start].
  rewrite !(between_false _ _ 0x7f), !(between_false _ _ 0xdf), !(between_false _ _ 0xef), between_true by lia. cbn [app]. do 2 f_equal; [..|lia].
  - destruct (Z.eqb_spec a 0), (Z.eqb_spec (0xf0 + a) 0xf0); lia.
  - destruct (Z.eqb_spec a 4), (Z.eqb_spec (0xf0 + a) 0xf4); lia.
Qed.
Lemma utf8_next n lo hi p b rest : lo ≤ 0x80 + b ≤ hi →
  utf8_replace_from (Utf8 (S n) lo hi p) (0x80 + b :: rest) =
  match n with O => (p * 64 + b) :: utf8_replace_from utf8_start rest | _ => utf8_replace_from (Utf8 n 0x80 0xbf (p * 64 + b)) rest end.
Proof.
  intros. cbn [utf8_replace_from]. unfold utf8_byte. cbn [u8_needed u8_lower u8_upper u8_point]. rewrite between_true by done.
  replace (0x80 + b - 0x80) with b by lia. by destruct n.
Qed.
Lemma utf8_replace_encode_point c rest :
  0 ≤ c < 0x110000 → surrogate c = false →
  utf8_replace_from utf8_start (utf8_encode_point c ++ rest) = c :: utf8_replace_from utf8_start rest.
Proof.
  intros Hc Hs. unfold utf8_encode_point. rewrite Hs. unfold surrogate in Hs. apply andb_false_iff in Hs. rewrite !Z.leb_gt in Hs.
  assert (Hd : 0 ≤ c mod 64 < 64) by (apply Z.mod_pos_bound; lia).
  assert (Hb : 0 ≤ (c / 64) mod 64 < 64) by (apply Z.mod_pos_bound; lia).
  assert (Ha : 0 ≤ (c / 4096) mod 64 < 64) by (apply Z.mod_pos_bound; lia).
  assert (E1 : c = c / 64 * 64 + c mod 64) by div_bytes.
  assert (E2 : c / 64 = c / 4096 * 64 + (c / 64) mod 64) by div_bytes.
  assert (E3 : c / 4096 = c / 262144 * 64 + (c / 4096) mod 64) by div_bytes.
  destruct (Z.ltb_spec c 0x80); [|destruct (Z.ltb_spec c 0x800); [|destruct (Z.ltb_spec c 0x10000)]]; cbn [app].
  - cbn [utf8_replace_from]. unfold utf8_byte, utf8_lead. cbn [u8_needed utf8_start]. by rewrite between_true by lia.
  - rewrite utf8_lead2, utf8_next by lia. f_equal. lia.
  - rewrite utf8_lead3, utf8_next by (repeat match goal with |- context [?x =? ?y] => destruct (Z.eqb_spec x y) end; lia). rewrite utf8_next by lia. f_equal. lia.
  - rewrite utf8_lead4, utf8_next by (repeat match goal with |- context [?x =? ?y] => destruct (Z.eqb_spec x y) end; lia). rewrite !utf8_next by lia. f_equal. lia.
Qed.
Lemma utf8_replace_encode s :
  Forall (fun c => 0 ≤ c < 0x110000 ∧ surrogate c = false) s → utf8_replace_from utf8_start (utf8_encode s) = s.
Proof.
  induction 1 as [|c s [Hc Hs] H IH]; [done|]. unfold utf8_encode in *. rewrite bind_cons, utf8_replace_encode_point by done. by rewrite IH.
Qed.

(** * Splitting and objects *)
Lemma split_from_nil sep s part : ∃ p ps, split_from sep s part = p :: ps.
Proof.
  revert part; induction s as [|c s IH]; intros part; simpl; [by eexists _, _|].
  destruct (c =? sep); [by eexists _, _|]. apply IH.
Qed.

Lemma split_from_no_sep sep p part : sep ∉ p → split_from sep p part = [reverse part ++ p].
Proof.
  revert part; induction p as [|c p IH]; intros part Hp; simpl; [by rewrite app_nil_r|].
  destruct (Z.eqb_spec c sep) as [->|]; [set_solver|]. rewrite IH by set_solver.
  by rewrite reverse_cons, <- app_assoc.
Qed.
Lemma split_from_app sep p s part :
  sep ∉ p → split_from sep (p ++ sep :: s) part = (reverse part ++ p) :: split_text sep s.
Proof.
  revert part; induction p as [|c p IH]; intros part Hp; simpl.
  - by rewrite Z.eqb_refl, app_nil_r.
  - destruct (Z.eqb_spec c sep) as [->|]; [set_solver|]. rewrite IH by set_solver.
    by rewrite reverse_cons, <- app_assoc.
Qed.

Lemma split_join sep parts :
  parts ≠ [] → Forall (fun p => sep ∉ p) parts → split_text sep (join [sep] parts) = parts.
Proof.
  intros Hne H. induction H as [|p parts Hp H IH]; [done|]. destruct parts as [|q parts].
  - simpl. unfold split_text. by rewrite split_from_no_sep.
  - change (join [sep] (p :: q :: parts)) with (p ++ sep :: join [sep] (q :: parts)).
    unfold split_text. rewrite split_from_app by done. by rewrite IH.
Qed.
Lemma join_split sep s : join [sep] (split_text sep s) = s.
Proof.
  unfold split_text. assert (∀ part, join [sep] (split_from sep s part) = reverse part ++ s) as H; [|apply H].
  induction s as [|c s IH]; intros part; cbn [split_from]; [by rewrite app_nil_r|].
  destruct (Z.eqb_spec c sep) as [->|].
  - destruct (split_from_nil sep s []) as (p&ps&E). specialize (IH []). rewrite E in *.
    transitivity (reverse part ++ sep :: join [sep] (p :: ps)); [done|by rewrite IH].
  - by rewrite IH, reverse_cons, <- app_assoc.
Qed.
Lemma insert_index_elem {A} (kv kv' : text * A) l : kv' ∈ insert_index kv l ↔ kv' = kv ∨ kv' ∈ l.
Proof. induction l as [|x l IH]; cbn [insert_index]; [set_solver|]. destruct (_ <? _); set_solver. Qed.
Lemma object_entries_elem {A} (l : list (text * A)) kv : kv ∈ object_entries l ↔ kv ∈ l.
Proof.
  unfold object_entries. rewrite elem_of_app.
  assert (H : ∀ f : list (text * A), kv ∈ foldr insert_index [] f ↔ kv ∈ f).
  { induction f as [|x f IH]; [done|]. cbn [foldr]. rewrite insert_index_elem, IH. set_solver. }
  rewrite H, !list_elem_of_filter. destruct (decide (index_key kv)); tauto.
Qed.
