(* ===== verification/WasmBinary.v ===== *)
(** The reader of WebAssembly import and memory sections:
    packages/kernel/src/wasm_binary.ts. Every function of the file is here,
    as a computation on a [cursor] that throws [WasmParseError]. *)
From S2P Require Export Text.

(** * Cursor *)
Record cursor := Cursor { c_bytes : list Z; c_offset : Z; c_end : Z }.

Definition new_cursor (bytes : list Z) : cursor := Cursor bytes 0 (zlen bytes).

Definition c_done (c : cursor) : bool := c_offset c =? c_end c.

Definition fail {A} (message : string) : M cursor A := fun c =>
  (Raise (WasmParseError message (c_offset c)), c).

Definition byte : M cursor Z := fun c =>
  if c_offset c =? c_end c then fail "unexpected end of module" c
  else (Done (default 0 (zlookup (c_bytes c) (c_offset c))),
        Cursor (c_bytes c) (c_offset c + 1) (c_end c)).

Definition leb_error (bits : Z) (what : string) : string :=
  (if bits =? 32 then "u32 LEB128 " else "u64 LEB128 ") +:+ what.

(** The loop of [#unsigned(bits)]: [n] bytes are left, [i] have been read. *)
Fixpoint unsigned_loop (n : nat) (bits i value : Z) : M cursor Z :=
  match n with
  | O => fail (leb_error bits "is too long")
  | S n =>
      byte ≫= fun b =>
      let payload := b &&& 0x7f in
      let remaining := bits - i * 7 in
      if ((remaining <? 7) && (1 <<< remaining <=? payload))%bool
      then fail (leb_error bits "overflows")
      else
        let value := value ||| (payload <<< (i * 7)) in
        if b &&& 0x80 =? 0 then mret value else unsigned_loop n bits (i + 1) value
  end.

(** [Math.ceil(bits / 7)] *)
Definition leb_bytes (bits : Z) : nat := Z.to_nat ((bits + 6) / 7).
Definition unsigned (bits : Z) : M cursor Z := unsigned_loop (leb_bytes bits) bits 0 0.
Definition u32 : M cursor Z := unsigned 32.
Definition u64 : M cursor Z := unsigned 64.

(** The loop of [signed33]: [n] iterations are left, [i] have been made. *)
Fixpoint signed33_loop (n : nat) (i b : Z) : M cursor unit :=
  match n with
  | O => mret tt
  | S n =>
      let payload := b &&& 0x7f in
      let remaining := 33 - i * 7 in
      if b &&& 0x80 =? 0 then
        if remaining <? 7 then
          let used := (1 <<< remaining) - 1 in
          let unused := Z.lxor 0x7f used in
          let sign := 1 <<< (remaining - 1) in
          let extension := if payload &&& sign =? 0 then 0 else unused in
          if negb (payload &&& unused =? extension) then fail "s33 LEB128 overflows"
          else mret tt
        else mret tt
      else if i =? 4 then fail "s33 LEB128 is too long"
      else byte ≫= fun b => signed33_loop n (i + 1) b
  end.
Definition signed33 (first : Z) : M cursor unit := signed33_loop 5 0 first.

Definition span : M cursor cursor :=
  length ← u32;
  c ← get_state;
  let start := c_offset c in
  let end_ := start + length in
  if c_end c <? end_ then fail "span extends past its section"
  else put_state (Cursor (c_bytes c) end_ (c_end c)) ;;
       mret (Cursor (c_bytes c) start end_).

(** [view()]: the bytes left. *)
Definition view (c : cursor) : list Z := subarray (c_bytes c) (c_offset c) (c_end c).

(** [c.text()], read from another cursor than the one being advanced. *)
Definition text_of (c : cursor) : outcome text :=
  match utf8_decode (view c) with
  | Some s => Done s
  | None => Raise (WasmParseError "name is not valid UTF-8" (c_offset c))
  end.

Definition text_span : M cursor text := c ← span; lift (text_of c).

Definition expect_done (what : string) : M cursor unit := fun c =>
  if c_done c then (Done tt, c) else fail ("trailing bytes in " +:+ what) c.

(** Runs [m] on the sub-cursor [c], leaving the current cursor alone. *)
Definition on_cursor {S A} (c : cursor) (m : M cursor A) : M S A := lift (m c).1.

(** * Types *)
Inductive address := I32 | I64.
#[export] Instance address_eq_dec : EqDecision address.
Proof. solve_decision. Defined.

Record memory_type := MemoryType {
  mt_address : address; mt_minimum : Z; mt_maximum : option Z; mt_shared : bool }.
Record memory_import := MemoryImport { mi_module : text; mi_name : text; mi_type : memory_type }.
Record memories := Memories { m_imports : list memory_import; m_definitions : list memory_type }.

Definition read_memory_type : M cursor memory_type :=
  flags ← byte;
  if negb (flags &&& Z.lnot 0x07 =? 0) then fail "unknown memory limits flags" else
  let has_maximum := negb (flags &&& 0x01 =? 0) in
  let shared := negb (flags &&& 0x02 =? 0) in
  let address := if flags &&& 0x04 =? 0 then I32 else I64 in
  let read_limit := match address with I64 => u64 | I32 => u32 end in
  minimum ← read_limit;
  maximum ← (if has_maximum then m ← read_limit; mret (Some m) else mret None);
  mret (MemoryType address minimum maximum shared).

(** Value types 0x63 and 0x64 carry a heap type; the others up to 0x74 are
    abbreviations. *)
Definition skip_heap_type (type : Z) (message : string) : M cursor unit :=
  if ((type =? 0x63) || (type =? 0x64))%bool then byte ≫= signed33
  else if ((type <? 0x69) || (0x74 <? type))%bool then fail message
  else mret tt.

Definition skip_reference_type : M cursor unit :=
  type ← byte; skip_heap_type type "invalid reference type".

Definition skip_value_type : M cursor unit :=
  type ← byte;
  if ((0x7b <=? type) && (type <=? 0x7f))%bool then mret tt
  else skip_heap_type type "invalid value type".

Definition skip_limits : M cursor unit :=
  flags ← byte;
  if negb (flags &&& Z.lnot 0x05 =? 0) then fail "unknown limits flags" else
  let read_limit := if flags &&& 0x04 =? 0 then u32 else u64 in
  read_limit ;;
  if flags &&& 0x01 =? 0 then mret tt else read_limit ;; mret tt.

(** The cases of an import's kind byte that hold no memory and no function. *)
Definition skip_global : M cursor unit :=
  skip_value_type ;;
  m ← byte; if 1 <? m then fail "invalid global mutability" else mret tt.
Definition skip_tag : M cursor unit :=
  b ← byte; if negb (b =? 0) then fail "unknown tag attribute" else u32 ;; mret tt.

(** One round of [read_imports]'s loop: the memory import pushed, if any. *)
Definition read_import : M cursor (option memory_import) :=
  module ← span;
  name ← span;
  kind ← byte;
  match kind with
  | 0x00 => u32 ;; mret None
  | 0x01 => skip_reference_type ;; skip_limits ;; mret None
  | 0x02 =>
      module ← lift (text_of module);
      name ← lift (text_of name);
      type ← read_memory_type;
      mret (Some (MemoryImport module name type))
  | 0x03 => skip_global ;; mret None
  | 0x04 => skip_tag ;; mret None
  | _ => fail "unknown import type"
  end.

Definition read_imports : M cursor (list memory_import) :=
  count ← u32;
  found ← repeat_m (Z.to_nat count) read_import;
  expect_done "import section" ;;
  mret (omap id found).

Definition read_definitions : M cursor (list memory_type) :=
  count ← u32;
  found ← repeat_m (Z.to_nat count) read_memory_type;
  expect_done "memory section" ;;
  mret found.

Definition wasm_header : list Z := [0x00; 0x61; 0x73; 0x6d; 0x01; 0x00; 0x00; 0x00].

Fixpoint expect_bytes (expected : list Z) : M cursor unit :=
  match expected with
  | [] => mret tt
  | e :: expected =>
      b ← byte;
      if negb (b =? e) then fail "invalid WebAssembly header" else expect_bytes expected
  end.

Definition read_header : M cursor unit := expect_bytes wasm_header.

(** The section loop of [read_wasm_memories]. A round reads two bytes or
    more, so the length of the module is enough fuel. *)
Fixpoint memory_sections (fuel : nat) (saw_imports saw_definitions : bool) (acc : memories) :
    M cursor memories :=
  fun c => if c_done c then (Done acc, c) else
  match fuel with
  | O => (Loops, c)
  | S fuel =>
      (id ← byte;
       section ← span;
       if id =? 2 then
         if saw_imports then fail "duplicate import section" else
         imports ← on_cursor section read_imports;
         memory_sections fuel true saw_definitions
           (Memories (m_imports acc ++ imports) (m_definitions acc))
       else if id =? 5 then
         if saw_definitions then fail "duplicate memory section" else
         definitions ← on_cursor section read_definitions;
         memory_sections fuel saw_imports true
           (Memories (m_imports acc) (m_definitions acc ++ definitions))
       else memory_sections fuel saw_imports saw_definitions acc) c
  end.

Definition read_wasm_memories (module : list Z) : outcome memories :=
  ((read_header ;; memory_sections (length module) false false (Memories [] []))
     (new_cursor module)).1.

(** * Function imports *)
Record function_import := FunctionImport {
  fi_module : text; fi_name : text; fi_type : option text }.

(** [value_type_names] *)
Definition value_type_name (type : Z) : option text :=
  match type with
  | 0x7f => Some (lit "i32")
  | 0x7e => Some (lit "i64")
  | 0x7d => Some (lit "f32")
  | 0x7c => Some (lit "f64")
  | 0x7b => Some (lit "v128")
  | _ => None
  end.

Definition read_value_type : M cursor text :=
  type ← byte;
  match value_type_name type with
  | Some name => mret name
  | None => skip_heap_type type "invalid value type" ;; mret (lit "ref")
  end.

(** [bytes.view()[0]] *)
Definition peek : M cursor (option Z) := gets (fun c => head (view c)).

Definition read_storage_type : M cursor unit :=
  type ← peek;
  (if bool_decide (type = Some 0x78 ∨ type = Some 0x77) then byte ;; mret tt
   else read_value_type ;; mret tt) ;;
  m ← byte; if 1 <? m then fail "invalid field mutability" else mret tt.

(** A function type written as the source's template string writes it. *)
Definition signature (params results : list text) : text :=
  join (lit ",") params ++ lit "->" ++ join (lit ",") results.

Definition read_composite_type : M cursor (option text) :=
  form ← byte;
  match form with
  | 0x60 =>
      n ← u32; params ← repeat_m (Z.to_nat n) read_value_type;
      n ← u32; results ← repeat_m (Z.to_nat n) read_value_type;
      mret (Some (signature params results))
  | 0x5f => count ← u32; repeat_m (Z.to_nat count) read_storage_type ;; mret None
  | 0x5e => read_storage_type ;; mret None
  | _ => fail "unknown composite type"
  end.

(** Returns the entry it pushes on [types]. *)
Definition read_sub_type : M cursor (option text) :=
  form ← peek;
  (if bool_decide (form = Some 0x50 ∨ form = Some 0x4f)
   then byte ;; supertypes ← u32; repeat_m (Z.to_nat supertypes) u32 ;; mret tt
   else mret tt) ;;
  read_composite_type.

Definition read_types : M cursor (list (option text)) :=
  count ← u32;
  groups ← repeat_m (Z.to_nat count) (
    form ← peek;
    if bool_decide (form = Some 0x4e)
    then byte ;; members ← u32; repeat_m (Z.to_nat members) read_sub_type
    else t ← read_sub_type; mret [t]);
  expect_done "type section" ;;
  mret (concat groups).

(** One round of the import loop of [read_wasm_function_imports]. *)
Definition read_function_import (types : list (option text)) : M cursor (option function_import) :=
  module ← text_span;
  name ← text_span;
  kind ← byte;
  match kind with
  | 0x00 =>
      index ← u32;
      mret (Some (FunctionImport module name (mjoin (types !! Z.to_nat index))))
  | 0x01 => skip_reference_type ;; skip_limits ;; mret None
  | 0x02 => read_memory_type ;; mret None
  | 0x03 => skip_global ;; mret None
  | 0x04 => skip_tag ;; mret None
  | _ => fail "unknown import type"
  end.

Definition read_function_section (types : list (option text)) : M cursor (list function_import) :=
  count ← u32;
  found ← repeat_m (Z.to_nat count) (read_function_import types);
  expect_done "import section" ;;
  mret (omap id found).

Fixpoint function_sections (fuel : nat) (types : list (option text)) :
    M cursor (list function_import) :=
  fun c => if c_done c then (Done [], c) else
  match fuel with
  | O => (Loops, c)
  | S fuel =>
      (id ← byte;
       section ← span;
       if id =? 1 then
         more ← on_cursor section read_types; function_sections fuel (types ++ more)
       else if id =? 2 then on_cursor section (read_function_section types)
       else function_sections fuel types) c
  end.

Definition read_wasm_function_imports (module : list Z) : outcome (list function_import) :=
  ((read_header ;; function_sections (length module) []) (new_cursor module)).1.

Create HintDb safe.
(** * Safety: the readers stay inside their section and always end *)
Definition adv (c : cursor) (n : Z) : cursor := Cursor (c_bytes c) (c_offset c + n) (c_end c).

Lemma land_7f b : 0 ≤ b &&& 0x7f < 128.
Proof. change 0x7f with (Z.ones 7). rewrite Z.land_ones by lia. apply Z.mod_pos_bound; lia. Qed.

(** Bits below [i * 7] and the payload at [i * 7] do not meet. *)
Lemma lor_shift value payload i :
  0 ≤ i → 0 ≤ value < 2 ^ i → 0 ≤ payload → value ||| (payload <<< i) = value + payload * 2 ^ i.
Proof.
  intros Hi Hv Hp. rewrite Z.shiftl_mul_pow2 by done.
  rewrite <- Z.lxor_lor, <- Z.add_nocarry_lxor; [done| |];
  apply Z.bits_inj'; intros n Hn; rewrite Z.land_spec, Z.bits_0;
  (destruct (Z.lt_ge_cases n i);
   [rewrite Z.mul_pow2_bits_low by done; apply andb_false_r
   |rewrite <- (Z.mod_small value (2 ^ i)), Z.mod_pow2_bits_high by lia; done]).
Qed.

Lemma pow2_7_S i : 0 ≤ i → 2 ^ ((i + 1) * 7) = 128 * 2 ^ (i * 7).
Proof. intros. rewrite Z.mul_add_distr_r, Z.pow_add_r by lia. change (2 ^ (1 * 7)) with 128. lia. Qed.

(** A well-formed memory type: limits of the width its address type has. *)
Definition limit_ok (a : address) (n : Z) : Prop :=
  0 ≤ n < match a with I32 => 2 ^ 32 | I64 => 2 ^ 64 end.
Definition memory_type_ok (t : memory_type) : Prop :=
  limit_ok (mt_address t) (mt_minimum t) ∧ from_option (limit_ok (mt_address t)) True (mt_maximum t).

Section safety.
(** The module being read. *)
Context (module : list Z) (Hmodule : bytes_ok module).

Definition cursor_ok (c : cursor) : Prop :=
  c_bytes c = module ∧ 0 ≤ c_offset c ≤ c_end c ∧ c_end c ≤ zlen module.

Definition parse_error (e : exn) : Prop :=
  ∃ msg off, e = WasmParseError msg off ∧ 0 ≤ off ≤ zlen module.

(** [m] advances by at least [k] bytes to a result satisfying [P], or throws
    a parse error located inside the module; it never runs for ever. *)
Definition safe {A} (m : M cursor A) (k : Z) (P : A → Prop) : Prop :=
  ∀ c, cursor_ok c →
    cursor_ok (m c).2 ∧ c_end (m c).2 = c_end c ∧ c_offset c ≤ c_offset (m c).2 ∧
    match (m c).1 with
    | Done a => P a ∧ c_offset c + k ≤ c_offset (m c).2
    | Raise e => parse_error e
    | Loops => False
    end.

Lemma safe_ret {A} (a : A) (P : A → Prop) : P a → safe (mret a) 0 P.
Proof. intros Ha c Hc; simpl. auto with lia. Qed.

Lemma safe_raise {A} e k (P : A → Prop) : parse_error e → safe (lift (Raise e)) k P.
Proof. intros He c Hc; simpl. auto with lia. Qed.

Lemma safe_fail {A} msg k (P : A → Prop) : safe (fail msg) k P.
Proof.
  intros c Hc; simpl. split_and!; auto with lia.
  destruct Hc as (?&?&?). exists msg, (c_offset c); auto with lia.
Qed.

Lemma safe_bind {A B} (m : M cursor A) (f : A → M cursor B) k1 k2 P Q :
  0 ≤ k2 → safe m k1 P → (∀ a, P a → safe (f a) k2 Q) → safe (m ≫= f) (k1 + k2) Q.
Proof.
  intros Hk2 Hm Hf c Hc. destruct (Hm c Hc) as (Hc1&He&Ho&Hr).
  unfold mbind, M_bind. destruct (m c) as [[a|e|] c1]; simpl in *; auto; [].
  destruct Hr as [HP Hk]. destruct (Hf a HP c1 Hc1) as (Hc2&He'&Ho'&Hr').
  split_and!; [done|congruence|lia|].
  destruct (f a c1) as [[b|e|] c2]; simpl in *; auto; []. destruct Hr'; split; [done|lia].
Qed.

(** Sequencing where only the safety of the whole is wanted. *)
Lemma safe_step {A B} (m : M cursor A) (f : A → M cursor B) k P Q :
  safe m k P → 0 ≤ k → (∀ a, P a → safe (f a) 0 Q) → safe (m ≫= f) 0 Q.
Proof.
  intros Hm Hk Hf c Hc. destruct (safe_bind m f k 0 P Q (Z.le_refl 0) Hm Hf c Hc) as (?&?&?&Hr).
  split_and!; try done. destruct ((m ≫= f) c) as [[b|e|] c2]; simpl in *; auto; [].
  destruct Hr; split; [done|lia].
Qed.

Lemma safe_weaken {A} (m : M cursor A) k k' (P P' : A → Prop) :
  safe m k P → k' ≤ k → (∀ a, P a → P' a) → safe m k' P'.
Proof.
  intros Hm Hk HP c Hc. destruct (Hm c Hc) as (?&?&?&Hr). split_and!; try done.
  destruct (m c) as [[a|e|] c1]; simpl in *; auto; []. destruct Hr; split; [auto|lia].
Qed.

Lemma safe_repeat {A} n (m : M cursor A) (P : A → Prop) :
  safe m 0 P → safe (repeat_m n m) 0 (Forall P).
Proof.
  intros Hm; induction n as [|n IH]; simpl; [by apply safe_ret|].
  eapply safe_step; [exact Hm|done|]; intros a Ha.
  eapply safe_step; [exact IH|done|]; intros l Hl. apply safe_ret; auto.
Qed.

Lemma safe_byte : safe byte 1 byte_ok.
Proof.
  intros c Hc. unfold byte. destruct (Z.eqb_spec (c_offset c) (c_end c)).
  - exact (safe_fail _ 1 byte_ok c Hc).
  - destruct Hc as (Hb&?&?); unfold cursor_ok; simpl. split_and!; auto with lia; [].
    destruct (zlookup_lt (c_bytes c) (c_offset c)) as [b Hl]; [rewrite Hb; lia|].
    rewrite Hl; simpl. unfold zlookup in Hl. destruct (c_offset c <? 0); [done|].
    rewrite Hb in Hl. by eapply Forall_lookup_1.
Qed.

(** The value read so far fits its bits, and the result fits [bits]. *)
Lemma safe_unsigned_loop n bits i value :
  0 ≤ i → 0 ≤ value < 2 ^ Z.min bits (i * 7) →
  safe (unsigned_loop n bits i value) 0 (fun v => 0 ≤ v < 2 ^ bits).
Proof.
  revert i value; induction n as [|n IH]; intros i value Hi Hv; simpl; [apply safe_fail|].
  eapply safe_step; [exact safe_byte|lia|].
  intros b _. simpl. pose proof (land_7f b) as Hp. set (payload := b &&& 0x7f) in *.
  destruct (Z.lt_ge_cases bits (i * 7)) as [Hbits|Hbits].
  { (* no bit is left: the payload cannot be below [1 << negative] *)
    assert ((bits - i * 7 <? 7) = true) as -> by lia. rewrite Z.shiftl_1_l.
    rewrite Z.pow_neg_r by lia. assert ((0 <=? payload) = true) as -> by lia. apply safe_fail. }
  rewrite Z.min_r in Hv by done.
  destruct ((bits - i * 7 <? 7) && _)%bool eqn:Hof; [apply safe_fail|].
  assert (Hpow : 2 ^ bits = 2 ^ (i * 7) * 2 ^ (bits - i * 7))
    by (rewrite <- Z.pow_add_r by lia; f_equal; lia).
  assert (Hv' : 0 ≤ value ||| (payload <<< (i * 7)) < 2 ^ Z.min bits ((i + 1) * 7)).
  { rewrite lor_shift by lia. apply andb_false_iff in Hof as [Hof|Hof]; zbool.
    - rewrite Z.min_r, pow2_7_S by lia. nia.
    - rewrite Z.shiftl_1_l in Hof. destruct (Z.min_spec bits ((i + 1) * 7)) as [[? ->]|[? ->]].
      + nia.
      + rewrite pow2_7_S by lia. nia. }
  destruct (_ =? 0); [|apply IH; [lia|done]].
  apply safe_ret. split; [lia|].
  eapply Z.lt_le_trans; [apply Hv'|]. apply Z.pow_le_mono_r; lia.
Qed.

Lemma safe_u32 : safe u32 0 (limit_ok I32).
Proof. apply safe_unsigned_loop; simpl; lia. Qed.
Lemma safe_u64 : safe u64 0 (limit_ok I64).
Proof. apply safe_unsigned_loop; simpl; lia. Qed.

Lemma safe_signed33_loop n i b : safe (signed33_loop n i b) 0 (fun _ => True).
Proof.
  revert i b; induction n as [|n IH]; intros i b; simpl; [by apply safe_ret|].
  repeat case_match; try apply safe_fail; try (by apply safe_ret).
  eapply safe_step; [exact safe_byte|lia|]. intros; apply IH.
Qed.

(** The cursors [span] hands out. *)
Lemma safe_span : safe span 0 cursor_ok.
Proof.
  unfold span. eapply safe_step; [exact safe_u32|lia|]. intros n Hn c Hc.
  unfold mbind, M_bind, get_state. unfold limit_ok in Hn.
  destruct (Z.ltb_spec (c_end c) (c_offset c + n)); [exact (safe_fail _ 0 cursor_ok c Hc)|].
  destruct Hc as (?&?&?). simpl. unfold cursor_ok; simpl. auto 10 with lia.
Qed.

Lemma safe_text_of c : cursor_ok c → safe (lift (text_of c)) 0 (fun _ => True).
Proof.
  intros (Hb&?&?) c' Hc'; unfold text_of.
  destruct (utf8_decode (view c)); simpl; [auto with lia|].
  split_and!; [done|done|lia|]. exists "name is not valid UTF-8"%string, (c_offset c); auto with lia.
Qed.

Lemma safe_on_cursor {A} s (m : M cursor A) P : cursor_ok s → safe m 0 P → safe (on_cursor s m) 0 P.
Proof.
  intros Hs Hm c Hc. unfold on_cursor, lift; simpl. destruct (Hm s Hs) as (?&?&?&Hr).
  destruct (m s) as [[a|e|] s']; simpl in *; naive_solver lia.
Qed.

Lemma safe_expect_done what : safe (expect_done what) 0 (fun _ => True).
Proof.
  intros c Hc; unfold expect_done. destruct (c_done c); simpl; [auto with lia|].
  exact (safe_fail (A:=unit) _ 0 (fun _ => True) c Hc).
Qed.
Lemma safe_peek : safe peek 0 (fun _ => True).
Proof. intros c Hc; simpl; auto with lia. Qed.

#[local] Hint Resolve safe_byte safe_u32 safe_u64 safe_span safe_peek safe_expect_done
  safe_signed33_loop safe_text_of : safe.

(** Walks through a reader, using the lemma of each reader it calls. *)
Ltac safe_tac :=
  repeat first
    [ solve [eauto with safe]
    | apply safe_fail
    | apply safe_ret; done
    | eapply safe_step; [solve [eauto with safe]|lia|intros]
    | match goal with |- safe (match ?x with _ => _ end) _ _ => destruct x eqn:? end ].

Lemma safe_memory_type : safe read_memory_type 0 memory_type_ok.
Proof.
  unfold read_memory_type. eapply safe_step; [exact safe_byte|lia|]. intros flags _.
  destruct (negb _); [apply safe_fail|].
  set (a := if flags &&& 0x04 =? 0 then I32 else I64).
  assert (Hl : safe (match a with I64 => u64 | I32 => u32 end) 0 (limit_ok a))
    by (destruct a; [exact safe_u32|exact safe_u64]).
  eapply safe_step; [exact Hl|lia|]; intros lo Hlo.
  eapply (safe_step _ _ 0 (from_option (limit_ok a) True)); [|lia|intros hi Hhi; by apply safe_ret].
  destruct (negb _); [|by apply safe_ret].
  eapply safe_step; [exact Hl|lia|]; intros hi Hhi. by apply safe_ret.
Qed.

#[local] Hint Resolve safe_memory_type : safe.

Lemma safe_skip_heap_type type msg : safe (skip_heap_type type msg) 0 (fun _ => True).
Proof. unfold skip_heap_type, signed33. safe_tac. Qed.
#[local] Hint Resolve safe_skip_heap_type : safe.
Lemma safe_skip_value_type : safe skip_value_type 0 (fun _ => True).
Proof. unfold skip_value_type. safe_tac. Qed.
Lemma safe_skip_reference_type : safe skip_reference_type 0 (fun _ => True).
Proof. unfold skip_reference_type. safe_tac. Qed.
#[local] Hint Resolve safe_skip_value_type safe_skip_reference_type : safe.

Lemma safe_read_limit (b : bool) : safe (if b then u32 else u64) 0 (fun _ => True).
Proof. destruct b; eapply safe_weaken; eauto with safe; lia. Qed.
#[local] Hint Resolve safe_read_limit : safe.
Lemma safe_skip_limits : safe skip_limits 0 (fun _ => True).
Proof.
  unfold skip_limits. eapply safe_step; [exact safe_byte|lia|]; intros flags _.
  destruct (negb _); [apply safe_fail|].
  eapply safe_step; [apply safe_read_limit|lia|]; intros _ _.
  destruct (_ =? 0); [by apply safe_ret|].
  eapply safe_step; [apply safe_read_limit|lia|]; intros _ _. by apply safe_ret.
Qed.
Lemma safe_skip_global : safe skip_global 0 (fun _ => True).
Proof. unfold skip_global. safe_tac. Qed.
Lemma safe_skip_tag : safe skip_tag 0 (fun _ => True).
Proof. unfold skip_tag. safe_tac. Qed.
Lemma safe_text_span : safe text_span 0 (fun _ => True).
Proof. unfold text_span. safe_tac. Qed.
Lemma safe_read_value_type : safe read_value_type 0 (fun _ => True).
Proof. unfold read_value_type. safe_tac. Qed.
#[local] Hint Resolve safe_skip_limits safe_skip_global safe_skip_tag safe_text_span
  safe_read_value_type : safe.

(** The literal match on an import's kind byte, or on a type's form byte. *)
Ltac kind_cases := repeat match goal with
  | |- safe (match ?x with _ => _ end) _ _ => destruct x; try apply safe_fail end.

Lemma safe_read_import :
  safe read_import 0 (from_option (fun i => memory_type_ok (mi_type i)) True).
Proof.
  unfold read_import.
  eapply safe_step; [exact safe_span|lia|]; intros m Hm.
  eapply safe_step; [exact safe_span|lia|]; intros n Hn.
  eapply safe_step; [exact safe_byte|lia|]; intros kind _. kind_cases; safe_tac.
Qed.

Lemma omap_Forall {A} (P : A → Prop) (l : list (option A)) :
  Forall (from_option P True) l → Forall P (omap id l).
Proof. induction 1 as [|[x|] l Hx Hl IH]; simpl; auto. Qed.

Definition memories_ok (ms : memories) : Prop :=
  Forall (fun i => memory_type_ok (mi_type i)) (m_imports ms) ∧
  Forall memory_type_ok (m_definitions ms).

Lemma safe_read_imports :
  safe read_imports 0 (Forall (fun i => memory_type_ok (mi_type i))).
Proof.
  unfold read_imports. eapply safe_step; [exact safe_u32|lia|]; intros count _.
  eapply safe_step; [apply safe_repeat, safe_read_import|lia|]; intros found Hf.
  eapply safe_step; [apply safe_expect_done|lia|]; intros _ _.
  apply safe_ret. by apply omap_Forall.
Qed.
Lemma safe_read_definitions : safe read_definitions 0 (Forall memory_type_ok).
Proof.
  unfold read_definitions. eapply safe_step; [exact safe_u32|lia|]; intros count _.
  eapply safe_step; [apply safe_repeat, safe_memory_type|lia|]; intros found Hf.
  eapply safe_step; [apply safe_expect_done|lia|]; intros _ _. by apply safe_ret.
Qed.

(** A round of a section loop: an id byte and a span. *)
Lemma section_round {A} (f : Z → cursor → M cursor A) (Q : outcome A → Prop) c :
  cursor_ok c →
  (∀ e, parse_error e → Q (Raise e)) →
  (∀ id s c', cursor_ok s → cursor_ok c' → c_end c' - c_offset c' < c_end c - c_offset c →
     Q (f id s c').1) →
  Q ((id ← byte; section ← span; f id section) c).1.
Proof.
  intros Hc He Hf. unfold mbind, M_bind.
  destruct (safe_byte c Hc) as (Hc1&He1&_&Hr). destruct (byte c) as [[id|e|] c1]; simpl in *; [|by apply He|done].
  destruct (safe_span c1 Hc1) as (Hc2&He2&Ho2&Hr2).
  destruct (span c1) as [[s|e|] c2]; simpl in *; [|by apply He|done].
  destruct Hr, Hr2. apply Hf; auto; lia.
Qed.

(** [on_cursor] in the middle of a computation. *)
Lemma on_cursor_round {A B} s (m : M cursor A) P (f : A → M cursor B) (Q : outcome B → Prop) c :
  cursor_ok s → safe m 0 P → (∀ e, parse_error e → Q (Raise e)) →
  (∀ a, P a → Q (f a c).1) → Q ((on_cursor s m ≫= f) c).1.
Proof.
  intros Hs Hm He Hf. destruct (Hm s Hs) as (_&_&_&Hr).
  unfold on_cursor, lift, mbind, M_bind. destruct (m s) as [[a|e|] s']; simpl in *; [|by apply He|done].
  apply Hf, Hr.
Qed.

Definition result_ok {A} (P : A → Prop) (o : outcome A) : Prop :=
  match o with Done a => P a | Raise e => parse_error e | Loops => False end.

Lemma result_fail {A} msg (P : A → Prop) c : cursor_ok c → result_ok P (fail msg c).1.
Proof. intros Hc. exact (proj2 (proj2 (proj2 (safe_fail msg 0 P c Hc)))). Qed.

(** One unit of fuel per byte left is enough. *)
Lemma safe_memory_sections fuel si sd acc c :
  cursor_ok c → memories_ok acc → c_end c - c_offset c ≤ Z.of_nat fuel →
  result_ok memories_ok (memory_sections fuel si sd acc c).1.
Proof.
  revert si sd acc c; induction fuel as [|fuel IH]; intros si sd acc c Hc Hacc Hf;
    unfold memory_sections; fold memory_sections; unfold c_done;
    destruct (Z.eqb_spec (c_offset c) (c_end c)) as [|Hne]; try done.
  { destruct Hc as (?&?&?); lia. }
  apply section_round; [done|done|]. intros id s c' Hs Hc' Hlt.
  destruct (id =? 2); [|destruct (id =? 5); [|apply IH; auto; lia]].
  - destruct si; [by apply result_fail|].
    eapply on_cursor_round; [done|exact safe_read_imports|done|]. intros ims Hims.
    apply IH; [done| |lia]. destruct Hacc; split; simpl; [by apply Forall_app|done].
  - destruct sd; [by apply result_fail|].
    eapply on_cursor_round; [done|exact safe_read_definitions|done|]. intros ds Hds.
    apply IH; [done| |lia]. destruct Hacc; split; simpl; [done|by apply Forall_app].
Qed.

Lemma cursor_ok_new : cursor_ok (new_cursor module).
Proof. unfold cursor_ok, new_cursor; simpl. auto with lia. Qed.

Lemma safe_expect_bytes l : safe (expect_bytes l) 0 (fun _ => True).
Proof. induction l; simpl; safe_tac. Qed.

(** After the header, the section loop starts with enough fuel. *)
Lemma header_round {A} (f : M cursor A) (Q : outcome A → Prop) :
  (∀ e, parse_error e → Q (Raise e)) →
  (∀ c, cursor_ok c → c_end c - c_offset c ≤ Z.of_nat (length module) → Q (f c).1) →
  Q ((read_header ;; f) (new_cursor module)).1.
Proof.
  intros He Hf. destruct (safe_expect_bytes wasm_header _ cursor_ok_new) as (Hc&He'&Ho&Hr).
  unfold read_header, mbind, M_bind.
  destruct (expect_bytes wasm_header (new_cursor module)) as [[[]|e|] c]; simpl in *; [|by apply He|done].
  apply Hf; [done|]. rewrite He'. unfold new_cursor, zlen in *; simpl in *. lia.
Qed.

Lemma safe_read_storage_type : safe read_storage_type 0 (fun _ => True).
Proof.
  unfold read_storage_type. eapply safe_step; [exact safe_peek|lia|]; intros.
  eapply (safe_step _ _ 0 (fun _ => True)); [|lia|intros].
  - case_bool_decide; safe_tac.
  - safe_tac.
Qed.

Lemma safe_repeat_any {A} n (m : M cursor A) :
  safe m 0 (fun _ => True) → safe (repeat_m n m) 0 (fun _ => True).
Proof. intros. eapply safe_weaken; [by apply safe_repeat|done|done]. Qed.
#[local] Hint Resolve safe_read_storage_type safe_repeat_any : safe.

Lemma safe_any {A} (m : M cursor A) k P : safe m k P → 0 ≤ k → safe m 0 (fun _ => True).
Proof. intros. by eapply safe_weaken. Qed.

Lemma safe_read_composite_type : safe read_composite_type 0 (fun _ => True).
Proof.
  unfold read_composite_type. eapply safe_step; [exact safe_byte|lia|]; intros form _.
  kind_cases; safe_tac.
Qed.
#[local] Hint Resolve safe_read_composite_type : safe.

Lemma safe_read_sub_type : safe read_sub_type 0 (fun _ => True).
Proof.
  unfold read_sub_type. eapply safe_step; [exact safe_peek|lia|]; intros form _.
  eapply (safe_step _ _ 0 (fun _ => True)); [|lia|intros; safe_tac].
  case_bool_decide; [|by apply safe_ret].
  eapply safe_step; [exact safe_byte|lia|]; intros.
  eapply safe_step; [exact safe_u32|lia|]; intros n _.
  eapply safe_step; [apply safe_repeat_any; exact (safe_any _ _ _ safe_u32 (Z.le_refl 0))|lia|]; intros.
  by apply safe_ret.
Qed.
#[local] Hint Resolve safe_read_sub_type : safe.

Lemma safe_read_types : safe read_types 0 (fun _ => True).
Proof.
  unfold read_types. eapply safe_step; [exact safe_u32|lia|]; intros count _.
  eapply safe_step; [apply safe_repeat_any|lia|intros; safe_tac].
  eapply safe_step; [exact safe_peek|lia|]; intros form _. case_bool_decide; safe_tac.
Qed.

Lemma safe_read_function_section types : safe (read_function_section types) 0 (fun _ => True).
Proof.
  unfold read_function_section. eapply safe_step; [exact safe_u32|lia|]; intros count _.
  eapply safe_step; [apply safe_repeat_any|lia|intros; safe_tac].
  unfold read_function_import.
  eapply safe_step; [exact safe_text_span|lia|]; intros m _.
  eapply safe_step; [exact safe_text_span|lia|]; intros n _.
  eapply safe_step; [exact safe_byte|lia|]; intros kind _. kind_cases; safe_tac.
Qed.

Lemma safe_function_sections fuel types c :
  cursor_ok c → c_end c - c_offset c ≤ Z.of_nat fuel →
  result_ok (fun _ => True) (function_sections fuel types c).1.
Proof.
  revert types c; induction fuel as [|fuel IH]; intros types c Hc Hf;
    unfold function_sections; fold function_sections; unfold c_done;
    destruct (Z.eqb_spec (c_offset c) (c_end c)) as [|Hne]; try done.
  { destruct Hc as (?&?&?); lia. }
  apply section_round; [done|done|]. intros id s c' Hs Hc' Hlt.
  destruct (id =? 1); [|destruct (id =? 2); [|apply IH; auto; lia]].
  - eapply on_cursor_round; [done|exact safe_read_types|done|]. intros ts _. apply IH; [done|lia].
  - destruct (safe_read_function_section types s Hs) as (_&_&_&Hr).
    unfold on_cursor, lift; simpl. destruct (read_function_section types s) as [[a|e|] s']; simpl in *; auto.
Qed.
End safety.

(** C25: whatever bytes it is given, the reader of memory sections ends. It
    returns memory types whose limits fit their address type, or throws a
    [WasmParseError] at an offset inside the module. *)
Theorem read_wasm_memories_total module :
  bytes_ok module → result_ok module memories_ok (read_wasm_memories module).
Proof.
  intros Hm. unfold read_wasm_memories.
  apply (header_round module Hm _ (result_ok module memories_ok)); [done|]. intros c Hc Hf.
  apply safe_memory_sections; [done|done| |done]. by split; constructor.
Qed.

(** the reader of function imports ends on every byte string, with its
    imports or with a [WasmParseError] inside the module. *)
Theorem read_wasm_function_imports_total module :
  bytes_ok module → result_ok module (fun _ => True) (read_wasm_function_imports module).
Proof.
  intros Hm. unfold read_wasm_function_imports.
  apply (header_round module Hm _ (result_ok module (fun _ => True))); [done|].
  intros c Hc Hf. by apply safe_function_sections.
Qed.

(** A module that imports a shared memory and one function. *)
Definition sample_module : list Z :=
  wasm_header ++
  [1; 6; 1; 0x60; 1; 0x7f; 1; 0x7f] ++
  [2; 22; 2; 3] ++ lit "env" ++ [6] ++ lit "memory" ++ [2; 3; 1; 2] ++
              [1] ++ lit "m" ++ [1] ++ lit "f" ++ [0; 0].

Lemma read_wasm_memories_witness :
  read_wasm_memories sample_module =
    Done (Memories [MemoryImport (lit "env") (lit "memory") (MemoryType I32 1 (Some 2) true)] []) ∧
  result_ok sample_module memories_ok (read_wasm_memories sample_module).
Proof.
  split; [vm_compute; reflexivity|]. apply read_wasm_memories_total.
  apply (bool_decide_unpack _). vm_compute. exact I.
Defined.

Lemma read_wasm_function_imports_witness :
  read_wasm_function_imports sample_module =
    Done [FunctionImport (lit "m") (lit "f") (Some (lit "i32->i32"))] ∧
  result_ok sample_module (fun _ => True) (read_wasm_function_imports sample_module).
Proof.
  split; [vm_compute; reflexivity|]. apply read_wasm_function_imports_total.
  apply (bool_decide_unpack _). vm_compute. exact I.
Defined.
