(* ===== verification/Wasm.v ===== *)
(** User modules, shared memories and the kernel imports: packages/kernel/src/wasm.ts. *)
From S2P Require Export WasmBinary.

(** * Which imports a user module may have *)
Inductive user_width := W32 | W64.

Definition width_text (w : user_width) : text :=
  match w with W32 => lit "i32" | W64 => lit "i64" end.

(** A user word: a number at width i32, a bigint at width i64. *)
Inductive user_word := WNumber (z : Z) | WBigint (z : Z).

Definition user_word_number (w : user_word) : Z :=
  match w with WBigint z => z | WNumber z => to_u32 z end.

(** `${a}\0${b}` *)
Definition nul_join (a b : text) : text := a ++ [0] ++ b.

Definition supported_user_module_imports : list text :=
  [nul_join (nul_join (lit "env") (lit "memory")) (lit "memory");
   nul_join (nul_join (lit "linux") (lit "syscall")) (lit "function");
   nul_join (nul_join (lit "linux") (lit "get_thread_area")) (lit "function");
   nul_join (nul_join (lit "linux") (lit "copy_siginfo")) (lit "function")].

Definition user_module_function_types (w : user_width) : list (text * text) :=
  [(nul_join (lit "linux") (lit "syscall"),
     join (lit ",") (replicate 7 (width_text w)) ++ lit "->" ++ width_text w);
   (nul_join (lit "linux") (lit "get_thread_area"), lit "->" ++ width_text w);
   (nul_join (lit "linux") (lit "copy_siginfo"), width_text w ++ lit "->i32")].

Fixpoint map_get (k : text) (m : list (text * text)) : option text :=
  match m with
  | [] => None
  | (k', v) :: m => if decide (k = k') then Some v else map_get k m
  end.

(** An entry of [WebAssembly.Module.imports(module)], computed by the engine. *)
Record module_import := ModuleImport { im_module : text; im_name : text; im_kind : text }.

Definition import_supported (i : module_import) : bool :=
  bool_decide (nul_join (nul_join (im_module i) (im_name i)) (im_kind i)
               ∈ supported_user_module_imports).

(** [function_types.get(key) === type]: a missing entry is [undefined], which
    is neither a string nor [null]. *)
Definition function_type_matches (w : user_width) (f : function_import) : bool :=
  match map_get (nul_join (fi_module f) (fi_name f)) (user_module_function_types w), fi_type f with
  | Some t, Some t' => bool_decide (t = t')
  | _, _ => false
  end.

Definition user_module_imports_supported (imports : list module_import) (bytes : list Z)
    (w : user_width) : outcome bool :=
  if forallb import_supported imports
  then fs ← read_wasm_function_imports bytes; mret (forallb (function_type_matches w) fs)
  else Done false.

(** * Memories *)

(** [allocate] is the engine's [new WebAssembly.Memory]: it gives a memory or
    throws. [Loops] is the fuel's end. *)
Fixpoint allocate_loop {Mem} (allocate : Z → Z → Mem + exn) (fuel : nat)
    (initial_pages maximum_pages : Z) : outcome (Mem * Z) :=
  match allocate initial_pages maximum_pages with
  | inl memory => Done (memory, maximum_pages)
  | inr error =>
      let smaller_maximum := Z.max initial_pages (maximum_pages / 2) in
      if (negb (match error with RangeError _ => true | _ => false end)
          || (maximum_pages <=? smaller_maximum))%bool
      then Raise error
      else match fuel with
           | O => Loops
           | S fuel => allocate_loop allocate fuel initial_pages smaller_maximum
           end
  end.

(** The maximum at least loses one page per round. *)
Definition allocate_shared_memory {Mem} (allocate : Z → Z → Mem + exn)
    (initial_pages preferred_maximum_pages : Z) : outcome (Mem * Z) :=
  allocate_loop allocate (Z.to_nat (preferred_maximum_pages - initial_pages))
    initial_pages preferred_maximum_pages.

Definition safe_integer (z : Z) : bool :=
  ((- max_safe_integer <=? z) && (z <=? max_safe_integer))%bool.

(** [buffer] is [None] when [memory.buffer] throws. The result is the view's
    address and length. *)
Definition memory_bytes (buffer : option (list Z)) (address : Z) (length : option Z) :
    option (Z * Z) :=
  buffer ← buffer;
  let view_length := default (zlen buffer - address) length in
  if (negb (safe_integer address) || negb (safe_integer view_length)
      || (address <? 0) || (view_length <? 0) || (zlen buffer <? view_length)
      || (zlen buffer - view_length <? address))%bool
  then None
  else Some (address, view_length).

(** [new Uint8Array(buffer, address, length)] *)
Definition uint8_view (buffer : list Z) (address length : Z) : outcome (list Z) :=
  if bool_decide (0 ≤ address ∧ 0 ≤ length ∧ address + length ≤ zlen buffer)
  then Done (subarray buffer address (address + length))
  else Raise (RangeError "invalid typed array length").

(** * The kernel imports *)
Definition WASM_USER_MEMORY_NONE : Z := 0.
Definition WASM_USER_MEMORY_SHARE : Z := 1.
Definition WASM_USER_MEMORY_COPY : Z := 2.

Inductive termination_reason := Clean | Panic.

(** What a call makes the host do before it returns or throws. *)
Inductive host_call (Ctx : Type) :=
| WorkerExit
| PlatformQuit
| TerminateMachine (reason : termination_reason)
| BootConsoleWrite (message : list Z)
| SpawnWorker (fn arg : Z) (name : list Z) (user : option Ctx) (copy_user_memory : bool).
Arguments WorkerExit {Ctx}.
Arguments PlatformQuit {Ctx}.
Arguments TerminateMachine {Ctx} reason.
Arguments BootConsoleWrite {Ctx} message.
Arguments SpawnWorker {Ctx} fn arg name user copy_user_memory.

Definition HALT_KERNEL : exn := JsError "halt kernel".

Definition halt_worker {Ctx} (is_worker : bool) : M (list (host_call Ctx)) unit :=
  if negb is_worker then throw (JsError "Halt called in main thread") else
  modify (fun calls => calls ++ [WorkerExit; PlatformQuit]) ;;
  throw HALT_KERNEL.

Definition terminate_machine {Ctx} (is_worker : bool) (reason : termination_reason) :
    M (list (host_call Ctx)) unit :=
  if negb is_worker then throw (JsError "Machine termination called in main thread") else
  modify (fun calls => calls ++ [TerminateMachine reason]) ;;
  throw HALT_KERNEL.

Definition boot_console_write {Ctx} (memory : list Z) (msg len : Z) :
    M (list (host_call Ctx)) unit :=
  message ← lift (uint8_view memory (to_u32 msg) (to_u32 len));
  modify (fun calls => calls ++ [BootConsoleWrite message]).

(** [trace] is the engine's stack text, encoded. *)
Definition stack_bytes (trace : list Z) (capacity : Z) : list Z :=
  let trace :=
    if ((capacity <? zlen trace) && (3 <=? capacity))%bool
    then <[Z.to_nat (capacity - 3) := 46]> (<[Z.to_nat (capacity - 2) := 46]>
           (<[Z.to_nat (capacity - 1) := 46]> trace))
    else trace in
  subarray trace 0 capacity.

Definition get_stacktrace (trace memory : list Z) (buf size : Z) : outcome (list Z) :=
  ta_set memory (stack_bytes trace (to_u32 size)) (to_u32 buf).

(** [host_spawn_worker] gives the result of the host's [spawn_worker]. *)
Definition spawn_worker {Ctx} (memory : list Z) (context : option Ctx)
    (host_spawn_worker : Z → Z → list Z → option Ctx → bool → Z)
    (fn arg comm comm_len user_memory : Z) : M (list (host_call Ctx)) Z :=
  name ← lift (uint8_view memory (to_u32 comm) (to_u32 comm_len));
  let spawn user copy_user_memory :=
    modify (fun calls => calls ++ [SpawnWorker fn arg name user copy_user_memory]) ;;
    mret (host_spawn_worker fn arg name user copy_user_memory) in
  if negb (user_memory =? WASM_USER_MEMORY_NONE) then
    match context with
    | None => mret (-22)
    | Some context =>
        if user_memory =? WASM_USER_MEMORY_SHARE then spawn (Some context) false
        else if user_memory =? WASM_USER_MEMORY_COPY then spawn (Some context) true
        else mret (-22)
    end
  else spawn None false.

(** * Lemmas *)

(** The keys of the tables have no NUL but the separators, so a key matches
    only the names it was made from. *)
Definition no_nul (t : text) : Prop := Forall (fun c => c ≠ 0) t.
#[export] Instance no_nul_dec t : Decision (no_nul t).
Proof. unfold no_nul; apply _. Defined.

Lemma no_nul_not_in t : no_nul t → 0 ∉ t.
Proof. intros H Hin. unfold no_nul in H; rewrite Forall_forall in H. by apply (H 0). Qed.

Lemma nul_join_key a b a' b' :
  no_nul a → no_nul b → nul_join a' b' = nul_join a b → a' = a ∧ b' = b.
Proof.
  unfold nul_join. intros Ha Hb. revert a'.
  induction Ha as [|x a Hx Ha IH]; intros [|y a']; simpl.
  - naive_solver.
  - intros [= -> H]. exfalso. apply (no_nul_not_in b Hb). rewrite <- H. set_solver.
  - intros [= <- _]. done.
  - intros [= -> H]. destruct (IH _ H) as [-> ->]. done.
Qed.

Lemma nul_join_inj2 a b k a' b' k' :
  no_nul a → no_nul b → no_nul k →
  nul_join (nul_join a' b') k' = nul_join (nul_join a b) k → a' = a ∧ b' = b ∧ k' = k.
Proof.
  intros Ha Hb Hk. revert a'.
  assert (Hr : ∀ c d e, nul_join (nul_join c d) e = c ++ [0] ++ nul_join d e)
    by (intros; unfold nul_join; by rewrite <- !app_assoc).
  induction Ha as [|x a Hx Ha IH]; intros [|y a']; rewrite !Hr; simpl.
  - intros [= H]. apply nul_join_key in H as [-> ->]; done.
  - intros [= -> H]. change (nul_join a' (nul_join b' k') = nul_join b k) in H.
    apply nul_join_key in H as [_ H]; [|done..]. subst k.
    destruct (no_nul_not_in _ Hk). unfold nul_join. set_solver.
  - intros [= <- _]. done.
  - intros [= -> H]. destruct (IH a') as (->&->&->); [by rewrite !Hr|done].
Qed.

Lemma allocate_loop_spec {Mem} (allocate : Z → Z → Mem + exn) fuel initial maximum :
  0 ≤ initial → (Z.to_nat (maximum - initial) ≤ fuel)%nat →
  match allocate_loop allocate fuel initial maximum with
  | Done (memory, m) =>
      allocate initial m = inl memory ∧ m ≤ maximum ∧ Z.min initial maximum ≤ m
  | Raise e => ∃ m, allocate initial m = inr e ∧ m ≤ maximum ∧
      (∀ msg, e = RangeError msg → m ≤ initial)
  | Loops => False
  end.
Proof.
  intros Hi. revert maximum; induction fuel as [|fuel IH]; intros maximum Hf; simpl.
  all: destruct (allocate initial maximum) as [memory|error] eqn:E; [auto with lia|].
  all: destruct (negb _) eqn:Hr; simpl; [exists maximum; split_and!; [done|lia|]; intros msg ->; done|].
  all: destruct (Z.leb_spec maximum (initial `max` (maximum / 2))) as [Hle|Hgt].
  all: try (exists maximum; split_and!; [done|lia|]; intros _ _;
    destruct (Z.max_spec initial (maximum / 2)) as [[? Hm]|[? Hm]]; rewrite Hm in Hle; [|lia];
    assert (maximum ≤ 0) by (pose proof (Z.div_lt maximum 2); lia); lia).
  - exfalso. assert (maximum / 2 < maximum) by lia. lia.
  - specialize (IH (initial `max` (maximum / 2))).
    assert (initial ≤ initial `max` (maximum / 2)) by lia.
    destruct allocate_loop as [[memory m]|e|].
    + destruct IH as (?&?&?); [lia|]. split_and!; auto; lia.
    + destruct IH as (m&?&?&?); [lia|]. exists m; split_and!; auto; lia.
    + apply IH; lia.
Qed.

(** The user ABI, written out. *)
Inductive abi_import : module_import → Prop :=
| abi_memory : abi_import (ModuleImport (lit "env") (lit "memory") (lit "memory"))
| abi_linux name :
    name ∈ [lit "syscall"; lit "get_thread_area"; lit "copy_siginfo"] →
    abi_import (ModuleImport (lit "linux") name (lit "function")).

Inductive abi_function (word : text) : function_import → Prop :=
| abi_syscall :
    abi_function word (FunctionImport (lit "linux") (lit "syscall")
      (Some (signature (replicate 7 word) [word])))
| abi_get_thread_area :
    abi_function word (FunctionImport (lit "linux") (lit "get_thread_area")
      (Some (signature [] [word])))
| abi_copy_siginfo :
    abi_function word (FunctionImport (lit "linux") (lit "copy_siginfo")
      (Some (signature [word] [lit "i32"]))).

Ltac no_nul := apply (bool_decide_unpack _); vm_compute; exact I.

Lemma import_supported_abi i : import_supported i = true ↔ abi_import i.
Proof.
  unfold import_supported. rewrite bool_decide_eq_true. destruct i as [m n k]; simpl. split.
  - unfold supported_user_module_imports. rewrite !elem_of_cons, elem_of_nil.
    intros [H|[H|[H|[H|[]]]]].
    all: apply nul_join_inj2 in H as (->&->&->); [|no_nul..].
    all: constructor; set_solver.
  - inversion 1 as [|name Hn]; subst; [set_solver|].
    rewrite !elem_of_cons, elem_of_nil in Hn. unfold supported_user_module_imports.
    destruct Hn as [->|[->|[->|[]]]]; set_solver.
Qed.

Lemma function_type_matches_abi w f :
  function_type_matches w f = true ↔ abi_function (width_text w) f.
Proof.
  unfold function_type_matches. destruct f as [m n t]; simpl. split.
  - cbn [map_get user_module_function_types].
    repeat (case_decide as H; [apply nul_join_key in H as [-> ->]; [|no_nul..];
      destruct t; [|done]; intros <-%bool_decide_eq_true; destruct w; constructor|clear H]).
    done.
  - inversion 1; subst; destruct w; vm_compute; done.
Qed.

Lemma forallb_Forall {A} (P : A → Prop) (p : A → bool) l :
  (∀ x, p x = true ↔ P x) → forallb p l = true ↔ Forall P l.
Proof.
  intros Hp. induction l; simpl; [by split; [constructor|]|].
  rewrite andb_true_iff, Forall_cons, Hp, IHl. done.
Qed.

(** A module is accepted exactly when the engine's list of its imports
    holds nothing but the shared memory and the three kernel functions, and
    its import section, parsed from the bytes, gives each function the
    signature the ABI has at this width. Names with NULs, which the joined
    keys could confuse, are never accepted. *)
Theorem user_module_imports_supported_iff imports bytes w :
  user_module_imports_supported imports bytes w = Done true ↔
  Forall abi_import imports ∧
  ∃ fs, read_wasm_function_imports bytes = Done fs ∧ Forall (abi_function (width_text w)) fs.
Proof.
  unfold user_module_imports_supported.
  rewrite <- (forallb_Forall abi_import import_supported) by apply import_supported_abi.
  pose proof (λ fs, forallb_Forall _ _ fs (function_type_matches_abi w)) as Hf.
  destruct (forallb import_supported imports); [|naive_solver].
  destruct (read_wasm_function_imports bytes) as [fs|e|]; cbn; [|naive_solver..].
  split.
  - intros [= H]. split; [done|]. exists fs; split; [done|]. by apply Hf.
  - intros (_&fs'&[= <-]&H%Hf). by rewrite H.
Qed.

(** Allocating a shared memory ends whatever the engine answers. A memory
    it returns was made with the maximum it reports, which lies between the
    initial and the preferred size; a failure it reports is one the engine
    gave, and a [RangeError] only once the maximum had come down to the
    initial size. *)
Theorem allocate_shared_memory_total {Mem} (allocate : Z → Z → Mem + exn) initial preferred :
  0 ≤ initial →
  match allocate_shared_memory allocate initial preferred with
  | Done (memory, m) =>
      allocate initial m = inl memory ∧ m ≤ preferred ∧ Z.min initial preferred ≤ m
  | Raise e => ∃ m, allocate initial m = inr e ∧ m ≤ preferred ∧
      (∀ msg, e = RangeError msg → m ≤ initial)
  | Loops => False
  end.
Proof. intros. by apply allocate_loop_spec. Qed.

(** An engine that cannot reserve more than 300 pages. *)
Definition small_engine (initial maximum : Z) : Z + exn :=
  if maximum <=? 300 then inl maximum else inr (RangeError "out of address space").

Lemma allocate_shared_memory_witness :
  allocate_shared_memory small_engine 16 65536 = Done (256, 256) ∧
  match allocate_shared_memory small_engine 16 65536 with
  | Done (memory, m) =>
      small_engine 16 m = inl memory ∧ m ≤ 65536 ∧ Z.min 16 65536 ≤ m
  | Raise e => ∃ m, small_engine 16 m = inr e ∧ m ≤ 65536 ∧
      (∀ msg, e = RangeError msg → m ≤ 16)
  | Loops => False
  end.
Proof.
  split; [vm_compute; reflexivity|].
  apply (allocate_shared_memory_total small_engine 16 65536). lia.
Defined.

(** A guest address and length are accepted exactly when they denote a
    range of the memory, and the view taken then cannot throw. *)
Theorem memory_bytes_bounds buffer address length :
  zlen buffer ≤ max_safe_integer →
  (memory_bytes (Some buffer) address length =
    let n := default (zlen buffer - address) length in
    if bool_decide (0 ≤ address ∧ 0 ≤ n ∧ address + n ≤ zlen buffer)
    then Some (address, n) else None) ∧
  (∀ a n, memory_bytes (Some buffer) address length = Some (a, n) →
     ∃ view, uint8_view buffer a n = Done view ∧ zlen view = n).
Proof.
  intros Hb. set (n := default (zlen buffer - address) length).
  assert (memory_bytes (Some buffer) address length =
    if bool_decide (0 ≤ address ∧ 0 ≤ n ∧ address + n ≤ zlen buffer)
    then Some (address, n) else None) as Heq.
  { unfold memory_bytes; simpl. fold n. clearbody n.
    unfold safe_integer, max_safe_integer in *.
    pose proof (zlen_nonneg buffer).
    case_bool_decide as Hd; [|apply not_and_l in Hd];
      match goal with |- (if ?b then _ else _) = _ => destruct b eqn:E end; try done; exfalso.
    - repeat (apply orb_true_iff in E as [E|E]); zbool; try lia;
        apply andb_false_iff in E as [E|E]; zbool; lia.
    - zbool. repeat match goal with H : _ ∨ _ |- _ => destruct H end; lia. }
  split; [done|]. rewrite Heq. intros a m. case_bool_decide as Hd; [|done]. intros [= <- <-].
  unfold uint8_view. rewrite bool_decide_eq_true_2 by done. eexists; split; [done|].
  rewrite zlen_subarray; lia.
Qed.

Lemma memory_bytes_witness :
  let buffer := zeros 100 in
  (memory_bytes (Some buffer) 60 None =
    let n := default (zlen buffer - 60) None in
    if bool_decide (0 ≤ 60 ∧ 0 ≤ n ∧ 60 + n ≤ zlen buffer)
    then Some (60, n) else None) ∧
  (∀ a n, memory_bytes (Some buffer) 60 None = Some (a, n) →
     ∃ view, uint8_view buffer a n = Done view ∧ zlen view = n).
Proof. apply (memory_bytes_bounds (zeros 100) 60 None). vm_compute. discriminate. Defined.

(** a stack trace never leaves the guest's buffer: bytes of memory outside
    it keep their value, and inside it stands a prefix of the trace, ended by
    three dots when the trace was cut and they fit. *)
Theorem get_stacktrace_in_buffer trace memory buf size memory' :
  get_stacktrace trace memory buf size = Done memory' →
  let a := Z.to_nat (to_u32 buf) in
  let n := Z.to_nat (Z.min (zlen trace) (to_u32 size)) in
  zlen memory' = zlen memory ∧
  (∀ i, (i < a ∨ a + n ≤ i)%nat → memory' !! i = memory !! i) ∧
  take n (drop a memory') =
    if ((to_u32 size <? zlen trace) && (3 <=? to_u32 size))%bool
    then take (Z.to_nat (to_u32 size - 3)) trace ++ [46; 46; 46]
    else take n trace.
Proof.
  intros H a n. unfold get_stacktrace in H.
  assert (Hn : length (stack_bytes trace (to_u32 size)) = n).
  { unfold stack_bytes, subarray. subst n. pose proof (to_u32_range size).
    destruct (_ && _)%bool; rewrite length_take, length_drop, ?length_insert; unfold zlen; lia. }
  apply ta_set_done in H as (Ha & Hl & ->). fold a.
  assert (a + n ≤ length memory)%nat by (unfold zlen in Hl; rewrite Hn in Hl; subst a; lia).
  split_and!.
  - unfold zlen. rewrite length_splice; [done|lia].
  - intros i Hi. apply splice_lookup_out; lia.
  - rewrite <- Hn, splice_range by lia.
    unfold stack_bytes, subarray. pose proof (to_u32_range size).
    destruct (_ && _)%bool eqn:Hb; rewrite drop_0, Z2Nat.inj_0, Nat.sub_0_r.
    + zbool. set (k := Z.to_nat (to_u32 size - 3)).
      replace (Z.to_nat (to_u32 size - 1)) with (k + 2)%nat by lia.
      replace (Z.to_nat (to_u32 size - 2)) with (k + 1)%nat by lia.
      replace (Z.to_nat (to_u32 size)) with (k + 3)%nat by lia.
      assert (k + 3 < length trace)%nat by (unfold zlen in *; lia).
      rewrite <- take_take_drop. f_equal.
      * rewrite !take_insert_ge by lia. done.
      * rewrite !drop_insert_ge, Nat.sub_diag by lia.
        replace (k + 1 - k)%nat with 1%nat by lia. replace (k + 2 - k)%nat with 2%nat by lia.
        destruct (drop k trace) as [|x1 [|x2 [|x3 l]]] eqn:E;
          apply (f_equal length) in E; rewrite length_drop in E; simpl in E; try lia. done.
    + rewrite length_take. destruct (decide (Z.to_nat (to_u32 size) ≤ length trace)%nat).
      * by rewrite Nat.min_l.
      * by rewrite Nat.min_r, !take_ge by lia.
Qed.

Lemma get_stacktrace_witness :
  get_stacktrace (lit "abcdefgh") (zeros 12) 4 6 = Done (zeros 4 ++ lit "abc..." ++ zeros 2) ∧
  zlen (zeros 4 ++ lit "abc..." ++ zeros 2) = zlen (zeros 12).
Proof.
  split; [vm_compute; reflexivity|].
  apply (get_stacktrace_in_buffer (lit "abcdefgh") (zeros 12) 4 6). vm_compute. reflexivity.
Defined.
