(* ===== verification/Queue.v ===== *)
(** Packed virtqueues: packages/kernel/src/virtio/queue.ts.

    The queue's state holds the guest's memory, its own cursors and the
    completions it has handed to [publish]. A chain holds its buffers: private
    copies, or the guest's memory itself on a queue made with views. *)
From S2P Require Export Bytes.

Definition VERSION_1 : Z := 1 <<< 32.
Definition RING_PACKED : Z := 1 <<< 34.
Definition INDIRECT_DESC : Z := 1 <<< 28.

Definition NEXT : Z := 1 <<< 0.
Definition WRITE : Z := 1 <<< 1.
Definition INDIRECT : Z := 1 <<< 2.
Definition AVAIL : Z := 1 <<< 7.
Definition USED : Z := 1 <<< 15.

(** [(flags & flag) !== 0] *)
Definition has (flags flag : Z) : bool := negb (flags &&& flag =? 0).

Definition VirtqDescriptor : ty :=
  Struct [("addr", U64LE); ("len", U32LE); ("id", U16LE); ("flags", U16LE)].
Definition descriptor_size : Z := ty_size VirtqDescriptor.

Record descriptor := Descriptor { d_addr : Z; d_len : Z; d_id : Z; d_flags : Z }.

Definition read_descriptor (memory : list Z) (address : Z) : outcome descriptor :=
  d ← ty_get VirtqDescriptor (dv_of memory) address;
  mret (Descriptor d.["addr"] d.["len"] d.["id"] d.["flags"]).

(** * Chains *)
Inductive buffer :=
| View (address length : Z) (writable : bool)
| Copy (data : list Z) (writable : bool) (address : option Z).

Record output := Output { o_address : Z; o_data : list Z }.

(** [Number(addr)] is exact for the addresses a typed array can take; a larger
    one throws in either case. *)
Definition chain_buffer (memory : list Z) (views : bool) (d : descriptor) : outcome buffer :=
  if bool_decide (d_addr d + d_len d ≤ zlen memory) then
    let writable := has (d_flags d) WRITE in
    if views then Done (View (d_addr d) (d_len d) writable)
    else
      let copy := subarray memory (d_addr d) (d_addr d + d_len d) in
      Done (Copy copy writable (if writable then Some (d_addr d) else None))
  else Raise (RangeError "Invalid typed array length").

Fixpoint map_outcome {A B} (f : A → outcome B) (l : list A) : outcome (list B) :=
  match l with
  | [] => Done []
  | a :: l => b ← f a; bs ← map_outcome f l; Done (b :: bs)
  end.

Definition chain_buffers (memory : list Z) (views : bool) (desc : list descriptor) :
    outcome (list buffer) := map_outcome (chain_buffer memory views) desc.

Definition chain_outputs (buffers : list buffer) : list output :=
  buffers ≫= fun b =>
    match b with
    | Copy data _ (Some address) => [Output address data]
    | _ => []
    end.

(** A chain and what its release passes to the queue. *)
Record chain := Chain { ch_buffers : list buffer; ch_id : Z; ch_skip : Z }.

(** * Publishing a completion *)
Record completion := Completion {
  co_descriptor_address : Z; co_id : Z; co_written : Z; co_flags : Z;
  co_outputs : list output }.

Definition FLAGS_OFFSET : Z := 14.
Definition flags_index (descriptor_address : Z) : Z := to_u32 (descriptor_address + FLAGS_OFFSET) >>> 1.

(** [Atomics.load] and [Atomics.store] on the memory as a [Uint16Array]. *)
Definition atomics_load (memory : list Z) (index : Z) : outcome Z :=
  if bool_decide (2 * index + 2 ≤ zlen memory)
  then Done (le_decode (subarray memory (2 * index) (2 * index + 2)))
  else Raise (RangeError "out of range index").
Definition atomics_store (memory : list Z) (index v : Z) : outcome (list Z) :=
  if bool_decide (2 * index + 2 ≤ zlen memory)
  then Done (splice memory (Z.to_nat (2 * index)) (le_encode 2 (to_u16 v)))
  else Raise (RangeError "out of range index").

(** The stores of [publish_virtqueue_completion] in program order. *)
Inductive store :=
| StoreOutput (o : output)
| StoreId (descriptor_address id : Z)
| StoreLen (descriptor_address written : Z)
| StoreFlags (descriptor_address flags : Z).

Definition completion_stores (c : completion) : list store :=
  (StoreOutput <$> co_outputs c) ++
  [StoreId (co_descriptor_address c) (co_id c);
   StoreLen (co_descriptor_address c) (co_written c);
   StoreFlags (co_descriptor_address c) (co_flags c)].

Definition run_store (memory : list Z) (s : store) : outcome (list Z) :=
  match s with
  | StoreOutput o => ta_set memory (o_data o) (o_address o)
  | StoreId a id => ty_set VirtqDescriptor (dv_of memory) a (Obj [("id", Num id)])
  | StoreLen a written => ty_set VirtqDescriptor (dv_of memory) a (Obj [("len", Num written)])
  | StoreFlags a flags => atomics_store memory (flags_index a) flags
  end.

Fixpoint run_stores (memory : list Z) (l : list store) : outcome (list Z) :=
  match l with
  | [] => Done memory
  | s :: l => memory ← run_store memory s; run_stores memory l
  end.

Definition publish_virtqueue_completion (memory : list Z) (c : completion) : outcome (list Z) :=
  run_stores memory (completion_stores c).

(** * The queue *)
Record queue := Queue {
  q_memory : list Z; q_size : Z; q_desc_addr : Z; q_views : bool;
  q_current : bool;
  q_avail_wrap : bool; q_used_wrap : bool; q_used_idx : Z; q_avail_idx : Z; q_valid : bool;
  q_published : list completion }.

Definition packed_virtqueue (memory : list Z) (size desc_addr : Z) (views : bool) : outcome queue :=
  assert_ (negb (size =? 0)) "" ;;
  assert_ (desc_addr mod descriptor_size =? 0) "packed ring must be 16-byte aligned" ;;
  mret (Queue memory size desc_addr views true true true 0 0 true []).

Definition set_avail (idx : Z) (wrap : bool) (q : queue) : queue :=
  Queue (q_memory q) (q_size q) (q_desc_addr q) (q_views q) (q_current q)
    wrap (q_used_wrap q) (q_used_idx q) idx (q_valid q) (q_published q).
Definition set_used (idx : Z) (wrap : bool) (q : queue) : queue :=
  Queue (q_memory q) (q_size q) (q_desc_addr q) (q_views q) (q_current q)
    (q_avail_wrap q) wrap idx (q_avail_idx q) (q_valid q) (q_published q).
Definition publish (c : completion) (q : queue) : queue :=
  Queue (q_memory q) (q_size q) (q_desc_addr q) (q_views q) (q_current q)
    (q_avail_wrap q) (q_used_wrap q) (q_used_idx q) (q_avail_idx q) (q_valid q)
    (q_published q ++ [c]).
Definition invalidate : M queue unit := modify (fun q =>
  Queue (q_memory q) (q_size q) (q_desc_addr q) (q_views q) (q_current q)
    (q_avail_wrap q) (q_used_wrap q) (q_used_idx q) (q_avail_idx q) false (q_published q)).

(** The address of descriptor [index] of the ring. *)
Definition ring_address (q : queue) (index : Z) : Z := q_desc_addr q + descriptor_size * index.

Definition queue_descriptor (index : Z) : M queue descriptor := fun q =>
  (read_descriptor (q_memory q) (ring_address q index), q).

Fixpoint indirect_descriptors (memory : list Z) (address : Z) (count : nat) (i : Z) :
    outcome (list descriptor) :=
  match count with
  | O => Done []
  | S count =>
      d ← read_descriptor memory (address + descriptor_size * i);
      ds ← indirect_descriptors memory address count (i + 1);
      Done (d :: ds)
  end.

Definition advance : M queue (option Z) :=
  q ← get_state;
  flags ← lift (atomics_load (q_memory q) (flags_index (ring_address q (q_avail_idx q))));
  let avail := has flags AVAIL in
  let used := has flags USED in
  if (eqb avail used || negb (eqb avail (q_avail_wrap q)))%bool then mret None else
  let index := q_avail_idx q in
  let next := q_avail_idx q + 1 in
  (if q_size q <=? next then modify (set_avail 0 (negb (q_avail_wrap q)))
   else modify (set_avail next (q_avail_wrap q))) ;;
  mret (Some index).

(** The [do ... while] of [#pop], after a descriptor with [NEXT]. A chain takes
    each of the ring's descriptors at most once, so [q_size] rounds are enough. *)
Fixpoint pop_next (fuel : nat) : M queue (list descriptor) :=
  match fuel with
  | O => lift Loops
  | S fuel =>
      i ← advance;
      match i with
      | None => throw (JsError "no next descriptor is available")
      | Some i =>
          desc ← queue_descriptor i;
          if has (d_flags desc) NEXT
          then rest ← pop_next fuel; mret (desc :: rest)
          else mret [desc]
      end
  end.

(** The ring's descriptors of the next chain: the first, and those linked to it. *)
Definition pop_ring : M queue (option (descriptor * list descriptor)) :=
  i ← advance;
  match i with
  | None => mret None
  | Some i =>
      desc ← queue_descriptor i;
      q ← get_state;
      if has (d_flags desc) NEXT
      then rest ← pop_next (Z.to_nat (q_size q)); mret (Some (desc, rest))
      else mret (Some (desc, []))
  end.

(** The descriptors of the chain: those of the ring, or an indirect table. *)
Definition chain_table (q : queue) (desc : descriptor) (rest : list descriptor) :
    outcome (list descriptor) :=
  if (negb (has (d_flags desc) NEXT) && has (d_flags desc) INDIRECT)%bool then
    let count := d_len desc / descriptor_size in
    if (negb (d_len desc mod descriptor_size =? 0) || (q_size q <? count))%bool
    then Raise (JsError "malformed indirect buffer")
    else indirect_descriptors (q_memory q) (d_addr desc) (Z.to_nat count) 0
  else Done (desc :: rest).

Definition pop : M queue (option chain) :=
  ring ← pop_ring;
  match ring with
  | None => mret None
  | Some (desc, rest) =>
      q ← get_state;
      chain_desc ← lift (chain_table q desc rest);
      buffers ← lift (chain_buffers (q_memory q) (q_views q) chain_desc);
      let c := Chain buffers (d_id desc) (zlen (desc :: rest)) in
      mret (if q_current q then Some c else None)
  end.

(** One [next()] of the queue's iterator; [None] ends it. *)
Definition next : M queue (option chain) :=
  q ← get_state;
  if (q_valid q && q_current q)%bool then pop else mret None.

Definition release (id skip written : Z) (outputs : list output) : M queue unit :=
  q ← get_state;
  if (negb (q_valid q) || negb (q_current q))%bool then mret tt else
  desc ← queue_descriptor (q_used_idx q);
  let avail := has (d_flags desc) AVAIL in
  let used := has (d_flags desc) USED in
  if (eqb avail used || negb (eqb avail (q_used_wrap q)))%bool
  then throw (JsError "ring full") else
  let flags := (if q_used_wrap q then AVAIL ||| USED else 0) in
  let flags := (if 0 <? written then flags ||| WRITE else flags) in
  let c := Completion (ring_address q (q_used_idx q)) id written flags outputs in
  let used_idx := q_used_idx q + skip in
  (if q_size q <=? used_idx then modify (set_used (used_idx - q_size q) (negb (q_used_wrap q)))
   else modify (set_used used_idx (q_used_wrap q))) ;;
  modify (publish c).

Definition chain_release (c : chain) (written : Z) : M queue unit :=
  release (ch_id c) (ch_skip c) written (chain_outputs (ch_buffers c)).

(** * Cursors as positions

    A cursor of the ring is an index and a wrap counter that flips when the
    index comes round. Together they stand for a position in the unbounded
    sequence of descriptors: index [n mod size], wrap counter "[n / size] is even". *)
Definition cursor_at (size idx : Z) (wrap : bool) (n : Z) : Prop :=
  0 ≤ n ∧ idx = n mod size ∧ wrap = Z.even (n / size).

Definition avail_at (q : queue) (n : Z) : Prop :=
  cursor_at (q_size q) (q_avail_idx q) (q_avail_wrap q) n.
Definition used_at (q : queue) (n : Z) : Prop :=
  cursor_at (q_size q) (q_used_idx q) (q_used_wrap q) n.

(** What stays the same while chains are taken. *)
Definition same_but_avail (q q' : queue) : Prop :=
  q' = set_avail (q_avail_idx q') (q_avail_wrap q') q.

(** The driver has made the descriptor at position [n] available. *)
Definition slot_ready (q : queue) (n : Z) : Prop :=
  ∃ flags, atomics_load (q_memory q) (flags_index (ring_address q (n mod q_size q))) = Done flags ∧
    has flags AVAIL = Z.even (n / q_size q) ∧ has flags USED = negb (Z.even (n / q_size q)).

Definition slot_descriptor (q : queue) (n : Z) (d : descriptor) : Prop :=
  read_descriptor (q_memory q) (ring_address q (n mod q_size q)) = Done d.

(** The descriptors of the chain that starts at position [n] and takes [skip]
    places: a run linked by [NEXT], or the table an [INDIRECT] one points to. *)
Inductive chain_at (q : queue) (n : Z) : list descriptor → Z → Prop :=
| chain_direct ds last :
    (∀ i d, (ds ++ [last]) !! i = Some d → slot_descriptor q (n + Z.of_nat i) d) →
    Forall (fun d => has (d_flags d) NEXT = true) ds →
    has (d_flags last) NEXT = false →
    (ds = [] → has (d_flags last) INDIRECT = false) →
    chain_at q n (ds ++ [last]) (zlen ds + 1)
| chain_indirect d count ds :
    slot_descriptor q n d →
    has (d_flags d) NEXT = false → has (d_flags d) INDIRECT = true →
    d_len d = descriptor_size * Z.of_nat count → Z.of_nat count ≤ q_size q →
    indirect_descriptors (q_memory q) (d_addr d) count 0 = Done ds →
    chain_at q n ds 1.

Lemma cursor_skip size idx wrap n k :
  0 < size → 0 ≤ k ≤ size → cursor_at size idx wrap n →
  if size <=? idx + k then cursor_at size (idx + k - size) (negb wrap) (n + k)
  else cursor_at size (idx + k) wrap (n + k).
Proof.
  intros Hs Hk (Hn & Hi & Hw). subst idx wrap. pose proof (Z.mod_pos_bound n size Hs).
  pose proof (Z.div_mod n size). unfold cursor_at.
  destruct (Z.leb_spec size (n mod size + k)).
  - assert (n + k = (n mod size + k - size) + (n / size + 1) * size) as E by lia.
    split_and!; [lia| |]; rewrite E, ?Z.mod_add, ?Z.div_add by lia.
    + by rewrite (Z.mod_small (_ - size)) by lia.
    + rewrite (Z.div_small (_ - size)) by lia. rewrite Z.add_0_l, Z.even_add.
      by destruct (Z.even _).
  - assert (n + k = (n mod size + k) + n / size * size) as E by lia.
    split_and!; [lia| |]; rewrite E, ?Z.mod_add, ?Z.div_add by lia.
    + by rewrite (Z.mod_small (n mod size + k)) by lia.
    + by rewrite (Z.div_small (n mod size + k)) by lia.
Qed.

Lemma cursor_next size idx wrap n :
  0 < size → cursor_at size idx wrap n →
  if size <=? idx + 1 then cursor_at size 0 (negb wrap) (n + 1)
  else cursor_at size (idx + 1) wrap (n + 1).
Proof.
  intros Hs Hat. pose proof (cursor_skip size idx wrap n 1 Hs) as H.
  destruct Hat as (Hn & Hi & Hw). pose proof (Z.mod_pos_bound n size Hs).
  destruct (Z.leb_spec size (idx + 1)).
  - replace 0 with (idx + 1 - size) by lia. apply H; [lia|done].
  - apply H; [lia|done].
Qed.

(** The same slot cannot be ready on two successive laps. *)
Lemma slot_ready_once q n : 0 < q_size q → slot_ready q n → slot_ready q (n + q_size q) → False.
Proof.
  intros Hs (f & Hf & Ha & _) (f' & Hf' & Ha' & _).
  assert (n + q_size q = n + 1 * q_size q) as E by lia. rewrite E in Hf', Ha'.
  rewrite Z.mod_add in Hf' by lia. rewrite Z.div_add, Z.even_add in Ha' by lia.
  rewrite Hf in Hf'. injection Hf' as <-. rewrite Ha in Ha'. by destruct (Z.even _).
Qed.

Lemma slot_ready_same q q' n : same_but_avail q q' → slot_ready q' n ↔ slot_ready q n.
Proof. intros ->. done. Qed.

Lemma advance_spec q n :
  0 < q_size q → avail_at q n →
  match advance q with
  | (Done (Some i), q') =>
      i = n mod q_size q ∧ slot_ready q n ∧ avail_at q' (n + 1) ∧ same_but_avail q q'
  | (Done None, q') => q' = q
  | (Raise _, q') => q' = q
  | (Loops, _) => False
  end.
Proof.
  intros Hs Hat. pose proof (cursor_next _ _ _ _ Hs Hat) as Hn. destruct Hat as (Hpos & Hi & Hw).
  unfold advance, mbind, M_bind, get_state, lift, modify, mret, M_ret.
  destruct atomics_load as [flags|e|] eqn:Hl; [|done|].
  2: { unfold atomics_load in Hl. by case_bool_decide. }
  destruct (eqb _ _ || _)%bool eqn:Hb; [done|]. zbool.
  apply eqb_prop in H0. apply eqb_false_iff in H.
  assert (slot_ready q n).
  { exists flags. rewrite <- Hi, <- Hw. split_and!; [done|done|].
    rewrite <- H0. by destruct (has flags AVAIL), (has flags USED). }
  destruct (q_size q <=? q_avail_idx q + 1); split_and!; done.
Qed.

Lemma read_descriptor_range memory a : range_outcome (read_descriptor memory a).
Proof. unfold read_descriptor. apply range_bind; [apply ty_get_range|done]. Qed.
Lemma read_descriptor_ends memory a : read_descriptor memory a ≠ Loops.
Proof. apply range_outcome_ends, read_descriptor_range. Qed.

(** [pop_next] from position [n] of a chain that began at [s]. *)
Lemma pop_next_spec fuel q s n :
  0 < q_size q → avail_at q n → 0 ≤ s < n → n ≤ s + q_size q →
  (∀ k, s ≤ k < n → slot_ready q k) → s + q_size q - n < Z.of_nat fuel →
  match pop_next fuel q with
  | (Done ds, q') =>
      ∃ pre last, ds = pre ++ [last] ∧ zlen ds ≤ s + q_size q - n ∧
        avail_at q' (n + zlen ds) ∧ same_but_avail q q' ∧
        (∀ k, s ≤ k < n + zlen ds → slot_ready q k) ∧
        (∀ i d, ds !! i = Some d → slot_descriptor q (n + Z.of_nat i) d) ∧
        Forall (fun d => has (d_flags d) NEXT = true) pre ∧ has (d_flags last) NEXT = false
  | (Raise _, q') => same_but_avail q q' ∧ ∃ n', n ≤ n' ≤ s + q_size q ∧ avail_at q' n'
  | (Loops, _) => False
  end.
Proof.
  intros Hs. revert q n Hs. induction fuel as [|fuel IH]; intros q n Hs Hat Hsn Hle Hready Hf; [lia|].
  assert (same_but_avail q q) as Hsame by by destruct q.
  pose proof (advance_spec q n Hs Hat) as Ha. simpl. unfold mbind at 1, M_bind at 1.
  destruct (advance q) as [[[i|]|e|] q1]; [|subst q1..|done].
  2,3: split; [done|]; exists n; auto with lia.
  destruct Ha as (->&Hr&Hat1&Hs1).
  destruct (decide (n = s + q_size q)) as [->|Hne].
  { destruct (slot_ready_once q s); auto with lia. }
  unfold mbind, M_bind, queue_descriptor.
  assert (Hmem : q_memory q1 = q_memory q ∧ q_size q1 = q_size q ∧ ring_address q1 = ring_address q)
    by by rewrite Hs1.
  destruct Hmem as (Hm & Hsz & Hra). rewrite Hm, Hra.
  destruct (read_descriptor _ _) as [desc|e|] eqn:Hd.
  2: { split; [done|]. exists (n + 1); auto with lia. }
  2: { by apply read_descriptor_ends in Hd. }
  assert (Hready1 : ∀ k, s ≤ k < n + 1 → slot_ready q k).
  { intros k ?. destruct (decide (k = n)) as [->|]; [done|]. apply Hready; lia. }
  destruct (has (d_flags desc) NEXT) eqn:Hnext.
  - assert (∀ k, s ≤ k < n + 1 → slot_ready q1 k).
    { intros. rewrite (slot_ready_same q q1) by done. auto. }
    specialize (IH q1 (n + 1)). rewrite Hsz in IH.
    destruct (pop_next fuel q1) as [[ds|e|] q2].
    + destruct IH as (pre&last&->&Hlen&Hat2&Hs2&Hr2&Hds&Hpre&Hlast); auto with lia.
      cbn [mret M_ret]. exists (desc :: pre), last. rewrite zlen_cons.
      split_and!; auto; [lia|by rewrite Z.add_assoc| | |].
      * unfold same_but_avail in *. rewrite Hs2, Hs1. done.
      * intros k Hk. rewrite <- (slot_ready_same q q1) by done. apply Hr2. lia.
      * intros [|i] d; simpl.
        -- intros [= <-]. by rewrite Z.add_0_r.
        -- intros Hi%Hds. unfold slot_descriptor in *. rewrite Hm, Hra, Hsz in Hi.
           rewrite <- Hi. do 3 f_equal. lia.
    + destruct IH as (Hs2&n'&?&?); auto with lia. split; [|exists n'; auto with lia].
      unfold same_but_avail in *. rewrite Hs2, Hs1. done.
    + apply IH; auto with lia.
  - cbn [mret M_ret]. exists [], desc. rewrite zlen_cons, zlen_nil.
    split_and!; auto; [lia|].
    intros [|i] d; simpl; [|done]. intros [= <-]. by rewrite Z.add_0_r.
Qed.

(** * Descriptors in memory *)
#[local] Arguments le_encode : simpl never.
Definition slice (memory : list Z) (a n : Z) : list Z :=
  take (Z.to_nat n) (drop (Z.to_nat a) memory).

Lemma narrow_dv_of memory a :
  0 ≤ a ≤ zlen memory → narrow (dv_of memory) a = Done (DV memory a (zlen memory - a)).
Proof.
  intros. unfold narrow, new_dataview, dv_of; simpl. destruct (Z.eqb_spec a 0) as [->|].
  - by rewrite Z.sub_0_r.
  - by rewrite bool_decide_eq_true_2 by lia.
Qed.

Lemma dv_read_slice memory a len o n :
  0 ≤ o → o + Z.of_nat n ≤ len → 0 ≤ a →
  dv_read (DV memory a len) o n = Done (slice memory (a + o) (Z.of_nat n)).
Proof.
  intros. unfold dv_read, slice; simpl. rewrite bool_decide_eq_true_2 by lia. by rewrite Nat2Z.id.
Qed.

Lemma read_descriptor_eq memory a :
  0 ≤ a → a + 16 ≤ zlen memory →
  read_descriptor memory a = Done (Descriptor
    (le_decode (slice memory a 8)) (le_decode (slice memory (a + 8) 4))
    (le_decode (slice memory (a + 12) 2)) (le_decode (slice memory (a + 14) 2))).
Proof.
  intros Ha Hl. unfold read_descriptor, VirtqDescriptor. cbn [ty_get].
  rewrite narrow_dv_of by lia. cbn -[dv_read sc_decode].
  rewrite !dv_read_slice by (simpl; lia). cbn -[slice le_decode sc_decode].
  unfold sc_decode; simpl sc_signed; simpl sc_little. cbn -[slice le_decode].
  rewrite Z.add_0_r. done.
Qed.

Lemma dv_write_splice memory a len o bs :
  0 ≤ o → o + zlen bs ≤ len → 0 ≤ a →
  dv_write (DV memory a len) o bs = Done (splice memory (Z.to_nat (a + o)) bs).
Proof. intros. unfold dv_write; simpl. by rewrite bool_decide_eq_true_2 by lia. Qed.

Lemma store_id memory a id :
  0 ≤ a → a + 16 ≤ zlen memory →
  run_store memory (StoreId a id) = Done (splice memory (Z.to_nat (a + 12)) (le_encode 2 (to_u16 id))).
Proof.
  intros. unfold run_store, VirtqDescriptor. cbn [ty_set]. rewrite narrow_dv_of by lia.
  cbn -[dv_write sc_encode le_encode]. unfold with_buffer; cbn -[dv_write sc_encode le_encode].
  rewrite dv_write_splice; [done|done| |done].
  unfold zlen at 1. rewrite length_sc_encode. simpl; lia.
Qed.
Lemma store_len memory a written :
  0 ≤ a → a + 16 ≤ zlen memory →
  run_store memory (StoreLen a written) =
    Done (splice memory (Z.to_nat (a + 8)) (le_encode 4 (to_u32 written))).
Proof.
  intros. unfold run_store, VirtqDescriptor. cbn [ty_set]. rewrite narrow_dv_of by lia.
  cbn -[dv_write sc_encode le_encode]. unfold with_buffer; cbn -[dv_write sc_encode le_encode].
  rewrite dv_write_splice; [done|done| |done].
  unfold zlen at 1. rewrite length_sc_encode. simpl; lia.
Qed.

Lemma flags_index_aligned a :
  0 ≤ a → a mod 16 = 0 → a + 16 ≤ 2 ^ 32 → 2 * flags_index a = a + 14.
Proof.
  intros Ha Hm Hl. unfold flags_index, FLAGS_OFFSET. rewrite to_u32_id by lia.
  rewrite Z.shiftr_div_pow2 by lia. change (2 ^ 1) with 2.
  pose proof (Z.div_mod a 16). pose proof (Z.div_mod (a + 14) 2).
  assert ((a + 14) mod 2 = 0) by (rewrite <- (Z.mod_unique_pos (a + 14) 2 (8 * (a / 16) + 7) 0); lia).
  lia.
Qed.

Lemma store_flags memory a flags :
  0 ≤ a → a mod 16 = 0 → a + 16 ≤ zlen memory → zlen memory ≤ 2 ^ 32 →
  run_store memory (StoreFlags a flags) =
    Done (splice memory (Z.to_nat (a + 14)) (le_encode 2 (to_u16 flags))).
Proof.
  intros. unfold run_store, atomics_store. rewrite flags_index_aligned by lia.
  by rewrite bool_decide_eq_true_2 by lia.
Qed.

(** The bytes a store writes. *)
Definition store_range (s : store) : Z * Z :=
  match s with
  | StoreOutput o => (o_address o, zlen (o_data o))
  | StoreId a _ => (a + 12, 2)
  | StoreLen a _ => (a + 8, 4)
  | StoreFlags a _ => (a + 14, 2)
  end.
Definition disjoint_from (a n : Z) (s : store) : Prop :=
  a + n ≤ (store_range s).1 ∨ (store_range s).1 + (store_range s).2 ≤ a.

Lemma slice_splice_out memory off src a n :
  (off + length src ≤ length memory)%nat → 0 ≤ a → 0 ≤ n →
  a + n ≤ Z.of_nat off ∨ Z.of_nat off + zlen src ≤ a →
  slice (splice memory off src) a n = slice memory a n.
Proof.
  intros Hl ?? Ho. unfold slice. apply splice_range_out; [done|]. unfold zlen in Ho. lia.
Qed.
Lemma slice_splice memory off src :
  (off + length src ≤ length memory)%nat →
  slice (splice memory off src) (Z.of_nat off) (zlen src) = src.
Proof.
  intros. unfold slice. rewrite Nat2Z.id, zlen_to_nat. by apply splice_range.
Qed.

(** What makes a store one that fits in a memory of [size] bytes. *)
Definition store_ok (size : Z) (s : store) : Prop :=
  match s with
  | StoreOutput _ => True
  | StoreId a _ | StoreLen a _ | StoreFlags a _ =>
      0 ≤ a ∧ a mod 16 = 0 ∧ a + 16 ≤ size ∧ size ≤ 2 ^ 32
  end.

(** A store is a splice of its range. *)
Lemma run_store_splice memory s memory' :
  store_ok (zlen memory) s → run_store memory s = Done memory' →
  ∃ src, memory' = splice memory (Z.to_nat (store_range s).1) src ∧
    0 ≤ (store_range s).1 ∧ zlen src = (store_range s).2 ∧
    (Z.to_nat (store_range s).1 + length src ≤ length memory)%nat.
Proof.
  intros Hok H. destruct s as [o|a id|a len|a flags]; cbn [store_ok] in Hok.
  - simpl in H. apply ta_set_done in H as (?&?&->). exists (o_data o); unfold zlen in *; simpl.
    split_and!; auto; lia.
  - rewrite store_id in H by tauto. injection H as <-. exists (le_encode 2 (to_u16 id)). split; [done|].
    unfold zlen in *; rewrite length_le_encode; cbn [store_range fst snd]; lia.
  - rewrite store_len in H by tauto. injection H as <-. exists (le_encode 4 (to_u32 len)). split; [done|].
    unfold zlen in *; rewrite length_le_encode; cbn [store_range fst snd]; lia.
  - rewrite store_flags in H by tauto. injection H as <-. exists (le_encode 2 (to_u16 flags)). split; [done|].
    unfold zlen in *; rewrite length_le_encode; cbn [store_range fst snd]; lia.
Qed.

Lemma run_stores_slice memory l memory' :
  Forall (store_ok (zlen memory)) l → run_stores memory l = Done memory' →
  zlen memory' = zlen memory ∧
  ∀ b n, 0 ≤ b → 0 ≤ n → Forall (disjoint_from b n) l → slice memory' b n = slice memory b n.
Proof.
  revert memory; induction l as [|s l IH]; intros memory Hok; simpl; [by intros [= ->]|].
  apply Forall_cons in Hok as [Hs Hok]. destruct (run_store memory s) as [m|e|] eqn:E; simpl; try done.
  destruct (run_store_splice _ _ _ Hs E) as (src&->&Ho&Hz&Hl).
  assert (Hzl : zlen (splice memory (Z.to_nat (store_range s).1) src) = zlen memory)
    by (unfold zlen; rewrite length_splice; lia).
  intros (Hz'&Hsl)%IH; rewrite Hzl in *; [|done]. split; [done|].
  intros b n Hb Hn [Hd Hf]%Forall_cons. rewrite Hsl by done.
  apply slice_splice_out; [done|done|done|]. unfold disjoint_from in Hd. lia.
Qed.

Lemma run_stores_app memory l1 l2 :
  run_stores memory (l1 ++ l2) = (memory ← run_stores memory l1; run_stores memory l2).
Proof.
  revert memory; induction l1 as [|s l1 IH]; intros memory; [done|]. simpl.
  destruct (run_store memory s); simpl; auto.
Qed.

Lemma chain_buffers_ends memory views desc : chain_buffers memory views desc ≠ Loops.
Proof.
  unfold chain_buffers. induction desc as [|d l IH]; simpl; [done|].
  apply (outcome_bind_ends (chain_buffer memory views d)).
  - unfold chain_buffer. by repeat case_match.
  - intros b. apply (outcome_bind_ends (map_outcome _ l)); done.
Qed.
Lemma indirect_descriptors_ends memory a count i : indirect_descriptors memory a count i ≠ Loops.
Proof.
  revert i; induction count as [|count IH]; intros i; simpl; [done|].
  apply (outcome_bind_ends (read_descriptor _ _)); [apply read_descriptor_ends|].
  intros d. apply (outcome_bind_ends (indirect_descriptors _ _ _ _)); done.
Qed.

(** The state after a pop that took the positions from [n] on. *)
Definition popped (q q' : queue) (n : Z) : Prop :=
  same_but_avail q q' ∧ ∃ n', n ≤ n' ≤ n + q_size q ∧ avail_at q' n'.

Lemma length_16_count len size :
  negb (len mod descriptor_size =? 0) || (size <? len / descriptor_size) = false → 0 ≤ len →
  len = descriptor_size * Z.of_nat (Z.to_nat (len / descriptor_size)) ∧
  Z.of_nat (Z.to_nat (len / descriptor_size)) ≤ size.
Proof.
  intros H Hlen. zbool. change descriptor_size with 16 in *.
  pose proof (Z.div_mod len 16). pose proof (Z.div_pos len 16). lia.
Qed.

Lemma read_descriptor_bounds memory a d :
  read_descriptor memory a = Done d → 0 ≤ a ∧ a + 16 ≤ zlen memory.
Proof.
  unfold read_descriptor, VirtqDescriptor. cbn [ty_get].
  destruct (narrow (dv_of memory) a) as [dv|e|] eqn:Hn; [|done..].
  assert (0 ≤ a ≤ zlen memory ∧ dv = DV memory a (zlen memory - a)) as [Ha ->].
  { unfold narrow, new_dataview, dv_of in Hn; simpl in Hn. destruct (Z.eqb_spec a 0) as [->|].
    - injection Hn as <-. rewrite Z.sub_0_r. pose proof (zlen_nonneg memory). auto with lia.
    - case_bool_decide; [|done]. by injection Hn as <-. }
  destruct (decide (a + 16 ≤ zlen memory)); [auto with lia|]. intros H; exfalso.
  cbn -[dv_read sc_decode] in H.
  repeat match type of H with
  | context [dv_read ?d ?o ?n ≫= _] =>
      let E := fresh "E" in
      destruct (dv_read d o n) eqn:E; cbn -[dv_read sc_decode] in H; [|done..]
  end.
  unfold dv_read in E2. case_bool_decide; [simpl in *; lia|done].
Qed.

Lemma descriptor_bounds memory a d :
  bytes_ok memory → read_descriptor memory a = Done d → 0 ≤ d_addr d ∧ 0 ≤ d_len d.
Proof.
  intros Hm Hd. destruct (read_descriptor_bounds _ _ _ Hd). rewrite read_descriptor_eq in Hd by done.
  injection Hd as <-; simpl. unfold slice.
  split; apply le_decode_bound; by apply Forall_take, Forall_drop.
Qed.

Lemma pop_ring_spec q n :
  0 < q_size q → avail_at q n →
  match pop_ring q with
  | (Done (Some (desc, rest)), q') =>
      let k := zlen (desc :: rest) in
      1 ≤ k ≤ q_size q ∧ avail_at q' (n + k) ∧ same_but_avail q q' ∧
      (∀ i, n ≤ i < n + k → slot_ready q i) ∧
      (∀ i d, (desc :: rest) !! i = Some d → slot_descriptor q (n + Z.of_nat i) d) ∧
      (has (d_flags desc) NEXT = false → rest = []) ∧
      (has (d_flags desc) NEXT = true → ∃ pre last, rest = pre ++ [last] ∧
         Forall (fun d => has (d_flags d) NEXT = true) pre ∧ has (d_flags last) NEXT = false)
  | (Loops, _) => False
  | (_, q') => popped q q' n
  end.
Proof.
  intros Hs Hat. assert (Hpos : 0 ≤ n) by apply Hat.
  assert (Hsame : same_but_avail q q) by by destruct q.
  pose proof (advance_spec q n Hs Hat) as Ha. unfold pop_ring. unfold mbind at 1, M_bind at 1.
  destruct (advance q) as [[[i|]|e|] q1]; [|subst q1..|done].
  2,3: split; [done|]; exists n; auto with lia.
  destruct Ha as (->&Hr&Hat1&Hs1).
  assert (Hmem : q_memory q1 = q_memory q ∧ q_size q1 = q_size q ∧ ring_address q1 = ring_address q)
    by by rewrite Hs1.
  destruct Hmem as (Hm & Hsz & Hra).
  assert (Hr1 : ∀ k, n ≤ k < n + 1 → slot_ready q1 k).
  { intros k ?. assert (k = n) as -> by lia. by rewrite (slot_ready_same q q1). }
  unfold mbind at 1, M_bind at 1, queue_descriptor. rewrite Hm, Hra.
  destruct (read_descriptor _ _) as [desc|e|] eqn:Hd; [| |by apply read_descriptor_ends in Hd].
  2: { split; [done|]; exists (n + 1); auto with lia. }
  assert (Hslot : slot_descriptor q (n + Z.of_nat 0) desc).
  { unfold slot_descriptor. by rewrite Z.add_0_r. }
  unfold mbind at 1, M_bind at 1, get_state at 1. rewrite Hsz.
  destruct (has (d_flags desc) NEXT) eqn:Hnext.
  - pose proof (pop_next_spec (Z.to_nat (q_size q)) q1 n (n + 1)) as Hpn. rewrite Hsz in Hpn.
    unfold mbind, M_bind.
    destruct (pop_next (Z.to_nat (q_size q)) q1) as [[ds|e|] q2]; [| |apply Hpn; auto with lia].
    + destruct Hpn as (pre&last&->&Hlen&Hat2&Hs2&Hr2&Hds&Hpre&Hlast); auto with lia.
      cbn [mret M_ret]. cbv zeta. rewrite zlen_cons. pose proof (zlen_nonneg (pre ++ [last])).
      split_and!; [lia|lia|by rewrite Z.add_assoc| | | |congruence|eauto 10].
      * unfold same_but_avail in *; rewrite Hs2, Hs1; done.
      * intros k Hk. rewrite <- (slot_ready_same q q1) by done. apply Hr2. lia.
      * intros [|i] d; cbn [lookup list_lookup]; [by intros [= <-]|].
        intros Hi%Hds. unfold slot_descriptor in *. rewrite Hm, Hra, Hsz in Hi.
        rewrite <- Hi. do 3 f_equal. lia.
    + destruct Hpn as (Hs2&n'&?&?); auto with lia.
      split; [unfold same_but_avail in *; rewrite Hs2, Hs1; done|]. exists n'; auto with lia.
  - cbn [mret M_ret]. cbv zeta. rewrite zlen_cons, zlen_nil. split_and!; auto; [lia|lia| | |congruence].
    + intros k Hk. rewrite <- (slot_ready_same q q1) by done. apply Hr1; lia.
    + intros [|i] d; cbn [lookup list_lookup]; [by intros [= <-]|done].
Qed.

Lemma chain_table_spec q q1 n desc rest :
  same_but_avail q q1 → bytes_ok (q_memory q) →
  (∀ i d, (desc :: rest) !! i = Some d → slot_descriptor q (n + Z.of_nat i) d) →
  (has (d_flags desc) NEXT = false → rest = []) →
  (has (d_flags desc) NEXT = true → ∃ pre last, rest = pre ++ [last] ∧
     Forall (fun d => has (d_flags d) NEXT = true) pre ∧ has (d_flags last) NEXT = false) →
  match chain_table q1 desc rest with
  | Done ds => chain_at q n ds (zlen (desc :: rest))
  | Raise _ => True
  | Loops => False
  end.
Proof.
  intros -> Hb Hds Hn Hy. assert (Hslot : slot_descriptor q n desc).
  { specialize (Hds 0%nat desc eq_refl). by rewrite Z.add_0_r in Hds. }
  unfold chain_table. simpl. destruct (has (d_flags desc) NEXT) eqn:Hnext; simpl.
  - destruct Hy as (pre&last&->&Hpre&Hlast); [done|].
    change (desc :: pre ++ [last]) with ((desc :: pre) ++ [last]).
    replace (zlen ((desc :: pre) ++ [last])) with (zlen (desc :: pre) + 1)
      by (rewrite zlen_app, (zlen_cons last), zlen_nil; lia).
    constructor; [done|by constructor|done|done].
  - rewrite Hn in * by done. destruct (has (d_flags desc) INDIRECT) eqn:Hind.
    + destruct (negb _ || _)%bool eqn:Hc; [done|].
      destruct (descriptor_bounds _ _ _ Hb Hslot) as [_ Hlen].
      destruct (length_16_count _ _ Hc Hlen) as [Hcount Hsize].
      destruct (indirect_descriptors _ _ _ _) as [ds|e|] eqn:Hi;
        [|done|by apply indirect_descriptors_ends in Hi].
      by eapply chain_indirect.
    + by apply (chain_direct q n [] desc).
Qed.

(** C3: taking a chain. From a cursor at position [n] of the ring, [pop] ends.
    It either takes the chain that starts there, whose 1 to [size] places were
    all made available by the driver, moves the cursor past exactly those, and
    gives the device buffers for the chain's descriptors in their order; or it
    takes nothing, or throws, having moved the cursor by at most [size]. It
    changes no other state. *)
Theorem pop_takes_one_chain q n :
  0 < q_size q → bytes_ok (q_memory q) → avail_at q n →
  match pop q with
  | (Done (Some c), q') =>
      1 ≤ ch_skip c ≤ q_size q ∧ avail_at q' (n + ch_skip c) ∧ same_but_avail q q' ∧
      (∀ k, n ≤ k < n + ch_skip c → slot_ready q k) ∧
      (∃ d, slot_descriptor q n d ∧ ch_id c = d_id d) ∧
      ∃ ds, chain_at q n ds (ch_skip c) ∧
        chain_buffers (q_memory q) (q_views q) ds = Done (ch_buffers c)
  | (Loops, _) => False
  | (_, q') => popped q q' n
  end.
Proof.
  intros Hs Hb Hat. unfold pop. unfold mbind at 1, M_bind at 1.
  pose proof (pop_ring_spec q n Hs Hat) as Hr.
  destruct (pop_ring q) as [[[[desc rest]|]|e|] q1]; [|done..].
  cbv zeta in Hr. set (k := zlen (desc :: rest)) in *.
  destruct Hr as (Hk&Hat1&Hs1&Hr&Hds&Hn&Hy).
  pose proof (chain_table_spec q q1 n desc rest Hs1 Hb Hds Hn Hy) as Ht.
  assert (Hp : popped q q1 n) by (split; [done|]; exists (n + k); auto with lia).
  assert (Hm : q_memory q1 = q_memory q ∧ q_views q1 = q_views q) by by rewrite Hs1.
  destruct Hm as (Hm & Hv). unfold mbind, M_bind, get_state, lift.
  destruct (chain_table q1 desc rest) as [ds|e|]; [|done..].
  destruct (chain_buffers _ _ _) as [bs|e|] eqn:Hcb; [|done|by apply chain_buffers_ends in Hcb].
  cbn [mret M_ret]. destruct (q_current q1); [|done]. cbn [ch_skip ch_id ch_buffers]. fold k.
  split_and!; [lia|lia|done|done|done| |].
  - exists desc. split; [|done]. specialize (Hds 0%nat desc eq_refl). by rewrite Z.add_0_r in Hds.
  - exists ds. split; [done|]. by rewrite <- Hm, <- Hv.
Qed.

(** A ring of four with a chain of two at its last place and its first. *)
Definition sample_descriptor (addr len id flags : Z) : list Z :=
  enc VirtqDescriptor (Obj [("addr", Num addr); ("len", Num len); ("id", Num id); ("flags", Num flags)]).
Definition sample_queue : queue :=
  Queue (sample_descriptor 64 4 7 (USED ||| WRITE) ++ sample_descriptor 0 0 0 0 ++
         sample_descriptor 0 0 0 0 ++ sample_descriptor 68 2 9 (AVAIL ||| NEXT) ++
         [1; 2; 3; 4; 5; 6; 7; 8])
    4 0 false true true true 3 3 true [].

Definition sample_chain : chain := Chain [Copy [5; 6] false None; Copy [1; 2; 3; 4] true (Some 64)] 9 2.

Lemma pop_takes_one_chain_witness :
  (pop sample_queue).1 = Done (Some sample_chain) ∧
  match pop sample_queue with
  | (Done (Some c), q') =>
      1 ≤ ch_skip c ≤ q_size sample_queue ∧ avail_at q' (3 + ch_skip c)
  | _ => False
  end.
Proof.
  split; [vm_compute; reflexivity|].
  assert (Hs : 0 < q_size sample_queue) by (vm_compute; reflexivity).
  assert (Hb : bytes_ok (q_memory sample_queue)) by (apply (bool_decide_unpack _); vm_compute; exact I).
  assert (Ha : avail_at sample_queue 3) by (vm_compute; repeat split; discriminate).
  pose proof (pop_takes_one_chain sample_queue 3 Hs Hb Ha) as H.
  revert H. destruct (pop sample_queue) as [[[c|]|e|] q'] eqn:E; vm_compute in E; try discriminate E.
  intros (H1&H2&_). exact (conj H1 H2).
Defined.

(** * Completions *)

(** The completion the queue owes for a chain released at position [u]. *)
Definition completion_at (q : queue) (u id written : Z) (outputs : list output) : completion :=
  Completion (ring_address q (u mod q_size q)) id written
    ((if Z.even (u / q_size q) then AVAIL ||| USED else 0) ||| (if 0 <? written then WRITE else 0))
    outputs.

Definition same_but_used (q q' : queue) (l : list completion) : Prop :=
  q' = Queue (q_memory q) (q_size q) (q_desc_addr q) (q_views q) (q_current q)
    (q_avail_wrap q) (q_used_wrap q') (q_used_idx q') (q_avail_idx q) (q_valid q)
    (q_published q ++ l).

(** C4: releasing a chain. A live queue whose used cursor is at position [u]
    publishes exactly one completion, for the ring place of that position and
    with the flags of its lap, and moves past the chain's places; if the place
    is not one the driver made available on this lap it throws and publishes
    nothing. A queue that was invalidated, or that is no longer the current
    one, publishes nothing and does not change. *)
Theorem release_publishes_once q u id skip written outputs :
  0 < q_size q → used_at q u → 0 ≤ skip ≤ q_size q →
  match release id skip written outputs q with
  | (Done tt, q') =>
      if (q_valid q && q_current q)%bool
      then same_but_used q q' [completion_at q u id written outputs] ∧ used_at q' (u + skip)
      else q' = q
  | (Raise e, q') => q' = q ∧ q_valid q = true ∧ q_current q = true ∧
      (e = JsError "ring full" →
       ∃ d, slot_descriptor q u d ∧
         ¬ (has (d_flags d) AVAIL = Z.even (u / q_size q) ∧
            has (d_flags d) USED = negb (Z.even (u / q_size q))))
  | (Loops, _) => False
  end.
Proof.
  intros Hs Hat Hk. pose proof (cursor_skip _ _ _ _ skip Hs Hk Hat) as Hn.
  destruct Hat as (Hpos & Hi & Hw). unfold release. unfold mbind at 1, M_bind at 1, get_state.
  destruct (q_valid q) eqn:Hv; [|done]. destruct (q_current q) eqn:Hc; [|done].
  cbn [negb orb andb]. unfold mbind at 1, M_bind at 1, queue_descriptor.
  destruct (read_descriptor _ _) as [d|e|] eqn:Hd; [| |by apply read_descriptor_ends in Hd].
  2: { split_and!; try done. intros ->. pose proof (read_descriptor_range (q_memory q)
         (ring_address q (q_used_idx q))) as H. by rewrite Hd in H. }
  rewrite Hi in Hd.
  destruct (eqb _ _ || _)%bool eqn:Hfull.
  - split_and!; try done. intros _. exists d. split; [done|]. rewrite <- Hw. intros [Ha Hu].
    rewrite Ha, Hu, eqb_reflx in Hfull. by destruct (q_used_wrap q).
  - cbv zeta. unfold mbind, M_bind, modify.
    destruct (q_size q <=? q_used_idx q + skip); split; try done;
      unfold same_but_used, publish, set_used, completion_at; simpl; rewrite <- Hi, <- Hw;
      do 3 f_equal; destruct (q_used_wrap q), (0 <? written); done.
Qed.

Lemma release_publishes_once_witness :
  (release 9 2 4 [Output 64 [1; 2; 3; 4]] sample_queue).1 = Done tt ∧
  match release 9 2 4 [Output 64 [1; 2; 3; 4]] sample_queue with
  | (Done tt, q') =>
      same_but_used sample_queue q' [completion_at sample_queue 3 9 4 [Output 64 [1; 2; 3; 4]]] ∧
      used_at q' (3 + 2)
  | _ => False
  end.
Proof.
  split; [vm_compute; reflexivity|].
  assert (Hs : 0 < q_size sample_queue) by (vm_compute; reflexivity).
  assert (Ha : used_at sample_queue 3) by (vm_compute; repeat split; discriminate).
  assert (Hk : 0 ≤ 2 ≤ q_size sample_queue) by (vm_compute; split; discriminate).
  pose proof (release_publishes_once sample_queue 3 9 2 4 [Output 64 [1; 2; 3; 4]] Hs Ha Hk) as H.
  destruct (release 9 2 4 [Output 64 [1; 2; 3; 4]] sample_queue) as [[[]|e|] q'] eqn:E;
    vm_compute in E; try discriminate E. exact H.
Defined.

(** A completion whose fields fit and whose outputs keep off its descriptor. *)
Definition completion_ok (memory : list Z) (c : completion) : Prop :=
  let a := co_descriptor_address c in
  0 ≤ a ∧ a mod 16 = 0 ∧ a + 16 ≤ zlen memory ∧ zlen memory ≤ 2 ^ 32 ∧
  0 ≤ co_id c < 2 ^ 16 ∧ 0 ≤ co_written c < 2 ^ 32 ∧ 0 ≤ co_flags c < 2 ^ 16 ∧
  Forall (disjoint_from a 16) (StoreOutput <$> co_outputs c).

Lemma le_decode_slice memory a n v :
  0 ≤ a → a + Z.of_nat n ≤ zlen memory → 0 ≤ v < 256 ^ Z.of_nat n →
  le_decode (slice (splice memory (Z.to_nat a) (le_encode n v)) a (Z.of_nat n)) = v.
Proof.
  intros Ha Hl Hv. pose proof (slice_splice memory (Z.to_nat a) (le_encode n v)) as H.
  unfold zlen in *. rewrite length_le_encode, Z2Nat.id in H by done.
  rewrite H by lia. by apply le_decode_encode.
Qed.

Lemma slice_encode_out memory a n v b m :
  0 ≤ a → a + Z.of_nat n ≤ zlen memory → 0 ≤ b → 0 ≤ m → b + m ≤ a ∨ a + Z.of_nat n ≤ b →
  slice (splice memory (Z.to_nat a) (le_encode n v)) b m = slice memory b m.
Proof.
  intros. unfold zlen in *.
  apply slice_splice_out; unfold zlen; rewrite ?length_le_encode; lia.
Qed.

Lemma zlen_splice_encode memory a n v :
  0 ≤ a → a + Z.of_nat n ≤ zlen memory →
  zlen (splice memory (Z.to_nat a) (le_encode n v)) = zlen memory.
Proof.
  intros. unfold zlen in *. rewrite length_splice; rewrite ?length_le_encode; lia.
Qed.

(** The last three stores, on a memory where the outputs are in place. *)
Lemma run_descriptor_stores memory a id written flags memory' :
  0 ≤ a → a mod 16 = 0 → a + 16 ≤ zlen memory → zlen memory ≤ 2 ^ 32 →
  0 ≤ id < 2 ^ 16 → 0 ≤ written < 2 ^ 32 → 0 ≤ flags < 2 ^ 16 →
  run_stores memory [StoreId a id; StoreLen a written; StoreFlags a flags] = Done memory' →
  ∃ addr, read_descriptor memory' a = Done (Descriptor addr written id flags).
Proof.
  intros Ha Hm Hl Hs Hid Hw Hf. unfold run_stores.
  unfold to_u16. rewrite store_id by done. cbn [mbind outcome_bind].
  unfold to_u16. rewrite Z.mod_small by lia.
  set (m1 := splice memory _ _).
  assert (H1 : zlen m1 = zlen memory) by (apply (zlen_splice_encode _ _ 2); lia).
  rewrite store_len, to_u32_id by lia. cbn [mbind outcome_bind].
  set (m2 := splice m1 _ _).
  assert (H2 : zlen m2 = zlen memory) by (rewrite <- H1; apply (zlen_splice_encode _ _ 4); lia).
  rewrite store_flags by lia. unfold to_u16. rewrite Z.mod_small by lia. intros [= <-].
  rewrite read_descriptor_eq by (rewrite ?(zlen_splice_encode m2 _ 2); lia).
  eexists. do 2 f_equal.
  - rewrite (slice_encode_out m2 _ 2) by lia. apply (le_decode_slice m1 _ 4); lia.
  - rewrite (slice_encode_out m2 _ 2) by lia. unfold m2. rewrite (slice_encode_out m1 _ 4) by lia.
    apply (le_decode_slice memory _ 2); lia.
  - apply (le_decode_slice m2 _ 2); lia.
Qed.

(** Publishing a completion. Every store before the last one leaves the
    descriptor's flags as they were, so the driver, which reads the flags
    first, sees the chain as used only once its data, id and length are in
    place. When all are done the descriptor holds the completion and the bytes
    outside it and the outputs are unchanged. *)
Theorem publish_flags_last memory c memory' :
  completion_ok memory c →
  publish_virtqueue_completion memory c = Done memory' →
  let a := co_descriptor_address c in
  (∀ k m, (k < length (completion_stores c))%nat →
     run_stores memory (take k (completion_stores c)) = Done m →
     slice m (a + FLAGS_OFFSET) 2 = slice memory (a + FLAGS_OFFSET) 2) ∧
  (∃ addr, read_descriptor memory' a = Done (Descriptor addr (co_written c) (co_id c) (co_flags c))) ∧
  (∀ b n, 0 ≤ b → 0 ≤ n → (b + n ≤ a + 8 ∨ a + 16 ≤ b) →
     Forall (disjoint_from b n) (StoreOutput <$> co_outputs c) →
     slice memory' b n = slice memory b n).
Proof.
  intros (Ha&Hm&Hl&Hs&Hid&Hw&Hf&Hd) H a. fold a in Ha, Hm, Hl, Hd.
  set (pre := (StoreOutput <$> co_outputs c) ++ [StoreId a (co_id c); StoreLen a (co_written c)]).
  assert (Hst : completion_stores c = pre ++ [StoreFlags a (co_flags c)])
    by (unfold completion_stores, pre; by rewrite <- app_assoc).
  assert (Hpre : Forall (store_ok (zlen memory)) pre).
  { apply Forall_app; split; [by apply Forall_fmap, Forall_true|]. by repeat constructor. }
  split_and!.
  - intros k m Hk Hrun. unfold publish_virtqueue_completion in H. rewrite Hst in *.
    rewrite length_app in Hk; simpl in Hk. rewrite take_app_le in Hrun by lia.
    apply (run_stores_slice memory (take k pre)); [by apply Forall_take|done| |done|].
    { unfold FLAGS_OFFSET; lia. }
    apply Forall_take, Forall_app; split.
    + eapply Forall_impl; [exact Hd|]. unfold disjoint_from, FLAGS_OFFSET; intros; lia.
    + rewrite !Forall_cons, Forall_nil. unfold disjoint_from, FLAGS_OFFSET; simpl; lia.
  - unfold publish_virtqueue_completion, completion_stores in H. rewrite run_stores_app in H.
    destruct (run_stores memory (StoreOutput <$> _)) as [m|e|] eqn:Ho; [|done..].
    apply run_stores_slice in Ho as [Hz _]; [|by apply Forall_fmap, Forall_true].
    eapply run_descriptor_stores; [..|exact H]; lia.
  - intros b n Hb Hn Hout Hdis. unfold publish_virtqueue_completion in H. rewrite Hst in H.
    apply run_stores_slice in H as [_ H]; [apply H; try done|].
    + unfold pre. rewrite !Forall_app, !Forall_cons, Forall_nil.
      unfold disjoint_from at 2 3 4; simpl. split_and!; [done|lia..|done].
    + apply Forall_app; split; [done|]. by repeat constructor.
Qed.

Lemma publish_flags_last_witness :
  let c := completion_at sample_queue 3 9 4 [Output 64 [11; 12; 13; 14]] in
  ∃ memory', publish_virtqueue_completion (q_memory sample_queue) c = Done memory' ∧
    slice memory' 64 8 = [11; 12; 13; 14; 5; 6; 7; 8] ∧
    ∃ addr, read_descriptor memory' 48 = Done (Descriptor addr 4 9 (AVAIL ||| USED ||| WRITE)).
Proof.
  eexists; split; [vm_compute; reflexivity|]. split; [vm_compute; reflexivity|].
  refine (proj1 (proj2 (publish_flags_last (q_memory sample_queue)
    (completion_at sample_queue 3 9 4 [Output 64 [11; 12; 13; 14]]) _ _ _))).
  - apply (bool_decide_unpack _). vm_compute. exact I.
  - vm_compute. reflexivity.
Defined.
