(* ===== verification/Net.v ===== *)
(** Ethernet: the receive queue of packages/kernel/src/virtio/rx.ts, and the
    switch and NIC of packages/kernel/src/virtio/net.ts. *)
From S2P Require Export Queue.

(** * Buffers as a device sees them

    A chain of a queue without views: private copies of the descriptors. *)
Record vbuf := VBuf { vb_array : list Z; vb_writable : bool }.
Abbreviation vchain := (list vbuf).

(** * RxQueue

    A waiter is the promise a producer got from [ready]; [rx_woken] logs the
    promises resolved so far, and [rx_released] the chains released, each with
    its byte count. *)
Record rx := Rx {
  rx_chains : list vchain; rx_waiters : list nat; rx_closed : bool;
  rx_woken : list nat; rx_released : list (vchain * Z) }.

Definition rx_new : rx := Rx [] [] false [] [].

Definition rx_wake (r : rx) : rx :=
  Rx (rx_chains r) [] (rx_closed r) (rx_woken r ++ rx_waiters r) (rx_released r).

Definition rx_post (chains : list vchain) (r : rx) : rx :=
  if rx_closed r then r else
  let r := Rx (rx_chains r ++ chains) (rx_waiters r) (rx_closed r) (rx_woken r) (rx_released r) in
  if 0 <? zlen (rx_chains r) then rx_wake r else r.

Definition rx_available (r : rx) : Z := zlen (rx_chains r).

(** [ready()] of the producer [waiter]: resolved at once, or queued. *)
Definition rx_ready (waiter : nat) (r : rx) : rx :=
  if ((0 <? rx_available r) || rx_closed r)%bool
  then Rx (rx_chains r) (rx_waiters r) (rx_closed r) (rx_woken r ++ [waiter]) (rx_released r)
  else Rx (rx_chains r) (rx_waiters r ++ [waiter]) (rx_closed r) (rx_woken r) (rx_released r).

(** [fill] returns the chain's new contents and the byte count. *)
Definition rx_deliver (fill : vchain → outcome (vchain * Z)) : M rx bool := fun r =>
  match rx_chains r with
  | [] => (Done false, r)
  | chain :: chains =>
      let r := Rx chains (rx_waiters r) (rx_closed r) (rx_woken r) (rx_released r) in
      match fill chain with
      | Done cn => (Done true, Rx (rx_chains r) (rx_waiters r) (rx_closed r) (rx_woken r)
                                  (rx_released r ++ [cn]))
      | Raise e => (Raise e, r)
      | Loops => (Loops, r)
      end
  end.

Definition rx_reset (r : rx) : rx :=
  Rx [] (rx_waiters r) (rx_closed r) (rx_woken r) (rx_released r).
Definition rx_close (r : rx) : rx :=
  rx_wake (Rx [] (rx_waiters r) true (rx_woken r) (rx_released r)).

(** * The switch *)
Definition RECEIVE_BACKLOG : Z := 16.
Definition MAX_PENDING_FRAMES : Z := 256.

Definition VirtioNetHeader : ty :=
  Struct [("flags", U8); ("gso_type", U8); ("header_length", U16LE); ("gso_size", U16LE);
          ("checksum_start", U16LE); ("checksum_offset", U16LE); ("buffer_count", U16LE)].
Definition net_header_size : Z := ty_size VirtioNetHeader.
Definition Mac : ty := FixedArray U8 6.
Definition EthernetHeader : ty :=
  Struct [("destination", Mac); ("source", Mac); ("type", U16BE)].
Definition ethernet_header_size : Z := ty_size EthernetHeader.

Abbreviation mac := (list Z).
(** The key is the address itself: the hexadecimal text of a six-byte address
    determines its bytes. *)
Definition mac_key (address : mac) : mac := address.
Definition is_multicast (address : mac) : bool := negb (default 0 (head address) &&& 1 =? 0).

(** The switch's ports are numbered in the order they were added. [n_ports] is
    the set, in insertion order; [n_closed] holds the ports that were closed. *)
Record network := Network {
  n_ports : list nat; n_learned : gmap mac nat; n_port_closed : gset nat;
  n_closed : bool; n_next : nat }.

Definition ethernetNetwork : network := Network [] ∅ ∅ false 0.

Definition addPort : M network nat :=
  n ← get_state;
  assert_m (negb (n_closed n)) "cannot add a port to a closed Ethernet network" ;;
  let port := n_next n in
  put_state (Network (n_ports n ++ [port]) (n_learned n) (n_port_closed n) (n_closed n) (S port)) ;;
  mret port.

(** [recipients] and whether [send] awaits the one recipient's handler. *)
Definition recipients (n : network) (port : nat) (destination : mac) : list nat * bool :=
  let known := n_learned n !! mac_key destination in
  let targets :=
    match known with
    | Some d =>
        if negb (is_multicast destination)
        then if (bool_decide (d = port) || bool_decide (d ∈ n_port_closed n))%bool then [] else [d]
        else filter (fun c => c ≠ port ∧ c ∉ n_port_closed n) (n_ports n)
    | None => filter (fun c => c ≠ port ∧ c ∉ n_port_closed n) (n_ports n)
    end in
  (targets, bool_decide (is_Some known ∧ length targets = 1%nat)).

Definition learn (n : network) (source : mac) (port : nat) : network :=
  Network (n_ports n) (<[mac_key source := port]> (n_learned n)) (n_port_closed n)
    (n_closed n) (n_next n).

(** [receive] runs the handlers, on the state [W] they share. A handler returns
    normally, whatever promise it returns, or throws; a throw leaves the loop
    over a flood's recipients. *)
Section send.
Context {W : Type} (receive : nat → list Z → M W unit).

Fixpoint flood (targets : list nat) (frame : list Z) : M W unit :=
  match targets with
  | [] => mret tt
  | t :: targets => receive t frame ;; flood targets frame
  end.

Definition on_network {A} (m : M network A) : M (network * W) A := fun '(n, w) =>
  let '(o, n') := m n in (o, (n', w)).
Definition on_world {A} (m : M W A) : M (network * W) A := fun '(n, w) =>
  let '(o, w') := m w in (o, (n, w')).

Definition send (port : nat) (frame : list Z) : M (network * W) unit :=
  n ← on_network get_state;
  if n_closed n then mret tt else
  assert_m (negb (bool_decide (port ∈ n_port_closed n))) "cannot send from a closed Ethernet port" ;;
  assert_m (ethernet_header_size <=? zlen frame) "Ethernet frame is shorter than its header" ;;
  header ← lift (struct_read EthernetHeader frame);
  on_network (modify (fun n => learn n (nums (field header "source")) port)) ;;
  n ← on_network get_state;
  let '(targets, await) := recipients n port (nums (field header "destination")) in
  if await then match targets with t :: _ => on_world (receive t frame) | [] => mret tt end
  else on_world (flood targets frame).
End send.

Definition port_close (port : nat) (n : network) : network :=
  if bool_decide (port ∈ n_port_closed n) then n else
  Network (filter (fun c => c ≠ port) (n_ports n))
    (filter (fun mp : mac * nat => mp.2 ≠ port) (n_learned n))
    ({[port]} ∪ n_port_closed n) (n_closed n) (n_next n).

Definition network_close (n : network) : network :=
  if n_closed n then n else
  Network [] ∅ (list_to_set (n_ports n) ∪ n_port_closed n) true (n_next n).

(** * The NIC *)

(** Fills the descriptors of a receive chain with the header and the frame. *)
Definition net_header : value :=
  Obj [("flags", Num 0); ("gso_type", Num 0); ("header_length", Num 0); ("gso_size", Num 0);
       ("checksum_start", Num 0); ("checksum_offset", Num 0); ("buffer_count", Num 1)].

Definition net_packet (frame : list Z) : outcome (list Z) :=
  let '(o, b) := (emit VirtioNetHeader net_header ;; append frame)
                   (bytes_new (net_header_size + zlen frame)) in
  o ;; mret (array b).

Fixpoint fill_chain (bytes : list Z) (chain : vchain) (offset : Z) : outcome (vchain * Z) :=
  match chain with
  | [] => Done ([], offset)
  | d :: chain =>
      assert_ (vb_writable d) "virtio-net receive descriptor must be writable" ;;
      let length := Z.min (zlen bytes - offset) (zlen (vb_array d)) in
      data ← (if 0 <? length
              then ta_set (vb_array d) (subarray bytes offset (offset + length)) 0
              else mret (vb_array d));
      rest ← fill_chain bytes chain (offset + length);
      mret (VBuf data (vb_writable d) :: rest.1, rest.2)
  end.

Definition write_frame (frame : list Z) (chain : vchain) : outcome (vchain * Z) :=
  bytes ← net_packet frame;
  r ← fill_chain bytes chain 0;
  assert_ (r.2 =? zlen bytes) "virtio-net receive buffer is too small" ;;
  mret r.

(** A frame for the guest; [pf_delivered] numbers the promise its sender
    awaits. [nic_resolved] logs the promises resolved. *)
Record pending_frame := PendingFrame { pf_frame : list Z; pf_delivered : option nat }.
Record nic := Nic {
  nic_rx : rx; nic_pending : list pending_frame; nic_stopped : bool;
  nic_next : nat; nic_resolved : list nat }.

Definition with_rx (r : rx) (s : nic) : nic :=
  Nic r (nic_pending s) (nic_stopped s) (nic_next s) (nic_resolved s).
Definition with_pending (l : list pending_frame) (s : nic) : nic :=
  Nic (nic_rx s) l (nic_stopped s) (nic_next s) (nic_resolved s).
Definition resolve (p : option nat) (s : nic) : nic :=
  match p with
  | Some p => Nic (nic_rx s) (nic_pending s) (nic_stopped s) (nic_next s) (nic_resolved s ++ [p])
  | None => s
  end.
Definition on_rx {A} (m : M rx A) : M nic A := fun s =>
  let '(o, r) := m (nic_rx s) in (o, with_rx r s).

(** The loop stops when there is no frame or no chain left; each round takes
    one of each, so the frames' number is fuel enough. *)
Fixpoint nic_flush (fuel : nat) : M nic unit :=
  s ← get_state;
  match nic_pending s with
  | [] => mret tt
  | p :: rest =>
      ok ← on_rx (rx_deliver (write_frame (pf_frame p)));
      if (ok : bool) then
        match fuel with
        | O => lift Loops
        | S fuel =>
            modify (with_pending rest) ;; modify (resolve (pf_delivered p)) ;; nic_flush fuel
        end
      else mret tt
  end.
Definition flush : M nic unit :=
  s ← get_state; nic_flush (length (nic_pending s)).

(** [#receive]; the result is the promise the sender may await. *)
Definition nic_receive (frame : list Z) : M nic (option nat) :=
  s ← get_state;
  if (nic_stopped s || (MAX_PENDING_FRAMES <=? zlen (nic_pending s)))%bool then mret None else
  let id := nic_next s in
  put_state (Nic (nic_rx s) (nic_pending s ++ [PendingFrame frame None]) (nic_stopped s)
               (S id) (nic_resolved s)) ;;
  flush ;;
  s ← get_state;
  if zlen (nic_pending s) <=? RECEIVE_BACKLOG then mret None else
  (* [pending.delivered = ...]: the frame just accepted is the last *)
  put_state (with_pending (alter (fun p => PendingFrame (pf_frame p) (Some id))
               (pred (length (nic_pending s))) (nic_pending s)) s) ;;
  mret (Some id).

(** [kick(0, queue)] *)
Definition nic_kick_receive (chains : list vchain) : M nic unit :=
  on_rx (modify (rx_post chains)) ;; flush.

(** The frame in a transmit chain: the descriptors' bytes after the header. *)
Fixpoint skip_header (chunks : list (list Z)) (source_offset : Z) : M buf unit :=
  match chunks with
  | [] => mret tt
  | chunk :: chunks =>
      if zlen chunk <=? source_offset
      then skip_header chunks (source_offset - zlen chunk)
      else append (subarray chunk source_offset (zlen chunk)) ;; skip_header chunks 0
  end.

Definition transmit_frame (chain : vchain) : outcome (list Z) :=
  assert_ (forallb (fun d => negb (vb_writable d)) chain)
    "virtio-net transmit descriptor must be readable" ;;
  let chunks := vb_array <$> chain in
  let length := sum_list_z (zlen <$> chunks) in
  assert_ (net_header_size <=? length) "short virtio-net transmit header" ;;
  let '(o, frame) := skip_header chunks net_header_size (bytes_new (length - net_header_size)) in
  o ;;
  assert_ (b_length frame =? capacity frame) "short virtio-net transmit frame" ;;
  mret (array frame).

Definition nic_reset (s : nic) : nic := with_rx (rx_reset (nic_rx s)) s.

Definition nic_stop (s : nic) : nic :=
  Nic (rx_close (nic_rx s)) [] true (nic_next s)
    (nic_resolved s ++ omap pf_delivered (nic_pending s)).

(** [ethernetDevice] checks the address it is given. *)
Definition mac_address_ok (macAddress : list Z) : bool :=
  ((zlen macAddress =? 6) && forallb (fun b => (0 <=? b) && (b <=? 255)) macAddress)%bool.
Definition random_mac (random : list Z) : list Z :=
  match random with
  | b :: rest => ((b ||| 0x02) &&& 0xfe) :: rest
  | [] => []
  end.

(** The transmit loop: each chain's frame is sent, and the chain released once
    the network has accepted it. [send] says whether the wait was abandoned.
    The list logs the chains released. *)
Fixpoint nic_transmit {W} (send : list Z → M W bool) (chains : list vchain) :
    M (W * list vchain) unit :=
  match chains with
  | [] => mret tt
  | chain :: chains =>
      frame ← lift (transmit_frame chain);
      abandoned ← (fun '(w, l) => let '(o, w') := send frame w in (o, (w', l)));
      if (abandoned : bool) then mret tt else
      modify (fun '(w, l) => (w, l ++ [chain])) ;; nic_transmit send chains
  end.

(** * The switch: invariant and forwarding *)
Inductive network_step : network → network → Prop :=
| step_add n port n' : addPort n = (Done port, n') → network_step n n'
| step_learn n source port :
    n_closed n = false → port ∈ n_ports n → network_step n (learn n source port)
| step_close_port n port : port ∈ n_ports n → network_step n (port_close port n)
| step_close n : network_step n (network_close n).

Record network_ok (n : network) : Prop := {
  ok_nodup : NoDup (n_ports n);
  ok_open p : p ∈ n_ports n → p ∉ n_port_closed n;
  ok_old p : p ∈ n_ports n ∨ p ∈ n_port_closed n → (p < n_next n)%nat;
  ok_learned m p : n_learned n !! m = Some p → p ∈ n_ports n }.

Lemma network_ok_reachable n : rtc network_step ethernetNetwork n → network_ok n.
Proof.
  intros H. assert (H0 : network_ok ethernetNetwork).
  { constructor; simpl; [constructor|set_solver|set_solver|]. intros m p. by rewrite lookup_empty. }
  revert H0. induction H as [|n n1 n2 Hs _ IH]; [done|]. intros [Hnd Ho Hold Hl]. apply IH; clear IH.
  destruct Hs as [n port n3 Ha|n source port Hc Hp|n port Hp|n].
  - unfold addPort, mbind, M_bind, get_state, assert_m, lift, assert_ in Ha.
    destruct (n_closed n); simpl in Ha; [done|]. injection Ha as <- <-.
    assert (n_next n ∉ n_ports n) by (intros H; specialize (Hold (n_next n) (or_introl H)); lia).
    assert (n_next n ∉ n_port_closed n) by (intros H'; specialize (Hold (n_next n) (or_intror H')); lia).
    constructor; simpl.
    + apply NoDup_app; split_and!; [done|set_solver|]. apply NoDup_singleton.
    + intros p. rewrite elem_of_app, list_elem_of_singleton. intros [?| ->]; auto.
    + intros p. rewrite elem_of_app, list_elem_of_singleton.
      intros [[?| ->]|?]; [| lia |]; [specialize (Hold p (or_introl H1))|specialize (Hold p (or_intror H1))]; lia.
    + intros m p Hm%Hl. set_solver.
  - constructor; simpl; auto. intros m p. rewrite lookup_insert_Some. naive_solver.
  - unfold port_close. case_bool_decide; [by constructor|]. constructor; simpl.
    + by apply NoDup_filter.
    + intros p. rewrite list_elem_of_filter. set_solver.
    + intros p. rewrite list_elem_of_filter, elem_of_union, elem_of_singleton. naive_solver.
    + intros m p. rewrite map_lookup_filter_Some, list_elem_of_filter. naive_solver.
  - unfold network_close. destruct (n_closed n); [by constructor|]. constructor; simpl.
    + constructor.
    + set_solver.
    + intros p. rewrite elem_of_union, elem_of_list_to_set. set_solver.
    + intros m p. by rewrite lookup_empty.
Qed.

(** Forwarding. In every state a switch can reach, a frame sent from an
    open port goes only to other open ports of the network, to each at most
    once. A unicast frame whose address was learned goes to the port that owns
    the address, and nowhere if that is the sender; any other frame goes to
    every other open port. *)
Theorem switch_forwards n port destination :
  rtc network_step ethernetNetwork n → port ∈ n_ports n →
  let targets := (recipients n port destination).1 in
  NoDup targets ∧ (∀ t, t ∈ targets → t ∈ n_ports n ∧ t ≠ port ∧ t ∉ n_port_closed n) ∧
  match n_learned n !! mac_key destination with
  | Some d => if is_multicast destination then ∀ t, t ∈ targets ↔ t ∈ n_ports n ∧ t ≠ port
              else targets = if decide (d = port) then [] else [d]
  | None => ∀ t, t ∈ targets ↔ t ∈ n_ports n ∧ t ≠ port
  end.
Proof.
  intros Hr Hp. apply network_ok_reachable in Hr as [Hnd Ho Hold Hl]. cbv zeta. unfold recipients.
  assert (Hflood : ∀ t, t ∈ filter (λ c, c ≠ port ∧ c ∉ n_port_closed n) (n_ports n) ↔
    t ∈ n_ports n ∧ t ≠ port).
  { intros t. rewrite list_elem_of_filter. naive_solver. }
  assert (Hall : NoDup (filter (λ c, c ≠ port ∧ c ∉ n_port_closed n) (n_ports n)) ∧
    ∀ t, t ∈ filter (λ c, c ≠ port ∧ c ∉ n_port_closed n) (n_ports n) →
      t ∈ n_ports n ∧ t ≠ port ∧ t ∉ n_port_closed n).
  { split; [by apply NoDup_filter|]. intros t (?&?)%Hflood. auto. }
  destruct Hall as [Hnf Hin].
  destruct (n_learned n !! mac_key destination) as [d|] eqn:Hd; [|done].
  destruct (is_multicast destination); cbn [negb fst]; [done|].
  specialize (Hl _ _ Hd). rewrite (bool_decide_eq_false_2 (d ∈ n_port_closed n)) by auto.
  rewrite orb_false_r. destruct (decide (d = port)) as [->|Hne].
  - rewrite bool_decide_eq_true_2 by done. split_and!; [constructor|set_solver|done].
  - rewrite bool_decide_eq_false_2 by done. split_and!; [apply NoDup_singleton| |done].
    intros t ->%list_elem_of_singleton. auto.
Qed.

(** Three ports; the first has been heard from. *)
Definition sample_network : network :=
  learn ((addPort ((addPort ((addPort ethernetNetwork).2)).2)).2) [2; 0; 0; 0; 0; 1] 0%nat.
Lemma sample_network_reachable : rtc network_step ethernetNetwork sample_network.
Proof.
  eapply rtc_l; [apply (step_add _ 0 (addPort ethernetNetwork).2); reflexivity|].
  eapply rtc_l; [apply (step_add _ 1 (addPort (addPort ethernetNetwork).2).2); reflexivity|].
  eapply rtc_l; [apply (step_add _ 2 (addPort (addPort (addPort ethernetNetwork).2).2).2); reflexivity|].
  eapply rtc_l; [apply (step_learn _ [2; 0; 0; 0; 0; 1] 0)|apply rtc_refl]; [done|set_solver].
Qed.

Lemma switch_forwards_witness :
  recipients sample_network 1%nat [2; 0; 0; 0; 0; 1] = ([0%nat], true) ∧
  NoDup (recipients sample_network 2%nat [255; 255; 255; 255; 255; 255]).1.
Proof.
  split; [vm_compute; reflexivity|].
  apply (switch_forwards sample_network 2 [255; 255; 255; 255; 255; 255]).
  - apply sample_network_reachable.
  - cbn. set_solver.
Defined.

(** A port whose handler throws ends the flood: the ports after it do not
    get the frame, and the throw reaches the sender. *)
Theorem flood_stops_at_throw {W} (receive : nat → list Z → M W unit) before t after frame w w1 e w2 :
  flood receive before frame w = (Done tt, w1) → receive t frame w1 = (Raise e, w2) →
  flood receive (before ++ t :: after) frame w = (Raise e, w2).
Proof.
  revert w; induction before as [|b before IH]; intros w; simpl; unfold mbind, M_bind.
  - intros [= ->] ->. done.
  - destruct (receive b frame w) as [[[]|e'|] w']; [|done..]. apply IH.
Qed.

Lemma flood_stops_at_throw_witness :
  let receive (p : nat) (_ : list Z) (heard : list nat) : outcome unit * list nat :=
    if decide (p = 1%nat) then (Raise (AssertionError "receive descriptor must be writable"), heard)
    else (Done tt, heard ++ [p]) in
  flood receive ([0%nat] ++ 1%nat :: [2%nat; 3%nat]) [7] [] =
    (Raise (AssertionError "receive descriptor must be writable"), [0%nat]).
Proof.
  intros receive.
  apply (flood_stops_at_throw receive [0%nat] 1 [2%nat; 3%nat] [7] [] [0%nat] _ [0%nat]); reflexivity.
Defined.

(** * The NIC's frames *)

Lemma fill_chain_spec bytes chain offset chain' n :
  0 ≤ offset ≤ zlen bytes → fill_chain bytes chain offset = Done (chain', n) →
  vb_writable <$> chain' = vb_writable <$> chain ∧
  (zlen ∘ vb_array) <$> chain' = (zlen ∘ vb_array) <$> chain ∧
  offset ≤ n ≤ zlen bytes ∧
  concat (vb_array <$> chain') =
    subarray bytes offset n ++ drop (Z.to_nat (n - offset)) (concat (vb_array <$> chain)).
Proof.
  revert offset chain' n; induction chain as [|d chain IH]; intros offset chain' n Ho; simpl.
  { intros [= <- <-]. rewrite subarray_empty, drop_nil. auto with lia. }
  destruct (vb_writable d) eqn:Hw; [|done]. simpl.
  set (len := (zlen bytes - offset) `min` zlen (vb_array d)).
  pose proof (zlen_nonneg (vb_array d)).
  set (m := if 0 <? len then _ else _).
  assert (Hm : m = Done (subarray bytes offset (offset + len) ++ drop (Z.to_nat len) (vb_array d))).
  { subst m. destruct (Z.ltb_spec 0 len).
    - rewrite ta_set_ok by (rewrite ?zlen_subarray; lia). unfold splice; simpl. do 3 f_equal.
      assert (zlen (subarray bytes offset (offset + len)) = len) by (rewrite zlen_subarray; lia).
      unfold zlen in *; lia.
    - replace len with 0 by lia. rewrite Z.add_0_r, subarray_empty. simpl. by rewrite drop_0. }
  clearbody m. subst m. simpl. destruct (fill_chain bytes chain (offset + len)) as [[r n']|e|] eqn:E;
    simpl; try done.
  intros [= <- <-]. apply IH in E as (Hws&Hls&Hn&Hc); [|lia]. cbn [fmap list_fmap vb_array vb_writable].
  assert (Hlen : zlen (subarray bytes offset (offset + len)) = len) by (rewrite zlen_subarray; lia).
  split_and!; [by rewrite Hws|f_equal; [|done]|lia|lia|].
  - simpl. rewrite zlen_app, Hlen, zlen_drop. lia.
  - simpl. rewrite Hc, <- (subarray_snoc_range bytes offset (offset + len) n') by lia.
    rewrite <- !app_assoc. f_equal. destruct (decide (len = zlen (vb_array d))) as [Hf|Hf].
    + rewrite Hf, zlen_to_nat, drop_ge, app_nil_l by done. f_equal. unfold zlen in Hf.
      rewrite drop_app_ge by lia. f_equal; lia.
    + replace n' with (offset + len) by lia. rewrite subarray_empty. simpl.
      replace (Z.to_nat (offset + len - (offset + len))) with 0%nat by lia.
      unfold zlen in *. rewrite drop_0, drop_app_le by lia. do 2 f_equal; lia.
Qed.

(** It fails only where a descriptor is read-only. *)
Lemma fill_chain_done bytes chain offset :
  0 ≤ offset ≤ zlen bytes → Forall (fun d => vb_writable d = true) chain →
  ∃ chain' n, fill_chain bytes chain offset = Done (chain', n) ∧
    n = offset + (zlen bytes - offset) `min` zlen (concat (vb_array <$> chain)).
Proof.
  intros Ho Hw; revert offset Ho. induction Hw as [|d chain Hd Hw IH]; intros offset Ho;
    rewrite ?fmap_cons; cbn [fill_chain concat].
  { exists [], offset. rewrite fmap_nil; simpl. split; [done|]. rewrite zlen_nil; lia. }
  rewrite Hd. cbn [assert_ mbind outcome_bind].
  set (len := (zlen bytes - offset) `min` zlen (vb_array d)).
  pose proof (zlen_nonneg (vb_array d)). pose proof (zlen_nonneg (concat (vb_array <$> chain))).
  destruct (IH (offset + len)) as (r&n&E&Hn); [lia|].
  assert (∃ data, (if 0 <? len
     then ta_set (vb_array d) (subarray bytes offset (offset + len)) 0 else mret (vb_array d)) = Done data)
    as [data ->].
  { destruct (0 <? len); [|by eexists]. rewrite ta_set_ok by (rewrite ?zlen_subarray; lia). by eexists. }
  cbn [mbind outcome_bind]. rewrite E. eexists _, _; split; [done|]. rewrite zlen_app. cbn [snd]. lia.
Qed.

Definition net_header_bytes : list Z := enc VirtioNetHeader net_header.
Lemma net_packet_eq frame : net_packet frame = Done (net_header_bytes ++ frame).
Proof.
  unfold net_packet.
  destruct (builds_run (emit VirtioNetHeader net_header ;; append frame)
    (net_header_size + zlen frame) tt (net_header_bytes ++ frame)) as (b&E&Ha).
  - pose proof (zlen_nonneg frame). change net_header_size with 12. lia.
  - eapply builds_bind; [by apply builds_emit|]. apply builds_append.
  - rewrite E. simpl. by rewrite Ha.
Qed.

(** handing a frame to the guest. A receive chain of writable descriptors
    with room for the header and the frame gets the bytes of both, in order
    across its descriptors, and keeps the rest of its bytes; the count
    released is theirs. A chain without the room is refused. *)
Theorem write_frame_fills frame chain :
  Forall (fun d => vb_writable d = true) chain →
  let packet := net_header_bytes ++ frame in
  if decide (zlen packet ≤ zlen (concat (vb_array <$> chain)))
  then ∃ chain', write_frame frame chain = Done (chain', zlen packet) ∧
    (zlen ∘ vb_array) <$> chain' = (zlen ∘ vb_array) <$> chain ∧
    concat (vb_array <$> chain') = packet ++ drop (length packet) (concat (vb_array <$> chain))
  else write_frame frame chain = Raise (AssertionError "virtio-net receive buffer is too small").
Proof.
  intros Hw packet. unfold write_frame. rewrite net_packet_eq. fold packet. cbn [mbind outcome_bind].
  pose proof (zlen_nonneg packet).
  destruct (fill_chain_done packet chain 0) as (chain'&n&E&Hn); [lia|done|].
  rewrite E. cbn [mbind outcome_bind snd]. case_decide as Hd.
  - assert (n = zlen packet) as -> by lia. rewrite Z.eqb_refl. simpl. exists chain'; split; [done|].
    apply fill_chain_spec in E as (_&Hl&_&Hc); [|lia]. split; [done|].
    by rewrite Hc, subarray_full, Z.sub_0_r, zlen_to_nat.
  - destruct (Z.eqb_spec n (zlen packet)); [lia|done].
Qed.

Lemma write_frame_witness :
  let chain := [VBuf (zeros 10) true; VBuf (zeros 10) true] in
  let packet := net_header_bytes ++ [1; 2; 3] in
  zlen packet = 15 ∧
  ∃ chain', write_frame [1; 2; 3] chain = Done (chain', zlen packet) ∧
    (zlen ∘ vb_array) <$> chain' = (zlen ∘ vb_array) <$> chain ∧
    concat (vb_array <$> chain') = packet ++ drop (length packet) (concat (vb_array <$> chain)).
Proof.
  split; [vm_compute; reflexivity|].
  apply (write_frame_fills [1; 2; 3] [VBuf (zeros 10) true; VBuf (zeros 10) true]).
  repeat constructor.
Defined.

Lemma fill_chain_ends bytes chain offset : fill_chain bytes chain offset ≠ Loops.
Proof.
  revert offset; induction chain as [|d chain IH]; intros offset; simpl; [done|].
  apply (outcome_bind_ends (assert_ _ _)); [by destruct (vb_writable d)|]. intros _.
  apply outcome_bind_ends.
  - destruct (0 <? _); [|done]. unfold ta_set. by case_bool_decide.
  - intros data. apply outcome_bind_ends; [apply IH|done].
Qed.
Lemma write_frame_ends frame chain : write_frame frame chain ≠ Loops.
Proof.
  unfold write_frame. rewrite net_packet_eq. cbn [mbind outcome_bind].
  pose proof (fill_chain_ends (net_header_bytes ++ frame) chain 0) as H.
  destruct (fill_chain _ _ _) as [[c n]|e|]; [|done..]. cbn [mbind outcome_bind snd].
  by destruct (n =? _).
Qed.

(** The first frames waiting, written to the first chains posted. *)
Fixpoint deliveries (pending : list pending_frame) (chains : list vchain) (rs : list (vchain * Z)) : Prop :=
  match rs with
  | [] => True
  | r :: rs =>
      match pending, chains with
      | p :: pending, c :: chains =>
          write_frame (pf_frame p) c = Done r ∧ deliveries pending chains rs
      | _, _ => False
      end
  end.

(** [s'] is [s] after the deliveries [rs]. *)
Definition delivered (s s' : nic) (rs : list (vchain * Z)) : Prop :=
  deliveries (nic_pending s) (rx_chains (nic_rx s)) rs ∧
  nic_pending s' = drop (length rs) (nic_pending s) ∧
  rx_released (nic_rx s') = rx_released (nic_rx s) ++ rs ∧
  nic_resolved s' = nic_resolved s ++ omap pf_delivered (take (length rs) (nic_pending s)) ∧
  nic_stopped s' = nic_stopped s ∧ nic_next s' = nic_next s.

Lemma nic_flush_spec fuel s :
  (length (nic_pending s) ≤ fuel)%nat →
  match nic_flush fuel s with
  | (Done _, s') => ∃ rs, delivered s s' rs ∧
      rx_chains (nic_rx s') = drop (length rs) (rx_chains (nic_rx s)) ∧
      (nic_pending s' = [] ∨ rx_chains (nic_rx s') = [])
  | (Raise e, s') => ∃ rs p c, delivered s s' rs ∧
      head (nic_pending s') = Some p ∧ write_frame (pf_frame p) c = Raise e ∧
      c :: rx_chains (nic_rx s') = drop (length rs) (rx_chains (nic_rx s))
  | (Loops, _) => False
  end.
Proof.
  revert s; induction fuel as [|fuel IH]; intros [[cs ws cl wk rel] ps st nx rsv] Hf;
    simpl in Hf; destruct ps as [|p ps]; simpl in Hf; try lia; cbn [nic_flush];
    unfold mbind at 1, M_bind at 1; cbn [get_state nic_pending].
  1,2: exists []; unfold delivered; simpl; rewrite !app_nil_r; by auto 10.
  unfold mbind at 1, M_bind at 1. unfold on_rx, rx_deliver. cbn [nic_rx rx_chains].
  destruct cs as [|c cs].
  { exists []; unfold delivered; simpl; rewrite !app_nil_r; by auto 10. }
  cbn [rx_waiters rx_closed rx_woken rx_released].
  pose proof (write_frame_ends (pf_frame p) c).
  destruct (write_frame (pf_frame p) c) as [r|e|] eqn:Hw; [| |done].
  - cbn [with_rx nic_pending nic_stopped nic_next nic_resolved].
    unfold mbind, M_bind, modify. cbn [with_pending nic_rx nic_stopped nic_next nic_resolved].
    set (s1 := resolve (pf_delivered p) _).
    assert (Hs1 : nic_pending s1 = ps ∧ nic_rx s1 = Rx cs ws cl wk (rel ++ [r]) ∧
      nic_stopped s1 = st ∧ nic_next s1 = nx ∧
      nic_resolved s1 = rsv ++ omap pf_delivered [p]).
    { subst s1. destruct p as [f [d|]]; simpl; by rewrite ?app_nil_r. }
    destruct Hs1 as (Hp&Hr&Hs&Hn&Hv). specialize (IH s1). rewrite Hp in IH.
    specialize (IH ltac:(lia)).
    destruct (nic_flush fuel s1) as [[a|e|] s2]; [| |done].
    + destruct IH as (rs&(Hd&?&Hrel&Hres&?&?)&Hch&Hor). rewrite Hr, Hp in *; cbn [rx_chains rx_released] in *.
      exists (r :: rs). unfold delivered. cbn [nic_pending nic_rx rx_chains rx_released nic_resolved nic_stopped nic_next deliveries length drop take].
      split_and!; try done; try congruence.
      * by rewrite Hrel, <- app_assoc.
      * rewrite Hres, Hv, <- app_assoc. f_equal. destruct p as [f [d|]]; done.
    + destruct IH as (rs&p'&c'&(Hd&?&Hrel&Hres&?&?)&Hh&Hw'&Hch). rewrite Hr, Hp in *; cbn [rx_chains rx_released] in *.
      exists (r :: rs), p', c'. unfold delivered. cbn [nic_pending nic_rx rx_chains rx_released nic_resolved nic_stopped nic_next deliveries length drop take].
      split_and!; try done; try congruence.
      * by rewrite Hrel, <- app_assoc.
      * rewrite Hres, Hv, <- app_assoc. f_equal. destruct p as [f [d|]]; done.
  - exists [], p, c. unfold delivered; simpl. rewrite !app_nil_r. by auto 10.
Qed.

(** The NIC's delivery to the guest. A flush ends. It hands the waiting
    frames, oldest first, to the chains the guest posted, oldest first, one
    frame to one chain, and resolves exactly the promises of the frames handed
    over; it stops when either runs out. If a chain cannot take its frame the
    flush throws: that chain is dropped, and the frame stays the next one. *)
Theorem flush_fifo s :
  match flush s with
  | (Done _, s') => ∃ rs, delivered s s' rs ∧
      rx_chains (nic_rx s') = drop (length rs) (rx_chains (nic_rx s)) ∧
      (nic_pending s' = [] ∨ rx_chains (nic_rx s') = [])
  | (Raise e, s') => ∃ rs p c, delivered s s' rs ∧
      head (nic_pending s') = Some p ∧ write_frame (pf_frame p) c = Raise e ∧
      c :: rx_chains (nic_rx s') = drop (length rs) (rx_chains (nic_rx s))
  | (Loops, _) => False
  end.
Proof. unfold flush, mbind, M_bind, get_state. by apply nic_flush_spec. Qed.

(** * Transmission *)
Lemma zlen_concat {A} (l : list (list A)) : sum_list_z (zlen <$> l) = zlen (concat l).
Proof. induction l as [|x l IH]; [done|]. rewrite fmap_cons. simpl. by rewrite zlen_app, IH. Qed.

(** The frame's buffer has exactly the room it needs, so it never grows. *)
Lemma skip_header_spec chunks n b l :
  0 ≤ n → repr b l → zlen l + zlen (drop (Z.to_nat n) (concat chunks)) ≤ capacity b →
  ∃ b', skip_header chunks n b = (Done tt, b') ∧
    repr b' (l ++ drop (Z.to_nat n) (concat chunks)) ∧ capacity b' = capacity b.
Proof.
  revert n b l; induction chunks as [|c chunks IH]; intros n b l Hn Hr Hc; cbn [skip_header concat] in *.
  { exists b. by rewrite drop_nil, app_nil_r. }
  destruct (Z.leb_spec (zlen c) n).
  - rewrite drop_app_ge in * by (unfold zlen in *; lia).
    replace (Z.to_nat n - length c)%nat with (Z.to_nat (n - zlen c)) in * by (unfold zlen; lia).
    apply IH; [lia|done|done].
  - rewrite drop_app_le in * by (unfold zlen in *; lia). rewrite zlen_app in Hc.
    rewrite subarray_clamp by lia. pose proof (zlen_nonneg (concat chunks)).
    destruct (append_room b l (drop (Z.to_nat n) c)) as (b1&E&Hr1&Hc1); [done|lia|].
    unfold mbind, M_bind. rewrite E, app_assoc.
    destruct (IH 0 b1 (l ++ drop (Z.to_nat n) c)) as (b2&E2&Hr2&Hc2);
      [lia|done|rewrite zlen_app, drop_0; lia|].
    rewrite drop_0 in Hr2. exists b2. split_and!; [done|done|congruence].
Qed.

(** what the guest transmits. The frame sent to the network is the bytes
    of the chain's descriptors after the header, whatever way the guest cut
    header and frame into descriptors; only a chain shorter than the header is
    refused. *)
Theorem transmit_frame_payload chain :
  Forall (fun d => vb_writable d = false) chain →
  let bytes := concat (vb_array <$> chain) in
  transmit_frame chain =
    if decide (net_header_size ≤ zlen bytes) then Done (drop 12 bytes)
    else Raise (AssertionError "short virtio-net transmit header").
Proof.
  intros Hr bytes. unfold transmit_frame.
  assert (forallb (λ d : vbuf, negb (vb_writable d)) chain = true) as ->.
  { apply forallb_forall. intros d Hd%list_elem_of_In. rewrite Forall_forall in Hr. by rewrite Hr. }
  cbn [assert_ mbind outcome_bind]. rewrite zlen_concat. fold bytes.
  case_decide as Hd; [|destruct (Z.leb_spec net_header_size (zlen bytes)); [lia|done]].
  rewrite (proj2 (Z.leb_le _ _)) by done. cbn [assert_ mbind outcome_bind].
  change net_header_size with 12 in *.
  destruct (skip_header_spec (vb_array <$> chain) 12 (bytes_new (zlen bytes - 12)) [])
    as (b&E&Hb&Hc); [lia|apply repr_new; lia| |].
  { rewrite capacity_new, zlen_nil by lia. fold bytes. rewrite zlen_drop. lia. }
  rewrite E. cbn [mbind outcome_bind]. fold bytes in Hb. rewrite app_nil_l in Hb.
  rewrite capacity_new in Hc by lia. rewrite Hc, (repr_array _ _ Hb).
  destruct Hb as (_&Hl&_). rewrite Hl, zlen_drop.
  rewrite (proj2 (Z.eqb_eq _ _)) by lia. done.
Qed.

Lemma transmit_frame_witness :
  transmit_frame [VBuf (zeros 10) false; VBuf [0; 0; 1] false; VBuf [2; 3] false] = Done [1; 2; 3] ∧
  transmit_frame [VBuf (zeros 13) false] =
    if decide (net_header_size ≤ zlen (zeros 13 ++ [])) then Done (drop 12 (zeros 13 ++ []))
    else Raise (AssertionError "short virtio-net transmit header").
Proof.
  split; [vm_compute; reflexivity|].
  apply (transmit_frame_payload [VBuf (zeros 13) false]). by repeat constructor.
Defined.
