(* ===== verification/Console.v ===== *)
(** The console of packages/kernel/src/virtio/console.ts over the receive queue of Net.v,
    and the entropy source of entropy.ts.

    The two asynchronous functions of the console, the pump of its input and the
    transmission of its output, are cut where they wait; everything else may happen in
    between. The calls of [kick], one at a time for a queue, are Device.v's. *)
From S2P Require Export Net.

(** * The console's state

    [#opened] is a promise replaced by every reset: [co_opened] counts the replacements,
    and [co_resolved] says if the one of now is resolved; those before are. *)
Inductive pump_phase := Checked (receivable : bool) | AwaitRx (waiter : nat) | AwaitOpened (generation : nat) | Reading | PumpEnded | PumpFailed (e : exn).
(** A transmission: before a chain, or in one, with the buffers and the count so far. *)
Inductive transmit_phase := NoTransmit | NextChain | Writing (chain : vchain) (rest : vchain) (n : Z).
Record console := Console {
  co_columns : Z; co_rows : Z; co_stopped : bool; co_guest_ready : bool; co_opened : nat; co_resolved : bool; co_rx : rx; co_waiters : nat;
  co_chunk : option (list Z); co_pump : pump_phase; co_transmit : transmit_phase;
  co_input : list Z (* the bytes that the input stream gave *);
  co_output : list Z (* those that the output stream was given *); co_sent : list (vchain * Z) (* chains released, with their counts *);
  co_config_changes : nat }.
#[export] Instance console_eta : Eta console := fun c =>
  Console (co_columns c) (co_rows c) (co_stopped c) (co_guest_ready c) (co_opened c) (co_resolved c) (co_rx c) (co_waiters c)
    (co_chunk c) (co_pump c) (co_transmit c) (co_input c) (co_output c) (co_sent c) (co_config_changes c).

(** ** The pump *)

(** [#receivable], from the head of its loop to its next wait or its end. *)
Definition receivable : M console unit := modify (fun c =>
  if (negb (co_stopped c) && negb (co_guest_ready c && (0 <? rx_available (co_rx c))))%bool then
    if co_guest_ready c then
      c <| co_pump := AwaitRx (co_waiters c) |> <| co_rx := rx_ready (co_waiters c) (co_rx c) |> <| co_waiters := S (co_waiters c) |>
    else c <| co_pump := AwaitOpened (co_opened c) |>
  else c <| co_pump := Checked (negb (co_stopped c)) |>).
(** The [fill] given to [deliver]. *)
Definition fill_chunk (pending : list Z) (chain : vchain) : outcome (vchain * Z) :=
  match chain with
  | [] => Raise (AssertionError "receiver must be writable")
  | desc :: trailing =>
      assert_ (vb_writable desc) "receiver must be writable" ;;
      assert_ (bool_decide (trailing = [])) "too many descriptors" ;;
      let n := Z.min (zlen pending) (zlen (vb_array desc)) in
      array ← ta_set (vb_array desc) (subarray pending 0 n) 0;
      Done ([VBuf array true], n)
  end.
Definition on_rx {A} : M rx A → M console A := focus co_rx (fun r c => c <| co_rx := r |>).
(** What is left of a chunk of which [n] bytes were delivered. *)
Definition left_of (pending : list Z) (n : Z) : option (list Z) := if n <? zlen pending then Some (subarray pending n (zlen pending)) else None.
(** The pump, past [await this.#receivable()]. *)
Definition pump_checked (ready : bool) : M console unit :=
  c ← get_state;
  if negb ready then modify (fun c => c <| co_pump := PumpEnded |>)
  else
    match co_chunk c with
    | None => modify (fun c => c <| co_pump := Reading |>)
    | Some pending =>
        catch
          (before ← gets (fun c => length (rx_released (co_rx c)));
           on_rx (rx_deliver (fill_chunk pending)) ;;
           modify (fun c =>
             let n := match rx_released (co_rx c) !! before with Some (_, n) => n | None => 0 end in
             c <| co_chunk := left_of pending n |>) ;;
           receivable)
          (fun e => modify (fun c => c <| co_pump := PumpFailed e |>))
    end.
(** What [reader.read()] gave: a chunk, the end, or an error. *)
Definition pump_read (result : outcome (option (list Z))) : M console unit :=
  match result with
  | Done (Some value) =>
      modify (fun c => c <| co_input := co_input c ++ value |> <| co_chunk := if 0 <? zlen value then Some value else None |>) ;;
      receivable
  | Done None => modify (fun c => c <| co_pump := PumpEnded |>)
  | Raise e => modify (fun c => c <| co_pump := PumpFailed e |>)
  | Loops => mret tt
  end.

(** ** The device *)
Definition VirtioConsole (input : bool) : console :=
  let c := Console 80 24 false false 0 false rx_new 0 None PumpEnded NoTransmit [] [] [] 0 in
  if input then (receivable c).2 else c.
Definition kick_receive (input : bool) (chains : list vchain) : M console unit :=
  if input then on_rx (modify (rx_post chains)) else mret tt.
(** [#transmit] to its first chain, and from there with what the queue gives next. *)
Definition transmit : M console unit := modify (fun c =>
  (if co_guest_ready c then c else c <| co_guest_ready := true |> <| co_resolved := true |>) <| co_transmit := NextChain |>).
Definition transmit_buffers (chain rest : vchain) (n : Z) : M console unit :=
  match rest with
  | [] => modify (fun c => c <| co_sent := co_sent c ++ [(chain, n)] |> <| co_transmit := NextChain |>)
  | b :: _ =>
      if vb_writable b then modify (fun c => c <| co_transmit := NoTransmit |>) ;; throw (AssertionError "transmitter must be readable")
      else modify (fun c => c <| co_transmit := Writing chain rest n |>)
  end.
Definition transmit_next (chain : option vchain) : M console unit :=
  match chain with
  | None => modify (fun c => c <| co_transmit := NoTransmit |>)
  | Some chain => transmit_buffers chain chain 0
  end.
(** [await this.#writer?.write(array)] came back; without a [writer] it does at once. *)
Definition transmit_written (writer : bool) (chain rest : vchain) (n : Z) (result : outcome unit) : M console unit :=
  match rest, result with
  | b :: rest, Done _ =>
      modify (fun c => c <| co_output := co_output c ++ (if writer then vb_array b else []) |>) ;; transmit_buffers chain rest (n + zlen (vb_array b))
  | _, Raise e => modify (fun c => c <| co_transmit := NoTransmit |>) ;; throw e
  | _, _ => mret tt
  end.
Definition console_reset : M console unit := modify (fun c =>
  c <| co_rx := rx_reset (co_rx c) |> <| co_guest_ready := false |> <| co_opened := S (co_opened c) |> <| co_resolved := false |>).
(** [stop], after which [stopped] holds; the cancellation of the streams is the platform's. *)
Definition console_stop : M console unit := modify (fun c =>
  c <| co_stopped := true |> <| co_rx := rx_close (co_rx c) |> <| co_resolved := true |>).
Definition resize (columns rows : Z) : M console unit :=
  assert_m ((0 <? columns) && (columns <=? 0xffff))%bool "console columns must be a positive 16-bit integer" ;;
  assert_m ((0 <? rows) && (rows <=? 0xffff))%bool "console rows must be a positive 16-bit integer" ;;
  c ← get_state;
  if ((co_columns c =? columns) && (co_rows c =? rows))%bool then mret tt
  else modify (fun c => c <| co_columns := columns |> <| co_rows := rows |> <| co_config_changes := S (co_config_changes c) |>).

(** A generation of [#opened] that is resolved. A device that was stopped is not reset. *)
Definition opened_resolved (c : console) (generation : nat) : Prop := (generation < co_opened c)%nat ∨ co_resolved c = true.
Inductive console_step (input : bool) (c : console) : console → Prop :=
| StepRxWoken waiter : co_pump c = AwaitRx waiter → waiter ∈ rx_woken (co_rx c) → console_step input c (receivable c).2
| StepOpened generation : co_pump c = AwaitOpened generation → opened_resolved c generation → console_step input c (receivable c).2
| StepChecked ready : co_pump c = Checked ready → console_step input c (pump_checked ready c).2
| StepRead result : co_pump c = Reading → console_step input c (pump_read result c).2
| StepKick chains : console_step input c (kick_receive input chains c).2
| StepTransmit : co_transmit c = NoTransmit → console_step input c (transmit c).2
| StepNextChain chain : co_transmit c = NextChain → console_step input c (transmit_next chain c).2
| StepWritten writer chain rest n result : co_transmit c = Writing chain rest n → console_step input c (transmit_written writer chain rest n result c).2
| StepReset : co_stopped c = false → console_step input c (console_reset c).2
| StepStop : console_step input c (console_stop c).2
| StepResize columns rows : console_step input c (resize columns rows c).2.

(** * Input arrives in order *)
Definition delivered (cn : vchain * Z) : list Z := take (Z.to_nat cn.2) (concat (vb_array <$> cn.1)).
Definition received (c : console) : list Z := concat (delivered <$> rx_released (co_rx c)).
Record console_ok (c : console) : Prop := {
  ck_input : received c ++ default [] (co_chunk c) = co_input c;
  ck_chunk : ∀ pending, co_chunk c = Some pending → pending ≠ [];
  ck_reading : co_pump c = Reading → co_chunk c = None;
  ck_ready : co_guest_ready c = true → co_resolved c = true;
  ck_stopped : co_stopped c = true → co_resolved c = true ∧ rx_closed (co_rx c) = true;
  ck_closed : rx_closed (co_rx c) = true → co_stopped c = true;
  ck_waiters : 0 < rx_available (co_rx c) ∨ rx_closed (co_rx c) = true → rx_waiters (co_rx c) = [];
  ck_rx : ∀ w, co_pump c = AwaitRx w → w ∈ rx_waiters (co_rx c) ∨ w ∈ rx_woken (co_rx c);
  ck_opened : ∀ g, co_pump c = AwaitOpened g → (g ≤ co_opened c)%nat }.

Lemma receivable_ok c : console_ok c → co_chunk c = None ∨ co_pump c ≠ Reading → console_ok (receivable c).2.
Proof.
  intros [H1 H0 H2 H3 H4 H5 H6 H7 H8] Hr. unfold receivable, modify. cbn [snd].
  destruct (negb (co_stopped c) && _)%bool eqn:E; [|by split].
  destruct (co_guest_ready c) eqn:Eg; [|split; cbn; try done; [by rewrite Eg|by intros g [= <-]]].
  apply andb_true_iff in E as [Es%negb_true_iff Ea%negb_true_iff]. rewrite andb_true_l in Ea.
  assert (Hc : rx_closed (co_rx c) = false) by (destruct (rx_closed (co_rx c)) eqn:E; [|done]; specialize (H5 eq_refl); congruence).
  assert (Er : rx_ready (co_waiters c) (co_rx c) = Rx (rx_chains (co_rx c)) (rx_waiters (co_rx c) ++ [co_waiters c]) (rx_closed (co_rx c)) (rx_woken (co_rx c)) (rx_released (co_rx c)))
    by (unfold rx_ready; by rewrite Ea, Hc).
  split; cbn -[rx_ready]; rewrite ?Er; try done.
  all: cbn; first
    [ intros _; by apply H3
    | intros Hs; congruence
    | intros [Hp|Hp]; [unfold rx_available in *; cbn in Hp; lia|congruence]
    | intros w [= <-]; left; apply elem_of_app; right; by left ].
Qed.
Lemma fill_chunk_spec pending chain cn : pending ≠ [] → fill_chunk pending chain = Done cn →
  0 ≤ cn.2 ≤ zlen pending ∧ delivered cn = take (Z.to_nat cn.2) pending.
Proof.
  intros Hne. unfold fill_chunk. destruct chain as [|desc trailing]; [done|]. unfold assert_. destruct (vb_writable desc); [|done]. cbn [mbind outcome_bind].
  destruct (bool_decide (trailing = [])); [|done]. cbn [mbind outcome_bind]. set (n := Z.min _ _). pose proof (zlen_nonneg pending). pose proof (zlen_nonneg (vb_array desc)).
  assert (Hz : zlen (subarray pending 0 n) = n) by (rewrite zlen_subarray; lia).
  rewrite ta_set_ok by (rewrite ?Hz; lia). cbn [mbind outcome_bind]. intros [= <-]. cbn [fst snd]. split; [lia|]. unfold delivered. cbn [fst snd fmap list_fmap concat vb_array].
  rewrite app_nil_r. change (Z.to_nat 0) with 0%nat. unfold splice. rewrite firstn_O. cbn [app]. rewrite take_app_le by (unfold zlen in Hz; lia). unfold subarray.
  change (Z.to_nat 0) with 0%nat. rewrite drop_0, Nat.sub_0_r. by rewrite take_take, Nat.min_id.
Qed.
(** What the pump does not see. *)
Definition input_side (c : console) := (co_stopped c, co_guest_ready c, co_opened c, co_resolved c, co_rx c, co_chunk c, co_pump c, co_input c).
Lemma ok_same c c' : console_ok c → input_side c' = input_side c → console_ok c'.
Proof. intros [H1 H0 H2 H3 H4 H5 H6 H7 H8] [= E1 E2 E3 E4 E5 E6 E7 E8]. split; unfold received; rewrite ?E1, ?E2, ?E3, ?E4, ?E5, ?E6, ?E7, ?E8; done. Qed.
Lemma transmit_buffers_same chain rest n c : input_side (transmit_buffers chain rest n c).2 = input_side c.
Proof. unfold transmit_buffers. destruct rest as [|b rest]; [done|]. by destruct (vb_writable b). Qed.
Lemma ok_pump c phase : console_ok c → (∀ w, phase ≠ AwaitRx w) → (∀ g, phase ≠ AwaitOpened g) → (phase = Reading → co_chunk c = None) →
  console_ok (c <| co_pump := phase |>).
Proof. intros [H1 H0 H2 H3 H4 H5 H6 H7 H8] Hw Hg Hr. split; cbn; try done; intros ? E; by (destruct (Hw _ E) || destruct (Hg _ E)). Qed.
(** [receivable] does not look at the phase. *)
Lemma receivable_parked c : console_ok (c <| co_pump := PumpEnded |>) → console_ok (receivable c).2.
Proof.
  intros Hc. apply receivable_ok in Hc; [|by right]. unfold receivable, modify in *. cbn [snd co_stopped co_guest_ready co_rx set_field eta console_eta] in *.
  destruct (negb _ && _)%bool; [|exact Hc]. by destruct (co_guest_ready c).
Qed.
Lemma left_of_spec pending n : 0 ≤ n ≤ zlen pending → take (Z.to_nat n) pending ++ default [] (left_of pending n) = pending ∧ (∀ p, left_of pending n = Some p → p ≠ []).
Proof.
  intros Hn. unfold left_of. destruct (Z.ltb_spec n (zlen pending)) as [Hlt|Hge].
  - assert (E : subarray pending n (zlen pending) = drop (Z.to_nat n) pending).
    { unfold subarray. rewrite take_ge; [done|]. rewrite length_drop. unfold zlen. lia. }
    cbn. rewrite E. split; [apply take_drop|]. intros p [= <-] Hd. apply (f_equal length) in Hd. rewrite length_drop in Hd. unfold zlen in *. cbn in Hd. lia.
  - cbn. rewrite app_nil_r. split; [|done]. apply take_ge. unfold zlen in *. lia.
Qed.
Lemma after_delivery c pending chains released n : console_ok c → co_pump c = Checked true → co_chunk c = Some pending →
  (zlen chains ≤ rx_available (co_rx c)) → 0 ≤ n ≤ zlen pending →
  concat (delivered <$> released) = received c ++ take (Z.to_nat n) pending →
  let r := co_rx c in console_ok (c <| co_rx := Rx chains (rx_waiters r) (rx_closed r) (rx_woken r) released |> <| co_chunk := left_of pending n |>).
Proof.
  intros [H1 H0 H2 H3 H4 H5 H6 H7 H8] Hp Hch Hl Hn Hr. destruct (left_of_spec pending n Hn) as [E1 E2]. split; cbn; try done.
  - unfold received in *. cbn. rewrite Hr, <- app_assoc, E1. by rewrite Hch in H1.
  - by rewrite Hp.
  - intros [Ha|Ha]; apply H6; [left; unfold rx_available in *; cbn in Ha; lia|by right].
Qed.
Lemma pump_deliver_ok c pending : console_ok c → co_pump c = Checked true → co_chunk c = Some pending → console_ok (pump_checked true c).2.
Proof.
  intros Hc Hp Hch. pose proof (ck_chunk _ Hc _ Hch) as Hne. pose proof (zlen_nonneg pending). unfold pump_checked. erewrite M_bind_done by done.
  cbn [negb]. rewrite Hch. unfold catch. unfold mbind at 1, M_bind at 1, gets. cbv beta iota. set (before := length _).
  unfold mbind at 1, M_bind at 1, on_rx, focus, rx_deliver. destruct (rx_chains (co_rx c)) as [|chain chains] eqn:Ec.
  - erewrite M_bind_done by done. cbn [co_rx set_field eta console_eta]. rewrite lookup_ge_None_2 by (unfold before; lia).
    pose proof (after_delivery c pending [] (rx_released (co_rx c)) 0 Hc Hp Hch) as Ha. cbn zeta in Ha. change (Z.to_nat 0) with 0%nat in Ha.
    rewrite firstn_O, app_nil_r in Ha. specialize (Ha ltac:(unfold rx_available; rewrite Ec; done) ltac:(lia) eq_refl).
    eapply receivable_ok in Ha; [|right; cbn; by rewrite Hp].
    assert (Er : Rx [] (rx_waiters (co_rx c)) (rx_closed (co_rx c)) (rx_woken (co_rx c)) (rx_released (co_rx c)) = co_rx c) by (destruct (co_rx c); cbn in *; by subst).
    rewrite Er in Ha. exact Ha.
  - destruct (fill_chunk pending chain) as [cn|e|] eqn:Ef.
    + destruct (fill_chunk_spec pending chain cn Hne Ef) as [Hn Hd]. erewrite M_bind_done by done. cbn [co_rx set_field eta console_eta rx_released].
      rewrite lookup_app_r, Nat.sub_diag by (unfold before; lia). destruct cn as [chain' n]. cbn [lookup list_lookup fst snd] in *.
      assert (Hr : concat (delivered <$> rx_released (co_rx c) ++ [(chain', n)]) = received c ++ take (Z.to_nat n) pending).
      { unfold received. rewrite fmap_app, concat_app. cbn. by rewrite app_nil_r, Hd. }
      pose proof (after_delivery c pending chains _ n Hc Hp Hch ltac:(unfold rx_available; rewrite Ec, zlen_cons; lia) Hn Hr) as Ha.
      cbn zeta in Ha. eapply receivable_ok in Ha; [exact Ha|right; cbn; by rewrite Hp].
    + pose proof (after_delivery c pending chains (rx_released (co_rx c)) 0 Hc Hp Hch) as Ha. cbn zeta in Ha. change (Z.to_nat 0) with 0%nat in Ha.
      rewrite firstn_O, app_nil_r in Ha. specialize (Ha ltac:(unfold rx_available; rewrite Ec, zlen_cons; lia) ltac:(lia) eq_refl).
      apply (ok_pump _ (PumpFailed e)) in Ha; [|done..]. cbn.
      assert (El : left_of pending 0 = Some pending) by (unfold left_of; destruct (Z.ltb_spec 0 (zlen pending)); [unfold subarray; cbn; rewrite drop_0, Nat.sub_0_r, take_ge by (unfold zlen; lia); done|destruct pending; [done|rewrite zlen_cons in *; pose proof (zlen_nonneg pending); lia]]).
      rewrite El in Ha. eapply ok_same; [exact Ha|]. unfold input_side. cbn. by rewrite Hch.
    + unfold fill_chunk, assert_, ta_set in Ef. repeat case_match; discriminate Ef.
Qed.
Lemma console_step_ok input c c' : console_ok c → console_step input c c' → console_ok c'.
Proof.
  intros Hc Hstep. pose proof Hc as [H1 H0 H2 H3 H4 H5 H6 H7 H8].
  destruct Hstep as [w Hp Hw|g Hp Hg|ready Hp|result Hp|chains|Ht|chain Ht|writer chain rest n result Ht|Hs| |columns rows].
  - apply receivable_ok; [done|right; by rewrite Hp].
  - apply receivable_ok; [done|right; by rewrite Hp].
  - destruct ready; [|by apply ok_pump]. destruct (co_chunk c) as [pending|] eqn:Hch; [by eapply pump_deliver_ok|].
    unfold pump_checked. erewrite M_bind_done by done. cbn [negb]. rewrite Hch. by apply ok_pump.
  - unfold pump_read. destruct result as [[value|]|e|]; [|by apply ok_pump..|done]. erewrite M_bind_done by done.
    apply receivable_parked. apply (ok_pump _ PumpEnded) in Hc; [|done..]. destruct Hc as [G1 G0 G2 G3 G4 G5 G6 G7 G8]. split; cbn in *; try done.
    + unfold received in *. cbn in *. rewrite <- G1, (H2 Hp). cbn. rewrite app_nil_r. f_equal. destruct (Z.ltb_spec 0 (zlen value)); [done|].
      symmetry. apply zlen_0_nil. pose proof (zlen_nonneg value). lia.
    + intros pending. destruct (Z.ltb_spec 0 (zlen value)); [|done]. intros [= <-] ->. done.
  - unfold kick_receive. destruct input; [|done]. unfold on_rx, focus, modify. cbn [snd]. unfold rx_post. destruct (rx_closed (co_rx c)) eqn:Ecl.
    { eapply ok_same; [exact Hc|]. unfold input_side. cbn. done. }
    cbn [rx_chains]. destruct (Z.ltb_spec 0 (zlen (rx_chains (co_rx c) ++ chains))) as [Hlt|Hge]; split; cbn; try done.
    + intros w Hw. right. apply H7 in Hw. rewrite elem_of_app. tauto.
    + intros [Ha|Ha]; [unfold rx_available in Ha; cbn in Ha; lia|congruence].
  - unfold transmit, modify. cbn. destruct (co_guest_ready c) eqn:E; [by eapply ok_same|]. split; cbn; try done. intros H. by destruct (H4 H).
  - eapply ok_same; [exact Hc|]. destruct chain as [chain|]; [apply transmit_buffers_same|done].
  - eapply ok_same; [exact Hc|]. unfold transmit_written. destruct rest as [|b rest], result as [u|e|]; try done.
    erewrite M_bind_done by done. etrans; [apply transmit_buffers_same|done].
  - unfold console_reset, modify. cbn. split; cbn; try done; [by intros H; rewrite Hs in H|intros [Ha|Ha]; [done|by apply H6; right]|intros g Hg; by apply H8 in Hg; lia].
  - unfold console_stop, modify. cbn. split; cbn; try done. intros w Hw. right. apply H7 in Hw. rewrite elem_of_app. tauto.
  - eapply ok_same; [exact Hc|]. unfold resize, assert_m, mbind, M_bind, get_state, modify.
    destruct (assert_ (_ && _)%bool "console columns must be a positive 16-bit integer"); try done.
    destruct (assert_ (_ && _)%bool "console rows must be a positive 16-bit integer"); try done. by destruct ((co_columns c =? columns) && (co_rows c =? rows))%bool eqn:?; cbn in *; repeat case_match.
Qed.

Definition console_reachable (input : bool) : console → Prop := rtc (console_step input) (VirtioConsole input).
Lemma reachable_console_ok input c : console_reachable input c → console_ok c.
Proof.
  intros Hr. assert (H0 : console_ok (VirtioConsole input)).
  { assert (Hc : ∀ phase, (∀ w, phase ≠ AwaitRx w) → (∀ g, phase ≠ AwaitOpened g) →
      console_ok (Console 80 24 false false 0 false rx_new 0 None phase NoTransmit [] [] [] 0)) by (intros phase Hw Hg; split; cbn; try done; intros ? E; by (destruct (Hw _ E) || destruct (Hg _ E))).
    unfold VirtioConsole. destruct input; [apply receivable_ok; [|by left]|]; by apply Hc. }
  unfold console_reachable in Hr. induction Hr as [c|c1 c2 c3 Hs _ IH]; [done|]. apply IH. by eapply console_step_ok.
Qed.

(** C40: what the guest has received, and then the chunk that is held, is what the input
    stream gave: in order, nothing lost, nothing twice, whatever resets, transmissions,
    short buffers and the close come between; a chunk is read only when none is held;
    and the pump is not left waiting: when the guest can receive, or the device has
    stopped, what it waits for has come. *)
Theorem console_input_in_order input c : console_reachable input c →
  received c ++ default [] (co_chunk c) = co_input c ∧ (co_pump c = Reading → co_chunk c = None) ∧
  (co_stopped c = true ∨ co_guest_ready c = true ∧ 0 < rx_available (co_rx c) →
    (∀ w, co_pump c = AwaitRx w → w ∈ rx_woken (co_rx c)) ∧ (∀ g, co_pump c = AwaitOpened g → opened_resolved c g)).
Proof.
  intros [H1 H0 H2 H3 H4 H5 H6 H7 H8]%reachable_console_ok. split_and!; [done|done|]. intros Hcan. split.
  - intros w Hw. destruct (H7 w Hw) as [Hin|]; [|done]. rewrite H6 in Hin; [by apply elem_of_nil in Hin|]. destruct Hcan as [Hs|[_ Ha]]; [right; by apply H4|by left].
  - intros g Hg. right. destruct Hcan as [Hs|[Ha _]]; [by apply H4|by apply H3].
Qed.
(** A guest that becomes ready, gives a buffer of two bytes and is sent three. *)
Definition guest_opens : console := Eval vm_compute in (transmit (VirtioConsole true)).2.
Definition guest_posts : console := Eval vm_compute in (receivable (kick_receive true [[VBuf [0; 0] true]] guest_opens).2).2.
Definition guest_reads : console := Eval vm_compute in (pump_read (Done (Some [7; 8; 9])) (pump_checked true guest_posts).2).2.
Definition guest_received : console := Eval vm_compute in (pump_checked true guest_reads).2.
Lemma console_input_in_order_witness : console_reachable true guest_received ∧
  received guest_received ++ default [] (co_chunk guest_received) = [7; 8; 9] ∧ received guest_received = [7; 8].
Proof.
  assert (Hr : console_reachable true guest_received).
  { eapply rtc_l; [by apply StepTransmit|]. eapply rtc_l; [apply (StepKick _ _ [[VBuf [0; 0] true]])|].
    eapply rtc_l; [by apply (StepOpened _ _ 0%nat); [|right]|]. eapply rtc_l; [by apply (StepChecked _ _ true)|].
    eapply rtc_l; [by apply (StepRead _ _ (Done (Some [7; 8; 9])))|]. eapply rtc_l; [by apply (StepChecked _ _ true)|]. apply rtc_refl. }
  split; [exact Hr|]. destruct (console_input_in_order true guest_received Hr) as (H&_). split; [exact H|reflexivity].
Defined.

(** * Entropy *)
Section entropy.
(** [crypto.getRandomValues] of an array of so many bytes: it throws for more than 65536. *)
Context {W : Type} (getRandomValues : Z → M W (list Z)).
Fixpoint fill_buffers (chain : vchain) (n : Z) : M W (vchain * Z) :=
  match chain with
  | [] => mret ([], n)
  | b :: chain =>
      assert_m (vb_writable b) "" ;;
      arr ← getRandomValues (zlen (vb_array b));
      array ← lift (ta_set (vb_array b) arr 0);
      '(rest, n) ← fill_buffers chain (n + zlen (vb_array b));
      mret (VBuf array (vb_writable b) :: rest, n)
  end.
(** [kick]: the chains as they are released, with their counts. *)
Fixpoint entropy_kick (chains : list vchain) : M W (list (vchain * Z)) :=
  match chains with
  | [] => mret []
  | chain :: chains => r ← fill_buffers chain 0; rest ← entropy_kick chains; mret (r :: rest)
  end.
(** Every byte of a chain is replaced by a random one, and counted. *)
Lemma fill_buffers_all chain n w : (∀ k w, 0 ≤ k ≤ 65536 → ∃ arr w', getRandomValues k w = (Done arr, w') ∧ zlen arr = k) →
  Forall (fun b => vb_writable b = true ∧ zlen (vb_array b) ≤ 65536) chain →
  ∃ filled w', fill_buffers chain n w = (Done (filled, n + zlen (concat (vb_array <$> chain))), w') ∧ zlen <$> (vb_array <$> filled) = zlen <$> (vb_array <$> chain).
Proof using.
  intros Hr H. revert n w. induction H as [|b chain [Hb Hl] H IH]; intros n w; cbn [fill_buffers]; [exists [], w; split; [|done]; cbn; by rewrite Z.add_0_r|].
  rewrite Hb. erewrite M_bind_done by done. destruct (Hr (zlen (vb_array b)) w (conj (zlen_nonneg _) Hl)) as (arr&w1&E&Hz). erewrite M_bind_done by done.
  rewrite ta_set_ok by lia. erewrite M_bind_done by done. destruct (IH (n + zlen (vb_array b)) w1) as (filled&w2&E2&Hf). erewrite M_bind_done by done.
  eexists _, w2. split; [cbn; by rewrite zlen_app, Z.add_assoc|]. cbn. f_equal; [|exact Hf]. unfold splice. rewrite drop_ge by (unfold zlen in *; cbn; lia). by rewrite app_nil_r.
Qed.
End entropy.
