(* ===== verification/Block.v ===== *)
(** The block device: packages/kernel/src/virtio/block.ts.

    The device is made with views, so a descriptor is a range of the guest's
    memory. A request runs on the memory and on the storage's own state [St];
    the storage is the embedder's, and its operations are a record of the
    model. *)
From S2P Require Export Queue.

Definition SEG_MAX : Z := 128.
Definition FEATURE_SEG_MAX : Z := 1 <<< 2.
Definition FEATURE_RO : Z := 1 <<< 5.
Definition FEATURE_FLUSH : Z := 1 <<< 9.

Definition BlockDeviceConfig : ty :=
  Struct [("capacity", U64LE); ("size_max", U32LE); ("seg_max", U32LE)].
Definition BlockDeviceRequest : ty :=
  Struct [("type", U32LE); ("reserved", U32LE); ("sector", U64LE)].
Definition REQUEST_IN : Z := 0.
Definition REQUEST_OUT : Z := 1.
Definition REQUEST_FLUSH : Z := 4.
Definition REQUEST_GET_ID : Z := 8.
Definition STATUS_OK : Z := 0.
Definition STATUS_IOERR : Z := 1.
Definition STATUS_UNSUPP : Z := 2.

(** A segment: the address and length of a view of guest memory. *)
Record segment := Seg { sg_addr : Z; sg_len : Z }.

Definition sg_end (s : segment) : Z := sg_addr s + sg_len s.
Definition seg_bytes (memory : list Z) (s : segment) : list Z :=
  subarray memory (sg_addr s) (sg_end s).
Definition seg_set (s : segment) (data memory : list Z) : list Z :=
  splice memory (Z.to_nat (sg_addr s)) data.

(** [merged] is kept in reverse: its head is the source's last element. *)
Fixpoint runs_loop (segments merged : list segment) : list segment :=
  match segments with
  | [] => reverse merged
  | s :: segments =>
      if sg_len s =? 0 then runs_loop segments merged else
      match merged with
      | last :: rest =>
          if sg_addr last + sg_len last =? sg_addr s
          then runs_loop segments (Seg (sg_addr last) (sg_len last + sg_len s) :: rest)
          else runs_loop segments (s :: merged)
      | [] => runs_loop segments (s :: merged)
      end
  end.
Definition runs (segments : list segment) : list segment := runs_loop segments [].

(** * Storage *)
Record storage (St : Type) := Storage {
  (** the count, and what the call left in the target *)
  st_read : Z → list Z → M St (Z * list Z);
  st_write : option (Z → list Z → M St Z);
  st_readv : option (Z → list (list Z) → M St (Z * list (list Z)));
  st_writev : option (Z → list (list Z) → M St Z);
  st_flush : option (M St unit);
  st_capacity : Z }.
Arguments Storage {St} _ _ _ _ _ _.
Arguments st_read {St} _ _ _ _.
Arguments st_write {St} _.
Arguments st_readv {St} _.
Arguments st_writev {St} _.
Arguments st_flush {St} _.
Arguments st_capacity {St} _.

Section device.
Context {St : Type} (sto : storage St).

(** The guest's memory and the storage's state. *)
Definition world : Type := list Z * St.

Definition on_storage {A} (m : M St A) : M world A := fun '(memory, st) =>
  let '(o, st') := m st in (o, (memory, st')).
Definition set_memory (memory : list Z) : M world unit := modify (fun w => (memory, w.2)).

Fixpoint seg_set_all (segments : list segment) (data : list (list Z)) (memory : list Z) : list Z :=
  match segments, data with
  | s :: segments, d :: data => seg_set_all segments data (seg_set s d memory)
  | _, _ => memory
  end.

(** [storage.read(at, target)] and [storage.readv(at, targets)] on views. *)
Definition read_single (at_ : Z) (s : segment) : M world Z :=
  w ← get_state;
  r ← on_storage (st_read sto at_ (seg_bytes w.1 s));
  set_memory (seg_set s r.2 w.1) ;;
  mret r.1.
Definition read_vectored (readv : Z → list (list Z) → M St (Z * list (list Z)))
    (at_ : Z) (pieces : list segment) : M world Z :=
  w ← get_state;
  r ← on_storage (readv at_ (seg_bytes w.1 <$> pieces));
  set_memory (seg_set_all pieces r.2 w.1) ;;
  mret r.1.
Definition write_single (write : Z → list Z → M St Z) (at_ : Z) (s : segment) : M world Z :=
  w ← get_state; on_storage (write at_ (seg_bytes w.1 s)).
Definition write_vectored (writev : Z → list (list Z) → M St Z) (at_ : Z)
    (pieces : list segment) : M world Z :=
  w ← get_state; on_storage (writev at_ (seg_bytes w.1 <$> pieces)).

(** * transfer *)
Fixpoint transfer_loop (offset : Z) (pieces : list segment)
    (single : Z → segment → M world Z) (moved : Z) : M world Z :=
  match pieces with
  | [] => mret moved
  | piece :: pieces =>
      n ← single (offset + moved) piece;
      if negb (n =? sg_len piece) then mret (moved + n)
      else transfer_loop offset pieces single (moved + n)
  end.

Definition transfer (offset : Z) (segments : list segment) (single : Z → segment → M world Z)
    (vectored : option (Z → list segment → M world Z)) : M world Z :=
  match runs segments, vectored with
  | [piece], _ => single offset piece
  | pieces, Some vectored => vectored offset pieces
  | pieces, None => transfer_loop offset pieces single 0
  end.

(** * The device *)
Definition device_sectors : Z := st_capacity sto / 512.
Definition device_capacity : Z := device_sectors * 512.

Definition device_config : outcome (list Z) :=
  ty_set BlockDeviceConfig (dv_of (zeros (ty_size BlockDeviceConfig))) 0
    (Obj [("capacity", Num device_sectors); ("seg_max", Num SEG_MAX)]).

Definition device_features : Z :=
  (FEATURE_SEG_MAX ||| (if st_flush sto is Some _ then FEATURE_FLUSH else 0))
    ||| (if st_write sto is Some _ then 0 else FEATURE_RO).

Record vdesc := VDesc { vd_seg : segment; vd_writable : bool }.

Definition total_length (segments : list segment) : Z := sum_list_z (sg_len <$> segments).

(** The three requests that reach the storage: the status and the count of
    bytes put in guest memory. *)
Definition request_in (data : list vdesc) (offset length : Z) (valid : bool) : M world (Z * Z) :=
  assert_m (forallb vd_writable data) "data must be writable when IN" ;;
  if negb valid then mret (STATUS_IOERR, 0) else
  if length =? 0 then mret (STATUS_OK, 0) else
  n ← transfer offset (vd_seg <$> data) read_single (read_vectored <$> st_readv sto);
  mret (if negb (n =? length) then (STATUS_IOERR, 0) else (STATUS_OK, length)).

Definition request_out (data : list vdesc) (offset length : Z) (valid : bool) : M world (Z * Z) :=
  assert_m (forallb (fun d => negb (vd_writable d)) data) "data must be readonly when OUT" ;;
  match st_write sto with
  | None => mret (STATUS_UNSUPP, 0)
  | Some write =>
      if negb valid then mret (STATUS_IOERR, 0) else
      if length =? 0 then mret (STATUS_OK, 0) else
      n ← transfer offset (vd_seg <$> data) (write_single write) (write_vectored <$> st_writev sto);
      mret (if negb (n =? length) then STATUS_IOERR else STATUS_OK, 0)
  end.

Definition request_flush : M world (Z * Z) :=
  match st_flush sto with
  | None => mret (STATUS_UNSUPP, 0)
  | Some flush => on_storage flush ;; mret (STATUS_OK, 0)
  end.

Definition dispatch (request : value) (data : list vdesc) : M world (Z * Z) :=
  let length := total_length (vd_seg <$> data) in
  let start := request.["sector"] * 512 in
  let valid := ((zlen data <=? SEG_MAX) && (start + length <=? device_capacity))%bool in
  if request.["type"] =? REQUEST_IN then request_in data start length valid else
  if request.["type"] =? REQUEST_OUT then request_out data start length valid else
  if request.["type"] =? REQUEST_FLUSH then request_flush else
  if request.["type"] =? REQUEST_GET_ID then mret (STATUS_OK, 0) else
  mret (STATUS_UNSUPP, 0).

(** [#request(chain)]: the count the chain is released with. *)
Definition request (descs : list vdesc) : M world Z :=
  let data := removelast (tail descs) in
  match head descs, last descs with
  | Some header, Some status =>
      assert_m (negb (vd_writable header)) "header must be readonly" ;;
      assert_m (sg_len (vd_seg header) =? ty_size BlockDeviceRequest) "header size" ;;
      assert_m (vd_writable status) "status must be writable" ;;
      assert_m (sg_len (vd_seg status) =? 1) "status size" ;;
      w ← get_state;
      request ← lift (struct_read BlockDeviceRequest (seg_bytes w.1 (vd_seg header)));
      r ← dispatch request data;
      w ← get_state;
      set_memory (<[Z.to_nat (sg_addr (vd_seg status)) := r.1]> w.1) ;;
      mret r.2
  | _, _ => throw (AssertionError "header must be readonly")
  end.
End device.

(** [blockDevice] accepts a storage whose byte offsets are exact numbers. *)
Definition block_capacity_ok (capacity : Z) : bool :=
  ((0 <=? capacity) && (capacity <=? max_safe_integer))%bool.

(** * Requests in flight

    The order in which requests start, and storage calls settle. Requests are
    numbered as the kick starts them. [bq_writes] is the set a flush takes its
    snapshot of. *)
Inductive phase :=
| Reading
| Writing
| FlushWaiting (writes : gset nat)
| Flushing
| Settled.

Record block_queue := BlockQueue {
  bq_next : nat; bq_phase : gmap nat phase; bq_was_write : gset nat; bq_writes : gset nat }.

Definition block_queue_new : block_queue := BlockQueue 0 ∅ ∅ ∅.

Inductive block_step : block_queue → block_queue → Prop :=
| start_read q :
    block_step q (BlockQueue (S (bq_next q)) (<[bq_next q := Reading]> (bq_phase q))
      (bq_was_write q) (bq_writes q))
| start_write q :
    block_step q (BlockQueue (S (bq_next q)) (<[bq_next q := Writing]> (bq_phase q))
      ({[bq_next q]} ∪ bq_was_write q) ({[bq_next q]} ∪ bq_writes q))
| start_flush q :
    block_step q (BlockQueue (S (bq_next q)) (<[bq_next q := FlushWaiting (bq_writes q)]> (bq_phase q))
      (bq_was_write q) (bq_writes q))
| settle_read q i :
    bq_phase q !! i = Some Reading →
    block_step q (BlockQueue (bq_next q) (<[i := Settled]> (bq_phase q))
      (bq_was_write q) (bq_writes q))
| settle_write q i :
    bq_phase q !! i = Some Writing →
    block_step q (BlockQueue (bq_next q) (<[i := Settled]> (bq_phase q))
      (bq_was_write q) (bq_writes q ∖ {[i]}))
| issue_flush q i writes :
    bq_phase q !! i = Some (FlushWaiting writes) →
    (∀ w, w ∈ writes → bq_phase q !! w = Some Settled) →
    block_step q (BlockQueue (bq_next q) (<[i := Flushing]> (bq_phase q))
      (bq_was_write q) (bq_writes q))
| settle_flush q i :
    bq_phase q !! i = Some Flushing →
    block_step q (BlockQueue (bq_next q) (<[i := Settled]> (bq_phase q))
      (bq_was_write q) (bq_writes q)).

(** * Runs *)
Definition seg_ok (size : Z) (s : segment) : Prop :=
  0 ≤ sg_addr s ∧ 0 ≤ sg_len s ∧ sg_end s ≤ size.

(** Puts [data] into the segments one after the other. *)
Fixpoint scatter (segments : list segment) (data memory : list Z) : list Z :=
  match segments with
  | [] => memory
  | s :: segments =>
      scatter segments (drop (Z.to_nat (sg_len s)) data)
        (seg_set s (take (Z.to_nat (sg_len s)) data) memory)
  end.
Definition gather (segments : list segment) (memory : list Z) : list Z :=
  concat (seg_bytes memory <$> segments).

Lemma total_length_cons s segs : total_length (s :: segs) = sg_len s + total_length segs.
Proof. done. Qed.
Lemma total_length_app l1 l2 : total_length (l1 ++ l2) = total_length l1 + total_length l2.
Proof. induction l1 as [|s l1 IH]; [done|]. simpl. rewrite !total_length_cons, IH. lia. Qed.
Lemma total_length_nonneg size segs : Forall (seg_ok size) segs → 0 ≤ total_length segs.
Proof.
  induction 1 as [|s segs (?&?&?) _ IH]; [done|]. rewrite total_length_cons. lia.
Qed.

Lemma zlen_seg_set s data memory :
  seg_ok (zlen memory) s → zlen data ≤ sg_len s → zlen (seg_set s data memory) = zlen memory.
Proof.
  unfold seg_ok, seg_set, sg_end, zlen. intros (?&?&?) ?. rewrite length_splice; lia.
Qed.

Lemma zlen_scatter segs data memory :
  Forall (seg_ok (zlen memory)) segs → zlen (scatter segs data memory) = zlen memory.
Proof.
  intros H. revert data memory H. induction segs as [|s segs IH]; intros data memory H; [done|].
  apply Forall_cons in H as [Hs H]. cbn [scatter].
  assert (Hz : zlen (seg_set s (take (Z.to_nat (sg_len s)) data) memory) = zlen memory).
  { apply zlen_seg_set; [done|]. rewrite zlen_take. destruct Hs as (?&?&?). lia. }
  rewrite IH; [done|by rewrite Hz].
Qed.

Lemma scatter_app size l1 l2 data memory :
  Forall (seg_ok size) l1 →
  scatter (l1 ++ l2) data memory =
    scatter l2 (drop (Z.to_nat (total_length l1)) data) (scatter l1 data memory).
Proof.
  intros H. revert data memory. induction H as [|s l1 (_&Hs&_) H IH]; intros data memory.
  { by rewrite drop_0. }
  cbn [app scatter]. rewrite IH, drop_drop, total_length_cons. do 2 f_equal.
  pose proof (total_length_nonneg _ _ H). lia.
Qed.

Lemma seg_set_merge a l1 l2 data memory :
  seg_ok (zlen memory) (Seg a l1) → seg_ok (zlen memory) (Seg (a + l1) l2) →
  l1 + l2 ≤ zlen data →
  seg_set (Seg (a + l1) l2) (take (Z.to_nat l2) (drop (Z.to_nat l1) data))
    (seg_set (Seg a l1) (take (Z.to_nat l1) data) memory) =
  seg_set (Seg a (l1 + l2)) (take (Z.to_nat (l1 + l2)) data) memory.
Proof.
  unfold seg_ok, sg_end, seg_set; simpl. unfold zlen. intros (?&?&?) (?&?&?) ?.
  rewrite (Z2Nat.inj_add l1 l2) by lia. rewrite <- take_take_drop.
  assert (Z.to_nat (a + l1) = Z.to_nat a + length (take (Z.to_nat l1) data))%nat as ->
    by (rewrite length_take; lia).
  apply splice_splice_next. rewrite !length_take, length_drop. lia.
Qed.

Lemma seg_ok_merge size a l1 l2 :
  seg_ok size (Seg a l1) → seg_ok size (Seg (a + l1) l2) → seg_ok size (Seg a (l1 + l2)).
Proof. unfold seg_ok, sg_end; simpl; lia. Qed.

(** What merging preserves: the places, and the data in them. *)
Lemma runs_loop_spec segs merged memory :
  Forall (seg_ok (zlen memory)) segs → Forall (seg_ok (zlen memory)) merged →
  Forall (seg_ok (zlen memory)) (runs_loop segs merged) ∧
  total_length (runs_loop segs merged) = total_length (reverse merged ++ segs) ∧
  gather (runs_loop segs merged) memory = gather (reverse merged ++ segs) memory ∧
  ∀ data, total_length (reverse merged ++ segs) ≤ zlen data →
    scatter (runs_loop segs merged) data memory = scatter (reverse merged ++ segs) data memory.
Proof.
  revert merged; induction segs as [|s segs IH]; intros merged Hs Hm; cbn [runs_loop].
  { rewrite app_nil_r. split_and!; [by apply Forall_reverse|done..]. }
  apply Forall_cons in Hs as [Hs Hss]. assert (Hs' := Hs). destruct Hs' as (Ha & Hl & He).
  assert (Hpush : Forall (seg_ok (zlen memory)) (runs_loop segs (s :: merged)) ∧
    total_length (runs_loop segs (s :: merged)) = total_length (reverse merged ++ s :: segs) ∧
    gather (runs_loop segs (s :: merged)) memory = gather (reverse merged ++ s :: segs) memory ∧
    ∀ data, total_length (reverse merged ++ s :: segs) ≤ zlen data →
      scatter (runs_loop segs (s :: merged)) data memory = scatter (reverse merged ++ s :: segs) data memory).
  { destruct (IH (s :: merged)) as (H1&H2&H3&H4); [done|by constructor|].
    rewrite reverse_cons, <- app_assoc in *. done. }
  destruct (Z.eqb_spec (sg_len s) 0) as [Hz|Hz].
  - destruct (IH merged Hss Hm) as (H1&H2&H3&H4).
    assert (Ht : total_length (reverse merged ++ s :: segs) = total_length (reverse merged ++ segs)).
    { rewrite !total_length_app, total_length_cons. lia. }
    rewrite Ht. split_and!; [done|done| |].
    + rewrite H3. unfold gather. rewrite !fmap_app, !concat_app, fmap_cons. simpl. f_equal.
      unfold seg_bytes, sg_end. by rewrite Hz, Z.add_0_r, subarray_empty.
    + intros data Hd. rewrite H4 by done.
      rewrite !(scatter_app (zlen memory) (reverse merged)) by by apply Forall_reverse.
      cbn [scatter]. rewrite Hz, drop_0, take_0. unfold seg_set. by rewrite splice_nil.
  - destruct merged as [|[a l] rest]; [done|]. cbn [sg_addr sg_len].
    destruct (Z.eqb_spec (a + l) (sg_addr s)) as [Hadj|]; [|done]. clear Hpush.
    destruct s as [a2 l2]; simpl in *; subst a2. apply Forall_cons in Hm as [Hlast Hm].
    pose proof (seg_ok_merge _ _ _ _ Hlast Hs) as Hmerge.
    destruct (IH (Seg a (l + l2) :: rest)) as (H1&H2&H3&H4); [done|by constructor|].
    rewrite !reverse_cons, <- !app_assoc in *. cbn [app] in *.
    assert (Ht : total_length (reverse rest ++ Seg a (l + l2) :: segs) =
      total_length (reverse rest ++ Seg a l :: Seg (a + l) l2 :: segs)).
    { rewrite !total_length_app, !total_length_cons. simpl. lia. }
    split_and!; [done|by rewrite H2| |].
    + rewrite H3. unfold gather. rewrite !fmap_app, !concat_app, !fmap_cons. simpl. f_equal.
      rewrite app_assoc. f_equal. unfold seg_bytes, sg_end; simpl. symmetry.
      rewrite Z.add_assoc. apply subarray_snoc_range; destruct Hlast as (?&?&?); simpl in *; lia.
    + intros data Hd. rewrite H4 by lia. assert (Hrest := Hm). apply Forall_reverse in Hrest.
      rewrite !(scatter_app (zlen memory) (reverse rest)) by done.
      cbn [scatter sg_len]. set (rest_data := drop (Z.to_nat (total_length (reverse rest))) data).
      rewrite (drop_drop rest_data). assert (0 ≤ l) by apply Hlast.
      rewrite <- (Z2Nat.inj_add l l2) by lia. f_equal. symmetry. apply seg_set_merge.
      * by rewrite zlen_scatter.
      * by rewrite zlen_scatter.
      * unfold rest_data. rewrite zlen_drop. rewrite total_length_app, !total_length_cons in Hd. simpl in Hd.
        pose proof (total_length_nonneg _ _ Hss). pose proof (total_length_nonneg _ _ Hrest). lia.
Qed.

Lemma runs_spec segs memory :
  Forall (seg_ok (zlen memory)) segs →
  Forall (seg_ok (zlen memory)) (runs segs) ∧
  total_length (runs segs) = total_length segs ∧ gather (runs segs) memory = gather segs memory ∧
  ∀ data, total_length segs ≤ zlen data → scatter (runs segs) data memory = scatter segs data memory.
Proof. intros. by apply (runs_loop_spec segs [] memory). Qed.

Lemma zlen_gather segs memory :
  Forall (seg_ok (zlen memory)) segs → zlen (gather segs memory) = total_length segs.
Proof.
  induction 1 as [|s segs (?&?&?) _ IH]; [done|]. rewrite total_length_cons. unfold gather in *.
  rewrite fmap_cons. cbn [concat]. rewrite zlen_app, IH. unfold seg_bytes.
  rewrite zlen_subarray by (unfold sg_end in *; lia). unfold sg_end; lia.
Qed.

(** * The storage contract

    What the interface's comments promise of storage that holds [disk st]:
    calls inside the capacity move every byte; vectored calls move consecutive
    bytes into or out of the pieces in turn. *)
Class StorageLaws {St} (sto : storage St) (disk : St → list Z) := {
  law_capacity st : st_capacity sto ≤ zlen (disk st);
  law_read at_ target st :
    0 ≤ at_ → at_ + zlen target ≤ zlen (disk st) →
    ∃ st', st_read sto at_ target st
             = (Done (zlen target, subarray (disk st) at_ (at_ + zlen target)), st')
           ∧ disk st' = disk st;
  law_write write at_ data st :
    st_write sto = Some write → 0 ≤ at_ → at_ + zlen data ≤ zlen (disk st) →
    ∃ st', write at_ data st = (Done (zlen data), st')
           ∧ disk st' = splice (disk st) (Z.to_nat at_) data;
  law_readv readv at_ targets st :
    st_readv sto = Some readv → 0 ≤ at_ → at_ + zlen (concat targets) ≤ zlen (disk st) →
    ∃ st' data, readv at_ targets st = (Done (zlen (concat targets), data), st')
           ∧ disk st' = disk st ∧ length <$> data = length <$> targets
           ∧ concat data = subarray (disk st) at_ (at_ + zlen (concat targets));
  law_writev writev at_ sources st :
    st_writev sto = Some writev → 0 ≤ at_ → at_ + zlen (concat sources) ≤ zlen (disk st) →
    ∃ st', writev at_ sources st = (Done (zlen (concat sources)), st')
           ∧ disk st' = splice (disk st) (Z.to_nat at_) (concat sources);
  law_flush flush st :
    st_flush sto = Some flush → ∃ st', flush st = (Done tt, st') ∧ disk st' = disk st }.

Lemma seg_set_all_scatter segs data memory :
  (length <$> data) = (fun s => Z.to_nat (sg_len s)) <$> segs →
  seg_set_all segs data memory = scatter segs (concat data) memory.
Proof.
  revert data memory; induction segs as [|s segs IH]; intros [|d data] memory; try done.
  rewrite !fmap_cons. intros [= Hd Hds]. cbn [seg_set_all scatter concat].
  rewrite <- Hd, take_app_length, drop_app_length. by apply IH.
Qed.

Section transfers.
Context {St : Type} (sto : storage St) (disk : St → list Z) `{!StorageLaws sto disk}.

Lemma zlen_seg_bytes memory s : seg_ok (zlen memory) s → zlen (seg_bytes memory s) = sg_len s.
Proof.
  intros (?&?&?). unfold seg_bytes. rewrite zlen_subarray by (unfold sg_end in *; lia).
  unfold sg_end; lia.
Qed.

Lemma read_single_spec at_ s memory st :
  seg_ok (zlen memory) s → 0 ≤ at_ → at_ + sg_len s ≤ zlen (disk st) →
  ∃ st', read_single sto at_ s (memory, st) =
    (Done (sg_len s), (seg_set s (subarray (disk st) at_ (at_ + sg_len s)) memory, st')) ∧
    disk st' = disk st.
Proof.
  intros Hs Ha Hl. destruct (law_read at_ (seg_bytes memory s) st) as (st'&E&Hd);
    rewrite ?zlen_seg_bytes in * by done; [done|done|].
  exists st'. split; [|done]. unfold read_single, mbind, M_bind, get_state, on_storage. simpl.
  by rewrite E.
Qed.

Lemma read_loop_spec offset pieces moved memory st :
  Forall (seg_ok (zlen memory)) pieces → 0 ≤ offset → 0 ≤ moved →
  offset + moved + total_length pieces ≤ zlen (disk st) →
  ∃ st', transfer_loop offset pieces (read_single sto) moved (memory, st) =
    (Done (moved + total_length pieces),
     (scatter pieces (subarray (disk st) (offset + moved) (offset + moved + total_length pieces)) memory, st'))
    ∧ disk st' = disk st.
Proof.
  intros Hp Ho. revert moved memory st Hp. induction pieces as [|s pieces IH]; intros moved memory st Hp Hm Hl.
  { exists st. cbn. by rewrite Z.add_0_r. }
  apply Forall_cons in Hp as [Hs Hp]. rewrite total_length_cons in *. cbn [transfer_loop scatter].
  pose proof (total_length_nonneg _ _ Hp). assert (H' := Hs). destruct H' as (?&?&?).
  destruct (read_single_spec (offset + moved) s memory st) as (st1&E1&Hd1); [done|lia|lia|].
  unfold mbind, M_bind. rewrite E1, Z.eqb_refl. cbn [negb].
  set (memory1 := seg_set s _ memory).
  assert (Hz : zlen memory1 = zlen memory).
  { apply zlen_seg_set; [done|]. rewrite zlen_subarray; lia. }
  destruct (IH (moved + sg_len s) memory1 st1) as (st2&E2&Hd2);
    [by rewrite Hz|lia|rewrite Hd1; lia|].
  rewrite E2, Hd1 in *. exists st2; split; [|congruence].
  rewrite take_subarray, drop_subarray by lia. rewrite !Z.add_assoc. done.
Qed.

Lemma write_loop_spec write offset pieces moved memory st :
  st_write sto = Some write →
  Forall (seg_ok (zlen memory)) pieces → 0 ≤ offset → 0 ≤ moved →
  offset + moved + total_length pieces ≤ zlen (disk st) →
  ∃ st', transfer_loop offset pieces (write_single write) moved (memory, st) =
    (Done (moved + total_length pieces), (memory, st')) ∧
    disk st' = splice (disk st) (Z.to_nat (offset + moved)) (gather pieces memory).
Proof.
  intros Hw Hp Ho. revert moved st. induction Hp as [|s pieces Hs Hp IH]; intros moved st Hm Hl.
  { exists st. cbn. by rewrite splice_nil, Z.add_0_r. }
  rewrite total_length_cons in *. cbn [transfer_loop].
  pose proof (total_length_nonneg _ _ Hp). assert (H' := Hs). destruct H' as (?&?&?).
  pose proof (zlen_seg_bytes _ _ Hs) as Hz. pose proof (zlen_gather _ _ Hp) as Hg.
  destruct (law_write write (offset + moved) (seg_bytes memory s) st) as (st1&E1&Hd1);
    [done|lia|lia|].
  unfold mbind, M_bind. unfold write_single at 1, mbind, M_bind, get_state, on_storage. simpl.
  rewrite E1, Hz, Z.eqb_refl. cbn [negb].
  assert (Hz1 : zlen (disk st1) = zlen (disk st)).
  { rewrite Hd1. unfold zlen in *. rewrite length_splice; lia. }
  destruct (IH (moved + sg_len s) st1) as (st2&E2&Hd2); [lia|lia|].
  rewrite E2. exists st2; split; [by rewrite Z.add_assoc|].
  rewrite Hd2, Hd1. unfold gather. rewrite fmap_cons. cbn [concat]. fold (gather pieces memory).
  replace (Z.to_nat (offset + (moved + sg_len s)))
    with (Z.to_nat (offset + moved) + length (seg_bytes memory s))%nat by (unfold zlen in *; lia).
  apply splice_splice_next. unfold zlen in *; lia.
Qed.

Lemma transfer_read offset segs memory st :
  Forall (seg_ok (zlen memory)) segs → 0 ≤ offset → 0 < total_length segs →
  offset + total_length segs ≤ zlen (disk st) →
  ∃ st', transfer offset segs (read_single sto) (read_vectored <$> st_readv sto) (memory, st) =
    (Done (total_length segs),
     (scatter segs (subarray (disk st) offset (offset + total_length segs)) memory, st'))
    ∧ disk st' = disk st.
Proof.
  intros Hs Ho Hpos Hl. destruct (runs_spec segs memory Hs) as (Hr&Ht&Hg&Hsc).
  specialize (Hsc (subarray (disk st) offset (offset + total_length segs))).
  rewrite zlen_subarray in Hsc by lia. rewrite <- Hsc by lia. clear Hsc.
  unfold transfer. rewrite <- Ht in *. clear Hs Ht Hg. revert Hr Hpos Hl.
  generalize (runs segs) as pieces; clear segs; intros pieces Hr Hpos Hl.
  assert (Hloop : ∃ st', transfer_loop offset pieces (read_single sto) 0 (memory, st) =
    (Done (total_length pieces),
     (scatter pieces (subarray (disk st) offset (offset + total_length pieces)) memory, st'))
    ∧ disk st' = disk st).
  { destruct (read_loop_spec offset pieces 0 memory st) as (st'&E&Hd); [done|done|lia|lia|].
    rewrite Z.add_0_l, Z.add_0_r in E. eauto. }
  assert (Hvec : ∀ readv, st_readv sto = Some readv →
    ∃ st', read_vectored readv offset pieces (memory, st) =
    (Done (total_length pieces),
     (scatter pieces (subarray (disk st) offset (offset + total_length pieces)) memory, st'))
    ∧ disk st' = disk st).
  { intros readv Hv. pose proof (zlen_gather _ _ Hr) as Hz. unfold gather in Hz.
    destruct (law_readv readv offset (seg_bytes memory <$> pieces) st) as (st'&data&E&Hd&Hlen&Hc);
      [done|done|lia|]. exists st'; split; [|done].
    unfold read_vectored, mbind, M_bind, get_state, on_storage. simpl. rewrite E. simpl.
    rewrite Hz in *. do 2 f_equal. rewrite seg_set_all_scatter; [by rewrite Hc|].
    rewrite Hlen, <- list_fmap_compose. apply list_fmap_ext. intros i s Hi. simpl.
    rewrite Forall_forall in Hr. specialize (Hr s (list_elem_of_lookup_2 _ _ _ Hi)).
    pose proof (zlen_seg_bytes _ _ Hr). unfold zlen in *; lia. }
  destruct pieces as [|p1 [|p2 rest]]; [cbn in Hpos; lia| |].
  - apply Forall_cons in Hr as [Hp _]. rewrite total_length_cons in *. cbn [total_length fmap list_fmap sum_list_z foldr] in *.
    destruct (read_single_spec offset p1 memory st) as (st'&E&Hd); [done|done|cbn in *; lia|].
    exists st'; split; [|done]. rewrite E. cbn. rewrite Z.add_0_r. do 3 f_equal.
    rewrite take_ge; [done|]. destruct Hp as (?&?&?).
    assert (zlen (subarray (disk st) offset (offset + sg_len p1)) = sg_len p1)
      by (rewrite zlen_subarray; cbn in *; lia). unfold zlen in *; lia.
  - destruct (st_readv sto) as [readv|] eqn:Hv; simpl; [by apply Hvec|done].
Qed.

Lemma transfer_write write offset segs memory st :
  st_write sto = Some write →
  Forall (seg_ok (zlen memory)) segs → 0 ≤ offset → 0 < total_length segs →
  offset + total_length segs ≤ zlen (disk st) →
  ∃ st', transfer offset segs (write_single write) (write_vectored <$> st_writev sto) (memory, st) =
    (Done (total_length segs), (memory, st')) ∧
    disk st' = splice (disk st) (Z.to_nat offset) (gather segs memory).
Proof.
  intros Hw Hs Ho Hpos Hl. destruct (runs_spec segs memory Hs) as (Hr&Ht&Hg&_).
  rewrite <- Hg. unfold transfer. rewrite <- Ht in *. clear Hs Ht Hg. revert Hr Hpos Hl.
  generalize (runs segs) as pieces; clear segs; intros pieces Hr Hpos Hl.
  pose proof (zlen_gather _ _ Hr) as Hz.
  destruct pieces as [|p1 [|p2 rest]]; [cbn in Hpos; lia| |].
  - apply Forall_cons in Hr as [Hp _]. pose proof (zlen_seg_bytes _ _ Hp) as Hb.
    rewrite total_length_cons in *. change (total_length []) with 0 in *.
    destruct (law_write write offset (seg_bytes memory p1) st) as (st'&E&Hd); [done|done|lia|].
    exists st'. unfold write_single, mbind, M_bind, get_state, on_storage. simpl. rewrite E, Hb.
    unfold gather; simpl. rewrite app_nil_r, Z.add_0_r. done.
  - destruct (st_writev sto) as [writev|] eqn:Hv; cbn [fmap option_fmap option_map].
    + unfold gather in Hz.
      destruct (law_writev writev offset (seg_bytes memory <$> p1 :: p2 :: rest) st) as (st'&E&Hd);
        [done|done|lia|].
      exists st'. unfold write_vectored, mbind, M_bind, get_state, on_storage. simpl in *.
      rewrite E, Hz. done.
    + destruct (write_loop_spec write offset (p1 :: p2 :: rest) 0 memory st) as (st'&E&Hd);
        [done|done|done|lia|lia|].
      rewrite Z.add_0_l, Z.add_0_r in *. by exists st'.
Qed.
End transfers.

(** * The abstract device

    A disk of [capacity / 512] sectors; a request's answer is a status, a byte
    count, and the new contents of memory and disk. *)
Definition request_valid (capacity sector : Z) (segs : list segment) : bool :=
  ((zlen segs <=? 128) && (sector * 512 + total_length segs <=? capacity / 512 * 512))%bool.

Definition disk_request (capacity : Z) (writable flushes : bool) (type sector : Z)
    (segs : list segment) (memory disk : list Z) : Z * Z * list Z * list Z :=
  let start := sector * 512 in
  let length := total_length segs in
  if type =? 0 then
    if request_valid capacity sector segs
    then (0, length, scatter segs (subarray disk start (start + length)) memory, disk)
    else (1, 0, memory, disk)
  else if type =? 1 then
    if negb writable then (2, 0, memory, disk)
    else if request_valid capacity sector segs
    then (0, 0, memory, splice disk (Z.to_nat start) (gather segs memory))
    else (1, 0, memory, disk)
  else if type =? 4 then (if flushes then 0 else 2, 0, memory, disk)
  else if type =? 8 then (0, 0, memory, disk)
  else (2, 0, memory, disk).

Definition has_op {A} (o : option A) : bool := if o is Some _ then true else false.

Lemma total_0_segs size segs :
  Forall (seg_ok size) segs → total_length segs = 0 → Forall (fun s => sg_len s = 0) segs.
Proof.
  induction 1 as [|s segs (?&?&?) Hs IH]; [constructor|]. rewrite total_length_cons. intros.
  pose proof (total_length_nonneg _ _ Hs). constructor; [lia|apply IH; lia].
Qed.
Lemma scatter_0 segs data memory : Forall (fun s => sg_len s = 0) segs → scatter segs data memory = memory.
Proof.
  intros H. revert data memory. induction H as [|s segs Hs _ IH]; intros; [done|]. cbn [scatter].
  rewrite Hs, IH, take_0. apply splice_nil.
Qed.

Section requests.
Context {St : Type} (sto : storage St) (disk : St → list Z) `{!StorageLaws sto disk}.

(** A request chain as the virtio specification wants it. *)
Record request_ok (memory : list Z) (header status : segment) (data : list vdesc)
    (type sector : Z) : Prop := {
  ro_data : Forall (seg_ok (zlen memory)) (vd_seg <$> data);
  ro_header : sg_len header = 16;
  ro_fields : ∃ reserved, seg_bytes memory header =
    enc BlockDeviceRequest (Obj [("type", Num type); ("reserved", Num reserved); ("sector", Num sector)])
    ∧ typed BlockDeviceRequest
        (Obj [("type", Num type); ("reserved", Num reserved); ("sector", Num sector)]) = true;
  ro_status : sg_len status = 1;
  ro_in : type = 0 → forallb vd_writable data = true;
  ro_out : type = 1 → forallb (fun d => negb (vd_writable d)) data = true }.

#[local] Arguments transfer : simpl never.
#[local] Arguments read_vectored : simpl never.
#[local] Arguments write_vectored : simpl never.

Lemma dispatch_refines request data memory st type sector :
  request.["type"] = type → request.["sector"] = sector → 0 ≤ sector →
  Forall (seg_ok (zlen memory)) (vd_seg <$> data) →
  (type = 0 → forallb vd_writable data = true) →
  (type = 1 → forallb (fun d => negb (vd_writable d)) data = true) →
  let '(status, n, memory', disk') :=
    disk_request (st_capacity sto) (has_op (st_write sto)) (has_op (st_flush sto))
      type sector (vd_seg <$> data) memory (disk st) in
  ∃ st', dispatch sto request data (memory, st) = (Done (status, n), (memory', st')) ∧ disk st' = disk'.
Proof.
  intros Ht Hsec Hs Hsegs Hin Hout. pose proof (law_capacity (sto:=sto) st) as Hcap.
  set (segs := vd_seg <$> data) in *.
  assert (Hv : (zlen data <=? SEG_MAX) && (sector * 512 + total_length segs <=? device_capacity sto) =
    request_valid (st_capacity sto) sector segs).
  { unfold request_valid. f_equal. unfold zlen, segs. by rewrite length_fmap. }
  unfold dispatch. rewrite Ht, Hsec. fold segs. rewrite Hv. unfold disk_request.
  unfold REQUEST_IN, REQUEST_OUT, REQUEST_FLUSH, REQUEST_GET_ID.
  pose proof (total_length_nonneg _ _ Hsegs) as Hn.
  assert (Hroom : request_valid (st_capacity sto) sector segs = true →
    sector * 512 + total_length segs ≤ zlen (disk st)).
  { unfold request_valid. intros H. zbool. pose proof (Z.mul_div_le (st_capacity sto) 512). lia. }
  assert (H0 : total_length segs = 0 → Forall (fun s => sg_len s = 0) segs) by by eapply total_0_segs.
  destruct (Z.eqb_spec type 0) as [->|]; [|destruct (Z.eqb_spec type 1) as [->|]].
  - unfold request_in, mbind, M_bind, assert_m, lift. fold segs. rewrite Hin by done. simpl.
    destruct (request_valid _ _ _) eqn:Hval; simpl; [|by eexists].
    destruct (Z.eqb_spec (total_length segs) 0) as [Hz|Hz].
    + rewrite scatter_0, Hz by auto. by eexists.
    + destruct (transfer_read sto disk (sector * 512) segs memory st) as (st'&E&Hd); [done|lia|lia|auto|].
      rewrite E, Z.eqb_refl. by eexists.
  - unfold request_out, mbind, M_bind, assert_m, lift. fold segs. rewrite Hout by done. simpl.
    destruct (st_write sto) as [write|] eqn:Hw; simpl; [|by eexists].
    destruct (request_valid _ _ _) eqn:Hval; simpl; [|by eexists].
    destruct (Z.eqb_spec (total_length segs) 0) as [Hz|Hz].
    + exists st. split; [done|]. pose proof (zlen_gather _ _ Hsegs) as Hg. rewrite Hz in Hg.
      rewrite (zlen_0_nil _ Hg). by rewrite splice_nil.
    + destruct (transfer_write sto disk write (sector * 512) segs memory st) as (st'&E&Hd);
        [done|done|lia|lia|auto|].
      rewrite E, Z.eqb_refl. by eexists.
  - destruct (type =? 4); [|destruct (type =? 8); by eexists].
    unfold request_flush. destruct (st_flush sto) as [flush|] eqn:Hf; simpl; [|by eexists].
    destruct (law_flush flush st Hf) as (st'&E&Hd). unfold mbind, M_bind, on_storage. rewrite E.
    by eexists.
Qed.
End requests.

(** C7: a request does to guest memory and to storage what the abstract disk
    does. Whatever the type, whatever way the guest cut its data into
    descriptors and whichever optional calls the storage has, the bytes read
    land in the data descriptors in order, the bytes written land on the disk
    at the sector, a request outside the advertised sectors or with more than
    128 segments touches neither, and the status byte and the byte count say
    which it was. *)
Theorem request_refines_disk {St} (sto : storage St) (disk : St → list Z) `{!StorageLaws sto disk}
    memory st header status data type sector :
  request_ok memory header status data type sector →
  let '(code, n, memory', disk') :=
    disk_request (st_capacity sto) (has_op (st_write sto)) (has_op (st_flush sto))
      type sector (vd_seg <$> data) memory (disk st) in
  ∃ st', request sto (VDesc header false :: data ++ [VDesc status true]) (memory, st) =
      (Done n, (<[Z.to_nat (sg_addr status) := code]> memory', st')) ∧
    disk st' = disk'.
Proof.
  intros [Hdata Hh (reserved&Hf&Htyped) Hst Hin Hout].
  set (v := Obj _) in Htyped.
  assert (Hsec : 0 ≤ sector).
  { unfold v in Htyped. cbn in Htyped. zbool. lia. }
  pose proof (dispatch_refines sto disk v data memory st type sector) as Hd.
  destruct (disk_request _ _ _ _ _ _ _ _) as [[[code n] memory'] disk'].
  destruct Hd as (st'&E&Hd); auto. exists st'; split; [|done].
  unfold request. cbn [head tail]. rewrite app_comm_cons, last_snoc, removelast_last.
  cbn [vd_writable vd_seg]. rewrite Hh, Hst. unfold mbind, M_bind, assert_m, lift, get_state. simpl.
  rewrite Hf. pose proof (struct_read_enc BlockDeviceRequest v [] Htyped) as Hr.
  rewrite app_nil_r in Hr. fold v. rewrite Hr. cbn. by rewrite E.
Qed.

(** A storage that keeps 1024 bytes in memory. *)
Definition ram_disk (st : list Z) : list Z := resize 1024 0 st.
Definition ram_storage : storage (list Z) :=
  Storage
    (fun at_ target st => (Done (zlen target, subarray (ram_disk st) at_ (at_ + zlen target)), st))
    (Some (fun at_ data st => (Done (zlen data), splice (ram_disk st) (Z.to_nat at_) data)))
    None None (Some (fun st => (Done tt, st))) 1024.

Lemma length_ram_disk st : length (ram_disk st) = 1024%nat.
Proof. apply length_resize. Qed.

Lemma ram_disk_id st : length st = 1024%nat → ram_disk st = st.
Proof. intros H. unfold ram_disk. rewrite <- H. apply resize_all. Qed.
#[local] Opaque ram_disk.

#[export] Instance ram_storage_laws : StorageLaws ram_storage ram_disk.
Proof.
  split; simpl; try done.
  - intros st. pose proof (length_ram_disk st). unfold zlen. lia.
  - intros at_ target st ??. by exists st.
  - intros write at_ data st [= <-] ??. eexists; split; [done|].
    apply ram_disk_id. pose proof (length_ram_disk st). unfold zlen in *.
    rewrite length_splice; lia.
  - intros flush st [= <-]. by eexists.
Qed.

#[local] Transparent ram_disk.

Definition sample_request : list Z :=
  enc BlockDeviceRequest (Obj [("type", Num 1); ("reserved", Num 0); ("sector", Num 1)]).

(** The header at 0, data at 16 and 20 written from the back, the status at 24. *)
Lemma request_refines_disk_witness :
  let data := [VDesc (Seg 20 4) false; VDesc (Seg 16 4) false] in
  ∃ st', request ram_storage (VDesc (Seg 0 16) false :: data ++ [VDesc (Seg 24 1) true])
      (sample_request ++ [1; 2; 3; 4; 5; 6; 7; 8; 9], []) =
    (Done 0, (sample_request ++ [1; 2; 3; 4; 5; 6; 7; 8; 0], st')) ∧
    ram_disk st' = splice (zeros 1024) 512 [5; 6; 7; 8; 1; 2; 3; 4].
Proof.
  assert (H : request_ok (sample_request ++ [1; 2; 3; 4; 5; 6; 7; 8; 9]) (Seg 0 16) (Seg 24 1)
    [VDesc (Seg 20 4) false; VDesc (Seg 16 4) false] 1 1).
  { constructor; [|reflexivity| |reflexivity|discriminate|reflexivity].
    - apply Forall_cons_2; [|apply Forall_cons_2; [|apply Forall_nil_2]];
        vm_compute; repeat split; discriminate.
    - exists 0. split; vm_compute; reflexivity. }
  exact (request_refines_disk ram_storage ram_disk (sample_request ++ [1; 2; 3; 4; 5; 6; 7; 8; 9]) []
    (Seg 0 16) (Seg 24 1) [VDesc (Seg 20 4) false; VDesc (Seg 16 4) false] 1 1 H).
Defined.

(** * Flushes and the writes before them *)
Record block_queue_ok (q : block_queue) : Prop := {
  bk_old i p : bq_phase q !! i = Some p → (i < bq_next q)%nat;
  bk_write w : w ∈ bq_was_write q →
    bq_phase q !! w = Some Settled ∨ bq_phase q !! w = Some Writing ∧ w ∈ bq_writes q;
  bk_waiting i ws w : bq_phase q !! i = Some (FlushWaiting ws) → w ∈ bq_was_write q → (w < i)%nat →
    bq_phase q !! w = Some Settled ∨ w ∈ ws;
  bk_flushing i w : bq_phase q !! i = Some Flushing → w ∈ bq_was_write q → (w < i)%nat →
    bq_phase q !! w = Some Settled }.

Lemma block_queue_ok_step q q' : block_step q q' → block_queue_ok q → block_queue_ok q'.
Proof.
  intros Hstep [Hold Hw Hwait Hflush].
  assert (Hfresh : bq_phase q !! bq_next q = None).
  { destruct (bq_phase q !! bq_next q) eqn:E; [|done]. apply Hold in E. lia. }
  assert (Hlt : ∀ w, w ∈ bq_was_write q → (w < bq_next q)%nat).
  { intros w Hin. destruct (Hw w Hin) as [E|[E _]]; by apply Hold in E. }
  destruct Hstep; constructor; simpl.
  all: intros *; rewrite ?lookup_insert; repeat case_decide; simplify_eq; intros; simplify_eq.
  all: try (match goal with H : _ !! ?i = Some _ |- (?i < _)%nat => apply Hold in H; lia end).
  all: try lia; try done.
  all: try match goal with H : ?w ∈ bq_was_write _ |- _ => pose proof (Hlt w H); pose proof (Hw w H) end.
  all: try solve [destruct_or?; destruct_and?; simplify_eq; eauto with lia].
  all: try match goal with H : _ !! ?i = Some (FlushWaiting _), Hlt : (bq_next _ < ?i)%nat |- _ =>
      apply Hold in H; lia end.
  all: try match goal with H : _ !! ?i = Some Flushing, Hlt : (bq_next _ < ?i)%nat |- _ =>
      apply Hold in H; lia end.
  - right. split; [done|set_solver].
  - assert (w ∈ bq_was_write q) as Hin by set_solver. destruct (Hw w Hin) as [?|[??]]; [by left|].
    right. split; [done|set_solver].
  - assert (w ∈ bq_was_write q) as Hin by set_solver. eauto.
  - assert (w ∈ bq_was_write q) as Hin by set_solver. eauto.
  - destruct_or?; [by left|right]. set_solver.
  - edestruct Hwait as [?|?]; [eassumption..|done|]. eauto.
Qed.

Lemma block_queue_ok_reachable q : rtc block_step block_queue_new q → block_queue_ok q.
Proof.
  intros H. assert (H0 : block_queue_ok block_queue_new).
  { constructor; simpl; [|set_solver|set_solver|set_solver]. intros i p. by rewrite lookup_empty. }
  revert H0. induction H as [|q1 q2 q3 Hs _ IH]; [done|]. intros Hq.
  apply IH. by eapply block_queue_ok_step.
Qed.

(** A flush reaches the storage only after every write requested before it
    has settled, however the storage calls in flight interleave. *)
Theorem flush_after_writes q i writes w :
  rtc block_step block_queue_new q →
  bq_phase q !! i = Some (FlushWaiting writes) →
  block_step q (BlockQueue (bq_next q) (<[i := Flushing]> (bq_phase q)) (bq_was_write q) (bq_writes q)) →
  w ∈ bq_was_write q → (w < i)%nat → bq_phase q !! w = Some Settled.
Proof.
  intros Hr Hi Hs Hw Hlt. apply block_queue_ok_reachable in Hr. apply (block_queue_ok_step _ _ Hs) in Hr.
  pose proof (bk_flushing _ Hr i w) as H. simpl in H. rewrite lookup_insert_eq in H.
  specialize (H eq_refl Hw Hlt). rewrite lookup_insert_ne in H by lia. done.
Qed.

(** Two writes; a flush; the second write settles first; then the first. *)
Definition flush_waiting : block_queue :=
  BlockQueue 3 {[0%nat := Settled; 1%nat := Settled; 2%nat := FlushWaiting {[0%nat; 1%nat]}]} {[0%nat; 1%nat]} ∅.

Lemma flush_waiting_reachable : rtc block_step block_queue_new flush_waiting.
Proof.
  eapply rtc_l; [apply start_write|]. eapply rtc_l; [apply start_write|].
  eapply rtc_l; [apply start_flush|].
  eapply rtc_l; [apply (settle_write _ 1); reflexivity|].
  eapply rtc_l; [apply (settle_write _ 0); reflexivity|].
  match goal with |- rtc _ ?a ?b => assert (a = b) as -> by (vm_compute; reflexivity) end.
  apply rtc_refl.
Qed.

Lemma flush_after_writes_witness : bq_phase flush_waiting !! 1%nat = Some Settled.
Proof.
  apply (flush_after_writes flush_waiting 2 {[0%nat; 1%nat]} 1 flush_waiting_reachable).
  - reflexivity.
  - apply (issue_flush _ _ {[0%nat; 1%nat]}); [reflexivity|].
    intros w. rewrite elem_of_union, !elem_of_singleton. intros [->| ->]; reflexivity.
  - apply elem_of_union_r, elem_of_singleton_2; reflexivity.
  - lia.
Defined.
