(* ===== verification/Ipv4.v ===== *)
(** IPv4 and the layers below and above it, as byte strings: addresses,
    checksums, packets, segments and datagrams of
    packages/linux-guest/src/network.ts. *)
From S2P Require Export Bytes Text.

(** * Constants and headers *)
Definition GATEWAY_MAC : list Z := [0x02; 0; 0; 0; 0; 1].
Definition TCP_MSS : Z := 1200.
Definition TCP_RECEIVE_WINDOW : Z := 0xffff.
Definition ETHERNET_MTU : Z := 1500.
Definition MAX_IP_REASSEMBLIES : Z := 64.
Definition MAX_IP_FRAGMENTS : Z := 64.
Definition TYPE_IPv4 : Z := 0x0800.
Definition TYPE_ARP : Z := 0x0806.
Definition PROTO_TCP : Z := 6.
Definition PROTO_UDP : Z := 17.
Definition FIN : Z := 0x01.
Definition SYN : Z := 0x02.
Definition RST : Z := 0x04.
Definition PSH : Z := 0x08.
Definition ACK : Z := 0x10.

Definition Mac : ty := FixedArray U8 6.
Definition EthernetHeader : ty :=
  Struct [("destination", Mac); ("source", Mac); ("type", U16BE)].
Definition Ipv4Header : ty :=
  Struct [("version_and_header_length", U8); ("type_of_service", U8); ("total_length", U16BE);
          ("identification", U16BE); ("flags_and_fragment_offset", U16BE); ("time_to_live", U8);
          ("protocol", U8); ("header_checksum", U16BE); ("source", U32BE); ("destination", U32BE)].
Definition TcpHeader : ty :=
  Struct [("source_port", U16BE); ("destination_port", U16BE); ("sequence", U32BE);
          ("acknowledgement", U32BE); ("data_offset", U8); ("flags", U8); ("window", U16BE);
          ("header_checksum", U16BE); ("urgent_pointer", U16BE)].
Definition TcpPseudoHeader : ty :=
  Struct [("source", U32BE); ("destination", U32BE); ("zero", U8); ("protocol", U8); ("length", U16BE)].
Definition UdpHeader : ty :=
  Struct [("source_port", U16BE); ("destination_port", U16BE); ("length", U16BE);
          ("header_checksum", U16BE)].

Definition ethernet_size : Z := ty_size EthernetHeader.
Definition ipv4_size : Z := ty_size Ipv4Header.
Definition tcp_size : Z := ty_size TcpHeader.
Definition udp_size : Z := ty_size UdpHeader.
Definition MAX_IP_PAYLOAD : Z := 0xffff - ipv4_size.
Definition IP_FRAGMENT_PAYLOAD : Z := (ETHERNET_MTU - ipv4_size) / 8 * 8.

(** * Addresses *)

(** The decimal text of a number below 1000. *)
Definition decimal (n : Z) : text :=
  (if 100 <=? n then [48 + n / 100] else []) ++
  (if 10 <=? n then [48 + n / 10 mod 10] else []) ++ [48 + n mod 10].

(** [Number(part)] when it is a byte whose text is [part] again: the only case
    the source accepts. *)
Definition number_part (part : text) : option Z :=
  list_find (fun b => decimal b = part) (seqZ 0 256) ≫= fun p => Some p.2.

Fixpoint ipv4_parts (parts : list text) (result : Z) : outcome Z :=
  match parts with
  | [] => Done result
  | part :: parts =>
      match number_part part with
      | None => Raise (JsTypeError "invalid IPv4 address")
      | Some byte => ipv4_parts parts (to_i32 ((result <<< 8) ||| byte))
      end
  end.

Definition ipv4_number (address : text) : outcome Z :=
  let parts := split_text 46 address in
  if negb (zlen parts =? 4) then Raise (JsTypeError "invalid IPv4 address") else
  result ← ipv4_parts parts 0; mret (to_u32 result).

Definition ipv4_string (address : Z) : text :=
  join [46] (decimal <$> [address >>> 24; (address >>> 16) &&& 255; (address >>> 8) &&& 255;
                          address &&& 255]).

Definition GATEWAY_ADDRESS : text := lit "192.0.2.1".
Definition GATEWAY_IP : Z := 3221225985.

(** * Checksums *)

(** The loops over the parts and their bytes, [high] carried across parts. *)
Fixpoint checksum_bytes (bytes : list Z) (sum : Z) (high : option Z) : Z * option Z :=
  match bytes with
  | [] => (sum, high)
  | byte :: bytes =>
      match high with
      | None => checksum_bytes bytes sum (Some byte)
      | Some h => checksum_bytes bytes (sum + ((h <<< 8) ||| byte)) None
      end
  end.
Fixpoint checksum_parts (parts : list (list Z)) (sum : Z) (high : option Z) : Z * option Z :=
  match parts with
  | [] => (sum, high)
  | part :: parts =>
      let '(sum, high) := checksum_bytes part sum high in checksum_parts parts sum high
  end.

(** [while (sum >>> 16) sum = (sum & 0xffff) + (sum >>> 16)], with fuel: two
    rounds bring any 32-bit sum below 2^16. *)
Fixpoint fold_sum (fuel : nat) (sum : Z) : outcome Z :=
  if to_u32 sum >>> 16 =? 0 then Done sum else
  match fuel with
  | O => Loops
  | S fuel => fold_sum fuel ((to_u32 sum &&& 0xffff) + (to_u32 sum >>> 16))
  end.

Definition checksum (parts : list (list Z)) : outcome Z :=
  let '(sum, high) := checksum_parts parts 0 None in
  let sum := match high with Some h => sum + (h <<< 8) | None => sum end in
  sum ← fold_sum 3 sum;
  mret (Z.lnot sum &&& 0xffff).

(** * Frames *)
Definition macs (l : list Z) : value := Arr (Num <$> l).

Definition ip_packet (destination_mac : list Z) (source_ip destination_ip protocol : Z)
    (payload : list Z) (identification flags_and_fragment_offset : Z) : outcome (list Z) :=
  let '(o, b) := (
    emit EthernetHeader (Obj [("destination", macs destination_mac); ("source", macs GATEWAY_MAC);
                              ("type", Num TYPE_IPv4)]) ;;
    allocated ← alloc Ipv4Header;
    alloc_set Ipv4Header allocated (Obj [
      ("version_and_header_length", Num 0x45); ("type_of_service", Num 0);
      ("total_length", Num (ipv4_size + zlen payload)); ("identification", Num identification);
      ("flags_and_fragment_offset", Num flags_and_fragment_offset); ("time_to_live", Num 64);
      ("protocol", Num protocol); ("header_checksum", Num 0); ("source", Num source_ip);
      ("destination", Num destination_ip)]) ;;
    frame ← gets array;
    header_checksum ← lift (checksum [subarray frame ethernet_size (ethernet_size + ipv4_size)]);
    alloc_set Ipv4Header allocated (Obj [("header_checksum", Num header_checksum)]) ;;
    append payload) (bytes_new (ethernet_size + ipv4_size + zlen payload)) in
  o ;; mret (array b).

(** The frames of [send_ip], in the order they are sent. The loop advances by
    [IP_FRAGMENT_PAYLOAD], so the payload's length is fuel enough. *)
Fixpoint ip_fragments (fuel : nat) (destination_mac : list Z)
    (source_ip destination_ip protocol : Z) (payload : list Z) (identification offset : Z) :
    outcome (list (list Z)) :=
  if offset <? zlen payload then
    match fuel with
    | O => Loops
    | S fuel =>
        let end_ := Z.min (offset + IP_FRAGMENT_PAYLOAD) (zlen payload) in
        frame ← ip_packet destination_mac source_ip destination_ip protocol
          (subarray payload offset end_) identification
          ((if end_ <? zlen payload then 0x2000 else 0) ||| (offset / 8));
        frames ← ip_fragments fuel destination_mac source_ip destination_ip protocol payload
          identification (offset + IP_FRAGMENT_PAYLOAD);
        mret (frame :: frames)
    end
  else Done [].

(** [send_ip] on the identifier counter: what it sends. *)
Definition send_ip (destination_mac : list Z) (source_ip destination_ip protocol : Z)
    (payload : list Z) : M Z (list (list Z)) :=
  if MAX_IP_PAYLOAD <? zlen payload then throw (RangeError "IPv4 payload is too large") else
  ip_identifier ← get_state;
  put_state (ip_identifier + 1) ;;
  let identification := to_i32 ip_identifier &&& 0xffff in
  if zlen payload <=? IP_FRAGMENT_PAYLOAD then
    frame ← lift (ip_packet destination_mac source_ip destination_ip protocol payload
                    identification 0x4000);
    mret [frame]
  else
    lift (ip_fragments (length payload) destination_mac source_ip destination_ip protocol payload
            identification 0).

(** * Parsing *)
Record ip_fragment := IpFragment {
  if_source : Z; if_destination : Z; if_protocol : Z; if_payload : list Z;
  if_identification : Z; if_header_length : Z; if_offset : Z; if_more : bool }.

Definition parse_ip (frame : list Z) : outcome (option ip_fragment) :=
  if zlen frame <? ethernet_size + ipv4_size then Done None else
  eth ← struct_read EthernetHeader frame;
  if negb (eth.["type"] =? TYPE_IPv4) then Done None else
  let bytes := subarray frame ethernet_size (zlen frame) in
  header ← struct_read Ipv4Header bytes;
  let header_length := (header.["version_and_header_length"] &&& 0x0f) * 4 in
  if (negb (header.["version_and_header_length"] >>> 4 =? 4)
      || (header_length <? ipv4_size) || (zlen bytes <? header_length))%bool then Done None else
  if ((header.["total_length"] <? header_length) || (zlen bytes <? header.["total_length"]))%bool
  then Done None else
  let payload := subarray bytes header_length header.["total_length"] in
  let offset := (header.["flags_and_fragment_offset"] &&& 0x1fff) * 8 in
  let more_fragments := negb (header.["flags_and_fragment_offset"] &&& 0x2000 =? 0) in
  if ((negb (offset =? 0) || more_fragments) && (zlen payload =? 0))%bool then Done None else
  if (more_fragments && negb (zlen payload mod 8 =? 0))%bool then Done None else
  if MAX_IP_PAYLOAD <? offset + zlen payload then Done None else
  Done (Some (IpFragment header.["source"] header.["destination"] header.["protocol"] payload
    header.["identification"] header_length offset more_fragments)).

Record tcp_parsed := TcpParsed {
  ts_source_port : Z; ts_destination_port : Z; ts_sequence : Z; ts_acknowledgement : Z;
  ts_flags : Z; ts_window : Z; ts_payload : list Z }.

Definition parse_tcp (payload : list Z) : outcome (option tcp_parsed) :=
  if zlen payload <? tcp_size then Done None else
  header ← struct_read TcpHeader payload;
  let header_length := (header.["data_offset"] >>> 4) * 4 in
  if ((header_length <? tcp_size) || (zlen payload <? header_length))%bool then Done None else
  Done (Some (TcpParsed header.["source_port"] header.["destination_port"] header.["sequence"]
    header.["acknowledgement"] header.["flags"] header.["window"]
    (subarray payload header_length (zlen payload)))).

Record udp_parsed := UdpParsed {
  ud_source_port : Z; ud_destination_port : Z; ud_payload : list Z }.

Definition parse_udp (payload : list Z) : outcome (option udp_parsed) :=
  if zlen payload <? udp_size then Done None else
  header ← struct_read UdpHeader payload;
  if ((header.["length"] <? udp_size) || (zlen payload <? header.["length"]))%bool then Done None else
  Done (Some (UdpParsed header.["source_port"] header.["destination_port"]
    (subarray payload udp_size header.["length"]))).

(** * Segments and datagrams *)
Definition tcp_segment (source_ip destination_ip source_port destination_port sequence
    acknowledgement flags : Z) (payload : list Z) (window : Z) : outcome (list Z) :=
  let '(o, pseudo) := emit TcpPseudoHeader (Obj [("source", Num source_ip);
      ("destination", Num destination_ip); ("zero", Num 0); ("protocol", Num PROTO_TCP);
      ("length", Num (tcp_size + zlen payload))]) (bytes_new (ty_size TcpPseudoHeader)) in
  o ;;
  let '(o, segment) := (
    header ← alloc TcpHeader;
    alloc_set TcpHeader header (Obj [("source_port", Num source_port);
      ("destination_port", Num destination_port); ("sequence", Num sequence);
      ("acknowledgement", Num acknowledgement); ("data_offset", Num (5 <<< 4));
      ("flags", Num flags); ("window", Num window); ("header_checksum", Num 0);
      ("urgent_pointer", Num 0)]) ;;
    append payload ;;
    segment ← gets array;
    header_checksum ← lift (checksum [array pseudo; segment]);
    alloc_set TcpHeader header (Obj [("header_checksum", Num header_checksum)]))
    (bytes_new (tcp_size + zlen payload)) in
  o ;; mret (array segment).

Definition udp_datagram (source_port destination_port : Z) (payload : list Z) : outcome (list Z) :=
  let '(o, datagram) := (
    emit UdpHeader (Obj [("source_port", Num source_port); ("destination_port", Num destination_port);
      ("length", Num (udp_size + zlen payload)); ("header_checksum", Num 0)]) ;;
    append payload) (bytes_new (udp_size + zlen payload)) in
  o ;; mret (array datagram).

(** * Checksums: the ones' complement sum *)
Fixpoint word_sum (l : list Z) : Z :=
  match l with
  | a :: b :: l => a * 256 + b + word_sum l
  | [a] => a * 256
  | [] => 0
  end.
(** The fold of a sum to 16 bits with end-around carry. *)
Definition fold16 (s : Z) : Z := if s =? 0 then 0 else (s - 1) mod 65535 + 1.

Lemma pair_ind {A} (P : list A → Prop) :
  P [] → (∀ a, P [a]) → (∀ a b l, P l → P (a :: b :: l)) → ∀ l, P l.
Proof.
  intros H0 H1 H2 l. assert (P l ∧ ∀ a, P (a :: l)) as [? _]; [|done].
  induction l as [|a l [IH1 IH2]]; [by split|]. split; [apply IH2|]. intros b. by apply H2.
Qed.

Lemma shift8_or h b : byte_ok b → (h <<< 8) ||| b = h * 256 + b.
Proof.
  unfold byte_ok; intros Hb. rewrite Z.shiftl_mul_pow2 by lia.
  assert (Hand : Z.land (h * 2 ^ 8) b = 0).
  { apply Z.bits_inj'; intros n Hn. rewrite Z.land_spec, Z.bits_0, Z.mul_pow2_bits by lia.
    destruct (Z.ltb_spec n 8); [rewrite (Z.testbit_neg_r h) by lia; done|].
    rewrite (Z.bits_above_log2 b n); [apply andb_false_r|lia|].
    destruct (decide (b = 0)) as [->|]; [simpl; lia|].
    assert (Z.log2 b < 8) by (apply Z.log2_lt_pow2; lia). lia. }
  rewrite <- Z.lxor_lor, <- Z.add_nocarry_lxor by done. done.
Qed.

Lemma checksum_bytes_spec l sum :
  bytes_ok l →
  (let '(s, h) := checksum_bytes l sum None in
   s + default 0 ((fun h => h * 256) <$> h)) = sum + word_sum l.
Proof.
  revert l sum. refine (pair_ind _ _ _ _); [intros; simpl; lia|intros; simpl; lia|].
  intros a b l IH sum Hok. apply Forall_cons in Hok as [_ [Hb Hok]%Forall_cons].
  cbn [checksum_bytes word_sum]. rewrite shift8_or by done. rewrite IH by done. lia.
Qed.

Lemma checksum_bytes_app l1 l2 sum high :
  checksum_bytes (l1 ++ l2) sum high =
    let '(s, h) := checksum_bytes l1 sum high in checksum_bytes l2 s h.
Proof.
  revert sum high; induction l1 as [|a l1 IH]; intros sum high; [done|].
  cbn [app checksum_bytes]. destruct high; apply IH.
Qed.
Lemma checksum_parts_concat parts sum high :
  checksum_parts parts sum high = checksum_bytes (concat parts) sum high.
Proof.
  revert sum high; induction parts as [|p parts IH]; intros; [done|].
  cbn [checksum_parts concat]. rewrite checksum_bytes_app.
  destruct (checksum_bytes p sum high). apply IH.
Qed.

Lemma fold16_mod s : 0 < s → fold16 s = (s - 1) mod 65535 + 1.
Proof. intros. unfold fold16. destruct (Z.eqb_spec s 0); lia. Qed.

Lemma fold_step s : 0 ≤ s < 2 ^ 32 →
  (to_u32 s &&& 0xffff) + (to_u32 s >>> 16) = s mod 65536 + s / 65536.
Proof.
  intros. rewrite to_u32_id by lia. change 0xffff with (Z.ones 16).
  by rewrite Z.land_ones, Z.shiftr_div_pow2 by lia.
Qed.

Lemma fold16_step s : 0 ≤ s → fold16 (s mod 65536 + s / 65536) = fold16 s.
Proof.
  intros Hs. pose proof (Z.div_mod s 65536). pose proof (Z.mod_pos_bound s 65536).
  pose proof (Z.div_pos s 65536). destruct (decide (s = 0)) as [->|]; [done|].
  rewrite !fold16_mod by lia. f_equal.
  replace (s - 1) with (s mod 65536 + s / 65536 - 1 + s / 65536 * 65535) by lia.
  by rewrite Z.mod_add.
Qed.

Lemma fold16_small s : 0 ≤ s < 65536 → fold16 s = s.
Proof. intros. unfold fold16. destruct (Z.eqb_spec s 0); [lia|]. rewrite Z.mod_small; lia. Qed.

Lemma fold_sum_S fuel s : 0 ≤ s < 2 ^ 32 →
  fold_sum (S fuel) s = if s <? 65536 then Done s else fold_sum fuel (s mod 65536 + s / 65536).
Proof.
  intros Hs. cbn [fold_sum]. rewrite fold_step by done. rewrite to_u32_id by lia.
  rewrite Z.shiftr_div_pow2 by lia. change (2 ^ 16) with 65536.
  pose proof (Z.div_mod s 65536). pose proof (Z.mod_pos_bound s 65536).
  destruct (Z.ltb_spec s 65536), (Z.eqb_spec (s / 65536) 0); try done.
  - rewrite Z.div_small in * by lia. lia.
  - lia.
Qed.

Lemma fold_sum_spec s : 0 ≤ s < 2 ^ 32 → fold_sum 3 s = Done (fold16 s).
Proof.
  intros Hs. rewrite fold_sum_S by done. destruct (Z.ltb_spec s 65536); [by rewrite fold16_small by lia|].
  pose proof (Z.div_mod s 65536). pose proof (Z.mod_pos_bound s 65536).
  assert (0 ≤ s / 65536 < 65536) by (split; [apply Z.div_pos|apply Z.div_lt_upper_bound]; lia).
  rewrite <- (fold16_step s) by lia. set (s1 := s mod 65536 + s / 65536) in *.
  rewrite fold_sum_S by lia. destruct (Z.ltb_spec s1 65536); [by rewrite fold16_small by lia|].
  assert (s1 / 65536 = 1) by (symmetry; apply (Z.div_unique_pos _ _ _ (s1 - 65536)); lia).
  pose proof (Z.div_mod s1 65536). rewrite <- (fold16_step s1) by lia.
  rewrite fold_sum_S by lia. destruct (Z.ltb_spec (s1 mod 65536 + s1 / 65536) 65536); [|lia].
  by rewrite fold16_small by lia.
Qed.

Lemma fold16_range s : 0 ≤ s → 0 ≤ fold16 s < 65536.
Proof.
  intros. unfold fold16. pose proof (Z.mod_pos_bound (s - 1) 65535). destruct (s =? 0); lia.
Qed.

Lemma lnot_ffff s : 0 ≤ s < 65536 → Z.lnot s &&& 0xffff = 65535 - s.
Proof.
  intros. change (Z.lnot s &&& 0xffff) with (Z.lnot s &&& Z.ones 16). rewrite Z.land_ones by lia. unfold Z.lnot.
  change (2 ^ 16) with 65536. symmetry. apply (Z.mod_unique_pos _ _ (-1)); lia.
Qed.

Lemma word_sum_bound l : bytes_ok l → 0 ≤ word_sum l ≤ 32768 * zlen l + 32768.
Proof.
  revert l. refine (pair_ind _ _ _ _); [done| |].
  - intros a [Ha _]%Forall_cons. unfold byte_ok in Ha. simpl word_sum. change (zlen [a]) with 1. lia.
  - intros a b l IH [Ha [Hb Hl]%Forall_cons]%Forall_cons. specialize (IH Hl).
    unfold byte_ok in *. cbn [word_sum]. rewrite !zlen_cons. lia.
Qed.

Lemma checksum_eq parts :
  bytes_ok (concat parts) → zlen (concat parts) ≤ 131000 →
  checksum parts = Done (65535 - fold16 (word_sum (concat parts))).
Proof.
  intros Hok Hl. pose proof (word_sum_bound _ Hok). unfold checksum.
  rewrite checksum_parts_concat. pose proof (checksum_bytes_spec _ 0 Hok) as Hs.
  destruct (checksum_bytes (concat parts) 0 None) as [s h].
  assert (match h with Some h => s + (h <<< 8) | None => s end = word_sum (concat parts)) as ->.
  { destruct h as [h|]; simpl in Hs; [|lia]. rewrite Z.shiftl_mul_pow2 by lia.
    change (2 ^ 8) with 256. lia. }
  rewrite fold_sum_spec by (pose proof (zlen_nonneg (concat parts)); lia).
  cbn [mbind outcome_bind mret outcome_ret]. rewrite lnot_ffff; [done|]. apply fold16_range. lia.
Qed.

Lemma word_sum_app l1 l2 :
  Nat.even (length l1) = true → word_sum (l1 ++ l2) = word_sum l1 + word_sum l2.
Proof.
  revert l1. refine (pair_ind _ _ _ _); [done|done|]. intros a b l IH He.
  cbn [app word_sum]. rewrite IH by done. lia.
Qed.

(** Filling in the checksum of a message makes the checksum of the result 0. *)
Lemma checksum_filled a c b :
  bytes_ok a → bytes_ok b → Nat.even (length a) = true → zlen a + zlen b ≤ 130000 →
  c = 65535 - fold16 (word_sum (a ++ [0; 0] ++ b)) →
  fold16 (word_sum (a ++ [c / 256; c mod 256] ++ b)) = 65535 ∧ byte_ok (c / 256) ∧ 0 ≤ c < 65536.
Proof.
  intros Ha Hb He Hl ->. rewrite !word_sum_app by done. cbn [app word_sum].
  pose proof (word_sum_bound _ Ha). pose proof (word_sum_bound _ Hb).
  match goal with |- context [65535 - fold16 ?t] =>
    replace t with (word_sum a + word_sum b) by lia end.
  remember (word_sum a + word_sum b) as s eqn:Hs. pose proof (fold16_range s ltac:(lia)).
  remember (65535 - fold16 s) as c eqn:Hcs. assert (Hc : 0 ≤ c < 65536) by lia.
  pose proof (Z.div_mod c 256 ltac:(lia)). 
  split; [|split; [split; [apply Z.div_pos|apply Z.div_lt_upper_bound]; lia|lia]].
  match goal with |- fold16 ?t = _ => replace t with (s + c) by lia end.
  assert (0 ≤ s) by lia. subst c. clear Hs. destruct (decide (s = 0)) as [->|E]; [done|].
  rewrite (fold16_mod s) by lia. pose proof (Z.div_mod (s - 1) 65535 ltac:(lia)).
  pose proof (Z.div_pos (s - 1) 65535 ltac:(lia) ltac:(lia)).
  pose proof (Z.mod_pos_bound (s - 1) 65535 ltac:(lia)).
  rewrite fold16_mod by lia.
  replace (s + (65535 - ((s - 1) mod 65535 + 1)) - 1) with (65534 + (s - 1) / 65535 * 65535) by lia.
  by rewrite Z.mod_add.
Qed.

(** * What the builders make *)
Definition eth_value (destination_mac source_mac : list Z) (type : Z) : value :=
  Obj [("destination", macs destination_mac); ("source", macs source_mac); ("type", Num type)].

Definition ipv4_value (source_ip destination_ip protocol len identification flags c : Z) : value :=
  Obj ([("version_and_header_length", Num 0x45); ("type_of_service", Num 0);
        ("total_length", Num (ipv4_size + len)); ("identification", Num identification);
        ("flags_and_fragment_offset", Num flags); ("time_to_live", Num 64);
        ("protocol", Num protocol)] ++
       ("header_checksum", Num c) :: [("source", Num source_ip); ("destination", Num destination_ip)]).

Definition mac_ok (m : list Z) : Prop := length m = 6%nat ∧ bytes_ok m.

Record ip_args_ok (destination_mac : list Z) (source_ip destination_ip protocol : Z)
    (payload : list Z) (identification flags : Z) : Prop := {
  ia_mac : mac_ok destination_mac;
  ia_source : 0 ≤ source_ip < 4294967296;
  ia_destination : 0 ≤ destination_ip < 4294967296;
  ia_protocol : 0 ≤ protocol < 256;
  ia_length : zlen payload ≤ MAX_IP_PAYLOAD;
  ia_identification : 0 ≤ identification < 65536;
  ia_flags : 0 ≤ flags < 65536 }.

Lemma typed_mac m : mac_ok m → typed Mac (macs m) = true.
Proof. intros [Hl Hb]. unfold Mac. rewrite <- Hl. by apply typed_bytes. Qed.

Lemma typed_eth d s t :
  mac_ok d → mac_ok s → 0 ≤ t < 65536 → typed EthernetHeader (eth_value d s t) = true.
Proof. intros. unfold EthernetHeader, eth_value. typed_struct; auto using typed_mac. Qed.

Lemma gateway_mac_ok : mac_ok GATEWAY_MAC.
Proof. split; [done|]. apply (bool_decide_unpack _). vm_compute. exact I. Qed.

Lemma typed_ipv4 mac source destination protocol payload identification flags c :
  ip_args_ok mac source destination protocol payload identification flags → 0 ≤ c < 65536 →
  typed Ipv4Header
    (ipv4_value source destination protocol (zlen payload) identification flags c) = true.
Proof.
  intros [_ ? ? ? Hl ? ?] ?. pose proof (zlen_nonneg payload).
  unfold MAX_IP_PAYLOAD in Hl. change ipv4_size with 20 in *.
  unfold Ipv4Header, ipv4_value. cbn [app]. typed_struct; try done; try lia.
  change ipv4_size with 20; lia.
Qed.

Definition ipv4_checksum (source destination protocol len identification flags : Z) : Z :=
  65535 - fold16 (word_sum (enc Ipv4Header
    (ipv4_value source destination protocol len identification flags 0))).

Lemma ip_packet_eq mac source destination protocol payload identification flags :
  ip_args_ok mac source destination protocol payload identification flags →
  let c := ipv4_checksum source destination protocol (zlen payload) identification flags in
  ip_packet mac source destination protocol payload identification flags =
    Done (enc EthernetHeader (eth_value mac GATEWAY_MAC TYPE_IPv4) ++
          enc Ipv4Header (ipv4_value source destination protocol (zlen payload) identification flags c) ++
          payload) ∧ 0 ≤ c < 65536.
Proof.
  intros Hok c. assert (Hm := ia_mac _ _ _ _ _ _ _ Hok).
  set (eth := enc EthernetHeader (eth_value mac GATEWAY_MAC TYPE_IPv4)).
  set (hdr := fun c => enc Ipv4Header
    (ipv4_value source destination protocol (zlen payload) identification flags c)).
  assert (Hte : typed EthernetHeader (eth_value mac GATEWAY_MAC TYPE_IPv4) = true)
    by (apply typed_eth; [done|apply gateway_mac_ok|done]).
  assert (Ht0 := typed_ipv4 _ _ _ _ _ _ _ 0 Hok ltac:(lia)).
  assert (Hb0 : bytes_ok (hdr 0)) by by apply bytes_ok_enc.
  assert (Hz0 : zlen (hdr 0) = 20) by by apply (zlen_enc Ipv4Header).
  assert (Hze : zlen eth = 14) by by apply (zlen_enc EthernetHeader).
  pose proof (word_sum_bound _ Hb0). pose proof (fold16_range (word_sum (hdr 0)) ltac:(lia)).
  assert (Hc : 0 ≤ c < 65536) by (unfold c, ipv4_checksum; fold (hdr 0); lia).
  split; [|done]. unfold ip_packet.
  destruct (builds_run (
    emit EthernetHeader (eth_value mac GATEWAY_MAC TYPE_IPv4) ;;
    allocated ← alloc Ipv4Header;
    alloc_set Ipv4Header allocated (ipv4_value source destination protocol (zlen payload)
      identification flags 0) ;;
    frame ← gets array;
    header_checksum ← lift (checksum [subarray frame ethernet_size (ethernet_size + ipv4_size)]);
    alloc_set Ipv4Header allocated (Obj [("header_checksum", Num header_checksum)]) ;;
    append payload) (ethernet_size + ipv4_size + zlen payload) tt (eth ++ hdr c ++ payload))
    as (b&E&Ha).
  - pose proof (zlen_nonneg payload). change ethernet_size with 14. change ipv4_size with 20. lia.
  - eapply builds_bind; [by apply builds_emit|]. rewrite app_nil_l. fold eth.
    eapply builds_bind; [apply builds_alloc|].
    eapply builds_bind; [apply builds_alloc_set; [done|apply zlen_nonneg|]|].
    { rewrite zlen_app, zlen_zeros by done. lia. }
    rewrite splice_alloc by done. fold (hdr 0).
    eapply builds_bind; [apply builds_gets_array|].
    assert (checksum [subarray (eth ++ hdr 0) ethernet_size (ethernet_size + ipv4_size)] = Done c) as ->.
    { replace (ethernet_size + ipv4_size) with (zlen (eth ++ hdr 0))
        by (rewrite zlen_app, Hze, Hz0; done).
      replace ethernet_size with (zlen eth) by done. rewrite subarray_app_r.
      rewrite checksum_eq; cbn [concat]; rewrite app_nil_r; [done|done|lia]. }
    eapply builds_bind; [apply builds_lift|].
    eapply builds_bind.
    { apply (builds_alloc_set_field _
        [("version_and_header_length", U8); ("type_of_service", U8); ("total_length", U16BE);
         ("identification", U16BE); ("flags_and_fragment_offset", U16BE); ("time_to_live", U8);
         ("protocol", U8)] "header_checksum" U16BE [("source", U32BE); ("destination", U32BE)]);
        [set_solver|set_solver|by apply typed_u16be|done|].
      rewrite zlen_app, Hze, Hz0. vm_compute. discriminate. }
    replace (splice (eth ++ hdr 0) _ _) with (eth ++ hdr c); [rewrite app_assoc; apply builds_append|].
    rewrite Hze. change (Z.to_nat (14 + layout_size _)) with (14 + 10)%nat.
    replace 14%nat with (length eth) by (unfold zlen in Hze; lia).
    rewrite splice_app_r. by f_equal.
  - unfold eth_value, ipv4_value in E. cbn [app] in E. rewrite E. cbn [mbind outcome_bind]. by rewrite Ha.
Qed.

(** The fragment a packet stands for, when the parser takes it. *)
Definition fragment_of (source destination protocol : Z) (payload : list Z)
    (identification flags : Z) : option ip_fragment :=
  let offset := (flags &&& 0x1fff) * 8 in
  let more := negb (flags &&& 0x2000 =? 0) in
  if (((negb (offset =? 0) || more) && (zlen payload =? 0))
      || (more && negb (zlen payload mod 8 =? 0))
      || (MAX_IP_PAYLOAD <? offset + zlen payload))%bool
  then None
  else Some (IpFragment source destination protocol payload identification 20 offset more).

Lemma parse_ip_packet mac source destination protocol payload identification flags c :
  ip_args_ok mac source destination protocol payload identification flags → 0 ≤ c < 65536 →
  parse_ip (enc EthernetHeader (eth_value mac GATEWAY_MAC TYPE_IPv4) ++
            enc Ipv4Header (ipv4_value source destination protocol (zlen payload) identification flags c) ++
            payload)
  = Done (fragment_of source destination protocol payload identification flags).
Proof.
  intros Hok Hc.
  assert (Hte : typed EthernetHeader (eth_value mac GATEWAY_MAC TYPE_IPv4) = true)
    by (apply typed_eth; [apply Hok|apply gateway_mac_ok|done]).
  assert (Hth := typed_ipv4 _ _ _ _ _ _ _ c Hok Hc).
  assert (Hze := zlen_enc _ _ Hte). assert (Hzh := zlen_enc _ _ Hth).
  change (ty_size EthernetHeader) with 14 in Hze. change (ty_size Ipv4Header) with 20 in Hzh.
  set (v := ipv4_value _ _ _ _ _ _ _) in *.
  set (eth := enc EthernetHeader _) in *. set (hdr := enc Ipv4Header v) in *.
  pose proof (zlen_nonneg payload). unfold parse_ip.
  change ethernet_size with 14. change ipv4_size with 20.
  rewrite !zlen_app, Hze, Hzh.
  assert ((14 + (20 + zlen payload) <? 14 + 20) = false) as -> by (apply Z.ltb_ge; lia).
  unfold eth. rewrite struct_read_enc by done. cbn [mbind outcome_bind].
  change ((eth_value mac GATEWAY_MAC TYPE_IPv4).["type"] =? TYPE_IPv4) with true. cbn [negb].
  fold eth.
  assert (subarray (eth ++ hdr ++ payload) 14 (14 + (20 + zlen payload)) = hdr ++ payload) as ->.
  { rewrite <- Hze, <- Hzh, <- !zlen_app. apply subarray_app_r. }
  unfold hdr. rewrite struct_read_enc by done. fold hdr. cbn [mbind outcome_bind].
  change (v.["version_and_header_length"]) with 0x45.
  change (v.["total_length"]) with (20 + zlen payload).
  change (v.["flags_and_fragment_offset"]) with flags.
  change (v.["source"]) with source. change (v.["destination"]) with destination.
  change (v.["protocol"]) with protocol. change (v.["identification"]) with identification.
  change ((0x45 &&& 0x0f) * 4) with 20. change (0x45 >>> 4 =? 4) with true.
  rewrite zlen_app, Hzh. cbn [negb orb].
  assert ((20 + zlen payload <? 20) = false) as -> by (apply Z.ltb_ge; lia).
  change (20 <? 20) with false. rewrite Z.ltb_irrefl. cbn [orb].
  assert (subarray (hdr ++ payload) 20 (20 + zlen payload) = payload) as ->.
  { rewrite <- Hzh, <- zlen_app. apply subarray_app_r. }
  unfold fragment_of. destruct ((_ || _) && _)%bool; [done|]. cbn [orb].
  destruct (_ && _)%bool; [done|]. cbn [orb]. by destruct (MAX_IP_PAYLOAD <? _).
Qed.

Lemma u16be_enc c : 0 ≤ c < 65536 → enc U16BE (Num c) = [c / 256; c mod 256].
Proof.
  intros Hc. cbn. change (2 ^ sc_bits _) with 65536. rewrite (Z.mod_small c 65536) by lia.
  rewrite (Z.mod_small (c / 256)); [done|].
  split; [apply Z.div_pos|apply Z.div_lt_upper_bound]; lia.
Qed.

(** The checksum field sits at an even place of the header. *)
Lemma ipv4_split source destination protocol len identification flags :
  ∃ pre post, length pre = 10%nat ∧ bytes_ok pre ∧ bytes_ok post ∧
    ∀ c, enc Ipv4Header (ipv4_value source destination protocol len identification flags c) =
         pre ++ enc U16BE (Num c) ++ post.
Proof.
  exists (enc (Struct [("version_and_header_length", U8); ("type_of_service", U8);
      ("total_length", U16BE); ("identification", U16BE); ("flags_and_fragment_offset", U16BE);
      ("time_to_live", U8); ("protocol", U8)])
    (Obj [("version_and_header_length", Num 0x45); ("type_of_service", Num 0);
        ("total_length", Num (ipv4_size + len)); ("identification", Num identification);
        ("flags_and_fragment_offset", Num flags); ("time_to_live", Num 64);
        ("protocol", Num protocol)])),
    (enc (Struct [("source", U32BE); ("destination", U32BE)])
      (Obj [("source", Num source); ("destination", Num destination)])).
  split; [done|]. split; [apply bytes_ok_enc|]. split; [apply bytes_ok_enc|]. reflexivity.
Qed.

(** An IPv4 packet the gateway sends has a header whose checksum verifies,
    and the parser reads back from it the addresses, protocol, identification,
    fragment offset and payload it was made from; it refuses exactly the
    fragments that would be empty, not a multiple of eight bytes with more to
    come, or past the largest datagram. *)
Theorem ip_packet_parses mac source destination protocol payload identification flags :
  ip_args_ok mac source destination protocol payload identification flags →
  ∃ frame, ip_packet mac source destination protocol payload identification flags = Done frame ∧
    checksum [subarray frame 14 34] = Done 0 ∧
    parse_ip frame = Done (fragment_of source destination protocol payload identification flags).
Proof.
  intros Hok. destruct (ip_packet_eq _ _ _ _ _ _ _ Hok) as [E Hc]. cbv zeta in E, Hc.
  set (c := ipv4_checksum _ _ _ _ _ _) in *. eexists; split; [exact E|].
  split; [|by apply parse_ip_packet].
  assert (Hte : typed EthernetHeader (eth_value mac GATEWAY_MAC TYPE_IPv4) = true)
    by (apply typed_eth; [apply Hok|apply gateway_mac_ok|done]).
  assert (Hth := typed_ipv4 _ _ _ _ _ _ _ c Hok Hc).
  assert (Hze := zlen_enc _ _ Hte). assert (Hzh := zlen_enc _ _ Hth).
  change (ty_size EthernetHeader) with 14 in Hze. change (ty_size Ipv4Header) with 20 in Hzh.
  assert (Hb := bytes_ok_enc Ipv4Header
    (ipv4_value source destination protocol (zlen payload) identification flags c)).
  set (eth := enc EthernetHeader _) in *. set (hdr := enc Ipv4Header _) in *.
  assert (subarray (eth ++ hdr ++ payload) 14 34 = hdr) as ->.
  { rewrite app_assoc. replace 34 with (zlen (eth ++ hdr)) by (rewrite zlen_app; lia).
    rewrite <- Hze. unfold subarray. rewrite !zlen_to_nat, drop_app_le by (rewrite length_app; lia).
    rewrite drop_app_length, take_app_le by (rewrite length_app; lia).
    rewrite take_ge; [done|]. rewrite length_app. lia. }
  rewrite checksum_eq; cbn [concat]; rewrite app_nil_r; [|done|lia].
  do 2 f_equal. destruct (ipv4_split source destination protocol (zlen payload) identification flags)
    as (pre&post&Hp&Hpre&Hpost&Hsplit).
  unfold hdr. rewrite (Hsplit c), u16be_enc by done.
  destruct (checksum_filled pre c post) as (->&_); [done|done|by rewrite Hp| |
    unfold c, ipv4_checksum; by rewrite (Hsplit 0), u16be_enc|done].
  pose proof (zlen_enc _ _ (typed_ipv4 _ _ _ _ _ _ _ 0 Hok ltac:(lia))) as Hz.
  rewrite (Hsplit 0) in Hz. change (ty_size Ipv4Header) with 20 in Hz. rewrite !zlen_app in Hz.
  pose proof (zlen_nonneg (enc U16BE (Num 0))). lia.
Qed.

Lemma ip_packet_parses_witness :
  ∃ frame, ip_packet [1; 2; 3; 4; 5; 6] 3221225985 3221225986 17 (replicate 8 7) 9 0x2001 = Done frame ∧
    checksum [subarray frame 14 34] = Done 0 ∧
    parse_ip frame =
      Done (Some (IpFragment 3221225985 3221225986 17 (replicate 8 7) 9 20 8 true)).
Proof.
  apply (ip_packet_parses [1; 2; 3; 4; 5; 6] 3221225985 3221225986 17 (replicate 8 7) 9 0x2001).
  constructor; try (vm_compute; split; discriminate || reflexivity); try (vm_compute; discriminate).
  split; [reflexivity|]. apply (bool_decide_unpack _). vm_compute. exact I.
Defined.

(** * TCP segments *)
Record tcp_args_ok (source_ip destination_ip source_port destination_port sequence
    acknowledgement flags : Z) (payload : list Z) (window : Z) : Prop := {
  ta_source : 0 ≤ source_ip < 4294967296;
  ta_destination : 0 ≤ destination_ip < 4294967296;
  ta_sport : 0 ≤ source_port < 65536;
  ta_dport : 0 ≤ destination_port < 65536;
  ta_seq : 0 ≤ sequence < 4294967296;
  ta_ack : 0 ≤ acknowledgement < 4294967296;
  ta_flags : 0 ≤ flags < 256;
  ta_length : zlen payload ≤ 65515;
  ta_bytes : bytes_ok payload;
  ta_window : 0 ≤ window < 65536 }.

Definition pseudo_value (source_ip destination_ip len : Z) : value :=
  Obj [("source", Num source_ip); ("destination", Num destination_ip); ("zero", Num 0);
       ("protocol", Num PROTO_TCP); ("length", Num (tcp_size + len))].
Definition tcp_value (source_port destination_port sequence acknowledgement flags window c : Z) : value :=
  Obj [("source_port", Num source_port); ("destination_port", Num destination_port);
       ("sequence", Num sequence); ("acknowledgement", Num acknowledgement);
       ("data_offset", Num (5 <<< 4)); ("flags", Num flags); ("window", Num window);
       ("header_checksum", Num c); ("urgent_pointer", Num 0)].

Lemma tcp_split sport dport seq ack flags window :
  ∃ pre post, length pre = 16%nat ∧ bytes_ok pre ∧ bytes_ok post ∧
    ∀ c, enc TcpHeader (tcp_value sport dport seq ack flags window c) =
         pre ++ enc U16BE (Num c) ++ post.
Proof.
  exists (enc (Struct [("source_port", U16BE); ("destination_port", U16BE); ("sequence", U32BE);
      ("acknowledgement", U32BE); ("data_offset", U8); ("flags", U8); ("window", U16BE)])
    (Obj [("source_port", Num sport); ("destination_port", Num dport); ("sequence", Num seq);
      ("acknowledgement", Num ack); ("data_offset", Num (5 <<< 4)); ("flags", Num flags);
      ("window", Num window)])),
    (enc (Struct [("urgent_pointer", U16BE)]) (Obj [("urgent_pointer", Num 0)])).
  split; [done|]. split; [apply bytes_ok_enc|]. split; [apply bytes_ok_enc|]. reflexivity.
Qed.

Section tcp.
Context (sip dip sport dport seq ack flags : Z) (payload : list Z) (window : Z).
Context (Hok : tcp_args_ok sip dip sport dport seq ack flags payload window).

Let pseudo := enc TcpPseudoHeader (pseudo_value sip dip (zlen payload)).
Let hdr c := enc TcpHeader (tcp_value sport dport seq ack flags window c).
Let c := 65535 - fold16 (word_sum (pseudo ++ hdr 0 ++ payload)).

Lemma typed_pseudo : typed TcpPseudoHeader (pseudo_value sip dip (zlen payload)) = true.
Proof using Hok.
  destruct Hok. pose proof (zlen_nonneg payload). unfold TcpPseudoHeader, pseudo_value.
  typed_struct; try done; change tcp_size with 20; unfold PROTO_TCP; lia.
Qed.
Lemma typed_tcp x : 0 ≤ x < 65536 →
  typed TcpHeader (tcp_value sport dport seq ack flags window x) = true.
Proof using Hok.
  destruct Hok. intros. unfold TcpHeader, tcp_value. typed_struct; try done.
Qed.
Lemma tcp_checksum_range : 0 ≤ c < 65536.
Proof using Hok.
  assert (bytes_ok (pseudo ++ hdr 0 ++ payload)) as Hb.
  { destruct Hok. rewrite !Forall_app. split_and!; [apply bytes_ok_enc|apply bytes_ok_enc|done]. }
  pose proof (word_sum_bound _ Hb). unfold c.
  pose proof (fold16_range (word_sum (pseudo ++ hdr 0 ++ payload)) ltac:(lia)). lia.
Qed.

Lemma zlen_hdr x : 0 ≤ x < 65536 → zlen (hdr x) = 20.
Proof using Hok. intros. by apply (zlen_enc TcpHeader), typed_tcp. Qed.

Lemma tcp_segment_eq :
  tcp_segment sip dip sport dport seq ack flags payload window = Done (hdr c ++ payload).
Proof using Hok.
  pose proof tcp_checksum_range as Hc. pose proof typed_pseudo as Htp.
  pose proof (typed_tcp 0 ltac:(lia)) as Ht0. pose proof (zlen_hdr 0 ltac:(lia)) as Hz0.
  unfold tcp_segment. pose proof (zlen_nonneg payload).
  destruct (builds_run (emit TcpPseudoHeader (pseudo_value sip dip (zlen payload)))
    (ty_size TcpPseudoHeader) 0 pseudo) as (bp&Ep&Hp); [done|by apply (builds_emit [])|].
  unfold pseudo_value in Ep. rewrite Ep. cbn [mbind outcome_bind].
  destruct (builds_run (
    header ← alloc TcpHeader;
    alloc_set TcpHeader header (tcp_value sport dport seq ack flags window 0) ;;
    append payload ;;
    segment ← gets array;
    header_checksum ← lift (checksum [array bp; segment]);
    alloc_set TcpHeader header (Obj [("header_checksum", Num header_checksum)]))
    (tcp_size + zlen payload) tt (hdr c ++ payload)) as (b&E&Ha).
  - change tcp_size with 20. lia.
  - eapply builds_bind; [apply builds_alloc|].
    eapply builds_bind; [apply builds_alloc_set; [done|done|by rewrite zlen_app, zlen_zeros]|].
    rewrite splice_alloc by done. rewrite app_nil_l. fold (hdr 0).
    eapply builds_bind; [apply builds_append|]. eapply builds_bind; [apply builds_gets_array|].
    assert (checksum [array bp; hdr 0 ++ payload] = Done c) as ->.
    { rewrite Hp. pose proof (zlen_enc _ _ Htp) as Hzp. fold pseudo in Hzp.
      change (ty_size TcpPseudoHeader) with 12 in Hzp.
      destruct Hok. rewrite checksum_eq; cbn [concat]; rewrite app_nil_r; [done| |].
      - rewrite !Forall_app. split_and!; [apply bytes_ok_enc|apply bytes_ok_enc|done].
      - rewrite !zlen_app. lia. }
    eapply builds_bind; [apply builds_lift|].
    replace (hdr c ++ payload) with (splice (hdr 0 ++ payload)
      (Z.to_nat (0 + layout_size [("source_port", U16BE); ("destination_port", U16BE);
        ("sequence", U32BE); ("acknowledgement", U32BE); ("data_offset", U8); ("flags", U8);
        ("window", U16BE)])) (enc U16BE (Num c))).
    + apply (builds_alloc_set_field _ [("source_port", U16BE); ("destination_port", U16BE);
        ("sequence", U32BE); ("acknowledgement", U32BE); ("data_offset", U8); ("flags", U8);
        ("window", U16BE)] "header_checksum" U16BE [("urgent_pointer", U16BE)]);
        [set_solver|set_solver|by apply typed_u16be|done|].
      rewrite zlen_app, Hz0. change (layout_size _) with 20. lia.
    + destruct (tcp_split sport dport seq ack flags window) as (pre&post&Hpl&_&_&Hsplit).
      unfold hdr. rewrite !Hsplit. rewrite <- !app_assoc.
      change (Z.to_nat (0 + layout_size _)) with 16%nat. rewrite <- Hpl.
      apply splice_app_l. done.
  - unfold tcp_value in E. rewrite E. cbn [mbind outcome_bind]. by rewrite Ha.
Qed.
End tcp.

(** A TCP segment the gateway sends verifies: the checksum over the
    pseudo header and the segment is zero. The parser reads back from it the
    ports, numbers, flags, window and payload it was made from. *)
Theorem tcp_segment_parses sip dip sport dport seq ack flags payload window :
  tcp_args_ok sip dip sport dport seq ack flags payload window →
  ∃ segment, tcp_segment sip dip sport dport seq ack flags payload window = Done segment ∧
    checksum [enc TcpPseudoHeader (pseudo_value sip dip (zlen payload)); segment] = Done 0 ∧
    parse_tcp segment = Done (Some (TcpParsed sport dport seq ack flags window payload)).
Proof.
  intros Hok. eexists; split; [by apply tcp_segment_eq|].
  pose proof (tcp_checksum_range _ _ _ _ _ _ _ _ _ Hok) as Hc.
  set (pseudo := enc TcpPseudoHeader _) in *.
  set (c := 65535 - _) in *.
  pose proof (typed_tcp _ _ _ _ _ _ _ _ _ Hok c Hc) as Ht.
  pose proof (zlen_enc _ _ Ht) as Hz. change (ty_size TcpHeader) with 20 in Hz.
  pose proof (zlen_enc _ _ (typed_pseudo _ _ _ _ _ _ _ _ _ Hok)) as Hzp. fold pseudo in Hzp.
  change (ty_size TcpPseudoHeader) with 12 in Hzp.
  pose proof (zlen_nonneg payload). assert (Hok' := Hok). destruct Hok'.
  split.
  - destruct (tcp_split sport dport seq ack flags window) as (pre&post&Hpl&Hpre&Hpost&Hsplit).
    pose proof (zlen_enc _ _ (typed_tcp _ _ _ _ _ _ _ _ _ Hok 0 ltac:(lia))) as Hz0.
    change (ty_size TcpHeader) with 20 in Hz0.
    rewrite checksum_eq; cbn [concat]; rewrite app_nil_r.
    + rewrite Hsplit, u16be_enc, <- !app_assoc, app_assoc by done.
      destruct (checksum_filled (pseudo ++ pre) c (post ++ payload)) as (Hf&_).
      * rewrite Forall_app; split; [apply bytes_ok_enc|done].
      * by rewrite Forall_app.
      * rewrite length_app, Hpl. unfold zlen in Hzp.
        replace (length pseudo) with 12%nat by lia. done.
      * rewrite Hsplit in Hz0. rewrite !zlen_app in *.
        pose proof (zlen_nonneg (enc U16BE (Num 0))). lia.
      * unfold c. rewrite (Hsplit 0), u16be_enc, <- !app_assoc by done. done.
      * cbn [app] in *. by rewrite Hf.
    + rewrite !Forall_app. split_and!; [apply bytes_ok_enc|apply bytes_ok_enc|done].
    + rewrite !zlen_app. lia.
  - unfold parse_tcp. rewrite zlen_app, Hz. change tcp_size with 20.
    assert ((20 + zlen payload <? 20) = false) as -> by (apply Z.ltb_ge; lia).
    rewrite struct_read_enc by done. cbn [mbind outcome_bind].
    set (v := tcp_value _ _ _ _ _ _ _). change (v.["data_offset"]) with (5 <<< 4).
    change ((5 <<< 4 >>> 4) * 4) with 20. cbn [orb]. rewrite Z.ltb_irrefl. cbn [orb].
    assert ((20 + zlen payload <? 20) = false) as -> by (apply Z.ltb_ge; lia).
    assert (subarray (enc TcpHeader v ++ payload) 20 (20 + zlen payload) = payload) as ->.
    { rewrite <- Hz, <- zlen_app. apply subarray_app_r. }
    done.
Qed.

Lemma tcp_segment_parses_witness :
  ∃ segment, tcp_segment 3221225985 3221225986 80 49152 4294967295 7 (ACK ||| PSH) [104; 105; 10] 512
      = Done segment ∧
    checksum [enc TcpPseudoHeader (pseudo_value 3221225985 3221225986 3); segment] = Done 0 ∧
    parse_tcp segment = Done (Some (TcpParsed 80 49152 4294967295 7 0x18 512 [104; 105; 10])).
Proof.
  apply (tcp_segment_parses 3221225985 3221225986 80 49152 4294967295 7 (ACK ||| PSH) [104; 105; 10] 512).
  constructor; try (vm_compute; split; discriminate || reflexivity); try (vm_compute; discriminate).
  apply (bool_decide_unpack _). vm_compute. exact I.
Defined.

(** * UDP *)
Definition udp_value (source_port destination_port len : Z) : value :=
  Obj [("source_port", Num source_port); ("destination_port", Num destination_port);
       ("length", Num (udp_size + len)); ("header_checksum", Num 0)].

Lemma typed_udp sport dport len :
  0 ≤ sport < 65536 → 0 ≤ dport < 65536 → 0 ≤ len ≤ 65527 →
  typed UdpHeader (udp_value sport dport len) = true.
Proof.
  intros. unfold UdpHeader, udp_value. typed_struct; try done; change udp_size with 8; lia.
Qed.

Lemma udp_datagram_eq sport dport payload :
  0 ≤ sport < 65536 → 0 ≤ dport < 65536 → zlen payload ≤ 65527 →
  udp_datagram sport dport payload =
    Done (enc UdpHeader (udp_value sport dport (zlen payload)) ++ payload).
Proof.
  intros ? ? Hl. pose proof (zlen_nonneg payload). unfold udp_datagram.
  destruct (builds_run (emit UdpHeader (udp_value sport dport (zlen payload)) ;; append payload)
    (udp_size + zlen payload) tt (enc UdpHeader (udp_value sport dport (zlen payload)) ++ payload))
    as (b&E&Ha).
  - change udp_size with 8. lia.
  - eapply builds_bind; [apply builds_emit, typed_udp; done || lia|]. apply builds_append.
  - unfold udp_value in E at 1. rewrite E. cbn [mbind outcome_bind]. by rewrite Ha.
Qed.

(** a UDP datagram the gateway sends parses to its ports and payload, also
    when the lower layer padded it. *)
Theorem udp_datagram_parses sport dport payload padding :
  0 ≤ sport < 65536 → 0 ≤ dport < 65536 → zlen payload ≤ 65527 →
  ∃ datagram, udp_datagram sport dport payload = Done datagram ∧
    parse_udp (datagram ++ padding) = Done (Some (UdpParsed sport dport payload)).
Proof.
  intros Hs Hd Hl. rewrite udp_datagram_eq by done. eexists; split; [done|].
  pose proof (zlen_nonneg payload). pose proof (zlen_nonneg padding).
  pose proof (typed_udp sport dport (zlen payload) Hs Hd ltac:(lia)) as Ht.
  pose proof (zlen_enc _ _ Ht) as Hz. change (ty_size UdpHeader) with 8 in Hz.
  set (v := udp_value _ _ _) in *. unfold parse_udp. rewrite !zlen_app, Hz. change udp_size with 8.
  assert ((8 + zlen payload + zlen padding <? 8) = false) as -> by (apply Z.ltb_ge; lia).
  rewrite <- app_assoc, struct_read_enc by done. cbn [mbind outcome_bind].
  change (v.["length"]) with (8 + zlen payload).
  assert ((8 + zlen payload <? 8) = false) as -> by (apply Z.ltb_ge; lia).
  assert ((8 + zlen payload + zlen padding <? 8 + zlen payload) = false) as -> by (apply Z.ltb_ge; lia).
  cbn [orb]. do 3 f_equal.
  rewrite app_assoc. unfold subarray. unfold zlen in *.
  rewrite drop_app_le by (rewrite length_app; lia).
  replace (Z.to_nat 8) with (length (enc UdpHeader v)) by lia. rewrite drop_app_length.
  rewrite take_app_le by lia. apply take_ge. lia.
Qed.

Lemma udp_datagram_parses_witness :
  ∃ datagram, udp_datagram 53 40000 [1; 2; 3] = Done datagram ∧
    parse_udp (datagram ++ [0; 0]) = Done (Some (UdpParsed 53 40000 [1; 2; 3])).
Proof. apply udp_datagram_parses; [lia|lia|vm_compute; discriminate]. Defined.

(** * Parsers on hostile bytes *)

(** No frame a guest can send makes the parsers throw. A fragment they
    return ends inside the largest datagram, and is not empty unless it is the
    whole of one. *)
Theorem parsers_total frame payload :
  (∃ r, parse_ip frame = Done r ∧
     ∀ f, r = Some f → zlen (if_payload f) + if_offset f ≤ MAX_IP_PAYLOAD ∧
       (if_payload f = [] → if_offset f = 0 ∧ if_more f = false)) ∧
  is_done (parse_tcp payload) = true ∧ is_done (parse_udp payload) = true.
Proof.
  split_and!.
  - unfold parse_ip. destruct (Z.ltb_spec (zlen frame) (ethernet_size + ipv4_size)); [by eexists|].
    change ethernet_size with 14 in *. change ipv4_size with 20 in *.
    destruct (struct_read_ok EthernetHeader frame) as [eth ->]; [change (ty_size _) with 14; lia|].
    cbn [mbind outcome_bind]. destruct (negb _); [by eexists|].
    destruct (struct_read_ok Ipv4Header (subarray frame 14 (zlen frame))) as [hdr ->].
    { change (ty_size _) with 20. rewrite zlen_subarray; lia. }
    cbn [mbind outcome_bind].
    do 5 match goal with |- context [if ?b then Done None else _] =>
      destruct b eqn:?; [by eexists|] end.
    eexists; split; [done|]. intros f [= <-]. cbn [if_payload if_offset if_more].
    match goal with H : (MAX_IP_PAYLOAD <? _) = false |- _ => apply Z.ltb_ge in H end.
    split; [lia|]. intros Hp. rewrite Hp in *.
    match goal with H : ((negb (_ =? 0) || _) && _)%bool = false |- _ =>
      cbn in H; rewrite andb_true_r in H; apply orb_false_iff in H as [H1 H2] end.
    zbool. split; [done|]. by rewrite H2.
  - unfold parse_tcp. destruct (Z.ltb_spec (zlen payload) tcp_size); [done|].
    destruct (struct_read_ok TcpHeader payload) as [hdr ->]; [done|]. cbn [mbind outcome_bind].
    by match goal with |- context [if ?b then _ else _] => destruct b end.
  - unfold parse_udp. destruct (Z.ltb_spec (zlen payload) udp_size); [done|].
    destruct (struct_read_ok UdpHeader payload) as [hdr ->]; [done|]. cbn [mbind outcome_bind].
    by match goal with |- context [if ?b then _ else _] => destruct b end.
Qed.

(** * Addresses *)
(** What there is to know of the 256 bytes' texts is checked on all of them. *)
Lemma byte_texts :
  Forall (fun b => number_part (decimal b) = Some b ∧ 46 ∉ decimal b) (seqZ 0 256).
Proof. apply (bool_decide_unpack _). vm_compute. exact I. Qed.
Lemma byte_text b : byte_ok b → number_part (decimal b) = Some b ∧ 46 ∉ decimal b.
Proof.
  intros Hb. pose proof byte_texts as H. rewrite Forall_forall in H. apply H.
  apply elem_of_seqZ. unfold byte_ok in Hb. lia.
Qed.
Lemma number_part_Some p b : number_part p = Some b → decimal b = p ∧ byte_ok b.
Proof.
  unfold number_part. destruct (list_find _ _) as [[i b']|] eqn:E; [|done]. intros [= <-].
  apply list_find_Some in E as (Hi&Hd&_). split; [done|].
  apply list_elem_of_lookup_2, elem_of_seqZ in Hi. unfold byte_ok. lia.
Qed.

Definition address_of (b1 b2 b3 b4 : Z) : Z := b1 * 2 ^ 24 + b2 * 2 ^ 16 + b3 * 2 ^ 8 + b4.

Lemma ipv4_parts_bytes b1 b2 b3 b4 :
  byte_ok b1 → byte_ok b2 → byte_ok b3 → byte_ok b4 →
  ipv4_parts (decimal <$> [b1; b2; b3; b4]) 0 = Done (to_i32 (address_of b1 b2 b3 b4)).
Proof.
  intros H1 H2 H3 H4. cbn [fmap list_fmap ipv4_parts].
  rewrite (proj1 (byte_text b1 H1)), (proj1 (byte_text b2 H2)), (proj1 (byte_text b3 H3)),
    (proj1 (byte_text b4 H4)).
  unfold byte_ok in *. f_equal.
  assert (∀ z, -2 ^ 31 ≤ z < 2 ^ 31 → to_i32 z = z) as Hid
    by (intros z Hz; unfold to_i32; rewrite Z.mod_small; lia).
  rewrite (shift8_or 0 b1) by done. rewrite (Hid (0 * 256 + b1)) by lia.
  rewrite (shift8_or _ b2) by done. rewrite (Hid ((0 * 256 + b1) * 256 + b2)) by lia.
  rewrite (shift8_or _ b3) by done. rewrite (Hid (((0 * 256 + b1) * 256 + b2) * 256 + b3)) by lia.
  rewrite (shift8_or _ b4) by done. unfold address_of. f_equal. lia.
Qed.

Lemma to_u32_i32 z : 0 ≤ z < 2 ^ 32 → to_u32 (to_i32 z) = z.
Proof.
  intros Hz. unfold to_u32, to_i32. destruct (decide (z < 2 ^ 31)).
  - rewrite (Z.mod_small (z + 2 ^ 31)) by lia. rewrite Z.mod_small; lia.
  - replace (z + 2 ^ 31) with (z - 2 ^ 31 + 1 * 2 ^ 32) by lia. rewrite Z.mod_add by lia.
    rewrite (Z.mod_small (z - 2 ^ 31)) by lia.
    replace (z - 2 ^ 31 - 2 ^ 31) with (z + (-1) * 2 ^ 32) by lia. rewrite Z.mod_add by lia.
    rewrite Z.mod_small; lia.
Qed.

Lemma ipv4_string_bytes b1 b2 b3 b4 :
  byte_ok b1 → byte_ok b2 → byte_ok b3 → byte_ok b4 →
  ipv4_string (address_of b1 b2 b3 b4) = join [46] (decimal <$> [b1; b2; b3; b4]).
Proof.
  unfold byte_ok, ipv4_string, address_of. intros.
  set (a := b1 * 2 ^ 24 + b2 * 2 ^ 16 + b3 * 2 ^ 8 + b4).
  assert (∀ q r n, 0 ≤ n → 0 ≤ r < 2 ^ n → a = q * 2 ^ n + r → a >>> n = q) as Hs.
  { intros q r n Hn Hr E. rewrite Z.shiftr_div_pow2 by done. symmetry.
    apply (Z.div_unique_pos _ _ _ r); lia. }
  assert (∀ z q b, z = q * 256 + b → 0 ≤ b < 256 → z &&& 255 = b) as Hm.
  { intros z q b E Hb. change 255 with (Z.ones 8). rewrite Z.land_ones by lia.
    symmetry. apply (Z.mod_unique_pos _ _ q); lia. }
  rewrite (Hs b1 (b2 * 2 ^ 16 + b3 * 2 ^ 8 + b4) 24) by (unfold a; lia).
  rewrite (Hs (b1 * 256 + b2) (b3 * 2 ^ 8 + b4) 16) by (unfold a; lia).
  rewrite (Hs (b1 * 65536 + b2 * 256 + b3) b4 8) by (unfold a; lia).
  rewrite (Hm (b1 * 256 + b2) b1 b2), (Hm (b1 * 65536 + b2 * 256 + b3) (b1 * 256 + b2) b3) by lia.
  by rewrite (Hm a (b1 * 65536 + b2 * 256 + b3) b4) by (unfold a; lia).
Qed.

(** A dotted address and its number stand for each other. Every 32-bit
    number is printed as an address that parses to it, and an address that
    parses is the print of its number: leading zeros, signs, spaces and the
    other spellings JavaScript's [Number] takes are refused. *)
Theorem ipv4_number_string_inverse s a :
  ipv4_number s = Done a ↔ 0 ≤ a < 2 ^ 32 ∧ s = ipv4_string a.
Proof.
  split.
  - unfold ipv4_number. destruct (Z.eqb_spec (zlen (split_text 46 s)) 4) as [Hl|]; [|done].
    cbn [negb]. pose proof (join_split 46 s) as Hj.
    destruct (split_text 46 s) as [|p1 [|p2 [|p3 [|p4 [|? ?]]]]]; unfold zlen in Hl; simpl length in Hl; try lia.
    destruct (number_part p1) as [b1|] eqn:E1; [|by cbn [ipv4_parts]; rewrite E1].
    destruct (number_part p2) as [b2|] eqn:E2; [|by cbn [ipv4_parts]; rewrite E1, E2].
    destruct (number_part p3) as [b3|] eqn:E3; [|by cbn [ipv4_parts]; rewrite E1, E2, E3].
    destruct (number_part p4) as [b4|] eqn:E4; [|by cbn [ipv4_parts]; rewrite E1, E2, E3, E4].
    apply number_part_Some in E1 as [<- H1], E2 as [<- H2], E3 as [<- H3], E4 as [<- H4].
    change [decimal b1; decimal b2; decimal b3; decimal b4] with (decimal <$> [b1; b2; b3; b4]).
    rewrite ipv4_parts_bytes by done. cbn [mbind outcome_bind mret outcome_ret]. intros [= <-].
    assert (0 ≤ address_of b1 b2 b3 b4 < 2 ^ 32) by (unfold address_of, byte_ok in *; lia).
    rewrite to_u32_i32 by done. split; [done|]. rewrite ipv4_string_bytes by done. by rewrite <- Hj.
  - intros [Ha ->].
    pose (b1 := a / 2 ^ 24). pose (b2 := a / 2 ^ 16 mod 256). pose (b3 := a / 2 ^ 8 mod 256).
    pose (b4 := a mod 256).
    assert (byte_ok b1 ∧ byte_ok b2 ∧ byte_ok b3 ∧ byte_ok b4) as (H1&H2&H3&H4).
    { unfold byte_ok, b1, b2, b3, b4.
      split_and!; try (apply Z.mod_pos_bound; lia); [apply Z.div_pos|apply Z.div_lt_upper_bound]; lia. }
    assert (a = address_of b1 b2 b3 b4) as E.
    { unfold address_of, b1, b2, b3, b4.
      replace (2 ^ 24) with (2 ^ 8 * 256 * 256) by done. replace (2 ^ 16) with (2 ^ 8 * 256) by done.
      rewrite <- !Z.div_div by lia. pose proof (Z.div_mod a 256 ltac:(lia)).
      pose proof (Z.div_mod (a / 256) 256 ltac:(lia)).
      pose proof (Z.div_mod (a / 256 / 256) 256 ltac:(lia)). change (2 ^ 8) with 256. lia. }
    rewrite E in *. rewrite ipv4_string_bytes by done. unfold ipv4_number.
    rewrite split_join; [|done|].
    2: { cbn [fmap list_fmap]. repeat constructor; by apply byte_text. }
    change (negb (zlen _ =? 4)) with false. cbn [negb]. rewrite ipv4_parts_bytes by done.
    cbn [mbind outcome_bind mret outcome_ret]. by rewrite to_u32_i32.
Qed.
