(* ===== verification/Reassembly.v ===== *)
(** Reassembly of IPv4 fragments: [reassemble_ip] of
    packages/linux-guest/src/network.ts. *)
From stdpp Require Export sorting.
From S2P Require Export Ipv4.

Record piece := Piece { pc_offset : Z; pc_payload : list Z }.
Definition pc_end (p : piece) : Z := pc_offset p + zlen (pc_payload p).
#[export] Instance piece_eq_dec : EqDecision piece.
Proof. solve_decision. Defined.

(** The key's text determines its four numbers. *)
Abbreviation ra_key := (Z * Z * Z * Z)%type.

Record reassembly := Reassembly {
  ra_source : Z; ra_destination : Z; ra_protocol : Z;
  ra_fragments : list piece; ra_total : option Z }.

Record ip_parsed := IpParsed {
  ip_source : Z; ip_destination : Z; ip_protocol : Z; ip_payload : list Z }.

(** The map [ip_reassemblies], in insertion order. *)
Abbreviation table := (list (ra_key * reassembly)).

Definition ip_reassembly_key (f : ip_fragment) : ra_key :=
  (if_source f, if_destination f, if_protocol f, if_identification f).

Definition table_get (key : ra_key) (t : table) : option reassembly :=
  match list_find (fun kr => kr.1 = key) t with Some (_, kr) => Some kr.2 | None => None end.

(** [discard_ip_reassembly(key)]; also what the timeout does. *)
Definition discard (key : ra_key) (t : table) : table := filter (fun kr => kr.1 ≠ key) t.

(** The entry's object is mutated in place: its position does not change. *)
Definition table_set (key : ra_key) (r : reassembly) (t : table) : table :=
  (fun kr => if decide (kr.1 = key) then (key, r) else kr) <$> t.

Definition total_exceeded (r : reassembly) (end_ : Z) : bool :=
  match ra_total r with Some total => total <? end_ | None => false end.

(** [findIndex]: [None] for -1. *)
Definition insertion_of (offset : Z) (fragments : list piece) : option nat :=
  fst <$> list_find (fun c => offset < pc_end c) fragments.

Definition overlaps (f : ip_fragment) (fragments : list piece) : bool :=
  let end_ := if_offset f + zlen (if_payload f) in
  let insertion := insertion_of (if_offset f) fragments in
  let next := i ← insertion; fragments !! i in
  let previous := match insertion with
                  | None => last fragments
                  | Some O => None
                  | Some (S i) => fragments !! i
                  end in
  (match previous with Some p => if_offset f <? pc_end p | None => false end
   || match next with Some n => pc_offset n <? end_ | None => false end)%bool.

Definition is_duplicate (f : ip_fragment) (fragments : list piece) : bool :=
  match list_find (fun c => pc_offset c = if_offset f ∧ zlen (pc_payload c) = zlen (if_payload f)) fragments with
  | Some (_, c) => bool_decide (pc_payload c = if_payload f)
  | None => false
  end.

(** [fragments.splice(insertion, 0, piece)] *)
Definition insert_piece (insertion : option nat) (p : piece) (fragments : list piece) : list piece :=
  let i := default (length fragments) insertion in
  take i fragments ++ p :: drop i fragments.

(** The loop that looks for a gap: the length covered, [None] at a gap. *)
Fixpoint covered (fragments : list piece) (len : Z) : option Z :=
  match fragments with
  | [] => Some len
  | c :: fragments =>
      if negb (pc_offset c =? len) then None else covered fragments (len + zlen (pc_payload c))
  end.

Fixpoint fill_payload (fragments : list piece) (payload : list Z) : list Z :=
  match fragments with
  | [] => payload
  | c :: fragments => fill_payload fragments (splice payload (Z.to_nat (pc_offset c)) (pc_payload c))
  end.

(** The entry to work on: the one in the map, or a new one, for which the
    oldest makes room. *)
Definition open_entry (f : ip_fragment) (t : table) : reassembly * table :=
  let key := ip_reassembly_key f in
  match table_get key t with
  | Some r => (r, t)
  | None =>
      let t := match t with
               | (oldest, _) :: _ => if zlen t =? MAX_IP_REASSEMBLIES then discard oldest t else t
               | [] => t
               end in
      let r := Reassembly (if_source f) (if_destination f) (if_protocol f) [] None in
      (r, t ++ [(key, r)])
  end.

(** The end of a datagram: its length becomes known, unless it contradicts what
    is there. *)
Definition note_end (f : ip_fragment) (r : reassembly) : option reassembly :=
  let end_ := if_offset f + zlen (if_payload f) in
  if if_more f then Some r else
  if match ra_total r with Some total => negb (total =? end_) | None => false end then None else
  if existsb (fun c => end_ <=? pc_offset c) (ra_fragments r) then None else
  Some (Reassembly (ra_source r) (ra_destination r) (ra_protocol r) (ra_fragments r) (Some end_)).

(** The datagram, once every byte of it is there. *)
Definition complete (r : reassembly) : option ip_parsed :=
  match ra_total r, head (ra_fragments r) with
  | Some total, Some first =>
      if negb (pc_offset first =? 0) then None else
      length ← covered (ra_fragments r) 0;
      if negb (length =? total) then None else
      Some (IpParsed (ra_source r) (ra_destination r) (ra_protocol r)
              (fill_payload (ra_fragments r) (zeros length)))
  | _, _ => None
  end.

(** What a fragment does to its entry. *)
Inductive addition :=
| Discarded
| Ignored
| Kept (r : reassembly)
| Completed (packet : ip_parsed).

Definition add_fragment (f : ip_fragment) (r : reassembly) : addition :=
  let end_ := if_offset f + zlen (if_payload f) in
  if (((if_offset f =? 0) && (0xffff <? end_ + if_header_length f)) || total_exceeded r end_)%bool
  then Discarded else
  if overlaps f (ra_fragments r)
  then (if is_duplicate f (ra_fragments r) then Ignored else Discarded) else
  if zlen (ra_fragments r) =? MAX_IP_FRAGMENTS then Discarded else
  let fragments := insert_piece (insertion_of (if_offset f) (ra_fragments r))
                     (Piece (if_offset f) (if_payload f)) (ra_fragments r) in
  match note_end f (Reassembly (ra_source r) (ra_destination r) (ra_protocol r) fragments (ra_total r)) with
  | None => Discarded
  | Some r =>
      match complete r with
      | None => Kept r
      | Some packet => Completed packet
      end
  end.

Definition reassemble_ip (f : ip_fragment) (t : table) : option ip_parsed * table :=
  let key := ip_reassembly_key f in
  if ((if_offset f =? 0) && negb (if_more f))%bool
  then (Some (IpParsed (if_source f) (if_destination f) (if_protocol f) (if_payload f)), discard key t)
  else
  let '(r, t) := open_entry f t in
  match add_fragment f r with
  | Discarded => (None, discard key t)
  | Ignored => (None, t)
  | Kept r => (None, table_set key r t)
  | Completed packet => (Some packet, discard key t)
  end.

(** * The table *)
Lemma table_get_cons key k r t :
  table_get key ((k, r) :: t) = if decide (k = key) then Some r else table_get key t.
Proof.
  unfold table_get. cbn [list_find fst]. destruct (decide (k = key)); [done|].
  by destruct (list_find _ t) as [[? ?]|].
Qed.
Lemma table_get_app_None key t l : table_get key t = None → table_get key (t ++ l) = table_get key l.
Proof.
  unfold table_get. intros H. rewrite list_find_app_r; [by destruct (list_find _ l) as [[? ?]|]|].
  by destruct (list_find _ t) as [[? ?]|].
Qed.
Lemma table_get_discard key t : table_get key (discard key t) = None.
Proof.
  unfold table_get, discard. destruct (list_find _ _) as [[i kr]|] eqn:E; [|done].
  apply list_find_Some in E as (Hi&Hk&_). apply list_elem_of_lookup_2, list_elem_of_filter in Hi. naive_solver.
Qed.
Lemma table_get_None key t : table_get key t = None ↔ key ∉ (fst <$> t).
Proof.
  unfold table_get. destruct (list_find _ _) as [[i kr]|] eqn:E.
  - split; [done|]. intros Hn. destruct Hn. apply list_find_Some in E as (Hi&<-&_).
    apply list_elem_of_fmap. exists kr. split; [done|]. by eapply list_elem_of_lookup_2.
  - split; [|done]. intros _. apply list_find_None in E. rewrite list_elem_of_fmap.
    intros (kr&->&Hin). rewrite Forall_forall in E. by apply (E kr).
Qed.
Lemma table_get_discard_ne key key' t : table_get key t = None → table_get key (discard key' t) = None.
Proof.
  rewrite !table_get_None. unfold discard. rewrite !list_elem_of_fmap.
  intros H (kr&->&Hin%list_elem_of_filter). apply H. exists kr. naive_solver.
Qed.
Lemma table_get_set key r t r0 : table_get key t = Some r0 → table_get key (table_set key r t) = Some r.
Proof.
  unfold table_set. induction t as [|[k' r'] t IH]; [done|]. rewrite fmap_cons. cbn [fst].
  rewrite table_get_cons. destruct (decide (k' = key)) as [->|Hne].
  - intros _. by rewrite table_get_cons, decide_True.
  - rewrite table_get_cons, decide_False by done. apply IH.
Qed.

Lemma open_entry_get f t r t' :
  open_entry f t = (r, t') → table_get (ip_reassembly_key f) t' = Some r.
Proof.
  unfold open_entry. destruct (table_get _ t) as [r0|] eqn:E; [by intros [= <- <-]|].
  intros [= <- <-]. rewrite table_get_app_None.
  - by rewrite table_get_cons, decide_True.
  - destruct t as [|[k1 r1] t]; [done|]. destruct (_ =? _); [|done]. by apply table_get_discard_ne.
Qed.

(** * Sorted pieces *)
Definition before (a b : piece) : Prop := pc_end a ≤ pc_offset b.
Definition piece_ok (p : piece) : Prop := 0 ≤ pc_offset p ∧ 0 < zlen (pc_payload p).
Abbreviation sorted := (StronglySorted before).

Lemma insertion_split offset l :
  Forall piece_ok l → sorted l →
  ∃ l1 l2, l = l1 ++ l2 ∧ Forall (fun c => pc_end c ≤ offset) l1 ∧
    Forall (fun c => offset < pc_end c) l2 ∧
    insertion_of offset l = (if l2 is [] then None else Some (length l1)).
Proof.
  intros Hok Hs. induction Hs as [|c l Hs IH Hc]; [by exists [], []|].
  apply Forall_cons in Hok as [Hc0 Hok]. unfold insertion_of. cbn [list_find].
  case_decide as Hd.
  - exists [], (c :: l). split_and!; [done|done| |done]. constructor; [done|].
    rewrite Forall_forall in *. intros x Hx. specialize (Hc x Hx). specialize (Hok x Hx).
    unfold before, piece_ok, pc_end in *. lia.
  - destruct IH as (l1&l2&->&H1&H2&Hi); [done|]. exists (c :: l1), l2.
    split_and!; [done|constructor; [lia|done]|done|].
    unfold insertion_of in Hi. destruct (list_find _ _) as [[i x]|]; cbn in *; destruct l2; try done.
    by injection Hi as ->.
Qed.

Definition piece_of (f : ip_fragment) : piece := Piece (if_offset f) (if_payload f).

Lemma overlaps_next f l1 l2 :
  Forall (fun c => pc_end c ≤ if_offset f) l1 →
  insertion_of (if_offset f) (l1 ++ l2) = (if l2 is [] then None else Some (length l1)) →
  overlaps f (l1 ++ l2) = match head l2 with
                          | Some n => pc_offset n <? pc_end (piece_of f) | None => false end.
Proof.
  intros H1 Hi. unfold overlaps. rewrite Hi.
  assert (Hprev : ∀ p, last l1 = Some p → (if_offset f <? pc_end p) = false).
  { intros p Hp%last_Some_elem_of. rewrite Forall_forall in H1. apply Z.ltb_ge. by apply H1. }
  destruct l2 as [|n l2]; cbn [mbind option_bind head].
  - rewrite app_nil_r. destruct (last l1) as [p|]; [|done]. by rewrite Hprev.
  - rewrite list_lookup_middle by done. unfold pc_end at 2. cbn [piece_of pc_offset pc_payload].
    destruct l1 as [|c l1] using rev_ind; [done|]. rewrite length_app, Nat.add_comm. cbn [length Nat.add].
    rewrite <- app_assoc. cbn [app]. rewrite list_lookup_middle by done. rewrite Hprev; [done|]. apply last_snoc.
Qed.

(** A piece that keeps off the others goes to its place. *)
Lemma insert_piece_sorted f l :
  Forall piece_ok l → sorted l → piece_ok (piece_of f) → overlaps f l = false →
  let l' := insert_piece (insertion_of (if_offset f) l) (piece_of f) l in
  Forall piece_ok l' ∧ sorted l' ∧ l' ≡ₚ piece_of f :: l.
Proof.
  intros Hok Hs Hp Ho. destruct (insertion_split (if_offset f) l) as (l1&l2&->&H1&H2&Hi); [done|done|].
  rewrite overlaps_next in Ho by done. cbv zeta. rewrite Hi.
  assert (insert_piece (if l2 is [] then None else Some (length l1)) (piece_of f) (l1 ++ l2)
    = l1 ++ piece_of f :: l2) as ->.
  { unfold insert_piece. destruct l2 as [|n l2]; cbn [default from_option id].
    - by rewrite app_nil_r, take_ge, drop_ge by lia.
    - unfold default, id. cbn. by rewrite take_app_length, drop_app_length. }
  apply Forall_app in Hok as [Hok1 Hok2]. apply StronglySorted_app in Hs as (Hb&Hs1&Hs2).
  split_and!; [by rewrite Forall_app, Forall_cons| |by rewrite Permutation_middle].
  assert (Hpl2 : Forall (before (piece_of f)) l2).
  { destruct l2 as [|n l2]; [constructor|]. cbn [head] in Ho. apply Z.ltb_ge in Ho.
    apply StronglySorted_inv in Hs2 as [_ Hn]. constructor; [done|].
    rewrite Forall_forall in *. intros c Hc. specialize (Hn c Hc). specialize (Hok2 n ltac:(set_solver)).
    unfold before, pc_end, piece_ok in *. lia. }
  apply StronglySorted_app. split_and!; [|done|by apply SSorted_cons].
  intros x y Hx [->|Hy]%elem_of_cons; [|by apply Hb].
  rewrite Forall_forall in H1. apply (H1 x Hx).
Qed.

Lemma overlaps_disjoint f l :
  Forall piece_ok l → sorted l → piece_ok (piece_of f) →
  (∀ c, c ∈ l → before c (piece_of f) ∨ before (piece_of f) c) → overlaps f l = false.
Proof.
  intros Hok Hs Hp Hd. destruct (insertion_split (if_offset f) l) as (l1&l2&->&H1&H2&Hi); [done|done|].
  rewrite overlaps_next by done. destruct l2 as [|n l2]; [done|]. cbn [head]. apply Z.ltb_ge.
  apply Forall_cons in H2 as [Hn _]. destruct (Hd n ltac:(set_solver)) as [Hb|Hb]; [|done].
  unfold before, piece_of in Hb. cbn in Hb. lia.
Qed.

Definition lengths (l : list piece) : Z := sum_list_z ((zlen ∘ pc_payload) <$> l).

Lemma lengths_perm l l' : l ≡ₚ l' → lengths l = lengths l'.
Proof. unfold lengths. induction 1; rewrite ?fmap_cons; cbn [sum_list_z foldr] in *; unfold sum_list_z in *; simpl; lia. Qed.
Lemma lengths_cons p l : lengths (p :: l) = zlen (pc_payload p) + lengths l.
Proof. done. Qed.
Lemma lengths_nonneg l : 0 ≤ lengths l.
Proof.
  induction l as [|p l IH]; [done|]. rewrite lengths_cons. pose proof (zlen_nonneg (pc_payload p)). lia.
Qed.

Lemma covered_lengths l k n : covered l k = Some n → n = k + lengths l.
Proof.
  revert k; induction l as [|p l IH]; intros k; cbn [covered]; [intros [= ->]; unfold lengths; simpl; lia|].
  destruct (negb _); [done|]. intros Hn%IH. rewrite lengths_cons. lia.
Qed.

Lemma covered_last l k n z : covered l k = Some n → last l = Some z → pc_end z = n.
Proof.
  revert k; induction l as [|p l IH]; intros k; [done|]. cbn [covered].
  destruct (Z.eqb_spec (pc_offset p) k) as [<-|]; [|done]. cbn [negb]. destruct l as [|q l].
  - intros [= <-] [= <-]. done.
  - intros Hc Hz. by apply (IH (pc_offset p + zlen (pc_payload p))).
Qed.

(** Pieces that tile [k, n) are in order, and fill it with their payloads. *)
Lemma covered_sorted l k n :
  Forall piece_ok l → covered l k = Some n →
  sorted l ∧ Forall (fun c => k ≤ pc_offset c ∧ pc_end c ≤ n) l.
Proof.
  intros Hok. revert k; induction Hok as [|p l Hp Hok IH]; intros k; cbn [covered]; [by repeat constructor|].
  destruct (Z.eqb_spec (pc_offset p) k) as [<-|]; [|done]. cbn [negb]. intros Hc.
  pose proof (covered_lengths _ _ _ Hc) as Hn. pose proof (lengths_nonneg l).
  destruct (IH _ Hc) as [Hs Hb]. unfold piece_ok in Hp. split.
  - apply SSorted_cons; [done|]. eapply Forall_impl; [exact Hb|]. intros c [Hc1 _]. exact Hc1.
  - constructor; [unfold pc_end; lia|]. eapply Forall_impl; [exact Hb|]. intros c [Hc1 Hc2]. simpl in *. lia.
Qed.

Lemma fill_covered l a n :
  covered l (zlen a) = Some n →
  fill_payload l (a ++ zeros (lengths l)) = a ++ concat (pc_payload <$> l).
Proof.
  revert a; induction l as [|p l IH]; intros a; cbn [covered fill_payload].
  { intros _. by rewrite fmap_nil. }
  destruct (Z.eqb_spec (pc_offset p) (zlen a)) as [->|]; [|done]. cbn [negb]. intros Hc.
  pose proof (lengths_nonneg l). pose proof (zlen_nonneg (pc_payload p)).
  rewrite lengths_cons, <- zeros_app, fmap_cons by done. cbn [concat].
  rewrite zlen_to_nat, splice_app_l.
  - rewrite app_assoc. rewrite <- zlen_app in Hc. rewrite IH by done. by rewrite <- app_assoc.
  - unfold zeros, zlen. rewrite length_replicate. lia.
Qed.

(** * Any order of arrival *)

(** The results of a sequence of arrivals, and the table they leave. *)
Fixpoint arrivals (fs : list ip_fragment) (t : table) : list (option ip_parsed) * table :=
  match fs with
  | [] => ([], t)
  | f :: fs =>
      let '(r, t) := reassemble_ip f t in
      let '(rs, t) := arrivals fs t in
      (r :: rs, t)
  end.

Section datagram.
Context (source destination protocol identification header_length : Z).
Context (all : list piece) (total : Z).

Definition key : ra_key := (source, destination, protocol, identification).

(** The fragment that carries a piece of the datagram. *)
Definition fragment (p : piece) : ip_fragment :=
  IpFragment source destination protocol (pc_payload p) identification header_length
    (pc_offset p) (negb (pc_end p =? total)).

Context (Hok : Forall piece_ok all) (Htiles : covered all 0 = Some total).
Context (Hmany : (2 ≤ length all ≤ 64)%nat) (Hhead : total + header_length ≤ 0xffff).

(** The entry after the pieces [got] arrived. *)
Definition holds (got : list piece) (r : reassembly) : Prop :=
  ra_source r = source ∧ ra_destination r = destination ∧ ra_protocol r = protocol ∧
  sorted (ra_fragments r) ∧ ra_fragments r ≡ₚ got ∧
  ra_total r = if decide (Exists (fun p => pc_end p = total) got) then Some total else None.

Lemma all_facts : sorted all ∧ Forall (fun c => 0 ≤ pc_offset c ∧ pc_end c ≤ total) all ∧
  total = lengths all.
Proof using Hok Htiles.
  clear Hmany Hhead.
  destruct (covered_sorted all 0 total Hok Htiles). pose proof (covered_lengths _ _ _ Htiles). auto with lia.
Qed.

Lemma all_disjoint got p rest : all ≡ₚ got ++ p :: rest → ∀ c, c ∈ got → before c p ∨ before p c.
Proof using Hok Htiles.
  clear Hmany Hhead. intros Hperm c Hc. destruct all_facts as (Hs&_&_).
  assert (Hnd : ∀ l, l ≡ₚ all → sorted all → ∀ l1 l2, l = l1 ++ p :: l2 → c ∈ l1 → before c p ∨ before p c);
    [|by eapply (Hnd (got ++ p :: rest))].
  clear Hperm Hc. intros l Hperm Hsa l1 l2 -> Hc.
  assert (Hp : p ∈ all) by (rewrite <- Hperm; set_solver).
  apply list_elem_of_split in Hp as (a1&a2&E). rewrite E in Hperm, Hsa.
  rewrite <- !Permutation_middle in Hperm. apply Permutation_cons_inv in Hperm.
  assert (Hca : c ∈ a1 ++ a2) by (rewrite <- Hperm; set_solver).
  apply StronglySorted_app in Hsa as (Hb&_&Hs2). apply StronglySorted_inv in Hs2 as [_ Hp2].
  rewrite Forall_forall in Hp2. apply elem_of_app in Hca as [?|?]; [left|right]; auto.
  apply Hb; [done|set_solver].
Qed.

Lemma add_piece got p rest r :
  all ≡ₚ got ++ p :: rest → holds got r →
  match rest with
  | [] => add_fragment (fragment p) r
            = Completed (IpParsed source destination protocol (concat (pc_payload <$> all)))
  | _ => ∃ r', add_fragment (fragment p) r = Kept r' ∧ holds (got ++ [p]) r'
  end.
Proof using Hok Htiles Hmany Hhead.
  intros Hperm (Hsrc&Hdst&Hpro&Hs&Hp&Htot). destruct all_facts as (Hsa&Hba&Hta).
  assert (Hin : ∀ c, c ∈ got ++ p :: rest → piece_ok c ∧ 0 ≤ pc_offset c ∧ pc_end c ≤ total).
  { intros c Hc. rewrite <- Hperm in Hc. rewrite Forall_forall in Hok, Hba. auto. }
  destruct (Hin p ltac:(set_solver)) as (Hpok&Hpo&Hpe).
  assert (Hfok : Forall piece_ok (ra_fragments r)).
  { rewrite Hp. apply Forall_forall. intros c Hc. apply Hin. set_solver. }
  assert (Hno : overlaps (fragment p) (ra_fragments r) = false).
  { apply overlaps_disjoint; [done|done|by destruct p|]. intros c Hc. rewrite Hp in Hc.
    replace (piece_of (fragment p)) with p by by destruct p. by apply (all_disjoint got p rest). }
  assert (Hlen : (length got + S (length rest) = length all)%nat).
  { rewrite Hperm, length_app. done. }
  unfold add_fragment. cbn [fragment if_offset if_payload if_header_length]. fold (pc_end p).
  assert (((pc_offset p =? 0) && (0xffff <? pc_end p + header_length)
    || total_exceeded r (pc_end p))%bool = false) as ->.
  { apply orb_false_iff; split.
    - apply andb_false_iff. right. apply Z.ltb_ge. lia.
    - unfold total_exceeded. rewrite Htot. case_decide; [apply Z.ltb_ge; lia|done]. }
  fold (fragment p). rewrite Hno.
  assert ((zlen (ra_fragments r) =? MAX_IP_FRAGMENTS) = false) as ->.
  { apply Z.eqb_neq. unfold zlen, MAX_IP_FRAGMENTS. rewrite Hp. lia. }
  destruct (insert_piece_sorted (fragment p) (ra_fragments r)) as (Hok'&Hs'&Hp');
    [done|done|by destruct p|done|].
  replace (piece_of (fragment p)) with p in * by by destruct p.
  cbn [fragment if_offset] in Hok', Hs', Hp'.
  change (Piece (pc_offset p) (pc_payload p)) with (piece_of (fragment p)).
  replace (piece_of (fragment p)) with p by by destruct p.
  set (l := insert_piece _ p (ra_fragments r)) in *.
  assert (Hl : l ≡ₚ got ++ [p]) by (rewrite Hp', Hp; apply Permutation_cons_append).
  set (tot := if decide (Exists (fun p => pc_end p = total) (got ++ [p])) then Some total else None).
  assert (Hnote : note_end (fragment p) (Reassembly (ra_source r) (ra_destination r) (ra_protocol r) l (ra_total r))
    = Some (Reassembly source destination protocol l tot)).
  { unfold note_end. cbn [fragment if_offset if_payload if_more ra_total ra_fragments ra_source
      ra_destination ra_protocol]. fold (pc_end p). rewrite Hsrc, Hdst, Hpro, Htot. subst tot.
    destruct (Z.eqb_spec (pc_end p) total) as [E|E]; cbn [negb].
    - assert (match (if decide (Exists (λ p0, pc_end p0 = total) got) then Some total else None) with
        | Some total0 => negb (total0 =? pc_end p) | None => false end = false) as ->.
      { case_decide; [|done]. by rewrite E, Z.eqb_refl. }
      rewrite decide_True by (apply Exists_app; right; by left).
      assert (existsb (λ c, pc_end p <=? pc_offset c) l = false) as ->; [|by rewrite E].
      apply not_true_is_false. intros (c&Hc&Hle)%existsb_exists. apply list_elem_of_In in Hc.
      rewrite Hl in Hc. destruct (Hin c ltac:(set_solver)) as (?&?&?).
      apply Z.leb_le in Hle. unfold piece_ok, pc_end in *. lia.
    - do 2 f_equal. destruct (decide (Exists _ got)) as [Hx|Hx].
      + rewrite decide_True; [done|]. apply Exists_app. by left.
      + rewrite decide_False; [done|]. intros [?|Hp1]%Exists_app; [done|].
        apply Exists_cons in Hp1 as [?|Hn]; [done|]. by apply Exists_nil in Hn. }
  rewrite Hnote. unfold complete. cbn [ra_total ra_fragments].
  destruct rest as [|q rest].
  - assert (l = all) as ->.
    { apply (StronglySorted_unique_strong before); [|done|done|by rewrite Hl, Hperm].
      intros x y Hx Hy Hxy Hyx. exfalso. rewrite Forall_forall in Hok, Hok'.
      specialize (Hok' x Hx). specialize (Hok y Hy). unfold before, piece_ok, pc_end in *. lia. }
    assert (tot = Some total) as ->.
    { unfold tot. rewrite decide_True; [done|].
      destruct (last_is_Some all) as [_ Hlast]. destruct all as [|a0 al] eqn:Eall; [simpl in Hmany; lia|].
      destruct (Hlast ltac:(done)) as [z Hz].
      apply Exists_exists. exists z. split; [rewrite <- Hperm; by apply last_Some_elem_of|].
      by apply (covered_last (a0 :: al) 0). }
    destruct all as [|a0 al] eqn:Eall; [simpl in Hmany; lia|]. cbn [head].
    assert (pc_offset a0 = 0) as H0.
    { revert Htiles. cbn [covered]. by destruct (Z.eqb_spec (pc_offset a0) 0). }
    rewrite H0. cbn [negb Z.eqb]. rewrite Htiles. cbn [mbind option_bind]. rewrite Z.eqb_refl. cbn [negb].
    rewrite Hta. pose proof (fill_covered (a0 :: al) [] total Htiles) as Hf.
    cbn [app] in Hf. by rewrite Hf.
  - exists (Reassembly source destination protocol l tot). split; [|by split_and!].
    destruct tot as [tot'|] eqn:Et; [|done].
    assert (tot' = total) as -> by (unfold tot in Et; case_decide; congruence).
    destruct (head l); [|done]. destruct (negb _); [done|].
    destruct (covered l 0) as [n|] eqn:Hc; [|done]. cbn [mbind option_bind].
    destruct (Z.eqb_spec n total) as [En|]; [|done]. exfalso.
    apply covered_lengths in Hc. rewrite (lengths_perm _ _ Hl) in Hc.
    rewrite Hta, (lengths_perm _ _ Hperm) in En.
    assert (lengths (got ++ p :: q :: rest) = lengths (got ++ [p]) + lengths (q :: rest)) as E.
    { unfold lengths. replace (got ++ p :: q :: rest) with ((got ++ [p]) ++ q :: rest)
        by by rewrite <- app_assoc. rewrite fmap_app. generalize ((zlen ∘ pc_payload) <$> got ++ [p]).
      intros xs. induction xs as [|x xs IH]; simpl in *; [done|]. unfold sum_list_z in *. simpl. lia. }
    rewrite lengths_cons in E. pose proof (lengths_nonneg rest).
    destruct (Hin q ltac:(set_solver)) as ((_&Hq)&_). lia.
Qed.

Lemma fragment_not_whole p : p ∈ all → ((pc_offset p =? 0) && negb (negb (pc_end p =? total)))%bool = false.
Proof using Hok Htiles Hmany.
  clear Hhead. intros Hp. destruct all_facts as (_&_&Hta). rewrite negb_involutive. apply not_true_is_false.
  intros [H1%Z.eqb_eq H2%Z.eqb_eq]%andb_true_iff.
  apply list_elem_of_split in Hp as (a1&a2&E).
  assert (Hperm : all ≡ₚ p :: a1 ++ a2) by (rewrite E; by rewrite Permutation_middle).
  rewrite (lengths_perm _ _ Hperm), lengths_cons in Hta. rewrite E, length_app in Hmany. simpl in Hmany.
  assert (Hrest : Forall piece_ok (a1 ++ a2)).
  { rewrite E in Hok. apply Forall_app in Hok as [? [? ?]%Forall_cons]. by apply Forall_app. }
  destruct (a1 ++ a2) as [|q l] eqn:Eq.
  { apply (f_equal length) in Eq. rewrite length_app in Eq. simpl in Eq. lia. }
  apply Forall_cons in Hrest as [[_ Hq] _]. rewrite lengths_cons in Hta.
  pose proof (lengths_nonneg l). unfold pc_end in *. lia.
Qed.

Definition packet : ip_parsed := IpParsed source destination protocol (concat (pc_payload <$> all)).

Lemma reassemble_piece got p rest r t0 t :
  all ≡ₚ got ++ p :: rest → holds got r → open_entry (fragment p) t0 = (r, t) →
  match rest with
  | [] => reassemble_ip (fragment p) t0 = (Some packet, discard key t)
  | _ => ∃ r', reassemble_ip (fragment p) t0 = (None, table_set key r' t) ∧ holds (got ++ [p]) r'
  end.
Proof using Hok Htiles Hmany Hhead.
  intros Hperm Hr Ho. pose proof (add_piece got p rest r Hperm Hr) as Ha.
  assert (Hw : reassemble_ip (fragment p) t0 =
    match add_fragment (fragment p) r with
    | Discarded => (None, discard key t) | Ignored => (None, t)
    | Kept r => (None, table_set key r t) | Completed packet => (Some packet, discard key t)
    end).
  { unfold reassemble_ip. cbn [fragment if_offset if_more].
    rewrite fragment_not_whole by (rewrite Hperm; set_solver). fold (fragment p). by rewrite Ho. }
  rewrite Hw. destruct rest as [|q rest].
  - by rewrite Ha.
  - destruct Ha as (r'&->&Hr'). by exists r'.
Qed.

Lemma arrivals_rest rest got r t :
  all ≡ₚ got ++ rest → rest ≠ [] → holds got r → table_get key t = Some r →
  ∃ t', arrivals (fragment <$> rest) t = (replicate (pred (length rest)) None ++ [Some packet], t') ∧
    table_get key t' = None.
Proof using Hok Htiles Hmany Hhead.
  revert got r t; induction rest as [|p rest IH]; intros got r t Hperm Hne Hr Ht; [done|].
  assert (Ho : open_entry (fragment p) t = (r, t)).
  { unfold open_entry. change (ip_reassembly_key (fragment p)) with key. by rewrite Ht. }
  pose proof (reassemble_piece got p rest r t t Hperm Hr Ho) as Hstep.
  rewrite fmap_cons. cbn [arrivals]. destruct rest as [|q rest].
  - rewrite Hstep. cbn. eexists; split; [done|]. apply table_get_discard.
  - destruct Hstep as (r'&->&Hr').
    destruct (IH (got ++ [p]) r' (table_set key r' t)) as (t'&E&Ht'); [|done|done| |].
    + by rewrite <- app_assoc.
    + by eapply table_get_set.
    + rewrite E. by eexists.
Qed.

Lemma arrivals_all order t :
  all ≡ₚ order → table_get key t = None →
  ∃ t', arrivals (fragment <$> order) t = (replicate (pred (length order)) None ++ [Some packet], t') ∧
    table_get key t' = None.
Proof using Hok Htiles Hmany Hhead.
  intros Hperm Ht. destruct order as [|p order].
  { apply Permutation_nil_r in Hperm. rewrite Hperm in Hmany. simpl in Hmany; lia. }
  destruct (open_entry (fragment p) t) as [r t1] eqn:Ho.
  assert (Hr : holds [] r).
  { unfold open_entry in Ho. change (ip_reassembly_key (fragment p)) with key in Ho. rewrite Ht in Ho.
    injection Ho as <- _. split_and!; try done. constructor. }
  pose proof (open_entry_get _ _ _ _ Ho) as Hget.
  pose proof (reassemble_piece [] p order r t t1 Hperm Hr Ho) as Hstep.
  rewrite fmap_cons. cbn [arrivals]. destruct order as [|q order].
  - apply Permutation_length in Hperm. simpl in Hperm; lia.
  - destruct Hstep as (r'&->&Hr').
    destruct (arrivals_rest (q :: order) [p] r' (table_set key r' t1)) as (t'&E&Ht');
      [done|done|done|by eapply table_get_set|].
    rewrite E. by eexists.
Qed.
End datagram.

(** Reassembly. The fragments of one datagram, any way it was cut (2 to 64
    non-empty pieces that cover it), arriving in any order, give nothing until
    the last of them arrives and then the datagram: the payloads joined in the
    order of their offsets. The table keeps nothing of it. *)
Theorem reassembly_any_order source destination protocol identification header_length pieces total
    order t :
  Forall piece_ok pieces → covered pieces 0 = Some total → (2 ≤ length pieces ≤ 64)%nat →
  total + header_length ≤ 0xffff → pieces ≡ₚ order →
  table_get (source, destination, protocol, identification) t = None →
  ∃ t', arrivals (fragment source destination protocol identification header_length total <$> order) t
    = (replicate (pred (length order)) None ++
       [Some (IpParsed source destination protocol (concat (pc_payload <$> pieces)))], t') ∧
    table_get (source, destination, protocol, identification) t' = None.
Proof. intros. by apply arrivals_all. Qed.

Lemma reassembly_any_order_witness :
  let pieces := [Piece 0 (zeros 8); Piece 8 (replicate 16 1); Piece 24 [7; 8; 9]] in
  ∃ t', arrivals (fragment 1 2 17 5 20 27 <$>
      [Piece 24 [7; 8; 9]; Piece 0 (zeros 8); Piece 8 (replicate 16 1)]) []
    = ([None; None; Some (IpParsed 1 2 17 (zeros 8 ++ replicate 16 1 ++ [7; 8; 9]))], t') ∧
    table_get (1, 2, 17, 5) t' = None.
Proof.
  apply (reassembly_any_order 1 2 17 5 20
    [Piece 0 (zeros 8); Piece 8 (replicate 16 1); Piece 24 [7; 8; 9]] 27
    [Piece 24 [7; 8; 9]; Piece 0 (zeros 8); Piece 8 (replicate 16 1)] []).
  - apply Forall_cons_2; [|apply Forall_cons_2; [|apply Forall_cons_2; [|apply Forall_nil_2]]];
      (split; [discriminate|reflexivity]).
  - reflexivity.
  - simpl; lia.
  - discriminate.
  - apply (Permutation_app_comm [Piece 0 (zeros 8); Piece 8 (replicate 16 1)] [Piece 24 [7; 8; 9]]).
  - reflexivity.
Defined.

(** * From a payload to frames and back *)

(** Where [send_ip] cuts a payload. *)
Fixpoint tiles (fuel : nat) (payload : list Z) (offset : Z) : list piece :=
  match fuel with
  | O => []
  | S fuel =>
      if offset <? zlen payload
      then Piece offset (subarray payload offset (Z.min (offset + IP_FRAGMENT_PAYLOAD) (zlen payload)))
             :: tiles fuel payload (offset + IP_FRAGMENT_PAYLOAD)
      else []
  end.

Lemma tiles_spec fuel payload offset :
  0 ≤ offset → zlen payload - offset ≤ Z.of_nat fuel →
  Forall piece_ok (tiles fuel payload offset) ∧
  (offset ≤ zlen payload → covered (tiles fuel payload offset) offset = Some (zlen payload)) ∧
  concat (pc_payload <$> tiles fuel payload offset) = drop (Z.to_nat offset) payload ∧
  1480 * Z.of_nat (length (tiles fuel payload offset)) < Z.max 0 (zlen payload - offset) + 1480 ∧
  Forall (fun p => zlen (pc_payload p) ≤ 1480) (tiles fuel payload offset).
Proof.
  revert offset; induction fuel as [|fuel IH]; intros offset Ho Hf; cbn [tiles].
  { split_and!; [done| |rewrite drop_ge; [done|unfold zlen in *; lia]|simpl; lia|done].
    intros. cbn. f_equal. lia. }
  change IP_FRAGMENT_PAYLOAD with 1480. destruct (Z.ltb_spec offset (zlen payload)) as [Hlt|Hge].
  2: { split_and!; [done| |rewrite drop_ge; [done|unfold zlen in *; lia]|simpl; lia|done].
       intros. cbn. f_equal. lia. }
  set (e := Z.min (offset + 1480) (zlen payload)).
  assert (Hz : zlen (subarray payload offset e) = e - offset) by (apply zlen_subarray; lia).
  destruct (IH (offset + 1480)) as (H1&H2&H3&H4&H5); [lia|lia|]. split_and!.
  - constructor; [|done]. split; cbn; lia.
  - intros _. cbn [covered pc_offset pc_payload]. rewrite Z.eqb_refl, Hz. cbn [negb].
    destruct (decide (offset + 1480 ≤ zlen payload)).
    + replace (offset + (e - offset)) with (offset + 1480) by lia. auto.
    + assert (tiles fuel payload (offset + 1480) = []) as ->.
      { destruct fuel; [done|]. cbn [tiles]. destruct (Z.ltb_spec (offset + 1480) (zlen payload)); [lia|done]. }
      cbn. f_equal. lia.
  - rewrite fmap_cons. cbn [concat pc_payload]. rewrite H3.
    destruct (decide (offset + 1480 ≤ zlen payload)).
    + rewrite <- (subarray_clamp payload (offset + 1480) (zlen payload)) by lia.
      rewrite <- (subarray_clamp payload offset (zlen payload)) by lia.
      replace e with (offset + 1480) by lia. apply subarray_snoc_range; lia.
    + replace e with (zlen payload) by lia. rewrite (drop_ge payload (Z.to_nat (offset + 1480)))
        by (unfold zlen in *; lia). rewrite app_nil_r. by apply subarray_clamp.
  - cbn [length]. lia.
  - constructor; [|done]. cbn. lia.
Qed.

Lemma Forall2_reorder {A B} (P : A → B → Prop) l1 l2 l1' :
  Forall2 P l1 l2 → l1 ≡ₚ l1' → ∃ l2', Forall2 P l1' l2' ∧ l2 ≡ₚ l2'.
Proof.
  intros H Hp. revert l2 H. induction Hp as [|x l l' Hp IH|x y l|l l' l'' Hp IH1 Hp2 IH2]; intros l2 H.
  - apply Forall2_nil_inv_l in H as ->. by exists [].
  - apply Forall2_cons_inv_l in H as (z&r&H1&H2&->). destruct (IH _ H2) as (r'&H3&H4).
    exists (z :: r'). split; [by constructor|by constructor].
  - apply Forall2_cons_inv_l in H as (z&r&H1&H2&->). apply Forall2_cons_inv_l in H2 as (z'&r'&H2&H3&->).
    exists (z' :: z :: r'). split; [by repeat constructor|constructor].
  - destruct (IH1 _ H) as (r&H1&H2). destruct (IH2 _ H1) as (r'&H3&H4). exists r'. split; [done|by etrans].
Qed.

Lemma fragment_flags :
  Forall (fun x => ((0x2000 ||| x) &&& 0x1fff = x ∧ (0x2000 ||| x) &&& 0x2000 = 0x2000) ∧
                   (0 ||| x) &&& 0x1fff = x ∧ (0 ||| x) &&& 0x2000 = 0 ∧
                   0 ≤ 0x2000 ||| x < 65536) (seqZ 0 8192).
Proof. apply (bool_decide_unpack _). vm_compute. exact I. Qed.

Section sending.
Context (mac : list Z) (sip dip proto identification : Z) (payload : list Z).
Context (Hargs : ip_args_ok mac sip dip proto payload identification 0).

Lemma fragment_frame p :
  piece_ok p → pc_offset p mod 8 = 0 → pc_end p ≤ zlen payload →
  (pc_end p < zlen payload → zlen (pc_payload p) = 1480) →
  ∃ frame, ip_packet mac sip dip proto (pc_payload p) identification
      ((if pc_end p <? zlen payload then 0x2000 else 0) ||| (pc_offset p / 8)) = Done frame ∧
    parse_ip frame = Done (Some (fragment sip dip proto identification 20 (zlen payload) p)).
Proof using Hargs.
  intros [Ho Hl] Hmod Hend Hfull. destruct Hargs. unfold MAX_IP_PAYLOAD in *.
  change ipv4_size with 20 in *. unfold pc_end in *.
  assert (Hx : 0 ≤ pc_offset p / 8 < 8192)
    by (split; [apply Z.div_pos|apply Z.div_lt_upper_bound]; lia).
  assert (Hdiv : pc_offset p / 8 * 8 = pc_offset p) by (pose proof (Z.div_mod (pc_offset p) 8); lia).
  pose proof fragment_flags as Hf. rewrite Forall_forall in Hf.
  destruct (Hf (pc_offset p / 8)) as ((F1&F2)&F3&F4&F5); [apply elem_of_seqZ; lia|].
  remember ((if pc_offset p + zlen (pc_payload p) <? zlen payload then 0x2000 else 0)
    ||| pc_offset p / 8) as flags eqn:Hfl.
  assert (Hflags : flags &&& 0x1fff = pc_offset p / 8 ∧
    negb (flags &&& 0x2000 =? 0) = (pc_offset p + zlen (pc_payload p) <? zlen payload) ∧
    0 ≤ flags < 65536).
  { subst flags. destruct (Z.ltb_spec (pc_offset p + zlen (pc_payload p)) (zlen payload)).
    - rewrite F1, F2. split_and!; [done|done|lia|lia].
    - rewrite F3, F4, Z.lor_0_l. split_and!; [done|done|lia|lia]. }
  clear Hfl. destruct Hflags as (G1&G2&G3).
  assert (Hok : ip_args_ok mac sip dip proto (pc_payload p) identification flags).
  { constructor; try done. unfold MAX_IP_PAYLOAD. change ipv4_size with 20. lia. }
  destruct (ip_packet_eq _ _ _ _ _ _ _ Hok) as [E Hc]. eexists; split; [exact E|].
  rewrite (parse_ip_packet mac) by done. do 2 f_equal.
  unfold fragment_of. rewrite G1, G2, Hdiv. unfold MAX_IP_PAYLOAD. change ipv4_size with 20.
  assert ((zlen (pc_payload p) =? 0) = false) as -> by (apply Z.eqb_neq; lia).
  assert ((0xffff - 20 <? pc_offset p + zlen (pc_payload p)) = false) as -> by (apply Z.ltb_ge; lia).
  rewrite andb_false_r, orb_false_r. cbn [orb].
  unfold fragment, pc_end.
  destruct (Z.ltb_spec (pc_offset p + zlen (pc_payload p)) (zlen payload)) as [Hlt|Hge]; cbn [andb].
  - rewrite Hfull by done. change (negb (1480 mod 8 =? 0)) with false. cbn.
    rewrite (proj2 (Z.eqb_neq _ _)); [done|]. rewrite Hfull in Hlt by done. lia.
  - assert (pc_offset p + zlen (pc_payload p) = zlen payload) as -> by lia. by rewrite Z.eqb_refl.
Qed.

Lemma ip_fragments_tiles fuel offset :
  0 ≤ offset → offset mod 8 = 0 → zlen payload - offset ≤ Z.of_nat fuel →
  ∃ frames, ip_fragments fuel mac sip dip proto payload identification offset = Done frames ∧
    Forall2 (fun frame p =>
      parse_ip frame = Done (Some (fragment sip dip proto identification 20 (zlen payload) p)))
      frames (tiles fuel payload offset).
Proof using Hargs.
  revert offset; induction fuel as [|fuel IH]; intros offset Ho Hm Hf; cbn [ip_fragments tiles].
  { destruct (Z.ltb_spec offset (zlen payload)); [lia|]. exists []. by split. }
  destruct (Z.ltb_spec offset (zlen payload)) as [Hlt|]; [|exists []; by split].
  change IP_FRAGMENT_PAYLOAD with 1480. set (e := Z.min (offset + 1480) (zlen payload)).
  assert (Hz : zlen (subarray payload offset e) = e - offset) by (apply zlen_subarray; lia).
  destruct (fragment_frame (Piece offset (subarray payload offset e))) as (frame&E&Hp).
  { split; cbn; lia. } { done. } { unfold pc_end; cbn. lia. } { unfold pc_end; cbn. lia. }
  unfold pc_end in E. cbn [pc_offset pc_payload] in E. rewrite Hz in E.
  replace (offset + (e - offset)) with e in E by lia. rewrite E. cbn [mbind outcome_bind].
  destruct (IH (offset + 1480)) as (frames&E2&Hps); [lia| |lia|].
  { rewrite Z.add_mod by lia. rewrite Hm. done. }
  rewrite E2. exists (frame :: frames). split; [done|]. by constructor.
Qed.
End sending.

(** C23: fragmentation loses nothing. A payload too large for one frame is sent
    as frames that each parse to a fragment, and whatever order the frames
    arrive in, reassembly gives the payload back exactly when the last of them
    has arrived. *)
Theorem send_ip_reassembles mac sip dip proto payload identifier order t :
  ip_args_ok mac sip dip proto payload 0 0 → IP_FRAGMENT_PAYLOAD < zlen payload →
  let id := to_i32 identifier &&& 0xffff in
  ∃ frames, send_ip mac sip dip proto payload identifier = (Done frames, identifier + 1) ∧
    (frames ≡ₚ order → table_get (sip, dip, proto, id) t = None →
     ∃ fs t', Forall2 (fun frame f => parse_ip frame = Done (Some f)) order fs ∧
       arrivals fs t = (replicate (pred (length order)) None ++
                          [Some (IpParsed sip dip proto payload)], t')).
Proof.
  intros [] Hlarge id. change IP_FRAGMENT_PAYLOAD with 1480 in *.
  unfold MAX_IP_PAYLOAD in *. change ipv4_size with 20 in *.
  assert (Hid : 0 ≤ id < 65536).
  { unfold id. change 0xffff with (Z.ones 16). rewrite Z.land_ones by lia. apply Z.mod_pos_bound. lia. }
  assert (Hargs : ip_args_ok mac sip dip proto payload id 0) by by constructor.
  destruct (ip_fragments_tiles _ _ _ _ _ _ Hargs (length payload) 0) as (frames&E&Hframes);
    [done|done|unfold zlen; lia|].
  exists frames. split.
  { unfold send_ip. unfold MAX_IP_PAYLOAD. change ipv4_size with 20.
    assert ((0xffff - 20 <? zlen payload) = false) as -> by (apply Z.ltb_ge; lia).
    unfold mbind, M_bind, get_state, put_state. fold id. change IP_FRAGMENT_PAYLOAD with 1480.
    assert ((zlen payload <=? 1480) = false) as -> by (apply Z.leb_gt; lia).
    unfold lift. by rewrite E. }
  intros Hperm Ht.
  destruct (tiles_spec (length payload) payload 0) as (H1&H2&H3&H4&H5); [done|unfold zlen; lia|].
  specialize (H2 ltac:(lia)). set (pieces := tiles _ _ _) in *.
  destruct (Forall2_reorder _ _ _ _ Hframes Hperm) as (porder&Hporder&Hpp).
  assert (Hlen : (2 ≤ length pieces ≤ 64)%nat).
  { split; [|lia]. destruct pieces as [|p [|q ps]]; simpl; [| |lia]; exfalso.
    - cbn in H2. injection H2 as H2. lia.
    - assert (zlen (pc_payload p) ≤ 1480) as Hp; [|].
      { by apply Forall_cons in H5 as [? _]. }
      cbn in H2. destruct (pc_offset p =? 0); [|done]. cbn in H2. injection H2 as H2. lia. }
  destruct (arrivals_all sip dip proto id 20 pieces (zlen payload) H1 H2 Hlen ltac:(lia) porder t Hpp Ht)
    as (t'&Harr&_).
  exists (fragment sip dip proto id 20 (zlen payload) <$> porder), t'. split.
  - rewrite Forall2_fmap_r. eapply Forall2_impl; [exact Hporder|]. auto.
  - rewrite Harr. rewrite <- (Forall2_length _ _ _ Hporder). unfold packet. rewrite H3, drop_0. done.
Qed.

Lemma send_ip_reassembles_witness :
  ∃ frames, send_ip [2; 0; 0; 0; 0; 7] 1 2 PROTO_UDP (zeros 1481) 65541 = (Done frames, 65542) ∧
    (frames ≡ₚ frames → table_get (1, 2, PROTO_UDP, to_i32 65541 &&& 0xffff) [] = None →
     ∃ fs t', Forall2 (fun frame f => parse_ip frame = Done (Some f)) frames fs ∧
       arrivals fs [] = (replicate (pred (length frames)) None ++
                          [Some (IpParsed 1 2 PROTO_UDP (zeros 1481))], t')).
Proof.
  assert (Hargs : ip_args_ok [2; 0; 0; 0; 0; 7] 1 2 PROTO_UDP (zeros 1481) 0 0).
  { constructor; [split; [done|]; apply (bool_decide_unpack _); vm_compute; exact I|..];
      try split; vm_compute; first [discriminate|reflexivity]. }
  assert (Hlarge : IP_FRAGMENT_PAYLOAD < zlen (zeros 1481)) by (vm_compute; reflexivity).
  destruct (send_ip [2; 0; 0; 0; 0; 7] 1 2 PROTO_UDP (zeros 1481) 65541) as [o n] eqn:E.
  destruct o as [frames|e|].
  - exists frames.
    destruct (send_ip_reassembles _ _ _ _ _ 65541 frames [] Hargs Hlarge) as (frames'&E'&H).
    rewrite E in E'. injection E' as -> ->. split; [reflexivity|exact H].
  - destruct (send_ip_reassembles _ _ _ _ _ 65541 [] [] Hargs Hlarge) as (frames'&E'&_).
    rewrite E in E'. discriminate.
  - destruct (send_ip_reassembles _ _ _ _ _ 65541 [] [] Hargs Hlarge) as (frames'&E'&_).
    rewrite E in E'. discriminate.
Defined.
