(* ===== verification/Streams.v ===== *)
(** The platform's readable streams, as far as the sources use them: the
    controller's [enqueue], [close], [error] and [desiredSize], the consumer's
    [read] and [cancel]. A stream has a queue of chunks, a size function and a
    high-water mark; a chunk enqueued while a read is pending goes to that
    read. *)
From S2P Require Export Prelude.

Inductive stream_state := Readable | CloseRequested | StreamClosed | StreamErrored.
#[export] Instance stream_state_eq_dec : EqDecision stream_state.
Proof. solve_decision. Defined.

Record stream := Stream {
  st_hwm : Z; st_size : list Z → Z;
  st_queue : list (list Z); st_reads : nat; st_state : stream_state }.

Definition stream_new (hwm : Z) (size : list Z → Z) : stream := Stream hwm size [] 0 Readable.

Definition with_queue (q : list (list Z)) (reads : nat) (st : stream_state) (s : stream) : stream :=
  Stream (st_hwm s) (st_size s) q reads st.

Definition queue_size (s : stream) : Z := sum_list_z (st_size s <$> st_queue s).

Definition desired_size (s : stream) : option Z :=
  match st_state s with
  | StreamErrored => None
  | StreamClosed => Some 0
  | _ => Some (st_hwm s - queue_size s)
  end.

Definition stream_enqueue (chunk : list Z) : M stream unit := fun s =>
  match st_state s, st_reads s with
  | Readable, Datatypes.S reads => (Done tt, with_queue (st_queue s) reads Readable s)
  | Readable, O => (Done tt, with_queue (st_queue s ++ [chunk]) O Readable s)
  | _, _ => (Raise (JsTypeError "Invalid state: Controller is already closed"), s)
  end.

Definition stream_close : M stream unit := fun s =>
  match st_state s, st_queue s with
  | Readable, [] => (Done tt, with_queue [] O StreamClosed s)
  | Readable, q => (Done tt, with_queue q (st_reads s) CloseRequested s)
  | _, _ => (Raise (JsTypeError "Invalid state: Controller is already closed"), s)
  end.

Definition stream_error (s : stream) : stream :=
  match st_state s with
  | Readable | CloseRequested => with_queue [] O StreamErrored s
  | _ => s
  end.

(** [reader.read()] *)
Definition stream_read (s : stream) : stream :=
  match st_state s, st_queue s with
  | Readable, [] => with_queue [] (Datatypes.S (st_reads s)) Readable s
  | Readable, _ :: q => with_queue q (st_reads s) Readable s
  | CloseRequested, _ :: (_ :: _) as q => with_queue (tail q) (st_reads s) CloseRequested s
  | CloseRequested, _ => with_queue [] O StreamClosed s
  | _, _ => s
  end.

Definition stream_cancel (s : stream) : stream :=
  match st_state s with
  | Readable | CloseRequested => with_queue [] O StreamClosed s
  | _ => s
  end.

(** * Queue sizes *)
Section sizes.
Context (s : stream) (Hsize : ∀ c, 0 ≤ st_size s c).

Lemma sum_sizes_nonneg q : 0 ≤ sum_list_z (st_size s <$> q).
Proof using Hsize.
  induction q as [|c q IH]; [done|]. cbn. pose proof (Hsize c).
  unfold sum_list_z in IH. unfold fmap in *. lia.
Qed.

Lemma queue_size_read : queue_size (stream_read s) ≤ queue_size s.
Proof using Hsize.
  unfold stream_read, queue_size. destruct (st_state s), (st_queue s) as [|c [|c' q]]; cbn; try lia;
    pose proof (Hsize c); try pose proof (Hsize c');
    try pose proof (sum_sizes_nonneg q) as Hs; unfold sum_list_z, fmap in *; lia.
Qed.
Lemma queue_size_drop_all n st : queue_size (with_queue [] n st s) ≤ queue_size s.
Proof using Hsize. pose proof (sum_sizes_nonneg (st_queue s)). unfold queue_size at 1. cbn. done. Qed.
Lemma queue_size_error : queue_size (stream_error s) ≤ queue_size s.
Proof using Hsize. unfold stream_error. destruct (st_state s); auto using queue_size_drop_all; lia. Qed.
Lemma queue_size_cancel : queue_size (stream_cancel s) ≤ queue_size s.
Proof using Hsize. unfold stream_cancel. destruct (st_state s); auto using queue_size_drop_all; lia. Qed.
Lemma queue_size_close : queue_size (stream_close s).2 ≤ queue_size s.
Proof using Hsize.
  unfold stream_close. destruct (st_state s), (st_queue s) as [|c q] eqn:E; cbn;
    unfold queue_size; cbn; rewrite ?E; cbn; lia.
Qed.
End sizes.

Lemma queue_size_enqueue chunk s :
  0 ≤ st_size s chunk → queue_size (stream_enqueue chunk s).2 ≤ queue_size s + st_size s chunk.
Proof.
  intros H. unfold stream_enqueue, queue_size.
  destruct (st_state s), (st_reads s); cbn [snd st_queue st_size with_queue]; try lia.
  rewrite fmap_app, sum_list_z_app. unfold sum_list_z. cbn. lia.
Qed.

Lemma stream_ops_shape s :
  (∀ c, st_size (stream_enqueue c s).2 = st_size s ∧ st_hwm (stream_enqueue c s).2 = st_hwm s) ∧
  (st_size (stream_close s).2 = st_size s ∧ st_hwm (stream_close s).2 = st_hwm s) ∧
  (st_size (stream_error s) = st_size s ∧ st_hwm (stream_error s) = st_hwm s) ∧
  (st_size (stream_read s) = st_size s ∧ st_hwm (stream_read s) = st_hwm s) ∧
  (st_size (stream_cancel s) = st_size s ∧ st_hwm (stream_cancel s) = st_hwm s).
Proof.
  unfold stream_enqueue, stream_close, stream_error, stream_read, stream_cancel.
  repeat split; destruct (st_state s), (st_reads s), (st_queue s) as [|? [|? ?]]; done.
Qed.
