(* ===== verification/Tcp.v ===== *)
(** The gateway's TCP flows: the flow operations of [createNetwork] in
    packages/linux-guest/src/network.ts.

    A flow is its object's state; the log lists what the flow's operations do
    to the rest of the program. An asynchronous function is cut at its awaits:
    [task] names the point where it is suspended and [resume] runs it from
    there to its next await. *)
From S2P Require Export Ipv4 Streams.

Definition sequence_add (sequence amount : Z) : Z := to_u32 (sequence + amount).

(** What an operation does outside the flow. *)
Inductive event :=
| Sent (flags sequence acknowledgement : Z) (payload : list Z) (window : Z)
| Enqueued (chunk : list Z)
| AckSettled (waiter : nat) (o : option exn)
| WindowSettled (waiter : nat) (o : option exn)
| HandshakeResolved
| HandshakeRejected (e : exn)
| ActivationSettled (o : option exn)
| AbortSignalled (e : exn)
| Deleted.

(** A job of [receive_tail]: a segment to process, or a window update. *)
Inductive job := JSegment (segment : tcp_parsed) | JWindow.

Record flow := Flow {
  fl_guest_ip : Z; fl_guest_port : Z; fl_peer_ip : Z; fl_peer_port : Z;
  fl_send_sequence : Z; fl_receive_sequence : Z;
  fl_established : bool; fl_local_ended : bool; fl_remote_ended : bool; fl_closed : bool;
  fl_ack_waiters : list (nat * Z); fl_window_waiters : list nat;
  fl_receive_tail : list job;
  fl_advertised_window : Z; fl_peer_window : Z;
  fl_handshake : bool; fl_handshake_timeout : bool;
  fl_readable : option stream;
  fl_activation : bool; fl_activation_waiter : bool; fl_abort : bool; fl_receive_demand : bool;
  fl_next_waiter : nat; fl_log : list event }.
#[export] Instance flow_eta : Eta flow := fun f =>
  Flow (fl_guest_ip f) (fl_guest_port f) (fl_peer_ip f) (fl_peer_port f)
    (fl_send_sequence f) (fl_receive_sequence f)
    (fl_established f) (fl_local_ended f) (fl_remote_ended f) (fl_closed f)
    (fl_ack_waiters f) (fl_window_waiters f) (fl_receive_tail f)
    (fl_advertised_window f) (fl_peer_window f) (fl_handshake f) (fl_handshake_timeout f)
    (fl_readable f) (fl_activation f) (fl_activation_waiter f) (fl_abort f) (fl_receive_demand f)
    (fl_next_waiter f) (fl_log f).

Definition log (e : event) (f : flow) : flow := f <| fl_log := fl_log f ++ [e] |>.

(** The object [connect_tcp] and [start_outbound_tcp] put in [tcp_flows]. *)
Definition outbound_flow (guest_ip guest_port peer_ip peer_port initial : Z) (segment : tcp_parsed) : flow :=
  Flow guest_ip guest_port peer_ip peer_port initial (sequence_add (ts_sequence segment) 1)
    false false false false [] [] [] TCP_RECEIVE_WINDOW (ts_window segment)
    false false None false false true false 0 [].
Definition connect_flow (guest_ip guest_port peer_ip peer_port initial : Z) : flow :=
  Flow guest_ip guest_port peer_ip peer_port (sequence_add initial 1) 0
    false false false false [] [] [] TCP_RECEIVE_WINDOW 0
    true false None false false false false 0 [].

Definition tcp_receive_window (f : flow) : Z :=
  match fl_readable f with
  | None => TCP_RECEIVE_WINDOW
  | Some s =>
      if fl_activation f then (if fl_receive_demand f then TCP_RECEIVE_WINDOW else 0)
      else Z.max 0 (Z.min TCP_RECEIVE_WINDOW (default 0 (desired_size s)))
  end.

(** [send_tcp] up to its await: the segment is handed to [send_ip]. *)
Definition send_tcp (flags : Z) (payload : list Z) (f : flow) : flow :=
  let window := tcp_receive_window f in
  log (Sent flags (fl_send_sequence f) (fl_receive_sequence f) payload window)
    (f <| fl_advertised_window := window |>).

(** Pushes a waiter; the promise it settles is named by its number. *)
Definition wait_for_ack (acknowledgement : Z) : M flow nat := fun f =>
  (Done (fl_next_waiter f),
   f <| fl_ack_waiters := fl_ack_waiters f ++ [(fl_next_waiter f, acknowledgement)] |>
     <| fl_next_waiter := S (fl_next_waiter f) |>).

(** The timeout of [wait_for_ack]. *)
Definition ack_timeout (waiter : nat) (f : flow) : flow :=
  if decide (waiter ∈ (fst <$> fl_ack_waiters f))
  then log (AckSettled waiter (Some (JsError "timed out waiting for guest TCP acknowledgement")))
         (f <| fl_ack_waiters := filter (fun w => w.1 ≠ waiter) (fl_ack_waiters f) |>)
  else f.

(** From the last waiter to the first. *)
Definition acknowledge_waiters (acknowledgement : Z) (f : flow) : flow :=
  let hit := filter (fun w => w.2 = acknowledgement) (fl_ack_waiters f) in
  let f := f <| fl_ack_waiters := filter (fun w => w.2 ≠ acknowledgement) (fl_ack_waiters f) |> in
  f <| fl_log := fl_log f ++ ((fun w => AckSettled w.1 None) <$> reverse hit) |>.

Definition update_peer_window (window : Z) (f : flow) : flow :=
  let f := f <| fl_peer_window := window |> in
  if window =? 0 then f else
  let waiters := fl_window_waiters f in
  let f := f <| fl_window_waiters := [] |> in
  f <| fl_log := fl_log f ++ ((fun w => WindowSettled w None) <$> waiters) |>.

(** * Closing *)
Definition closed_error : exn := JsError "TCP connection closed".

Definition settle_activation (o : option exn) (f : flow) : flow :=
  (if fl_activation_waiter f then log (ActivationSettled o) f else f) <| fl_activation_waiter := false |>.

Definition reject_ack_waiters (reason : exn) (f : flow) : flow :=
  f <| fl_log := fl_log f ++ ((fun w => AckSettled w.1 (Some reason)) <$> fl_ack_waiters f) |>
    <| fl_ack_waiters := [] |>.
Definition reject_window_waiters (reason : exn) (f : flow) : flow :=
  f <| fl_log := fl_log f ++ ((fun w => WindowSettled w (Some reason)) <$> fl_window_waiters f) |>
    <| fl_window_waiters := [] |>.
Definition signal_abort (reason : exn) (f : flow) : flow :=
  if fl_abort f then log (AbortSignalled reason) f else f.

(** The readable half and a pending [connect]: an error is passed on, and a
    stream that is closed already is left alone. *)
Definition end_readable (error : option exn) (f : flow) : flow :=
  match error with
  | Some e =>
      let f := f <| fl_readable := stream_error <$> fl_readable f |> in
      if fl_handshake f then log (HandshakeRejected e) f else f
  | None => f <| fl_readable := (fun s => (stream_close s).2) <$> fl_readable f |>
  end.

Definition close_tcp_flow (error : option exn) (f : flow) : flow :=
  if fl_closed f then f else
  let reason := default closed_error error in
  let f := log Deleted (f <| fl_closed := true |>) in
  let f := reject_ack_waiters reason f in
  let f := reject_window_waiters reason f in
  let f := settle_activation (Some reason) f in
  let f := signal_abort reason f in
  end_readable error f.

Definition abort_tcp_flow (error : option exn) (f : flow) : flow :=
  if fl_closed f then f else
  close_tcp_flow error (send_tcp (RST ||| ACK) [] f).

Definition expire_tcp_handshake (f : flow) : flow := f <| fl_handshake_timeout := true |>.

(** The handshake's timer: cleared when the flow is established or closed. *)
Definition handshake_timeout (message : string) (f : flow) : flow :=
  if (fl_handshake_timeout f && negb (fl_closed f))%bool
  then abort_tcp_flow (Some (JsError message)) (f <| fl_handshake_timeout := false |>) else f.

Definition establish_tcp_flow (f : flow) : flow :=
  settle_activation None (f <| fl_established := true |>) <| fl_handshake_timeout := false |>.

(** The readable half of [host_tcp_connection]. *)
Definition host_tcp_connection (activate : bool) (f : flow) : flow :=
  f <| fl_readable := Some (stream_new (if activate then 0 else TCP_RECEIVE_WINDOW) zlen) |>.

(** An outbound connection refused before it was activated. *)
Definition reject_outbound_tcp (error : exn) (f : flow) : flow :=
  close_tcp_flow (Some error)
    (log (Sent (RST ||| ACK) 0 (fl_receive_sequence f) [] TCP_RECEIVE_WINDOW) f).

(** * Asynchronous operations, cut at their awaits *)
Inductive task :=
| THandshakeAcked                                     (* process_tcp, the handshake's ACK sent *)
| TSegmentAcked                                       (* process_tcp, after its last ACK *)
| TSent                                               (* nothing left after the send *)
| TDataWindow (data : list Z) (offset : Z) (waiter : nat)
| TDataHave (data : list Z) (offset peer_window : Z)
| TDataSent (data : list Z) (offset len acknowledgement : Z) (waiter : nat)
| TDataAck (data : list Z) (offset : Z) (waiter : nat)
| TFinWindow (waiter : nat)
| TFinHave
| TFinSent (acknowledgement : Z) (waiter : nat)
| TFinAck (waiter : nat)
| TActivateSent
| TActivateWait.

#[export] Instance task_eq_dec : EqDecision task.
Proof. solve_decision. Defined.

(** Runs to an await ([Some]) or to the end ([None]). *)
Abbreviation async := (M flow (option task)).

Definition push_window_waiter : M flow nat := fun f =>
  (Done (fl_next_waiter f),
   f <| fl_window_waiters := fl_window_waiters f ++ [fl_next_waiter f] |>
     <| fl_next_waiter := S (fl_next_waiter f) |>).

(** [wait_for_peer_window], from the head of its loop. *)
Definition wait_for_peer_window (waiting : nat → task) (have : Z → task) : async :=
  f ← get_state;
  if (negb (fl_closed f) && (fl_peer_window f =? 0))%bool then
    waiter ← push_window_waiter; mret (Some (waiting waiter))
  else if (fl_closed f || fl_local_ended f)%bool then throw (JsError "TCP connection is closed")
  else mret (Some (have (fl_peer_window f))).

(** [send_tcp_data], from the head of its loop. *)
Definition send_tcp_data (data : list Z) (offset : Z) : async :=
  if negb (offset <? zlen data) then mret None else
  f ← get_state;
  if (fl_closed f || fl_local_ended f)%bool then throw (JsError "TCP connection is closed") else
  wait_for_peer_window (TDataWindow data offset) (TDataHave data offset).

Definition send_tcp_piece (data : list Z) (offset peer_window : Z) : async :=
  let length := Z.min TCP_MSS (Z.min peer_window (zlen data - offset)) in
  let payload := subarray data offset (offset + length) in
  f ← get_state;
  let acknowledgement := sequence_add (fl_send_sequence f) (zlen payload) in
  waiter ← wait_for_ack acknowledgement;
  modify (send_tcp (ACK ||| PSH) payload) ;;
  mret (Some (TDataSent data offset length acknowledgement waiter)).

Definition send_tcp_fin : async :=
  f ← get_state;
  if (fl_closed f || fl_local_ended f)%bool then mret None else
  wait_for_peer_window TFinWindow (fun _ => TFinHave).

Definition send_fin_segment : async :=
  modify (fun f => f <| fl_local_ended := true |>) ;;
  f ← get_state;
  let acknowledgement := sequence_add (fl_send_sequence f) 1 in
  waiter ← wait_for_ack acknowledgement;
  modify (send_tcp (ACK ||| FIN) []) ;;
  mret (Some (TFinSent acknowledgement waiter)).

(** The body of [activate] on its first call; [flow.activation] is assigned
    when the body has reached its first await. *)
Definition activate_flow : async :=
  modify (fun f => f <| fl_activation_waiter := true |>) ;;
  modify (send_tcp (SYN ||| ACK) []) ;;
  modify (fun f => f <| fl_activation := true |>) ;;
  mret (Some TActivateSent).

(** [flow.readable?.enqueue(chunk)] and [flow.readable?.close()] *)
Definition readable_op (op : M stream unit) (on_done : flow → flow) : M flow unit := fun f =>
  match fl_readable f with
  | None => (Done tt, f)
  | Some s =>
      let '(o, s') := op s in
      let f' := f <| fl_readable := Some s' |> in
      match o with Done _ => (Done tt, on_done f') | Raise e => (Raise e, f') | Loops => (Loops, f') end
  end.

(** [process_tcp] before the connection is established. *)
Definition process_handshake (segment : tcp_parsed) : async :=
  f ← get_state;
  let flags := ts_flags segment in
  if fl_handshake f then
    if (negb (flags &&& (SYN ||| ACK) =? (SYN ||| ACK))
        || negb (ts_acknowledgement segment =? fl_send_sequence f))%bool then mret None else
    modify (fun f => f <| fl_receive_sequence := sequence_add (ts_sequence segment) 1 |>) ;;
    modify establish_tcp_flow ;;
    modify (send_tcp ACK []) ;;
    mret (Some THandshakeAcked)
  else if (negb (flags &&& ACK =? 0) && (ts_acknowledgement segment =? fl_send_sequence f))%bool then
    modify establish_tcp_flow ;; mret None
  else mret None.

(** What an in-sequence segment does. *)
Definition accept_payload (payload : list Z) : M flow unit :=
  if 0 <? zlen payload then
    readable_op (stream_enqueue payload) (log (Enqueued payload)) ;;
    modify (fun f => f <| fl_receive_demand := false |>
                       <| fl_receive_sequence := sequence_add (fl_receive_sequence f) (zlen payload) |>)
  else mret tt.
Definition accept_fin (flags : Z) : M flow unit :=
  if negb (flags &&& FIN =? 0) then
    modify (fun f => f <| fl_receive_sequence := sequence_add (fl_receive_sequence f) 1 |>
                       <| fl_remote_ended := true |>) ;;
    readable_op stream_close (fun f => f)
  else mret tt.

(** [process_tcp] on an established connection. *)
Definition process_data (segment : tcp_parsed) : async :=
  f ← get_state;
  let flags := ts_flags segment in
  let len := zlen (ts_payload segment) in
  let consumes := len + (if negb (flags &&& FIN =? 0) then 1 else 0) in
  if consumes =? 0 then mret None else
  if negb (ts_sequence segment =? fl_receive_sequence f) then
    modify (send_tcp ACK []) ;; mret (Some TSent)
  else if ((0 <? len) && (tcp_receive_window f <? len))%bool then
    modify (send_tcp ACK []) ;; mret (Some TSent)
  else
  accept_payload (ts_payload segment) ;;
  accept_fin flags ;;
  modify (send_tcp ACK []) ;;
  mret (Some TSegmentAcked).

Definition note_ack (segment : tcp_parsed) : M flow unit :=
  if negb (ts_flags segment &&& ACK =? 0) then
    modify (update_peer_window (ts_window segment)) ;;
    modify (acknowledge_waiters (ts_acknowledgement segment))
  else mret tt.

Definition process_tcp (segment : tcp_parsed) : async :=
  f ← get_state;
  if fl_closed f then mret None else
  if negb (ts_flags segment &&& RST =? 0) then
    modify (close_tcp_flow (Some (JsError "guest reset TCP connection"))) ;; mret None
  else
  note_ack segment ;;
  f ← get_state;
  if negb (fl_established f) then process_handshake segment else process_data segment.

(** The body of the job [update_tcp_window] appends. *)
Definition process_window : async :=
  f ← get_state;
  if (negb (fl_closed f) && fl_established f && (fl_advertised_window f <? tcp_receive_window f))%bool
  then modify (send_tcp ACK []) ;; mret (Some TSent)
  else mret None.

Definition run_job (j : job) : async :=
  match j with JSegment segment => process_tcp segment | JWindow => process_window end.

(** Resumes an async function where it awaits; the promise it awaits was
    fulfilled or rejected as [o] says. *)
Definition resume (t : task) (o : outcome unit) : async :=
  lift o ;;
  match t with
  | THandshakeAcked =>
      modify (host_tcp_connection false) ;;
      modify (fun f => (log HandshakeResolved f) <| fl_handshake := false |>) ;;
      mret None
  | TSegmentAcked =>
      f ← get_state;
      (if (fl_local_ended f && fl_remote_ended f && bool_decide (fl_ack_waiters f = []))%bool
       then modify (close_tcp_flow None) else mret tt) ;;
      mret None
  | TSent => mret None
  | TDataWindow data offset _ => wait_for_peer_window (TDataWindow data offset) (TDataHave data offset)
  | TDataHave data offset peer_window => send_tcp_piece data offset peer_window
  | TDataSent data offset len acknowledgement waiter =>
      modify (fun f => f <| fl_send_sequence := acknowledgement |>) ;;
      mret (Some (TDataAck data (offset + len) waiter))
  | TDataAck data offset _ => send_tcp_data data offset
  | TFinWindow _ => wait_for_peer_window TFinWindow (fun _ => TFinHave)
  | TFinHave => send_fin_segment
  | TFinSent acknowledgement waiter =>
      modify (fun f => f <| fl_send_sequence := acknowledgement |>) ;;
      mret (Some (TFinAck waiter))
  | TFinAck _ =>
      f ← get_state;
      (if fl_remote_ended f then modify (close_tcp_flow None) else mret tt) ;;
      mret None
  | TActivateSent =>
      modify (fun f => f <| fl_send_sequence := sequence_add (fl_send_sequence f) 1 |>) ;;
      mret (Some TActivateWait)
  | TActivateWait => mret None
  end.

(** * A flow and the tasks that run on it

    One job of [receive_tail] runs at a time; the writable half of a connection
    runs one write or close at a time and accepts no more after an error or a
    close; an outbound flow also has its activation and the FIN its handler's
    end sends. [sy_written] is what the host has written. *)
Record sys := Sys {
  sy_flow : flow; sy_running : option task; sy_writer : option task; sy_writable : bool;
  sy_written : list Z; sy_activator : option task; sy_finisher : option task }.
#[export] Instance sys_eta : Eta sys := fun s =>
  Sys (sy_flow s) (sy_running s) (sy_writer s) (sy_writable s) (sy_written s)
    (sy_activator s) (sy_finisher s).

Definition sys_start (f : flow) : sys := Sys f None None true [] None None.

(** What a rejected job, write or FIN does. *)
Definition job_done (r : outcome (option task) * flow) (s : sys) : sys :=
  match r with
  | (Done t, f) => s <| sy_flow := f |> <| sy_running := t |>
  | (Raise e, f) => s <| sy_flow := abort_tcp_flow (Some e) f |> <| sy_running := None |>
  | (Loops, f) => s <| sy_flow := f |> <| sy_running := None |>
  end.
Definition writer_done (r : outcome (option task) * flow) (s : sys) : sys :=
  match r with
  | (Done t, f) => s <| sy_flow := f |> <| sy_writer := t |>
  | (_, f) => s <| sy_flow := f |> <| sy_writer := None |> <| sy_writable := false |>
  end.
Definition activator_done (r : outcome (option task) * flow) (s : sys) : sys :=
  match r with
  | (Done t, f) => s <| sy_flow := f |> <| sy_activator := t |>
  | (_, f) => s <| sy_flow := f |> <| sy_activator := None |>
  end.
Definition finisher_done (r : outcome (option task) * flow) (s : sys) : sys :=
  match r with
  | (Done t, f) => s <| sy_flow := f |> <| sy_finisher := t |>
  | (Raise e, f) => s <| sy_flow := abort_tcp_flow (Some e) f |> <| sy_finisher := None |>
  | (Loops, f) => s <| sy_flow := f |> <| sy_finisher := None |>
  end.

Definition as_outcome (o : option exn) : outcome unit :=
  match o with None => Done tt | Some e => Raise e end.

(** The ways the promise a task awaits can have been settled. *)
Definition awaits (t : task) (f : flow) (o : outcome unit) : Prop :=
  match t with
  | TDataWindow _ _ w | TFinWindow w => ∃ r, WindowSettled w r ∈ fl_log f ∧ o = as_outcome r
  | TDataAck _ _ w | TFinAck w => ∃ r, AckSettled w r ∈ fl_log f ∧ o = as_outcome r
  | TDataHave _ _ _ | TFinHave => o = Done tt
  | TActivateWait => ∃ r, ActivationSettled r ∈ fl_log f ∧ o = as_outcome r
  | _ => o ≠ Loops
  end.

(** The steps of a flow: [arrives] says which segments the guest may send.
    The readable half may pull, be read and be cancelled at any time. *)
Inductive flow_step (outbound : bool) (arrives : tcp_parsed → Prop) : sys → sys → Prop :=
| StepArrive s segment : arrives segment → fl_closed (sy_flow s) = false →
    flow_step outbound arrives s
      (s <| sy_flow := sy_flow s <| fl_receive_tail := fl_receive_tail (sy_flow s) ++ [JSegment segment] |> |>)
| StepWindowUpdate s :
    flow_step outbound arrives s
      (s <| sy_flow := sy_flow s <| fl_receive_tail := fl_receive_tail (sy_flow s) ++ [JWindow] |> |>)
| StepPull s : is_Some (fl_readable (sy_flow s)) →
    flow_step outbound arrives s (s <| sy_flow := sy_flow s <| fl_receive_demand := true |> |>)
| StepJob s j tl : sy_running s = None → fl_receive_tail (sy_flow s) = j :: tl →
    flow_step outbound arrives s
      (job_done (run_job j (sy_flow s <| fl_receive_tail := tl |>)) s)
| StepResumeJob s t o : sy_running s = Some t → awaits t (sy_flow s) o →
    flow_step outbound arrives s (job_done (resume t o (sy_flow s)) s)
| StepWrite s data : sy_writer s = None → sy_writable s = true → is_Some (fl_readable (sy_flow s)) →
    (outbound = false → fl_handshake (sy_flow s) = false) →
    (outbound = true → fl_established (sy_flow s) = true) →
    flow_step outbound arrives s
      (writer_done (send_tcp_data data 0 (sy_flow s)) (s <| sy_written := sy_written s ++ data |>))
| StepClose s : sy_writer s = None → sy_writable s = true → is_Some (fl_readable (sy_flow s)) →
    (outbound = false → fl_handshake (sy_flow s) = false) →
    (outbound = true → fl_established (sy_flow s) = true) →
    flow_step outbound arrives s
      (writer_done (send_tcp_fin (sy_flow s)) (s <| sy_writable := false |>))
| StepResumeWriter s t o : sy_writer s = Some t → awaits t (sy_flow s) o →
    flow_step outbound arrives s (writer_done (resume t o (sy_flow s)) s)
| StepAckTimeout s w :
    flow_step outbound arrives s (s <| sy_flow := ack_timeout w (sy_flow s) |>)
| StepAbort s e :
    flow_step outbound arrives s (s <| sy_flow := abort_tcp_flow e (sy_flow s) |>)
| StepHandshakeTimeout s message :
    flow_step outbound arrives s (s <| sy_flow := handshake_timeout message (sy_flow s) |>)
| StepConsume s f : (f = stream_read ∨ f = stream_cancel) →
    flow_step outbound arrives s
      (s <| sy_flow := sy_flow s <| fl_readable := f <$> fl_readable (sy_flow s) |> |>)
| StepActivate s : outbound = true → fl_activation (sy_flow s) = false → sy_activator s = None →
    flow_step outbound arrives s (activator_done (activate_flow (sy_flow s)) s)
| StepResumeActivator s t o : sy_activator s = Some t → awaits t (sy_flow s) o →
    flow_step outbound arrives s (activator_done (resume t o (sy_flow s)) s)
| StepHandlerDone s : outbound = true → sy_finisher s = None →
    flow_step outbound arrives s (finisher_done (send_tcp_fin (sy_flow s)) s)
| StepResumeFinisher s t o : sy_finisher s = Some t → awaits t (sy_flow s) o →
    flow_step outbound arrives s (finisher_done (resume t o (sy_flow s)) s)
| StepReject s e : outbound = true → fl_activation (sy_flow s) = false →
    flow_step outbound arrives s (s <| sy_flow := reject_outbound_tcp e (sy_flow s) |>).

(** * What the flow has received *)
Fixpoint received (l : list event) : list Z :=
  match l with
  | [] => []
  | Enqueued c :: l => c ++ received l
  | _ :: l => received l
  end.

Lemma received_app l1 l2 : received (l1 ++ l2) = received l1 ++ received l2.
Proof.
  induction l1 as [|e l1 IH]; [done|]. destruct e; cbn; rewrite ?IH; auto using app_assoc.
Qed.
Lemma received_settled {A} (ev : A → event) (l : list A) :
  (∀ a, received [ev a] = []) → received (ev <$> l) = [].
Proof.
  intros H. induction l as [|a l IH]; [done|]. rewrite fmap_cons.
  change (ev a :: (ev <$> l)) with ([ev a] ++ (ev <$> l)). by rewrite received_app, H, IH.
Qed.

(** The parts of a flow the receive side depends on are unchanged. *)
Record same_receive (f f' : flow) : Prop := SameReceive {
  sr_established : fl_established f' = fl_established f;
  sr_handshake : fl_handshake f' = fl_handshake f;
  sr_sequence : fl_receive_sequence f' = fl_receive_sequence f;
  sr_ended : fl_remote_ended f' = fl_remote_ended f;
  sr_received : received (fl_log f') = received (fl_log f);
  sr_tail : fl_receive_tail f' = fl_receive_tail f;
  sr_readable : is_Some (fl_readable f) → is_Some (fl_readable f');
  sr_closed : fl_closed f = true → fl_closed f' = true }.

#[export] Instance same_receive_preorder : PreOrder same_receive.
Proof.
  split; [by constructor|]. intros f g h [] []. constructor; try congruence; auto.
Qed.

Ltac same_receive :=
  constructor; cbn; rewrite ?received_app, ?received_settled by done; cbn;
  rewrite ?app_nil_r, ?fmap_is_Some; try done; auto.

Create HintDb tcp.

Lemma same_log e f : received [e] = [] → same_receive f (log e f).
Proof. intros H. constructor; cbn [log fl_log set_field fl_established fl_handshake fl_receive_sequence
  fl_remote_ended fl_receive_tail fl_readable fl_closed]; try done. by rewrite received_app, H, app_nil_r. Qed.
Lemma same_send_tcp flags payload f : same_receive f (send_tcp flags payload f).
Proof. same_receive. Qed.
Lemma same_ack_timeout w f : same_receive f (ack_timeout w f).
Proof. unfold ack_timeout. case_decide; [|done]. same_receive. Qed.
Lemma same_acknowledge a f : same_receive f (acknowledge_waiters a f).
Proof. same_receive. Qed.
Lemma same_peer_window w f : same_receive f (update_peer_window w f).
Proof. unfold update_peer_window. destruct (w =? 0); same_receive. Qed.
Lemma same_settle_activation o f : same_receive f (settle_activation o f).
Proof. unfold settle_activation. destruct (fl_activation_waiter f); same_receive. Qed.
Lemma same_closing e f :
  same_receive (f <| fl_closed := true |>)
    (end_readable e (signal_abort (default closed_error e) (settle_activation (Some (default closed_error e))
      (reject_window_waiters (default closed_error e) (reject_ack_waiters (default closed_error e)
        (log Deleted (f <| fl_closed := true |>))))))).
Proof.
  generalize (default closed_error e). intros reason.
  transitivity (log Deleted (f <| fl_closed := true |>)); [by apply same_log|].
  generalize (log Deleted (f <| fl_closed := true |>)). clear f. intros f.
  transitivity (reject_ack_waiters reason f); [same_receive|]. generalize (reject_ack_waiters reason f).
  clear f. intros f.
  transitivity (reject_window_waiters reason f); [same_receive|]. generalize (reject_window_waiters reason f).
  clear f. intros f.
  transitivity (settle_activation (Some reason) f); [apply same_settle_activation|].
  generalize (settle_activation (Some reason) f). clear f. intros f.
  transitivity (signal_abort reason f); [unfold signal_abort; destruct (fl_abort f); [by apply same_log|done]|].
  generalize (signal_abort reason f). clear f. intros f. unfold end_readable.
  destruct e as [e|]; [|same_receive].
  transitivity (f <| fl_readable := stream_error <$> fl_readable f |>); [same_receive|].
  destruct (fl_handshake _); [by apply same_log|done].
Qed.
Lemma close_closes e f : fl_closed (close_tcp_flow e f) = true.
Proof. unfold close_tcp_flow. destruct (fl_closed f) eqn:Hc; [done|]. by apply same_closing. Qed.
Lemma same_close e f : same_receive f (close_tcp_flow e f).
Proof.
  unfold close_tcp_flow. destruct (fl_closed f) eqn:Hc; [done|].
  etrans; [|apply same_closing]. same_receive.
Qed.
Lemma same_abort e f : same_receive f (abort_tcp_flow e f).
Proof.
  unfold abort_tcp_flow. destruct (fl_closed f); [done|].
  etrans; [apply same_send_tcp|apply same_close].
Qed.
Lemma same_handshake_timeout msg f : same_receive f (handshake_timeout msg f).
Proof.
  unfold handshake_timeout. destruct (_ && _)%bool; [|done].
  etrans; [|apply same_abort]. same_receive.
Qed.
Lemma same_reject e f : same_receive f (reject_outbound_tcp e f).
Proof. unfold reject_outbound_tcp. etrans; [|apply same_close]. by apply same_log. Qed.
#[export] Hint Resolve same_log same_send_tcp same_ack_timeout same_acknowledge same_peer_window
  same_settle_activation same_close same_abort same_handshake_timeout same_reject : tcp.

(** Programs that leave the receive side alone. *)
Abbreviation keeps := (stays same_receive).

Ltac keeps :=
  stays_with ltac:(auto with tcp); try match goal with |- same_receive _ _ => same_receive end.

Lemma keeps_wait_for_ack a : keeps (wait_for_ack a).
Proof. intros f. cbn. same_receive. Qed.
Lemma keeps_push_window_waiter : keeps push_window_waiter.
Proof. intros f. cbn. same_receive. Qed.
#[export] Hint Resolve keeps_wait_for_ack keeps_push_window_waiter : tcp.
Lemma keeps_peer_window k1 k2 : keeps (wait_for_peer_window k1 k2).
Proof. unfold wait_for_peer_window. keeps. Qed.
#[export] Hint Resolve keeps_peer_window : tcp.
Lemma keeps_send_tcp_data data offset : keeps (send_tcp_data data offset).
Proof. unfold send_tcp_data. keeps. Qed.
Lemma keeps_send_tcp_piece data offset w : keeps (send_tcp_piece data offset w).
Proof. unfold send_tcp_piece. keeps. Qed.
Lemma keeps_send_tcp_fin : keeps send_tcp_fin.
Proof. unfold send_tcp_fin. keeps. Qed.
Lemma keeps_send_fin_segment : keeps send_fin_segment.
Proof. unfold send_fin_segment. keeps. Qed.
Lemma keeps_activate : keeps activate_flow.
Proof. unfold activate_flow. keeps. Qed.
Lemma keeps_process_window : keeps process_window.
Proof. unfold process_window. keeps. Qed.
#[export] Hint Resolve keeps_send_tcp_data keeps_send_tcp_piece keeps_send_tcp_fin
  keeps_send_fin_segment keeps_activate keeps_process_window : tcp.

Lemma keeps_resume t o : t ≠ THandshakeAcked → keeps (resume t o).
Proof. intros Ht. unfold resume. apply stays_bind; [typeclasses eauto|by intros f|]; intros _. destruct t; [done|keeps..]. Qed.

(** * The receive side delivers the guest's stream *)
Section receive.
Context (isn : Z) (data : list Z).
Context (Hshort : zlen data + 2 ≤ 4294967296).

(** The segments of a guest that sends the stream [data] from sequence number
    [isn], in any order, any number of times, cut anyhow. *)
Definition from_peer (segment : tcp_parsed) : Prop :=
  (ts_flags segment &&& (SYN ||| ACK) = SYN ||| ACK → ts_sequence segment = isn) ∧
  (0 < zlen (ts_payload segment) + (if negb (ts_flags segment &&& FIN =? 0) then 1 else 0) →
   ∃ k, 0 ≤ k ∧ k + zlen (ts_payload segment) ≤ zlen data ∧
        ts_sequence segment = to_u32 (isn + 1 + k) ∧
        ts_payload segment = subarray data k (k + zlen (ts_payload segment)) ∧
        (negb (ts_flags segment &&& FIN =? 0) = true → k + zlen (ts_payload segment) = zlen data)).

(** What the flow knows of the stream. *)
Definition progress (f : flow) : Prop :=
  let got := received (fl_log f) in
  (∃ rest, data = got ++ rest) ∧ (fl_remote_ended f = true → got = data) ∧
  (fl_established f = true →
     fl_receive_sequence f = to_u32 (isn + 1 + zlen got + (if fl_remote_ended f then 1 else 0))) ∧
  (fl_established f = false → got = [] ∧ fl_remote_ended f = false ∧
     (fl_handshake f = false → fl_receive_sequence f = to_u32 (isn + 1))).

Record receive_inv (s : sys) : Prop := {
  ri_tail : Forall (fun j => match j with JSegment g => from_peer g | JWindow => True end)
              (fl_receive_tail (sy_flow s));
  ri_progress : progress (sy_flow s);
  ri_readable : fl_handshake (sy_flow s) = false → is_Some (fl_readable (sy_flow s));
  ri_handshake : fl_established (sy_flow s) = true → fl_handshake (sy_flow s) = true →
    fl_closed (sy_flow s) = true ∨ sy_running s = Some THandshakeAcked;
  ri_running : sy_running s = Some THandshakeAcked → fl_established (sy_flow s) = true;
  ri_tasks : sy_writer s ≠ Some THandshakeAcked ∧ sy_activator s ≠ Some THandshakeAcked ∧
    sy_finisher s ≠ Some THandshakeAcked }.

Lemma progress_same f f' : same_receive f f' → progress f → progress f'.
Proof using.
  intros [] (H1&H2&H3&H4). unfold progress. rewrite sr_established0, sr_handshake0, sr_sequence0,
    sr_ended0, sr_received0. done.
Qed.

(** A step that leaves the receive side alone. *)
Lemma inv_same s s' :
  receive_inv s → same_receive (sy_flow s) (sy_flow s') →
  (sy_running s' = sy_running s ∨ fl_closed (sy_flow s') = true ∧ sy_running s' ≠ Some THandshakeAcked ∨
   sy_running s ≠ Some THandshakeAcked ∧ sy_running s' ≠ Some THandshakeAcked) →
  (sy_writer s' ≠ Some THandshakeAcked ∧ sy_activator s' ≠ Some THandshakeAcked ∧
   sy_finisher s' ≠ Some THandshakeAcked) →
  receive_inv s'.
Proof using.
  intros [] Hs Hr Ht. pose proof (progress_same _ _ Hs ri_progress0). destruct Hs.
  constructor; rewrite ?sr_tail0; auto.
  - rewrite sr_handshake0. auto.
  - rewrite sr_established0, sr_handshake0. intros He Hh. destruct (ri_handshake0 He Hh) as [Hc|Hc].
    + left. auto.
    + destruct Hr as [Hr|[[Hr _]|[Hr _]]]; [right; congruence|by left|done].
  - rewrite sr_established0. destruct Hr as [Hr|[[_ Hr]|[_ Hr]]]; [|done..]. rewrite Hr. auto.
Qed.

(** The numbers of consecutive offsets differ. *)
Lemma offset_unique a b : 0 ≤ a ≤ zlen data + 1 → 0 ≤ b ≤ zlen data + 1 →
  to_u32 (isn + 1 + a) = to_u32 (isn + 1 + b) → a = b.
Proof using Hshort.
  intros Ha Hb H. unfold to_u32 in H. change (2 ^ 32) with 4294967296 in H.
  pose proof (Z.div_mod (isn + 1 + a) 4294967296 ltac:(lia)).
  pose proof (Z.div_mod (isn + 1 + b) 4294967296 ltac:(lia)). nia.
Qed.

Lemma to_u32_add a b : to_u32 (to_u32 a + b) = to_u32 (a + b).
Proof. unfold to_u32. apply Zplus_mod_idemp_l. Qed.

(** An in-sequence segment extends what has been received. *)
Lemma in_sequence f segment :
  progress f → fl_established f = true → from_peer segment →
  ts_sequence segment = fl_receive_sequence f →
  0 < zlen (ts_payload segment) + (if negb (ts_flags segment &&& FIN =? 0) then 1 else 0) →
  fl_remote_ended f = false ∧
  ts_payload segment = subarray data (zlen (received (fl_log f)))
    (zlen (received (fl_log f)) + zlen (ts_payload segment)) ∧
  zlen (received (fl_log f)) + zlen (ts_payload segment) ≤ zlen data ∧
  (negb (ts_flags segment &&& FIN =? 0) = true →
   zlen (received (fl_log f)) + zlen (ts_payload segment) = zlen data).
Proof using Hshort.
  intros ((rest&Hp)&Hend&Hseq&_) He [_ Hk] Hs Hc. destruct (Hk Hc) as (k&Hk0&Hle&Hks&Hpay&Hfin).
  specialize (Hseq He). set (got := received (fl_log f)) in *.
  assert (Hg : zlen got ≤ zlen data) by (rewrite Hp, zlen_app; pose proof (zlen_nonneg rest); lia).
  assert (k = zlen got + (if fl_remote_ended f then 1 else 0)) as ->.
  { pose proof (zlen_nonneg (ts_payload segment)). pose proof (zlen_nonneg got).
    apply offset_unique; [lia| |rewrite <- Hks, Hs, Hseq; f_equal; lia].
    destruct (fl_remote_ended f); lia. }
  destruct (fl_remote_ended f); [|rewrite Z.add_0_r in *; by split_and!].
  exfalso. pose proof (zlen_nonneg (ts_payload segment)). rewrite (Hend eq_refl) in *. lia.
Qed.

Lemma received_enqueued f chunk s :
  received (fl_log (log (Enqueued chunk) (f <| fl_readable := s |>))) = received (fl_log f) ++ chunk.
Proof. cbn. by rewrite received_app; cbn; rewrite app_nil_r. Qed.

(** What a job leaves of an established flow. *)
Definition data_ok (f : flow) (r : outcome (option task) * flow) : Prop :=
  progress r.2 ∧ fl_established r.2 = true ∧ fl_handshake r.2 = fl_handshake f ∧
  fl_receive_tail r.2 = fl_receive_tail f ∧ is_Some (fl_readable r.2) ∧ r.1 ≠ Done (Some THandshakeAcked).

Lemma process_data_progress segment f :
  progress f → fl_established f = true → is_Some (fl_readable f) → from_peer segment →
  data_ok f (process_data segment f).
Proof using Hshort.
  intros Hp He [s Hs] Hpeer. unfold process_data, mbind at 1, M_bind at 1. cbn [get_state].
  set (len := zlen (ts_payload segment)).
  destruct (Z.eqb_spec (len + (if negb (ts_flags segment &&& FIN =? 0) then 1 else 0)) 0);
    [by unfold data_ok; cbn; rewrite Hs|].
  assert (Hack : ∀ t, t ≠ THandshakeAcked → data_ok f ((modify (send_tcp ACK []) ;; mret (Some t)) f)).
  { intros t Ht. unfold data_ok, mbind, M_bind, modify, mret, M_ret. cbn. rewrite Hs.
    split_and!; [|done|done|done|done|congruence].
    eapply progress_same; [apply same_send_tcp|done]. }
  destruct (Z.eqb_spec (ts_sequence segment) (fl_receive_sequence f)) as [Heq|]; [|by apply Hack].
  destruct (_ && _)%bool; [by apply Hack|]. clear Hack.
  assert (0 ≤ len) by apply zlen_nonneg.
  destruct (in_sequence f segment Hp He Hpeer Heq) as (Hre&Hpay&Hle&Hfin).
  { fold len. destruct (negb _); lia. }
  fold len in Hpay, Hle, Hfin. destruct Hp as ((rest&Hd)&_&Hseq&_). specialize (Hseq He).
  rewrite Hre, Z.add_0_r in Hseq. set (got := received (fl_log f)) in *.
  (* what has been received after the payload *)
  assert (Hrest : data = (got ++ ts_payload segment) ++ drop (length (got ++ ts_payload segment)) data).
  { assert (Hg : got = subarray data 0 (zlen got)) by (rewrite Hd; symmetry; apply subarray_app_l).
    assert (Hcat : got ++ ts_payload segment = subarray data 0 (zlen got + len)).
    { rewrite Hg at 1. rewrite Hpay. apply subarray_snoc_range; pose proof (zlen_nonneg got); lia. }
    rewrite Hcat at 1.
    replace (length (got ++ ts_payload segment)) with (Z.to_nat (zlen got + len))
      by (rewrite length_app; unfold zlen, len; unfold zlen; lia).
    rewrite <- (subarray_clamp data (zlen got + len) (zlen data)) by lia.
    rewrite (subarray_snoc_range data 0 (zlen got + len)) by (pose proof (zlen_nonneg got); lia).
    by rewrite subarray_full. }
  assert (Hfull : negb (ts_flags segment &&& FIN =? 0) = true → got ++ ts_payload segment = data).
  { intros Hf. etrans; [|symmetry; exact Hrest]. rewrite drop_ge; [by rewrite app_nil_r|].
    rewrite length_app. specialize (Hfin Hf). unfold zlen, len in Hfin. unfold zlen in Hfin. lia. }
  (* the payload *)
  destruct (accept_payload (ts_payload segment) f) as [o f1] eqn:E1.
  assert (P1 : progress f1 ∧ fl_established f1 = true ∧ fl_handshake f1 = fl_handshake f ∧
    fl_receive_tail f1 = fl_receive_tail f ∧ is_Some (fl_readable f1) ∧
    fl_remote_ended f1 = false ∧
    (o = Done tt → received (fl_log f1) = got ++ ts_payload segment ∧
       fl_receive_sequence f1 = to_u32 (isn + 1 + zlen (got ++ ts_payload segment)))).
  { unfold accept_payload in E1. fold len in E1. destruct (Z.ltb_spec 0 len) as [Hl|Hl].
    - unfold mbind, M_bind, readable_op in E1. rewrite Hs in E1.
      destruct (stream_enqueue (ts_payload segment) s) as [[[]|e|] s'] eqn:Ee; injection E1 as <- <-.
      + cbn. rewrite received_app. fold got. cbn. rewrite app_nil_r, He, Hre.
        assert (Hn : sequence_add (fl_receive_sequence f) len = to_u32 (isn + 1 + zlen (got ++ ts_payload segment))).
        { unfold sequence_add. rewrite Hseq, to_u32_add, zlen_app. f_equal. fold len. lia. }
        split_and!; try done. unfold progress. cbn. rewrite received_app. cbn. fold got.
        rewrite app_nil_r, Hn, Z.add_0_r. split_and!; try done. by eexists.
      + cbn. rewrite He, Hre. split_and!; try done. unfold progress. cbn. fold got. rewrite ?He, ?Hre, Z.add_0_r.
        split_and!; try done. by eexists.
      + unfold stream_enqueue in Ee. destruct (st_state s), (st_reads s); done.
    - injection E1 as <- <-. assert (ts_payload segment = []) as Hnil by (apply zlen_0_nil; fold len; lia).
      rewrite Hnil, app_nil_r. rewrite He, Hs, Hre. split_and!; try done.
      unfold progress. rewrite He, Hre, Z.add_0_r. split_and!; try done. by eexists. }
  destruct P1 as (Hp1&He1&Hh1&Ht1&[s1 Hs1]&Hre1&Hok).
  cbn [negb]. destruct o as [[]|e|];
    [rewrite (M_bind_done _ _ _ _ _ E1)
    |rewrite (M_bind_raise _ _ _ _ _ E1); by unfold data_ok; cbn; rewrite Hs1
    |rewrite (M_bind_loops _ _ _ _ E1); by unfold data_ok; cbn; rewrite Hs1]. specialize (Hok eq_refl) as [Hr1 Hq1].
  destruct (accept_fin (ts_flags segment) f1) as [o f2] eqn:E2.
  assert (P2 : progress f2 ∧ fl_established f2 = true ∧ fl_handshake f2 = fl_handshake f ∧
    fl_receive_tail f2 = fl_receive_tail f ∧ is_Some (fl_readable f2)).
  { unfold accept_fin in E2. destruct (negb (ts_flags segment &&& FIN =? 0)) eqn:Hf.
    - unfold mbind, M_bind, readable_op in E2. cbn in E2. rewrite Hs1 in E2.
      specialize (Hfull eq_refl).
      assert (Hfin2 : ∀ s2, progress (f1 <| fl_receive_sequence := sequence_add (fl_receive_sequence f1) 1 |>
        <| fl_remote_ended := true |> <| fl_readable := Some s2 |>)).
      { intros s2. unfold progress. cbn. rewrite Hr1, Hfull, He1. split_and!; try done.
        - exists []. by rewrite app_nil_r.
        - intros _. unfold sequence_add. rewrite Hq1, to_u32_add, Hfull. done. }
      destruct (stream_close s1) as [[[]|e|] s2]; injection E2 as <- <-; cbn; split_and!; try done; apply Hfin2.
    - injection E2 as <- <-. by rewrite Hs1. }
  destruct P2 as (Hp2&He2&Hh2&Ht2&[s2 Hs2]).
  destruct o as [[]|e|];
    [rewrite (M_bind_done _ _ _ _ _ E2)
    |rewrite (M_bind_raise _ _ _ _ _ E2); by unfold data_ok; cbn; rewrite Hs2
    |rewrite (M_bind_loops _ _ _ _ E2); by unfold data_ok; cbn; rewrite Hs2].
  unfold data_ok, mbind, M_bind, modify, mret, M_ret. cbn. rewrite Hs2. split_and!; try done. eapply progress_same; [apply same_send_tcp|done].
Qed.

Definition job_ok (f : flow) (r : outcome (option task) * flow) : Prop :=
  progress r.2 ∧ fl_receive_tail r.2 = fl_receive_tail f ∧
  ((fl_handshake f = false → is_Some (fl_readable f)) →
   fl_handshake r.2 = false → is_Some (fl_readable r.2)) ∧
  (fl_established r.2 = true → fl_handshake r.2 = true →
   fl_closed r.2 = true ∨ r.1 = Done (Some THandshakeAcked) ∨ raises r.1 = true) ∧
  (r.1 = Done (Some THandshakeAcked) → fl_established r.2 = true).

Lemma same_establish f : same_receive (f <| fl_established := true |>) (establish_tcp_flow f).
Proof using. unfold establish_tcp_flow, settle_activation. destruct (fl_activation_waiter _); same_receive. Qed.

Lemma process_handshake_progress segment f :
  progress f → fl_established f = false → from_peer segment → job_ok f (process_handshake segment f).
Proof using.
  intros Hp He [Hsyn _]. unfold process_handshake, mbind at 1, M_bind at 1. cbn [get_state].
  assert (Hkeep : job_ok f (Done None, f)) by (by unfold job_ok; cbn; rewrite He; split_and!).
  destruct (fl_handshake f) eqn:Hh.
  - destruct (Z.eqb_spec (ts_flags segment &&& (SYN ||| ACK)) (SYN ||| ACK)) as [Hf|]; [|done].
    destruct (ts_acknowledgement segment =? fl_send_sequence f); [|done]. specialize (Hsyn Hf).
    destruct Hp as (H1&H2&_&H4). destruct (H4 He) as (Hg&Hre&_).
    assert (Hp' : ∀ f', fl_log f' = fl_log f → fl_remote_ended f' = fl_remote_ended f →
      fl_established f' = true → fl_receive_sequence f' = to_u32 (isn + 1) → progress f').
    { intros f' E1 E2 E3 E4. unfold progress. rewrite E1, E2, E3, E4, Hg, Hre in *.
      split_and!; [done|done|intros _; by rewrite zlen_nil, !Z.add_0_r|done]. }
    unfold job_ok, mbind, M_bind, modify, mret, M_ret, sequence_add. cbn [fst snd]. rewrite Hsyn.
    set (g := f <| fl_receive_sequence := to_u32 (isn + 1) |>).
    assert (Hs : same_receive (g <| fl_established := true |>) (send_tcp ACK [] (establish_tcp_flow g)))
      by (etrans; [apply same_establish|apply same_send_tcp]).
    assert (Hg' : progress (g <| fl_established := true |>)) by (apply Hp'; done).
    pose proof (progress_same _ _ Hs Hg'). destruct Hs. split_and!; try done; auto.
    intros _ Hn. exfalso. change (fl_handshake (send_tcp ACK [] (establish_tcp_flow g)) = false) in Hn.
    rewrite sr_handshake0 in Hn. cbn in Hn. congruence.
  - destruct (_ && _)%bool; [|done].
    unfold job_ok, mbind, M_bind, modify, mret, M_ret. cbn [fst snd]. pose proof (same_establish f) as Hs.
    split_and!.
    + eapply progress_same; [exact Hs|]. destruct Hp as (H1&H2&_&H4). destruct (H4 He) as (Hg&Hre&Hq).
      specialize (Hq Hh). unfold progress. cbn. rewrite Hg, Hre, Hq in *.
      split_and!; [done|done|intros _; by rewrite zlen_nil, !Z.add_0_r|done].
    + by rewrite (sr_tail _ _ Hs).
    + rewrite (sr_handshake _ _ Hs). cbn. intros Hr Hh'. apply (sr_readable _ _ Hs). cbn. auto.
    + rewrite (sr_handshake _ _ Hs). cbn. congruence.
    + done.
Qed.

Lemma job_ok_same f r :
  progress f → (fl_established f = true → fl_handshake f = true → fl_closed f = true) →
  same_receive f r.2 → r.1 ≠ Done (Some THandshakeAcked) → job_ok f r.
Proof using.
  destruct r as [o f']. intros Hp Hhand Hs Ho. cbn in *.
  unfold job_ok. split_and!; cbn; [by eapply progress_same|by destruct Hs| | |done].
  { destruct Hs. rewrite sr_handshake0. auto. }
  destruct Hs. rewrite sr_established0, sr_handshake0. auto.
Qed.

Lemma same_note_ack segment : keeps (note_ack segment).
Proof using. unfold note_ack. keeps. Qed.

Lemma run_job_progress j f :
  progress f → match j with JSegment g => from_peer g | JWindow => True end →
  (fl_handshake f = false → is_Some (fl_readable f)) →
  (fl_established f = true → fl_handshake f = true → fl_closed f = true) →
  job_ok f (run_job j f).
Proof using Hshort.
  intros Hp Hj Hread Hhand.
  pose proof (fun r => job_ok_same f r Hp Hhand) as Hsame.
  destruct j as [segment|]; cbn [run_job].
  2: { apply Hsame; [apply keeps_process_window|]. unfold process_window, mbind, M_bind. cbn.
       destruct (_ && _)%bool; cbn; congruence. }
  unfold process_tcp, mbind at 1, M_bind at 1. cbn [get_state].
  destruct (fl_closed f) eqn:Hc; [by apply Hsame|].
  destruct (negb (ts_flags segment &&& RST =? 0)).
  { apply Hsame; [|done]. cbn. apply same_close. }
  pose proof (same_note_ack segment f) as Hn. destruct (note_ack segment f) as [o f1] eqn:E.
  assert (o = Done tt) as -> by (unfold note_ack in E; destruct (negb _); by injection E).
  rewrite (M_bind_done _ _ _ _ _ E). unfold mbind at 1, M_bind at 1. cbn [get_state]. cbn in Hn.
  pose proof (progress_same _ _ Hn Hp) as Hp1. destruct Hn.
  destruct (fl_established f1) eqn:He1; cbn [negb].
  - assert (Hh : fl_handshake f = false).
    { destruct (fl_handshake f); [|done]. discriminate Hhand; congruence. }
    destruct (process_data_progress segment f1) as (A1&A2&A3&A4&A5&A6); [done|done|auto|done|].
    unfold job_ok. split_and!; [done|congruence|done|intros _ ?; exfalso; congruence|done].
  - destruct (process_handshake_progress segment f1) as (A1&A3&A4&A5&A6); [done..|].
    unfold job_ok. split_and!; [done|congruence| |auto|auto].
    intros Hr. apply A4. rewrite sr_handshake0. auto.
Qed.

Ltac inv_tasks := split_and!; cbn; try done; try (by intros [=]).

(** Tasks other than the handshake's never become it. *)
Definition no_handshake (m : async) : Prop := ∀ f, (m f).1 ≠ Done (Some THandshakeAcked).

Lemma no_handshake_bind {A} (m : M flow A) (k : A → async) :
  (∀ a, no_handshake (k a)) → no_handshake (m ≫= k).
Proof using.
  intros H f. unfold mbind, M_bind. destruct (m f) as [[a|e|] f']; [apply H|done..].
Qed.
Lemma no_handshake_ret o : o ≠ Some THandshakeAcked → no_handshake (mret o).
Proof using. intros H f [=]. by apply H. Qed.
Lemma no_handshake_if (b : bool) m1 m2 : no_handshake m1 → no_handshake m2 → no_handshake (if b then m1 else m2).
Proof using. by destruct b. Qed.

Ltac no_handshake :=
  repeat first [ apply no_handshake_bind; intros ? | apply no_handshake_if
               | apply no_handshake_ret; congruence | by intros ? ].

Lemma no_handshake_wait k1 k2 :
  (∀ w, k1 w ≠ THandshakeAcked) → (∀ w, k2 w ≠ THandshakeAcked) → no_handshake (wait_for_peer_window k1 k2).
Proof using. intros H1 H2. unfold wait_for_peer_window. no_handshake; intros [=]; naive_solver. Qed.
Lemma no_handshake_data bytes offset : no_handshake (send_tcp_data bytes offset).
Proof using. unfold send_tcp_data. no_handshake; by apply no_handshake_wait. Qed.
Lemma no_handshake_fin : no_handshake send_tcp_fin.
Proof using. unfold send_tcp_fin. no_handshake; by apply no_handshake_wait. Qed.
Lemma no_handshake_activate : no_handshake activate_flow.
Proof using. unfold activate_flow. no_handshake. Qed.
Lemma no_handshake_resume t o : t ≠ THandshakeAcked → no_handshake (resume t o).
Proof using.
  intros Ht. apply no_handshake_bind; intros _.
  destruct t; try done; unfold send_tcp_piece, send_fin_segment; no_handshake;
    first [ by apply no_handshake_wait | apply no_handshake_data ].
Qed.

Lemma inv_job s r f0 :
  receive_inv s →
  Forall (fun j => match j with JSegment g => from_peer g | JWindow => True end) (fl_receive_tail f0) →
  (fl_handshake f0 = false → is_Some (fl_readable f0)) →
  job_ok f0 r → receive_inv (job_done r s).
Proof using.
  intros Hi Htail Hread (A1&A3&A4&A5&A6). destruct (ri_tasks _ Hi) as (T1&T2&T3).
  destruct r as [[t|e|] f]; cbn in *.
  - constructor; cbn; auto.
    + by rewrite A3.
    + intros He Hh. destruct (A5 He Hh) as [?|[[= ->]|?]]; auto; done.
    + intros ->. auto.
  - pose proof (same_abort (Some e) f) as Hs. pose proof (progress_same _ _ Hs A1). destruct Hs.
    constructor; cbn; auto; try done.
    + by rewrite sr_tail0, A3.
    + rewrite sr_handshake0. auto.
    + intros He Hh. left. unfold abort_tcp_flow. destruct (fl_closed f) eqn:Hc; [done|].
      apply close_closes.
  - constructor; cbn; auto; try done.
    + by rewrite A3.
    + intros He Hh. destruct (A5 He Hh) as [?|[[=]|?]]; auto; done.
Qed.

Lemma inv_step outbound s s' : receive_inv s → flow_step outbound from_peer s s' → receive_inv s'.
Proof using Hshort.
  intros Hi Hstep. pose proof (ri_tasks _ Hi) as (T1&T2&T3). pose proof Hi as [].
  assert (Hother : ∀ s', same_receive (sy_flow s) (sy_flow s') → sy_running s' = sy_running s →
    sy_writer s' ≠ Some THandshakeAcked → sy_activator s' ≠ Some THandshakeAcked →
    sy_finisher s' ≠ Some THandshakeAcked → receive_inv s') by (intros; by apply (inv_same s); auto).
  assert (Hwriter : ∀ m w b, keeps m → no_handshake m → receive_inv (writer_done (m (sy_flow s)) (s <| sy_written := w |> <| sy_writable := b |>))).
  { intros m w b Hk Hn. specialize (Hk (sy_flow s)). specialize (Hn (sy_flow s)).
    destruct (m (sy_flow s)) as [[t|e|] f]; apply Hother; cbn in *; congruence || done. }
  assert (Hactivator : ∀ m, keeps m → no_handshake m → receive_inv (activator_done (m (sy_flow s)) s)).
  { intros m Hk Hn. specialize (Hk (sy_flow s)). specialize (Hn (sy_flow s)).
    destruct (m (sy_flow s)) as [[t|e|] f]; apply Hother; cbn in *; congruence || done. }
  assert (Hfinisher : ∀ m, keeps m → no_handshake m → receive_inv (finisher_done (m (sy_flow s)) s)).
  { intros m Hk Hn. specialize (Hk (sy_flow s)). specialize (Hn (sy_flow s)).
    destruct (m (sy_flow s)) as [[t|e|] f]; apply Hother; cbn in *; try done; try congruence.
    etrans; [done|apply same_abort]. }
  destruct Hstep.
  - (* a segment arrives *)
    constructor; cbn; auto. apply Forall_app_2; [done|]. by apply Forall_singleton.
  - constructor; cbn; auto. apply Forall_app_2; [done|]. repeat constructor.
  - apply Hother; first [done|same_receive].
  - (* a job starts *)
    apply (inv_job s _ (sy_flow s <| fl_receive_tail := tl |>)); cbn; auto.
    + rewrite H0 in *. by apply Forall_cons in ri_tail0 as [_ ?].
    + apply run_job_progress; cbn; auto.
      * rewrite H0 in *. by apply Forall_cons in ri_tail0 as [? _].
      * intros He Hh. destruct (ri_handshake0 He Hh); congruence.
  - (* a job resumes *)
    apply (inv_job s _ (sy_flow s)); auto. destruct (decide (t = THandshakeAcked)) as [->|Ht].
    + unfold resume, mbind, M_bind, lift. specialize (ri_running0 H).
      destruct o as [[]|e|]; unfold job_ok; cbn.
      * split_and!; try done.
        destruct ri_progress0 as (P1&P2&P3&P4). unfold progress. cbn. rewrite received_app, app_nil_r.
        split_and!; auto; intros; exfalso; congruence.
      * split_and!; try done. by right; right.
      * done.
    + apply job_ok_same; [done| |apply (keeps_resume t o Ht)|apply (no_handshake_resume t o Ht)].
      intros He Hh. destruct (ri_handshake0 He Hh); congruence.
  - apply (Hwriter (send_tcp_data data0 0) _ (sy_writable s)); [apply keeps_send_tcp_data|apply no_handshake_data].
  - apply (Hwriter send_tcp_fin (sy_written s) _); [apply keeps_send_tcp_fin|apply no_handshake_fin].
  - assert (t ≠ THandshakeAcked) by congruence.
    apply (Hwriter (resume t o) (sy_written s) (sy_writable s)); [by apply keeps_resume|by apply no_handshake_resume].
  - apply Hother; try done. apply same_ack_timeout.
  - apply Hother; try done. apply same_abort.
  - apply Hother; try done. apply same_handshake_timeout.
  - apply Hother; try done. same_receive.
  - apply Hactivator; [apply keeps_activate|apply no_handshake_activate].
  - assert (t ≠ THandshakeAcked) by congruence.
    apply Hactivator; [by apply keeps_resume|by apply no_handshake_resume].
  - apply Hfinisher; [apply keeps_send_tcp_fin|apply no_handshake_fin].
  - assert (t ≠ THandshakeAcked) by congruence.
    apply Hfinisher; [by apply keeps_resume|by apply no_handshake_resume].
  - apply Hother; try done. apply same_reject.
Qed.
End receive.

(** How a flow begins: a [connect], or a guest's SYN. *)
Inductive begins (isn : Z) : bool → flow → Prop :=
| BeginsConnect guest_ip guest_port peer_ip peer_port initial :
    begins isn false (expire_tcp_handshake (connect_flow guest_ip guest_port peer_ip peer_port initial))
| BeginsOutbound guest_ip guest_port peer_ip peer_port initial segment :
    ts_sequence segment = isn →
    begins isn true (host_tcp_connection true (expire_tcp_handshake
      (outbound_flow guest_ip guest_port peer_ip peer_port initial segment))).

(** C1: what the host reads of a connection is what the guest sent. Whatever
    the guest's segments do on the way (lost, repeated, reordered, cut anew),
    and whatever else happens to the connection, the chunks handed to the
    readable half are together a beginning of the guest's stream, and all of it
    once the guest's FIN has been accepted. *)
Theorem tcp_receive_in_order isn data outbound f s :
  zlen data + 2 ≤ 4294967296 → begins isn outbound f →
  rtc (flow_step outbound (from_peer isn data)) (sys_start f) s →
  (∃ rest, data = received (fl_log (sy_flow s)) ++ rest) ∧
  (fl_remote_ended (sy_flow s) = true → received (fl_log (sy_flow s)) = data).
Proof.
  intros Hshort Hb Hsteps.
  assert (Hi : receive_inv isn data s).
  { assert (H0 : receive_inv isn data (sys_start f)).
    { destruct Hb; (constructor; cbn; [constructor| |done..]); unfold progress; cbn;
        (split_and!; [by eexists|done|done|]); intros _; split_and!; try done.
      intros _. unfold sequence_add. by subst. }
    revert H0. clear Hb. induction Hsteps; eauto using inv_step. }
  destruct (ri_progress _ _ _ Hi) as (H1&H2&_). done.
Qed.

(** One step of a concrete run; the state reached is evaluated. *)
Ltac take_step tac :=
  eapply rtc_l; [tac|];
  match goal with
  | |- rtc _ ?x _ => let y := eval vm_compute in x in replace x with y by (vm_compute; reflexivity)
  end.

Lemma tcp_receive_in_order_witness :
  let syn_ack := TcpParsed 80 49152 1000 1 (SYN ||| ACK) 500 [] in
  let last := TcpParsed 80 49152 1003 1 (ACK ||| FIN) 500 [6; 7] in
  let first := TcpParsed 80 49152 1001 1 ACK 500 [4; 5] in
  let f := expire_tcp_handshake (connect_flow 2 80 1 49152 0) in
  ∃ s, rtc (flow_step false (from_peer 1000 [4; 5; 6; 7])) (sys_start f) s ∧
    received (fl_log (sy_flow s)) = [4; 5; 6; 7] ∧
    (∃ rest, [4; 5; 6; 7] = received (fl_log (sy_flow s)) ++ rest).
Proof.
  intros syn_ack last first f.
  assert (Hpeer : from_peer 1000 [4; 5; 6; 7] syn_ack ∧ from_peer 1000 [4; 5; 6; 7] last ∧
    from_peer 1000 [4; 5; 6; 7] first).
  { split_and!; (split; [by vm_compute|]); intros Hc; vm_compute in Hc; [discriminate|exists 2|exists 0];
      split_and!; by vm_compute. }
  destruct Hpeer as (P1&P2&P3).
  assert (Hrun : ∃ s, rtc (flow_step false (from_peer 1000 [4; 5; 6; 7])) (sys_start f) s ∧
    received (fl_log (sy_flow s)) = [4; 5; 6; 7]).
  { eexists. split.
    - take_step ltac:(apply (StepArrive _ _ _ syn_ack); [exact P1|reflexivity]).
      take_step ltac:(apply (StepArrive _ _ _ last); [exact P2|reflexivity]).
      take_step ltac:(apply (StepArrive _ _ _ first); [exact P3|reflexivity]).
      take_step ltac:(apply (StepArrive _ _ _ last); [exact P2|reflexivity]).
      take_step ltac:(eapply StepJob; reflexivity).
      take_step ltac:(eapply (StepResumeJob _ _ _ THandshakeAcked (Done tt)); [reflexivity|discriminate]).
      take_step ltac:(eapply StepJob; reflexivity).
      take_step ltac:(eapply (StepResumeJob _ _ _ TSent (Done tt)); [reflexivity|discriminate]).
      take_step ltac:(eapply StepJob; reflexivity).
      take_step ltac:(eapply (StepResumeJob _ _ _ TSegmentAcked (Done tt)); [reflexivity|discriminate]).
      take_step ltac:(eapply StepJob; reflexivity).
      apply rtc_refl.
    - vm_compute. reflexivity. }
  destruct Hrun as (s&Hs&Hr). exists s. split; [done|]. split; [done|].
  apply (tcp_receive_in_order 1000 [4; 5; 6; 7] false f s); [vm_compute; discriminate|constructor|done].
Defined.

(** * Memory: the readable half of a host connection is bounded by its window *)
Definition queue_bounded (f : flow) : Prop :=
  fl_activation f = false ∧
  match fl_readable f with
  | Some s => st_size s = zlen ∧ st_hwm s = TCP_RECEIVE_WINDOW ∧ queue_size s ≤ TCP_RECEIVE_WINDOW
  | None => True
  end.

Lemma bounded_same f f' :
  fl_activation f' = fl_activation f → fl_readable f' = fl_readable f → queue_bounded f → queue_bounded f'.
Proof. unfold queue_bounded. by intros -> ->. Qed.

(** A stream operation that does not grow the queue. *)
Lemma bounded_stream f f' s s' :
  queue_bounded f → fl_readable f = Some s → fl_activation f' = fl_activation f →
  fl_readable f' = Some s' → st_size s' = st_size s → st_hwm s' = st_hwm s →
  (st_size s = zlen → queue_size s' ≤ queue_size s) → queue_bounded f'.
Proof.
  unfold queue_bounded. intros [Ha H] Hs Ha' Hs' H1 H2 H3. rewrite Hs in H. rewrite Ha', Hs', H1, H2.
  destruct H as (A&B&C). specialize (H3 A). split_and!; [done..|lia].
Qed.

Lemma bounded_fmap (g : stream → stream) f f' :
  (∀ s, st_size (g s) = st_size s ∧ st_hwm (g s) = st_hwm s ∧
        (st_size s = zlen → queue_size (g s) ≤ queue_size s)) →
  queue_bounded f → fl_activation f' = fl_activation f → fl_readable f' = g <$> fl_readable f →
  queue_bounded f'.
Proof.
  intros Hg Hq Ha Hr. destruct (fl_readable f) as [s|] eqn:Hs.
  - destruct (Hg s) as (A&B&C). by eapply (bounded_stream f f' s (g s)).
  - unfold queue_bounded in *. by rewrite Hr, Ha, Hs in *.
Qed.

Lemma zlen_sizes s : st_size s = zlen → ∀ c, 0 ≤ st_size s c.
Proof. by intros -> c. Qed.

Lemma bounded_ops f :
  queue_bounded f →
  (∀ e, queue_bounded (log e f)) ∧ (∀ fl p, queue_bounded (send_tcp fl p f)) ∧
  (∀ w, queue_bounded (ack_timeout w f)) ∧ (∀ a, queue_bounded (acknowledge_waiters a f)) ∧
  (∀ w, queue_bounded (update_peer_window w f)) ∧ (∀ o, queue_bounded (settle_activation o f)) ∧
  (∀ e, queue_bounded (close_tcp_flow e f)) ∧ (∀ e, queue_bounded (abort_tcp_flow e f)) ∧
  (∀ m, queue_bounded (handshake_timeout m f)) ∧ queue_bounded (establish_tcp_flow f).
Proof.
  intros Hq.
  assert (Hsettle : ∀ o g, queue_bounded g → queue_bounded (settle_activation o g)).
  { intros o g. unfold settle_activation. destruct (fl_activation_waiter g); by apply bounded_same. }
  assert (Hlog : ∀ e g, queue_bounded g → queue_bounded (log e g)) by (intros e g; by apply bounded_same).
  assert (Hclose : ∀ e g, queue_bounded g → queue_bounded (close_tcp_flow e g)).
  { intros e g Hg. unfold close_tcp_flow. destruct (fl_closed g); [done|].
    assert (Hg' : queue_bounded (signal_abort (default closed_error e) (settle_activation (Some (default closed_error e))
      (reject_window_waiters (default closed_error e) (reject_ack_waiters (default closed_error e)
        (log Deleted (g <| fl_closed := true |>))))))).
    { assert (Hw : queue_bounded (reject_window_waiters (default closed_error e)
        (reject_ack_waiters (default closed_error e) (log Deleted (g <| fl_closed := true |>)))))
        by (by apply (bounded_same g)).
      apply (Hsettle (Some (default closed_error e))) in Hw. revert Hw.
      generalize (settle_activation (Some (default closed_error e)) (reject_window_waiters (default closed_error e)
        (reject_ack_waiters (default closed_error e) (log Deleted (g <| fl_closed := true |>))))).
      intros h Hw. unfold signal_abort. destruct (fl_abort h); auto. }
    revert Hg' Hlog. generalize (signal_abort (default closed_error e) (settle_activation (Some (default closed_error e))
      (reject_window_waiters (default closed_error e) (reject_ack_waiters (default closed_error e)
        (log Deleted (g <| fl_closed := true |>)))))). clear. intros g Hg Hlog. unfold end_readable. destruct e as [e|].
    - assert (queue_bounded (g <| fl_readable := stream_error <$> fl_readable g |>)).
      { apply (bounded_fmap stream_error g); [|done..]. intros s. destruct (stream_ops_shape s) as (_&_&[? ?]&_).
        split_and!; auto. intros Hz. apply queue_size_error. by apply zlen_sizes. }
      destruct (fl_handshake _); auto.
    - apply (bounded_fmap (fun s => (stream_close s).2) g); [|done..]. intros s.
      destruct (stream_ops_shape s) as (_&[? ?]&_). split_and!; auto.
      intros Hz. apply queue_size_close. by apply zlen_sizes. }
  assert (Habort : ∀ e g, queue_bounded g → queue_bounded (abort_tcp_flow e g)).
  { intros e g Hg. unfold abort_tcp_flow. destruct (fl_closed g); [done|]. apply Hclose. by apply (bounded_same g). }
  split_and!; intros; auto; try by apply (bounded_same f).
  - unfold ack_timeout. case_decide; [by apply (bounded_same f)|done].
  - unfold update_peer_window. destruct (w =? 0); by apply (bounded_same f).
  - unfold handshake_timeout. destruct (_ && _)%bool; [|done]. apply Habort. by apply (bounded_same f).
  - unfold establish_tcp_flow. apply (bounded_same (settle_activation None (f <| fl_established := true |>))); [done..|].
    apply Hsettle. by apply (bounded_same f).
Qed.

Create HintDb bounded.
Ltac bounded :=
  repeat first
    [ solve [auto with bounded] | apply preserves_bind; [|intros ?] | apply preserves_get | apply preserves_ret
    | apply preserves_throw | apply preserves_lift
    | apply preserves_modify; intros ? ?; first [ by apply bounded_ops | by eapply bounded_same; [..|eassumption] ]
    | match goal with |- preserves _ (if ?b then _ else _) => destruct b end ].

Lemma bounded_wait_for_ack a : preserves queue_bounded (wait_for_ack a).
Proof. intros f Hf. by apply (bounded_same f). Qed.
Lemma bounded_push : preserves queue_bounded push_window_waiter.
Proof. intros f Hf. by apply (bounded_same f). Qed.
#[export] Hint Resolve bounded_wait_for_ack bounded_push : bounded.
Lemma bounded_wait k1 k2 : preserves queue_bounded (wait_for_peer_window k1 k2).
Proof. unfold wait_for_peer_window. bounded. Qed.
Lemma bounded_send_data data offset : preserves queue_bounded (send_tcp_data data offset).
Proof. unfold send_tcp_data. bounded. Qed.
Lemma bounded_fin : preserves queue_bounded send_tcp_fin.
Proof. unfold send_tcp_fin. bounded. Qed.
#[export] Hint Resolve bounded_wait bounded_send_data bounded_fin : bounded.

Lemma bounded_resume t o : preserves queue_bounded (resume t o).
Proof.
  unfold resume. destruct t; bounded.
  intros f [Ha Hf]. cbn. split; [done|]. cbn. split_and!; [done..|]. vm_compute. discriminate.
Qed.

Lemma bounded_accept payload f :
  queue_bounded f → (0 < zlen payload → zlen payload ≤ tcp_receive_window f) →
  queue_bounded (accept_payload payload f).2.
Proof.
  intros Hq Hw. unfold accept_payload. destruct (Z.ltb_spec 0 (zlen payload)) as [Hl|]; [|done].
  specialize (Hw Hl). unfold mbind, M_bind, readable_op. pose proof Hq as [Ha Hs].
  unfold tcp_receive_window in Hw. rewrite Ha in Hw.
  destruct (fl_readable f) as [s|] eqn:Hr; [|by apply (bounded_same f)].
  destruct Hs as (Hz&Hh&Hb). unfold desired_size in Hw.
  assert (Hroom : queue_size s + zlen payload ≤ TCP_RECEIVE_WINDOW).
  { unfold TCP_RECEIVE_WINDOW in *. rewrite Hh in Hw. destruct (st_state s); cbn in Hw; lia. }
  pose proof (queue_size_enqueue payload s) as He. rewrite Hz in He. specialize (He ltac:(auto)).
  destruct (stream_ops_shape s) as [Hshape _]. destruct (Hshape payload) as [E1 E2].
  assert (Hgoal : ∀ f' : flow, fl_activation f' = fl_activation f →
    fl_readable f' = Some (stream_enqueue payload s).2 → queue_bounded f').
  { intros f' A B. unfold queue_bounded. rewrite A, B, E1, E2. split_and!; [done..|lia]. }
  destruct (stream_enqueue payload s) as [[[]|e|] s'] eqn:Es; cbn; apply Hgoal; done.
Qed.

Lemma bounded_accept_fin flags : preserves queue_bounded (accept_fin flags).
Proof.
  unfold accept_fin. bounded. intros f Hf. unfold readable_op.
  destruct (fl_readable f) as [s|] eqn:Hr; [|done].
  assert (Hgoal : queue_bounded (f <| fl_readable := Some (stream_close s).2 |>)).
  { apply (bounded_fmap (fun s => (stream_close s).2) f); [|done|done|by rewrite Hr].
    intros s'. destruct (stream_ops_shape s') as (_&[? ?]&_). split_and!; auto.
    intros Hz. apply queue_size_close. by apply zlen_sizes. }
  by destruct (stream_close s) as [[[]|e|] s'].
Qed.

#[export] Hint Resolve bounded_accept_fin : bounded.

Lemma bounded_data segment : preserves queue_bounded (process_data segment).
Proof.
  intros f Hf.
  unfold process_data, mbind at 1, M_bind at 1. cbn [get_state].
  destruct (zlen (ts_payload segment) + _ =? 0); [done|].
  destruct (negb (ts_sequence segment =? _)); [by apply (bounded_same f)|].
  destruct ((0 <? _) && _)%bool eqn:Hw; [by apply (bounded_same f)|].
  assert (Ha : queue_bounded (accept_payload (ts_payload segment) f).2).
  { apply bounded_accept; [done|]. intros Hl%Z.ltb_lt. rewrite Hl, andb_true_l in Hw. by apply Z.ltb_ge in Hw. }
  destruct (accept_payload (ts_payload segment) f) as [[[]|e|] f1] eqn:E;
    [rewrite (M_bind_done _ _ _ _ _ E)|rewrite (M_bind_raise _ _ _ _ _ E); done
    |rewrite (M_bind_loops _ _ _ _ E); done].
  revert f1 E Ha. intros f1 _. cbn [snd]. revert f1. change (preserves queue_bounded
    (accept_fin (ts_flags segment) ;; modify (send_tcp ACK []) ;; mret (Some TSegmentAcked))).
  bounded.
Qed.
#[export] Hint Resolve bounded_data : bounded.

Lemma bounded_job j : preserves queue_bounded (run_job j).
Proof.
  destruct j as [segment|]; cbn [run_job]; [|unfold process_window; bounded].
  unfold process_tcp, note_ack, process_handshake. bounded.
Qed.

Lemma bounded_step arrives s s' :
  queue_bounded (sy_flow s) → flow_step false arrives s s' → queue_bounded (sy_flow s').
Proof.
  intros Hq Hstep.
  assert (Hjob : ∀ (m : async) f, preserves queue_bounded m → queue_bounded f →
    queue_bounded (sy_flow (job_done (m f) s))).
  { intros m f Hm Hf. specialize (Hm f Hf). destruct (m f) as [[t|e|] f']; cbn in *; auto. by apply bounded_ops. }
  assert (Hwriter : ∀ (m : async) s0, preserves queue_bounded m →
    queue_bounded (sy_flow (writer_done (m (sy_flow s)) s0))).
  { intros m s0 Hm. specialize (Hm _ Hq). destruct (m (sy_flow s)) as [[t|e|] f']; cbn in *; auto. }
  assert (Hactivator : ∀ (m : async), preserves queue_bounded m →
    queue_bounded (sy_flow (activator_done (m (sy_flow s)) s)) ∧
    queue_bounded (sy_flow (finisher_done (m (sy_flow s)) s))).
  { intros m Hm. specialize (Hm _ Hq). destruct (m (sy_flow s)) as [[t|e|] f']; cbn in *; auto.
    split; [done|]. by apply bounded_ops. }
  destruct Hstep; try done; cbn; try (by apply bounded_ops); try (by apply (bounded_same (sy_flow s))).
  - apply Hjob; [apply bounded_job|]. by apply (bounded_same (sy_flow s)).
  - apply Hjob; [apply bounded_resume|done].
  - apply Hwriter, bounded_send_data.
  - apply Hwriter, bounded_fin.
  - apply Hwriter, bounded_resume.
  - apply (bounded_fmap f (sy_flow s)); [|done..]. intros st.
    destruct (stream_ops_shape st) as (_&_&_&[? ?]&[? ?]). destruct H as [->| ->];
      split_and!; auto; intros Hz; [apply queue_size_read|apply queue_size_cancel]; by apply zlen_sizes.
  - apply Hactivator, bounded_resume.
  - apply Hactivator, bounded_resume.
Qed.

(** A host connection's memory is bounded by its window. However fast the
    guest sends and however slowly the host reads, the bytes queued in a host
    connection's readable half never exceed the window of 65535. *)
Theorem tcp_queue_bounded isn f arrives s str :
  begins isn false f → rtc (flow_step false arrives) (sys_start f) s →
  fl_readable (sy_flow s) = Some str → queue_size str ≤ TCP_RECEIVE_WINDOW.
Proof.
  intros Hb Hsteps Hs.
  assert (Hq : queue_bounded (sy_flow s)).
  { assert (H0 : queue_bounded (sy_flow (sys_start f))) by (inversion Hb; subst; done).
    revert H0. clear Hb Hs. induction Hsteps; eauto using bounded_step. }
  destruct Hq as [_ Hq]. rewrite Hs in Hq. apply Hq.
Qed.

Lemma tcp_queue_bounded_witness :
  let f := expire_tcp_handshake (connect_flow 2 80 1 49152 0) in
  ∃ s str, rtc (flow_step false (fun _ => True)) (sys_start f) s ∧
    fl_readable (sy_flow s) = Some str ∧ queue_size str = 2 ∧ queue_size str ≤ TCP_RECEIVE_WINDOW.
Proof.
  intros f.
  assert (Hrun : ∃ s str, rtc (flow_step false (fun _ => True)) (sys_start f) s ∧
    fl_readable (sy_flow s) = Some str ∧ queue_size str = 2).
  { eexists _, _. split; [|split].
    - eapply rtc_l; [apply (StepArrive _ _ _ (TcpParsed 80 49152 1000 1 (SYN ||| ACK) 500 [])); [done|reflexivity]|].
      eapply rtc_l; [apply (StepArrive _ _ _ (TcpParsed 80 49152 1001 1 ACK 500 [4; 5])); [done|reflexivity]|].
      eapply rtc_l; [eapply StepJob; reflexivity|].
      eapply rtc_l; [eapply (StepResumeJob _ _ _ THandshakeAcked (Done tt)); [reflexivity|discriminate]|].
      eapply rtc_l; [eapply StepJob; reflexivity|]. apply rtc_refl.
    - reflexivity.
    - reflexivity. }
  destruct Hrun as (s&str&Hs&Hr&Hq). exists s, str. split_and!; [done..|].
  apply (tcp_queue_bounded 0 f (fun _ => True) s str); [constructor|done|done].
Defined.

(** * The send side carries what the host writes *)

(** The data segments sent, with their sequence numbers. *)
Definition is_data (flags : Z) : bool := negb (flags &&& PSH =? 0).
Fixpoint data_sends (l : list event) : list (Z * list Z) :=
  match l with
  | [] => []
  | Sent flags sequence _ payload _ :: l =>
      if is_data flags then (sequence, payload) :: data_sends l else data_sends l
  | _ :: l => data_sends l
  end.
Definition sent_bytes (l : list (Z * list Z)) : list Z := concat (l.*2).

(** Each segment is numbered by the bytes before it and is no longer than the
    segment size the gateway keeps to. *)
Fixpoint labelled (base : Z) (l : list (Z * list Z)) : Prop :=
  match l with
  | [] => True
  | (sequence, payload) :: l =>
      sequence = to_u32 base ∧ zlen payload ≤ TCP_MSS ∧ labelled (base + zlen payload) l
  end.

Lemma data_sends_app l1 l2 : data_sends (l1 ++ l2) = data_sends l1 ++ data_sends l2.
Proof.
  induction l1 as [|[] l1 IH]; cbn [app data_sends]; rewrite ?IH; try done.
  by destruct (is_data flags).
Qed.
Lemma data_sends_settled {A} (ev : A → event) (l : list A) :
  (∀ a, data_sends [ev a] = []) → data_sends (ev <$> l) = [].
Proof.
  intros H. induction l as [|a l IH]; [done|]. rewrite fmap_cons.
  change (ev a :: (ev <$> l)) with ([ev a] ++ (ev <$> l)). by rewrite data_sends_app, H, IH.
Qed.
Lemma labelled_app base l1 l2 :
  labelled base (l1 ++ l2) ↔ labelled base l1 ∧ labelled (base + zlen (sent_bytes l1)) l2.
Proof.
  revert base; induction l1 as [|[sq p] l1 IH]; intros base; cbn [app labelled].
  { unfold sent_bytes. cbn. rewrite zlen_nil, Z.add_0_r. naive_solver. }
  rewrite IH. unfold sent_bytes. cbn. fold (sent_bytes l1). rewrite zlen_app, Z.add_assoc. naive_solver.
Qed.
Lemma sent_bytes_app l1 l2 : sent_bytes (l1 ++ l2) = sent_bytes l1 ++ sent_bytes l2.
Proof. unfold sent_bytes. by rewrite fmap_app, concat_app. Qed.

(** The parts of a flow the send side depends on are unchanged. *)
Record same_send (f f' : flow) : Prop := SameSend {
  ss_sequence : fl_send_sequence f' = fl_send_sequence f;
  ss_sends : data_sends (fl_log f') = data_sends (fl_log f);
  ss_tail : fl_receive_tail f' = fl_receive_tail f;
  ss_ended : fl_local_ended f' = fl_local_ended f;
  ss_window : 0 ≤ fl_peer_window f → 0 ≤ fl_peer_window f' }.
#[export] Instance same_send_preorder : PreOrder same_send.
Proof. split; [by constructor|]. intros f g h [] []. constructor; try congruence; auto. Qed.

Ltac same_send :=
  constructor; cbn; rewrite ?data_sends_app, ?data_sends_settled by done; cbn; rewrite ?app_nil_r; try done; auto.

Lemma send_log e f : data_sends [e] = [] → same_send f (log e f).
Proof.
  intros H. constructor; cbn [log fl_log set_field fl_send_sequence fl_receive_tail fl_local_ended fl_peer_window]; try done.
  by rewrite data_sends_app, H, app_nil_r.
Qed.
Lemma send_send_tcp flags payload f : is_data flags = false → same_send f (send_tcp flags payload f).
Proof.
  intros H. unfold send_tcp. etrans; [|apply send_log; cbn; by rewrite H]. same_send.
Qed.
Lemma send_settle_activation o f : same_send f (settle_activation o f).
Proof. unfold settle_activation. destruct (fl_activation_waiter f); same_send. Qed.
Lemma send_close e f : same_send f (close_tcp_flow e f).
Proof.
  unfold close_tcp_flow. destruct (fl_closed f); [done|]. generalize (default closed_error e). intros reason.
  transitivity (log Deleted (f <| fl_closed := true |>)); [etrans; [|by apply send_log]; same_send|].
  generalize (log Deleted (f <| fl_closed := true |>)). clear f. intros f.
  transitivity (reject_ack_waiters reason f); [same_send|]. generalize (reject_ack_waiters reason f).
  clear f. intros f.
  transitivity (reject_window_waiters reason f); [same_send|]. generalize (reject_window_waiters reason f).
  clear f. intros f.
  transitivity (settle_activation (Some reason) f); [apply send_settle_activation|].
  generalize (settle_activation (Some reason) f). clear f. intros f.
  transitivity (signal_abort reason f); [unfold signal_abort; destruct (fl_abort f); [by apply send_log|done]|].
  generalize (signal_abort reason f). clear f. intros f. unfold end_readable.
  destruct e as [e|]; [|same_send].
  transitivity (f <| fl_readable := stream_error <$> fl_readable f |>); [same_send|].
  destruct (fl_handshake _); [by apply send_log|done].
Qed.
Lemma send_abort e f : same_send f (abort_tcp_flow e f).
Proof.
  unfold abort_tcp_flow. destruct (fl_closed f); [done|].
  etrans; [by apply (send_send_tcp (RST ||| ACK) [])|apply send_close].
Qed.
Lemma send_handshake_timeout m f : same_send f (handshake_timeout m f).
Proof. unfold handshake_timeout. destruct (_ && _)%bool; [|done]. etrans; [|apply send_abort]. same_send. Qed.
Lemma send_ack_timeout w f : same_send f (ack_timeout w f).
Proof. unfold ack_timeout. case_decide; [|done]. same_send. Qed.
Lemma send_establish f : same_send f (establish_tcp_flow f).
Proof.
  unfold establish_tcp_flow. transitivity (settle_activation None (f <| fl_established := true |>)); [|same_send].
  etrans; [|apply send_settle_activation]. same_send.
Qed.

Create HintDb send.
#[export] Hint Resolve send_log send_close send_abort send_handshake_timeout send_ack_timeout send_establish : send.
Lemma send_ack f : same_send f (send_tcp ACK [] f).
Proof. by apply send_send_tcp. Qed.
#[export] Hint Resolve send_ack : send.

Ltac send_stays :=
  stays_with ltac:(auto with send); try match goal with |- same_send _ _ => same_send end.

Lemma send_readable_op op g :
  (∀ f, same_send f (g f)) → stays same_send (readable_op op g).
Proof.
  intros Hg f. unfold readable_op. destruct (fl_readable f) as [s|]; [|done].
  destruct (op s) as [[[]|e|] s']; cbn; [|same_send..]. etrans; [|apply Hg]. same_send.
Qed.
Lemma send_accept_payload p : stays same_send (accept_payload p).
Proof. unfold accept_payload. send_stays. apply send_readable_op. intros f. by apply send_log. Qed.
Lemma send_accept_fin flags : stays same_send (accept_fin flags).
Proof. unfold accept_fin. send_stays. by apply send_readable_op. Qed.
#[export] Hint Resolve send_accept_payload send_accept_fin : send.
Lemma send_process_data segment : stays same_send (process_data segment).
Proof. unfold process_data. send_stays. Qed.
Lemma send_process_handshake segment : stays same_send (process_handshake segment).
Proof. unfold process_handshake. send_stays. Qed.
Lemma send_acknowledge a f : same_send f (acknowledge_waiters a f).
Proof. same_send. Qed.
Lemma send_peer_window w f : 0 ≤ w → same_send f (update_peer_window w f).
Proof. intros Hw. unfold update_peer_window. destruct (w =? 0); same_send. Qed.
#[export] Hint Resolve send_acknowledge send_peer_window : send.
Lemma send_note_ack segment : 0 ≤ ts_window segment → stays same_send (note_ack segment).
Proof.
  intros Hw. unfold note_ack. send_stays.
Qed.
#[export] Hint Resolve send_process_data send_process_handshake send_note_ack : send.

(** The window a guest advertises is a 16-bit field. *)
Definition window_ok (j : job) : Prop := match j with JSegment g => 0 ≤ ts_window g | JWindow => True end.

Lemma send_run_job j : window_ok j → stays same_send (run_job j).
Proof.
  destruct j as [segment|]; cbn [run_job window_ok]; intros Hw; [|unfold process_window; send_stays].
  unfold process_tcp. send_stays.
Qed.

(** The tasks of jobs. *)
Definition job_task (t : task) : bool :=
  match t with THandshakeAcked | TSegmentAcked | TSent => true | _ => false end.

Lemma send_resume_job t o : job_task t = true → stays same_send (resume t o).
Proof.
  intros Ht. unfold resume. destruct t; try done; send_stays.
Qed.

(** What a job suspends to is a job's task. *)
Definition job_prog (m : async) : Prop := ∀ f t, (m f).1 = Done (Some t) → job_task t = true.
Lemma job_prog_bind {A} (m : M flow A) (k : A → async) : (∀ a, job_prog (k a)) → job_prog (m ≫= k).
Proof. intros H f t. unfold mbind, M_bind. destruct (m f) as [[a|e|] f']; [apply H|done..]. Qed.
Lemma job_prog_ret o : (∀ t, o = Some t → job_task t = true) → job_prog (mret o).
Proof. intros H f t [= ->]. auto. Qed.
Lemma job_prog_if (b : bool) m1 m2 : job_prog m1 → job_prog m2 → job_prog (if b then m1 else m2).
Proof. by destruct b. Qed.
Ltac job_prog :=
  repeat first [ apply job_prog_bind; intros ? | apply job_prog_if
               | apply job_prog_ret; by intros ? [= <-] ].
Lemma job_prog_run j : job_prog (run_job j).
Proof.
  destruct j; cbn [run_job]; [|unfold process_window; job_prog].
  unfold process_tcp, process_handshake, process_data. job_prog.
Qed.
Lemma job_prog_resume t o : job_task t = true → job_prog (resume t o).
Proof. intros Ht. unfold resume. destruct t; try done; job_prog. Qed.

Lemma wait_for_peer_window_spec k1 k2 f :
  0 ≤ fl_peer_window f → same_send f (wait_for_peer_window k1 k2 f).2 ∧
  match (wait_for_peer_window k1 k2 f).1 with
  | Done t => (∃ w, t = Some (k1 w)) ∨ (∃ pw, 0 < pw ∧ t = Some (k2 pw) ∧ fl_local_ended f = false)
  | Raise _ => True
  | Loops => False
  end.
Proof.
  intros Hw. unfold wait_for_peer_window, mbind, M_bind. cbn [get_state].
  destruct (fl_closed f), (Z.eqb_spec (fl_peer_window f) 0), (fl_local_ended f) eqn:He; cbn;
    (split; [try done; try same_send|try done]); first [ by left; eexists | right; exists (fl_peer_window f); split_and!; [lia|done..] ].
Qed.

Section send.
Context (base : Z).

Definition at_sequence (f : flow) : Prop :=
  fl_send_sequence f = to_u32 (base + zlen (sent_bytes (data_sends (fl_log f)))).

(** Where the writer stands: [sent] of what was [written]. *)
Definition writer_ok (f : flow) (writable : bool) (written : list Z) (writer : option task) : Prop :=
  let sent := sent_bytes (data_sends (fl_log f)) in
  match writer with
  | None =>
      (∃ rest, written = sent ++ rest ∧ (writable = true → rest = [])) ∧ (writable = true → at_sequence f)
  | Some (TDataWindow data offset _) =>
      writable = true ∧ 0 ≤ offset < zlen data ∧ written = sent ++ drop (Z.to_nat offset) data ∧ at_sequence f
  | Some (TDataAck data offset _) =>
      writable = true ∧ 0 ≤ offset ∧ written = sent ++ drop (Z.to_nat offset) data ∧ at_sequence f
  | Some (TDataHave data offset pw) =>
      writable = true ∧ 0 ≤ offset < zlen data ∧ 0 < pw ∧ written = sent ++ drop (Z.to_nat offset) data ∧ at_sequence f
  | Some (TDataSent data offset len ack _) =>
      writable = true ∧ 0 ≤ offset + len ∧ written = sent ++ drop (Z.to_nat (offset + len)) data ∧
      ack = to_u32 (base + zlen sent)
  | Some (TFinWindow _) | Some TFinHave => writable = false ∧ written = sent
  | Some (TFinSent _ _) | Some (TFinAck _) => writable = false ∧ written = sent
  | Some _ => False
  end.

Record send_core (s : sys) : Prop := {
  si_tail : Forall window_ok (fl_receive_tail (sy_flow s));
  si_window : 0 ≤ fl_peer_window (sy_flow s);
  si_running : ∀ t, sy_running s = Some t → job_task t = true;
  si_labelled : labelled base (data_sends (fl_log (sy_flow s)));
  si_others : sy_activator s = None ∧ sy_finisher s = None;
  si_ended : fl_local_ended (sy_flow s) = true →
    sy_written s = sent_bytes (data_sends (fl_log (sy_flow s))) ∧ sy_writable s = false }.
Definition send_inv (s : sys) : Prop :=
  send_core s ∧ writer_ok (sy_flow s) (sy_writable s) (sy_written s) (sy_writer s).

Lemma writer_ok_same f f' a b w : same_send f f' → writer_ok f a b w → writer_ok f' a b w.
Proof using.
  intros [Hs Hd _ _ _]. unfold writer_ok, at_sequence. rewrite Hs, Hd. by destruct w as [[]|].
Qed.

(** A step that is not the writer's. *)
Lemma send_inv_same s s' :
  send_inv s → same_send (sy_flow s) (sy_flow s') →
  (∀ t, sy_running s' = Some t → job_task t = true) →
  sy_writer s' = sy_writer s → sy_writable s' = sy_writable s → sy_written s' = sy_written s →
  sy_activator s' = sy_activator s → sy_finisher s' = sy_finisher s → send_inv s'.
Proof using.
  intros [[] Hwo] Hs Hr E1 E2 E3 E4 E5. pose proof (writer_ok_same _ _ _ _ _ Hs Hwo).
  destruct Hs. split; [|by rewrite E1, E2, E3].
  constructor; rewrite ?E2, ?E3, ?E4, ?E5, ?ss_tail0, ?ss_sends0, ?ss_ended0; auto.
Qed.

(** The writer stops at an error. *)
Lemma writer_stops f a written w : writer_ok f a written (Some w) →
  ∃ rest, written = sent_bytes (data_sends (fl_log f)) ++ rest.
Proof using.
  unfold writer_ok. destruct w; intros H; try done; destruct_and?; eauto.
  all: exists []; by rewrite app_nil_r.
Qed.

Lemma send_inv_writer s f w :
  send_core s → same_send (sy_flow s) f → writer_ok f (sy_writable s) (sy_written s) w →
  send_inv (s <| sy_flow := f |> <| sy_writer := w |>).
Proof using.
  intros [] Hs Hw. destruct Hs. split; [|done].
  constructor; cbn; rewrite ?ss_tail0, ?ss_sends0, ?ss_ended0; auto.
Qed.
Lemma send_inv_stop s f :
  send_core s → same_send (sy_flow s) f →
  (∃ rest, sy_written s = sent_bytes (data_sends (fl_log (sy_flow s))) ++ rest) →
  send_inv (s <| sy_flow := f |> <| sy_writer := None |> <| sy_writable := false |>).
Proof using.
  intros [] Hs [rest Hr]. destruct Hs. split.
  - constructor; cbn; rewrite ?ss_tail0, ?ss_sends0, ?ss_ended0; auto.
    intros H. split; [|done]. by apply si_ended0.
  - cbn. rewrite ss_sends0. split; [|done]. exists rest. done.
Qed.

(** One loop of [send_tcp_data], up to the wait for the window. *)
Lemma send_data_inv s data offset :
  send_core s → sy_writable s = true → 0 ≤ offset →
  sy_written s = sent_bytes (data_sends (fl_log (sy_flow s))) ++ drop (Z.to_nat offset) data →
  at_sequence (sy_flow s) →
  send_inv (writer_done (send_tcp_data data offset (sy_flow s)) s).
Proof using.
  intros Hi Hw Ho Hwr Hat. unfold send_tcp_data. destruct (Z.ltb_spec offset (zlen data)) as [Hl|Hl]; cbn [negb].
  2: { apply send_inv_writer; [done..|]. split; [|done]. exists []. split; [|done].
       rewrite Hwr, drop_ge; [done|]. unfold zlen in Hl. lia. }
  unfold mbind, M_bind. cbn [get_state].
  destruct (_ || _)%bool; [apply send_inv_stop; [done..|by eexists]|].
  destruct (wait_for_peer_window_spec (TDataWindow data offset) (TDataHave data offset) (sy_flow s)) as [Hs Hr];
    [apply Hi|].
  destruct (wait_for_peer_window _ _ _) as [[t|e|] f]; cbn in Hs, Hr; [|apply send_inv_stop; [done..|by eexists]|done].
  cbn [writer_done]. apply send_inv_writer; [done..|]. apply (writer_ok_same (sy_flow s)); [done|].
  destruct Hr as [[w ->]|(pw&Hpw&->&_)]; cbn; split_and!; done || lia.
Qed.

Lemma send_piece_inv s data offset pw :
  send_inv s → sy_writer s = Some (TDataHave data offset pw) →
  send_inv (writer_done (send_tcp_piece data offset pw (sy_flow s)) s).
Proof using.
  intros [[] Hwo] Hw. rewrite Hw in Hwo. cbn in Hwo. destruct Hwo as (Ha&Ho&Hp&Hwr&Hat).
  unfold send_tcp_piece. set (len := Z.min TCP_MSS (Z.min pw (zlen data - offset))).
  assert (Hlen : 0 < len ≤ TCP_MSS ∧ offset + len ≤ zlen data) by (unfold len, TCP_MSS in *; lia).
  set (payload := subarray data offset (offset + len)).
  assert (Hz : zlen payload = len) by (unfold payload; rewrite zlen_subarray; lia).
  assert (Hs' : ∀ f', fl_log f' = fl_log (sy_flow s) ++
      [Sent (ACK ||| PSH) (fl_send_sequence (sy_flow s)) (fl_receive_sequence (sy_flow s)) payload
         (tcp_receive_window (sy_flow s))] →
    data_sends (fl_log f') = data_sends (fl_log (sy_flow s)) ++ [(fl_send_sequence (sy_flow s), payload)]).
  { intros f' ->. by rewrite data_sends_app. }
  assert (Hsplit : drop (Z.to_nat offset) data = payload ++ drop (Z.to_nat (offset + len)) data).
  { rewrite <- (subarray_clamp data (offset + len) (zlen data)) by lia.
    rewrite <- (subarray_clamp data offset (zlen data)) by lia. symmetry. apply subarray_snoc_range; lia. }
  unfold mbind, M_bind, modify, mret, M_ret. cbn [get_state wait_for_ack writer_done].
  match goal with |- send_inv (_ <| sy_flow := ?f |> <| sy_writer := _ |>) => set (f' := f) end.
  assert (Hd : data_sends (fl_log f') = data_sends (fl_log (sy_flow s)) ++ [(fl_send_sequence (sy_flow s), payload)])
    by (by apply Hs').
  split; [constructor|]; cbn [sy_flow sy_writer sy_written sy_writable sy_running sy_activator sy_finisher set_field];
    rewrite ?Hd; try done.
  - apply labelled_app. split; [done|]. cbn. rewrite Hz. split_and!; [done|lia|done].
  - intros He. change (fl_local_ended (sy_flow s) = true) in He. destruct (si_ended0 He). congruence.
  - unfold writer_ok. rewrite Hd, sent_bytes_app. unfold sent_bytes at 2 4. cbn [fmap list_fmap concat].
    cbn. rewrite app_nil_r. split_and!; [done|lia| |].
    + rewrite Hwr, Hsplit, app_assoc. done.
    + unfold sequence_add. rewrite Hat, to_u32_add, zlen_app. f_equal. lia.
Qed.

Lemma send_fin_inv s :
  send_core s → sy_writable s = false → sy_written s = sent_bytes (data_sends (fl_log (sy_flow s))) →
  send_inv (writer_done (wait_for_peer_window TFinWindow (fun _ => TFinHave) (sy_flow s)) s) ∧
  send_inv (writer_done (send_fin_segment (sy_flow s)) s).
Proof using.
  intros Hi Ha Hwr. split.
  - destruct (wait_for_peer_window_spec TFinWindow (fun _ => TFinHave) (sy_flow s)) as [Hs Hr]; [apply Hi|].
    destruct (wait_for_peer_window _ _ _) as [[t|e|] f]; cbn in Hs, Hr;
      [|apply send_inv_stop; [done..|exists []; by rewrite app_nil_r]|done].
    cbn [writer_done]. apply send_inv_writer; [done..|]. apply (writer_ok_same (sy_flow s)); [done|].
    destruct Hr as [[w' ->]|(pw&Hpw&->&_)]; done.
  - unfold send_fin_segment, mbind, M_bind, modify, mret, M_ret. cbn [get_state wait_for_ack writer_done].
    match goal with |- send_inv (_ <| sy_flow := ?f |> <| sy_writer := _ |>) => set (f' := f) end.
    assert (Hd : data_sends (fl_log f') = data_sends (fl_log (sy_flow s))).
    { unfold f', send_tcp, log. cbn. by rewrite data_sends_app, app_nil_r. }
    destruct Hi. split; [constructor|]; cbn [sy_flow sy_writer sy_written sy_writable sy_running sy_activator sy_finisher set_field];
      rewrite ?Hd; try done. unfold writer_ok. by rewrite Hd.
Qed.

Lemma writer_resume_inv s t o :
  send_inv s → sy_writer s = Some t → o ≠ Loops → send_inv (writer_done (resume t o (sy_flow s)) s).
Proof using.
  intros [Hi Hok] Hw Ho. rewrite Hw in Hok.
  destruct o as [[]|e|]; [|apply send_inv_stop; [done..|by eapply writer_stops]|done].
  unfold resume. rewrite (M_bind_done _ _ _ tt (sy_flow s)) by done.
  destruct t; cbn in Hok; try done.
  - destruct Hok as (Ha&Hl&Hwr&Hat).
    destruct (wait_for_peer_window_spec (TDataWindow data offset) (TDataHave data offset) (sy_flow s)) as [Hs Hr];
      [apply Hi|].
    destruct (wait_for_peer_window _ _ _) as [[t|e|] f]; cbn in Hs, Hr; [|apply send_inv_stop; [done..|by eexists]|done].
    cbn [writer_done]. apply send_inv_writer; [done..|]. apply (writer_ok_same (sy_flow s)); [done|].
    destruct Hr as [[w ->]|(pw&Hpw&->&_)]; done.
  - apply send_piece_inv; [|done]. split; [done|]. by rewrite Hw.
  - destruct Hok as (Ha&Hl&Hwr&Hack). destruct Hi. by split; [constructor|].
  - destruct Hok as (Ha&Hl&Hwr&Hat). by apply send_data_inv.
  - destruct Hok as [Ha Hwr]. by apply send_fin_inv.
  - destruct Hok as [Ha Hwr]. by apply send_fin_inv.
  - destruct Hi. by split; [constructor|].
  - destruct Hok as [Ha Hwr]. unfold resume, mbind, M_bind. cbn [lift get_state].
    assert (Hs : same_send (sy_flow s) (if fl_remote_ended (sy_flow s) then close_tcp_flow None (sy_flow s) else sy_flow s))
      by (destruct (fl_remote_ended _); [apply send_close|done]).
    destruct (fl_remote_ended (sy_flow s)); cbn [modify mret M_ret writer_done];
      (apply send_inv_writer; [done..|]); (apply (writer_ok_same (sy_flow s)); [done|]); cbn;
      (split; [|congruence]); exists []; by rewrite app_nil_r.
Qed.

Lemma send_inv_step arrives s s' :
  (∀ segment, arrives segment → 0 ≤ ts_window segment) →
  send_inv s → flow_step false arrives s s' → send_inv s'.
Proof using.
  intros Harr Hi Hstep. pose proof Hi as [Hcore Hwo]. pose proof Hcore as [].
  assert (Hjob : ∀ m f, same_send (sy_flow s <| fl_receive_tail := fl_receive_tail f |>) f →
    Forall window_ok (fl_receive_tail f) → stays same_send m → job_prog m → send_inv (job_done (m f) s)).
  { intros m f Hf Htl Hm Hp. specialize (Hm f). specialize (Hp f).
    set (s0 := s <| sy_flow := sy_flow s <| fl_receive_tail := fl_receive_tail f |> |>).
    assert (Hi0 : send_inv s0) by (unfold s0; by split; [constructor|]).
    assert (Hrun : ∀ t : option task, (∀ t0, t = Some t0 → job_task t0 = true) → ∀ f', same_send f f' →
      send_inv (s <| sy_flow := f' |> <| sy_running := t |>)).
    { intros t Ht f' Hf'. apply (send_inv_same s0); try done. cbn. by etrans. }
    destruct (m f) as [[t|e|] f'']; cbn in Hm, Hp; cbn [job_done]; apply Hrun; try done.
    - intros t0 ->. by apply Hp.
    - etrans; [done|apply send_abort]. }
  destruct Hstep; try done.
  - split; [constructor|]; cbn; auto. apply Forall_app_2; [done|]. apply Forall_singleton. cbn. auto.
  - split; [constructor|]; cbn; auto. apply Forall_app_2; [done|]. by apply Forall_singleton.
  - apply Hjob; [same_send| | |apply job_prog_run]; rewrite H0 in si_tail0;
      apply Forall_cons in si_tail0 as [Hj Htl]; [done|by apply send_run_job].
  - specialize (si_running0 _ H). apply Hjob; [by destruct (sy_flow s)|done|by apply send_resume_job|by apply job_prog_resume].
  - rewrite H in Hwo. destruct Hwo as [(rest&Hr&Hr0) Hat]. rewrite (Hr0 H0), app_nil_r in Hr.
    pose proof (send_data_inv (s <| sy_written := sy_written s ++ data |>) data 0) as Hd. cbn in Hd.
    apply Hd; try done; [|by cbn; rewrite Hr|by apply Hat].
    constructor; cbn; try done. intros He. destruct (si_ended0 He). congruence.
  - rewrite H in Hwo. destruct Hwo as [(rest&Hr&Hr0) Hat]. rewrite (Hr0 H0), app_nil_r in Hr.
    assert (Hi' : send_core (s <| sy_writable := false |>)).
    { constructor; cbn; try done. all: intros He; by destruct (si_ended0 He). }
    unfold send_tcp_fin, mbind, M_bind. cbn [get_state]. destruct (_ || _)%bool.
    + apply (send_inv_writer (s <| sy_writable := false |>)); [done..|]. cbn. split; [|done]. exists []. by rewrite app_nil_r.
    + destruct (send_fin_inv (s <| sy_writable := false |>)) as [Hf _]; [done..|]. cbn in Hf. exact Hf.
  - apply writer_resume_inv; [done..|].
    destruct t; cbn in H0; try done; try (by subst); destruct H0 as ([?|]&_&->); done.
  - apply (send_inv_same s); try done. apply send_ack_timeout.
  - apply (send_inv_same s); try done. apply send_abort.
  - apply (send_inv_same s); try done. apply send_handshake_timeout.
  - exfalso. destruct si_others0. congruence.
  - exfalso. destruct si_others0. congruence.
Qed.
End send.

(** C2: what the guest receives is what the host wrote. Whatever arrives
    meanwhile, and however the writes were cut by the window and the segment
    size, the data segments carry the written bytes in order, each numbered by
    the bytes before it and none longer than the segment size; and a FIN is
    sent only after all of them. *)
Theorem tcp_send_in_order arrives guest_ip guest_port peer_ip peer_port initial s :
  (∀ segment, arrives segment → 0 ≤ ts_window segment) →
  rtc (flow_step false arrives)
    (sys_start (expire_tcp_handshake (connect_flow guest_ip guest_port peer_ip peer_port initial))) s →
  let sends := data_sends (fl_log (sy_flow s)) in
  labelled (initial + 1) sends ∧ (∃ rest, sy_written s = sent_bytes sends ++ rest) ∧
  (fl_local_ended (sy_flow s) = true → sy_written s = sent_bytes sends).
Proof.
  intros Harr Hsteps sends.
  assert (Hi : send_inv (initial + 1) s).
  { assert (H0 : send_inv (initial + 1) (sys_start (expire_tcp_handshake
      (connect_flow guest_ip guest_port peer_ip peer_port initial)))).
    { split; [by constructor|]. cbn. split; [by exists []|]. intros _. unfold at_sequence. cbn.
      unfold sequence_add. f_equal. rewrite zlen_nil. lia. }
    revert H0. clear sends. induction Hsteps; eauto using send_inv_step. }
  destruct Hi as [[] Hw]. split_and!; [done| |by intros He; destruct (si_ended0 He)].
  destruct (sy_writer s) as [t|] eqn:E; [by eapply writer_stops|].
  destruct Hw as [(rest&Hr&_) _]. by exists rest.
Qed.

Lemma tcp_send_in_order_witness :
  ∃ s, rtc (flow_step false (fun g => g = TcpParsed 80 49152 1000 1 (SYN ||| ACK) 2 []))
      (sys_start (expire_tcp_handshake (connect_flow 2 80 1 49152 0))) s ∧
    data_sends (fl_log (sy_flow s)) = [(1, [7; 8])] ∧ sy_written s = [7; 8; 9] ∧
    labelled 1 (data_sends (fl_log (sy_flow s))).
Proof.
  assert (Hrun : ∃ s, rtc (flow_step false (fun g => g = TcpParsed 80 49152 1000 1 (SYN ||| ACK) 2 []))
      (sys_start (expire_tcp_handshake (connect_flow 2 80 1 49152 0))) s ∧
    data_sends (fl_log (sy_flow s)) = [(1, [7; 8])] ∧ sy_written s = [7; 8; 9]).
  { eexists. split; [|split].
    - take_step ltac:(apply StepArrive; reflexivity).
      take_step ltac:(eapply StepJob; reflexivity).
      take_step ltac:(eapply (StepResumeJob _ _ _ THandshakeAcked (Done tt)); [reflexivity|discriminate]).
      take_step ltac:(apply (StepWrite _ _ _ [7; 8; 9]); [reflexivity|reflexivity|by eexists|reflexivity|discriminate]).
      take_step ltac:(eapply (StepResumeWriter _ _ _ (TDataHave [7; 8; 9] 0 2) (Done tt)); reflexivity).
      apply rtc_refl.
    - vm_compute. reflexivity.
    - vm_compute. reflexivity. }
  destruct Hrun as (s&Hs&Hd&Hw). exists s. split_and!; [done..|].
  apply (tcp_send_in_order (fun g => g = TcpParsed 80 49152 1000 1 (SYN ||| ACK) 2 []) 2 80 1 49152 0 s);
    [intros ? ->; vm_compute; discriminate|done].
Defined.

(** * Answers, and a transfer that completes *)

Lemma accept_payload_log payload f f1 :
  accept_payload payload f = (Done tt, f1) →
  fl_log f1 = fl_log f ∨ fl_log f1 = fl_log f ++ [Enqueued payload].
Proof.
  unfold accept_payload. destruct (0 <? zlen payload); [|intros [= <-]; auto].
  unfold mbind, M_bind, readable_op. destruct (fl_readable f) as [s|]; [|intros [= <-]; auto].
  destruct (stream_enqueue payload s) as [[[]|e|] s']; intros [= <-]. by right.
Qed.
Lemma accept_fin_log flags f f1 : accept_fin flags f = (Done tt, f1) → fl_log f1 = fl_log f.
Proof.
  unfold accept_fin. destruct (negb _); [|by intros [= <-]].
  unfold mbind, M_bind, modify, readable_op. cbn [fl_readable set_field].
  destruct (fl_readable f) as [s|]; [|by intros [= <-]].
  destruct (stream_close s) as [[[]|e|] s']; by intros [= <-].
Qed.

(** the answer to data is current. A segment that takes sequence space
    is answered, on an established connection, by exactly one ACK; it
    carries the receive sequence number and the window after the segment, whether
    the segment was accepted, was out of sequence or did not fit the window. *)
Theorem tcp_answers_data segment f t f' :
  0 < zlen (ts_payload segment) + (if negb (ts_flags segment &&& FIN =? 0) then 1 else 0) →
  process_data segment f = (Done t, f') →
  ∃ front, fl_log f' = front ++ [Sent ACK (fl_send_sequence f') (fl_receive_sequence f') [] (fl_advertised_window f')] ∧
    (front = fl_log f ∨ front = fl_log f ++ [Enqueued (ts_payload segment)]) ∧
    (fl_receive_sequence f' = fl_receive_sequence f ∨
     ts_sequence segment = fl_receive_sequence f ∧ zlen (ts_payload segment) ≤ Z.max 0 (tcp_receive_window f)).
Proof.
  intros Hc. unfold process_data, mbind at 1, M_bind at 1. cbn [get_state].
  destruct (Z.eqb_spec (zlen (ts_payload segment) + (if negb (ts_flags segment &&& FIN =? 0) then 1 else 0)) 0); [lia|].
  assert (Hack : ∀ g, fl_log (send_tcp ACK [] g) = fl_log g ++ [Sent ACK (fl_send_sequence (send_tcp ACK [] g))
    (fl_receive_sequence (send_tcp ACK [] g)) [] (fl_advertised_window (send_tcp ACK [] g))]) by done.
  destruct (Z.eqb_spec (ts_sequence segment) (fl_receive_sequence f)) as [Heq|]; cbn [negb].
  2: { intros [= <- <-]. exists (fl_log f). split; [done|]. auto. }
  destruct ((0 <? _) && _)%bool eqn:Hw.
  { intros [= <- <-]. exists (fl_log f). split; [done|]. auto. }
  intros H. assert (Hfit : zlen (ts_payload segment) ≤ Z.max 0 (tcp_receive_window f)).
  { destruct (Z.ltb_spec 0 (zlen (ts_payload segment))); [|lia]. apply Z.ltb_ge in Hw. lia. }
  destruct (accept_payload (ts_payload segment) f) as [[[]|e|] f1] eqn:E1;
    [rewrite (M_bind_done _ _ _ _ _ E1) in H|by rewrite (M_bind_raise _ _ _ _ _ E1) in H
    |by rewrite (M_bind_loops _ _ _ _ E1) in H].
  destruct (accept_fin (ts_flags segment) f1) as [[[]|e|] f2] eqn:E2;
    [rewrite (M_bind_done _ _ _ _ _ E2) in H|by rewrite (M_bind_raise _ _ _ _ _ E2) in H
    |by rewrite (M_bind_loops _ _ _ _ E2) in H].
  injection H as <- <-. exists (fl_log f2). split; [apply Hack|]. split; [|by right].
  rewrite (accept_fin_log _ _ _ E2). by apply (accept_payload_log _ _ _ E1).
Qed.

Lemma tcp_answers_data_witness :
  let f := (connect_flow 2 80 1 49152 0) <| fl_established := true |> <| fl_receive_sequence := 5 |> in
  let r := process_data (TcpParsed 80 49152 9 1 ACK 500 [4; 5]) f in
  ∃ front, fl_log r.2 = front ++ [Sent ACK (fl_send_sequence r.2) (fl_receive_sequence r.2) [] (fl_advertised_window r.2)] ∧
    (front = fl_log f ∨ front = fl_log f ++ [Enqueued [4; 5]]) ∧
    (fl_receive_sequence r.2 = fl_receive_sequence f ∨
     9 = fl_receive_sequence f ∧ zlen [4; 5] ≤ Z.max 0 (tcp_receive_window f)).
Proof.
  intros f r. apply (tcp_answers_data (TcpParsed 80 49152 9 1 ACK 500 [4; 5]) f (Some TSent) r.2).
  - vm_compute. reflexivity.
  - vm_compute. reflexivity.
Defined.

#[export] Instance event_eq_dec : EqDecision event.
Proof. solve_decision. Defined.

(** A guest that acknowledges each segment as it comes, with a window of
    [window]: whether the waiter of the segment was settled by it. *)
Definition guest_acks (window : Z) (t : task) (f : flow) : option flow :=
  match t with
  | TDataAck _ _ waiter =>
      let f := acknowledge_waiters (fl_send_sequence f) (update_peer_window window f) in
      if decide (AckSettled waiter None ∈ fl_log f) then Some f else None
  | _ => Some f
  end.

(** A write, run to its end against that guest; [None] if it cannot go on. *)
Fixpoint transfer (fuel : nat) (window : Z) (r : outcome (option task) * flow) : option flow :=
  match fuel with
  | O => None
  | S fuel =>
      match r with
      | (Done None, f) => Some f
      | (Done (Some t), f) =>
          f ← guest_acks window t f; transfer fuel window (resume t (Done tt) f)
      | _ => None
      end
  end.

Section transfer.
Context (window : Z) (Hwindow : 0 < window).

Definition open_flow (f : flow) : Prop :=
  fl_closed f = false ∧ fl_local_ended f = false ∧ 0 < fl_peer_window f.

Lemma transfer_step n t f :
  transfer (S n) window (Done (Some t), f) =
    f ← guest_acks window t f; transfer n window (resume t (Done tt) f).
Proof using. done. Qed.

Lemma send_tcp_data_open data offset f : open_flow f → offset < zlen data →
  send_tcp_data data offset f = (Done (Some (TDataHave data offset (fl_peer_window f))), f).
Proof using.
  intros (Hc&He&Hp) Ho. unfold send_tcp_data. rewrite (proj2 (Z.ltb_lt _ _)) by done. cbn [negb].
  unfold wait_for_peer_window, mbind, M_bind. cbn [get_state]. rewrite Hc, He. cbn [orb]. rewrite Hc, He.
  rewrite (proj2 (Z.eqb_neq (fl_peer_window f) 0)) by lia. done.
Qed.

(** Sending a piece and having it acknowledged. *)
Lemma piece_acknowledged data offset pw f : open_flow f → 0 ≤ offset < zlen data → 0 < pw →
  ∃ len f1 f2 waiter ack, 0 < len ∧ offset + len ≤ zlen data ∧
    send_tcp_piece data offset pw f = (Done (Some (TDataSent data offset len ack waiter)), f1) ∧
    guest_acks window (TDataAck data (offset + len) waiter) (f1 <| fl_send_sequence := ack |>) = Some f2 ∧
    open_flow f2 ∧
    sent_bytes (data_sends (fl_log f2)) =
      sent_bytes (data_sends (fl_log f)) ++ subarray data offset (offset + len).
Proof using Hwindow.
  intros (Hc&He&Hp) Ho Hpw. set (len := Z.min TCP_MSS (Z.min pw (zlen data - offset))).
  set (payload := subarray data offset (offset + len)).
  set (ack := sequence_add (fl_send_sequence f) (zlen payload)).
  set (g := send_tcp (ACK ||| PSH) payload (f
    <| fl_ack_waiters := fl_ack_waiters f ++ [(fl_next_waiter f, ack)] |>
    <| fl_next_waiter := S (fl_next_waiter f) |>)).
  set (h := acknowledge_waiters ack (update_peer_window window (g <| fl_send_sequence := ack |>))).
  exists len, g, h, (fl_next_waiter f), ack.
  assert (Hw : (window =? 0) = false) by (apply Z.eqb_neq; lia).
  split; [unfold len, TCP_MSS; lia|]. split; [unfold len; lia|]. split; [done|]. split; [|split].
  - unfold guest_acks.
    change (fl_send_sequence (g <| fl_send_sequence := ack |>)) with ack. fold h.
    rewrite decide_True; [done|]. unfold h, acknowledge_waiters, update_peer_window. rewrite Hw.
    cbn [fl_log fl_ack_waiters set_field]. apply elem_of_app. right.
    apply list_elem_of_fmap. exists (fl_next_waiter f, ack). split; [done|].
    apply elem_of_reverse, list_elem_of_filter. split; [done|].
    unfold g, send_tcp, log. cbn. apply elem_of_app. right. apply list_elem_of_singleton. done.
  - unfold open_flow, h, acknowledge_waiters, update_peer_window. rewrite Hw. done.
  - assert (Hs : same_send (g <| fl_send_sequence := ack |>) h).
    { unfold h. etrans; [|apply send_acknowledge]. apply send_peer_window. lia. }
    rewrite (ss_sends _ _ Hs).
    assert (Hg : data_sends (fl_log g) = data_sends (fl_log f) ++ [(fl_send_sequence f, payload)])
      by apply data_sends_app.
    change (fl_log (g <| fl_send_sequence := ack |>)) with (fl_log g). rewrite Hg, sent_bytes_app.
    f_equal. apply app_nil_r.
Qed.

Lemma transfer_done n data offset f : open_flow f → 0 ≤ offset → zlen data - offset ≤ Z.of_nat n →
  ∃ f', transfer (3 * n + 1) window (send_tcp_data data offset f) = Some f' ∧
    sent_bytes (data_sends (fl_log f')) =
      sent_bytes (data_sends (fl_log f)) ++ drop (Z.to_nat offset) data.
Proof using Hwindow.
  revert offset f; induction n as [|n IH]; intros offset f Hf Ho Hn.
  - exists f. assert (Hge : zlen data ≤ offset) by lia. unfold send_tcp_data.
    rewrite (proj2 (Z.ltb_ge offset (zlen data))) by done. split; [done|].
    rewrite drop_ge by (unfold zlen in Hge; lia). by rewrite app_nil_r.
  - destruct (decide (offset < zlen data)) as [Hl|Hge].
    2: { exists f. replace (3 * S n + 1)%nat with (S (3 * n + 3)) by lia. unfold send_tcp_data.
         rewrite (proj2 (Z.ltb_ge offset (zlen data))) by lia. split; [done|].
         rewrite drop_ge by (unfold zlen in Hge; lia). by rewrite app_nil_r. }
    rewrite send_tcp_data_open by done. pose proof Hf as (_&_&Hpw).
    destruct (piece_acknowledged data offset (fl_peer_window f) f Hf) as (len&f1&f2&w&ack&Hlen&Hle&E1&E2&Hf2&Hs);
      [lia|done|].
    destruct (IH (offset + len) f2 Hf2) as (f'&E&Hs'); [lia|lia|].
    exists f'. split.
    + replace (3 * S n + 1)%nat with (S (S (S (3 * n + 1)))) by lia.
      rewrite transfer_step. cbn [guest_acks mbind option_bind].
      change (resume (TDataHave data offset (fl_peer_window f)) (Done tt) f)
        with (send_tcp_piece data offset (fl_peer_window f) f). rewrite E1, transfer_step.
      cbn [guest_acks mbind option_bind].
      change (resume (TDataSent data offset len ack w) (Done tt) f1)
        with ((Done (Some (TDataAck data (offset + len) w)), f1 <| fl_send_sequence := ack |>)
          : outcome (option task) * flow).
      rewrite transfer_step, E2. exact E.
    + rewrite Hs', Hs, <- app_assoc. f_equal.
      rewrite <- (subarray_clamp data (offset + len) (zlen data)) by lia.
      rewrite <- (subarray_clamp data offset (zlen data)) by lia. apply subarray_snoc_range; lia.
Qed.
End transfer.

(** C24: a write completes. Against a guest that acknowledges what it gets and
    keeps its window open, however small, a write on an open connection ends,
    having sent exactly its bytes: no wait is left without an acknowledgement. *)
Theorem tcp_write_completes window data f :
  0 < window → fl_closed f = false → fl_local_ended f = false → 0 < fl_peer_window f →
  ∃ f', transfer (3 * length data + 1) window (send_tcp_data data 0 f) = Some f' ∧
    sent_bytes (data_sends (fl_log f')) = sent_bytes (data_sends (fl_log f)) ++ data.
Proof.
  intros Hw Hc He Hp. destruct (transfer_done window Hw (length data) data 0 f) as (f'&E&Hs);
    [done|done|unfold zlen; lia|]. exists f'. by rewrite drop_0 in Hs.
Qed.

Lemma tcp_write_completes_witness :
  let f := (connect_flow 2 80 1 49152 0) <| fl_peer_window := 2 |> in
  ∃ f', transfer (3 * 3 + 1) 1 (send_tcp_data [7; 8; 9] 0 f) = Some f' ∧
    sent_bytes (data_sends (fl_log f')) = [7; 8; 9].
Proof.
  intros f. apply (tcp_write_completes 1 [7; 8; 9] f); [lia|reflexivity|reflexivity|reflexivity].
Defined.
