(* ===== verification/FuseWire.v ===== *)
(** The FUSE ABI of virtio-fs in packages/kernel/src/virtio/fs.ts: opcodes,
    flags, wire structs, names, attributes, and the copying between a
    virtqueue chain's buffers and the byte strings of a request and a reply. *)
From S2P Require Export Bytes Text.

(** * Constants *)
Module FuseOpcode.
Definition LOOKUP : Z := 1.
Definition FORGET : Z := 2.
Definition GETATTR : Z := 3.
Definition SETATTR : Z := 4.
Definition READLINK : Z := 5.
Definition SYMLINK : Z := 6.
Definition MKDIR : Z := 9.
Definition UNLINK : Z := 10.
Definition RMDIR : Z := 11.
Definition RENAME : Z := 12.
Definition OPEN : Z := 14.
Definition READ : Z := 15.
Definition WRITE : Z := 16.
Definition STATFS : Z := 17.
Definition RELEASE : Z := 18.
Definition FSYNC : Z := 20.
Definition FLUSH : Z := 25.
Definition INIT : Z := 26.
Definition OPENDIR : Z := 27.
Definition READDIR : Z := 28.
Definition RELEASEDIR : Z := 29.
Definition FSYNCDIR : Z := 30.
Definition ACCESS : Z := 34.
Definition CREATE : Z := 35.
Definition INTERRUPT : Z := 36.
Definition DESTROY : Z := 38.
Definition BATCH_FORGET : Z := 42.
End FuseOpcode.

Module FuseFlags.
Definition INIT_ASYNC_READ : Z := 1 <<< 0.
Definition INIT_BIG_WRITES : Z := 1 <<< 5.
Definition INIT_AUTO_INVAL_DATA : Z := 1 <<< 12.
Definition INIT_MAX_PAGES : Z := 1 <<< 22.
Definition INIT_INIT_EXT : Z := 1 <<< 30.
Definition GETATTR_FH : Z := 1 <<< 0.
Definition SETATTR_MODE : Z := 1 <<< 0.
Definition SETATTR_UID : Z := 1 <<< 1.
Definition SETATTR_GID : Z := 1 <<< 2.
Definition SETATTR_SIZE : Z := 1 <<< 3.
Definition SETATTR_ATIME : Z := 1 <<< 4.
Definition SETATTR_MTIME : Z := 1 <<< 5.
Definition SETATTR_FH : Z := 1 <<< 6.
Definition SETATTR_ATIME_NOW : Z := 1 <<< 7.
Definition SETATTR_MTIME_NOW : Z := 1 <<< 8.
Definition SETATTR_CTIME : Z := 1 <<< 10.
End FuseFlags.

(** [FileType]: the type bits of a mode. *)
Definition S_IFIFO : Z := 0x1000.
Definition S_IFCHR : Z := 0x2000.
Definition S_IFDIR : Z := 0x4000.
Definition S_IFBLK : Z := 0x6000.
Definition S_IFREG : Z := 0x8000.
Definition S_IFLNK : Z := 0xa000.
Definition S_IFSOCK : Z := 0xc000.

(** The members of [Errno] the device itself throws. *)
Definition ENOENT : Z := 2.
Definition EIO : Z := 5.
Definition EBADF : Z := 9.
Definition EINVAL : Z := 22.
Definition ENAMETOOLONG : Z := 36.
Definition ENOSYS : Z := 38.
Definition EPROTO : Z := 71.

(** * Wire structs *)
Definition FuseInHeader : ty := Struct [("len", U32LE); ("opcode", U32LE); ("unique", U64LE); ("nodeid", U64LE);
  ("uid", U32LE); ("gid", U32LE); ("pid", U32LE); ("total_extlen", U16LE); ("padding", U16LE)].
Definition FuseOutHeader : ty := Struct [("len", U32LE); ("error", I32LE); ("unique", U64LE)].
Definition FuseAttr : ty := Struct [("ino", U64LE); ("size", U64LE); ("blocks", U64LE); ("atime", U64LE);
  ("mtime", U64LE); ("ctime", U64LE); ("atimensec", U32LE); ("mtimensec", U32LE); ("ctimensec", U32LE);
  ("mode", U32LE); ("nlink", U32LE); ("uid", U32LE); ("gid", U32LE); ("rdev", U32LE); ("blksize", U32LE);
  ("flags", U32LE)].
Definition FuseEntryOut : ty := Struct [("nodeid", U64LE); ("generation", U64LE); ("entry_valid", U64LE);
  ("attr_valid", U64LE); ("entry_valid_nsec", U32LE); ("attr_valid_nsec", U32LE); ("attr", FuseAttr)].
Definition FuseAttrOut : ty := Struct [("attr_valid", U64LE); ("attr_valid_nsec", U32LE); ("dummy", U32LE);
  ("attr", FuseAttr)].
Definition FuseOpenOut : ty := Struct [("fh", U64LE); ("open_flags", U32LE); ("backing_id", I32LE)].
Definition FuseInitOut : ty := Struct [("major", U32LE); ("minor", U32LE); ("max_readahead", U32LE);
  ("flags", U32LE); ("max_background", U16LE); ("congestion_threshold", U16LE); ("max_write", U32LE);
  ("time_gran", U32LE); ("max_pages", U16LE); ("map_alignment", U16LE); ("flags2", U32LE);
  ("max_stack_depth", U32LE); ("request_timeout", U16LE); ("unused", FixedArray U16LE 11)].
Definition FuseWriteOut : ty := Struct [("size", U32LE); ("padding", U32LE)].
Definition FuseStatfsOut : ty := Struct [("blocks", U64LE); ("bfree", U64LE); ("bavail", U64LE);
  ("files", U64LE); ("ffree", U64LE); ("bsize", U32LE); ("namelen", U32LE); ("frsize", U32LE);
  ("padding", U32LE); ("spare", FixedArray U32LE 6)].
Definition FuseInitIn : ty := Struct [("major", U32LE); ("minor", U32LE); ("max_readahead", U32LE);
  ("flags", U32LE)].
Definition FuseForgetIn : ty := Struct [("nlookup", U64LE)].
Definition FuseForgetOne : ty := Struct [("nodeid", U64LE); ("nlookup", U64LE)].
Definition FuseBatchForgetIn : ty := Struct [("count", U32LE); ("dummy", U32LE)].
Definition FuseGetattrIn : ty := Struct [("getattr_flags", U32LE); ("dummy", U32LE); ("fh", U64LE)].
Definition FuseMkdirIn : ty := Struct [("mode", U32LE); ("umask", U32LE)].
Definition FuseRenameIn : ty := Struct [("newdir", U64LE)].
Definition FuseSetattrIn : ty := Struct [("valid", U32LE); ("padding", U32LE); ("fh", U64LE); ("size", U64LE);
  ("lock_owner", U64LE); ("atime", U64LE); ("mtime", U64LE); ("ctime", U64LE); ("atimensec", U32LE);
  ("mtimensec", U32LE); ("ctimensec", U32LE); ("mode", U32LE); ("unused4", U32LE); ("uid", U32LE);
  ("gid", U32LE); ("unused5", U32LE)].
Definition FuseOpenIn : ty := Struct [("flags", U32LE); ("open_flags", U32LE)].
Definition FuseCreateIn : ty := Struct [("flags", U32LE); ("mode", U32LE); ("umask", U32LE);
  ("open_flags", U32LE)].
Definition FuseReadIn : ty := Struct [("fh", U64LE); ("offset", U64LE); ("size", U32LE); ("read_flags", U32LE);
  ("lock_owner", U64LE); ("flags", U32LE); ("padding", U32LE)].
Definition FuseWriteIn : ty := Struct [("fh", U64LE); ("offset", U64LE); ("size", U32LE); ("write_flags", U32LE);
  ("lock_owner", U64LE); ("flags", U32LE); ("padding", U32LE)].
Definition FuseFlushIn : ty := Struct [("fh", U64LE); ("unused", U32LE); ("padding", U32LE);
  ("lock_owner", U64LE)].
Definition FuseFsyncIn : ty := Struct [("fh", U64LE); ("fsync_flags", U32LE); ("padding", U32LE)].
Definition FuseReleaseIn : ty := Struct [("fh", U64LE); ("flags", U32LE); ("release_flags", U32LE);
  ("lock_owner", U64LE)].
Definition FuseAccessIn : ty := Struct [("mask", U32LE); ("padding", U32LE)].
Definition FuseDirent : ty := Struct [("ino", U64LE); ("off", U64LE); ("namelen", U32LE); ("type", U32LE)].

(** * Names and modes *)
Inductive file_type := Fifo | Character | Directory | Block | File | Symlink | Socket.

(** [mode & 0o170000]: the operators of the source take ToInt32. *)
Definition mode_type (mode : Z) : outcome file_type :=
  let t := to_i32 mode &&& 0xf000 in
  if t =? S_IFIFO then Done Fifo
  else if t =? S_IFCHR then Done Character
  else if t =? S_IFDIR then Done Directory
  else if t =? S_IFBLK then Done Block
  else if t =? S_IFREG then Done File
  else if t =? S_IFLNK then Done Symlink
  else if t =? S_IFSOCK then Done Socket
  else Raise (FSError EIO).

Definition DirentType (t : file_type) : Z :=
  match t with
  | Fifo => 1 | Character => 2 | Directory => 4 | Block => 6 | File => 8 | Symlink => 10 | Socket => 12
  end.

Definition checked_number (value : Z) : outcome Z :=
  if ((max_safe_integer <? value) || (value <? 0))%bool then Raise (FSError EINVAL) else Done value.

Definition validate_name (name : text) : outcome text :=
  if ((zlen name =? 0) || bool_decide (name = lit ".") || bool_decide (name = lit "..")
      || bool_decide (47 ∈ name) || bool_decide (0 ∈ name))%bool
  then Raise (FSError EINVAL)
  else if 255 <? zlen (utf8_encode name) then Raise (FSError ENAMETOOLONG)
  else Done name.

(** [Reader.cstring]: the text of the bytes before the terminator. *)
Definition rd_text : M reader text :=
  bytes ← rd_cstring (fun bytes => bool_decide (is_Some (utf8_decode bytes)));
  mret (default [] (utf8_decode bytes)).

(** * The buffers of a chain *)
Record vbuffer := VBuffer { vb_array : list Z; vb_writable : bool }.

Definition concatenate (buffers : list vbuffer) (writable : bool) : list Z :=
  concat (vb_array <$> filter (fun b => vb_writable b = writable) buffers).

(** [buffers.filter(writable).reduce((total, buffer) => total + buffer.array.byteLength, 0)] *)
Definition response_capacity (buffers : list vbuffer) : Z :=
  sum_list_z ((fun b => zlen (vb_array b)) <$> filter (fun b => vb_writable b = true) buffers).

(** The loop of [scatter]: the buffers it leaves and the offset it reaches. *)
Fixpoint scatter_loop (buffers : list vbuffer) (data : list Z) (offset : Z) : list vbuffer * Z :=
  match buffers with
  | [] => ([], offset)
  | b :: bs =>
      if negb (vb_writable b) then let '(bs', o) := scatter_loop bs data offset in (b :: bs', o)
      else
        let length := Z.min (zlen (vb_array b)) (zlen data - offset) in
        if length <=? 0 then (b :: bs, offset)
        else
          let '(bs', o) := scatter_loop bs data (offset + length) in
          (VBuffer (splice (vb_array b) 0 (subarray data offset (offset + length))) true :: bs', o)
  end.
Definition scatter (data : list Z) : M (list vbuffer) unit := fun buffers =>
  let '(buffers, offset) := scatter_loop buffers data 0 in
  if negb (offset =? zlen data) then (Raise (JsError "guest response buffers are too small"), buffers)
  else (Done tt, buffers).

Definition minimum_response_capacity (opcode : Z) : Z :=
  let header := ty_size FuseOutHeader in
  if ((opcode =? FuseOpcode.FORGET) || (opcode =? FuseOpcode.BATCH_FORGET)
      || (opcode =? FuseOpcode.INTERRUPT))%bool then 0
  else if opcode =? FuseOpcode.INIT then header + ty_size FuseInitOut
  else if ((opcode =? FuseOpcode.LOOKUP) || (opcode =? FuseOpcode.SYMLINK)
           || (opcode =? FuseOpcode.MKDIR))%bool then header + ty_size FuseEntryOut
  else if ((opcode =? FuseOpcode.GETATTR) || (opcode =? FuseOpcode.SETATTR))%bool
       then header + ty_size FuseAttrOut
  else if ((opcode =? FuseOpcode.OPEN) || (opcode =? FuseOpcode.OPENDIR))%bool
       then header + ty_size FuseOpenOut
  else if opcode =? FuseOpcode.CREATE then header + ty_size FuseEntryOut + ty_size FuseOpenOut
  else if opcode =? FuseOpcode.WRITE then header + ty_size FuseWriteOut
  else if opcode =? FuseOpcode.STATFS then header + ty_size FuseStatfsOut
  else header.

(** * Attributes *)
Record timestamp := Timestamp { seconds : Z; nanoseconds : option Z }.
Record attributes := Attributes {
  at_mode : Z; at_size : Z; at_atime : option timestamp; at_mtime : option timestamp;
  at_ctime : option timestamp; at_blocks : option Z; at_nlink : option Z; at_uid : option Z;
  at_gid : option Z; at_rdev : option Z; at_blockSize : option Z }.

Inductive new_time := Now | At (t : timestamp).
Record set_attributes := SetAttributes {
  sa_mode : option Z; sa_size : option Z; sa_uid : option Z; sa_gid : option Z;
  sa_atime : option new_time; sa_mtime : option new_time; sa_ctime : option timestamp }.

Record statfs := Statfs {
  sf_blocks : option Z; sf_blocksFree : option Z; sf_blocksAvailable : option Z; sf_files : option Z;
  sf_filesFree : option Z; sf_blockSize : option Z; sf_fragmentSize : option Z; sf_nameLength : option Z }.
Record context := CreateContext { cx_mode : Z; cx_uid : Z; cx_gid : Z }.

Definition timestamp_pair (value : option timestamp) : Z * Z :=
  (from_option seconds 0 value, default 0 (value ≫= nanoseconds)).

(** [attributes.nlink ?? (...)] looks at the mode only when there is no count. *)
Definition attr_fields (nodeid : Z) (a : attributes) : outcome value :=
  let '(atime, atimensec) := timestamp_pair (at_atime a) in
  let '(mtime, mtimensec) := timestamp_pair (at_mtime a) in
  let '(ctime, ctimensec) := timestamp_pair (at_ctime a) in
  nlink ← match at_nlink a with
          | Some n => Done n
          | None => t ← mode_type (at_mode a); Done (if t is Directory then 2 else 1)
          end;
  Done (Obj [("ino", Num nodeid); ("size", Num (at_size a));
    ("blocks", Num (default (Z.quot (at_size a + 511) 512) (at_blocks a)));
    ("atime", Num atime); ("mtime", Num mtime); ("ctime", Num ctime);
    ("atimensec", Num atimensec); ("mtimensec", Num mtimensec); ("ctimensec", Num ctimensec);
    ("mode", Num (at_mode a)); ("nlink", Num nlink); ("uid", Num (default 0 (at_uid a)));
    ("gid", Num (default 0 (at_gid a))); ("rdev", Num (default 0 (at_rdev a)));
    ("blksize", Num (default 4096 (at_blockSize a))); ("flags", Num 0)]).

Definition write_entry (id : Z) (a : attributes) (validity : Z) : M buf unit :=
  o ← alloc FuseEntryOut;
  attr ← lift (attr_fields id a);
  alloc_set FuseEntryOut o (Obj [("nodeid", Num id); ("generation", Num 1); ("entry_valid", Num validity);
    ("attr_valid", Num validity); ("entry_valid_nsec", Num 0); ("attr_valid_nsec", Num 0); ("attr", attr)]).

Definition write_attr_out (validity nodeid : Z) (a : attributes) : M buf unit :=
  o ← alloc FuseAttrOut;
  attr ← lift (attr_fields nodeid a);
  alloc_set FuseAttrOut o (Obj [("attr_valid", Num validity); ("attr_valid_nsec", Num 0); ("dummy", Num 0);
    ("attr", attr)]).

Definition create_context (header : value) (mode umask : Z) : context :=
  CreateContext (to_i32 mode &&& Z.lnot (to_i32 umask)) header.["uid"] header.["gid"].
