(* ===== verification/FuseNodes.v ===== *)
(** The node and handle tables of a virtio-fs device: the records, their
    reference counts and their collection in packages/kernel/src/virtio/fs.ts.

    A record is an object; its identity is its node id, which is never used
    again. [tb_heap] is every record made, and [tb_live] the keys of the map
    [records], from which collection deletes. *)
From S2P Require Export FuseWire.

Lemma filter_none {A} (P : A → Prop) `{!∀ x, Decision (P x)} (l : list A) :
  Forall (fun x => ¬ P x) l → filter P l = [].
Proof. induction 1 as [|x l Hx Hl IH]; [done|]. by rewrite filter_cons_False. Qed.

Section tables.
Context {N H : Type} `{Countable N}.

Record node_record := NodeRecord {
  nr_node : N; nr_parent : Z; nr_lookups : Z; nr_handles : Z; nr_children : Z }.
#[export] Instance node_record_eta : Eta node_record := fun r =>
  NodeRecord (nr_node r) (nr_parent r) (nr_lookups r) (nr_handles r) (nr_children r).

Record handle_record := HandleRecord { hr_node : Z; hr_handle : H; hr_directory : bool }.

Record tables := Tables {
  tb_heap : gmap Z node_record; tb_live : gset Z; tb_by_node : gmap N Z; tb_next_nodeid : Z;
  tb_handles : list (Z * handle_record); tb_next_handle : Z }.
#[export] Instance tables_eta : Eta tables := fun t =>
  Tables (tb_heap t) (tb_live t) (tb_by_node t) (tb_next_nodeid t) (tb_handles t) (tb_next_handle t).

Definition ROOT : Z := 1.

Definition tables_new (root : N) : tables :=
  Tables {[ROOT := NodeRecord root ROOT 1 0 0]} {[ROOT]} {[root := ROOT]} 2 [] 1.

(** An assignment to a field of the record [id]. *)
Definition update_record (id : Z) (f : node_record → node_record) (t : tables) : tables :=
  t <| tb_heap := alter f id (tb_heap t) |>.
Definition add_children (n : Z) (r : node_record) : node_record := r <| nr_children := nr_children r + n |>.
Definition add_handles (n : Z) (r : node_record) : node_record := r <| nr_handles := nr_handles r + n |>.
Definition add_lookup (r : node_record) : node_record := r <| nr_lookups := nr_lookups r + 1 |>.

Definition record_for_node (node : N) (parent : Z) (t : tables) : Z * tables :=
  match tb_by_node t !! node with
  | Some id => (id, t)
  | None =>
      let id := tb_next_nodeid t in
      (id, update_record parent (add_children 1)
             (t <| tb_heap := <[id := NodeRecord node parent 0 0 0]> (tb_heap t) |>
                <| tb_live := {[id]} ∪ tb_live t |>
                <| tb_by_node := <[node := id]> (tb_by_node t) |>
                <| tb_next_nodeid := id + 1 |>))
  end.

Definition unreferenced (r : node_record) : bool :=
  ((nr_lookups r =? 0) && (nr_handles r =? 0) && (nr_children r =? 0))%bool.

Definition delete_record (id : Z) (r : node_record) (t : tables) : tables :=
  update_record (nr_parent r) (add_children (-1))
    (t <| tb_live := tb_live t ∖ {[id]} |> <| tb_by_node := delete (nr_node r) (tb_by_node t) |>).

(** [collect_record] follows the parents; each round deletes a record, so more
    rounds than there are records are never run. *)
Fixpoint collect (fuel : nat) (id : Z) (t : tables) : tables :=
  match fuel with
  | O => t
  | S fuel =>
      if decide (id ∈ tb_live t) then
        match tb_heap t !! id with
        | Some r =>
            if (negb (id =? ROOT) && unreferenced r)%bool
            then collect fuel (nr_parent r) (delete_record id r t) else t
        | None => t
        end
      else t
  end.
Definition collect_record (id : Z) (t : tables) : tables := collect (S (size (tb_live t))) id t.

Definition forget (id count : Z) (t : tables) : tables :=
  collect_record id (update_record id
    (fun r => r <| nr_lookups := if nr_lookups r <=? count then 0 else nr_lookups r - count |>) t).




Definition find_record (nodeid : Z) (t : tables) : outcome Z :=
  if decide (nodeid ∈ tb_live t) then Done nodeid else Raise (FSError ENOENT).

Definition get_handle (fh : Z) (t : tables) : option handle_record :=
  match list_find (fun e => e.1 = fh) (tb_handles t) with Some (_, e) => Some e.2 | None => None end.

Definition find_handle (fh : Z) (directory : option bool) (node : option Z) (t : tables) :
    outcome handle_record :=
  match get_handle fh t with
  | None => Raise (FSError EBADF)
  | Some h =>
      if (match directory with Some d => negb (eqb (hr_directory h) d) | None => false end
          || match node with Some n => negb (hr_node h =? n) | None => false end)%bool
      then Raise (FSError EBADF) else Done h
  end.

Definition add_handle (node : Z) (handle : H) (directory : bool) (t : tables) : Z * tables :=
  let fh := tb_next_handle t in
  (fh, update_record node (add_handles 1)
         (t <| tb_next_handle := fh + 1 |>
            <| tb_handles := tb_handles t ++ [(fh, HandleRecord node handle directory)] |>)).

Definition remove_handle (fh : Z) (h : handle_record) (t : tables) : tables :=
  collect_record (hr_node h)
    (update_record (hr_node h) (add_handles (-1))
      (t <| tb_handles := filter (fun e => e.1 ≠ fh) (tb_handles t) |>)).

(** What RENAME does to the record of the moved node. *)
Definition reparent (id new_parent : Z) (t : tables) : tables :=
  match tb_heap t !! id with
  | Some r =>
      if (bool_decide (id ∈ tb_live t) && negb (nr_parent r =? new_parent))%bool then
        collect_record (nr_parent r)
          (update_record new_parent (add_children 1)
            (update_record id (fun r => r <| nr_parent := new_parent |>)
              (update_record (nr_parent r) (add_children (-1)) t)))
      else t
  | None => t
  end.

(** [for (const record of transient) collect_record(record)] *)
Definition collect_all (ids : list Z) (t : tables) : tables := foldl (fun t id => collect_record id t) t ids.

(** * Counting *)
Definition count (P : Z → Prop) `{!∀ x, Decision (P x)} (X : gset Z) : Z := Z.of_nat (size (filter P X)).

Lemma count_insert P `{!∀ x, Decision (P x)} X x :
  x ∉ X → count P ({[x]} ∪ X) = (if decide (P x) then 1 else 0) + count P X.
Proof.
  intros Hx. unfold count. case_decide as HP.
  - assert (filter P ({[x]} ∪ X) = {[x]} ∪ filter P X) as -> by (apply set_eq; set_solver).
    rewrite size_union by set_solver. rewrite size_singleton. lia.
  - assert (filter P ({[x]} ∪ X) = filter P X) as -> by (apply set_eq; set_solver). lia.
Qed.
Lemma count_delete P `{!∀ x, Decision (P x)} X x :
  x ∈ X → count P (X ∖ {[x]}) = count P X - (if decide (P x) then 1 else 0).
Proof.
  intros Hx. rewrite (union_difference_singleton_L x X) at 2 by done.
  rewrite count_insert by set_solver. lia.
Qed.
Lemma count_ext P Q `{!∀ x, Decision (P x)} `{!∀ x, Decision (Q x)} X :
  (∀ x, x ∈ X → P x ↔ Q x) → count P X = count Q X.
Proof. intros HPQ. unfold count. do 2 f_equal. apply set_eq. intros x. rewrite !elem_of_filter. naive_solver. Qed.
Lemma count_nonneg P `{!∀ x, Decision (P x)} X : 0 ≤ count P X.
Proof. unfold count. lia. Qed.
Lemma count_pos P `{!∀ x, Decision (P x)} X x : x ∈ X → P x → 0 < count P X.
Proof.
  intros Hx HP. unfold count. assert (Hne : filter P X ≢ ∅) by set_solver.
  apply size_non_empty_iff in Hne. lia.
Qed.

(** * The invariant of the tables

    It holds after every operation, whatever the order in which the operations
    of several requests are interleaved: ids name one node for ever, the map
    from nodes to records is the inverse of the records, and a record's counts
    are the number of its children and of its open handles. *)
Definition parent_of (t : tables) (id : Z) : option Z := nr_parent <$> tb_heap t !! id.
Definition node_of (t : tables) (id : Z) : option N := nr_node <$> tb_heap t !! id.
Definition child_of (t : tables) (id c : Z) : Prop := c ≠ ROOT ∧ parent_of t c = Some id.
#[export] Instance child_of_dec t id c : Decision (child_of t id c).
Proof using. unfold child_of. apply _. Defined.
Definition handles_of (t : tables) (id : Z) : Z := zlen (filter (fun e => hr_node e.2 = id) (tb_handles t)).

(** [dc] and [dh] are what the counts are off by, in the middle of an operation. *)
Record tables_but (dc dh : Z → Z) (t : tables) : Prop := {
  tk_root : ROOT ∈ tb_live t ∧ parent_of t ROOT = Some ROOT;
  tk_live : ∀ id, id ∈ tb_live t → is_Some (tb_heap t !! id);
  tk_ids : ∀ id r, tb_heap t !! id = Some r →
    1 ≤ id < tb_next_nodeid t ∧ 0 ≤ nr_lookups r ∧ is_Some (tb_heap t !! nr_parent r);
  tk_by_node : ∀ n id, tb_by_node t !! n = Some id ↔ id ∈ tb_live t ∧ node_of t id = Some n;
  tk_children : ∀ id r, tb_heap t !! id = Some r → nr_children r = count (child_of t id) (tb_live t) + dc id;
  tk_handles : ∀ id r, tb_heap t !! id = Some r → nr_handles r = handles_of t id + dh id;
  tk_fh : NoDup (tb_handles t).*1 ∧
    Forall (fun e => e.1 < tb_next_handle t ∧ is_Some (tb_heap t !! hr_node e.2)) (tb_handles t) }.

Definition tables_ok : tables → Prop := tables_but (fun _ => 0) (fun _ => 0).

(** Between requests nothing unreferenced is kept, and what is kept refers to
    what is kept. [except] names a record that is about to be collected. *)
Record settled (except : Z → Prop) (t : tables) : Prop := {
  se_parents : ∀ id p, id ∈ tb_live t → parent_of t id = Some p → p ∈ tb_live t;
  se_handles : Forall (fun e => hr_node e.2 ∈ tb_live t) (tb_handles t);
  se_used : ∀ id r, id ∈ tb_live t → id ≠ ROOT → tb_heap t !! id = Some r →
    unreferenced r = false ∨ except id }.

Lemma tables_new_ok root : tables_ok (tables_new root) ∧ settled (fun _ => False) (tables_new root).
Proof using.
  set (r0 := NodeRecord root ROOT 1 0 0). set (t := tables_new root).
  assert (Hl : ∀ id r, tb_heap t !! id = Some r ↔ id = ROOT ∧ r = r0).
  { intros id r. change (tb_heap t) with ({[ROOT := r0]} : gmap Z node_record).
    rewrite lookup_singleton_Some. naive_solver. }
  assert (Hlive : ∀ id, id ∈ tb_live t ↔ id = ROOT).
  { intros id. change (tb_live t) with ({[ROOT]} : gset Z). apply elem_of_singleton. }
  assert (Hr : tb_heap t !! ROOT = Some r0) by (by apply Hl).
  assert (Hp : ∀ id p, parent_of t id = Some p → p = ROOT).
  { intros id p. unfold parent_of. rewrite fmap_Some. intros (r&[-> ->]%Hl&->). done. }
  split; constructor.
  - split; [by apply Hlive|]. unfold parent_of. by rewrite Hr.
  - intros id ->%Hlive. by eexists.
  - intros id r [-> ->]%Hl. change (nr_parent r0) with ROOT. rewrite Hr. unfold ROOT. cbn. split_and!; [lia..|by eexists].
  - intros n id. change (tb_by_node t) with ({[root := ROOT]} : gmap N Z). unfold node_of.
    rewrite lookup_singleton_Some, Hlive. split; [intros [<- <-]; by rewrite Hr|].
    intros [-> Hn]. rewrite Hr in Hn. injection Hn as <-. done.
  - intros id r [-> ->]%Hl. unfold count. assert (filter (child_of t ROOT) (tb_live t) = ∅) as ->; [|done].
    apply set_eq. intros x. rewrite elem_of_filter, Hlive. unfold child_of. set_solver.
  - by intros id r [-> ->]%Hl.
  - split; constructor.
  - intros id p _ ->%Hp. by apply Hlive.
  - constructor.
  - intros id r ->%Hlive. done.
Qed.

(** Updates that keep a record's node and place. *)
Definition keeps_place (f : node_record → node_record) : Prop :=
  ∀ r, nr_node (f r) = nr_node r ∧ nr_parent (f r) = nr_parent r.

Lemma lookup_update id f t j :
  tb_heap (update_record id f t) !! j = (if decide (id = j) then f <$> tb_heap t !! j else tb_heap t !! j).
Proof using.
  unfold update_record. cbn. case_decide as Hd; [subst; apply lookup_alter_eq|by apply lookup_alter_ne].
Qed.
Lemma parent_of_update id f t j : keeps_place f → parent_of (update_record id f t) j = parent_of t j.
Proof using.
  intros Hf. unfold parent_of. rewrite lookup_update. case_decide; [|done].
  destruct (tb_heap t !! j) as [r|]; [|done]. cbn. by destruct (Hf r) as [_ ->].
Qed.
Lemma node_of_update id f t j : keeps_place f → node_of (update_record id f t) j = node_of t j.
Proof using.
  intros Hf. unfold node_of. rewrite lookup_update. case_decide; [|done].
  destruct (tb_heap t !! j) as [r|]; [|done]. cbn. by destruct (Hf r) as [-> _].
Qed.
Lemma is_Some_update id f t j : is_Some (tb_heap (update_record id f t) !! j) ↔ is_Some (tb_heap t !! j).
Proof using. rewrite lookup_update. case_decide; [|done]. by rewrite fmap_is_Some. Qed.
Lemma keeps_add_children n : keeps_place (add_children n).
Proof using. done. Qed.
Lemma keeps_add_handles n : keeps_place (add_handles n).
Proof using. done. Qed.
Lemma keeps_add_lookup : keeps_place add_lookup.
Proof using. done. Qed.

Lemma tables_but_ext dc dh dc' dh' t :
  (∀ j, dc j = dc' j) → (∀ j, dh j = dh' j) → tables_but dc dh t → tables_but dc' dh' t.
Proof using. intros E1 E2 []. constructor; auto; intros id r Hr; rewrite <- ?E1, <- ?E2; auto. Qed.

(** A field of a record other than its node and its parent changes. *)
Lemma update_but id f dc dh t nc nh :
  keeps_place f → (∀ r, tb_heap t !! id = Some r → 0 ≤ nr_lookups r → 0 ≤ nr_lookups (f r)) →
  (∀ r, nr_children (f r) = nr_children r + nc) → (∀ r, nr_handles (f r) = nr_handles r + nh) →
  tables_but dc dh t →
  tables_but (fun j => dc j + if decide (id = j) then nc else 0)
    (fun j => dh j + if decide (id = j) then nh else 0) (update_record id f t).
Proof using.
  intros Hf Hl Hc Hh [].
  assert (Hchild : ∀ j c, child_of (update_record id f t) j c ↔ child_of t j c)
    by (intros; unfold child_of; by rewrite parent_of_update).
  assert (Hget : ∀ j r, tb_heap (update_record id f t) !! j = Some r →
    ∃ r0, tb_heap t !! j = Some r0 ∧ r = if decide (id = j) then f r0 else r0).
  { intros j r. rewrite lookup_update. case_decide; [|by eexists].
    destruct (tb_heap t !! j) as [r0|]; [|done]. intros [= <-]. by eexists. }
  constructor; cbn [update_record tb_live tb_by_node tb_next_nodeid tb_handles tb_next_handle set_field].
  - by rewrite parent_of_update.
  - intros j Hj. apply is_Some_update. auto.
  - intros j r (r0&Hr0&->)%Hget. destruct (tk_ids0 j r0 Hr0) as (A&B&C). split; [done|].
    rewrite is_Some_update. case_decide; [|done]. subst j. destruct (Hf r0) as [_ ->]. auto.
  - intros n j. by rewrite node_of_update.
  - intros j r (r0&Hr0&->)%Hget. rewrite (count_ext _ (child_of t j)) by (intros; apply Hchild).
    case_decide; [rewrite Hc|]; rewrite (tk_children0 j r0 Hr0); lia.
  - intros j r (r0&Hr0&->)%Hget. change (handles_of (update_record id f t) j) with (handles_of t j).
    case_decide; [rewrite Hh|]; rewrite (tk_handles0 j r0 Hr0); lia.
  - split; [apply tk_fh0|]. destruct tk_fh0 as [_ Hfh]. eapply Forall_impl; [exact Hfh|].
    intros e [A B]. split; [done|]. by apply is_Some_update.
Qed.

Lemma add_children_but id n dc dh t :
  tables_but dc dh t →
  tables_but (fun j => dc j + if decide (id = j) then n else 0) dh (update_record id (add_children n) t).
Proof using.
  intros Ht. assert (Hu := update_but id (add_children n) dc dh t n 0).
  eapply tables_but_ext; [| |apply Hu; try done]; cbn; intros; try case_decide; lia.
Qed.
Lemma add_handles_but id n dc dh t :
  tables_but dc dh t →
  tables_but dc (fun j => dh j + if decide (id = j) then n else 0) (update_record id (add_handles n) t).
Proof using.
  intros Ht. assert (Hu := update_but id (add_handles n) dc dh t 0 n).
  eapply tables_but_ext; [| |apply Hu; try done]; cbn; intros; try case_decide; lia.
Qed.
Lemma update_ok id f t :
  keeps_place f → (∀ r, 0 ≤ nr_lookups r → 0 ≤ nr_lookups (f r)) →
  (∀ r, nr_children (f r) = nr_children r) → (∀ r, nr_handles (f r) = nr_handles r) →
  tables_ok t → tables_ok (update_record id f t).
Proof using.
  intros Hf Hl Hc Hh Ht. assert (Hu := update_but id f (fun _ => 0) (fun _ => 0) t 0 0).
  eapply tables_but_ext; [| |apply Hu; auto]; cbn; intros; rewrite ?Hc, ?Hh; try case_decide; lia.
Qed.

(** A new record. *)
Lemma insert_but node parent t :
  tables_ok t → is_Some (tb_heap t !! parent) → tb_by_node t !! node = None →
  let id := tb_next_nodeid t in
  tables_but (fun j => if decide (parent = j) then -1 else 0) (fun _ => 0)
    (t <| tb_heap := <[id := NodeRecord node parent 0 0 0]> (tb_heap t) |>
       <| tb_live := {[id]} ∪ tb_live t |>
       <| tb_by_node := <[node := id]> (tb_by_node t) |>
       <| tb_next_nodeid := id + 1 |>) ∧ tb_heap t !! id = None ∧ id ≠ ROOT.
Proof using.
  intros [] Hp Hn id.
  assert (Hfresh : tb_heap t !! id = None).
  { destruct (tb_heap t !! id) as [r|] eqn:E; [|done]. destruct (tk_ids0 id r E) as [[_ Hid] _]. unfold id in Hid. lia. }
  assert (Hroot : id ≠ ROOT).
  { destruct tk_root0 as [Hl _]. intros E. apply tk_live0 in Hl as [r Hl]. congruence. }
  assert (Hdead : id ∉ tb_live t) by (intros [r Hr]%tk_live0; congruence).
  split; [|done]. set (t' := _ <| tb_next_nodeid := _ |>).
  assert (Hold : ∀ j, is_Some (tb_heap t !! j) → j ≠ id) by (intros j [r Hr] ->; congruence).
  assert (Hheap : ∀ j, j ≠ id → tb_heap t' !! j = tb_heap t !! j) by (intros; by apply lookup_insert_ne).
  assert (Hself : tb_heap t' !! id = Some (NodeRecord node parent 0 0 0)) by apply lookup_insert_eq.
  assert (Hgrow : ∀ j, is_Some (tb_heap t !! j) → is_Some (tb_heap t' !! j)).
  { intros j Hj. rewrite Hheap; auto. }
  assert (Hpar : ∀ j, j ≠ id → parent_of t' j = parent_of t j) by (intros; unfold parent_of; by rewrite Hheap).
  constructor.
  - rewrite Hpar by congruence. split; [|apply tk_root0]. apply elem_of_union_r, tk_root0.
  - intros j [->%elem_of_singleton|Hj]%elem_of_union; [by eexists|]. auto.
  - intros j r. change (tb_next_nodeid t') with (id + 1). destruct (decide (j = id)) as [->|Hj].
    + rewrite Hself. intros [= <-]. cbn. split_and!; [|lia..|auto].
      destruct tk_root0 as [[r Hr]%tk_live0 _]. destruct (tk_ids0 _ _ Hr) as [? _]. unfold id, ROOT in *. lia.
    + rewrite Hheap by done. intros Hr. destruct (tk_ids0 j r Hr) as (A&B&C). unfold id. split_and!; [lia..|auto].
  - intros n j. change (tb_by_node t') with (<[node := id]> (tb_by_node t)).
    change (tb_live t') with ({[id]} ∪ tb_live t). rewrite elem_of_union, elem_of_singleton. unfold node_of.
    destruct (decide (node = n)) as [->|Hne].
    + rewrite lookup_insert_eq. split; [intros [= <-]; rewrite Hself; auto|].
      intros [[->|Hj] Hn']; [done|]. rewrite Hheap in Hn' by (apply Hold; auto).
      assert (tb_by_node t !! n = Some j) by (by apply tk_by_node0). congruence.
    + rewrite lookup_insert_ne by done. rewrite tk_by_node0. unfold node_of. split.
      * intros [Hj Hn']. rewrite Hheap by (apply Hold; auto). auto.
      * intros [[->|Hj] Hn']; [rewrite Hself in Hn'; cbn in Hn'; congruence|].
        by rewrite Hheap in Hn' by (apply Hold; auto).
  - intros j r Hr. change (tb_live t') with ({[id]} ∪ tb_live t). rewrite count_insert by done.
    assert (Hc : count (child_of t' j) (tb_live t) = count (child_of t j) (tb_live t)).
    { apply count_ext. intros x Hx. unfold child_of. rewrite Hpar by (apply Hold; auto). done. }
    rewrite Hc. assert (Hchild : child_of t' j id ↔ parent = j).
    { unfold child_of, parent_of. rewrite Hself. cbn. naive_solver. }
    rewrite (decide_ext _ _ _ _ Hchild). destruct (decide (j = id)) as [->|Hj].
    + rewrite Hself in Hr. injection Hr as <-. cbn.
      assert (Hz : count (child_of t id) (tb_live t) = 0).
      { unfold count. assert (filter (child_of t id) (tb_live t) = ∅) as ->; [|done].
        apply set_eq. intros x. rewrite elem_of_filter. split; [|set_solver]. intros [[_ Hx] Hl].
        unfold parent_of in Hx. destruct (tb_heap t !! x) as [rx|] eqn:Ex; [|done]. injection Hx as Hx.
        destruct (tk_ids0 x rx Ex) as (_&_&Hs). rewrite Hx, Hfresh in Hs. by destruct Hs. }
      rewrite Hz. case_decide as Hpi; [|lia]. subst. rewrite Hfresh in Hp. by destruct Hp.
    + rewrite Hheap in Hr by done. rewrite (tk_children0 j r Hr). case_decide; lia.
  - intros j r. change (handles_of t' j) with (handles_of t j). destruct (decide (j = id)) as [->|Hj].
    + rewrite Hself. intros [= <-]. cbn. unfold handles_of.
      assert (filter (λ e : Z * handle_record, hr_node e.2 = id) (tb_handles t) = []) as ->; [|done].
      destruct tk_fh0 as [_ Hfh]. apply filter_none. eapply Forall_impl; [exact Hfh|]. cbn. intros e [_ Hs] Hi.
      rewrite Hi, Hfresh in Hs. by destruct Hs.
    + rewrite Hheap by done. auto.
  - destruct tk_fh0 as [A B]. split; [done|]. eapply Forall_impl; [exact B|]. cbn. intros e [C D]. auto.
Qed.

(** Ids and nodes are for ever: a record once made keeps its node. *)
Definition extends (t t' : tables) : Prop :=
  ∀ id n, node_of t id = Some n → node_of t' id = Some n.
#[export] Instance extends_preorder : PreOrder extends.
Proof using. split; [by intros t id n|]. intros t1 t2 t3 A B id n Hn. auto. Qed.
Lemma extends_update id f t : keeps_place f → extends t (update_record id f t).
Proof using. intros Hf j n. by rewrite node_of_update. Qed.

Lemma record_for_node_ok node parent t :
  tables_ok t → is_Some (tb_heap t !! parent) →
  let r := record_for_node node parent t in
  tables_ok r.2 ∧ r.1 ∈ tb_live r.2 ∧ node_of r.2 r.1 = Some node ∧ extends t r.2 ∧
  tb_handles r.2 = tb_handles t ∧ tb_live t ⊆ tb_live r.2 ∧
  (∀ j, is_Some (tb_heap t !! j) → j ∈ tb_live r.2 → j ∈ tb_live t) ∧
  (∀ j, is_Some (tb_heap t !! j) → parent_of r.2 j = parent_of t j ∧
     (nr_lookups <$> tb_heap r.2 !! j) = (nr_lookups <$> tb_heap t !! j)) ∧
  (∀ j, is_Some (tb_heap t !! j) → j ≠ parent → tb_heap r.2 !! j = tb_heap t !! j) ∧
  (r.1 ∉ tb_live t → parent_of r.2 r.1 = Some parent ∧ nr_lookups <$> tb_heap r.2 !! r.1 = Some 0 ∧
     tb_heap t !! r.1 = None ∧ r.1 ≠ ROOT).
Proof using.
  intros Ht Hp. unfold record_for_node. destruct (tb_by_node t !! node) as [id|] eqn:Hn.
  - cbn. apply (tk_by_node _ _ _ Ht) in Hn as [Hl Hn]. split_and!; try done.
  - destruct (insert_but node parent t Ht Hp Hn) as (Hb&Hfresh&Hroot).
    set (id := tb_next_nodeid t) in *. set (t0 := _ <| tb_next_nodeid := _ |>) in *.
    apply (add_children_but parent 1) in Hb. cbn [fst snd].
    assert (Hheap : ∀ j, j ≠ id → tb_heap t0 !! j = tb_heap t !! j) by (intros; by apply lookup_insert_ne).
    assert (Hself : tb_heap t0 !! id = Some (NodeRecord node parent 0 0 0)) by apply lookup_insert_eq.
    assert (Hold : ∀ j, is_Some (tb_heap t !! j) → j ≠ id) by (intros j [r Hr] ->; congruence).
    split_and!.
    + eapply tables_but_ext; [| |exact Hb]; cbn; intros; try case_decide; lia.
    + cbn. set_solver.
    + rewrite node_of_update by done. unfold node_of. by rewrite Hself.
    + intros j n Hj. rewrite node_of_update by done. unfold node_of in *.
      rewrite Hheap; [done|]. intros ->. by rewrite Hfresh in Hj.
    + done.
    + cbn. set_solver.
    + intros j Hj%Hold. cbn. set_solver.
    + intros j Hj. pose proof (Hold j Hj) as Hne. rewrite parent_of_update by done. unfold parent_of.
      rewrite Hheap by done. split; [done|]. rewrite lookup_update. case_decide; [|by rewrite Hheap].
      rewrite Hheap by done. by destruct (tb_heap t !! j).
    + intros j Hj Hjp. rewrite lookup_update. rewrite decide_False by done. rewrite Hheap by auto. done.
    + intros _. rewrite parent_of_update by done. unfold parent_of. rewrite lookup_update, Hself.
      split_and!; try done. by case_decide.
Qed.

(** A record is deleted. *)
Lemma delete_record_ok id r t :
  tables_ok t → id ∈ tb_live t → id ≠ ROOT → tb_heap t !! id = Some r → unreferenced r = true →
  tables_ok (delete_record id r t) ∧ nr_parent r ≠ id.
Proof using.
  intros Ht Hl Hroot Hr Hu. pose proof Ht as [].
  assert (Hpar : nr_parent r ≠ id).
  { intros Hpi. pose proof (tk_children0 id r Hr) as Hc. rewrite Z.add_0_r in Hc.
    assert (0 < count (child_of t id) (tb_live t)).
    { apply (count_pos _ _ id Hl). split; [done|]. unfold parent_of. rewrite Hr. cbn. congruence. }
    unfold unreferenced in Hu. zbool. lia. }
  split; [|done]. unfold delete_record.
  set (t0 := t <| tb_live := tb_live t ∖ {[id]} |> <| tb_by_node := delete (nr_node r) (tb_by_node t) |>).
  assert (Hb : tables_but (fun j => if decide (nr_parent r = j) then 1 else 0) (fun _ => 0) t0).
  { constructor; try done.
    - destruct tk_root0 as [A B]. split; [cbn; set_solver|exact B].
    - intros j [Hj _]%elem_of_difference. auto.
    - intros n j. change (tb_by_node t0) with (delete (nr_node r) (tb_by_node t)).
      change (tb_live t0) with (tb_live t ∖ {[id]}). change (node_of t0 j) with (node_of t j).
      rewrite elem_of_difference, elem_of_singleton. destruct (decide (nr_node r = n)) as [<-|Hne].
      + rewrite lookup_delete_eq. split; [done|]. intros [[Hj Hji] Hn].
        assert (tb_by_node t !! nr_node r = Some j) by (by apply tk_by_node0).
        assert (tb_by_node t !! nr_node r = Some id).
        { apply tk_by_node0. split; [done|]. unfold node_of. by rewrite Hr. }
        congruence.
      + rewrite lookup_delete_ne by done. rewrite tk_by_node0. split; [|naive_solver].
        intros [Hj Hn]. split_and!; try done. intros ->. unfold node_of in Hn. rewrite Hr in Hn.
        injection Hn as Hn. done.
    - intros j rj Hj. change (tb_live t0) with (tb_live t ∖ {[id]}).
      rewrite (count_ext _ (child_of t j)) by done. rewrite count_delete by done.
      rewrite (tk_children0 j rj Hj). assert (Hchild : child_of t j id ↔ nr_parent r = j).
      { unfold child_of, parent_of. rewrite Hr. cbn. naive_solver. }
      rewrite (decide_ext _ _ _ _ Hchild). case_decide; lia. }
  apply (add_children_but (nr_parent r) (-1)) in Hb.
  eapply tables_but_ext; [| |exact Hb]; cbn; intros; try case_decide; lia.
Qed.

(** What an operation leaves alone when it collects. *)
Record collected (t t' : tables) : Prop := {
  co_extends : extends t t';
  co_handles : tb_handles t' = tb_handles t;
  co_live : tb_live t' ⊆ tb_live t;
  co_lookups : ∀ j, nr_lookups <$> tb_heap t' !! j = nr_lookups <$> tb_heap t !! j;
  co_parent : ∀ j, parent_of t' j = parent_of t j;
  co_kept : ∀ j, j ∈ tb_live t → j ∉ tb_live t' → nr_lookups <$> tb_heap t !! j = Some 0;
  co_handle_count : ∀ j, nr_handles <$> tb_heap t' !! j = nr_handles <$> tb_heap t !! j }.
#[export] Instance collected_preorder : PreOrder collected.
Proof using.
  split; [by constructor|]. intros a b c H1 H2. constructor.
  - etrans; [apply H1|apply H2].
  - by rewrite (co_handles _ _ H2), (co_handles _ _ H1).
  - etrans; [apply H2|apply H1].
  - intros j. by rewrite (co_lookups _ _ H2), (co_lookups _ _ H1).
  - intros j. by rewrite (co_parent _ _ H2), (co_parent _ _ H1).
  - intros j Hj Hc. destruct (decide (j ∈ tb_live b)) as [Hb|Hb]; [|by apply (co_kept _ _ H1)].
    rewrite <- (co_lookups _ _ H1). by apply (co_kept _ _ H2).
  - intros j. by rewrite (co_handle_count _ _ H2), (co_handle_count _ _ H1).
Qed.

Lemma delete_collected id r t :
  tb_heap t !! id = Some r → unreferenced r = true → collected t (delete_record id r t).
Proof using.
  intros Hr Hu. unfold delete_record.
  set (t0 := t <| tb_live := _ |> <| tb_by_node := _ |>).
  assert (Hf : ∀ {B} (g : node_record → B) j, (∀ r0, g (add_children (-1) r0) = g r0) →
    g <$> tb_heap (update_record (nr_parent r) (add_children (-1)) t0) !! j = g <$> tb_heap t !! j).
  { intros B g j Hg. rewrite lookup_update. case_decide; [|done].
    change (tb_heap t0) with (tb_heap t). destruct (tb_heap t !! j); [|done]. cbn. by rewrite Hg. }
  constructor.
  - intros j n Hj. unfold node_of. by rewrite Hf.
  - done.
  - cbn. set_solver.
  - intros j. by apply Hf.
  - intros j. by apply Hf.
  - intros j Hj Hj'. assert (j = id) as ->.
    { destruct (decide (j = id)) as [|Hne]; [done|]. destruct Hj'.
      apply elem_of_difference. split; [done|]. by apply not_elem_of_singleton. }
    rewrite Hr.
    unfold unreferenced in Hu. zbool. cbn. by f_equal.
  - intros j. by apply Hf.
Qed.

Lemma collect_collected fuel id t : collected t (collect fuel id t).
Proof using.
  revert id t; induction fuel as [|fuel IH]; intros id t; [done|]. cbn [collect].
  case_decide as Hl; [|done]. destruct (tb_heap t !! id) as [r|] eqn:Hr; [|done].
  destruct (_ && _)%bool eqn:Hu; [|done]. apply andb_true_iff in Hu as [Hroot Hu].
  etrans; [by eapply delete_collected|]. apply IH.
Qed.
Lemma collect_ok fuel id t :
  tables_ok t → tables_ok (collect fuel id t).
Proof using.
  revert id t; induction fuel as [|fuel IH]; intros id t Ht; [done|]. cbn [collect].
  case_decide as Hl; [|done]. destruct (tb_heap t !! id) as [r|] eqn:Hr; [|done].
  destruct (_ && _)%bool eqn:Hu; [|done]. apply andb_true_iff in Hu as [Hroot Hu].
  apply IH. apply delete_record_ok; try done. by intros ->.
Qed.

(** Deleting a record can leave only its parent without a reference. *)
Lemma delete_settled (P : Z → Prop) id r t :
  tables_ok t → settled (fun j => P j ∨ j = id) t → id ∈ tb_live t → id ≠ ROOT →
  tb_heap t !! id = Some r → unreferenced r = true →
  settled (fun j => P j ∨ j = nr_parent r) (delete_record id r t).
Proof using.
  intros [] [] Hl Hroot Hr Hu. unfold unreferenced in Hu. zbool.
  assert (Hkids : ∀ c, c ∈ tb_live t → c ≠ ROOT → parent_of t c ≠ Some id).
  { intros c Hc Hcr Hp. pose proof (count_pos (child_of t id) _ c Hc) as Hpos.
    pose proof (tk_children0 id r Hr). unfold child_of in Hpos at 1. specialize (Hpos (conj Hcr Hp)). lia. }
  assert (Hopen : Forall (fun e => hr_node e.2 ≠ id) (tb_handles t)).
  { apply Forall_forall. intros e He Hn. pose proof (tk_handles0 id r Hr) as Hc. unfold handles_of in Hc.
    assert (e ∈ filter (fun e => hr_node e.2 = id) (tb_handles t)) as Hin by (by apply list_elem_of_filter).
    destruct (filter _ _) as [|x l]; [by apply elem_of_nil in Hin|]. unfold zlen in Hc. cbn in Hc. lia. }
  set (t' := delete_record id r t). assert (Hlive : tb_live t' = tb_live t ∖ {[id]}) by done.
  assert (Hpar : ∀ j, parent_of t' j = parent_of t j).
  { intros j. unfold t', delete_record. by rewrite parent_of_update. }
  constructor; rewrite ?Hlive.
  - intros c p [Hc Hci]%elem_of_difference. rewrite Hpar. intros Hp. apply elem_of_difference. split; [by eapply se_parents0|].
    apply not_elem_of_singleton. intros ->. destruct (decide (c = ROOT)) as [->|Hcr]; [|by eapply Hkids].
    destruct tk_root0 as [_ Hroot']. congruence.
  - apply Forall_forall. intros e He. rewrite Forall_forall in se_handles0, Hopen.
    apply elem_of_difference. split; [by apply se_handles0|]. apply not_elem_of_singleton. by apply Hopen.
  - intros j rj [Hj Hji%not_elem_of_singleton]%elem_of_difference Hjr Hrj.
    destruct (decide (j = nr_parent r)) as [->|Hjp]; [by right; right|].
    unfold t', delete_record in Hrj. rewrite lookup_update, decide_False in Hrj by done.
    destruct (se_used0 j rj Hj Hjr Hrj) as [?|[?|?]]; auto. done.
Qed.

Lemma collect_settled P fuel id t :
  tables_ok t → settled (fun j => P j ∨ j = id) t → (size (tb_live t) < fuel)%nat →
  settled P (collect fuel id t).
Proof using.
  revert id t; induction fuel as [|fuel IH]; intros id t Ht Hs Hf; [lia|]. cbn [collect].
  case_decide as Hl.
  2: { destruct Hs. constructor; auto. intros j r Hj Hjr Hr. destruct (se_used0 j r Hj Hjr Hr) as [?|[?| ->]]; auto. done. }
  destruct (tb_heap t !! id) as [r|] eqn:Hr.
  2: { apply (tk_live _ _ _ Ht) in Hl as [? ?]. congruence. }
  destruct (_ && _)%bool eqn:Hu.
  - apply andb_true_iff in Hu as [Hroot Hu]. assert (id ≠ ROOT) by (intros ->; done).
    apply IH; [by eapply delete_record_ok|by apply delete_settled|].
    change (tb_live (delete_record id r t)) with (tb_live t ∖ {[id]}).
    rewrite size_difference by set_solver. rewrite size_singleton.
    assert (tb_live t ≢ ∅) as Hne%size_non_empty_iff by set_solver. lia.
  - destruct Hs. constructor; auto. intros j rj Hj Hjr Hrj.
    destruct (se_used0 j rj Hj Hjr Hrj) as [?|[?| ->]]; auto. left. rewrite Hr in Hrj. injection Hrj as <-.
    apply andb_false_iff in Hu as [Hu|Hu]; [|done]. apply negb_false_iff, Z.eqb_eq in Hu. done.
Qed.

Lemma collect_record_ok id t :
  tables_ok t → tables_ok (collect_record id t) ∧ collected t (collect_record id t) ∧
  ∀ P, settled (fun j => P j ∨ j = id) t → settled P (collect_record id t).
Proof using.
  intros Ht. split_and!; [by apply collect_ok|apply collect_collected|].
  intros P Hs. by apply collect_settled; auto with lia.
Qed.

(** ** What settles the tables again *)
Lemma settled_mono (P Q : Z → Prop) t : (∀ j, P j → Q j) → settled P t → settled Q t.
Proof using.
  intros HPQ []. constructor; auto. intros j r Hj Hjr Hr. destruct (se_used0 j r Hj Hjr Hr); auto.
Qed.
Lemma settled_update P id f t :
  keeps_place f → settled P t → settled (fun j => P j ∨ j = id) (update_record id f t).
Proof using.
  intros Hf []. constructor.
  - intros j p Hj. rewrite parent_of_update by done. by apply se_parents0.
  - done.
  - intros j r Hj Hjr. rewrite lookup_update. case_decide as Hd; [auto|].
    intros Hr. destruct (se_used0 j r Hj Hjr Hr); auto.
Qed.
Lemma settled_used (P : Z → Prop) id t :
  settled (fun j => P j ∨ j = id) t → (∀ r, tb_heap t !! id = Some r → unreferenced r = false) → settled P t.
Proof using.
  intros [] Hu. constructor; auto. intros j r Hj Hjr Hr.
  destruct (se_used0 j r Hj Hjr Hr) as [?|[?| ->]]; auto.
Qed.

(** What an operation gives: the invariant, ids that name what they named, and
    tables that are settled when they were. *)
Record keeps_tables (t t' : tables) : Prop := {
  kt_ok : tables_ok t';
  kt_extends : extends t t';
  kt_settled : ∀ P, settled P t → settled P t' }.
Lemma keeps_tables_refl t : tables_ok t → keeps_tables t t.
Proof using. by constructor. Qed.
Lemma keeps_tables_trans a b c : keeps_tables a b → keeps_tables b c → keeps_tables a c.
Proof using. intros [] []. constructor; [done|by etrans|auto]. Qed.

Lemma extends_heap t t' id : extends t t' → is_Some (tb_heap t !! id) → is_Some (tb_heap t' !! id).
Proof using.
  intros He [r Hr]. assert (Hn : node_of t id = Some (nr_node r)) by (unfold node_of; by rewrite Hr).
  apply He in Hn. unfold node_of in Hn. destruct (tb_heap t' !! id); [by eexists|done].
Qed.

Lemma collect_record_keeps id t : tables_ok t → keeps_tables t (collect_record id t).
Proof using.
  intros Ht. destruct (collect_record_ok id t Ht) as (A&B&C). constructor; [done|apply B|].
  intros P Hs. apply C. eapply settled_mono; [|done]. auto.
Qed.

Lemma forget_keeps id n t : tables_ok t → keeps_tables t (forget id n t).
Proof using.
  intros Ht. unfold forget. set (f := fun r : node_record => r <| nr_lookups := _ |>).
  assert (Hf : keeps_place f) by done.
  assert (Hok : tables_ok (update_record id f t)).
  { apply update_ok; try done. intros r Hr. unfold f. cbn. destruct (nr_lookups r <=? n) eqn:E; zbool; lia. }
  destruct (collect_record_ok id _ Hok) as (A&B&C). constructor; [done| |].
  - etrans; [by apply extends_update|apply B].
  - intros P Hs. apply C. by apply settled_update.
Qed.

(** A new record is unreferenced until its lookup is counted. *)
Lemma record_for_node_keeps node parent t :
  tables_ok t → is_Some (tb_heap t !! parent) →
  let r := record_for_node node parent t in
  tables_ok r.2 ∧ extends t r.2 ∧ node_of r.2 r.1 = Some node ∧
  (∀ P, parent ∈ tb_live t → settled P t → settled (fun j => P j ∨ j = r.1) r.2).
Proof using.
  intros Ht Hp. destruct (record_for_node_ok node parent t Ht Hp)
    as (A&B&C&D&Eh&Hlive&Hold&Hsame&Hrec&Hnew).
  set (r := record_for_node node parent t) in *. split_and!; [done..|].
  intros P Hpl [].
  assert (Hcase : ∀ j, j ∈ tb_live r.2 → j ∈ tb_live t ∨ (j = r.1 ∧ j ∉ tb_live t)).
  { intros j Hj. destruct (decide (j ∈ tb_live t)); [by left|right]. split; [|done].
    unfold r, record_for_node in Hj |- *. destruct (tb_by_node t !! node); cbn in *; set_solver. }
  constructor.
  - intros j p Hj Hpj. destruct (Hcase j Hj) as [Hl|[-> Hl]].
    + destruct (Hsame j (tk_live _ _ _ Ht j Hl)) as [Hpar _]. rewrite Hpar in Hpj.
      apply Hlive. by eapply se_parents0.
    + destruct (Hnew Hl) as [Hpar _]. rewrite Hpar in Hpj. injection Hpj as <-. by apply Hlive.
  - rewrite Eh. eapply Forall_impl; [exact se_handles0|]. cbn. auto.
  - intros j rj Hj Hjr Hrj. destruct (Hcase j Hj) as [Hl|[-> Hl]]; [|by right; right].
    destruct (decide (j = parent)) as [->|Hjp].
    + destruct (decide (r.1 ∈ tb_live t)) as [Hrl|Hrl].
      * assert (Hr2 : r.2 = t).
        { unfold r, record_for_node. destruct (tb_by_node t !! node) eqn:En; [done|].
          unfold r, record_for_node in Hrl. rewrite En in Hrl. cbn in Hrl.
          destruct (tk_live _ _ _ Ht _ Hrl) as [x Hx]. destruct (tk_ids _ _ _ Ht _ _ Hx) as [[_ ?] _]. lia. }
        rewrite Hr2 in Hrj. destruct (se_used0 _ _ Hl Hjr Hrj); auto.
      * left. destruct (Hnew Hrl) as (Hpar&_&_&Hroot).
        pose proof (tk_children _ _ _ A _ _ Hrj) as Hc. rewrite Z.add_0_r in Hc.
        assert (0 < count (child_of r.2 parent) (tb_live r.2)) by (by apply (count_pos _ _ r.1)).
        unfold unreferenced. rewrite (proj2 (Z.eqb_neq (nr_children rj) 0)) by lia. apply andb_false_r.
    + rewrite (Hrec j (tk_live _ _ _ Ht j Hl) Hjp) in Hrj. destruct (se_used0 _ _ Hl Hjr Hrj); auto.
Qed.

(** [record.lookups += 1n] on the record of a node: LOOKUP and the requests
    that make a node. *)
Definition look (node : N) (parent : Z) (t : tables) : Z * tables :=
  let '(id, t) := record_for_node node parent t in (id, update_record id add_lookup t).

Lemma look_keeps node parent t :
  tables_ok t → is_Some (tb_heap t !! parent) →
  tables_ok (look node parent t).2 ∧ extends t (look node parent t).2 ∧
  node_of (look node parent t).2 (look node parent t).1 = Some node ∧
  (∀ P, parent ∈ tb_live t → settled P t → settled P (look node parent t).2).
Proof using.
  intros Ht Hp. destruct (record_for_node_keeps node parent t Ht Hp) as (A&B&C&D).
  unfold look. destruct (record_for_node node parent t) as [id t'] eqn:E. cbn [fst snd] in *.
  assert (Hok : tables_ok (update_record id add_lookup t')) by (apply update_ok; try done; intros; cbn; lia).
  split_and!; [done|etrans; [done|by apply extends_update]|by rewrite node_of_update|].
  intros P Hpl Hs. apply (settled_used P id).
  - eapply settled_mono; [|apply settled_update; [done|by apply D]]. cbn. naive_solver.
  - intros r. rewrite lookup_update, decide_True by done. destruct (tb_heap t' !! id) as [r0|] eqn:Hr; [|done].
    intros [= <-]. destruct (tk_ids _ _ _ A _ _ Hr) as (_&Hl&_). unfold unreferenced, add_lookup. cbn.
    rewrite (proj2 (Z.eqb_neq (nr_lookups r0 + 1) 0)) by lia. done.
Qed.

Lemma handles_of_app t e : ∀ (t' : tables) j, tb_handles t' = tb_handles t ++ [e] →
  handles_of t' j = handles_of t j + if decide (hr_node e.2 = j) then 1 else 0.
Proof using.
  intros t' j E. unfold handles_of. rewrite E, filter_app, zlen_app. f_equal.
  rewrite filter_cons. by case_decide.
Qed.

Lemma add_handle_keeps node h d t :
  tables_ok t → is_Some (tb_heap t !! node) →
  let r := add_handle node h d t in
  tables_ok r.2 ∧ extends t r.2 ∧ (∀ P, node ∈ tb_live t → settled P t → settled P r.2).
Proof using.
  intros Ht Hn r. pose proof Ht as [].
  set (e := (tb_next_handle t, HandleRecord node h d)).
  set (t0 := t <| tb_next_handle := tb_next_handle t + 1 |> <| tb_handles := tb_handles t ++ [e] |>).
  assert (Hb : tables_but (fun _ => 0) (fun j => if decide (node = j) then -1 else 0) t0).
  { constructor; try done.
    - intros j rj Hj. rewrite (handles_of_app t e t0 j) by done.
      rewrite (tk_handles0 j rj Hj). cbn. case_decide; lia.
    - destruct tk_fh0 as [Hnd Hfa]. change (tb_handles t0) with (tb_handles t ++ [e]).
      change (tb_next_handle t0) with (tb_next_handle t + 1). rewrite fmap_app. split.
      + apply NoDup_app. split_and!; [done| |apply NoDup_singleton].
        intros fh Hin Hf. apply list_elem_of_singleton in Hf as ->.
        apply list_elem_of_fmap in Hin as (x&Hx&Hin). rewrite Forall_forall in Hfa.
        destruct (Hfa x Hin) as [Hlt _]. cbn in Hx. lia.
      + apply Forall_app. split; [|by apply Forall_singleton; split; [cbn; lia|]].
        eapply Forall_impl; [exact Hfa|]. cbn. intros x [? ?]. split; [lia|done]. }
  apply (add_handles_but node 1) in Hb. change (r.2) with (update_record node (add_handles 1) t0).
  assert (Hok : tables_ok (update_record node (add_handles 1) t0)).
  { eapply tables_but_ext; [| |exact Hb]; cbn; intros; try case_decide; lia. }
  split_and!; [done|by apply (extends_update node (add_handles 1) t0)|].
  intros P Hl []. apply (settled_used P node).
  - apply settled_update; [done|]. constructor; try done.
    change (tb_handles t0) with (tb_handles t ++ [e]). apply Forall_app. split; [done|]. by apply Forall_singleton.
  - intros rn Hrn. pose proof (tk_handles _ _ _ Hok node rn Hrn) as Hc.
    change (handles_of (update_record node (add_handles 1) t0) node) with (handles_of t0 node) in Hc.
    rewrite (handles_of_app t e t0 node), decide_True in Hc by done. unfold unreferenced.
    assert (0 ≤ handles_of t node) by apply zlen_nonneg.
    rewrite (proj2 (Z.eqb_neq (nr_handles rn) 0)) by lia. by rewrite andb_false_r.
Qed.

Lemma get_handle_elem fh h t : get_handle fh t = Some h → (fh, h) ∈ tb_handles t.
Proof using.
  unfold get_handle. destruct (list_find _ _) as [[i e]|] eqn:E; [|done]. intros [= <-].
  apply list_find_Some in E as (Hi&Hk&_). destruct e as [k h]. cbn in *. subst.
  by eapply list_elem_of_lookup_2.
Qed.
Lemma elem_get_handle fh h t : NoDup (tb_handles t).*1 → (fh, h) ∈ tb_handles t → get_handle fh t = Some h.
Proof using.
  unfold get_handle. induction (tb_handles t) as [|[k x] l IH]; [by intros _ ?%elem_of_nil|].
  rewrite fmap_cons, NoDup_cons. intros [Hn Hd] [Heq|Hin]%elem_of_cons.
  - injection Heq as <- <-. cbn. by rewrite decide_True.
  - cbn [list_find]. rewrite decide_False.
    + specialize (IH Hd Hin). cbn in IH. by destruct (list_find _ l) as [[? ?]|].
    + cbn. intros ->. apply Hn. apply list_elem_of_fmap. by exists (fh, h).
Qed.

Lemma handles_remove fh h (l : list (Z * handle_record)) j :
  NoDup l.*1 → (fh, h) ∈ l →
  zlen (filter (fun e => hr_node e.2 = j) (filter (fun e => e.1 ≠ fh) l)) =
  zlen (filter (fun e => hr_node e.2 = j) l) - if decide (hr_node h = j) then 1 else 0.
Proof using.
  induction l as [|[k x] l IH]; [by intros _ ?%elem_of_nil|].
  rewrite fmap_cons, NoDup_cons. intros [Hn Hd] Hin. rewrite (filter_cons (fun e => e.1 ≠ fh)). cbn [fst].
  apply elem_of_cons in Hin as [Heq|Hin].
  - injection Heq as <- <-. rewrite decide_False by naive_solver. rewrite (filter_cons _ _ l). cbn [snd].
    assert (filter (fun e : Z * handle_record => e.1 ≠ fh) l = l) as ->.
    { clear IH Hd. induction l as [|[k y] l IH]; [done|]. cbn in Hn. apply not_elem_of_cons in Hn as [Hk Hn].
      rewrite filter_cons_True by (cbn; congruence). by rewrite IH. }
    case_decide; rewrite ?zlen_cons; lia.
  - assert (k ≠ fh). { intros ->. apply Hn. apply list_elem_of_fmap. by exists (fh, h). }
    rewrite decide_True by done. specialize (IH Hd Hin). rewrite !(filter_cons (fun e => hr_node e.2 = j)).
    destruct (decide (hr_node (k, x).2 = j)); rewrite ?zlen_cons, IH; lia.
Qed.

Lemma remove_handle_keeps fh h t :
  tables_ok t → get_handle fh t = Some h → keeps_tables t (remove_handle fh h t).
Proof using.
  intros Ht Hg. pose proof Ht as []. apply get_handle_elem in Hg.
  set (t0 := t <| tb_handles := filter (fun e => e.1 ≠ fh) (tb_handles t) |>).
  assert (Hb : tables_but (fun _ => 0) (fun j => if decide (hr_node h = j) then 1 else 0) t0).
  { destruct tk_fh0 as [Hnd Hfa]. constructor; try done.
    - intros j rj Hj. rewrite (tk_handles0 j rj Hj). unfold handles_of.
      change (tb_handles t0) with (filter (fun e => e.1 ≠ fh) (tb_handles t)).
      rewrite (handles_remove fh h) by done. lia.
    - change (tb_handles t0) with (filter (fun e => e.1 ≠ fh) (tb_handles t)). split.
      + eapply sublist_NoDup; [exact Hnd|]. apply (fmap_sublist fst), sublist_filter.
      + apply Forall_forall. intros e [_ He]%list_elem_of_filter. rewrite Forall_forall in Hfa. by apply Hfa. }
  apply (add_handles_but (hr_node h) (-1)) in Hb.
  set (t1 := update_record (hr_node h) (add_handles (-1)) t0) in *.
  assert (Hok : tables_ok t1) by (eapply tables_but_ext; [| |exact Hb]; cbn; intros; try case_decide; lia).
  destruct (collect_record_ok (hr_node h) t1 Hok) as (A&B&C).
  change (remove_handle fh h t) with (collect_record (hr_node h) t1). constructor; [done| |].
  - etrans; [by apply (extends_update (hr_node h) (add_handles (-1)) t0)|apply B].
  - intros P []. apply C. apply settled_update; [done|]. constructor; try done.
    change (tb_handles t0) with (filter (fun e => e.1 ≠ fh) (tb_handles t)).
    apply Forall_forall. intros e [_ He]%list_elem_of_filter. rewrite Forall_forall in se_handles0. by apply se_handles0.
Qed.

(** RENAME moves the record [id] from under its parent. The root has no name
    and is never moved. *)
Lemma reparent_keeps id new t :
  tables_ok t → id ≠ ROOT → is_Some (tb_heap t !! new) →
  tables_ok (reparent id new t) ∧ extends t (reparent id new t) ∧
  (∀ P, new ∈ tb_live t → settled P t → settled P (reparent id new t)).
Proof using.
  intros Ht Hroot Hnew. unfold reparent. destruct (tb_heap t !! id) as [r|] eqn:Hr; [|done].
  destruct (_ && _)%bool eqn:Hc; [|done]. zbool. pose proof Ht as [].
  set (old := nr_parent r) in *. set (f := fun r : node_record => r <| nr_parent := new |>).
  set (g := fun t : tables => update_record id f t).
  assert (Hb : tables_but (fun j => (if decide (old = j) then 1 else 0) - (if decide (new = j) then 1 else 0))
                 (fun _ => 0) (g t)).
  { assert (Hheap : ∀ j rj, tb_heap (g t) !! j = Some rj →
      ∃ r0, tb_heap t !! j = Some r0 ∧ rj = if decide (id = j) then f r0 else r0).
    { intros j rj. unfold g. rewrite lookup_update. case_decide; [|by eexists].
      destruct (tb_heap t !! j) as [r0|]; [|done]. intros [= <-]. by eexists. }
    assert (Hnode : ∀ j, node_of (g t) j = node_of t j).
    { intros j. unfold node_of, g. rewrite lookup_update. case_decide; [|done]. by destruct (tb_heap t !! j). }
    assert (Hpar : ∀ j, parent_of (g t) j = if decide (id = j) then Some new else parent_of t j).
    { intros j. unfold parent_of, g. rewrite lookup_update. case_decide as Hd; [|done]. subst j. by rewrite Hr. }
    constructor.
    - rewrite Hpar, decide_False by congruence. apply tk_root0.
    - intros j Hj. apply is_Some_update. auto.
    - intros j rj (r0&Hr0&->)%Hheap. destruct (tk_ids0 j r0 Hr0) as (A&B&C). split; [done|].
      unfold g. rewrite is_Some_update. by case_decide.
    - intros n j. rewrite Hnode. apply tk_by_node0.
    - intros j rj (r0&Hr0&->)%Hheap. change (tb_live (g t)) with (tb_live t).
      pose proof (tk_children0 j r0 Hr0) as Hcount. rewrite Z.add_0_r in Hcount.
      rewrite (union_difference_singleton_L id (tb_live t)) in Hcount |- * by done.
      rewrite count_insert in Hcount |- * by set_solver.
      rewrite (count_ext (child_of (g t) j) (child_of t j)).
      2: { intros c [_ Hci%not_elem_of_singleton]%elem_of_difference. unfold child_of.
           by rewrite Hpar, decide_False by congruence. }
      assert (Hnc : child_of (g t) j id ↔ new = j).
      { unfold child_of. rewrite Hpar, decide_True by done. naive_solver. }
      assert (Hoc : child_of t j id ↔ old = j).
      { unfold child_of, parent_of. rewrite Hr. cbn. naive_solver. }
      rewrite (decide_ext _ _ _ _ Hnc). rewrite (decide_ext _ _ _ _ Hoc) in Hcount.
      assert (nr_children (if decide (id = j) then f r0 else r0) = nr_children r0) as ->
        by (destruct (decide (id = j)); reflexivity).
      destruct (decide (old = j)), (decide (new = j)); lia.
    - intros j rj (r0&Hr0&->)%Hheap. change (handles_of (g t) j) with (handles_of t j).
      rewrite <- (tk_handles0 j r0 Hr0). by case_decide.
    - destruct tk_fh0 as [Hnd Hfa]. split; [done|]. eapply Forall_impl; [exact Hfa|]. cbn. intros e [? ?].
      split; [done|]. by apply is_Some_update. }
  (* the three updates commute: they touch different fields *)
  assert (Hcomm : g (update_record old (add_children (-1)) t)
                  = update_record old (add_children (-1)) (g t)).
  { unfold g, update_record, set_field. cbn. f_equal. apply map_eq. intros j.
    destruct (decide (id = j)) as [->|]; [destruct (decide (old = j)) as [->|]|destruct (decide (old = j)) as [->|]];
      repeat first [rewrite lookup_alter_eq | rewrite lookup_alter_ne by congruence]; try done.
    destruct (tb_heap t !! j); reflexivity. }
  rewrite Hcomm. apply (add_children_but old (-1)) in Hb. apply (add_children_but new 1) in Hb.
  set (t1 := update_record new _ _) in *.
  assert (Hok : tables_ok t1).
  { eapply tables_but_ext; [| |exact Hb]; cbn; intros; [|done]. destruct (decide _), (decide _); lia. }
  destruct (collect_record_ok old t1 Hok) as (A&B&C). split_and!; [done| |].
  - etrans; [|apply B]. intros j n Hj. unfold t1. rewrite !node_of_update by done. unfold g.
    unfold node_of in *. rewrite lookup_update. case_decide; [|done]. by destruct (tb_heap t !! j).
  - intros P Hl []. apply C.
    assert (Hpar : ∀ j, parent_of t1 j = if decide (id = j) then Some new else parent_of t j).
    { intros j. unfold t1. rewrite !parent_of_update by done. unfold parent_of, g. rewrite lookup_update.
      case_decide as Hd; [|done]. subst j. by rewrite Hr. }
    constructor; [|done|].
    + intros j p Hj. rewrite Hpar. case_decide; [by intros [= <-]|]. by apply se_parents0.
    + intros j rj Hj Hjr Hrj. destruct (decide (old = j)) as [->|Hjo]; [by right; right|].
      destruct (decide (new = j)) as [->|Hjn].
      * left. pose proof (tk_children _ _ _ Hok j rj Hrj) as Hc. rewrite Z.add_0_r in Hc.
        assert (0 < count (child_of t1 j) (tb_live t1)).
        { apply (count_pos _ _ id); [done|]. split; [done|]. by rewrite Hpar, decide_True by done. }
        unfold unreferenced. rewrite (proj2 (Z.eqb_neq (nr_children rj) 0)) by lia. apply andb_false_r.
      * unfold t1 in Hrj. rewrite !lookup_update in Hrj. rewrite !decide_False in Hrj by done. unfold g in Hrj.
        rewrite lookup_update in Hrj. case_decide as Hd.
        -- subst j. rewrite Hr in Hrj. injection Hrj as <-. destruct (se_used0 id r Hj Hjr Hr); auto.
        -- destruct (se_used0 j rj Hj Hjr Hrj); auto.
Qed.

Lemma collect_all_keeps ids t : tables_ok t → keeps_tables t (collect_all ids t).
Proof using.
  revert t; induction ids as [|id ids IH]; intros t Ht; [by apply keeps_tables_refl|].
  cbn. pose proof (collect_record_keeps id t Ht) as Hk.
  eapply keeps_tables_trans; [done|]. apply IH, Hk.
Qed.
Lemma collect_all_settled P ids t :
  tables_ok t → settled (fun j => P j ∨ j ∈ ids) t → settled P (collect_all ids t).
Proof using.
  revert t; induction ids as [|id ids IH]; intros t Ht Hs; cbn.
  - eapply settled_mono; [|done]. cbn. intros j [?|Hj]; [done|]. by apply elem_of_nil in Hj.
  - destruct (collect_record_ok id t Ht) as (A&B&C). apply IH; [done|]. apply C.
    eapply settled_mono; [|done]. cbn. intros j. rewrite elem_of_cons. naive_solver.
Qed.

(** * What the guest refers to

    [event] is what a step tells the guest or is told by it: an entry reply
    gives the guest one reference to the id in it, FORGET takes some back. *)
Inductive event := Looked (id : Z) | Forgot (id n : Z) | Quiet.

Definition refs_step (e : event) (refs : Z → Z) (id : Z) : Z :=
  match e with
  | Looked j => if j =? id then refs id + 1 else refs id
  | Forgot j n => if j =? id then Z.max 0 (refs id - n) else refs id
  | Quiet => refs id
  end.
(** The guest refers to the root from the start. *)
Definition refs (es : list event) : Z → Z :=
  foldl (fun r e => refs_step e r) (fun id => if id =? ROOT then 1 else 0) es.

(** The steps between two suspensions of the requests, in any interleaving. Of two
    RELEASEs of one handle that both find it before either removes it, the second
    removal is not among the steps (see [handle_removed_twice]). *)
Inductive table_step : event → tables → tables → Prop :=
| step_look node parent t : is_Some (tb_heap t !! parent) →
    table_step (Looked (look node parent t).1) t (look node parent t).2
| step_forget id n t : 0 ≤ n → is_Some (tb_heap t !! id) → table_step (Forgot id n) t (forget id n t)
| step_entry node parent t : is_Some (tb_heap t !! parent) →
    table_step Quiet t (record_for_node node parent t).2
| step_collect ids t : table_step Quiet t (collect_all ids t)
| step_open node h d t : is_Some (tb_heap t !! node) → table_step Quiet t (add_handle node h d t).2
| step_close fh h t : get_handle fh t = Some h → table_step Quiet t (remove_handle fh h t)
| step_rename id new t : id ≠ ROOT → is_Some (tb_heap t !! new) → table_step Quiet t (reparent id new t).

Inductive table_steps (t0 : tables) : list event → tables → Prop :=
| run_start : table_steps t0 [] t0
| run_step es e t t' : table_steps t0 es t → table_step e t t' → table_steps t0 (es ++ [e]) t'.
Definition table_run (root : N) : list event → tables → Prop := table_steps (tables_new root).

Lemma table_step_ok e t t' : tables_ok t → table_step e t t' → tables_ok t' ∧ extends t t'.
Proof using.
  intros Ht Hs. destruct Hs.
  - by destruct (look_keeps node parent t) as (?&?&_).
  - by destruct (forget_keeps id n t).
  - by destruct (record_for_node_keeps node parent t) as (?&?&_).
  - by destruct (collect_all_keeps ids t).
  - by destruct (add_handle_keeps node h d t) as (?&?&_).
  - by destruct (remove_handle_keeps fh h t).
  - by destruct (reparent_keeps id new t) as (?&?&_).
Qed.

Definition lookups_of (t : tables) (id : Z) : Z := from_option nr_lookups 0 (tb_heap t !! id).
Record same_refs (t t' : tables) : Prop := {
  sr_lookups : ∀ j, lookups_of t' j = lookups_of t j;
  sr_live : ∀ j, j ∈ tb_live t → j ∉ tb_live t' → lookups_of t j = 0 }.
#[export] Instance same_refs_preorder : PreOrder same_refs.
Proof using.
  split; [by constructor|]. intros a b c H1 H2. constructor.
  - intros j. by rewrite (sr_lookups _ _ H2), (sr_lookups _ _ H1).
  - intros j Hj Hc. destruct (decide (j ∈ tb_live b)) as [Hb|Hb]; [|by apply (sr_live _ _ H1)].
    rewrite <- (sr_lookups _ _ H1). by apply (sr_live _ _ H2).
Qed.
Lemma same_refs_update id f t : (∀ r, nr_lookups (f r) = nr_lookups r) → same_refs t (update_record id f t).
Proof using.
  intros Hf. constructor; [|by intros j ? []]. intros j. unfold lookups_of. rewrite lookup_update. case_decide; [|done].
  destruct (tb_heap t !! j); [apply Hf|done].
Qed.
Lemma same_refs_heap t t' : tb_heap t' = tb_heap t → tb_live t' = tb_live t → same_refs t t'.
Proof using. intros E1 E2. constructor; [intros; unfold lookups_of; by rewrite E1|]. intros j. by rewrite E2. Qed.
Lemma same_refs_collect id t : same_refs t (collect_record id t).
Proof using.
  pose proof (collect_collected (S (size (tb_live t))) id t) as B. constructor; intros j; unfold lookups_of.
  - pose proof (co_lookups _ _ B j) as E. fold (collect_record id t) in E.
    destruct (tb_heap t !! j), (tb_heap (collect_record id t) !! j); cbn in *; congruence.
  - intros Hj Hj'. pose proof (co_kept _ _ B j Hj Hj') as E. destruct (tb_heap t !! j); cbn in *; congruence.
Qed.
Lemma same_refs_entry node parent t :
  tables_ok t → same_refs t (record_for_node node parent t).2.
Proof using.
  intros Ht. unfold record_for_node. destruct (tb_by_node t !! node) as [id|]; [done|]. cbn [snd].
  set (t0 := t <| tb_heap := _ |> <| tb_live := _ |> <| tb_by_node := _ |> <| tb_next_nodeid := _ |>).
  etrans; [|by apply (same_refs_update parent (add_children 1) t0)]. constructor; [|cbn; set_solver].
  intros j. unfold lookups_of. change (tb_heap t0) with (<[tb_next_nodeid t := NodeRecord node parent 0 0 0]> (tb_heap t)).
  destruct (decide (tb_next_nodeid t = j)) as [<-|Hj]; [|by rewrite lookup_insert_ne].
  rewrite lookup_insert_eq. destruct (tb_heap t !! tb_next_nodeid t) eqn:E; [|done].
  destruct (tk_ids _ _ _ Ht _ _ E) as [[_ ?] _]. lia.
Qed.

Lemma same_refs_quiet t t' : tables_ok t → table_step Quiet t t' → same_refs t t'.
Proof using.
  intros Ht Hs. inversion Hs as [| |node parent ?|ids ?|node h d ?|fh h ? Hg|id new ? Hroot Hnew]; subst.
  - by apply same_refs_entry.
  - clear Hs Ht. revert t. induction ids as [|id ids IH]; intros t; [done|]. cbn.
    etrans; [apply same_refs_collect|apply IH].
  - etrans; [|by apply same_refs_update]. by apply same_refs_heap.
  - etrans; [|apply same_refs_collect]. etrans; [|by apply same_refs_update]. by apply same_refs_heap.
  - unfold reparent. destruct (tb_heap t !! id); [|done]. destruct (_ && _)%bool; [|done].
    etrans; [|apply same_refs_collect]. do 2 (etrans; [|by apply same_refs_update]). by apply same_refs_update.
Qed.

(** The count of a record is the number of references the guest holds. *)
Record refs_ok (es : list event) (t : tables) : Prop := {
  rk_lookups : ∀ j, lookups_of t j = refs es j;
  rk_live : ∀ j, 0 < refs es j → j ∈ tb_live t }.

Lemma refs_snoc es e j : refs (es ++ [e]) j = refs_step e (refs es) j.
Proof using. unfold refs. by rewrite foldl_app. Qed.

Lemma look_refs node parent es t :
  tables_ok t → is_Some (tb_heap t !! parent) → refs_ok es t →
  refs_ok (es ++ [Looked (look node parent t).1]) (look node parent t).2.
Proof using.
  intros Ht Hp [Hl Hr]. pose proof (same_refs_entry node parent t Ht) as [Hs1 Hs2].
  destruct (record_for_node_ok node parent t Ht Hp) as (Hok&Hlive&_&_&_&Hsub&_).
  unfold look. destruct (record_for_node node parent t) as [id t'] eqn:E. cbn [fst snd] in *.
  constructor; intros j; rewrite refs_snoc; cbn [refs_step].
  - unfold lookups_of. rewrite lookup_update. case_decide as Hd.
    + subst j. rewrite Z.eqb_refl, <- Hl, <- Hs1. unfold lookups_of.
      destruct (tk_live _ _ _ Hok _ Hlive) as [r Hrr]. by rewrite Hrr.
    + apply Z.eqb_neq in Hd as ->. rewrite <- Hl. apply Hs1.
  - change (tb_live (update_record id add_lookup t')) with (tb_live t').
    destruct (id =? j) eqn:Ej; zbool; [by subst|]. intros ?%Hr. by apply Hsub.
Qed.

Lemma forget_refs id n es t :
  0 ≤ n → tables_ok t → refs_ok es t → refs_ok (es ++ [Forgot id n]) (forget id n t).
Proof using.
  intros Hn Ht [Hl Hr]. unfold forget. set (f := fun r : node_record => r <| nr_lookups := _ |>).
  pose proof (same_refs_collect id (update_record id f t)) as [Hs1 Hs2].
  assert (Hu : ∀ j, lookups_of (update_record id f t) j = refs_step (Forgot id n) (refs es) j).
  { intros j. unfold lookups_of. rewrite lookup_update. cbn [refs_step]. specialize (Hl j).
    unfold lookups_of in Hl. case_decide as Hd.
    - subst j. rewrite Z.eqb_refl. destruct (tb_heap t !! id) as [r|] eqn:E; cbn in *; [|lia].
      destruct (tk_ids _ _ _ Ht _ _ E) as (_&?&_). destruct (nr_lookups r <=? n) eqn:E2; zbool; lia.
    - apply Z.eqb_neq in Hd as ->. done. }
  constructor; intros j; rewrite refs_snoc.
  - by rewrite Hs1.
  - rewrite <- Hu. intros Hpos. destruct (decide (j ∈ tb_live (collect_record id (update_record id f t)))) as [|Hd]; [done|].
    rewrite Hs2 in Hpos; [lia| |done]. change (j ∈ tb_live t). apply Hr. rewrite Hu in Hpos. cbn [refs_step] in Hpos.
    destruct (id =? j); lia.
Qed.

Lemma table_step_refs e es t t' :
  tables_ok t → refs_ok es t → table_step e t t' → refs_ok (es ++ [e]) t'.
Proof using.
  intros Ht Hrefs Hs. pose proof Hs as Hs'. destruct Hs'; [by apply look_refs|by apply forget_refs|..].
  all: apply same_refs_quiet in Hs; [|done]; destruct Hs as [Hs1 Hs2], Hrefs as [Hl Hr].
  all: constructor; intros j; rewrite refs_snoc; cbn [refs_step]; [by rewrite Hs1|]; intros Hpos.
  all: match goal with |- _ ∈ ?X => destruct (decide (j ∈ X)) as [|Hd]; [done|] end.
  all: pose proof (Hs2 j (Hr j Hpos) Hd); rewrite <- Hl in Hpos; lia.
Qed.
Lemma table_steps_ok es0 es t0 t :
  tables_ok t0 → refs_ok es0 t0 → table_steps t0 es t →
  tables_ok t ∧ refs_ok (es0 ++ es) t ∧ extends t0 t.
Proof using.
  intros Hok Hrefs. induction 1 as [|es e t t' Hrun (IH&IHr&IHe) Hs].
  { rewrite app_nil_r. by split_and!. }
  destruct (table_step_ok e t t' IH Hs) as [A B]. split_and!; [done| |by etrans].
  rewrite app_assoc. by apply (table_step_refs e _ t).
Qed.
Lemma tables_new_refs root : refs_ok [] (tables_new root).
Proof using.
  constructor; intros j; unfold refs; cbn [foldl]; unfold lookups_of; cbn [tb_heap tables_new].
  - destruct (decide (ROOT = j)) as [<-|Hj]; [by rewrite lookup_singleton_eq|].
    rewrite lookup_singleton_ne by done. cbn. destruct (j =? ROOT) eqn:E; zbool; congruence.
  - destruct (j =? ROOT) eqn:E; zbool; [|lia]. intros _. rewrite E. change (ROOT ∈ ({[ROOT]} : gset Z)). by apply elem_of_singleton.
Qed.
Lemma table_run_ok root es t : table_run root es t → tables_ok t ∧ refs_ok es t.
Proof using.
  intros Hrun. destruct (table_steps_ok [] es (tables_new root) t) as (?&?&_);
    [apply tables_new_ok|apply tables_new_refs|done|done].
Qed.
End tables.

(** Whatever the order in which the requests' operations on the tables
    interleave, the tables are well formed: [by_node] is the inverse of the
    records, every record's counts are the number of its children and of its
    open handles, handle ids are distinct and ids are below the next one. *)
Theorem tables_well_formed {N H : Type} `{Countable N} (root : N) (es : list event) (t : @tables N H _ _) :
  table_run root es t → tables_ok t.
Proof. intros Hrun. by apply table_run_ok in Hrun as [? _]. Qed.

(** C14: an id stays valid for as long as the guest has been told of it more
    often than it has forgotten it, and then it still names the node whose
    entry was replied, however requests interleave and whatever else is
    collected in between. *)
Theorem referenced_node_live {N H : Type} `{Countable N} (root : N) (es es' : list event)
    (t1 t2 : @tables N H _ _) (node : N) (parent : Z) :
  table_run root es t1 → is_Some (tb_heap t1 !! parent) →
  let id := (look node parent t1).1 in
  table_steps (look node parent t1).2 es' t2 →
  0 < refs ((es ++ [Looked id]) ++ es') id →
  id ∈ tb_live t2 ∧ node_of t2 id = Some node ∧ find_record id t2 = Done id.
Proof.
  intros [Ht Hrefs]%table_run_ok Hp id Hrun Hpos.
  destruct (look_keeps node parent t1 Ht Hp) as (Hok&_&Hn&_).
  destruct (table_steps_ok (es ++ [Looked id]) es' _ t2 Hok (look_refs node parent es t1 Ht Hp Hrefs) Hrun)
    as (_&[_ Hl]&He).
  specialize (Hl id Hpos). split_and!; [done|by apply He|]. unfold find_record. by rewrite decide_True.
Qed.

(** A run: LOOKUP of a directory and of a file in it, OPEN of the file, then
    the guest forgets the directory while the file keeps it. *)
Definition sample_tables (k : nat) : @tables Z Z _ _ :=
  let t1 := (look 20 ROOT (tables_new 10)).2 in
  let t2 := (look 30 2 t1).2 in
  let t3 := (add_handle 3 77 false t2).2 in
  let t4 := forget 2 1 t3 in
  match k with 0 => tables_new 10%Z | 1 => t1 | 2 => t2 | 3 => t3 | _ => t4 end%nat.
Definition sample_events : list event := [Looked 2; Looked 3; Quiet; Forgot 2 1].

Lemma tables_well_formed_witness :
  tables_ok (sample_tables 4) ∧ tb_live (sample_tables 4) = {[1; 2; 3]}.
Proof.
  split; [|reflexivity].
  assert (Hs : ∀ id (t : @tables Z Z _ _), bool_decide (is_Some (tb_heap t !! id)) = true → is_Some (tb_heap t !! id))
    by (intros id t E; by apply bool_decide_eq_true in E).
  apply (tables_well_formed 10 sample_events).
  apply (run_step _ [Looked 2; Looked 3; Quiet] _ (sample_tables 3)); [|apply step_forget; [lia|by apply Hs]].
  apply (run_step _ [Looked 2; Looked 3] _ (sample_tables 2)); [|apply step_open; by apply Hs].
  apply (run_step _ [Looked 2] _ (sample_tables 1)); [|apply (step_look 30 2 (sample_tables 1)); by apply Hs].
  apply (run_step _ [] _ (sample_tables 0)); [constructor|]. apply (step_look 20 ROOT (sample_tables 0)); by apply Hs.
Defined.

Lemma referenced_node_live_witness :
  3 ∈ tb_live (sample_tables 4) ∧ node_of (sample_tables 4) 3 = Some 30.
Proof.
  assert (Hs : ∀ id (t : @tables Z Z _ _), bool_decide (is_Some (tb_heap t !! id)) = true → is_Some (tb_heap t !! id))
    by (intros id t E; by apply bool_decide_eq_true in E).
  destruct (referenced_node_live 10 [Looked 2] [Quiet; Forgot 2 1] (sample_tables 1) (sample_tables 4) 30 2)
    as (A&B&_); [| | | |done].
  - apply (run_step _ [] _ (sample_tables 0)); [constructor|]. apply (step_look 20 ROOT (sample_tables 0)); by apply Hs.
  - by apply Hs.
  - apply (run_step _ [Quiet] _ (sample_tables 3)); [|apply step_forget; [lia|by apply Hs]].
    apply (run_step _ [] _ (sample_tables 2)); [constructor|apply step_open; by apply Hs].
  - reflexivity.
Defined.

(** Two notifications that interleave: a FORGET of the directory comes while a LOOKUP in
    it waits for the backend, which leaves a live record under a collected parent. *)
Example interleaved_forget_unsettles :
  let t := (look 30 2 (forget 2 1 (sample_tables 1))).2 in
  tb_live t = {[1; 3]} ∧ nr_parent <$> tb_heap t !! 3 = Some 2.
Proof. vm_compute. split; reflexivity. Qed.
(** Two RELEASEs of one handle, which both found it before either removed it: the node
    is left with fewer handles than it has. *)
Example handle_removed_twice :
  let h := HandleRecord 3 77 false in
  let t := remove_handle 1 h (remove_handle 1 h (sample_tables 3)) in nr_handles <$> tb_heap t !! 3 = Some (-1).
Proof. vm_compute. reflexivity. Qed.
