(* ===== verification/Fuse.v ===== *)
(** The requests of a virtio-fs device, packages/kernel/src/virtio/fs.ts: what
    each opcode does to the tables, the host filesystem and the reply, and how
    a chain is answered. *)
From S2P Require Export FuseNodes.

(** * The host filesystem

    The [FS] interface a backend implements: each method is a computation on
    the backend's own state [W], which may throw. An absent optional method is
    [None]. A directory's entries are what its iterator yields, run to its end;
    [fs_write] returns [None] for a number that is not an integer. *)
Record filesystem (N H W : Type) := Filesystem {
  fs_root : N;
  fs_lookup : N → text → M W (option N);
  fs_getattr : N → option H → M W attributes;
  fs_setattr : option (N → set_attributes → option H → M W attributes);
  fs_readlink : option (N → M W text);
  fs_symlink : option (N → text → text → context → M W N);
  fs_mkdir : option (N → text → context → M W N);
  fs_unlink : option (N → text → M W unit);
  fs_rmdir : option (N → text → M W unit);
  fs_rename : option (N → text → N → text → M W unit);
  fs_open : option (N → Z → M W H);
  fs_create : option (N → text → Z → context → M W (N * H));
  fs_read : option (N → H → Z → Z → M W (list Z));
  fs_write : option (N → H → Z → list Z → M W (option Z));
  fs_flush : option (N → H → M W unit);
  fs_fsync : option (N → H → bool → M W unit);
  fs_release : option (N → H → M W unit);
  fs_opendir : option (N → Z → M W H);
  fs_readdir : option (N → H → M W (list (text * N)));
  fs_releasedir : option (N → H → M W unit);
  fs_access : option (N → Z → M W unit);
  fs_statfs : option (N → M W (option statfs));
  fs_destroy : option (M W unit) }.
Arguments fs_root {N H W} _.
Arguments fs_lookup {N H W} _ _ _ _.
Arguments fs_getattr {N H W} _ _ _ _.
Arguments fs_setattr {N H W} _.
Arguments fs_readlink {N H W} _.
Arguments fs_symlink {N H W} _.
Arguments fs_mkdir {N H W} _.
Arguments fs_unlink {N H W} _.
Arguments fs_rmdir {N H W} _.
Arguments fs_rename {N H W} _.
Arguments fs_open {N H W} _.
Arguments fs_create {N H W} _.
Arguments fs_read {N H W} _.
Arguments fs_write {N H W} _.
Arguments fs_flush {N H W} _.
Arguments fs_fsync {N H W} _.
Arguments fs_release {N H W} _.
Arguments fs_opendir {N H W} _.
Arguments fs_readdir {N H W} _.
Arguments fs_releasedir {N H W} _.
Arguments fs_access {N H W} _.
Arguments fs_statfs {N H W} _.
Arguments fs_destroy {N H W} _.

Section device.
Context {N H W : Type} `{Countable N}.
Context (filesystem : filesystem N H W).

(** The device's closure: its tables, and how the promise of [finalize] ended
    once it ran: [Some None] when it resolved. *)
Record device := Device {
  fd_tables : @tables N H _ _; fd_final : option (option exn); fd_host : W }.
#[export] Instance device_eta : Eta device := fun d => Device (fd_tables d) (fd_final d) (fd_host d).

(** [fileSystemDevice]: the tag and durability checks, the config space. *)
Definition file_system_device (tag : text) (host : W) : outcome (device * list Z) :=
  let encoded_tag := utf8_encode tag in
  if ((zlen encoded_tag =? 0) || (36 <? zlen encoded_tag))%bool
  then Raise (RangeError "virtio-fs tag must be between 1 and 36 UTF-8 bytes")
  else if ((bool_decide (is_Some (fs_write filesystem)) || bool_decide (is_Some (fs_create filesystem)))
           && (bool_decide (fs_flush filesystem = None) || bool_decide (fs_fsync filesystem = None)))%bool
  then Raise (JsError "a writable filesystem must implement flush() and fsync()")
  else
    config ← ta_set (zeros 40) encoded_tag 0;
    config ← ty_set U32LE (dv_of config) 36 (Num 1);
    Done (Device (tables_new (fs_root filesystem)) None host, config).

(** * A request

    [process] runs on the device, the reader of the body, the reply under
    construction and the list [transient] of READDIR. *)
Record request := Request {
  rq_device : device; rq_body : reader; rq_payload : buf; rq_transient : list Z }.
#[export] Instance request_eta : Eta request := fun r =>
  Request (rq_device r) (rq_body r) (rq_payload r) (rq_transient r).

Definition on_body {A} : M reader A → M request A := focus rq_body (fun b r => r <| rq_body := b |>).
Definition on_payload {A} : M buf A → M request A := focus rq_payload (fun b r => r <| rq_payload := b |>).
Definition on_device {A} : M device A → M request A := focus rq_device (fun d r => r <| rq_device := d |>).
Definition on_host {A} : M W A → M device A := focus fd_host (fun w d => d <| fd_host := w |>).
Definition set_tables (f : tables → tables) : M device unit :=
  modify (fun d => d <| fd_tables := f (fd_tables d) |>).
Definition change_tables {A} (f : tables → A * tables) : M device A :=
  focus fd_tables (fun t d => d <| fd_tables := t |>) (fun t => let '(a, t) := f t in (Done a, t)).
Definition ask_tables {A} (f : tables → outcome A) : M device A := fun d => (f (fd_tables d), d).

(** An optional method: [if (!filesystem.m) throw new UnsupportedOperation()]. *)
Definition method {S A} (m : option A) : M S A := lift (of_option (FSError ENOSYS) m).
(** [node!], dereferenced. *)
Definition deref {S} (node : option Z) : M S Z :=
  lift (of_option (JsTypeError "Cannot read properties of undefined") node).
(** The record object with an id, and its fields. *)
Definition record_at (id : Z) : M device node_record :=
  ask_tables (fun t => of_option (JsTypeError "Cannot read properties of undefined") (tb_heap t !! id)).
Definition node_at (id : Z) : M device N := r ← record_at id; mret (nr_node r).
Definition node_of_request (node : option Z) : M device N := id ← deref node; node_at id.

Definition struct (t : ty) : M request value := on_body (rd_struct t).
Definition cstring : M request text := on_body rd_text.
Definition name : M request text := s ← cstring; lift (validate_name s).

(** * finalize *)
Definition release_handle (h : handle_record) : M device unit :=
  n ← node_at (hr_node h);
  if hr_directory h
  then match fs_releasedir filesystem with Some f => on_host (f n (hr_handle h)) | None => mret tt end
  else match fs_release filesystem with Some f => on_host (f n (hr_handle h)) | None => mret tt end.

(** [try { m } catch (error) { first_error ??= error }] *)
Definition attempt (m : M device unit) (first_error : option exn) : M device (option exn) := fun d =>
  match m d with
  | (Done _, d) => (Done first_error, d)
  | (Raise e, d) => (Done (Some (default e first_error)), d)
  | (Loops, d) => (Loops, d)
  end.

Fixpoint release_all (l : list (Z * handle_record)) (first_error : option exn) : M device (option exn) :=
  match l with
  | [] => mret first_error
  | (fh, h) :: l =>
      e ← attempt (release_handle h) first_error;
      set_tables (remove_handle fh h) ;;
      release_all l e
  end.

(** The promise of the first call is what every later call returns. *)
Definition finalize : M device unit := fun d =>
  match fd_final d with
  | Some None => (Done tt, d)
  | Some (Some e) => (Raise e, d)
  | None =>
      let '(o, d) :=
        (e ← release_all (tb_handles (fd_tables d)) None;
         attempt (match fs_destroy filesystem with Some f => on_host f | None => mret tt end) e) d in
      match o with
      | Done None => (Done tt, d <| fd_final := Some None |>)
      | Done (Some e) => (Raise e, d <| fd_final := Some (Some e) |>)
      | Raise e => (Raise e, d)
      | Loops => (Loops, d)
      end
  end.

(** * The opcodes *)
Section process.
Context (validity : Z) (header : value) (capacity : Z) (node : option Z).

Definition FUSE_INIT : M request unit :=
  init ← struct FuseInitIn;
  if negb (init.["major"] =? 7) then
    if init.["major"] <? 7 then throw (FSError EPROTO)
    else on_payload (emit U32LE (Num 7)) ;; on_payload (emit U32LE (Num 45)) ;; mret tt
  else
    let supported := FuseFlags.INIT_ASYNC_READ ||| FuseFlags.INIT_BIG_WRITES |||
      FuseFlags.INIT_AUTO_INVAL_DATA ||| FuseFlags.INIT_MAX_PAGES ||| FuseFlags.INIT_INIT_EXT in
    let flags := init.["flags"] &&& supported in
    on_payload (emit FuseInitOut (Obj [("major", Num 7); ("minor", Num (Z.min init.["minor"] 45));
      ("max_readahead", Num (Z.min init.["max_readahead"] (1024 * 1024))); ("flags", Num flags);
      ("max_background", Num 12); ("congestion_threshold", Num 9); ("max_write", Num (1024 * 1024));
      ("time_gran", Num 1);
      ("max_pages", Num (if flags &&& FuseFlags.INIT_MAX_PAGES =? 0 then 0 else 16));
      ("map_alignment", Num 0); ("flags2", Num 0); ("max_stack_depth", Num 0); ("request_timeout", Num 0);
      ("unused", Arr (replicate 11 (Num 0)))])) ;; mret tt.

(** [lookup(parent, name)] *)
Definition lookup (parent : option Z) (s : text) : M device Z :=
  p ← node_of_request parent;
  s ← lift (validate_name s);
  n ← on_host (fs_lookup filesystem p s);
  n ← lift (of_option (FSError ENOENT) n);
  p ← deref parent;
  change_tables (look n p).

(** The entry reply for a record, after [getattr] of its node. *)
Definition reply_entry (id : Z) (n : N) : M request unit :=
  a ← on_device (on_host (fs_getattr filesystem n None));
  on_payload (write_entry id a validity).

Definition FUSE_LOOKUP : M request unit :=
  s ← cstring;
  id ← on_device (lookup node s);
  n ← on_device (node_at id);
  reply_entry id n.

Definition FUSE_FORGET : M request unit :=
  r ← struct FuseForgetIn;
  id ← deref node;
  on_device (set_tables (forget id r.["nlookup"])).

Definition FUSE_BATCH_FORGET : M request unit :=
  r ← struct FuseBatchForgetIn;
  forgotten ← repeat_m (Z.to_nat r.["count"])
    (one ← struct FuseForgetOne;
     on_device (gets (fun d =>
       if decide (one.["nodeid"] ∈ tb_live (fd_tables d)) then [(one.["nodeid"], one.["nlookup"])] else [])));
  on_device (set_tables (fun t => foldl (fun t e => forget e.1 e.2 t) t (concat forgotten))).

(** [request.fh], checked against the node, when the flag is set. *)
Definition flagged_handle (flags flag fh : Z) : M device (option H) :=
  if negb (flags &&& flag =? 0)
  then h ← ask_tables (find_handle fh None node); mret (Some (hr_handle h))
  else mret None.

Definition FUSE_GETATTR : M request unit :=
  r ← struct FuseGetattrIn;
  h ← on_device (flagged_handle r.["getattr_flags"] FuseFlags.GETATTR_FH r.["fh"]);
  id ← deref node;
  n ← on_device (node_at id);
  a ← on_device (on_host (fs_getattr filesystem n h));
  on_payload (write_attr_out validity id a).

Definition setattr_changes (r : value) : set_attributes :=
  let sel flag := negb (r.["valid"] &&& flag =? 0) in
  let opt {A} (flag : Z) (v : A) := if sel flag then Some v else None in
  let time k n := Timestamp r.[k] (Some r.[n]) in
  SetAttributes (opt FuseFlags.SETATTR_MODE r.["mode"]) (opt FuseFlags.SETATTR_SIZE r.["size"])
    (opt FuseFlags.SETATTR_UID r.["uid"]) (opt FuseFlags.SETATTR_GID r.["gid"])
    (opt FuseFlags.SETATTR_ATIME
       (if sel FuseFlags.SETATTR_ATIME_NOW then Now else At (time "atime"%string "atimensec"%string)))
    (opt FuseFlags.SETATTR_MTIME
       (if sel FuseFlags.SETATTR_MTIME_NOW then Now else At (time "mtime"%string "mtimensec"%string)))
    (opt FuseFlags.SETATTR_CTIME (time "ctime"%string "ctimensec"%string)).

Definition FUSE_SETATTR : M request unit :=
  f ← method (fs_setattr filesystem);
  r ← struct FuseSetattrIn;
  h ← on_device (flagged_handle r.["valid"] FuseFlags.SETATTR_FH r.["fh"]);
  n ← on_device (node_of_request node);
  a ← on_device (on_host (f n (setattr_changes r) h));
  id ← deref node;
  on_payload (write_attr_out validity id a).

Definition FUSE_READLINK : M request unit :=
  f ← method (fs_readlink filesystem);
  n ← on_device (node_of_request node);
  target ← on_device (on_host (f n));
  on_payload (append (utf8_encode target)).

(** The record of a node the backend made, counted, and its entry. *)
Definition made (n : N) : M request unit :=
  p ← deref node;
  id ← on_device (change_tables (look n p));
  reply_entry id n.

Definition FUSE_SYMLINK : M request unit :=
  f ← method (fs_symlink filesystem);
  s ← name;
  target ← cstring;
  n ← on_device (node_of_request node);
  linked ← on_device (on_host (f n s target (create_context header (S_IFLNK ||| 0x1ff) 0)));
  made linked.

Definition FUSE_MKDIR : M request unit :=
  f ← method (fs_mkdir filesystem);
  r ← struct FuseMkdirIn;
  n ← on_device (node_of_request node);
  s ← name;
  dir ← on_device (on_host (f n s (create_context header (S_IFDIR ||| to_i32 r.["mode"]) r.["umask"])));
  made dir.

Definition FUSE_UNLINK (m : option (N → text → M W unit)) : M request unit :=
  f ← method m;
  n ← on_device (node_of_request node);
  s ← name;
  on_device (on_host (f n s)).

Definition FUSE_RENAME : M request unit :=
  f ← method (fs_rename filesystem);
  r ← struct FuseRenameIn;
  new_parent ← on_device (ask_tables (find_record r.["newdir"]));
  old_name ← name;
  new_name ← name;
  moved ← (if decide (node = Some new_parent) then mret None
           else n ← on_device (node_of_request node); on_device (on_host (fs_lookup filesystem n old_name)));
  moved_record ← on_device (gets (fun d =>
    match moved with Some m => tb_by_node (fd_tables d) !! m | None => None end));
  n ← on_device (node_of_request node);
  n' ← on_device (node_at new_parent);
  on_device (on_host (f n old_name n' new_name)) ;;
  match moved_record with
  | Some id => on_device (set_tables (reparent id new_parent))
  | None => mret tt
  end.

(** The reply of OPEN, OPENDIR and CREATE: the handle is added between the
    allocation of the struct and the assignment of its fields. *)
Definition reply_open (id : Z) (h : H) (directory : bool) : M request unit :=
  o ← on_payload (alloc FuseOpenOut);
  fh ← on_device (change_tables (add_handle id h directory));
  on_payload (alloc_set FuseOpenOut o
    (Obj [("fh", Num fh); ("open_flags", Num 0); ("backing_id", Num (-1))])).

Definition FUSE_OPEN (directory : bool) : M request unit :=
  f ← method (if directory then fs_opendir filesystem else fs_open filesystem);
  r ← struct FuseOpenIn;
  n ← on_device (node_of_request node);
  h ← on_device (on_host (f n r.["flags"]));
  id ← deref node;
  reply_open id h directory.

Definition FUSE_CREATE : M request unit :=
  f ← method (fs_create filesystem);
  r ← struct FuseCreateIn;
  n ← on_device (node_of_request node);
  s ← name;
  created ← on_device (on_host (f n s r.["flags"]
    (create_context header (S_IFREG ||| to_i32 r.["mode"]) r.["umask"])));
  p ← deref node;
  id ← on_device (change_tables (look created.1 p));
  reply_entry id created.1 ;;
  reply_open id created.2 false.

Definition FUSE_READ : M request unit :=
  f ← method (fs_read filesystem);
  r ← struct FuseReadIn;
  h ← on_device (ask_tables (find_handle r.["fh"] (Some false) node));
  n ← on_device (node_at (hr_node h));
  let room := capacity - ty_size FuseOutHeader in
  bytes ← on_device (on_host (f n (hr_handle h) r.["offset"] (Z.min r.["size"] room)));
  if ((r.["size"] <? zlen bytes) || (room <? zlen bytes))%bool then throw (FSError EIO)
  else on_payload (append bytes).

Definition FUSE_WRITE : M request unit :=
  f ← method (fs_write filesystem);
  r ← struct FuseWriteIn;
  bytes ← on_body (rd_bytes r.["size"]);
  h ← on_device (ask_tables (find_handle r.["fh"] (Some false) node));
  n ← on_device (node_at (hr_node h));
  written ← on_device (on_host (f n (hr_handle h) r.["offset"] bytes));
  match written with
  | Some written =>
      if ((written <? 0) || (r.["size"] <? written))%bool then throw (FSError EIO)
      else on_payload (emit FuseWriteOut (Obj [("size", Num written); ("padding", Num 0)])) ;; mret tt
  | None => throw (FSError EIO)
  end.

Definition FUSE_FLUSH : M request unit :=
  r ← struct FuseFlushIn;
  h ← on_device (ask_tables (find_handle r.["fh"] (Some false) node));
  match fs_flush filesystem with
  | Some f => n ← on_device (node_at (hr_node h)); on_device (on_host (f n (hr_handle h)))
  | None => mret tt
  end.

Definition FUSE_FSYNC (directory : bool) : M request unit :=
  r ← struct FuseFsyncIn;
  h ← on_device (ask_tables (find_handle r.["fh"] (Some directory) node));
  match fs_fsync filesystem with
  | Some f =>
      n ← on_device (node_at (hr_node h));
      on_device (on_host (f n (hr_handle h) (negb (r.["fsync_flags"] &&& 1 =? 0))))
  | None => mret tt
  end.

(** The handle is removed only when the backend's call returned. *)
Definition FUSE_RELEASE (directory : bool) : M request unit :=
  r ← struct FuseReleaseIn;
  h ← on_device (ask_tables (find_handle r.["fh"] (Some directory) node));
  on_device (release_handle h) ;;
  on_device (set_tables (remove_handle r.["fh"] h)).

(** A record is made for every entry of the directory, and its name checked. *)
Fixpoint collect_entries (dir : Z) (l : list (text * N)) : M request (list (text * Z)) :=
  match l with
  | [] => mret []
  | (s, n) :: l =>
      id ← on_device (change_tables (record_for_node n dir));
      modify (fun r => r <| rq_transient := rq_transient r ++ [id] |>) ;;
      s ← lift (validate_name s);
      es ← collect_entries dir l;
      mret ((s, id) :: es)
  end.

(** [(24 + name.byteLength + 7) & ~7] *)
Definition record_length (s : text) : Z := (24 + zlen (utf8_encode s) + 7) &&& Z.lnot 7.

(** The dirents of a page: the loop stops at the first that does not fit. *)
Fixpoint write_dirents (limit index : Z) (l : list (text * Z)) : M request unit :=
  match l with
  | [] => mret tt
  | (s, id) :: l =>
      let s' := utf8_encode s in
      length ← on_payload (gets b_length);
      if limit <? length + record_length s then mret tt
      else
        n ← on_device (node_at id);
        a ← on_device (on_host (fs_getattr filesystem n None));
        o ← on_payload (alloc FuseDirent);
        t ← lift (mode_type (at_mode a));
        on_payload (alloc_set FuseDirent o (Obj [("ino", Num id); ("off", Num (index + 1));
          ("namelen", Num (zlen s')); ("type", Num (DirentType t))])) ;;
        on_payload (append s') ;;
        length ← on_payload (gets b_length);
        on_payload (bump (- length &&& 7)) ;;
        write_dirents limit (index + 1) l
  end.

Definition FUSE_READDIR : M request unit :=
  f ← method (fs_readdir filesystem);
  r ← struct FuseReadIn;
  offset ← lift (checked_number r.["offset"]);
  h ← on_device (ask_tables (find_handle r.["fh"] (Some true) node));
  d ← on_device (record_at (hr_node h));
  directory_entries ← on_device (on_host (f (nr_node d) (hr_handle h)));
  let limit := Z.min r.["size"] (capacity - ty_size FuseOutHeader) in
  finally
    (entries ← collect_entries (hr_node h) directory_entries;
     write_dirents limit offset
       (drop (Z.to_nat offset) ((lit ".", hr_node h) :: (lit "..", nr_parent d) :: entries)))
    (fun r => r <| rq_device := rq_device r <| fd_tables := collect_all (rq_transient r) (fd_tables (rq_device r)) |> |>).

Definition FUSE_STATFS : M request unit :=
  stat ← on_device (match fs_statfs filesystem with
                    | Some f => n ← node_of_request node; on_host (f n)
                    | None => mret None
                    end);
  let s := default (Statfs None None None None None None None None) stat in
  on_payload (emit FuseStatfsOut (Obj [("blocks", Num (default 0 (sf_blocks s)));
    ("bfree", Num (default 0 (sf_blocksFree s))); ("bavail", Num (default 0 (sf_blocksAvailable s)));
    ("files", Num (default 0 (sf_files s))); ("ffree", Num (default 0 (sf_filesFree s)));
    ("bsize", Num (default 4096 (sf_blockSize s))); ("namelen", Num (default 255 (sf_nameLength s)));
    ("frsize", Num (default (default 4096 (sf_blockSize s)) (sf_fragmentSize s))); ("padding", Num 0);
    ("spare", Arr (replicate 6 (Num 0)))])) ;; mret tt.

Definition FUSE_ACCESS : M request unit :=
  r ← struct FuseAccessIn;
  match fs_access filesystem with
  | Some f => n ← on_device (node_of_request node); on_device (on_host (f n r.["mask"]))
  | None => mret tt
  end.

(** Whether the opcode is answered, and what it does. *)
Definition dispatch (opcode : Z) : bool * M request unit :=
  if opcode =? FuseOpcode.INIT then (true, FUSE_INIT)
  else if opcode =? FuseOpcode.LOOKUP then (true, FUSE_LOOKUP)
  else if opcode =? FuseOpcode.FORGET then (false, FUSE_FORGET)
  else if opcode =? FuseOpcode.BATCH_FORGET then (false, FUSE_BATCH_FORGET)
  else if opcode =? FuseOpcode.GETATTR then (true, FUSE_GETATTR)
  else if opcode =? FuseOpcode.SETATTR then (true, FUSE_SETATTR)
  else if opcode =? FuseOpcode.READLINK then (true, FUSE_READLINK)
  else if opcode =? FuseOpcode.SYMLINK then (true, FUSE_SYMLINK)
  else if opcode =? FuseOpcode.MKDIR then (true, FUSE_MKDIR)
  else if opcode =? FuseOpcode.UNLINK then (true, FUSE_UNLINK (fs_unlink filesystem))
  else if opcode =? FuseOpcode.RMDIR then (true, FUSE_UNLINK (fs_rmdir filesystem))
  else if opcode =? FuseOpcode.RENAME then (true, FUSE_RENAME)
  else if opcode =? FuseOpcode.OPEN then (true, FUSE_OPEN false)
  else if opcode =? FuseOpcode.OPENDIR then (true, FUSE_OPEN true)
  else if opcode =? FuseOpcode.CREATE then (true, FUSE_CREATE)
  else if opcode =? FuseOpcode.READ then (true, FUSE_READ)
  else if opcode =? FuseOpcode.WRITE then (true, FUSE_WRITE)
  else if opcode =? FuseOpcode.FLUSH then (true, FUSE_FLUSH)
  else if opcode =? FuseOpcode.FSYNC then (true, FUSE_FSYNC false)
  else if opcode =? FuseOpcode.FSYNCDIR then (true, FUSE_FSYNC true)
  else if opcode =? FuseOpcode.RELEASE then (true, FUSE_RELEASE false)
  else if opcode =? FuseOpcode.RELEASEDIR then (true, FUSE_RELEASE true)
  else if opcode =? FuseOpcode.READDIR then (true, FUSE_READDIR)
  else if opcode =? FuseOpcode.STATFS then (true, FUSE_STATFS)
  else if opcode =? FuseOpcode.ACCESS then (true, FUSE_ACCESS)
  else if opcode =? FuseOpcode.INTERRUPT then (false, mret tt)
  else if opcode =? FuseOpcode.DESTROY then (true, on_device finalize)
  else (true, throw (FSError ENOSYS)).
End process.

(** [process(header, body, capacity)]; [None] for a request without a reply. *)
Definition process (validity : Z) (header : value) (capacity : Z) : M request (option buf) :=
  node ← (if header.["nodeid"] =? 0 then mret None
          else id ← on_device (ask_tables (find_record header.["nodeid"])); mret (Some id));
  let '(answered, body) := dispatch validity header capacity node header.["opcode"] in
  body ;;
  if (answered : bool) then
    payload ← gets rq_payload;
    if capacity - ty_size FuseOutHeader <? b_length payload then throw (FSError EIO)
    else mret (Some payload)
  else mret None.

(** * Answering a chain *)

(** [readable descriptor follows response] *)
Fixpoint in_order (buffers : list vbuffer) (saw_writable : bool) : bool :=
  match buffers with
  | [] => true
  | b :: bs => ((vb_writable b || negb saw_writable) && in_order bs (saw_writable || vb_writable b))%bool
  end.

Definition response_errno (e : exn) : Z :=
  match e with FSError errno => errno | RangeError _ => EINVAL | _ => EIO end.

(** [new Bytes(size)], one header and the payload. *)
Definition response (len error unique : Z) (payload : list Z) : outcome (list Z) :=
  let '(o, b) :=
    (emit FuseOutHeader (Obj [("len", Num len); ("error", Num error); ("unique", Num unique)]) ;;
     append payload) (bytes_new len) in
  _ ← o; Done (array b).

(** A chain in service: the device, its buffers, and the [unique] of its header
    once that is read. *)
Record service := Service { sv_device : device; sv_buffers : list vbuffer; sv_unique : Z }.
#[export] Instance service_eta : Eta service := fun s => Service (sv_device s) (sv_buffers s) (sv_unique s).

(** The [try] block: the count it releases the chain with. *)
Definition serve (validity capacity : Z) : M service Z :=
  buffers ← gets sv_buffers;
  let request := concatenate buffers false in
  (if in_order buffers false then mret tt else throw (FSError EINVAL)) ;;
  let '(header, body) := rd_struct FuseInHeader (Reader request 0) in
  header ← lift header;
  modify (fun s => s <| sv_unique := header.["unique"] |>) ;;
  (if (negb (header.["len"] =? zlen request) || (header.["len"] <? ty_size FuseInHeader))%bool
   then throw (FSError EINVAL) else mret tt) ;;
  (if capacity <? minimum_response_capacity header.["opcode"] then throw (FSError EINVAL) else mret tt) ;;
  payload ← (fun s =>
    let '(o, r) := process validity header capacity
      (Request (sv_device s) body (bytes_new (Z.max 0 (capacity - ty_size FuseOutHeader))) []) in
    (o, s <| sv_device := rq_device r |>));
  match payload with
  | None => mret 0
  | Some payload =>
      unique ← gets sv_unique;
      let len := ty_size FuseOutHeader + b_length payload in
      r ← lift (response len 0 unique (array payload));
      focus sv_buffers (fun b s => s <| sv_buffers := b |>) (scatter r) ;;
      mret (zlen r)
  end.

(** The [catch] block. *)
Definition fail (capacity : Z) (e : exn) : M service Z :=
  if capacity <? ty_size FuseOutHeader then mret 0
  else
    unique ← gets sv_unique;
    r ← lift (response (ty_size FuseOutHeader) (- response_errno e) unique []);
    focus sv_buffers (fun b s => s <| sv_buffers := b |>) (scatter r) ;;
    mret (ty_size FuseOutHeader).

(** One round of [notify]: the argument of [chain.release], and the buffers it
    is released with. *)
Definition notify_chain (validity : Z) (buffers : list vbuffer) : M device (Z * list vbuffer) := fun d =>
  let capacity := response_capacity buffers in
  let '(o, s) :=
    match serve validity capacity (Service d buffers 0) with
    | (Raise e, s) => fail capacity e s
    | r => r
    end in
  (written ← o; Done (written, sv_buffers s), sv_device s).

(** [for (const chain of queue)]: the chains released, in order. One notification runs
    to its end here; in the device those of its two queues can take turns wherever they
    wait, which is not modelled beyond the tables (FuseNodes.v). *)
Fixpoint notify (validity : Z) (chains : list (list vbuffer)) : M device (list (Z * list vbuffer)) :=
  match chains with
  | [] => mret []
  | buffers :: chains => r ← notify_chain validity buffers; rs ← notify validity chains; mret (r :: rs)
  end.
End device.
