(* ===== verification/FuseOk.v ===== *)
(** What every request of a virtio-fs device keeps: the tables well formed and
    settled, the ids naming what they named, the reply inside its buffer; and
    that every request ends. *)
From S2P Require Export Fuse.

Create HintDb quiet.

(** * The reply buffer *)
Definition buf_wf (b : buf) : Prop := 0 ≤ b_length b ≤ Bytes.capacity b.

Lemma zlen_array b : buf_wf b → zlen (array b) = b_length b.
Proof. intros [? Hc]. unfold array. rewrite zlen_subarray; unfold Bytes.capacity in Hc; lia. Qed.
Lemma buf_wf_new n : buf_wf (bytes_new n).
Proof. unfold buf_wf, Bytes.capacity. cbn. split; [lia|apply zlen_nonneg]. Qed.

Lemma splice_zlen (l src : list Z) o : 0 ≤ o → o + zlen src ≤ zlen l → zlen (splice l (Z.to_nat o) src) = zlen l.
Proof. intros. unfold zlen in *. rewrite length_splice; lia. Qed.

Definition keeps_length (t : ty) : Prop := ∀ dv o v b,
  dv_ok dv → ty_set t dv o v = Done b → zlen b = zlen (dv_buffer dv).

Lemma dv_write_length dv o bs b : dv_ok dv → dv_write dv o bs = Done b → zlen b = zlen (dv_buffer dv).
Proof.
  intros (?&?&?). unfold dv_write. case_bool_decide as Hb; [|done]. intros [= <-].
  apply splice_zlen; lia.
Qed.
Lemma narrow_dv_ok dv o dv' : dv_ok dv → narrow dv o = Done dv' → dv_ok dv' ∧ dv_buffer dv' = dv_buffer dv.
Proof.
  intros Hdv. unfold narrow, new_dataview. destruct (o =? 0); [by intros [= <-]|].
  case_bool_decide; [|done]. intros [= <-]. unfold dv_ok. cbn. split; [lia|done].
Qed.
Lemma with_buffer_dv_ok dv b : dv_ok dv → zlen b = zlen (dv_buffer dv) → dv_ok (with_buffer dv b).
Proof. unfold dv_ok. cbn. lia. Qed.

Lemma ty_set_length t : keeps_length t.
Proof.
  induction t as [s|t n IH|layout IH] using ty_induction; intros dv o v b Hdv; cbn [ty_set].
  - unfold sc_set. destruct v; [destruct (sc_bigint s)| | |]; try done; by apply dv_write_length.
  - destruct v as [| |vs|]; try done. revert dv o vs Hdv; induction n as [|n IHn]; intros dv o vs Hdv.
    { by intros [= <-]. }
    cbn [set_elements]. destruct (ty_set t dv o (default Undef (head vs))) as [b1| |] eqn:E; [|done..]. cbn.
    apply IH in E; [|done]. intros Hb. rewrite <- E. apply (IHn (with_buffer dv b1)) in Hb; [done|].
    by apply with_buffer_dv_ok.
  - destruct v as [| | |fs]; try done. destruct (narrow dv o) as [dv'| |] eqn:En; [|done..]. cbn.
    apply narrow_dv_ok in En as [Hdv' <-]; [|done]. clear Hdv. revert dv' Hdv'. generalize 0.
    induction IH as [|[k t] l Ht Hl IHl]; intros z dv' Hdv'; [by intros [= <-]|].
    cbn [set_fields]. destruct (Bytes.assoc k fs) as [v|] eqn:Ek; cbn.
    + destruct (ty_set t dv' z v) as [b1| |] eqn:E; [|done..]. cbn.
      apply Ht in E; [|done]. intros Hb. rewrite <- E. apply (IHl _ (with_buffer dv' b1)) in Hb; [done|].
      by apply with_buffer_dv_ok.
    + intros Hb. by apply (IHl _ (with_buffer dv' (dv_buffer dv'))) in Hb.
Qed.

Lemma ensure_capacity_wf b n :
  0 < Bytes.capacity b ∨ n ≤ 0 →
  ∃ b', ensure_capacity b n = Done b' ∧ b_length b' = b_length b ∧
    n ≤ Bytes.capacity b' ∧ Bytes.capacity b ≤ Bytes.capacity b'.
Proof.
  intros Hc. unfold ensure_capacity. fold (Bytes.capacity b). destruct (_ <? _) eqn:E; zbool; [|by eexists].
  pose proof (zlen_nonneg (b_array b)). unfold Bytes.capacity in *.
  destruct (grow_done (Z.to_nat n) (zlen (b_array b)) n) as (m&->&?&?); [lia|lia|]. simpl.
  rewrite ta_set_ok; [|lia|rewrite zlen_zeros by lia; lia]. eexists; split; [done|]. cbn.
  rewrite (splice_zlen (zeros m) (b_array b) 0) by (rewrite ?zlen_zeros by lia; lia).
  rewrite zlen_zeros by lia. split_and!; [done|lia..].
Qed.

(** [m] keeps the reply buffer well formed and ends; [room] says that the
    buffer was made with room for something. *)
Definition keeps_buf {A} (room : bool) (m : M buf A) (Q : A → Prop) : Prop := ∀ b,
  buf_wf b → (room = true → 0 < Bytes.capacity b) →
  match m b with
  | (Done a, b') => Q a ∧ buf_wf b' ∧ (room = true → 0 < Bytes.capacity b')
  | (Raise _, _) => True
  | (Loops, _) => False
  end.

Lemma keeps_bump room n : 0 ≤ n → room = true ∨ n = 0 → keeps_buf room (bump n) (fun o => 0 ≤ o).
Proof.
  intros Hn Hroom b [Hb1 Hb2] Hc. unfold bump.
  destruct (ensure_capacity_wf b (b_length b + n)) as (b'&->&E&?&?).
  { destruct Hroom as [Hr|Hn0]; [left; by apply Hc|]. destruct (decide (0 < Bytes.capacity b)); [by left|]. right. lia. }
  unfold buf_wf. cbn. unfold Bytes.capacity in *. cbn. split_and!; try lia. intros Hr. specialize (Hc Hr). lia.
Qed.
Lemma keeps_append room bs : room = true ∨ bs = [] → keeps_buf room (append bs) (fun _ => True).
Proof.
  intros Hroom b Hb Hc. pose proof (keeps_bump room (zlen bs)) as Hk.
  specialize (Hk ltac:(apply zlen_nonneg) ltac:(destruct Hroom as [?| ->]; auto) b Hb Hc).
  unfold append, mbind, M_bind. destruct (bump (zlen bs) b) as [[o|e|] b'] eqn:Eb; [|done..].
  destruct Hk as (Ho&[Hw1 Hw2]&Hr). cbn. unfold ta_set. case_bool_decide as Hd; [|done]. cbn.
  unfold buf_wf, Bytes.capacity in *. cbn. rewrite splice_zlen by lia. auto.
Qed.
Lemma keeps_alloc t room : room = true → keeps_buf room (alloc t) (fun o => 0 ≤ o).
Proof. intros Hr. apply keeps_bump; auto. Qed.
Lemma keeps_alloc_set room t o v : keeps_buf room (alloc_set t o v) (fun _ => True).
Proof.
  intros b [Hw1 Hw2] Hc. unfold alloc_set, mbind, M_bind. cbn.
  destruct (ty_set t (dv_of (b_array b)) o v) as [x| |] eqn:E; [|done|by apply ty_set_total in E].
  apply ty_set_length in E; [|unfold dv_ok; cbn; pose proof (zlen_nonneg (b_array b)); lia].
  cbn in *. unfold buf_wf, Bytes.capacity in *. cbn. rewrite E. auto.
Qed.
Lemma keeps_bind {A B} room (m : M buf A) (k : A → M buf B) P Q :
  keeps_buf room m P → (∀ a, P a → keeps_buf room (k a) Q) → keeps_buf room (m ≫= k) Q.
Proof.
  intros Hm Hk b Hb Hc. specialize (Hm b Hb Hc). unfold mbind, M_bind.
  destruct (m b) as [[a|e|] b']; [|done..]. destruct Hm as (?&?&?). by apply Hk.
Qed.
Lemma keeps_emit t v room : room = true → keeps_buf room (emit t v) (fun _ => True).
Proof.
  intros Hr. eapply keeps_bind; [by apply keeps_alloc|]. intros o _. eapply keeps_bind; [apply keeps_alloc_set|].
  intros _ _ b Hb Hc. done.
Qed.
Lemma keeps_lift {A} room (o : outcome A) : o ≠ Loops → keeps_buf room (lift o) (fun _ => True).
Proof. intros Ho b Hb Hc. by destruct o. Qed.

Lemma attr_fields_ends id a : attr_fields id a ≠ Loops.
Proof.
  unfold attr_fields, mode_type. cbn. destruct (at_nlink a); cbn; [done|]. by repeat case_match.
Qed.
Lemma mode_type_ends m : mode_type m ≠ Loops.
Proof. unfold mode_type. cbn. by repeat case_match. Qed.
Lemma validate_name_ends s : validate_name s ≠ Loops.
Proof. unfold validate_name. by repeat case_match. Qed.

Lemma keeps_write_entry id a v room : room = true → keeps_buf room (write_entry id a v) (fun _ => True).
Proof.
  intros Hr. eapply keeps_bind; [by apply keeps_alloc|]. intros o _.
  eapply keeps_bind; [apply keeps_lift, attr_fields_ends|]. intros x _. apply keeps_alloc_set.
Qed.
Lemma keeps_write_attr_out v id a room : room = true → keeps_buf room (write_attr_out v id a) (fun _ => True).
Proof.
  intros Hr. eapply keeps_bind; [by apply keeps_alloc|]. intros o _.
  eapply keeps_bind; [apply keeps_lift, attr_fields_ends|]. intros x _. apply keeps_alloc_set.
Qed.

(** * The readers *)
Definition ends {S A} (m : M S A) : Prop := ∀ s, (m s).1 ≠ Loops.
Lemma ends_ret {S A} (a : A) : ends (S := S) (mret a).
Proof. by intros s. Qed.
Lemma ends_throw {S A} e : ends (S := S) (A := A) (throw e).
Proof. by intros s. Qed.
Lemma ends_lift {S A} (o : outcome A) : o ≠ Loops → ends (S := S) (lift o).
Proof. by intros Ho s. Qed.
Lemma ends_bind {S A B} (m : M S A) (k : A → M S B) : ends m → (∀ a, ends (k a)) → ends (m ≫= k).
Proof.
  intros Hm Hk s. specialize (Hm s). unfold mbind, M_bind. destruct (m s) as [[a|e|] s']; [apply Hk|done|done].
Qed.
Lemma ends_if {S A} (c : bool) (m1 m2 : M S A) : ends m1 → ends m2 → ends (if c then m1 else m2).
Proof. by destruct c. Qed.

Lemma ends_take n : ends (rd_take n).
Proof. intros r. unfold rd_take. by destruct (_ || _)%bool. Qed.
Lemma ends_rd_struct t : ends (rd_struct t).
Proof. apply ends_bind; [apply ends_take|]. intros o r. cbn. apply ty_get_total. Qed.
Lemma ends_rd_bytes n : ends (rd_bytes n).
Proof. apply ends_bind; [apply ends_take|]. by intros o r. Qed.
Lemma ends_rd_text : ends rd_text.
Proof.
  apply ends_bind; [|intros; apply ends_ret]. intros r. unfold rd_cstring. unfold mbind at 1, M_bind at 1.
  cbn [get_state]. destruct (index_of 0 _ _); [|done].
  apply ends_bind; [apply ends_rd_bytes|]. intros bytes.
  apply ends_bind; [apply ends_bind; [apply ends_take|intros; apply ends_ret]|].
  intros _. by apply ends_if.
Qed.
#[export] Hint Resolve ends_ret ends_throw ends_rd_struct ends_rd_bytes ends_rd_text : js.

(** * Requests

    A triple on the device's tables and on [transient], for a program that
    ends: [Inv] holds before, after and when the program throws; [Pre] and
    [Post] are what is known besides. The host's state, the body's position and
    the reply are not spoken of, except that the reply stays well formed. *)
Section requests.
Context {N H W : Type} `{Countable N}.
Context (filesystem : filesystem N H W).

(** An invariant of the backend's state; and what it has of a handle that [opendir]
    gave for a node, which it keeps. *)
Context (good : W → Prop) (opened : W → N → H → Prop).
Definition serves_at {A} (m : M W A) (w : W) : Prop :=
  (m w).1 ≠ Loops ∧ good (m w).2 ∧ ∀ n h, opened w n h → opened (m w).2 n h.
Definition serving {A} (m : M W A) : Prop := ∀ w, good w → serves_at m w.

(** No method of the backend runs for ever, and each keeps the invariant; of [readdir]
    that is said for a directory that is open. *)
Record host_ends : Prop := {
  he_lookup p s : serving (fs_lookup filesystem p s);
  he_getattr n h : serving (fs_getattr filesystem n h);
  he_setattr f n c h : fs_setattr filesystem = Some f → serving (f n c h);
  he_readlink f n : fs_readlink filesystem = Some f → serving (f n);
  he_symlink f n s t c : fs_symlink filesystem = Some f → serving (f n s t c);
  he_mkdir f n s c : fs_mkdir filesystem = Some f → serving (f n s c);
  he_unlink f n s : fs_unlink filesystem = Some f → serving (f n s);
  he_rmdir f n s : fs_rmdir filesystem = Some f → serving (f n s);
  he_rename f n s n' s' : fs_rename filesystem = Some f → serving (f n s n' s');
  he_open f n l : fs_open filesystem = Some f → serving (f n l);
  he_create f n s l c : fs_create filesystem = Some f → serving (f n s l c);
  he_read f n h o l : fs_read filesystem = Some f → serving (f n h o l);
  he_write f n h o l : fs_write filesystem = Some f → serving (f n h o l);
  he_flush f n h : fs_flush filesystem = Some f → serving (f n h);
  he_fsync f n h b : fs_fsync filesystem = Some f → serving (f n h b);
  he_release f n h : fs_release filesystem = Some f → serving (f n h);
  he_opendir f n l : fs_opendir filesystem = Some f → serving (f n l);
  he_opened f n l w h w' : good w → fs_opendir filesystem = Some f → f n l w = (Done h, w') → opened w' n h;
  he_readdir f n h w : good w → fs_readdir filesystem = Some f → opened w n h → serves_at (f n h) w;
  he_releasedir f n h : fs_releasedir filesystem = Some f → serving (f n h);
  he_access f n m : fs_access filesystem = Some f → serving (f n m);
  he_statfs f n : fs_statfs filesystem = Some f → serving (f n);
  he_destroy f : fs_destroy filesystem = Some f → serving f }.

Abbreviation know := (list Z → @tables N H _ _ → Prop).
Abbreviation req := (@request N H W _ _).
Abbreviation dev := (@device N H W _ _).

Context (room : bool).

Definition buf_kept (r : req) : Prop :=
  buf_wf (rq_payload r) ∧ (room = true → 0 < Bytes.capacity (rq_payload r)).
(** Every open directory is one that the backend opened for the handle's node. *)
Definition opened_ok (t : @tables N H _ _) (w : W) : Prop := good w ∧ Forall (fun e => hr_directory e.2 = true →
  ∃ n, node_of t (hr_node e.2) = Some n ∧ opened w n (hr_handle e.2)) (tb_handles t).
Lemma opened_host t w w' : opened_ok t w → good w' → (∀ n h, opened w n h → opened w' n h) → opened_ok t w'.
Proof using. intros [_ Ho] Hg Hw. split; [done|]. eapply Forall_impl; [exact Ho|]. intros e Hx Hd. destruct (Hx Hd) as (n&Hn&Hop). exists n. auto. Qed.
Lemma opened_sub t t' w : opened_ok t w → extends t t' → (∀ e, e ∈ tb_handles t' → e ∈ tb_handles t) → opened_ok t' w.
Proof using.
  intros [Hg Ho] Ht Hsub. split; [done|]. rewrite Forall_forall in Ho |- *.
  intros e Hin%Hsub Hd. destruct (Ho e Hin Hd) as (n&Hn&Hop). exists n. auto.
Qed.
Definition dirs_kept (r : req) : Prop := opened_ok (fd_tables (rq_device r)) (fd_host (rq_device r)).
Definition knows (K : know) (r : req) : Prop := K (rq_transient r) (fd_tables (rq_device r)) ∧ buf_kept r ∧ dirs_kept r.
Definition both (K K' : know) : know := fun X t => K X t ∧ K' X t.
Definition anything : know := fun _ _ => True.

Definition triple {A} (Inv Pre : know) (m : M req A) (Post : A → know) : Prop := ∀ r,
  knows (both Inv Pre) r →
  match m r with
  | (Done a, r') => knows (both Inv (Post a)) r'
  | (Raise _, r') => Inv (rq_transient r') (fd_tables (rq_device r')) ∧ dirs_kept r'
  | (Loops, _) => False
  end.

Implicit Types (Inv Pre : know).

Lemma triple_bind {A B} Inv Pre (m : M req A) (k : A → M req B) Mid Post :
  triple Inv Pre m Mid → (∀ a, triple Inv (Mid a) (k a) Post) → triple Inv Pre (m ≫= k) Post.
Proof using.
  intros Hm Hk r Hr. specialize (Hm r Hr). unfold mbind, M_bind.
  destruct (m r) as [[a|e|] r']; [by apply Hk|done|done].
Qed.
Lemma triple_pre {A} Inv (Pre Pre' : know) (m : M req A) Post :
  (∀ X t, Inv X t → Pre X t → Pre' X t) → triple Inv Pre' m Post → triple Inv Pre m Post.
Proof using. intros HP Hm r [[HI Hp] Hb]. apply Hm. split; [split; auto|done]. Qed.
Lemma triple_post {A} Inv Pre (m : M req A) (Post Post' : A → know) :
  (∀ a X t, Inv X t → Post a X t → Post' a X t) → triple Inv Pre m Post → triple Inv Pre m Post'.
Proof using.
  intros HP Hm r Hr. specialize (Hm r Hr). destruct (m r) as [[a|e|] r']; [|done|done].
  destruct Hm as [[HI Hp] Hb]. split; [split; auto|done].
Qed.
Lemma triple_ret {A} Inv Pre (a : A) (Post : A → know) :
  (∀ X t, Inv X t → Pre X t → Post a X t) → triple Inv Pre (mret a) Post.
Proof using. intros HP r [[HI Hp] Hb]. split; [split; auto|done]. Qed.
Lemma triple_throw {A} Inv Pre e (Post : A → know) : triple Inv Pre (throw e) Post.
Proof using. intros r [[HI Hp] [Hb Hd]]. done. Qed.
Lemma triple_if {A} Inv Pre (c : bool) (m1 m2 : M req A) Post :
  triple Inv Pre m1 Post → triple Inv Pre m2 Post → triple Inv Pre (if c then m1 else m2) Post.
Proof using. by destruct c. Qed.

Ltac known := split; [split; [done|split; done]|split; done].

(** A program that leaves the tables alone. *)
Definition quiet {A} (m : M req A) (P : A → Prop) : Prop := ∀ Inv Pre, triple Inv Pre m (fun a => both (fun _ _ => P a) Pre).

Lemma quiet_lift {A} (o : outcome A) : o ≠ Loops → quiet (lift o) (fun a => o = Done a).
Proof using. intros Ho Inv Pre r [[HI Hp] [Hb Hd]]. cbn. destruct o; [known|done|done]. Qed.
Lemma quiet_body {A} (m : M reader A) : ends m → quiet (on_body m) (fun _ => True).
Proof using.
  intros Hm Inv Pre r [[HI Hp] [Hb Hd]]. unfold on_body, focus. specialize (Hm (rq_body r)).
  destruct (m (rq_body r)) as [[a|e|] b]; [known|done|done].
Qed.
Lemma quiet_payload {A} (m : M buf A) P : keeps_buf room m P → quiet (on_payload m) P.
Proof using.
  intros Hm Inv Pre r [[HI Hp] [[Hb1 Hb2] Hd]]. unfold on_payload, focus. specialize (Hm (rq_payload r) Hb1 Hb2).
  destruct (m (rq_payload r)) as [[a|e|] b]; [|done|done]. destruct Hm as (?&?&?).
  split; [split; [done|by split]|split; [by split|done]].
Qed.
(** A call of the backend. *)
Lemma triple_host_at {A} Inv Pre (m : M W A) :
  (∀ r, knows (both Inv Pre) r → serves_at m (fd_host (rq_device r))) → triple Inv Pre (on_device (on_host m)) (fun _ => Pre).
Proof using.
  intros Hm r Hr. specialize (Hm r Hr). destruct Hr as [[HI Hp] [Hb Hd]]. unfold on_device, on_host, focus. destruct Hm as (Hm&Hg&Hmono).
  destruct (m (fd_host (rq_device r))) as [[a|e|] w]; cbn [fst snd] in *.
  - split; [by split|]. split; [done|]. by eapply opened_host.
  - split; [done|]. by eapply opened_host.
  - done.
Qed.
Lemma quiet_host {A} (m : M W A) : serving m → quiet (on_device (on_host m)) (fun _ => True).
Proof using.
  intros Hm Inv Pre r Hr. pose proof (triple_host_at Inv Pre m (fun r Hr => Hm _ (proj1 (proj2 (proj2 Hr)))) r Hr) as H1.
  destruct (on_device (on_host m) r) as [[a|e|] r']; [|done|done]. destruct H1 as [[HI Hp] Hb]. split; [|done]. by repeat split.
Qed.
Lemma triple_ask {A} Inv Pre (f : @tables N H _ _ → outcome A) :
  (∀ t, f t ≠ Loops) →
  triple Inv Pre (on_device (ask_tables f)) (fun a => both (fun _ t => f t = Done a) Pre).
Proof using.
  intros Hf r [[HI Hp] [Hb Hd]]. unfold on_device, focus, ask_tables. cbn. specialize (Hf (fd_tables (rq_device r))).
  destruct (f _) eqn:E; [|done|done]. known.
Qed.
Lemma triple_gets {A} Inv Pre (f : dev → A) : triple Inv Pre (on_device (gets f)) (fun _ => Pre).
Proof using. intros r [[HI Hp] Hb]. by split. Qed.
(** What an operation on the tables does not open. *)
Definition opens_none (t t' : @tables N H _ _) : Prop := extends t t' ∧ ∀ e, e ∈ tb_handles t' → e ∈ tb_handles t.
Lemma opens_same t t' : extends t t' → tb_handles t' = tb_handles t → opens_none t t'.
Proof using. intros He E. split; [done|]. by rewrite E. Qed.
Lemma triple_set Inv Pre Post (f : @tables N H _ _ → tables) :
  (∀ X t, Inv X t → Pre X t → (Inv X (f t) ∧ Post X (f t)) ∧ opens_none t (f t)) →
  triple Inv Pre (on_device (set_tables f)) (fun _ => Post).
Proof using.
  intros Hf r [[HI Hp] [Hb Hd]]. unfold on_device, focus, set_tables, modify. cbn. destruct (Hf _ _ HI Hp) as [HIP [He Hs]].
  split; [exact HIP|]. split; [done|]. by eapply opened_sub.
Qed.
Lemma triple_change {A} Inv Pre (Post : A → know) (f : @tables N H _ _ → A * tables) :
  (∀ X t, Inv X t → Pre X t → (Inv X (f t).2 ∧ Post (f t).1 X (f t).2) ∧ opens_none t (f t).2) →
  triple Inv Pre (on_device (change_tables f)) Post.
Proof using.
  intros Hf r [[HI Hp] [Hb Hd]]. unfold on_device, change_tables, focus. cbn. destruct (Hf _ _ HI Hp) as [HIP [He Hs]].
  destruct (f (fd_tables (rq_device r))) as [a t]. split; [exact HIP|]. split; [done|]. by eapply opened_sub.
Qed.
Lemma quiet_bind {A B} Inv Pre (m : M req A) (k : A → M req B) P Post :
  quiet m P → (∀ a, P a → triple Inv Pre (k a) Post) → triple Inv Pre (m ≫= k) Post.
Proof using.
  intros Hm Hk. eapply triple_bind; [apply Hm|]. intros a r [[HI [Hp Hpre]] Hb]. apply Hk; [done|]. by split.
Qed.
Lemma quiet_end {A} Inv Pre (m : M req A) P (Post : A → know) :
  quiet m P → (∀ a X t, Inv X t → Pre X t → Post a X t) → triple Inv Pre m Post.
Proof using. intros Hm HP. eapply triple_post; [|apply Hm]. intros a X t HI [_ Hp]. auto. Qed.

(** [on_device] of a sequence is the sequence. *)
Lemma on_device_bind {A B} (m : M dev A) (k : A → M dev B) r :
  on_device (m ≫= k) r = (on_device m ≫= fun a => on_device (k a)) r.
Proof using.
  unfold on_device, focus, mbind, M_bind. destruct (m (rq_device r)) as [[a|e|] d]; [|done|done]. cbn.
  by destruct (k a d).
Qed.
Lemma triple_device_bind {A B} Inv Pre (m : M dev A) (k : A → M dev B) Post :
  triple Inv Pre (on_device m ≫= fun a => on_device (k a)) Post → triple Inv Pre (on_device (m ≫= k)) Post.
Proof using. intros Ht r Hr. rewrite on_device_bind. by apply Ht. Qed.

Lemma quiet_weaken {A} (m : M req A) (P Q : A → Prop) : (∀ a, P a → Q a) → quiet m P → quiet m Q.
Proof using.
  intros HPQ Hm Inv Pre. eapply triple_post; [|apply Hm]. intros a X t _ [? ?]. split; auto.
Qed.
Lemma quiet_seq {A B} (m : M req A) (k : A → M req B) P Q :
  quiet m P → (∀ a, P a → quiet (k a) Q) → quiet (m ≫= k) Q.
Proof using. intros Hm Hk Inv Pre. eapply quiet_bind; [exact Hm|]. intros a Ha. by apply Hk. Qed.
Lemma quiet_device_seq {A B} (m : M dev A) (k : A → M dev B) P Q :
  quiet (on_device m) P → (∀ a, P a → quiet (on_device (k a)) Q) → quiet (on_device (m ≫= k)) Q.
Proof using. intros Hm Hk Inv Pre. apply triple_device_bind. eapply quiet_bind; [exact Hm|]. intros a Ha. by apply Hk. Qed.
Lemma quiet_ret {A} (a : A) : quiet (mret a) (fun b => b = a).
Proof using. intros Inv Pre. by apply triple_ret. Qed.
Lemma quiet_device_ret {A} (a : A) : quiet (on_device (mret a)) (fun b => b = a).
Proof using. intros Inv Pre r [[HI Hp] [Hb Hd]]. unfold on_device, focus. cbn. known. Qed.
Lemma quiet_ask {A} (f : @tables N H _ _ → outcome A) :
  (∀ t, f t ≠ Loops) → quiet (on_device (ask_tables f)) (fun _ => True).
Proof using.
  intros Hf Inv Pre. eapply triple_post; [|by apply triple_ask]. intros a X t _ [_ Hp]. by split.
Qed.

Lemma of_option_ends {A} e (o : option A) : of_option e o ≠ Loops.
Proof using. by destruct o. Qed.
Lemma of_option_done {A} e (o : option A) a : of_option e o = Done a → o = Some a.
Proof using. destruct o; [by intros [= ->]|done]. Qed.

Lemma quiet_method {A} (m : option A) : quiet (method m) (fun f => m = Some f).
Proof using. eapply quiet_weaken; [|apply quiet_lift, of_option_ends]. intros a. apply of_option_done. Qed.
Lemma quiet_deref (node : option Z) : quiet (deref node) (fun id => node = Some id).
Proof using. eapply quiet_weaken; [|apply quiet_lift, of_option_ends]. intros a. apply of_option_done. Qed.
Lemma quiet_struct t : quiet (struct t) (fun _ => True).
Proof using. apply quiet_body. auto with js. Qed.
Lemma quiet_cstring : quiet cstring (fun _ => True).
Proof using. apply quiet_body. auto with js. Qed.
Lemma quiet_name : quiet name (fun _ => True).
Proof using.
  eapply quiet_seq; [apply quiet_cstring|]. intros s _.
  eapply quiet_weaken; [|apply quiet_lift, validate_name_ends]. done.
Qed.
Lemma quiet_record_at id : quiet (on_device (record_at id)) (fun _ => True).
Proof using. apply quiet_ask. intros t. apply of_option_ends. Qed.
Lemma quiet_node_at id : quiet (on_device (node_at id)) (fun _ => True).
Proof using.
  eapply quiet_device_seq; [apply quiet_record_at|]. intros r _.
  eapply quiet_weaken; [|apply quiet_device_ret]. done.
Qed.
Lemma quiet_device_deref node : quiet (on_device (deref node)) (fun id => node = Some id).
Proof using.
  intros Inv Pre r [[HI Hp] [Hb Hd]]. unfold on_device, focus, deref, lift. destruct node; cbn; [known|done].
Qed.
Lemma quiet_node_of_request node : quiet (on_device (node_of_request node)) (fun _ => True).
Proof using. eapply quiet_device_seq; [apply quiet_device_deref|]. intros id _. apply quiet_node_at. Qed.
Lemma find_handle_ends fh d node (t : @tables N H _ _) : find_handle fh d node t ≠ Loops.
Proof using. unfold find_handle. destruct (get_handle fh t); [|done]. by case_match. Qed.
Lemma quiet_flagged flags flag fh node : quiet (on_device (flagged_handle flags flag fh node)) (fun _ => True).
Proof using.
  unfold flagged_handle. destruct (negb _); [|eapply quiet_weaken; [|apply quiet_device_ret]; done].
  eapply quiet_device_seq; [apply quiet_ask|].
  - intros t. apply find_handle_ends.
  - intros h _. eapply quiet_weaken; [|apply quiet_device_ret]. done.
Qed.

(** * The invariant *)
Context (Hends : host_ends).
Context (t0 : @tables N H _ _).
Definition sane : know := fun _ t => tables_ok t ∧ settled (fun _ => False) t ∧ extends t0 t.
Definition live (id : Z) : know := fun _ t => id ∈ tb_live t.
Definition opt_live (node : option Z) : know := fun _ t => ∀ id, node = Some id → id ∈ tb_live t.

Lemma find_record_ends id (t : @tables N H _ _) : find_record id t ≠ Loops.
Proof using. unfold find_record. by case_decide. Qed.

Lemma find_handle_directory fh d n (t : @tables N H _ _) h : find_handle fh (Some d) n t = Done h → hr_directory h = d.
Proof using.
  unfold find_handle. destruct (get_handle fh t) as [h'|]; [|done].
  destruct (hr_directory h') eqn:E, d, (match n with Some _ => _ | None => _ end); cbn; try done; by intros [= <-].
Qed.
(** What the backend has of an open directory that the tables have. *)
Lemma opened_handle fh h n (t : @tables N H _ _) w : opened_ok t w → get_handle fh t = Some h → hr_directory h = true →
  node_of t (hr_node h) = Some n → opened w n (hr_handle h).
Proof using.
  intros [_ Ho] Hg%get_handle_elem Hd Hn. rewrite Forall_forall in Ho.
  destruct (Ho _ Hg Hd) as (n'&Hn'&Hop). cbn in *. congruence.
Qed.
Definition holds_handle (fh : Z) (h : @handle_record H) : know := fun _ t => get_handle fh t = Some h ∧ hr_node h ∈ tb_live t.
Lemma triple_handle fh d node Pre :
  triple sane Pre (on_device (ask_tables (find_handle fh d node))) (fun h => both (holds_handle fh h) Pre).
Proof using.
  eapply triple_post; [|apply triple_ask, find_handle_ends]. intros h X t (Hok&Hs&_) [Hf Hp].
  split; [|done]. unfold find_handle in Hf. destruct (get_handle fh t) as [h'|] eqn:Eg; [|done].
  destruct (_ || _)%bool; [done|]. injection Hf as <-. split; [done|].
  apply get_handle_elem in Eg. destruct Hs as [_ Hh _]. rewrite Forall_forall in Hh. by apply (Hh _ Eg).
Qed.
Lemma triple_record id Pre :
  triple sane Pre (on_device (ask_tables (find_record id))) (fun a => both (fun X t => a = id ∧ live id X t) Pre).
Proof using.
  eapply triple_post; [|apply triple_ask, find_record_ends]. intros a X t _ [Hf Hp]. split; [|done].
  unfold find_record in Hf. case_decide; [|done]. by injection Hf as <-.
Qed.

(** The operations on the tables. *)
Lemma handles_collect id (t : @tables N H _ _) : tb_handles (collect_record id t) = tb_handles t.
Proof using. apply (co_handles _ _ (collect_collected _ _ _)). Qed.
Lemma handles_forget id n (t : @tables N H _ _) : tb_handles (forget id n t) = tb_handles t.
Proof using. unfold forget. by rewrite handles_collect. Qed.
Lemma handles_entry n p (t : @tables N H _ _) : tb_handles (record_for_node n p t).2 = tb_handles t.
Proof using. unfold record_for_node. by destruct (tb_by_node t !! n). Qed.
Lemma handles_look n p (t : @tables N H _ _) : tb_handles (look n p t).2 = tb_handles t.
Proof using. unfold look. rewrite <- (handles_entry n p t). by destruct (record_for_node n p t). Qed.
Lemma handles_after_remove fh h (t : @tables N H _ _) :
  tb_handles (remove_handle fh h t) = filter (fun e => e.1 ≠ fh) (tb_handles t).
Proof using. unfold remove_handle. by rewrite handles_collect. Qed.
Lemma handles_removed fh h (t : @tables N H _ _) e : e ∈ tb_handles (remove_handle fh h t) → e ∈ tb_handles t.
Proof using. rewrite handles_after_remove. by intros [_ ?]%list_elem_of_filter. Qed.
Lemma handles_reparent id p (t : @tables N H _ _) : tb_handles (reparent id p t) = tb_handles t.
Proof using. unfold reparent. destruct (tb_heap t !! id); [|done]. destruct (_ && _)%bool; [|done]. by rewrite handles_collect. Qed.
Lemma handles_collect_all ids (t : @tables N H _ _) : tb_handles (collect_all ids t) = tb_handles t.
Proof using.
  revert t. induction ids as [|id ids IH]; intros t; [done|].
  change (collect_all (id :: ids) t) with (collect_all ids (collect_record id t)). by rewrite IH, handles_collect.
Qed.
Lemma live_heap id (t : @tables N H _ _) : tables_ok t → id ∈ tb_live t → is_Some (tb_heap t !! id).
Proof using. intros Ht. apply (tk_live _ _ _ Ht). Qed.
Lemma triple_look n p :
  triple sane (live p) (on_device (change_tables (look n p))) (fun id => live id).
Proof using.
  apply triple_change. intros X t (Hok&Hs&He) Hp. pose proof (live_heap p t Hok Hp) as Hsome.
  destruct (look_keeps n p t Hok Hsome) as (A&B&C&D).
  destruct (record_for_node_ok n p t Hok Hsome) as (_&Hl&_).
  split; [|by apply opens_same; [|apply handles_look]]. split; [split_and!; [done|by apply D|by etrans]|]. unfold live, look in *.
  by destruct (record_for_node n p t).
Qed.
Lemma triple_forget id n Pre :
  triple sane Pre (on_device (set_tables (forget id n))) (fun _ => anything).
Proof using.
  apply triple_set. intros X t (Hok&Hs&He) _. destruct (forget_keeps id n t Hok) as [A B C].
  split; [|by apply opens_same; [|apply handles_forget]]. split; [|done]. split_and!; [done|by apply C|by etrans].
Qed.
(** A handle of a directory is added for what [opendir] gave. *)
Lemma adds_handle id h d r : knows (both sane (live id)) r →
  (d = true → ∃ n, node_of (fd_tables (rq_device r)) id = Some n ∧ opened (fd_host (rq_device r)) n h) →
  ∃ fh r', on_device (change_tables (add_handle id h d)) r = (Done fh, r') ∧ knows (both sane anything) r'.
Proof using.
  intros [[(Hok&Hs&He) Hl] [Hb [Hg Ho]]] Hop. pose proof (live_heap id _ Hok Hl) as Hsome.
  destruct (add_handle_keeps id h d _ Hok Hsome) as (A&B&C). eexists _, _. split; [done|].
  split; [split; [|done]; split_and!; [done|by apply C|by etrans]|]. split; [done|]. split; [done|].
  apply Forall_app. split; [|apply Forall_singleton].
  - eapply Forall_impl; [exact Ho|]. intros e Hx Hd. destruct (Hx Hd) as (n&Hn&?). exists n. auto.
  - cbn. intros Hd. destruct (Hop Hd) as (n&Hn&?). exists n. auto.
Qed.
Lemma triple_remove fh h :
  triple sane (holds_handle fh h) (on_device (set_tables (remove_handle fh h))) (fun _ => anything).
Proof using.
  apply triple_set. intros X t (Hok&Hs&He) [Hg _]. destruct (remove_handle_keeps fh h t Hok Hg) as [A B C].
  split; [|split; [done|apply handles_removed]]. split; [|done]. split_and!; [done|by apply C|by etrans].
Qed.
Lemma triple_reparent id new :
  id ≠ ROOT → triple sane (live new) (on_device (set_tables (reparent id new))) (fun _ => anything).
Proof using.
  intros Hroot. apply triple_set. intros X t (Hok&Hs&He) Hl. pose proof (live_heap new t Hok Hl) as Hsome.
  destruct (reparent_keeps id new t Hok Hroot Hsome) as (A&B&C).
  split; [|by apply opens_same; [|apply handles_reparent]]. split; [|done]. split_and!; [done|by apply C|by etrans].
Qed.

(** * The opcodes *)
Lemma quiet_device_lift {A} (o : outcome A) : o ≠ Loops → quiet (on_device (lift o)) (fun a => o = Done a).
Proof using. intros Ho Inv Pre r [[HI Hp] [Hb Hd]]. unfold on_device, focus. cbn. destruct o; [known|done|done]. Qed.
Lemma quiet_validate s : quiet (lift (validate_name s)) (fun _ => True).
Proof using. eapply quiet_weaken; [|apply quiet_lift, validate_name_ends]. done. Qed.
Lemma quiet_device_validate s : quiet (on_device (lift (validate_name s))) (fun _ => True).
Proof using. eapply quiet_weaken; [|apply quiet_device_lift, validate_name_ends]. done. Qed.
Lemma quiet_device_option {A} e (o : option A) : quiet (on_device (lift (of_option e o))) (fun a => o = Some a).
Proof using. eapply quiet_weaken; [|apply quiet_device_lift, of_option_ends]. intros a. apply of_option_done. Qed.

Hint Resolve quiet_validate quiet_device_validate quiet_device_option : quiet.
Hint Resolve quiet_method quiet_struct quiet_cstring quiet_name quiet_record_at quiet_node_at quiet_deref
  quiet_device_deref quiet_node_of_request quiet_flagged : quiet.
Hint Resolve keeps_alloc keeps_alloc_set keeps_emit keeps_write_entry keeps_write_attr_out : quiet.
Hint Extern 1 (serving _) => first
  [ eapply (he_lookup Hends)
  | eapply (he_getattr Hends)
  | solve [eapply he_setattr; eassumption]
  | solve [eapply he_readlink; eassumption]
  | solve [eapply he_symlink; eassumption]
  | solve [eapply he_mkdir; eassumption]
  | solve [eapply he_unlink; eassumption]
  | solve [eapply he_rmdir; eassumption]
  | solve [eapply he_rename; eassumption]
  | solve [eapply he_open; eassumption]
  | solve [eapply he_create; eassumption]
  | solve [eapply he_read; eassumption]
  | solve [eapply he_write; eassumption]
  | solve [eapply he_flush; eassumption]
  | solve [eapply he_fsync; eassumption]
  | solve [eapply he_release; eassumption]
  | solve [eapply he_opendir; eassumption]
  | solve [eapply he_releasedir; eassumption]
  | solve [eapply he_access; eassumption]
  | solve [eapply he_statfs; eassumption]
  | solve [eapply he_destroy; eassumption] ] : quiet.
Hint Extern 2 (quiet (on_device (on_host _)) _) => eapply quiet_host : quiet.
Hint Extern 2 (quiet (on_payload _) _) => eapply quiet_payload : quiet.
Hint Extern 2 (quiet (on_body _) _) => eapply quiet_body; auto with js : quiet.

Ltac qstep := eapply quiet_bind; [solve [eauto with quiet]|intros ? ?].
Ltac qdone := solve [eapply quiet_end; [solve [eauto with quiet]|done]].

Section opcodes.
Context (validity : Z) (header : value) (cap : Z) (node : option Z).
Abbreviation serves m := (triple sane (opt_live node) m (fun _ => anything)).

Lemma serves_entry id n Pre :
  room = true → triple sane Pre (reply_entry filesystem validity id n) (fun _ => Pre).
Proof using Hends.
  intros Hr. unfold reply_entry. qstep. qdone.
Qed.
Lemma serves_made n : room = true → serves (made filesystem validity node n).
Proof using Hends.
  intros Hr. unfold made. eapply quiet_bind; [apply quiet_deref|]. intros p Hp.
  eapply triple_bind; [eapply triple_pre; [|apply triple_look]|].
  - intros X t _ Hl. by apply Hl.
  - intros id. eapply triple_post; [|by apply serves_entry]. done.
Qed.
(** The reply of OPEN, OPENDIR and CREATE. *)
Lemma open_reply_at id h d r : room = true → knows (both sane (live id)) r →
  (d = true → ∃ n, node_of (fd_tables (rq_device r)) id = Some n ∧ opened (fd_host (rq_device r)) n h) →
  match reply_open id h d r with
  | (Done _, r') => knows (both sane anything) r'
  | (Raise _, r') => sane (rq_transient r') (fd_tables (rq_device r')) ∧ dirs_kept r'
  | (Loops, _) => False
  end.
Proof using.
  intros Hr [[Hs Hl] [[Hb1 Hb2] Hd]] Hop. unfold reply_open. pose proof (keeps_alloc FuseOpenOut room Hr (rq_payload r) Hb1 Hb2) as Ha.
  unfold mbind at 1, M_bind at 1. unfold on_payload at 1, focus at 1. destruct (alloc FuseOpenOut (rq_payload r)) as [[o|e|] b]; [|done|done].
  destruct Ha as (_&Hb). destruct (adds_handle id h d (r <| rq_payload := b |>)) as (fh&r2&E&Hr2);
    [split; [by split|by split]|exact Hop|].
  erewrite M_bind_done by exact E. by apply (quiet_end sane anything _ (fun _ => True)); [apply quiet_payload, keeps_alloc_set|..].
Qed.
Lemma serves_open_reply id h : room = true → triple sane (live id) (reply_open id h false) (fun _ => anything).
Proof using. intros Hr r Hk. by apply open_reply_at. Qed.
(** The node that a request is for. *)
Lemma triple_node_of_request Pre :
  triple sane Pre (on_device (node_of_request node)) (fun n => both (fun _ t => ∃ id, node = Some id ∧ node_of t id = Some n) Pre).
Proof using.
  intros r [[HI Hp] [Hb Hd]]. unfold on_device, focus, node_of_request, deref, lift, node_at, record_at, ask_tables, mbind, M_bind.
  destruct node as [id|]; cbn; [|done]. destruct (tb_heap _ !! id) as [x|] eqn:E; cbn; [|done].
  split; [|done]. split; [done|]. split; [|done]. exists id. split; [done|]. unfold node_of. cbn in *. by rewrite E.
Qed.

Lemma serves_init : room = true → serves FUSE_INIT.
Proof using Hends.
  intros Hr. unfold FUSE_INIT. qstep. apply triple_if.
  - apply triple_if; [apply triple_throw|]. qstep. qstep. by apply triple_ret.
  - qstep. by apply triple_ret.
Qed.
Lemma serves_lookup : room = true → serves (FUSE_LOOKUP filesystem validity node).
Proof using Hends.
  intros Hr. unfold FUSE_LOOKUP. qstep. apply (triple_bind _ _ _ _ (fun id => live id)).
  - unfold lookup. do 4 (apply triple_device_bind; qstep).
    apply triple_device_bind. eapply quiet_bind; [apply quiet_device_deref|]. intros p Hp.
    eapply triple_pre; [|apply triple_look]. intros X t _ Hl. by apply Hl.
  - intros id. qstep. eapply triple_post; [|by apply serves_entry]. done.
Qed.
Lemma serves_forget : serves (FUSE_FORGET node).
Proof using. unfold FUSE_FORGET. do 2 qstep. apply triple_forget. Qed.
Lemma serves_getattr : room = true → serves (FUSE_GETATTR filesystem validity node).
Proof using Hends. intros Hr. unfold FUSE_GETATTR. do 5 qstep. qdone. Qed.
Lemma serves_setattr : room = true → serves (FUSE_SETATTR filesystem validity node).
Proof using Hends. intros Hr. unfold FUSE_SETATTR. do 6 qstep. qdone. Qed.
Lemma serves_readlink : room = true → serves (FUSE_READLINK filesystem node).
Proof using Hends.
  intros Hr. unfold FUSE_READLINK. do 3 qstep. eapply quiet_end; [apply quiet_payload, keeps_append|done]. by left.
Qed.
Lemma serves_symlink : room = true → serves (FUSE_SYMLINK filesystem validity header node).
Proof using Hends. intros Hr. unfold FUSE_SYMLINK. do 5 qstep. by apply serves_made. Qed.
Lemma serves_mkdir : room = true → serves (FUSE_MKDIR filesystem validity header node).
Proof using Hends. intros Hr. unfold FUSE_MKDIR. do 5 qstep. by apply serves_made. Qed.
Lemma serves_unlink m :
  (∀ f n s, m = Some f → serving (f n s)) → serves (FUSE_UNLINK node m).
Proof using Hends.
  intros Hm. unfold FUSE_UNLINK. do 3 qstep. eapply quiet_end; [eapply quiet_host; eauto|done].
Qed.
Lemma serves_open d : room = true → serves (FUSE_OPEN filesystem node d).
Proof using Hends.
  intros Hr. unfold FUSE_OPEN. eapply quiet_bind; [apply quiet_method|]. intros f Hf. qstep.
  eapply triple_bind; [apply triple_node_of_request|]. intros n r Hk.
  assert (Hserve : serving (f n a.["flags"])) by (destruct d; [by eapply he_opendir|by eapply he_open]).
  pose proof (triple_host_at _ _ _ (fun r Hr => Hserve _ (proj1 (proj2 (proj2 Hr)))) r Hk) as Hh. assert (Hg : good (fd_host (rq_device r))) by apply Hk. unfold mbind at 1, M_bind at 1.
  assert (Ho : ∀ h r', on_device (on_host (f n a.["flags"])) r = (Done h, r') → d = true → opened (fd_host (rq_device r')) n h).
  { intros h r'. unfold on_device, on_host, focus. destruct (f n a.["flags"] (fd_host (rq_device r))) as [[h0|e|] w'] eqn:E; [|done|done].
    intros [= <- <-] ->. by eapply he_opened. }
  destruct (on_device (on_host (f n a.["flags"])) r) as [[h|e|] r']; [|exact Hh|done]. specialize (Ho h r' eq_refl).
  destruct Hh as [[Hs [(id&->&Hn) Hl]] Hb]. cbn [deref lift of_option]. erewrite M_bind_done by done.
  apply open_reply_at; [done|split; [split; [done|by apply Hl]|done]|]. intros Hd. exists n. auto.
Qed.
Lemma serves_create : room = true → serves (FUSE_CREATE filesystem validity header node).
Proof using Hends.
  intros Hr. unfold FUSE_CREATE. do 5 qstep. eapply quiet_bind; [apply quiet_deref|]. intros p Hp.
  eapply triple_bind; [eapply triple_pre; [|apply triple_look]|].
  - intros X t _ Hl. by apply Hl.
  - intros id. eapply triple_bind; [by apply serves_entry|]. intros u. by apply serves_open_reply.
Qed.
Lemma serves_read : (room = true ∨ cap ≤ 16) → serves (FUSE_READ filesystem cap node).
Proof using Hends.
  intros Hr. unfold FUSE_READ. do 2 qstep. eapply triple_bind; [apply triple_handle|]. intros h.
  do 2 qstep. match goal with |- context [if ?c then _ else _] => destruct c eqn:E end; [apply triple_throw|]. eapply quiet_end; [|done].
  apply quiet_payload, keeps_append. destruct Hr as [|Hr]; [by left|right].
  change (ty_size FuseOutHeader) with 16 in E. zbool. apply zlen_0_nil.
  match goal with |- zlen ?x = 0 => pose proof (zlen_nonneg x) end. lia.
Qed.
Lemma serves_write : room = true → serves (FUSE_WRITE filesystem node).
Proof using Hends.
  intros Hr. unfold FUSE_WRITE. do 3 qstep. eapply triple_bind; [apply triple_handle|]. intros h.
  qstep. eapply quiet_bind; [eauto with quiet|]. intros [w|] _; [|apply triple_throw]. apply triple_if; [apply triple_throw|].
  qstep. by apply triple_ret.
Qed.
Lemma serves_flush : serves (FUSE_FLUSH filesystem node).
Proof using Hends.
  unfold FUSE_FLUSH. qstep. eapply triple_bind; [apply triple_handle|]. intros h.
  destruct (fs_flush filesystem) eqn:E; [qstep; qdone|by apply triple_ret].
Qed.
Lemma serves_fsync d : serves (FUSE_FSYNC filesystem node d).
Proof using Hends.
  unfold FUSE_FSYNC. qstep. eapply triple_bind; [apply triple_handle|]. intros h.
  destruct (fs_fsync filesystem) eqn:E; [qstep; qdone|by apply triple_ret].
Qed.
Lemma quiet_release_handle h : quiet (on_device (release_handle filesystem h)) (fun _ => True).
Proof using Hends.
  unfold release_handle. eapply quiet_device_seq; [apply quiet_node_at|]. intros n _.
  destruct (hr_directory h); [destruct (fs_releasedir filesystem) eqn:E|destruct (fs_release filesystem) eqn:E];
    try (by eapply quiet_weaken; [|apply quiet_device_ret]); eauto with quiet.
Qed.
Lemma serves_release d : serves (FUSE_RELEASE filesystem node d).
Proof using Hends.
  unfold FUSE_RELEASE. qstep. eapply triple_bind; [apply triple_handle|]. intros h.
  eapply quiet_bind; [apply quiet_release_handle|]. intros _ _.
  eapply triple_pre; [|apply triple_remove]. by intros X t _ [? _].
Qed.
Lemma serves_statfs : room = true → serves (FUSE_STATFS filesystem node).
Proof using Hends.
  intros Hr. unfold FUSE_STATFS. eapply (quiet_bind _ _ _ _ (fun _ => True)).
  - destruct (fs_statfs filesystem) eqn:E; [|by eapply quiet_weaken; [|apply quiet_device_ret]].
    eapply quiet_device_seq; [apply quiet_node_of_request|]. eauto with quiet.
  - intros s _. qstep. by apply triple_ret.
Qed.
Lemma serves_access : serves (FUSE_ACCESS filesystem node).
Proof using Hends.
  unfold FUSE_ACCESS. qstep. destruct (fs_access filesystem) eqn:E; [qstep; qdone|by apply triple_ret].
Qed.

(** BATCH_FORGET *)
Lemma quiet_repeat {A} n (m : M req A) : quiet m (fun _ => True) → quiet (repeat_m n m) (fun _ => True).
Proof using.
  intros Hm. induction n as [|n IH]; [by eapply quiet_weaken; [|apply quiet_ret]|].
  cbn [repeat_m]. eapply quiet_seq; [exact Hm|]. intros x _. eapply quiet_seq; [exact IH|]. intros xs _.
  by eapply quiet_weaken; [|apply quiet_ret].
Qed.
Lemma quiet_gets {A} (f : dev → A) : quiet (on_device (gets f)) (fun _ => True).
Proof using. intros Inv Pre. eapply triple_post; [|apply triple_gets]. by intros a X t _. Qed.
Lemma forgets_keep (l : list (Z * Z)) X t :
  sane X t → (sane X (foldl (fun t e => forget e.1 e.2 t) t l) ∧ anything X t) ∧ opens_none t (foldl (fun t e => forget e.1 e.2 t) t l).
Proof using.
  revert t. induction l as [|e l IH]; intros t Hs; [by split; [|apply opens_same]|].
  destruct Hs as (Hok&Hs&He). cbn. destruct (forget_keeps e.1 e.2 t Hok) as [A B C].
  destruct (IH (forget e.1 e.2 t)) as [[D _] [E F]]; [split_and!; [done|by apply C|by etrans]|].
  split; [by split|]. split; [by etrans|]. intros h Hh%F. by rewrite handles_forget in Hh.
Qed.
Lemma serves_batch_forget : serves FUSE_BATCH_FORGET.
Proof using.
  unfold FUSE_BATCH_FORGET. qstep. eapply quiet_bind.
  - apply quiet_repeat. eapply quiet_seq; [apply quiet_struct|]. intros one _. apply quiet_gets.
  - intros l _. apply triple_set. intros X t Hs _. exact (forgets_keep (concat l) X t Hs).
Qed.

(** RENAME: the backend never finds the root by a name. *)
Context (root : N) (Hroot : node_of t0 ROOT = Some root).
Context (Hlookup : ∀ p s w n w', good w → fs_lookup filesystem p s w = (Done (Some n), w') → n ≠ root).

Lemma quiet_host_post {A} (m : M W A) (P : A → Prop) :
  serving m → (∀ w a w', good w → m w = (Done a, w') → P a) → quiet (on_device (on_host m)) P.
Proof using.
  intros Hm HP Inv Pre r Hr. pose proof (quiet_host m Hm Inv Pre r Hr) as H1. assert (Hg : good (fd_host (rq_device r))) by apply Hr. revert H1.
  unfold on_device, on_host, focus. specialize (HP (fd_host (rq_device r))).
  destruct (m (fd_host (rq_device r))) as [[a|e|] w]; [|done|done].
  intros [[HI [_ Hp]] Hb]. split; [split; [done|split; [by eapply HP|done]]|done].
Qed.
Lemma triple_gets_post {A} Inv Pre (f : dev → A) :
  triple Inv Pre (on_device (gets f)) (fun a => both (fun _ t => ∃ d, fd_tables d = t ∧ a = f d) Pre).
Proof using. intros r [[HI Hp] Hb]. split; [split; [done|split; [by eexists|done]]|done]. Qed.
Lemma triple_fact {A} Inv (P : Prop) Pre (m : M req A) Post :
  (P → triple Inv Pre m Post) → triple Inv (both (fun _ _ => P) Pre) m Post.
Proof using. intros Hm r [[HI [HP Hp]] Hb]. by apply Hm. Qed.

Lemma serves_rename : serves (FUSE_RENAME filesystem node).
Proof using Hends Hroot Hlookup.
  unfold FUSE_RENAME. do 2 qstep. eapply triple_bind; [apply triple_record|]. intros new.
  do 2 qstep.
  eapply (quiet_bind _ _ _ _ (fun moved => ∀ n, moved = Some n → n ≠ root)).
  { case_decide; [by eapply quiet_weaken; [|apply quiet_ret]; intros ? -> ?|].
    eapply quiet_seq; [apply quiet_node_of_request|]. intros n _. apply quiet_host_post; [eauto with quiet|].
    intros w o w' Hg E m ->. by eapply Hlookup. }
  intros moved Hmoved. eapply triple_bind; [apply triple_gets_post|]. intros id.
  eapply (triple_pre _ _ (both (fun _ _ => id ≠ Some ROOT) (live new))).
  { intros X t (Hok&_&He) [[d [<- Hid]] [[-> Hl] _]]. split; [|done]. intros ->.
    destruct moved as [n|]; [|done]. symmetry in Hid. apply (tk_by_node _ _ _ Hok) in Hid as [_ Hid].
    rewrite (He _ _ Hroot) in Hid. injection Hid as Hid. by apply (Hmoved n). }
  do 3 qstep. destruct id as [id|]; [|by apply triple_ret].
  apply triple_fact. intros Hid. apply triple_reparent. congruence.
Qed.

(** READDIR: while the page is written, the records made for its entries may
    have no other reference. *)
Definition sane_but : know := fun X t => tables_ok t ∧ settled (fun j => j ∈ X) t ∧ extends t0 t.

Lemma triple_entry n dir {A} (k : Z → M req A) Post :
  (∀ id, triple sane_but (live dir) (k id) Post) →
  triple sane_but (live dir)
    (id ← on_device (change_tables (record_for_node n dir));
     modify (fun r => r <| rq_transient := rq_transient r ++ [id] |>) ;; k id) Post.
Proof using.
  intros Hk r [[(Hok&Hs&He) Hl] Hb]. pose proof (live_heap dir _ Hok Hl) as Hsome.
  destruct (record_for_node_keeps n dir _ Hok Hsome) as (A1&B&C&D).
  destruct (record_for_node_ok n dir _ Hok Hsome) as (_&_&_&_&_&Hsub&_).
  specialize (D _ Hl Hs). pose proof (handles_entry n dir (fd_tables (rq_device r))) as Hh. unfold mbind, M_bind, on_device, change_tables, focus, modify. cbn.
  destruct (record_for_node n dir (fd_tables (rq_device r))) as [id t'] eqn:E. cbn in *.
  apply Hk. split; [split; [split_and!|]|split; [apply Hb|]]; cbn.
  - done.
  - eapply settled_mono; [|exact D]. cbn. intros j [Hj| ->]; apply elem_of_app; [by left|right].
    by apply list_elem_of_singleton.
  - by etrans.
  - by apply Hsub.
  - eapply opened_sub; [apply Hb|done|]. intros e. cbn. by rewrite Hh.
Qed.
Lemma serves_entries dir l : triple sane_but (live dir) (collect_entries dir l) (fun _ => live dir).
Proof using.
  induction l as [|[s n] l IH]; cbn [collect_entries]; [by apply triple_ret|].
  apply triple_entry. intros id. qstep. eapply triple_bind; [apply IH|]. intros es. by apply triple_ret.
Qed.

Lemma record_length_min s : 24 ≤ record_length s.
Proof using.
  unfold record_length. change (Z.lnot 7) with (Z.lnot (Z.ones 3)). rewrite <- Z.ldiff_land, Z.ldiff_ones_r by lia.
  rewrite Z.shiftl_mul_pow2, Z.shiftr_div_pow2 by lia. pose proof (zlen_nonneg (utf8_encode s)).
  change (2 ^ 3) with 8. Z.div_mod_to_equations. lia.
Qed.
Lemma keeps_length_read : keeps_buf room (gets b_length) (fun n => 0 ≤ n).
Proof using. intros b [? ?] Hc. split_and!; [lia|by split|done]. Qed.
Lemma land_7_nonneg n : 0 ≤ n &&& 7.
Proof using. apply Z.land_nonneg. right. lia. Qed.

Lemma serves_dirents limit index l Pre :
  (24 ≤ limit → room = true) →
  triple sane_but Pre (write_dirents filesystem limit index l) (fun _ => anything).
Proof using Hends.
  intros Hr. revert index. induction l as [|[s id] l IH]; intros index; cbn [write_dirents]; [by apply triple_ret|].
  eapply quiet_bind; [apply quiet_payload, keeps_length_read|]. cbn beta. intros n Hn.
  destruct (limit <? n + record_length s) eqn:E; [by apply triple_ret|]. zbool.
  assert (room = true) as Hroom by (apply Hr; pose proof (record_length_min s); lia).
  do 3 qstep. eapply quiet_bind; [apply quiet_lift, mode_type_ends|]. intros ft _. qstep.
  eapply quiet_bind; [apply quiet_payload, keeps_append; by left|]. intros _ _.
  eapply quiet_bind; [apply quiet_payload, keeps_length_read|]. cbn beta. intros n' Hn'.
  eapply quiet_bind; [apply quiet_payload, keeps_bump; [apply land_7_nonneg|by left]|]. intros _ _. apply IH.
Qed.

Lemma checked_number_ends v : checked_number v ≠ Loops.
Proof using. unfold checked_number. by case_match. Qed.

Lemma clean_up X t : sane_but X t → sane X (collect_all X t) ∧ opens_none t (collect_all X t).
Proof using.
  intros (Hok&Hs&He). destruct (collect_all_keeps X t Hok) as [A B C].
  split; [|by apply opens_same; [|apply handles_collect_all]]. split_and!; [done| |by etrans].
  apply collect_all_settled; [done|]. eapply settled_mono; [|exact Hs]. auto.
Qed.
(** The page of a directory, and the collection of the records made for it. *)
Lemma serves_page dir {A} (m : M req A) :
  triple sane_but (live dir) m (fun _ => anything) →
  triple sane (live dir) (finally m (fun r => r <| rq_device := rq_device r <| fd_tables :=
    collect_all (rq_transient r) (fd_tables (rq_device r)) |> |>)) (fun _ => anything).
Proof using.
  intros Hm r [[(Hok&Hs&He) Hl] Hb]. unfold finally. specialize (Hm r).
  destruct (m r) as [o r']. assert (Hpre : knows (both sane_but (live dir)) r).
  { split; [split; [split_and!; [done| |done]|done]|done]. by eapply settled_mono; [|exact Hs]. }
  specialize (Hm Hpre). destruct o as [u|e|]; [| |done].
  - destruct Hm as [[[Hsane Hset]%clean_up _] [Hb' Hd']]. split; [by split|]. split; [done|]. by eapply opened_sub; [|apply Hset..].
  - destruct Hm as [[Hsane Hset]%clean_up Hd']. split; [done|]. by eapply opened_sub; [|apply Hset..].
Qed.
(** The directory of a handle that [opendir] gave. *)
Definition open_directory (h : @handle_record H) (n : N) : know := fun _ t =>
  (∃ fh, get_handle fh t = Some h) ∧ hr_directory h = true ∧ node_of t (hr_node h) = Some n ∧ hr_node h ∈ tb_live t.
Lemma triple_directory_handle fh Pre :
  triple sane Pre (on_device (ask_tables (find_handle fh (Some true) node)))
    (fun h => both (fun _ t => (∃ fh, get_handle fh t = Some h) ∧ hr_directory h = true) (live (hr_node h))).
Proof using.
  intros r Hr. pose proof (triple_handle fh (Some true) node Pre r Hr) as Ht.
  pose proof (find_handle_directory fh true node (fd_tables (rq_device r))) as Hd. revert Ht Hd.
  unfold on_device, focus, ask_tables. cbn. destruct (find_handle fh (Some true) node _) as [h|e|]; [|done|done].
  intros [[Hs [[Hg Hl] _]] Hb] Hd. split; [|done]. split; [done|]. split; [|done]. split; [by eexists|by apply Hd].
Qed.
Lemma triple_directory_record h :
  triple sane (both (fun _ t => (∃ fh, get_handle fh t = Some h) ∧ hr_directory h = true) (live (hr_node h)))
    (on_device (record_at (hr_node h))) (fun d => open_directory h (nr_node d)).
Proof using.
  eapply triple_post; [|apply triple_ask; intros; apply of_option_ends].
  intros d X t _ [Hd%of_option_done [[Hg Hdir] Hl]]. split_and!; try done. unfold node_of. by rewrite Hd.
Qed.
Lemma triple_listing f h n :
  fs_readdir filesystem = Some f → triple sane (open_directory h n) (on_device (on_host (f n (hr_handle h)))) (fun _ => live (hr_node h)).
Proof using Hends.
  intros Hf. eapply triple_post; [|apply triple_host_at].
  - by intros l X t _ (_&_&_&?).
  - intros r [[_ ([fh Hg]&Hdir&Hn&_)] [_ Ho]]. eapply he_readdir; [exact Hends|apply Ho|done|]. by eapply opened_handle.
Qed.
Lemma serves_readdir : (16 < cap → room = true) → serves (FUSE_READDIR filesystem cap node).
Proof using Hends.
  intros Hr. unfold FUSE_READDIR. eapply quiet_bind; [apply quiet_method|]. intros f Hf. qstep.
  eapply quiet_bind; [apply quiet_lift, checked_number_ends|]. intros offset _.
  eapply triple_bind; [apply triple_directory_handle|]. intros h.
  eapply triple_bind; [apply triple_directory_record|]. intros d. cbn beta.
  eapply triple_bind; [by apply triple_listing|]. intros l. apply serves_page.
  eapply triple_bind; [apply serves_entries|]. intros es. apply serves_dirents.
  change (ty_size FuseOutHeader) with 16. intros Hle. apply Hr. lia.
Qed.

(** DESTROY *)
Lemma filter_other fh (l : list (Z * @handle_record H)) :
  fh ∉ l.*1 → filter (fun e => e.1 ≠ fh) l = l.
Proof using.
  induction l as [|[k x] l IH]; [done|]. rewrite fmap_cons. intros [Hk Hn]%not_elem_of_cons.
  cbn in Hk. rewrite filter_cons_True by (cbn; congruence). by rewrite IH.
Qed.

Lemma triple_attempt Inv Pre (m : M dev unit) e :
  quiet (on_device m) (fun _ => True) →
  triple Inv Pre (on_device (attempt m e)) (fun _ => Pre).
Proof using.
  intros Hm r Hr. assert (Hpre : knows (both (both Inv Pre) anything) r) by (split; [split; [apply Hr|done]|apply Hr]).
  specialize (Hm (both Inv Pre) anything r Hpre). destruct Hr as [_ [Hb _]]. unfold on_device, focus, attempt in *.
  destruct (m (rq_device r)) as [[a|x|] d]; [| |done].
  - destruct Hm as [[HIP _] Hb']. by split.
  - destruct Hm as [HIP Hd]. split; [exact HIP|]. by split.
Qed.

Lemma triple_release_all l e :
  triple sane (fun _ t => tb_handles t = l) (on_device (release_all filesystem l e)) (fun _ => anything).
Proof using Hends.
  revert e. induction l as [|[fh h] l IH]; intros e; cbn [release_all].
  { eapply quiet_end; [apply quiet_device_ret|done]. }
  apply triple_device_bind. eapply triple_bind; [apply triple_attempt, quiet_release_handle|]. intros e'.
  apply triple_device_bind. eapply triple_bind; [|intros u; apply IH].
  apply triple_set. intros X t (Hok&Hs&He) Hh. pose proof Hok as [_ _ _ _ _ _ [Hnd _]]. rewrite Hh in Hnd.
  assert (Hg : get_handle fh t = Some h).
  { apply elem_get_handle; rewrite Hh; [done|by apply elem_of_cons; left]. }
  destruct (remove_handle_keeps fh h t Hok Hg) as [A B C].
  split; [|split; [done|apply handles_removed]]. split; [split_and!; [done|by apply C|by etrans]|].
  rewrite handles_after_remove, Hh. cbn in Hnd. apply NoDup_cons in Hnd as [Hn _].
  rewrite filter_cons_False by (cbn; congruence). by apply filter_other.
Qed.

Lemma serves_finalize Pre : triple sane Pre (on_device (finalize filesystem)) (fun _ => anything).
Proof using Hends.
  intros r [[HI Hp] Hb].
  set (m := release_all filesystem (tb_handles (fd_tables (rq_device r))) None ≫= fun e =>
         attempt (match fs_destroy filesystem with Some f => on_host f | None => mret tt end) e).
  assert (Ht : triple sane (fun _ t => tb_handles t = tb_handles (fd_tables (rq_device r))) (on_device m)
                 (fun _ => anything)).
  { apply triple_device_bind. eapply triple_bind; [apply triple_release_all|]. intros e.
    apply triple_attempt. destruct (fs_destroy filesystem) eqn:E; [eauto with quiet|].
    by eapply quiet_weaken; [|apply quiet_device_ret]. }
  unfold on_device, focus, finalize. destruct (fd_final (rq_device r)) as [[e|]|]; [split; [done|apply Hb]|by split|].
  fold m. specialize (Ht r). unfold on_device, focus in Ht.
  destruct (m (rq_device r)) as [o d]. specialize (Ht ltac:(by split)).
  destruct o as [[e|]|e|]; [split; apply Ht|by split; [split; [apply Ht|]|apply Ht]|done|done].
Qed.

(** ** Every opcode *)
Lemma serves_dispatch opcode :
  minimum_response_capacity opcode ≤ cap → (16 < cap → room = true) →
  (opcode = FuseOpcode.READLINK → 16 < cap) →
  serves (dispatch filesystem validity header cap node opcode).2.
Proof using Hends Hroot Hlookup.
  intros Hmin Hroom Hlink. unfold dispatch.
  repeat match goal with
  | |- context [if opcode =? ?c then _ else _] =>
      destruct (Z.eqb_spec opcode c) as [->|_]; [vm_compute (minimum_response_capacity _) in Hmin|]
  end; cbn [snd].
  all: try (assert (room = true) as Hr by (apply Hroom; lia)).
  all: lazymatch goal with
  | |- triple _ _ FUSE_INIT _ => by apply serves_init
  | |- triple _ _ (FUSE_LOOKUP _ _ _) _ => by apply serves_lookup
  | |- triple _ _ (FUSE_FORGET _) _ => apply serves_forget
  | |- triple _ _ FUSE_BATCH_FORGET _ => apply serves_batch_forget
  | |- triple _ _ (FUSE_GETATTR _ _ _) _ => by apply serves_getattr
  | |- triple _ _ (FUSE_SETATTR _ _ _) _ => by apply serves_setattr
  | |- triple _ _ (FUSE_READLINK _ _) _ => apply serves_readlink, Hroom, Hlink; reflexivity
  | |- triple _ _ (FUSE_SYMLINK _ _ _ _) _ => by apply serves_symlink
  | |- triple _ _ (FUSE_MKDIR _ _ _ _) _ => by apply serves_mkdir
  | |- triple _ _ (FUSE_UNLINK _ (fs_unlink _)) _ => apply serves_unlink; intros; by eapply he_unlink
  | |- triple _ _ (FUSE_UNLINK _ (fs_rmdir _)) _ => apply serves_unlink; intros; by eapply he_rmdir
  | |- triple _ _ (FUSE_RENAME _ _) _ => apply serves_rename
  | |- triple _ _ (FUSE_OPEN _ _ _) _ => by apply serves_open
  | |- triple _ _ (FUSE_CREATE _ _ _ _) _ => by apply serves_create
  | |- triple _ _ (FUSE_READ _ _ _) _ =>
      apply serves_read; destruct (decide (16 < cap)); [left; by apply Hroom|right; lia]
  | |- triple _ _ (FUSE_WRITE _ _) _ => by apply serves_write
  | |- triple _ _ (FUSE_FLUSH _ _) _ => apply serves_flush
  | |- triple _ _ (FUSE_FSYNC _ _ _) _ => apply serves_fsync
  | |- triple _ _ (FUSE_RELEASE _ _ _) _ => apply serves_release
  | |- triple _ _ (FUSE_READDIR _ _ _) _ => by apply serves_readdir
  | |- triple _ _ (FUSE_STATFS _ _) _ => by apply serves_statfs
  | |- triple _ _ (FUSE_ACCESS _ _) _ => apply serves_access
  | |- triple _ _ (mret _) _ => by apply triple_ret
  | |- triple _ _ (throw _) _ => apply triple_throw
  | |- triple _ _ (on_device _) _ => apply serves_finalize
  end.
Qed.
End opcodes.
End requests.
