(* ===== verification/FuseReply.v ===== *)
(** How a virtio-fs device answers a chain: the reply's bytes, where they are
    put, and that every chain is released once. *)
From S2P Require Export FuseOk.

(** * The bytes of a reply *)
Definition u32 : scalar := Sc 4 false false true.
Definition i32 : scalar := Sc 4 true false true.
Definition u64 : scalar := Sc 8 false true true.

(** [struct fuse_out_header] and the payload. *)
Definition fuse_reply (error unique : Z) (payload : list Z) : list Z :=
  sc_encode u32 (16 + zlen payload) ++ sc_encode i32 error ++ sc_encode u64 unique ++ payload.

Lemma zlen_fuse_reply error unique payload : zlen (fuse_reply error unique payload) = 16 + zlen payload.
Proof. unfold fuse_reply, zlen. rewrite !length_app, !length_sc_encode. cbn. lia. Qed.

Lemma sc_encode_wrap s z z' : z mod 2 ^ sc_bits s = z' mod 2 ^ sc_bits s → sc_encode s z = sc_encode s z'.
Proof. unfold sc_encode. by intros ->. Qed.

(** The assignment of the header's fields wraps them to their width. *)
Lemma header_wrap b o len error unique len' error' unique' :
  len mod 2 ^ 32 = len' mod 2 ^ 32 → error mod 2 ^ 32 = error' mod 2 ^ 32 →
  unique mod 2 ^ 64 = unique' mod 2 ^ 64 →
  alloc_set FuseOutHeader o (Obj [("len", Num len); ("error", Num error); ("unique", Num unique)]) b =
  alloc_set FuseOutHeader o (Obj [("len", Num len'); ("error", Num error'); ("unique", Num unique')]) b.
Proof.
  intros E1 E2 E3. unfold alloc_set, mbind, M_bind, get_state. cbn [lift]. unfold lift.
  assert (ty_set FuseOutHeader (dv_of (b_array b)) o (Obj [("len", Num len); ("error", Num error); ("unique", Num unique)]) =
    ty_set FuseOutHeader (dv_of (b_array b)) o (Obj [("len", Num len'); ("error", Num error'); ("unique", Num unique')])) as ->; [|done].
  unfold FuseOutHeader, U32LE, I32LE, U64LE. cbn [ty_set]. destruct (narrow _ o); [|done..].
  cbn [mbind outcome_bind set_fields Bytes.assoc String.eqb Ascii.eqb Bool.eqb ty_set sc_set].
  rewrite (sc_encode_wrap _ len len'), (sc_encode_wrap _ error error'), (sc_encode_wrap _ unique unique') by done.
  done.
Qed.

Lemma to_i32_wrap z : z mod 2 ^ 32 = to_i32 z mod 2 ^ 32.
Proof. unfold to_i32. rewrite Zminus_mod_idemp_l. f_equal. lia. Qed.
Lemma to_i32_range z : - 2 ^ 31 ≤ to_i32 z < 2 ^ 31.
Proof. unfold to_i32. pose proof (Z.mod_pos_bound (z + 2 ^ 31) (2 ^ 32)). lia. Qed.

Lemma typed_i32le z : - 2 ^ 31 ≤ z < 2 ^ 31 → typed I32LE (Num z) = true.
Proof.
  intros Hz. cbn [typed I32LE]. apply andb_true_iff. split; [done|]. unfold sc_in_range. cbn [sc_signed].
  change (2 ^ (sc_bits _ - 1)) with (2 ^ 31). apply andb_true_iff. split; [apply Z.leb_le|apply Z.ltb_lt]; lia.
Qed.

Lemma response_spec error unique payload :
  response (16 + zlen payload) error unique payload = Done (fuse_reply error unique payload).
Proof.
  pose proof (zlen_nonneg payload). unfold response, emit.
  set (v := Obj [("len", Num (to_u32 (16 + zlen payload))); ("error", Num (to_i32 error)); ("unique", Num (to_u64 unique))]).
  assert (Hv : typed FuseOutHeader v = true).
  { apply typed_struct; [|apply (bool_decide_unpack _); reflexivity].
    repeat apply typed_fields_cons; [..|done]; unfold to_u32, to_u64.
    - apply typed_u32le. by apply Z.mod_pos_bound.
    - apply typed_i32le, to_i32_range.
    - apply typed_u64le. by apply Z.mod_pos_bound. }
  assert (Hb : builds (emit FuseOutHeader v ;; append payload) [] tt (enc FuseOutHeader v ++ payload)).
  { eapply builds_bind; [by apply builds_emit|]. apply builds_append. }
  apply (builds_run _ (16 + zlen payload)) in Hb as (b&Hrun&Ha); [|lia].
  assert (Heq : ((o ← alloc FuseOutHeader;
      alloc_set FuseOutHeader o (Obj [("len", Num (16 + zlen payload)); ("error", Num error); ("unique", Num unique)]) ;;
      mret o) ;; append payload) (bytes_new (16 + zlen payload)) =
    (emit FuseOutHeader v ;; append payload) (bytes_new (16 + zlen payload))).
  { unfold emit, mbind, M_bind. destruct (alloc FuseOutHeader _) as [[o|e|] b']; [|done..].
    rewrite (header_wrap b' o _ _ _ (to_u32 (16 + zlen payload)) (to_i32 error) (to_u64 unique)); [done|..].
    - unfold to_u32. by rewrite Zmod_mod.
    - apply to_i32_wrap.
    - unfold to_u64. by rewrite Zmod_mod. }
  rewrite Heq, Hrun. cbn [mbind outcome_bind]. rewrite Ha. f_equal. unfold v.
  cbn [enc enc_fields FuseOutHeader U32LE I32LE U64LE]. rewrite <- !app_assoc. change ([] ++ payload) with payload. unfold fuse_reply.
  apply (f_equal2 app); [|apply (f_equal2 app); [|apply (f_equal2 app); [|done]]]; apply sc_encode_wrap;
    [|symmetry; apply to_i32_wrap|]; unfold to_u32, to_u64; apply Zmod_mod.
Qed.

(** * Where they are put *)
Lemma concatenate_cons b bs w :
  concatenate (b :: bs) w = if bool_decide (vb_writable b = w) then vb_array b ++ concatenate bs w else concatenate bs w.
Proof. unfold concatenate. rewrite filter_cons. case_decide; [by rewrite bool_decide_true|by rewrite bool_decide_false]. Qed.
Lemma response_capacity_concatenate bs : response_capacity bs = zlen (concatenate bs true).
Proof.
  unfold response_capacity, concatenate. induction (filter _ bs) as [|b l IH]; [done|]. 
  rewrite !fmap_cons. cbn [concat sum_list_z foldr]. rewrite zlen_app, <- IH. done.
Qed.

Definition nonempty (bs : list vbuffer) : Prop := Forall (fun b => vb_writable b = true → vb_array b ≠ []) bs.

Lemma scatter_loop_spec bs data offset :
  nonempty bs → 0 ≤ offset ≤ zlen data → zlen data - offset ≤ response_capacity bs →
  ∃ bs', scatter_loop bs data offset = (bs', zlen data) ∧
    concatenate bs' true = drop (Z.to_nat offset) data ++ drop (Z.to_nat (zlen data - offset)) (concatenate bs true) ∧
    concatenate bs' false = concatenate bs false ∧ zlen bs' = zlen bs.
Proof.
  intros Hne. revert offset. induction Hne as [|b bs Hb Hne IH]; intros offset Ho Hroom.
  { cbn in Hroom. assert (offset = zlen data) as -> by (unfold response_capacity in Hroom; cbn in Hroom; lia).
    exists []. split_and!; try done. cbn. by rewrite zlen_to_nat, drop_all, drop_nil. }
  rewrite response_capacity_concatenate in Hroom. rewrite !concatenate_cons in *. cbn [scatter_loop].
  destruct b as [a w]. cbn [vb_writable vb_array] in *. destruct w; cbn [negb].
  - rewrite bool_decide_true in Hroom |- * by done. rewrite bool_decide_false by done.
    rewrite zlen_app in Hroom. specialize (Hb eq_refl).
    assert (0 < zlen a).
    { pose proof (zlen_nonneg a). destruct (decide (zlen a = 0)) as [?%zlen_0_nil|]; [done|lia]. }
    destruct (Z.min (zlen a) (zlen data - offset) <=? 0) eqn:E; zbool.
    + assert (offset = zlen data) as -> by lia. exists (VBuffer a true :: bs). split_and!; try done.
      rewrite concatenate_cons, bool_decide_true by done. rewrite Z.sub_diag. cbn [vb_array].
      by rewrite zlen_to_nat, drop_all, drop_0.
    + set (n := Z.min (zlen a) (zlen data - offset)) in *.
      destruct (IH (offset + n)) as (bs'&Hs&Ht&Hf&Hl).
      { lia. }
      { rewrite response_capacity_concatenate. pose proof (zlen_nonneg (concatenate bs true)). lia. }
      rewrite Hs. eexists; split_and!; [done|..].
      * rewrite concatenate_cons, bool_decide_true by done. cbn [vb_array]. rewrite Ht.
        unfold splice, subarray. rewrite take_0, app_nil_l. cbn [Nat.add].
        rewrite length_take, length_drop. unfold zlen in *.
        replace (Z.to_nat (offset + n) - Z.to_nat offset)%nat with (Z.to_nat n) by lia.
        replace (Z.to_nat n `min` (length data - Z.to_nat offset))%nat with (Z.to_nat n) by lia.
        replace (Z.to_nat (offset + n)) with (Z.to_nat offset + Z.to_nat n)%nat by lia.
        rewrite <- drop_drop. rewrite <- app_assoc.
        destruct (decide (n = Z.of_nat (length a))) as [En|En].
        -- rewrite (drop_ge a) by lia. rewrite app_nil_l, app_assoc, take_drop. f_equal.
           rewrite drop_app_ge by lia. f_equal. lia.
        -- assert (n = Z.of_nat (length data) - offset) by lia.
           rewrite (drop_ge (drop _ data)) by (rewrite length_drop; lia). rewrite app_nil_l.
           rewrite (take_ge (drop _ data)) by (rewrite length_drop; lia). f_equal.
           rewrite drop_app_le by lia. f_equal; [f_equal; lia|].
           replace (Z.to_nat (Z.of_nat (length data) - (offset + n))) with 0%nat by lia. by rewrite drop_0.
      * by rewrite concatenate_cons, bool_decide_false.
      * rewrite !zlen_cons. lia.
  - rewrite (bool_decide_false (false = true)) in * by done. rewrite bool_decide_true by done.
    destruct (IH offset) as (bs'&Hs&Ht&Hf&Hl); [done|by rewrite response_capacity_concatenate|].
    rewrite Hs. eexists; split_and!; [done|..].
    + by rewrite concatenate_cons, bool_decide_false.
    + by rewrite concatenate_cons, bool_decide_true, Hf by done.
    + rewrite !zlen_cons. lia.
Qed.

(** * A request, as a whole *)
Section device.
Context {N H W : Type} `{Countable N}.
Context (filesystem : filesystem N H W) (good : W → Prop) (opened : W → N → H → Prop).
Context (Hends : host_ends filesystem good opened).
Context (Hlookup : ∀ p s w n w', good w → fs_lookup filesystem p s w = (Done (Some n), w') → n ≠ fs_root filesystem).

(** Between requests: the tables well formed and settled, the root in its place, and
    every open directory one that the backend opened for its node. *)
Definition device_sane (d : @device N H W _ _) : Prop :=
  tables_ok (fd_tables d) ∧ settled (fun _ => False) (fd_tables d) ∧
  node_of (fd_tables d) ROOT = Some (fs_root filesystem) ∧ opened_ok good opened (fd_tables d) (fd_host d).

(** What a request leaves: sane tables in which every id names what it named. *)
Definition device_after (d d' : @device N H W _ _) : Prop :=
  device_sane d' ∧ extends (fd_tables d) (fd_tables d').

Lemma sane_after d X d' :
  device_sane d → sane (fd_tables d) X (fd_tables d') → opened_ok good opened (fd_tables d') (fd_host d') → device_after d d'.
Proof using. intros (_&_&Hr&_) (?&?&He) Ho. split; [split_and!; auto|done]. Qed.

Lemma dispatch_answered validity header capacity node opcode :
  (dispatch filesystem validity header capacity node opcode).1 = false →
  opcode ∈ [FuseOpcode.FORGET; FuseOpcode.BATCH_FORGET; FuseOpcode.INTERRUPT].
Proof using.
  clear Hends Hlookup. unfold dispatch. repeat match goal with
  | |- context [if opcode =? ?c then _ else _] => destruct (Z.eqb_spec opcode c) as [->|_]; [intros; try done; set_solver|]
  end. done.
Qed.

Lemma triple_process room validity header capacity t0 :
  node_of t0 ROOT = Some (fs_root filesystem) →
  minimum_response_capacity header.["opcode"] ≤ capacity → (16 < capacity → room = true) →
  (header.["opcode"] = FuseOpcode.READLINK → 16 < capacity) →
  triple good opened room (sane t0) anything (process filesystem validity header capacity) (fun o _ _ =>
    match o with
    | Some b => buf_wf b ∧ b_length b ≤ capacity - ty_size FuseOutHeader
    | None => header.["opcode"] ∈ [FuseOpcode.FORGET; FuseOpcode.BATCH_FORGET; FuseOpcode.INTERRUPT]
    end).
Proof using Hends Hlookup.
  intros Hroot Hmin Hroom Hlink. unfold process.
  eapply (triple_bind _ _ _ _ _ _ _ (fun node => opt_live node)).
  { apply triple_if; [by apply triple_ret|]. eapply triple_bind; [apply triple_record|]. intros id.
    apply triple_ret. intros X t _ [[-> Hl] _] j [= <-]. done. }
  intros node. pose proof (serves_dispatch filesystem good opened room Hends t0 validity header capacity node _ Hroot Hlookup
    header.["opcode"] Hmin Hroom Hlink) as Hserves.
  pose proof (dispatch_answered validity header capacity node header.["opcode"]) as Hanswered.
  destruct (dispatch _ _ _ _ _ _) as [answered m]. eapply triple_bind; [exact Hserves|]. intros u.
  destruct answered; [|by apply triple_ret; intros; apply Hanswered].
  eapply (triple_bind _ _ _ _ _ _ _ (fun b _ _ => buf_wf b)).
  { intros r [[HI _] Hb]. split; [split; [done|apply Hb]|done]. }
  intros b. destruct (_ <? _) eqn:E; [apply triple_throw|]. zbool. by apply triple_ret.
Qed.

Lemma process_spec validity header capacity d body :
  device_sane d → minimum_response_capacity header.["opcode"] ≤ capacity →
  (header.["opcode"] = FuseOpcode.READLINK → 16 < capacity) →
  let '(o, r) := process filesystem validity header capacity
    (Request d body (bytes_new (Z.max 0 (capacity - 16))) []) in
  match o with Loops => False | _ => device_after d (rq_device r) end ∧
  match o with
  | Done (Some b) => zlen (array b) = b_length b ∧ 16 + b_length b ≤ capacity
  | Done None => header.["opcode"] ∈ [FuseOpcode.FORGET; FuseOpcode.BATCH_FORGET; FuseOpcode.INTERRUPT]
  | _ => True
  end.
Proof using Hends Hlookup.
  intros Hd Hmin Hlink. set (room := 16 <? capacity). set (r0 := Request d body _ _).
  assert (Hroom : 16 < capacity → room = true) by (intros; unfold room; apply Z.ltb_lt; lia).
  assert (Hbuf : buf_kept room r0).
  { split; [apply buf_wf_new|]. unfold room. intros Hr. zbool. unfold r0. cbn [rq_payload].
    unfold Bytes.capacity, bytes_new. cbn [b_array]. rewrite zlen_zeros; lia. }
  set (t0 := fd_tables d). assert (Hd' := Hd). destruct Hd as (Hok&Hset&Hroot&Hopened).
  assert (Hstart : knows good opened room (both (sane t0) anything) r0).
  { split; [|by split]. split; [|done]. by split_and!. }
  pose proof (triple_process room validity header capacity t0 ltac:(done) Hmin Hroom Hlink r0 Hstart) as Ht.
  destruct (process filesystem validity header capacity r0) as [[[b|]|e|] r]; [..|done].
  - destruct Ht as [[Hs [Hwf Hl]] [_ Ho]]. cbn in Hl. rewrite zlen_array by done. split; [|lia]. exact (sane_after d _ _ Hd' Hs Ho).
  - destruct Ht as [[Hs Hop] [_ Ho]]. split; [|done]. exact (sane_after d _ _ Hd' Hs Ho).
  - destruct Ht as [Hs Ho]. split; [|done]. exact (sane_after d _ _ Hd' Hs Ho).
Qed.

(** ** A chain *)
Definition request_header (buffers : list vbuffer) : option value :=
  if in_order buffers false
  then done_of (rd_struct FuseInHeader (Reader (concatenate buffers false) 0)).1 else None.
Definition request_unique (buffers : list vbuffer) : Z :=
  match request_header buffers with Some h => h.["unique"] | None => 0 end.

(** What a chain is released with. Requests the guest expects no reply to, and
    failures there is no room to report, are released with nothing written. *)
Definition no_reply (buffers : list vbuffer) : Prop :=
  response_capacity buffers < 16 ∨
  ∃ h, request_header buffers = Some h ∧
    h.["opcode"] ∈ [FuseOpcode.FORGET; FuseOpcode.BATCH_FORGET; FuseOpcode.INTERRUPT].
Definition replied (buffers : list vbuffer) (w : Z) (buffers' : list vbuffer) : Prop :=
  concatenate buffers' false = concatenate buffers false ∧ zlen buffers' = zlen buffers ∧
  ∃ error payload, w = 16 + zlen payload ∧ w ≤ response_capacity buffers ∧
    (error = 0 ∨ payload = [] ∧ ∃ e, error = - response_errno e) ∧
    concatenate buffers' true =
      fuse_reply error (request_unique buffers) payload ++ drop (Z.to_nat w) (concatenate buffers true).
Definition answered (buffers : list vbuffer) (r : Z * list vbuffer) : Prop :=
  (r = (0, buffers) ∧ no_reply buffers) ∨ replied buffers r.1 r.2.

Lemma scatter_reply buffers error payload :
  nonempty buffers → 16 + zlen payload ≤ response_capacity buffers →
  (error = 0 ∨ payload = [] ∧ ∃ e, error = - response_errno e) →
  ∃ buffers', scatter (fuse_reply error (request_unique buffers) payload) buffers = (Done tt, buffers') ∧
    replied buffers (16 + zlen payload) buffers'.
Proof using.
  clear Hends Hlookup. intros Hne Hroom Herr. set (reply := fuse_reply _ _ _).
  assert (Hz : zlen reply = 16 + zlen payload) by apply zlen_fuse_reply.
  pose proof (zlen_nonneg reply).
  destruct (scatter_loop_spec buffers reply 0) as (bs'&Hs&Ht&Hf&Hl); [done|lia|lia|].
  exists bs'. unfold scatter. rewrite Hs. cbn. rewrite Z.eqb_refl. split; [done|]. split_and!; [done..|].
  exists error, payload. split_and!; [done..|]. rewrite Ht. by rewrite Z.sub_0_r, drop_0, Hz.
Qed.

Lemma fail_spec buffers (d : @device N H W _ _) e u :
  nonempty buffers → u = request_unique buffers →
  ∃ w bs', fail (response_capacity buffers) e (Service d buffers u) = (Done w, Service d bs' u) ∧ answered buffers (w, bs').
Proof using.
  clear Hends Hlookup. intros Hne ->. unfold fail. change (ty_size FuseOutHeader) with 16.
  destruct (_ <? _) eqn:E; zbool; [exists 0, buffers; split; [done|]; left; split; [done|by left]|].
  destruct (scatter_reply buffers (- response_errno e) []) as (bs'&Hs&Hr); [done|done|right; eauto|].
  erewrite M_bind_done by done. cbn [sv_unique].
  rewrite (M_bind_done _ _ _ (fuse_reply (- response_errno e) (request_unique buffers) []) (Service d buffers (request_unique buffers))).
  2: { unfold lift. by rewrite <- (response_spec (- response_errno e) (request_unique buffers) []). }
  unfold focus at 1. unfold mbind, M_bind. cbn [sv_buffers]. rewrite Hs. exists 16, bs'. split; [done|]. by right.
Qed.

(** The [try] block: it either answers the chain, or throws with the chain's
    buffers untouched and the reply's [unique] known. *)
Lemma serve_spec validity buffers d :
  device_sane d → nonempty buffers →
  (∀ h, request_header buffers = Some h → h.["opcode"] = FuseOpcode.READLINK → response_capacity buffers ≠ 16) →
  let '(o, s) := serve filesystem validity (response_capacity buffers) (Service d buffers 0) in
  device_after d (sv_device s) ∧
  match o with
  | Done w => answered buffers (w, sv_buffers s)
  | Raise _ => s = Service (sv_device s) buffers (request_unique buffers)
  | Loops => False
  end.
Proof using Hends Hlookup.
  intros Hd Hne Hlink. unfold serve. set (cap := response_capacity buffers) in *.
  erewrite M_bind_done by done. cbn [sv_buffers].
  assert (Hself : device_after d d) by done.
  destruct (in_order buffers false) eqn:Ho.
  2: { split; [done|]. unfold request_unique, request_header. by rewrite Ho. }
  erewrite M_bind_done by done.
  pose proof (ends_rd_struct FuseInHeader (Reader (concatenate buffers false) 0)) as Hrd.
  destruct (rd_struct FuseInHeader _) as [[header|e|] body] eqn:Eh; [| |done].
  2: { split; [done|]. unfold request_unique, request_header. by rewrite Ho, Eh. }
  assert (Hh : request_header buffers = Some header) by (unfold request_header; by rewrite Ho, Eh).
  assert (Hu : request_unique buffers = header.["unique"]) by (unfold request_unique; by rewrite Hh).
  specialize (Hlink header Hh). rewrite Hu.
  do 2 erewrite M_bind_done by done.
  set (s1 := Service d buffers header.["unique"]). change (_ <| sv_unique := _ |>) with s1.
  destruct (_ || _)%bool; [by split|]. erewrite M_bind_done by done.
  destruct (cap <? _) eqn:Hcap; [by split|]. zbool. erewrite M_bind_done by done.
  pose proof (process_spec validity header cap d body Hd Hcap) as Hp.
  specialize (Hp ltac:(intros Hop; specialize (Hlink Hop); rewrite Hop in Hcap; vm_compute (minimum_response_capacity _) in Hcap; lia)).
  unfold mbind at 1, M_bind at 1. cbn [sv_device s1]. change (ty_size FuseOutHeader) with 16.
  destruct (process filesystem validity header cap _) as [o r]. destruct Hp as [Hafter Hp].
  destruct o as [[b|]|e|]; [| |by split|done].
  2: { split; [done|]. left. split; [done|]. right. by exists header. }
  destruct Hp as [Hb Hroom]. rewrite <- Hb.
  set (s2 := s1 <| sv_device := rq_device r |>). unfold s1 in s2. cbn in s2.
  erewrite M_bind_done by done. cbn [sv_unique s2].
  rewrite (M_bind_done _ _ s2 (fuse_reply 0 header.["unique"] (array b)) s2).
  2: { unfold lift. by rewrite response_spec. }
  destruct (scatter_reply buffers 0 (array b)) as (bs'&Hs&Hr); [done|lia|by left|]. rewrite Hu in Hs.
  unfold focus at 1. unfold mbind, M_bind. cbn [sv_buffers s2]. rewrite Hs. split; [done|]. right.
  rewrite zlen_fuse_reply. done.
Qed.

Lemma notify_chain_spec validity buffers d :
  device_sane d → nonempty buffers →
  (∀ h, request_header buffers = Some h → h.["opcode"] = FuseOpcode.READLINK → response_capacity buffers ≠ 16) →
  ∃ r d', notify_chain filesystem validity buffers d = (Done r, d') ∧ answered buffers r ∧ device_after d d'.
Proof using Hends Hlookup.
  intros Hd Hne Hlink. pose proof (serve_spec validity buffers d Hd Hne Hlink) as Hs. unfold notify_chain.
  destruct (serve _ _ _ _) as [[w|e|] s]; destruct Hs as [Hafter Hs]; [| |done].
  - exists (w, sv_buffers s), (sv_device s). done.
  - rewrite Hs. destruct (fail_spec buffers (sv_device s) e _ Hne eq_refl) as (w&bs'&Hf&Ha). rewrite Hf.
    cbn. exists (w, bs'), (sv_device s). done.
Qed.
End device.

(** * The properties *)

(** A chain the device can answer: no empty writable descriptor, and room for
    a target in the reply of READLINK. *)
Definition answerable (buffers : list vbuffer) : Prop :=
  nonempty buffers ∧
  ∀ h, request_header buffers = Some h → h.["opcode"] = FuseOpcode.READLINK → response_capacity buffers ≠ 16.

Lemma notify_all {N H W : Type} `{Countable N} (filesystem : filesystem N H W) good opened validity chains d :
  host_ends filesystem good opened →
  (∀ p s w n w', good w → fs_lookup filesystem p s w = (Done (Some n), w') → n ≠ fs_root filesystem) →
  device_sane filesystem good opened d → Forall answerable chains →
  ∃ rs d', notify filesystem validity chains d = (Done rs, d') ∧ Forall2 answered chains rs ∧
    device_after filesystem good opened d d'.
Proof.
  intros Hends Hlookup Hd Hc. revert d Hd. induction Hc as [|bs chains [Hne Hlink] Hc IH]; intros d Hd.
  { exists [], d. done. }
  destruct (notify_chain_spec filesystem good opened Hends Hlookup validity bs d Hd Hne Hlink) as (r&d1&Hr&Ha&Hd1&He1).
  destruct (IH d1 Hd1) as (rs&d2&Hrs&Hf&Hd2&He2). exists (r :: rs), d2. cbn [notify].
  erewrite M_bind_done by exact Hr. erewrite M_bind_done by exact Hrs.
  split; [done|]. split; [by constructor|]. split; [done|by etrans].
Qed.

Lemma device_new_sane {N H W : Type} `{Countable N} (filesystem : filesystem N H W) good opened tag host d config :
  good host → file_system_device filesystem tag host = Done (d, config) → device_sane filesystem good opened d.
Proof.
  intros Hg. unfold file_system_device. destruct (_ || _)%bool; [done|]. destruct (_ && _)%bool; [done|].
  destruct (ta_set _ _ _) as [c1| |]; [|done..]. cbn [mbind outcome_bind].
  destruct (ty_set _ _ _ _) as [c2| |]; [|done..]. cbn [mbind outcome_bind]. intros [= <- <-].
  destruct (tables_new_ok (H := H) (fs_root filesystem)) as [A B]. split_and!; [done|done| |by split; [|apply Forall_nil]].
  unfold node_of. cbn [fd_tables tables_new tb_heap]. by rewrite lookup_singleton_eq.
Qed.

(** C11: over a backend whose methods end, of a notification whose chains can be answered
    (none has an empty writable descriptor, and none is a READLINK with room for nothing
    but the header), every chain is released exactly once, in order, and with at most
    what fits its writable buffers: with a reply that has its length, the [unique] of its
    request and either no error or the errno of what was thrown and no payload, laid
    across the writable buffers without touching what follows or the readable ones; or
    with nothing, when no reply is expected or none fits. The device's tables are sane
    after it. The notification is taken by itself, with none of the device's other queue
    in between. *)
Theorem fuse_answers_every_chain {N H W : Type} `{Countable N} (filesystem : filesystem N H W) (good : W → Prop) (opened : W → N → H → Prop)
    (validity : Z) (chains : list (list vbuffer)) (d : @device N H W _ _) :
  host_ends filesystem good opened →
  (∀ p s w n w', good w → fs_lookup filesystem p s w = (Done (Some n), w') → n ≠ fs_root filesystem) →
  device_sane filesystem good opened d → Forall answerable chains →
  ∃ rs d', notify filesystem validity chains d = (Done rs, d') ∧ Forall2 answered chains rs ∧
    device_sane filesystem good opened d'.
Proof.
  intros Hends Hlookup Hd Hc.
  destruct (notify_all filesystem good opened validity chains d Hends Hlookup Hd Hc) as (rs&d'&Hrs&Hf&[Hd' _]). eauto.
Qed.

(** C12: over a backend whose methods end, from its construction on, while its chains can be answered and its
    notifications run one after another, however the backend fails, a device keeps its
    tables well formed and settled: a record other than the root's is kept only while
    it is looked up, open or has children kept, and every kept record's parent and
    every open handle's record is kept. No id is ever given another node. (When
    notifications of the two queues interleave the tables stay well formed, but need
    not be settled: see [interleaved_forget_unsettles].) *)
Theorem fuse_tables_settled {N H W : Type} `{Countable N} (filesystem : filesystem N H W) (good : W → Prop) (opened : W → N → H → Prop)
    (validity : Z) (tag : text) (host : W) (first rest : list (list vbuffer))
    (d d1 d2 : @device N H W _ _) (config : list Z) rs1 rs2 :
  host_ends filesystem good opened →
  (∀ p s w n w', good w → fs_lookup filesystem p s w = (Done (Some n), w') → n ≠ fs_root filesystem) →
  Forall answerable (first ++ rest) →
  good host → file_system_device filesystem tag host = Done (d, config) →
  notify filesystem validity first d = (rs1, d1) → notify filesystem validity rest d1 = (rs2, d2) →
  tables_ok (fd_tables d2) ∧ settled (fun _ => False) (fd_tables d2) ∧
  ∀ id n, node_of (fd_tables d1) id = Some n → node_of (fd_tables d2) id = Some n.
Proof.
  intros Hends Hlookup [Hf Hr]%Forall_app Hg Hd%(device_new_sane _ good opened) H1 H2; [|done].
  destruct (notify_all filesystem _ _ validity first d Hends Hlookup Hd Hf) as (?&d1'&E1&_&[Hd1 _]).
  rewrite E1 in H1. injection H1 as <- <-.
  destruct (notify_all filesystem _ _ validity rest d1' Hends Hlookup Hd1 Hr) as (?&d2'&E2&_&[(A&B&_) He]).
  rewrite E2 in H2. injection H2 as <- <-. done.
Qed.

(** ** A backend: a directory with one file. *)
Definition dir_attributes : attributes :=
  Attributes 0x41ed 0 None None None None None None None None None.
Definition file_attributes : attributes :=
  Attributes 0x81a4 5 None None None None None None None None None.
Definition sample_fs : filesystem Z Z Z := {|
  fs_root := 0;
  fs_lookup p s := if bool_decide (p = 0 ∧ s = lit "a") then mret (Some 1) else mret None;
  fs_getattr n _ := if n =? 0 then mret dir_attributes else if n =? 1 then mret file_attributes
                    else throw (FSError EIO);
  fs_setattr := None; fs_readlink := None; fs_symlink := None; fs_mkdir := None; fs_unlink := None;
  fs_rmdir := None; fs_rename := None;
  fs_open := Some (fun n _ => w ← get_state; put_state (w + 1) ;; mret w);
  fs_create := None;
  fs_read := Some (fun n h o l => mret (subarray (lit "hello") o (o + l)));
  fs_write := None; fs_flush := None; fs_fsync := None; fs_release := None;
  fs_opendir := Some (fun n _ => w ← get_state; put_state (w + 1) ;; mret w);
  fs_readdir := Some (fun n h => mret [(lit "a", 1)]);
  fs_releasedir := None; fs_access := None; fs_statfs := None; fs_destroy := None |}.

Lemma sample_fs_ends : host_ends sample_fs (fun _ => True) (fun _ _ _ => True).
Proof.
  constructor; try discriminate; cbn.
  - intros p s w _. unfold serves_at. by case_match.
  - intros n h w _. unfold serves_at. by repeat case_match.
  - by intros f n l [= <-] w.
  - by intros f n h o l [= <-] w.
  - by intros f n l [= <-] w.
  - done.
  - by intros f n h w _ [= <-] _.
Qed.
Lemma sample_fs_lookup p s w n w' : True → fs_lookup sample_fs p s w = (Done (Some n), w') → n ≠ fs_root sample_fs.
Proof. cbn. case_match; by intros _ [= <- <-]. Qed.

Definition sample_header (len opcode nodeid : Z) : list Z :=
  le_encode 4 len ++ le_encode 4 opcode ++ le_encode 8 7 ++ le_encode 8 nodeid ++ zeros 16.
(** LOOKUP of [a] in the root, its reply over two buffers; GETATTR of a node
    there is not, with room for an error only; FORGET. *)
Definition sample_chains : list (list vbuffer) :=
  [ [VBuffer (sample_header 42 FuseOpcode.LOOKUP 1 ++ [97; 0]) false; VBuffer (zeros 100) true; VBuffer (zeros 100) true];
    [VBuffer (sample_header 56 FuseOpcode.GETATTR 9 ++ zeros 16) false; VBuffer (zeros 120) true];
    [VBuffer (sample_header 48 FuseOpcode.FORGET 2 ++ le_encode 8 1) false] ].
Definition sample_device : @device Z Z Z _ _ := Device (tables_new 0) None 0.

Lemma sample_answerable : Forall answerable sample_chains.
Proof.
  repeat constructor; cbn; try (by intros h [= <-]); try done; repeat constructor; done.
Qed.

Lemma fuse_answers_every_chain_witness :
  ∃ rs d', notify sample_fs 1 sample_chains sample_device = (Done rs, d') ∧ Forall2 answered sample_chains rs.
Proof.
  destruct (fuse_answers_every_chain sample_fs (fun _ => True) (fun _ _ _ => True) 1 sample_chains sample_device) as (rs&d'&Hrs&Hf&_).
  - apply sample_fs_ends.
  - apply sample_fs_lookup.
  - apply (device_new_sane sample_fs _ _ (lit "host") 0 sample_device (default [] (snd <$> done_of (file_system_device sample_fs (lit "host") 0)))); [exact I|].
    reflexivity.
  - apply sample_answerable.
  - eauto.
Defined.

Lemma fuse_tables_settled_witness :
  tables_ok (fd_tables (notify sample_fs 1 sample_chains sample_device).2).
Proof.
  apply (fuse_tables_settled sample_fs (fun _ => True) (fun _ _ _ => True) 1 (lit "host") 0 [] sample_chains sample_device sample_device
    (notify sample_fs 1 sample_chains sample_device).2
    (default [] (snd <$> done_of (file_system_device sample_fs (lit "host") 0)))
    (Done []) (notify sample_fs 1 sample_chains sample_device).1).
  - apply sample_fs_ends.
  - apply sample_fs_lookup.
  - apply sample_answerable.
  - exact I.
  - reflexivity.
  - reflexivity.
  - apply surjective_pairing.
Defined.

(** * What the model shows *)

(** [scatter] takes an empty writable descriptor for the end of the response:
    the reply is lost, and so is the error reply for that, so the chain is
    never released. *)
Example empty_descriptor_loses_chain :
  (notify_chain sample_fs 1
    [VBuffer (sample_header 42 FuseOpcode.LOOKUP 1 ++ [97; 0]) false; VBuffer [] true; VBuffer (zeros 200) true]
    sample_device).1 = Raise (JsError "guest response buffers are too small").
Proof. vm_compute. reflexivity. Qed.

(** A READLINK whose reply has room for the header alone does not end. *)
Definition link_fs : filesystem Z Z Z := {|
  fs_root := 0; fs_lookup := fs_lookup sample_fs; fs_getattr := fun n _ => throw (FSError EIO);
  fs_setattr := None; fs_readlink := Some (fun n => mret (lit "target")); fs_symlink := None; fs_mkdir := None;
  fs_unlink := None; fs_rmdir := None; fs_rename := None; fs_open := None; fs_create := None; fs_read := None;
  fs_write := None; fs_flush := None; fs_fsync := None; fs_release := None; fs_opendir := None;
  fs_readdir := None; fs_releasedir := None; fs_access := None; fs_statfs := None; fs_destroy := None |}.
Example readlink_without_room :
  (notify_chain link_fs 1 [VBuffer (sample_header 40 FuseOpcode.READLINK 1) false; VBuffer (zeros 16) true]
    sample_device).1 = Loops.
Proof. vm_compute. reflexivity. Qed.

(** LOOKUP counts the reference before it has the attributes: when [getattr]
    throws, the guest is told of an error and the record stays referenced. *)
Example lookup_leaks_reference :
  let '(o, d) := notify_chain link_fs 1
    [VBuffer (sample_header 42 FuseOpcode.LOOKUP 1 ++ [97; 0]) false; VBuffer (zeros 144) true] sample_device in
  (fst <$> done_of o) = Some 16 ∧ nr_lookups <$> tb_heap (fd_tables d) !! 2 = Some 1 ∧ tb_live (fd_tables d) = {[1; 2]}.
Proof. vm_compute. auto. Qed.

(** Two names that differ by a leading byte-order mark reach the backend as one. *)
Example names_with_byte_order_mark :
  (rd_text (Reader [0xef; 0xbb; 0xbf; 97; 0] 0)).1 = (rd_text (Reader [97; 0] 0)).1.
Proof. reflexivity. Qed.
