(* ===== verification/NodeFs.v ===== *)
(** A virtio-fs backend over a directory of the host, NodeFS of
    packages/linux-guest/src/node.ts: an [FS] for Fuse.v whose nodes are paths. What it
    does to its nodes and asks of the host is in NodeFsOk.v.

    The calls of node:fs are a parameter, and are logged as they are made.
    [#path_operation] runs the operations on paths one after another, and those on open
    files touch no node, so that each operation is one step. *)
From S2P Require Export FuseReply.

(** * Paths: node:path, on a POSIX host *)
Definition is_absolute (p : text) : bool := bool_decide (head p = Some 47).
Definition walk (names : list text) (part : text) : list text :=
  if bool_decide (part = [] ∨ part = lit ".") then names
  else if bool_decide (part = lit "..") then take (pred (length names)) names
  else names ++ [part].
Definition absolute (names : list text) : text := 47 :: Text.join (lit "/") names.
(** The names of [path.resolve(...parts)], in the working directory [cwd]. *)
Definition resolve_names (cwd : text) (parts : list text) : list text :=
  foldl (fun names part => foldl walk (if is_absolute part then [] else names) (split_text 47 part)) [] (cwd :: parts).
Fixpoint relative_names (from to : list text) : list text :=
  match from, to with
  | a :: from', b :: to' => if bool_decide (a = b) then relative_names from' to' else ((fun _ => lit "..") <$> from) ++ to
  | _, _ => ((fun _ => lit "..") <$> from) ++ to
  end.
(** [path.relative(from, to)] *)
Definition path_relative (cwd from to : text) : text :=
  Text.join (lit "/") (relative_names (resolve_names cwd [from]) (resolve_names cwd [to])).
(** [path.dirname], of a path with no slash at its end. *)
Definition dirname (p : text) : text :=
  let parts := split_text 47 p in
  let parent := Text.join (lit "/") (take (pred (length parts)) parts) in
  if bool_decide (parent = []) then (if is_absolute p then lit "/" else lit ".") else parent.

(** * The host: node:fs *)
Record BigIntStats := Stats {
  st_mode : Z; st_size : Z; st_blocks : Z; st_nlink : Z; st_uid : Z; st_gid : Z; st_rdev : Z; st_blksize : Z;
  st_atimeNs : Z; st_mtimeNs : Z; st_ctimeNs : Z }.
Definition isSymbolicLink (st : BigIntStats) : bool := (st_mode st &&& 0xf000) =? S_IFLNK.
Definition isDirectory (st : BigIntStats) : bool := (st_mode st &&& 0xf000) =? S_IFDIR.
Record BigIntStatFs := StatFs { sv_blocks : Z; sv_bfree : Z; sv_bavail : Z; sv_files : Z; sv_ffree : Z; sv_bsize : Z }.
(** [new Date()], [new Date(seconds * 1000 + nanoseconds / 1_000_000)] and the date of
    a number of nanoseconds. *)
Inductive new_date := DateNow | DateOf (seconds nanoseconds : Z) | DateNs (nanoseconds : Z).

Inductive host_call (F : Type) : Type → Type :=
| Realpath (p : text) : host_call F text
| Lstat (p : text) : host_call F BigIntStats
| Readlink (p : text) : host_call F text
| SymlinkAt (target p : text) : host_call F unit
| Chmod (p : text) (mode : Z) : host_call F unit
| Lchown (p : text) (uid gid : Z) : host_call F unit
| Lutimes (p : text) (atime mtime : new_date) : host_call F unit
| OpenFile (p : text) (flags : Z) (mode : option Z) : host_call F F
| MkdirAt (p : text) (mode : Z) : host_call F unit
| Unlink (p : text) : host_call F unit
| Rmdir (p : text) : host_call F unit
| Rename (p q : text) : host_call F unit
| Readdir (p : text) : host_call F (list text)
| Access (p : text) (mask : Z) : host_call F unit
| StatfsOf (p : text) : host_call F BigIntStatFs
| FileStat (f : F) : host_call F BigIntStats
| FileChmod (f : F) (mode : Z) : host_call F unit
| FileChown (f : F) (uid gid : Z) : host_call F unit
| FileTruncate (f : F) (size : Z) : host_call F unit
| FileUtimes (f : F) (atime mtime : new_date) : host_call F unit
| FileRead (f : F) (length position : Z) : host_call F (Z * list Z) (* bytesRead and the buffer *)
| FileWrite (f : F) (data : list Z) (position : Z) : host_call F Z
| FileDatasync (f : F) : host_call F unit
| FileSync (f : F) : host_call F unit
| FileClose (f : F) : host_call F unit.
Arguments Realpath {F}. Arguments Lstat {F}. Arguments Readlink {F}. Arguments SymlinkAt {F}. Arguments Chmod {F}.
Arguments Lchown {F}. Arguments Lutimes {F}. Arguments OpenFile {F}. Arguments MkdirAt {F}. Arguments Unlink {F}.
Arguments Rmdir {F}. Arguments Rename {F}. Arguments Readdir {F}. Arguments Access {F}. Arguments StatfsOf {F}.
Arguments FileStat {F}. Arguments FileChmod {F}. Arguments FileChown {F}. Arguments FileTruncate {F}. Arguments FileUtimes {F}.
Arguments FileRead {F}. Arguments FileWrite {F}. Arguments FileDatasync {F}. Arguments FileSync {F}. Arguments FileClose {F}.
(** A call that was made, and what it came to: a value, or an error's code. *)
Inductive event (F : Type) : Type :=
| Event {A : Type} (c : host_call F A) (r : A + string).
Arguments Event {F A}.

(** * Errors and checks *)
Definition known_errors : list (string * Z) :=
  [("EACCES", 13); ("EBADF", EBADF); ("EEXIST", 17); ("EINVAL", EINVAL); ("EIO", EIO); ("EISDIR", 21); ("ELOOP", 40);
   ("ENAMETOOLONG", ENAMETOOLONG); ("ENOENT", ENOENT); ("ENOSPC", 28); ("ENOSYS", ENOSYS); ("ENOTDIR", 20); ("ENOTEMPTY", 39);
   ("EOPNOTSUPP", 95); ("EPERM", 1); ("EROFS", 30)].
Definition errno_of (code : string) : Z := default 0 (Bytes.assoc code known_errors).
(** [new FSError(code)] *)
Definition fs_error (code : string) : exn := FSError (errno_of code).
Definition filesystem_error (code : string) : exn := FSError (default EIO (Bytes.assoc code known_errors)).
Definition valid_name (name : text) : outcome text :=
  if ((zlen name =? 0) || bool_decide (name = lit ".") || bool_decide (name = lit "..") || bool_decide (47 ∈ name)
      || bool_decide (0 ∈ name))%bool
  then Raise (fs_error "EINVAL") else Done name.
Definition node_seconds (ns : Z) : timestamp := Timestamp (Z.quot ns 1000000000) (Some (Z.rem ns 1000000000)).
Definition node_attributes (st : BigIntStats) : attributes :=
  Attributes (js_number (st_mode st)) (st_size st) (Some (node_seconds (st_atimeNs st))) (Some (node_seconds (st_mtimeNs st)))
    (Some (node_seconds (st_ctimeNs st))) (Some (st_blocks st)) (Some (js_number (st_nlink st))) (Some (js_number (st_uid st)))
    (Some (js_number (st_gid st))) (Some (js_number (st_rdev st))) (Some (js_number (st_blksize st))).
Definition checked_offset (value : Z) : outcome Z :=
  let result := js_number value in
  if ((max_safe_integer <? result) || (result <? 0))%bool then Raise (fs_error "EINVAL") else Done result.

(** * Open flags: [linux_open], [translate_open_flags] and [may_write] *)
Definition linux_open : list (string * Z) :=
  [("access", 0x3); ("readonly", 0); ("writeonly", 0x1); ("readwrite", 0x2); ("create", 0x40); ("exclusive", 0x80);
   ("noTerminal", 0x100); ("truncate", 0x200); ("append", 0x400); ("nonblocking", 0x800); ("dataSync", 0x1000);
   ("direct", 0x4000); ("largeFile", 0x8000); ("directory", 0x10000); ("noFollow", 0x20000); ("noAtime", 0x40000);
   ("closeOnExec", 0x80000); ("sync", 0x100000); ("path", 0x200000); ("temporaryFile", 0x400000)].
Definition linux (name : string) : Z := default 0 (Bytes.assoc name linux_open).
Definition may_write (flags : Z) : bool :=
  let access := flags &&& linux "access" in
  ((access =? linux "writeonly") || (access =? linux "readwrite")
   || negb ((flags &&& (linux "create" ||| linux "truncate" ||| linux "append" ||| linux "temporaryFile")) =? 0))%bool.
Section flags.
(** node:fs's [constants]; one that the host has not is [undefined]. *)
Context (constants : string → option Z).
Definition constant (name : string) : Z := default 0 (constants name).
(** The variables [remaining] and [result], and [map]. *)
Definition map_flag (linux_name host : string) : M (Z * Z) unit := fun '(remaining, result) =>
  if (remaining &&& linux linux_name) =? 0 then (Done tt, (remaining, result))
  else
    let remaining := remaining &&& Z.lnot (linux linux_name) in
    match constants host with
    | None => (Raise (fs_error "EOPNOTSUPP"), (remaining, result))
    | Some bit => (Done tt, (remaining, result ||| bit))
    end.
Definition access_mode (access : Z) : outcome Z :=
  if access =? linux "readonly" then Done (constant "O_RDONLY")
  else if access =? linux "writeonly" then Done (constant "O_WRONLY")
  else if access =? linux "readwrite" then Done (constant "O_RDWR")
  else Raise (fs_error "EINVAL").
Definition map_flags : M (Z * Z) unit :=
  map_flag "create" "O_CREAT" ;;
  map_flag "exclusive" "O_EXCL" ;;
  map_flag "noTerminal" "O_NOCTTY" ;;
  map_flag "truncate" "O_TRUNC" ;;
  map_flag "append" "O_APPEND" ;;
  map_flag "nonblocking" "O_NONBLOCK" ;;
  '(remaining, _) ← get_state;
  (if (remaining &&& linux "sync") =? 0 then map_flag "dataSync" "O_DSYNC"
   else modify (fun '(remaining, result) => (remaining &&& Z.lnot (linux "sync" ||| linux "dataSync"), result ||| constant "O_SYNC"))) ;;
  map_flag "direct" "O_DIRECT" ;;
  map_flag "directory" "O_DIRECTORY" ;;
  map_flag "noFollow" "O_NOFOLLOW" ;;
  map_flag "noAtime" "O_NOATIME".
Definition translate_open_flags (flags : Z) : outcome Z :=
  if ((flags <? 0) || (0xffffffff <? flags))%bool then Raise (fs_error "EINVAL")
  else
    result ← access_mode (flags &&& linux "access");
    match map_flags (flags &&& Z.lnot (linux "access"), result) with
    | (Done _, (remaining, result)) =>
        let remaining := remaining &&& Z.lnot (linux "largeFile" ||| linux "closeOnExec") in
        if negb ((remaining &&& (linux "path" ||| linux "temporaryFile")) =? 0) then Raise (fs_error "EOPNOTSUPP")
        else if negb (remaining =? 0) then Raise (fs_error "EINVAL")
        else Done result
    | (Raise e, _) => Raise e
    | (Loops, _) => Loops
    end.
End flags.

(** * The filesystem *)
Section node_fs.
Context {F W : Type}.
Context (perform : ∀ A, host_call F A → W → (A + string) * W).
Arguments perform {A}.
Context (constants : string → option Z) (cwd : text).
Abbreviation constant := (constant constants).
Abbreviation translate_open_flags := (translate_open_flags constants).

(** A [Node] object, and the state: the objects made, [#nodes] by key, the host and the
    calls made to it. *)
Record node := Node { nd_parts : list text; nd_attached : bool }.
#[export] Instance node_eta : Eta node := fun n => Node (nd_parts n) (nd_attached n).
Record node_fs := NodeFS { nf_heap : list node; nf_nodes : gmap text nat; nf_host : W; nf_calls : list (event F) }.
#[export] Instance node_fs_eta : Eta node_fs := fun s => NodeFS (nf_heap s) (nf_nodes s) (nf_host s) (nf_calls s).
Definition key (parts : list text) : text := Text.join (lit "/") parts.

(** [node_call]; every other error of the host goes through [filesystem_error] too. *)
Definition call {A} (c : host_call F A) : M node_fs A := fun s =>
  let '(r, w) := perform c (nf_host s) in
  (match r with inl a => Done a | inr code => Raise (filesystem_error code) end,
   s <| nf_host := w |> <| nf_calls := nf_calls s ++ [Event c r] |>).
(** [try { ... } finally { await ... }] *)
Definition and_finally {A} (body : M node_fs A) (cleanup : M node_fs unit) : M node_fs A := fun s =>
  match body s with
  | (Loops, s) => (Loops, s)
  | (o, s) => match cleanup s with (Done _, s) => (o, s) | (Raise e, s) => (Raise e, s) | (Loops, s) => (Loops, s) end
  end.

(** The constructor: [#root_path] as it settles, and what the filesystem begins with. *)
Definition new_node_fs (root : text) (w : W) : outcome text * node_fs :=
  let '(r, w) := perform (Realpath (absolute (resolve_names cwd [root]))) w in
  (match r with inl p => Done p | inr code => Raise (filesystem_error code) end, NodeFS [Node [] true] {[key [] := 0%nat]} w []).

Context (root_path : outcome text) (read_only : bool).
(** [#writable] *)
Definition writable : M node_fs unit := if read_only then throw (fs_error "EROFS") else mret tt.
(** [#node] *)
Definition node_for (parts : list text) : M node_fs nat :=
  s ← get_state;
  match nf_nodes s !! key parts with
  | Some id => mret id
  | None =>
      let id := length (nf_heap s) in
      modify (fun s => s <| nf_heap := nf_heap s ++ [Node parts true] |> <| nf_nodes := <[key parts := id]> (nf_nodes s) |>) ;;
      mret id
  end.
(** [#parts] *)
Definition parts_of (id : nat) : M node_fs (list text) :=
  s ← get_state;
  match nf_heap s !! id with
  | None => throw (fs_error "EINVAL")
  | Some n => if nd_attached n then mret (nd_parts n) else throw (fs_error "ENOENT")
  end.
(** Whether a path is the root or below it, as the source asks. *)
Definition inside (root p : text) : bool :=
  let relative := path_relative cwd root p in
  negb (bool_decide (relative = lit "..") || bool_decide (lit "../" `prefix_of` relative) || is_absolute relative)%bool.
(** [#path] *)
Definition host_path (parts : list text) : M node_fs text :=
  root ← lift root_path;
  let result := absolute (resolve_names cwd (root :: parts)) in
  if inside root result then mret result else throw (fs_error "EACCES").
(** [#validated_path] *)
Definition validated_path (parts : list text) : M node_fs text :=
  root ← lift root_path;
  result ← host_path parts;
  actual_parent ← call (Realpath (if bool_decide (parts = []) then result else dirname result));
  if inside root actual_parent then mret result else throw (fs_error "EACCES").
(** [#stats] *)
Definition stats (id : nat) : M node_fs BigIntStats :=
  parts ← parts_of id; path ← validated_path parts; call (Lstat path).
Definition under (k candidate : text) : bool := (bool_decide (candidate = k) || bool_decide (k ++ [47] `prefix_of` candidate))%bool.
(** [#forget]: the loop over [#nodes]. *)
Definition forget_entry (k : text) (s : node_fs) (entry : text * nat) : node_fs :=
  if under k entry.1
  then s <| nf_nodes := delete entry.1 (nf_nodes s) |> <| nf_heap := alter (fun n => n <| nd_attached := false |>) entry.2 (nf_heap s) |>
  else s.
Definition forget (parts : list text) : M node_fs unit :=
  modify (fun s => foldl (forget_entry (key parts)) s (map_to_list (nf_nodes s))).
(** [[...this.#parts(parent), valid_name(name)]] *)
Definition child_parts (parent : nat) (name : text) : M node_fs (list text) :=
  parts ← parts_of parent; name ← lift (valid_name name); mret (parts ++ [name]).

Definition lookup (parent : nat) (name : text) : M node_fs (option nat) :=
  parts ← child_parts parent name;
  node ← node_for parts;
  catch (stats node ;; mret (Some node))
    (fun error => if bool_decide (error = FSError 2) then forget parts ;; mret None else throw error).
Definition getattr (id : nat) (handle : option (option F)) : M node_fs attributes :=
  match handle with
  | Some (Some file) => st ← call (FileStat file); mret (node_attributes st)
  | _ => st ← stats id; mret (node_attributes st)
  end.
Definition readlink (id : nat) : M node_fs text :=
  parts ← parts_of id; path ← validated_path parts; call (Readlink path).
Definition symlink (parent : nat) (name target : text) (_ : context) : M node_fs nat :=
  writable ;;
  parts ← child_parts parent name;
  path ← validated_path parts;
  call (SymlinkAt target path) ;;
  node_for parts.

(** ** [setattr] *)
Definition current (id : nat) (file : option F) : M node_fs BigIntStats :=
  match file with Some f => call (FileStat f) | None => stats id end.
Definition set_mode (id : nat) (mode : Z) (target : F + text) : M node_fs unit :=
  match target with
  | inl f => call (FileChmod f (mode &&& 0xfff))
  | inr path =>
      st ← stats id;
      if isSymbolicLink st then throw (fs_error "EOPNOTSUPP") else call (Chmod path (mode &&& 0xfff))
  end.
Definition set_owner (id : nat) (file : option F) (new_uid new_gid : option Z) (target : F + text) : M node_fs unit :=
  existing ← current id file;
  let uid := default (js_number (st_uid existing)) new_uid in
  let gid := default (js_number (st_gid existing)) new_gid in
  match target with inl f => call (FileChown f uid gid) | inr path => call (Lchown path uid gid) end.
Definition set_size (size : Z) (target : F + text) : M node_fs unit :=
  size ← lift (checked_offset size);
  match target with
  | inl f => call (FileTruncate f size)
  | inr path =>
      temporary ← call (OpenFile path (constant "O_WRONLY" ||| constant "O_NOFOLLOW") None);
      and_finally (call (FileTruncate temporary size)) (call (FileClose temporary))
  end.
Definition to_date (value : option new_time) (fallback : Z) : new_date :=
  match value with
  | None => DateNs fallback
  | Some Now => DateNow
  | Some (At t) => DateOf (seconds t) (default 0 (nanoseconds t))
  end.
Definition set_times (id : nat) (file : option F) (atime mtime : option new_time) (target : F + text) : M node_fs unit :=
  existing ← current id file;
  let atime := to_date atime (st_atimeNs existing) in
  let mtime := to_date mtime (st_mtimeNs existing) in
  match target with inl f => call (FileUtimes f atime mtime) | inr path => call (Lutimes path atime mtime) end.
Definition given {A} (o : option A) : bool := bool_decide (is_Some o).
(** [#setattr] *)
Definition setattr_of (id : nat) (changes : set_attributes) (file : option F) : M node_fs attributes :=
  target ← match file with
           | Some f => mret (inl f)
           | None => parts ← parts_of id; path ← validated_path parts; mret (inr path)
           end;
  (if sa_mode changes is Some mode then set_mode id mode target else mret tt) ;;
  (if (given (sa_uid changes) || given (sa_gid changes))%bool then set_owner id file (sa_uid changes) (sa_gid changes) target
   else mret tt) ;;
  (if sa_size changes is Some size then set_size size target else mret tt) ;;
  (if (given (sa_atime changes) || given (sa_mtime changes))%bool then set_times id file (sa_atime changes) (sa_mtime changes) target
   else mret tt) ;;
  st ← current id file;
  mret (node_attributes st).
Definition setattr (id : nat) (changes : set_attributes) (handle : option (option F)) : M node_fs attributes :=
  writable ;;
  setattr_of id changes (match handle with Some (Some file) => Some file | _ => None end).

(** ** Files *)
Definition open (id : nat) (flags : Z) : M node_fs (option F) :=
  (if (read_only && may_write flags)%bool then writable else mret tt) ;;
  flags ← lift (translate_open_flags flags);
  let host_flags := flags ||| constant "O_NOFOLLOW" in
  parts ← parts_of id;
  target ← validated_path parts;
  file ← call (OpenFile target host_flags None);
  mret (Some file).
Definition create (parent : nat) (name : text) (flags : Z) (context : context) : M node_fs (nat * option F) :=
  writable ;;
  flags ← lift (translate_open_flags (to_i32 (flags ||| linux "create")));
  let host_flags := flags ||| constant "O_CREAT" ||| constant "O_NOFOLLOW" in
  parts ← child_parts parent name;
  target ← validated_path parts;
  file ← call (OpenFile target host_flags (Some (cx_mode context &&& 0xfff)));
  id ← node_for parts;
  mret (id, Some file).
Definition file_of (handle : option F) : M node_fs F := lift (of_option (fs_error "EBADF") handle).
Definition read (_ : nat) (handle : option F) (offset length : Z) : M node_fs (list Z) :=
  file ← file_of handle;
  offset ← lift (checked_offset offset);
  '(bytesRead, buffer) ← call (FileRead file length offset);
  mret (subarray buffer 0 bytesRead).
Definition write (_ : nat) (handle : option F) (offset : Z) (data : list Z) : M node_fs (option Z) :=
  writable ;;
  file ← file_of handle;
  offset ← lift (checked_offset offset);
  bytesWritten ← call (FileWrite file data offset);
  mret (Some bytesWritten).
Definition flush (_ : nat) (handle : option F) : M node_fs unit := file ← file_of handle; call (FileDatasync file).
Definition fsync (_ : nat) (handle : option F) (dataOnly : bool) : M node_fs unit :=
  file ← file_of handle; call (if dataOnly then FileDatasync file else FileSync file).
Definition release (_ : nat) (handle : option F) : M node_fs unit := file ← file_of handle; call (FileClose file).

(** ** Directories *)
Definition opendir (id : nat) (_ : Z) : M node_fs (option F) :=
  st ← stats id; if isDirectory st then mret None else throw (fs_error "ENOTDIR").
Fixpoint nodes_for (parts : list text) (names : list text) : M node_fs (list (text * nat)) :=
  match names with
  | [] => mret []
  | name :: names => id ← node_for (parts ++ [name]); rest ← nodes_for parts names; mret ((name, id) :: rest)
  end.
Definition readdir (id : nat) (_ : option F) : M node_fs (list (text * nat)) :=
  parts ← parts_of id;
  target ← validated_path parts;
  names ← call (Readdir target);
  nodes_for parts names.
Definition mkdir (parent : nat) (name : text) (context : context) : M node_fs nat :=
  writable ;;
  parts ← child_parts parent name;
  path ← validated_path parts;
  call (MkdirAt path (cx_mode context &&& 0xfff)) ;;
  node_for parts.
(** [unlink] and [rmdir], which differ in the host's call. *)
Definition remove_with (c : text → host_call F unit) (parent : nat) (name : text) : M node_fs unit :=
  writable ;;
  parts ← child_parts parent name;
  id ← node_for parts;
  stats id ;;
  path ← validated_path parts;
  call (c path) ;;
  forget parts.
Definition unlink : nat → text → M node_fs unit := remove_with Unlink.
Definition rmdir : nat → text → M node_fs unit := remove_with Rmdir.
(** The loop over a copy of [#nodes]. *)
Definition move_entry (old_parts new_parts : list text) (s : node_fs) (entry : text * nat) : node_fs :=
  if under (key old_parts) entry.1 then
    match nf_heap s !! entry.2 with
    | None => s
    | Some n =>
        let parts := new_parts ++ drop (length old_parts) (nd_parts n) in
        s <| nf_heap := alter (fun n => n <| nd_parts := parts |>) entry.2 (nf_heap s) |>
          <| nf_nodes := <[key parts := entry.2]> (delete entry.1 (nf_nodes s)) |>
    end
  else s.
Definition move (old_parts new_parts : list text) : M node_fs unit :=
  modify (fun s => foldl (move_entry old_parts new_parts) s (map_to_list (nf_nodes s))).
Definition rename (oldParent : nat) (oldName : text) (newParent : nat) (newName : text) : M node_fs unit :=
  writable ;;
  old_parts ← child_parts oldParent oldName;
  new_parts ← child_parts newParent newName;
  if bool_decide (key old_parts = key new_parts) then mret tt
  else
    source ← validated_path old_parts;
    id ← node_for old_parts;
    stats id ;;
    destination ← validated_path new_parts;
    call (Rename source destination) ;;
    forget new_parts ;;
    move old_parts new_parts.
Definition access (id : nat) (mask : Z) : M node_fs unit :=
  st ← stats id;
  if isSymbolicLink st then throw (fs_error "ELOOP")
  else parts ← parts_of id; path ← validated_path parts; call (Access path mask).
Definition statfs_of (_ : nat) : M node_fs (option statfs) :=
  root ← lift root_path;
  st ← call (StatfsOf root);
  let bsize := js_number (sv_bsize st) in
  mret (Some (Statfs (Some (sv_blocks st)) (Some (sv_bfree st)) (Some (sv_bavail st)) (Some (sv_files st)) (Some (sv_ffree st))
    (Some bsize) (Some bsize) (Some 255))).

(** The [FS] that it implements. *)
Definition node_filesystem : filesystem nat (option F) node_fs :=
  Filesystem _ _ _ 0%nat lookup getattr (Some setattr) (Some readlink) (Some symlink) (Some mkdir) (Some unlink) (Some rmdir)
    (Some rename) (Some open) (Some create) (Some read) (Some write) (Some flush) (Some fsync) (Some release) (Some opendir)
    (Some readdir) None (Some access) (Some statfs_of) None.
End node_fs.
