(* ===== verification/NodeFsOk.v ===== *)
(** What NodeFs.v does: the table of its nodes, the host's paths that it uses, and the
    virtio-fs device in front of it. *)
From S2P Require Export NodeFs.

(** * Keys and names *)
Definition name_ok (part : text) : Prop := part ≠ [] ∧ (47 ∉ part).
Lemma valid_name_ok name n : valid_name name = Done n → n = name ∧ name_ok name ∧ name ≠ lit "." ∧ name ≠ lit "..".
Proof.
  unfold valid_name. destruct (_ || _)%bool eqn:E; [done|]. intros [= <-]. rewrite !orb_false_iff, !bool_decide_eq_false in E.
  destruct E as ((((E1&E2)&E3)&E4)&E5). split_and!; try done. split; [|done]. by intros ->.
Qed.
Lemma join_app_sep (a b : list text) : a ≠ [] → b ≠ [] → Text.join [47] (a ++ b) = Text.join [47] a ++ 47 :: Text.join [47] b.
Proof.
  intros Ha Hb. induction a as [|x a IH]; [done|]. destruct a as [|y a]; [by destruct b|].
  change (Text.join [47] ((x :: y :: a) ++ b)) with (x ++ 47 :: Text.join [47] ((y :: a) ++ b)). rewrite IH by done.
  change (Text.join [47] (x :: y :: a)) with (x ++ 47 :: Text.join [47] (y :: a)). by rewrite <- app_assoc.
Qed.
Lemma split_join_app (a : list text) r : a ≠ [] → Forall (fun p => 47 ∉ p) a → split_text 47 (Text.join [47] a ++ 47 :: r) = a ++ split_text 47 r.
Proof.
  intros Hne H. induction H as [|x a Hx H IH]; [done|]. destruct a as [|y a].
  - unfold split_text. cbn [Text.join]. by rewrite split_from_app.
  - change (Text.join [47] (x :: y :: a)) with (x ++ 47 :: Text.join [47] (y :: a)). rewrite <- app_assoc. cbn [app].
    unfold split_text at 1. rewrite split_from_app by done. rewrite IH by done. done.
Qed.
Lemma names_no_slash parts : Forall name_ok parts → Forall (fun p => 47 ∉ p) parts.
Proof. intros H. eapply Forall_impl; [exact H|]. by intros p []. Qed.
Lemma key_nil parts : Forall name_ok parts → key parts = [] → parts = [].
Proof. intros [|p ps [Hp _] _]; [done|]. unfold key. destruct ps; cbn [Text.join]; [done|]. destruct p; [done|]. done. Qed.
Lemma key_inj a b : Forall name_ok a → Forall name_ok b → key a = key b → a = b.
Proof.
  intros Ha Hb E. destruct a as [|x a]; [symmetry; apply key_nil; [done|by rewrite <- E]|]. destruct b as [|y b]; [by apply key_nil in E|].
  rewrite <- (split_join 47 (x :: a)), <- (split_join 47 (y :: b)) by (done || by apply names_no_slash). unfold key in E. change (lit "/") with [47] in E. by rewrite E.
Qed.
Lemma under_prefix a b : a ≠ [] → Forall name_ok a → Forall name_ok b → under (key a) (key b) = true ↔ a `prefix_of` b.
Proof.
  intros Hne Ha Hb. unfold under. rewrite orb_true_iff, !bool_decide_eq_true. split.
  - intros [E|[r E]]; [by rewrite (key_inj _ _ Hb Ha E)|]. unfold key in E. change (lit "/") with [47] in E. rewrite <- app_assoc in E.
    destruct b as [|y b]; [by destruct (Text.join [47] a)|]. rewrite <- (split_join 47 (y :: b)), E by (done || by apply names_no_slash).
    change ([47] ++ r) with (47 :: r). rewrite split_join_app by (done || by apply names_no_slash). by eexists.
  - intros [c ->]. destruct c as [|x c]; [left; by rewrite app_nil_r|]. right. unfold key. change (lit "/") with [47].
    rewrite join_app_sep by done. exists (Text.join [47] (x :: c)). by rewrite <- app_assoc.
Qed.

(** * The table of nodes

    [#nodes] has each attached [Node] object under its own path, and no other; so that
    an object is one place of the tree, and a place one object. *)
Section table.
Context {F W : Type}.
Abbreviation node_fs := (@node_fs F W).
Record table_ok (s : node_fs) : Prop := {
  to_entry : ∀ k id, nf_nodes s !! k = Some id → ∃ parts, nf_heap s !! id = Some (Node parts true) ∧ k = key parts ∧ Forall name_ok parts;
  to_node : ∀ id parts, nf_heap s !! id = Some (Node parts true) → nf_nodes s !! key parts = Some id;
  to_root : nf_heap s !! 0%nat = Some (Node [] true) }.
Lemma to_names s id parts : table_ok s → nf_heap s !! id = Some (Node parts true) → Forall name_ok parts.
Proof. intros Hs Hi. destruct (to_entry _ Hs _ _ (to_node _ Hs _ _ Hi)) as (p&Hp&_&H). by assert (p = parts) as -> by congruence. Qed.
Lemma to_same s id id' parts : table_ok s → nf_heap s !! id = Some (Node parts true) → nf_heap s !! id' = Some (Node parts true) → id = id'.
Proof. intros Hs H1 H2. apply (to_node _ Hs) in H1, H2. congruence. Qed.

(** Entries that are as in the table. *)
Definition entry_of (s : node_fs) (e : text * nat) : Prop := nf_nodes s !! e.1 = Some e.2.

Lemma forget_entry_spec k s e : k ≠ [] → table_ok s → entry_of s e →
  let s' := forget_entry k s e in table_ok s' ∧
  (∀ k' id, nf_nodes s' !! k' = Some id ↔ nf_nodes s !! k' = Some id ∧ ¬ (k' = e.1 ∧ under k e.1 = true)) ∧
  (∀ id, nf_heap s' !! id = (fun n => if bool_decide (id = e.2 ∧ under k e.1 = true) then Node (nd_parts n) false else n) <$> nf_heap s !! id) ∧
  nf_calls s' = nf_calls s.
Proof.
  intros Hk Hs He. unfold forget_entry, entry_of in *. destruct e as [k0 id0]. cbn [fst snd] in *. destruct (under k k0) eqn:Eu.
  2:{ split_and!; [done| | |done].
    - intros k' id. split; [intros H; split; [done|by intros []]|by intros []].
    - intros id. rewrite bool_decide_false by (by intros []). by destruct (nf_heap s !! id). }
  destruct (to_entry _ Hs _ _ He) as (p0&Hp0&->&Hok).
  assert (Hd : ∀ k' id, delete (key p0) (nf_nodes s) !! k' = Some id ↔ nf_nodes s !! k' = Some id ∧ ¬ (k' = key p0 ∧ true = true)).
  { intros k' id. rewrite lookup_delete_Some. naive_solver. }
  assert (Hh : ∀ id, alter (fun n => Node (nd_parts n) false) id0 (nf_heap s) !! id =
    (fun n => if bool_decide (id = id0 ∧ true = true) then Node (nd_parts n) false else n) <$> nf_heap s !! id).
  { intros id. destruct (decide (id = id0)) as [->|Hne].
    - rewrite list_lookup_alter_eq. rewrite bool_decide_true by done. done.
    - rewrite list_lookup_alter_ne by done. rewrite bool_decide_false by tauto. by destruct (nf_heap s !! id). }
  split_and!; [|exact Hd|exact Hh|done]. split; cbn.
  - intros k' id (H1&H2)%Hd. destruct (to_entry _ Hs _ _ H1) as (p&Hp&->&Hn). exists p. split_and!; [|done|done].
    rewrite list_lookup_alter_ne; [done|]. intros ->. apply H2. split; [|done]. congruence.
  - intros id parts H. apply Hd. destruct (decide (id = id0)) as [->|Hne].
    { rewrite list_lookup_alter_eq, Hp0 in H. done. }
    rewrite list_lookup_alter_ne in H by done. split; [by apply (to_node _ Hs)|]. intros [E _]. apply (to_node _ Hs) in H. congruence.
  - rewrite list_lookup_alter_ne; [by apply (to_root _ Hs)|]. intros ->. rewrite (to_root _ Hs) in Hp0. injection Hp0 as <-.
    unfold under in Eu. rewrite orb_true_iff, !bool_decide_eq_true in Eu. cbn in Eu. destruct Eu as [Eu|[r Eu]]; [by destruct k|]. by destruct k.
Qed.
Definition forgotten (k : text) (l : list (text * nat)) (id : nat) : Prop := ∃ k', (k', id) ∈ l ∧ under k k' = true.
#[local] Instance forgotten_dec k l id : Decision (forgotten k l id).
Proof.
  destruct (decide (Exists (fun e => e.2 = id ∧ under k e.1 = true) l)) as [H|H]; [left|right].
  - apply Exists_exists in H as ([k' i]&Hin&<-&Hu). by exists k'.
  - intros (k'&Hin&Hu). apply H, Exists_exists. by exists (k', id).
Qed.
Lemma forget_entries k l s : k ≠ [] → table_ok s → NoDup l.*1 → Forall (entry_of s) l →
  let s' := foldl (forget_entry k) s l in table_ok s' ∧ nf_calls s' = nf_calls s ∧
  (∀ k' id, nf_nodes s' !! k' = Some id ↔ nf_nodes s !! k' = Some id ∧ ¬ ((k', id) ∈ l ∧ under k k' = true)) ∧
  (∀ id, nf_heap s' !! id = (fun n => if bool_decide (forgotten k l id) then Node (nd_parts n) false else n) <$> nf_heap s !! id).
Proof.
  intros Hk. revert s. induction l as [|e l IH]; intros s Hs Hd Hf; cbn [foldl].
  { split_and!; [done|done|intros k' id; set_solver|]. intros id. rewrite bool_decide_false by (intros (?&?&_); set_solver). by destruct (nf_heap s !! id). }
  cbn in Hd. apply NoDup_cons in Hd as [Hnin Hd]. apply Forall_cons in Hf as [He Hf].
  destruct (forget_entry_spec k s e Hk Hs He) as (A1&A2&A3&A4). destruct e as [ke ie]. cbn [fst snd] in *.
  destruct (IH _ A1 Hd) as (B1&B2&B3&B4).
  { rewrite Forall_forall in Hf |- *. intros [k2 i2] Hin. apply A2. split; [by apply (Hf (k2, i2))|]. cbn. intros [-> _]. apply Hnin. by apply (list_elem_of_fmap_2 fst) in Hin. }
  split_and!; [done|by rewrite B2| |].
  - intros k' id. rewrite B3, A2, elem_of_cons. split.
    + intros ((H1&H2)&H3). split; [done|]. intros ([[= -> ->]|?]&?); tauto.
    + intros (H1&H2). split_and!; [done| |tauto]. intros [-> Hu]. apply H2. split; [|done]. left. unfold entry_of in He. cbn in He. congruence.
  - intros id. rewrite B4, A3. destruct (nf_heap s !! id) as [n|]; [|done]. cbn. f_equal.
    destruct (decide (forgotten k l id)) as [Hl|Hl].
    { rewrite (bool_decide_true (forgotten k l id)), (bool_decide_true (forgotten k ((ke, ie) :: l) id)) by (done || by destruct Hl as (k2&?&?); exists k2; split; [by right|]).
      by case_bool_decide. }
    rewrite (bool_decide_false (forgotten k l id)) by done. erewrite bool_decide_ext; [done|]. split.
    + intros [-> Hu]. exists ke. split; [by left|done].
    + intros (k2&Hin&Hu). apply elem_of_cons in Hin as [[= -> ->]|Hin]; [done|]. destruct Hl. by exists k2.
Qed.
Lemma entries_of s : NoDup (map_to_list (nf_nodes s)).*1 ∧ Forall (entry_of s) (map_to_list (nf_nodes s)).
Proof. split; [apply NoDup_fst_map_to_list|]. apply Forall_forall. intros [k id] H. by apply elem_of_map_to_list in H. Qed.
(** Forgetting a path detaches what is there and below, and touches nothing else. *)
Lemma forget_spec parts s : parts ≠ [] → Forall name_ok parts → table_ok s →
  let s' := (forget parts s).2 in table_ok s' ∧ nf_calls s' = nf_calls s ∧
  (∀ k id, nf_nodes s' !! k = Some id → under (key parts) k = false) ∧
  (∀ id, nf_heap s' !! id = (fun n => if (nd_attached n && bool_decide (parts `prefix_of` nd_parts n))%bool then Node (nd_parts n) false else n) <$> nf_heap s !! id).
Proof.
  intros Hne Hp Hs. unfold forget, modify. cbn [snd]. destruct (entries_of s) as [H1 H2]. assert (Hk : key parts ≠ []) by (intros E; by apply key_nil in E).
  destruct (forget_entries (key parts) _ s Hk Hs H1 H2) as (B1&B2&B3&B4). split_and!; [done|done| |].
  - intros k id (A1&A2)%B3. destruct (under (key parts) k) eqn:E; [|done]. destruct A2. split; [by apply elem_of_map_to_list|done].
  - intros id. rewrite B4. destruct (nf_heap s !! id) as [n|] eqn:En; [|done]. cbn. f_equal. destruct n as [p attached]. cbn.
    assert (Hiff : attached = true → forgotten (key parts) (map_to_list (nf_nodes s)) id ↔ parts `prefix_of` p).
    { intros ->. assert (Hn := to_names _ _ _ Hs En). split.
      - intros (k&Hin&Hu). apply elem_of_map_to_list in Hin. destruct (to_entry _ Hs _ _ Hin) as (p'&Hp'&->&_).
        assert (p' = p) as -> by congruence. by apply (under_prefix parts p).
      - intros Hpre. exists (key p). split; [by apply elem_of_map_to_list, (to_node _ Hs)|]. by apply (under_prefix parts p). }
    destruct attached; cbn [andb]; [by rewrite (bool_decide_ext _ _ (Hiff eq_refl))|by case_bool_decide].
Qed.

(** Moving an entry to a place that is free. *)
Section move.
Context (old new : list text) (Hold : old ≠ []) (Hnew : new ≠ []) (Hold_ok : Forall name_ok old) (Hnew_ok : Forall name_ok new).
Definition moved_parts (parts : list text) : list text := new ++ drop (length old) parts.
Lemma moved_inj p q : old `prefix_of` p → old `prefix_of` q → moved_parts p = moved_parts q → p = q.
Proof using. unfold moved_parts. intros [p' ->] [q' ->]. rewrite !drop_app_length. by intros ->%app_inv_head. Qed.
Lemma moved_names p : Forall name_ok p → Forall name_ok (moved_parts p).
Proof using Hnew_ok. intros H. apply Forall_app_2; [done|by apply Forall_drop]. Qed.
Lemma move_entry_spec s p id : table_ok s → nf_heap s !! id = Some (Node p true) → old `prefix_of` p → nf_nodes s !! key (moved_parts p) = None →
  let s' := move_entry old new s (key p, id) in table_ok s' ∧ nf_calls s' = nf_calls s ∧
  (∀ k i, nf_nodes s' !! k = Some i ↔ k = key (moved_parts p) ∧ i = id ∨ k ≠ key p ∧ nf_nodes s !! k = Some i) ∧
  (∀ i, nf_heap s' !! i = (fun n => if bool_decide (i = id) then Node (moved_parts p) true else n) <$> nf_heap s !! i).
Proof using Hold Hold_ok Hnew_ok.
  intros Hs Hp Hpre Hfree. assert (Hn := to_names _ _ _ Hs Hp). assert (Hk := to_node _ Hs _ _ Hp).
  assert (Hne : key (moved_parts p) ≠ key p) by congruence.
  unfold move_entry. cbn [fst snd]. rewrite (proj2 (under_prefix old p Hold Hold_ok Hn)) by done. rewrite Hp.
  change (new ++ drop (length old) (nd_parts (Node p true))) with (moved_parts p).
  assert (Hd : ∀ k i, <[key (moved_parts p):=id]> (delete (key p) (nf_nodes s)) !! k = Some i ↔
    k = key (moved_parts p) ∧ i = id ∨ k ≠ key p ∧ nf_nodes s !! k = Some i).
  { intros k i. rewrite lookup_insert_Some, lookup_delete_Some. split; [naive_solver|]. intros [[-> ->]|[H1 H2]]; [by left|right]. split; [congruence|done]. }
  assert (Hh : ∀ i, alter (fun n => Node (moved_parts p) (nd_attached n)) id (nf_heap s) !! i =
    (fun n => if bool_decide (i = id) then Node (moved_parts p) true else n) <$> nf_heap s !! i).
  { intros i. case_bool_decide as E; [subst; by rewrite list_lookup_alter_eq, Hp|]. rewrite list_lookup_alter_ne by done. by destruct (nf_heap s !! i). }
  split_and!; [|done|exact Hd|exact Hh]. split; cbn.
  - intros k i [[-> ->]|[H1 H2]]%Hd.
    + exists (moved_parts p). split_and!; [|done|by apply moved_names]. by rewrite list_lookup_alter_eq, Hp.
    + destruct (to_entry _ Hs _ _ H2) as (q&Hq&->&Hq'). exists q. split_and!; [|done|done]. rewrite list_lookup_alter_ne; [done|]. intros ->. apply H1. congruence.
  - intros i q H. apply Hd. destruct (decide (i = id)) as [->|E].
    + rewrite list_lookup_alter_eq, Hp in H. injection H as <-. by left.
    + rewrite list_lookup_alter_ne in H by done. right. split; [|by apply (to_node _ Hs)]. intros E2. apply (to_node _ Hs) in H. congruence.
  - rewrite list_lookup_alter_ne; [by apply (to_root _ Hs)|]. intros ->. rewrite (to_root _ Hs) in Hp. injection Hp as <-. by apply prefix_nil_inv in Hpre.
Qed.
Definition moves (l : list (text * nat)) (id : nat) (n : node) : Prop := (key (nd_parts n), id) ∈ l ∧ nd_attached n = true ∧ old `prefix_of` nd_parts n.
Lemma move_entries l s : table_ok s → NoDup l.*1 → Forall (entry_of s) l →
  (∀ id p, (key p, id) ∈ l → nf_heap s !! id = Some (Node p true) → old `prefix_of` p → nf_nodes s !! key (moved_parts p) = None) →
  let s' := foldl (move_entry old new) s l in table_ok s' ∧ nf_calls s' = nf_calls s ∧
  (∀ id, nf_heap s' !! id = (fun n => if bool_decide (moves l id n) then Node (moved_parts (nd_parts n)) true else n) <$> nf_heap s !! id).
Proof using Hold Hnew Hold_ok Hnew_ok.
  revert s. induction l as [|[k id] l IH]; intros s Hs Hd Hf Hfree; cbn [foldl].
  { split_and!; [done|done|]. intros id. destruct (nf_heap s !! id) as [n|]; [|done]. cbn. rewrite bool_decide_false; [done|]. intros [H _]. set_solver. }
  cbn in Hd. apply NoDup_cons in Hd as [Hnin Hd]. apply Forall_cons in Hf as [He Hf]. rewrite Forall_forall in Hf.
  change (nf_nodes s !! k = Some id) in He. destruct (to_entry _ Hs _ _ He) as (p&Hp&->&Hn).
  assert (Hother : ∀ k2 id2, (k2, id2) ∈ l → k2 ≠ key p ∧ id2 ≠ id ∧ nf_nodes s !! k2 = Some id2).
  { intros k2 id2 Hin. assert (k2 ≠ key p) by (intros ->; apply Hnin; by apply (list_elem_of_fmap_2 fst) in Hin). pose proof (Hf _ Hin) as H2.
    split_and!; [done| |done]. intros ->. destruct (to_entry _ Hs _ _ H2) as (q&Hq&E&_). cbn in Hq, E. congruence. }
  destruct (decide (old `prefix_of` p)) as [Hpre|Hpre].
  2:{ assert (E : move_entry old new s (key p, id) = s).
      { unfold move_entry. cbn [fst]. destruct (under (key old) (key p)) eqn:Eu; [|done]. by apply (under_prefix old p) in Eu. }
      rewrite E. destruct (IH s Hs Hd) as (A1&A2&A3); [by apply Forall_forall|intros i q Hin; apply Hfree; by right|].
      split_and!; [done|done|]. intros i. rewrite A3. destruct (nf_heap s !! i) as [n|] eqn:En; [|done]. cbn. f_equal. erewrite bool_decide_ext; [done|].
      unfold moves. rewrite elem_of_cons. split; [tauto|]. intros ([[= Ek ->]|H1]&H2&H3); [|done]. assert (n = Node p true) as -> by congruence. done. }
  destruct (move_entry_spec s p id Hs Hp Hpre) as (A1&A2&A3&A4); [apply (Hfree id); [by left|done|done]|].
  set (s1 := move_entry old new s (key p, id)) in *. assert (Hfree1 : nf_nodes s !! key (moved_parts p) = None) by (apply Hfree with id; [by left|done|done]).
  destruct (IH s1 A1 Hd) as (B1&B2&B3).
  - apply Forall_forall. intros [k2 id2] Hin. destruct (Hother k2 id2 Hin) as (H1&H2&H3). apply A3. by right.
  - intros id2 q Hin Hq Hpre2. destruct (Hother _ id2 Hin) as (H1&H2&H3). rewrite A4, bool_decide_false in Hq by done.
    assert (Hq' : nf_heap s !! id2 = Some (Node q true)) by (revert Hq; clear; by destruct (nf_heap s !! id2)).
    destruct (nf_nodes s1 !! key (moved_parts q)) as [i|] eqn:Ei; [|done]. apply A3 in Ei as [[E _]|[_ E]].
    + apply key_inj in E; [|exact (moved_names _ (to_names _ _ _ Hs Hq'))|by apply moved_names]. apply moved_inj in E; [|done|done]. congruence.
    + rewrite (Hfree id2 q) in E; [done|by right|done|done].
  - split_and!; [done|by rewrite B2|]. intros i. rewrite B3, A4. destruct (nf_heap s !! i) as [n|] eqn:En; [|done]. cbn. f_equal.
    destruct (decide (i = id)) as [->|Ei]; [rewrite (bool_decide_true (id = id)) by done|rewrite (bool_decide_false (i = id)) by done].
    + assert (n = Node p true) as -> by congruence. rewrite bool_decide_false.
      2:{ intros [H _]. destruct (Hother _ _ H) as (_&H2&_). done. }
      rewrite bool_decide_true; [done|]. split_and!; [by left|done|done].
    + erewrite bool_decide_ext; [done|]. unfold moves. rewrite elem_of_cons. split; [tauto|]. intros ([[= Ek ->]|H1]&H2&H3); [done|done].
Qed.
(** Moving a path, to a place with nothing at or below it. *)
Lemma move_spec s : table_ok s → (∀ k id, nf_nodes s !! k = Some id → under (key new) k = false) →
  let s' := (move old new s).2 in table_ok s' ∧ nf_calls s' = nf_calls s ∧
  (∀ id, nf_heap s' !! id = (fun n => if (nd_attached n && bool_decide (old `prefix_of` nd_parts n))%bool then Node (moved_parts (nd_parts n)) true else n) <$> nf_heap s !! id).
Proof using Hold Hold_ok Hnew Hnew_ok.
  intros Hs Hfree. destruct (entries_of s) as [H1 H2]. destruct (move_entries _ s Hs H1 H2) as (B1&B2&B3).
  - intros id p _ Hp Hpre. destruct (nf_nodes s !! key (moved_parts p)) as [i|] eqn:Ei; [|done]. apply Hfree in Ei.
    assert (Hu := proj2 (under_prefix new (moved_parts p) Hnew Hnew_ok (moved_names p (to_names _ _ _ Hs Hp)))). rewrite Ei in Hu. discriminate Hu. by eexists.
  - split_and!; [done|done|]. intros id. etrans; [apply B3|]. destruct (nf_heap s !! id) as [[p attached]|] eqn:En; [|done]. cbn. f_equal.
    destruct attached; cbn [andb].
    + erewrite bool_decide_ext; [done|]. unfold moves. cbn. split; [tauto|]. intros H. split; [|done]. by apply elem_of_map_to_list, (to_node _ Hs).
    + rewrite bool_decide_false; [done|]. by intros (_&?&_).
Qed.
End move.
End table.

(** * What the host is asked

    Of every call that an operation makes, given those it made before: a path is the
    root or below it, and so is what the host said of its directory; where the host
    would follow a symbolic link at its end, the path was seen not to be one, or the call
    asks not to, or it is the path of the directory that the operation is to list; and
    a filesystem that is read only modifies nothing. *)
Section runs.
Context {F W : Type} (perform : ∀ A, host_call F A → W → (A + string) * W).
Context (constants : string → option Z) (cwd : text) (root_path : outcome text) (read_only : bool).
Abbreviation node_fs := (@node_fs F W).
Definition call_paths {A} (c : host_call F A) : list text :=
  match c with
  | Lstat p | Readlink p | SymlinkAt _ p | Chmod p _ | Lchown p _ _ | Lutimes p _ _ | OpenFile p _ _ | MkdirAt p _ | Unlink p
  | Rmdir p | Readdir p | Access p _ => [p]
  | Rename p q => [p; q]
  | _ => []
  end.
Definition writing : Z :=
  constant constants "O_WRONLY" ||| constant constants "O_RDWR" ||| constant constants "O_CREAT" ||| constant constants "O_TRUNC" ||| constant constants "O_APPEND".
Definition modifies {A} (c : host_call F A) : Prop :=
  match c with
  | OpenFile _ flags _ => flags &&& writing ≠ 0
  | Realpath _ | Lstat _ | Readlink _ | Readdir _ | Access _ _ | StatfsOf _ | FileStat _ | FileRead _ _ _ | FileDatasync _ | FileSync _
  | FileClose _ => False
  | _ => True
  end.
Definition below (p q : text) : Prop := resolve_names cwd [p] `prefix_of` resolve_names cwd [q].
Definition validated (V : list (event F)) (p : text) : Prop :=
  ∃ root d real, root_path = Done root ∧ below root p ∧ below root real ∧ Event (Realpath d) (inl real) ∈ V ∧
    (d = dirname p ∨ d = p ∧ p = absolute (resolve_names cwd [root])).
Definition no_link (V : list (event F)) (p : text) : Prop := ∃ st, Event (Lstat p) (inl st) ∈ V ∧ isSymbolicLink st = false.
(** The path of a place. *)
Definition host_of (parts : list text) (p : text) : Prop := ∃ root, root_path = Done root ∧ p = absolute (resolve_names cwd (root :: parts)).
(** Names of a directory are names; and the host's bits for writing are not among the
    other bits. *)
Record host_ok : Prop := {
  ho_names p w names w' : perform _ (Readdir p) w = (inl names, w') → Forall name_ok names;
  ho_bits name : name ∈ ["O_RDONLY"; "O_EXCL"; "O_NOCTTY"; "O_NONBLOCK"; "O_SYNC"; "O_DSYNC"; "O_DIRECT"; "O_DIRECTORY"; "O_NOFOLLOW"; "O_NOATIME"]%string →
    constant constants name &&& writing = 0 }.
Context (Hhost : host_ok) (Hroot : root_path ≠ Loops).

(** The place of an attached node; and the place whose directory an operation lists. *)
Definition place (hp : list node) (id : nat) : option (list text) :=
  n ← hp !! id; if nd_attached n then Some (nd_parts n) else None.
(** The calls of an operation, which lists the directory of [listing], if any. *)
Section listing.
Context (listing : option (list text)).
Definition links_checked {A} (V : list (event F)) (c : host_call F A) : Prop :=
  match c with
  | Chmod p _ | Access p _ => no_link V p
  | OpenFile _ flags _ => flags &&& constant constants "O_NOFOLLOW" = constant constants "O_NOFOLLOW"
  | StatfsOf p => root_path = Done p
  | Readdir p => ∃ parts, listing = Some parts ∧ host_of parts p
  | _ => True
  end.
Definition allowed {A} (V : list (event F)) (c : host_call F A) : Prop :=
  Forall (validated V) (call_paths c) ∧ links_checked V c ∧ (read_only = true → ¬ modifies c).
Fixpoint all_allowed (V new : list (event F)) : Prop :=
  match new with
  | [] => True
  | Event c r as e :: new => allowed V c ∧ all_allowed (V ++ [e]) new
  end.

(** [runs h V m Q]: after the calls [V], [m] makes calls that are allowed and keeps the
    table, and the objects when they are [Some h]; and when it ends with a value, [Q]
    holds of it and of the calls by then. [runs_from h h'] has it begin with the objects
    [h] and end with [h']. *)
Definition fixed (h : option (list node)) (s : node_fs) : Prop := match h with Some h => nf_heap s = h | None => True end.
Definition sound (h : option (list node)) (s : node_fs) : Prop := table_ok s ∧ fixed h s.
Definition runs_from (h h' : option (list node)) {A} (V : list (event F)) (m : M node_fs A) (Q : A → list (event F) → Prop) : Prop :=
  ∀ s, sound h s → ∃ new, nf_calls (m s).2 = nf_calls s ++ new ∧ sound h' (m s).2 ∧ all_allowed V new ∧
    match (m s).1 with Done a => Q a (V ++ new) | Raise _ => True | Loops => False end.
Definition runs (h : option (list node)) {A} := @runs_from h h A.
Lemma all_allowed_app V a b : all_allowed V a → all_allowed (V ++ a) b → all_allowed V (a ++ b).
Proof using.
  revert V. induction a as [|[A c r] a IH]; intros V; cbn; [by rewrite app_nil_r|]. intros [H1 H2] Hb. split; [done|]. apply IH; [done|].
  by rewrite <- app_assoc.
Qed.
Lemma validated_mono V V' p : V `prefix_of` V' → validated V p → validated V' p.
Proof using. intros [W' ->] (root&d&real&H1&H2&H3&H4&H5). exists root, d, real. split_and!; try done. apply elem_of_app. by left. Qed.
Lemma no_link_mono V V' p : V `prefix_of` V' → no_link V p → no_link V' p.
Proof using. intros [W' ->] (st&H1&H2). exists st. split; [|done]. apply elem_of_app. by left. Qed.

(** ** The rules *)
Lemma runs_ret {A} h V (a : A) (Q : A → list (event F) → Prop) : Q a V → runs h V (mret a) Q.
Proof using. intros H s Hs. exists []. cbn. by rewrite !app_nil_r. Qed.
Lemma runs_throw {A} h V e (Q : A → list (event F) → Prop) : runs h V (throw e) Q.
Proof using. intros s Hs. exists []. cbn. by rewrite app_nil_r. Qed.
Lemma runs_lift {A} h V (o : outcome A) (Q : A → list (event F) → Prop) : (∀ a, o = Done a → Q a V) → o ≠ Loops → runs h V (lift o) Q.
Proof using. intros H Ho s Hs. exists []. cbn. rewrite !app_nil_r. split_and!; try done. destruct o; auto. Qed.
Lemma sound_any h s : sound h s → sound None s.
Proof using. by intros [? _]. Qed.
Lemma runs_from_any {A} hp V (m : M node_fs A) (Q : A → list (event F) → Prop) : runs None V m Q → runs_from (Some hp) None V m Q.
Proof using. intros Hm s Hs. apply Hm. by eapply sound_any. Qed.
Lemma runs_from_bind {A B} h h' V (m : M node_fs A) (k : A → M node_fs B) R (Q : B → list (event F) → Prop) :
  runs h V m R → (∀ a V', V `prefix_of` V' → R a V' → runs_from h h' V' (k a) Q) → (h' = h ∨ h' = None) → runs_from h h' V (m ≫= k) Q.
Proof using.
  intros Hm Hk Hh s Hs. destruct (Hm s Hs) as (new&H1&H2&H3&H4). unfold mbind, M_bind. destruct (m s) as [[a|e|] s']; cbn in *; [| |done].
  - destruct (Hk a (V ++ new) ltac:(by eexists) H4 s' H2) as (new2&G1&G2&G3&G4). exists (new ++ new2). rewrite G1, H1, <- app_assoc.
    split_and!; [done|done|by apply all_allowed_app|]. by rewrite app_assoc.
  - exists new. split_and!; [done| |done|done]. destruct Hh as [->| ->]; [done|by eapply sound_any].
Qed.
Lemma runs_bind {A B} h V (m : M node_fs A) (k : A → M node_fs B) R (Q : B → list (event F) → Prop) :
  runs h V m R → (∀ a V', V `prefix_of` V' → R a V' → runs h V' (k a) Q) → runs h V (m ≫= k) Q.
Proof using. intros Hm Hk. eapply runs_from_bind; [exact Hm|exact Hk|by left]. Qed.
Lemma runs_catch {A} h V (m : M node_fs A) handler (Q : A → list (event F) → Prop) :
  runs h V m Q → (∀ e V', runs h V' (handler e) Q) → runs h V (catch m handler) Q.
Proof using.
  intros Hm Hh s Hs. destruct (Hm s Hs) as (new&H1&H2&H3&H4). unfold catch. destruct (m s) as [[a|e|] s']; cbn in *; [by exists new| |done].
  destruct (Hh e (V ++ new) s' H2) as (new2&G1&G2&G3&G4). exists (new ++ new2). rewrite G1, H1, <- app_assoc. split_and!; [done|done|by apply all_allowed_app|].
  by rewrite app_assoc.
Qed.
Lemma runs_finally {A} h V (m : M node_fs A) cleanup : runs h V m (fun _ _ => True) → (∀ V', runs h V' cleanup (fun _ _ => True)) →
  runs h V (and_finally m cleanup) (fun _ _ => True).
Proof using.
  intros Hm Hc s Hs. destruct (Hm s Hs) as (new&H1&H2&H3&H4). unfold and_finally. destruct (m s) as [o s']; cbn in *.
  destruct (Hc (V ++ new) s' H2) as (new2&G1&G2&G3&G4). assert (E : nf_calls (cleanup s').2 = nf_calls s ++ new ++ new2) by by rewrite G1, H1, app_assoc.
  destruct o as [a|e|]; [| |done]; (destruct (cleanup s') as [[u|e2|] s2]; cbn in *; [..|done]); (exists (new ++ new2); split_and!; try done; by apply all_allowed_app).
Qed.
Lemma runs_weaken {A} h V (m : M node_fs A) (Q R : A → list (event F) → Prop) : runs h V m Q → (∀ a V', Q a V' → R a V') → runs h V m R.
Proof using. intros Hm H s Hs. destruct (Hm s Hs) as (new&H1&H2&H3&H4). exists new. split_and!; [done..|]. destruct (m s).1; auto. Qed.
Lemma runs_call {A} h V (c : host_call F A) : allowed V c → runs h V (call perform c) (fun a V' => Event c (inl a) ∈ V').
Proof using.
  intros Hc s Hs. unfold call. destruct (perform A c (nf_host s)) as [[a|code] w]; cbn; (eexists; split_and!; [done|by destruct Hs as [[] ?]; split; [split|]|done|try done]).
  rewrite elem_of_app, list_elem_of_singleton. by right.
Qed.
Lemma runs_modify V f : (∀ s, table_ok s → table_ok (f s) ∧ nf_calls (f s) = nf_calls s) → runs None V (modify f) (fun _ _ => True).
Proof using. intros H s [Hs _]. exists []. cbn. rewrite app_nil_r. destruct (H s Hs). by split_and!. Qed.

(** ** Paths *)
Lemma relative_prefix from to : from `prefix_of` to ∨ ∃ rest, relative_names from to = lit ".." :: rest.
Proof using.
  revert to. induction from as [|a from IH]; intros to; [left; apply prefix_nil|]. destruct to as [|b to]; cbn; [right; by eexists|].
  case_bool_decide as E; [subst b|right; by eexists]. destruct (IH to) as [H|H]; [left; by apply prefix_cons|by right].
Qed.
Lemma inside_below root p : inside cwd root p = true → below root p.
Proof using.
  unfold inside, path_relative, below. destruct (relative_prefix (resolve_names cwd [root]) (resolve_names cwd [p])) as [H|(rest&E)]; [done|].
  rewrite E, negb_true_iff, !orb_false_iff, !bool_decide_eq_false. intros ((H1&H2)&_). destruct rest as [|x rest]; [done|].
  destruct H2. exists (Text.join (lit "/") (x :: rest)). done.
Qed.
Lemma runs_root h V : runs h V (lift root_path) (fun root _ => root_path = Done root).
Proof using Hroot. by apply runs_lift. Qed.
Lemma runs_host_path h V parts :
  runs h V (host_path cwd root_path parts) (fun p _ => ∃ root, root_path = Done root ∧ below root p ∧ p = absolute (resolve_names cwd (root :: parts))).
Proof using Hroot.
  eapply runs_bind; [apply runs_root|]. intros root V1 _ Er. cbv beta zeta. destruct (inside _ _ _) eqn:Ei; [|apply runs_throw].
  apply runs_ret. exists root. split_and!; [done|by apply inside_below|done].
Qed.
Lemma runs_validated h V parts : runs h V (validated_path perform cwd root_path parts) (fun p V' => validated V' p ∧ host_of parts p).
Proof using Hroot.
  eapply runs_bind; [apply runs_root|]. intros root V1 _ Er. eapply runs_bind; [apply runs_host_path|].
  intros p V2 _ (root'&Er'&Hp&Ep). assert (root' = root) as -> by congruence.
  eapply runs_bind; [apply runs_call; split_and!; [constructor|done|by intros _ []]|].
  intros real V3 _ Hreal. destruct (inside _ _ _) eqn:Ei; [|apply runs_throw]. apply runs_ret. split; [|by exists root]. exists root. eexists _, real.
  split_and!; [done|done|by apply inside_below|exact Hreal|]. case_bool_decide as E; [right|by left]. by rewrite E in Ep.
Qed.
Lemma runs_parts_of h V id : runs h V (parts_of id) (fun parts _ => Forall name_ok parts ∧ if h is Some hp then hp !! id = Some (Node parts true) else True).
Proof using.
  intros s Hs. destruct (Hs) as [Ht Hfix]. exists []. rewrite !app_nil_r. unfold parts_of. erewrite M_bind_done by done. destruct (nf_heap s !! id) as [[parts [|]]|] eqn:E; [|done..].
  cbn. split_and!; [done|done|done|by eapply to_names|]. destruct h as [hp|]; [|done]. by rewrite <- Hfix.
Qed.
Lemma runs_node_for V parts : Forall name_ok parts → runs None V (node_for parts) (fun id _ => parts ≠ [] → id ≠ 0%nat).
Proof using.
  intros Hp s [Hs _]. exists []. rewrite !app_nil_r. unfold node_for. erewrite M_bind_done by done.
  destruct (nf_nodes s !! key parts) as [id|] eqn:E.
  - cbn. split_and!; [done|done|done|]. intros Hne ->. destruct (to_entry _ Hs _ _ E) as (q&Hq&Ek&Hn). rewrite (to_root _ Hs) in Hq. injection Hq as <-.
    by apply key_nil in Ek.
  - erewrite M_bind_done by done. cbn. pose proof (lookup_lt_Some _ _ _ (to_root _ Hs)). split_and!; [done|split; [|done]|done|lia]. split; cbn.
    + intros k id [[<- <-]|[Hne H1]]%lookup_insert_Some.
      * exists parts. split_and!; [by rewrite list_lookup_middle|done|done].
      * destruct (to_entry _ Hs _ _ H1) as (q&Hq&->&Hn). exists q. split_and!; [by apply lookup_app_l_Some|done|done].
    + intros id q [Hq|[Hi [Hi' [= <-]]%list_lookup_singleton_Some]]%lookup_app_Some.
      * apply lookup_insert_Some. right. apply (to_node _ Hs) in Hq. split; [congruence|done].
      * apply lookup_insert_Some. left. split; [done|lia].
    + by apply lookup_app_l_Some, (to_root _ Hs).
Qed.
Lemma runs_child h V parent name : runs h V (child_parts parent name) (fun parts _ => parts ≠ [] ∧ Forall name_ok parts).
Proof using.
  eapply runs_bind; [apply runs_parts_of|]. intros parts V1 _ [Hp _]. eapply runs_bind; [apply (runs_lift h V1 (valid_name name) (fun n _ => name_ok n))|].
  - intros n Hn. by apply valid_name_ok in Hn as (->&?&_).
  - unfold valid_name. by destruct (_ || _)%bool.
  - intros n V2 _ Hn. apply runs_ret. split; [by destruct parts|]. apply Forall_app_2; [done|by constructor].
Qed.
Lemma runs_path_call {A} h V (c : host_call F A) p : call_paths c = [p] → validated V p → links_checked V c → (read_only = true → ¬ modifies c) →
  runs h V (call perform c) (fun a V' => Event c (inl a) ∈ V').
Proof using. intros Hc Hv Hl Hm. apply runs_call. split_and!; [rewrite Hc; by constructor|done|done]. Qed.
Lemma runs_file_call {A} h V (c : host_call F A) : call_paths c = [] → links_checked V c → (read_only = true → ¬ modifies c) →
  runs h V (call perform c) (fun _ _ => True).
Proof using. intros Hc Hl Hm. eapply runs_weaken; [|by intros]. apply runs_call. split_and!; [by rewrite Hc|done|done]. Qed.
Lemma runs_writable h V : runs h V (writable read_only) (fun _ _ => read_only = false).
Proof using. unfold writable. destruct read_only; [apply runs_throw|by apply runs_ret]. Qed.
(** A path of a node, and of a name below one. *)
Lemma runs_target {B} h V parts (k : text → M node_fs B) (Q : B → list (event F) → Prop) :
  (∀ p V', V `prefix_of` V' → validated V' p → host_of parts p → runs h V' (k p) Q) → runs h V (validated_path perform cwd root_path parts ≫= k) Q.
Proof using Hroot. intros H. eapply runs_bind; [apply runs_validated|]. intros p V' ? []. auto. Qed.
Definition known (h : option (list node)) (id : nat) (p : text) : Prop :=
  match h with Some hp => ∃ parts, hp !! id = Some (Node parts true) ∧ host_of parts p | None => True end.
Lemma known_same hp id p q : known (Some hp) id p → known (Some hp) id q → p = q.
Proof using. clear Hroot. intros (a&Ha&r&Hr&->) (b&Hb&r'&Hr'&->). by simplify_eq. Qed.
Lemma runs_node {B} h V id (k : text → M node_fs B) (Q : B → list (event F) → Prop) :
  (∀ p V', V `prefix_of` V' → validated V' p → known h id p → runs h V' (k p) Q) →
  runs h V (parts ← parts_of id; path ← validated_path perform cwd root_path parts; k path) Q.
Proof using Hroot.
  intros H. eapply runs_bind; [apply runs_parts_of|]. intros parts V1 H1 [_ Hk]. apply runs_target. intros p V2 H2 Hv Hp. apply H; [by etrans|done|].
  destruct h; [by eexists|done].
Qed.
Lemma runs_stats h V id : runs h V (stats perform cwd root_path id) (fun st V' => ∃ p, known h id p ∧ Event (Lstat p) (inl st) ∈ V').
Proof using Hroot.
  apply runs_node. intros p V1 _ Hv Hk. eapply runs_weaken; [apply (runs_path_call h V1 (Lstat p) p); [done|done|done|by intros _ []]|].
  intros st V2 H. by exists p.
Qed.
Lemma runs_frozen {A} V (m : M node_fs A) (Q : A → list (event F) → Prop) : (∀ hp, runs (Some hp) V m Q) → runs None V m Q.
Proof using. intros H s [Hs _]. destruct (H (nf_heap s) s (conj Hs eq_refl)) as (new&H1&[H2 _]&H3). by exists new. Qed.
Lemma runs_any {A} h V (m : M node_fs A) (Q : A → list (event F) → Prop) : runs h V m Q → runs h V m (fun _ _ => True).
Proof using. intros H. by eapply runs_weaken. Qed.
Lemma runs_modifying {B} h V (m : M node_fs B) (Q : B → list (event F) → Prop) :
  (∀ V', V `prefix_of` V' → read_only = false → runs h V' m Q) → runs h V (writable read_only ;; m) Q.
Proof using. intros H. eapply runs_bind; [apply runs_writable|]. auto. Qed.
Lemma runs_at {B} h V parent name (k : list text → M node_fs B) (Q : B → list (event F) → Prop) :
  (∀ parts V', V `prefix_of` V' → parts ≠ [] → Forall name_ok parts → runs h V' (k parts) Q) → runs h V (child_parts parent name ≫= k) Q.
Proof using. intros H. eapply runs_bind; [apply runs_child|]. intros parts V' Hpre []. auto. Qed.
Lemma runs_then {A B} h V (m : M node_fs A) (k : A → M node_fs B) (Q : B → list (event F) → Prop) : runs h V m (fun _ _ => True) →
  (∀ a V', V `prefix_of` V' → runs h V' (k a) Q) → runs h V (m ≫= k) Q.
Proof using. intros Hm Hk. eapply runs_bind; [exact Hm|]. auto. Qed.
Lemma runs_forget V parts : parts ≠ [] → Forall name_ok parts → runs None V (forget parts) (fun _ _ => True).
Proof using. intros Hne Hp. apply runs_modify. intros s Hs. by destruct (forget_spec parts s Hne Hp Hs) as (?&?&_). Qed.
Lemma runs_forget_move V old new : old ≠ [] → new ≠ [] → Forall name_ok old → Forall name_ok new →
  runs None V (forget new ;; move old new) (fun _ _ => True).
Proof using.
  intros H1 H2 H3 H4 s [Hs _]. destruct (forget_spec new s H2 H4 Hs) as (A1&A2&A3&_). erewrite M_bind_done by done.
  destruct (move_spec old new H1 H2 H3 H4 _ A1 A3) as (B1&B2&_). exists []. rewrite app_nil_r. split_and!; [etrans; [exact B2|exact A2]|by split|done|done].
Qed.

(** ** Open flags *)
Definition quiet (v : Z * Z) : Prop := v.1 &&& 0x640 = 0 ∧ v.2 &&& writing = 0.
Lemma quiet_or a b : a &&& writing = 0 → b &&& writing = 0 → (a ||| b) &&& writing = 0.
Proof using. intros Ha Hb. by rewrite Z.land_lor_distr_l, Ha, Hb. Qed.
Lemma quiet_clear a b : a &&& 0x640 = 0 → (a &&& Z.lnot b) &&& 0x640 = 0.
Proof using. intros Ha. rewrite <- Z.land_assoc, (Z.land_comm (Z.lnot b)), Z.land_assoc, Ha. done. Qed.
Lemma bit_constant name : name ∈ ["O_RDONLY"; "O_EXCL"; "O_NOCTTY"; "O_NONBLOCK"; "O_SYNC"; "O_DSYNC"; "O_DIRECT"; "O_DIRECTORY"; "O_NOFOLLOW"; "O_NOATIME"]%string →
  constant constants name &&& writing = 0.
Proof using Hhost. apply ho_bits, Hhost. Qed.
Lemma map_flag_absent name host : linux name &&& 0x640 = linux name → preserves quiet (map_flag constants name host).
Proof using.
  intros Hn [remaining result] [H1 H2]. unfold map_flag. cbn in H1.
  replace (remaining &&& linux name) with 0; [done|]. rewrite <- Hn, (Z.land_comm (linux name)), Z.land_assoc, H1. done.
Qed.
Lemma map_flag_other name host : host ∈ ["O_RDONLY"; "O_EXCL"; "O_NOCTTY"; "O_NONBLOCK"; "O_SYNC"; "O_DSYNC"; "O_DIRECT"; "O_DIRECTORY"; "O_NOFOLLOW"; "O_NOATIME"]%string →
  preserves quiet (map_flag constants name host).
Proof using Hhost.
  intros Hh [remaining result] [H1 H2]. unfold map_flag. destruct (_ =? _); [by split|]. apply bit_constant in Hh. unfold constant in Hh.
  destruct (constants host) as [bit|]; (split; cbn; [by apply quiet_clear|]); [by apply quiet_or|done].
Qed.
Lemma map_flags_quiet : preserves quiet (map_flags constants).
Proof using Hhost.
  unfold map_flags. assert (Hin : ∀ name, name ∈ ["O_RDONLY"; "O_EXCL"; "O_NOCTTY"; "O_NONBLOCK"; "O_SYNC"; "O_DSYNC"; "O_DIRECT"; "O_DIRECTORY"; "O_NOFOLLOW"; "O_NOATIME"]%string →
    ∀ l, preserves quiet (map_flag constants l name)) by (intros; by apply map_flag_other).
  repeat (apply preserves_bind; [first [by apply map_flag_absent|apply Hin; by apply (bool_decide_unpack _)|apply preserves_get]|intros ?]).
  match goal with |- context [match ?v with _ => _ end] => destruct v as [remaining result] end.
  repeat (apply preserves_bind; [try (apply Hin; by apply (bool_decide_unpack _))|intros ?]); [|apply Hin; by apply (bool_decide_unpack _)].
  destruct (_ =? _); [apply Hin; by apply (bool_decide_unpack _)|]. apply preserves_modify.
  intros [x y] [Hx Hy]. split; cbn; [by apply quiet_clear|]. apply quiet_or; [done|]. apply bit_constant. by apply (bool_decide_unpack _).
Qed.
(** Flags that may not write are translated to flags that do not. *)
Lemma translate_quiet flags x : may_write flags = false → translate_open_flags constants flags = Done x → x &&& writing = 0.
Proof using Hhost.
  unfold may_write, translate_open_flags. rewrite !orb_false_iff, negb_false_iff. intros [[H1 H2] H3%Z.eqb_eq]. destruct (_ || _)%bool; [done|].
  unfold access_mode. rewrite H1, H2. destruct (flags &&& linux "access" =? linux "readonly"); cbn [mbind outcome_bind]; [|done].
  pose proof (map_flags_quiet (flags &&& Z.lnot (linux "access"), constant constants "O_RDONLY")) as Hq.
  destruct (map_flags constants _) as [[u|e|] [remaining result]]; [|done..]. destruct (negb _); [done|]. destruct (negb _); [done|]. intros [= <-].
  apply Hq. split; cbn [fst snd]; [|apply bit_constant; by apply (bool_decide_unpack _)]. apply quiet_clear.
  change 0x640 with ((linux "create" ||| linux "truncate" ||| linux "append" ||| linux "temporaryFile") &&& 0x640). by rewrite Z.land_assoc, H3.
Qed.
Lemma translate_ends flags : translate_open_flags constants flags ≠ Loops.
Proof using.
  clear Hroot Hhost. unfold translate_open_flags, access_mode. destruct (_ || _)%bool; [done|].
  assert (Hm : ∀ v, (map_flags constants v).1 ≠ Loops).
  { assert (Hf : ∀ l n v, (map_flag constants l n v).1 ≠ Loops) by (intros l n [a b]; unfold map_flag; destruct (_ =? _); [done|]; by destruct (constants n)).
    assert (Hb : ∀ A B (m : M (Z * Z) A) (k : A → M (Z * Z) B), (∀ v, (m v).1 ≠ Loops) → (∀ a v, (k a v).1 ≠ Loops) → ∀ v, ((m ≫= k) v).1 ≠ Loops).
    { intros A B m k H1 H2 v. unfold mbind, M_bind. specialize (H1 v). destruct (m v) as [[a|e|] v']; [apply H2|done|done]. }
    unfold map_flags. repeat (apply Hb; [first [apply Hf|by intros ?]|intros ?]).
    match goal with |- context [match ?v with _ => _ end] => destruct v as [x y] end.
    repeat (apply Hb; [try apply Hf|intros ?]); [|apply Hf]. destruct (_ =? _); [apply Hf|by intros ?]. }
  destruct (_ =? _); [|destruct (_ =? _); [|destruct (_ =? _); [|done]]]; cbn [mbind outcome_bind];
    match goal with |- context [map_flags constants ?v] => specialize (Hm v); destruct (map_flags constants v) as [[u|e|] [x y]] end; try done;
    (destruct (negb _); [done|]; by destruct (negb _)).
Qed.

(** ** The operations *)
Abbreviation anything := (fun _ _ => True).
Ltac paths := first [done|by intros _ []|congruence].
Lemma runs_lookup V parent name : runs None V (lookup perform cwd root_path parent name) (fun r _ => r ≠ Some 0%nat).
Proof using Hroot.
  apply runs_at. intros parts V1 _ Hne Hp. eapply runs_bind; [by apply runs_node_for|]. intros id V2 _ Hid. apply runs_catch.
  - eapply runs_bind; [apply runs_stats|]. intros st V3 _ _. apply runs_ret. intros [= ->]. by apply Hid.
  - intros e V3. case_bool_decide; [|apply runs_throw]. apply runs_then; [by apply runs_forget|]. intros u V4 _. by apply runs_ret.
Qed.
Lemma runs_getattr V id handle : runs None V (getattr perform cwd root_path id handle) anything.
Proof using Hroot.
  assert (Hs : runs None V (st ← stats perform cwd root_path id; mret (node_attributes st)) anything).
  { eapply runs_bind; [apply runs_stats|]. intros. by apply runs_ret. }
  unfold getattr. destruct handle as [[f|]|]; [|exact Hs..]. apply runs_then; [by apply runs_file_call; paths|]. intros. by apply runs_ret.
Qed.
Lemma runs_readlink V id : runs None V (readlink perform cwd root_path id) anything.
Proof using Hroot. apply runs_node. intros p V1 _ Hv _. eapply runs_any, (runs_path_call _ _ (Readlink p) p); paths. Qed.
Lemma runs_new_child V parent name (c : text → host_call F unit) : (∀ p, call_paths (c p) = [p]) → (∀ V p, links_checked V (c p)) →
  runs None V (writable read_only ;; parts ← child_parts parent name; path ← validated_path perform cwd root_path parts; call perform (c path) ;; node_for parts) anything.
Proof using Hroot.
  intros Hc Hl. apply runs_modifying. intros V1 _ Hro. apply runs_at. intros parts V2 _ Hne Hp. apply runs_target. intros p V3 _ Hv _.
  apply runs_then; [eapply runs_any, (runs_path_call _ _ (c p) p); [done..|congruence]|]. intros u V4 _. eapply runs_any. by apply runs_node_for.
Qed.
(** [setattr], of which the calls leave the table alone. *)
Definition target_ok (h : option (list node)) (id : nat) (V : list (event F)) (file : option F) (target : F + text) : Prop :=
  match target with inl f => file = Some f | inr p => validated V p ∧ known h id p end.
Lemma target_mono h id V V' file target : V `prefix_of` V' → target_ok h id V file target → target_ok h id V' file target.
Proof using. destruct target; [done|]. intros Hp [H1 H2]. split; [by eapply validated_mono|done]. Qed.
Lemma runs_current h V id file : runs h V (current perform cwd root_path id file) anything.
Proof using Hroot. unfold current. destruct file as [f|]; [by apply runs_file_call; paths|]. eapply runs_any, runs_stats. Qed.
Lemma runs_set_mode hp V id file mode target : read_only = false → target_ok (Some hp) id V file target →
  runs (Some hp) V (set_mode perform cwd root_path id mode target) anything.
Proof using Hroot.
  intros Hro Ht. unfold set_mode. destruct target as [f|p]; [by apply runs_file_call; paths|]. destruct Ht as [Hv Hk].
  eapply runs_bind; [apply runs_stats|]. intros st V1 Hpre (q&Hq&Hst). assert (q = p) as -> by by eapply known_same.
  destruct (isSymbolicLink st) eqn:El; [apply runs_throw|]. eapply runs_any, (runs_path_call _ _ (Chmod p _) p); [done|by eapply validated_mono|by exists st|congruence].
Qed.
Lemma runs_set_owner h V id file uid gid target : read_only = false → target_ok h id V file target →
  runs h V (set_owner perform cwd root_path id file uid gid target) anything.
Proof using Hroot.
  intros Hro Ht. apply runs_then; [apply runs_current|]. intros st V1 Hpre. apply (target_mono _ _ _ _ _ _ Hpre) in Ht.
  destruct target as [f|p]; [by apply runs_file_call; paths|]. destruct Ht as [Hv _]. eapply runs_any, (runs_path_call _ _ (Lchown p _ _) p); [done..|congruence].
Qed.
Lemma runs_set_times h V id file a m target : read_only = false → target_ok h id V file target →
  runs h V (set_times perform cwd root_path id file a m target) anything.
Proof using Hroot.
  intros Hro Ht. apply runs_then; [apply runs_current|]. intros st V1 Hpre. apply (target_mono _ _ _ _ _ _ Hpre) in Ht.
  destruct target as [f|p]; [by apply runs_file_call; paths|]. destruct Ht as [Hv _]. eapply runs_any, (runs_path_call _ _ (Lutimes p _ _) p); [done..|congruence].
Qed.
Lemma offset_ends z : checked_offset z ≠ Loops.
Proof using. clear Hhost Hroot. unfold checked_offset. by destruct (_ || _)%bool. Qed.
Lemma or_nofollow x : (x ||| constant constants "O_NOFOLLOW") &&& constant constants "O_NOFOLLOW" = constant constants "O_NOFOLLOW".
Proof using. apply Z.bits_inj'. intros n _. rewrite Z.land_spec, Z.lor_spec. by destruct (Z.testbit x n), (Z.testbit _ n). Qed.
Lemma runs_set_size h V id file size target : read_only = false → target_ok h id V file target → runs h V (set_size perform constants size target) anything.
Proof using Hroot.
  intros Hro Ht. eapply runs_bind; [apply (runs_lift h V (checked_offset size) anything); [done|apply offset_ends]|]. intros n V1 Hpre _.
  apply (target_mono _ _ _ _ _ _ Hpre) in Ht. destruct target as [f|p]; [by apply runs_file_call; paths|]. destruct Ht as [Hv _].
  eapply runs_bind; [apply (runs_path_call _ _ (OpenFile p _ _) p); [done|done|apply or_nofollow|congruence]|].
  intros f V2 _ _. apply runs_finally; [|intros V3]; by apply runs_file_call; paths.
Qed.
Lemma runs_setattr V id changes handle : runs None V (setattr perform constants cwd root_path read_only id changes handle) anything.
Proof using Hroot.
  apply runs_frozen. intros hp. apply runs_modifying. intros V1 _ Hro. set (file := match handle with Some (Some f) => Some f | _ => None end).
  eapply (runs_bind _ _ _ _ (fun target V' => target_ok (Some hp) id V' file target)).
  { destruct file as [f|]; [by apply runs_ret|]. apply runs_node. intros p V2 _ Hv Hk. by apply runs_ret. }
  intros target V2 _ Ht.
  assert (Hstep : ∀ V (m : M node_fs unit) (k : M node_fs attributes), (∀ V', V `prefix_of` V' → target_ok (Some hp) id V' file target → runs (Some hp) V' k anything) →
    target_ok (Some hp) id V file target → runs (Some hp) V m anything → runs (Some hp) V (m ;; k) anything).
  { intros V' m k Hk Ht' Hm. apply runs_then; [done|]. intros u V'' Hpre. apply Hk; [done|]. by eapply target_mono. }
  apply Hstep; [intros V3 _ H3|done|by destruct (sa_mode changes); [eapply runs_set_mode|apply runs_ret]].
  apply Hstep; [intros V4 _ H4|done|by destruct (_ || _)%bool; [eapply runs_set_owner|apply runs_ret]].
  apply Hstep; [intros V5 _ H5|done|by destruct (sa_size changes); [eapply runs_set_size|apply runs_ret]].
  apply Hstep; [intros V6 _ H6|done|by destruct (_ || _)%bool; [eapply runs_set_times|apply runs_ret]].
  apply runs_then; [apply runs_current|]. intros. by apply runs_ret.
Qed.
Lemma runs_translate {B} h V flags (k : Z → M node_fs B) (Q : B → list (event F) → Prop) :
  (∀ x V', V `prefix_of` V' → translate_open_flags constants flags = Done x → runs h V' (k x) Q) →
  runs h V (lift (translate_open_flags constants flags) ≫= k) Q.
Proof using. intros H. eapply runs_bind; [by apply (runs_lift h V _ (fun x _ => translate_open_flags constants flags = Done x)), translate_ends|]. auto. Qed.
Lemma runs_open V id flags : runs None V (open perform constants cwd root_path read_only id flags) anything.
Proof using Hroot Hhost.
  eapply (runs_bind _ _ _ _ (fun _ _ => read_only = true → may_write flags = false)).
  { destruct (read_only && may_write flags)%bool eqn:E; [eapply runs_weaken; [apply runs_writable|by intros _ V' ->]|]. apply runs_ret. intros Hro. by rewrite Hro in E. }
  intros u V1 _ Hro. apply runs_translate. intros x V2 _ Ex. apply runs_node. intros p V3 _ Hv _. apply runs_then; [|intros; by apply runs_ret].
  eapply runs_any, (runs_path_call _ _ (OpenFile p _ _) p); [done|done|apply or_nofollow|]. intros H Hm. apply Hm. apply quiet_or.
  - eapply translate_quiet; [by apply Hro|done].
  - apply bit_constant. by apply (bool_decide_unpack _).
Qed.
Lemma runs_create V parent name flags context : runs None V (create perform constants cwd root_path read_only parent name flags context) anything.
Proof using Hroot.
  apply runs_modifying. intros V1 _ Hro. apply runs_translate. intros x V2 _ _. apply runs_at. intros parts V3 _ Hne Hp.
  apply runs_target. intros p V4 _ Hv _. eapply runs_bind; [apply (runs_path_call _ _ (OpenFile p _ _) p); [done|done|apply or_nofollow|congruence]|].
  intros f V5 _ _. eapply runs_bind; [by apply runs_node_for|]. intros. by apply runs_ret.
Qed.
Lemma runs_file {B} V handle (k : F → M node_fs B) (Q : B → list (event F) → Prop) : (∀ f V', runs None V' (k f) Q) → runs None V (file_of handle ≫= k) Q.
Proof using. intros H. eapply runs_bind; [apply (runs_lift None V _ anything); [done|by destruct handle]|]. auto. Qed.
Lemma runs_offset {B} V offset (k : Z → M node_fs B) (Q : B → list (event F) → Prop) : (∀ n V', runs None V' (k n) Q) → runs None V (lift (checked_offset offset) ≫= k) Q.
Proof using. intros H. eapply runs_bind; [apply (runs_lift None V _ anything); [done|apply offset_ends]|]. auto. Qed.
Lemma runs_read V id handle offset length : runs None V (read perform id handle offset length) anything.
Proof using.
  apply runs_file. intros f V1. apply runs_offset. intros n V2. apply runs_then; [by apply runs_file_call; paths|].
  intros [bytesRead buffer] V3 _. by apply runs_ret.
Qed.
Lemma runs_write V id handle offset data : runs None V (write perform read_only id handle offset data) anything.
Proof using.
  apply runs_modifying. intros V0 _ Hro. apply runs_file. intros f V1. apply runs_offset. intros n V2. apply runs_then; [by apply runs_file_call; paths|].
  intros written V3 _. by apply runs_ret.
Qed.
Lemma runs_handle V handle (c : F → host_call F unit) : (∀ f, call_paths (c f) = []) → (∀ f V, links_checked V (c f)) → (∀ f, ¬ modifies (c f)) →
  runs None V (file ← file_of handle; call perform (c file)) anything.
Proof using. intros H1 H2 H3. apply runs_file. intros f V1. by apply runs_file_call. Qed.
Lemma runs_flush V id handle : runs None V (flush perform id handle) anything.
Proof using. by apply runs_handle; auto. Qed.
Lemma runs_fsync V id handle dataOnly : runs None V (fsync perform id handle dataOnly) anything.
Proof using. apply (runs_handle V handle (fun f => if dataOnly then FileDatasync f else FileSync f)); by destruct dataOnly; auto. Qed.
Lemma runs_release V id handle : runs None V (release perform id handle) anything.
Proof using. by apply runs_handle; auto. Qed.
(** [opendir] has seen that the node's path is a directory. *)
Definition directory_seen (hp : list node) (id : nat) (V : list (event F)) : Prop :=
  ∃ parts p st, place hp id = Some parts ∧ host_of parts p ∧ Event (Lstat p) (inl st) ∈ V ∧ isDirectory st = true.
Lemma known_place hp id p : known (Some hp) id p → ∃ parts, place hp id = Some parts ∧ host_of parts p.
Proof using. intros (parts&Hp&Hh). exists parts. split; [|done]. unfold place. by rewrite Hp. Qed.
Lemma runs_opendir hp V id flags : runs (Some hp) V (opendir perform cwd root_path id flags) (fun _ => directory_seen hp id).
Proof using Hroot.
  eapply runs_bind; [apply runs_stats|]. intros st V1 _ (p&(parts&Hp&Hh)%known_place&Hst).
  destruct (isDirectory st) eqn:E; [|apply runs_throw]. apply runs_ret. by exists parts, p, st.
Qed.
Lemma runs_nodes_for V parts names : Forall name_ok parts → Forall name_ok names → runs None V (nodes_for parts names) anything.
Proof using.
  intros Hp Hn. revert V. induction Hn as [|name names H1 H2 IH]; intros V; cbn [nodes_for]; [by apply runs_ret|].
  apply runs_then; [eapply runs_any, runs_node_for; by apply Forall_app_2; [|constructor]|]. intros id V1 _. apply runs_then; [apply IH|]. intros. by apply runs_ret.
Qed.
Lemma runs_names h V p : validated V p → links_checked V (Readdir p) → runs h V (call perform (Readdir p)) (fun names _ => Forall name_ok names).
Proof using Hhost.
  intros Hv Hl s Hs. destruct (runs_path_call h V (Readdir p) p eq_refl Hv Hl ltac:(by intros _ []) s Hs) as (new&H1&H2&H3&H4). exists new.
  split_and!; [done|done|done|]. unfold call in *. destruct (perform _ (Readdir p) (nf_host s)) as [[names|code] w] eqn:E; [|done]. cbn.
  by eapply (ho_names Hhost).
Qed.
(** [readdir] asks for the names of the node's path. *)
Lemma runs_readdir hp V id handle : listing = place hp id → runs_from (Some hp) None V (readdir perform cwd root_path id handle) anything.
Proof using Hroot Hhost.
  intros Hl. eapply runs_from_bind; [apply runs_parts_of| |by right]. intros parts V1 _ [Hp Hid].
  eapply runs_from_bind; [apply runs_validated| |by right]. intros p V2 _ [Hv Hh].
  eapply runs_from_bind; [apply runs_names; [done|]| |by right].
  - exists parts. split; [|done]. rewrite Hl. unfold place. by rewrite Hid.
  - intros names V3 _ Hn. apply runs_from_any. by apply runs_nodes_for.
Qed.
Lemma runs_mkdir V parent name context : runs None V (mkdir perform cwd root_path read_only parent name context) anything.
Proof using Hroot. by apply (runs_new_child V parent name (fun p => MkdirAt p _)). Qed.
Lemma runs_symlink V parent name target context : runs None V (symlink perform cwd root_path read_only parent name target context) anything.
Proof using Hroot. by apply (runs_new_child V parent name (fun p => SymlinkAt target p)). Qed.
Lemma runs_remove V c parent name : c = Unlink ∨ c = Rmdir → runs None V (remove_with perform cwd root_path read_only c parent name) anything.
Proof using Hroot.
  intros Hc. apply runs_modifying. intros V1 _ Hro. apply runs_at. intros parts V2 _ Hne Hp. apply runs_then; [by eapply runs_any, runs_node_for|].
  intros id V3 _. apply runs_then; [eapply runs_any, runs_stats|]. intros st V4 _. apply runs_target. intros p V5 _ Hv _.
  apply runs_then; [eapply runs_any, (runs_path_call _ _ (c p) p); [by destruct Hc as [->| ->]|done|by destruct Hc as [->| ->]|congruence]|].
  intros u V6 _. by apply runs_forget.
Qed.
Lemma runs_rename V oldParent oldName newParent newName : runs None V (rename perform cwd root_path read_only oldParent oldName newParent newName) anything.
Proof using Hroot.
  apply runs_modifying. intros V1 _ Hro. apply runs_at. intros old V2 _ Ho1 Ho2. apply runs_at. intros new V3 _ Hn1 Hn2.
  case_bool_decide; [by apply runs_ret|]. apply runs_target. intros source V4 _ Hs _. apply runs_then; [by eapply runs_any, runs_node_for|].
  intros id V5 H5. apply runs_then; [eapply runs_any, runs_stats|]. intros st V6 H6. apply runs_target. intros destination V7 H7 Hd _.
  apply runs_then; [|intros u V8 _; by apply runs_forget_move]. eapply runs_any, runs_call. split_and!; [|done|congruence].
  repeat constructor; [|done]. eapply validated_mono; [|done]. by do 2 (etrans; [done|]).
Qed.
Lemma runs_access V id mask : runs None V (access perform cwd root_path id mask) anything.
Proof using Hroot.
  apply runs_frozen. intros hp. eapply runs_bind; [apply runs_stats|]. intros st V1 _ (q&Hq&Hst).
  destruct (isSymbolicLink st) eqn:El; [apply runs_throw|]. apply runs_node. intros p V2 Hpre Hv Hk. assert (q = p) as -> by by eapply known_same.
  eapply runs_any, (runs_path_call _ _ (Access p _) p); [done|done| |by intros _ []]. eapply no_link_mono; [done|]. by exists st.
Qed.
Lemma runs_statfs V id : runs None V (statfs_of perform root_path id) anything.
Proof using Hroot.
  eapply runs_bind; [apply runs_root|]. intros root V1 _ Er. apply runs_then; [|intros; by apply runs_ret].
  apply runs_file_call; [done|done|by intros _ []].
Qed.

End listing.

(** ** All of them *)
Inductive method :=
| MLookup (parent : nat) (name : text) | MGetattr (id : nat) (handle : option (option F))
| MSetattr (id : nat) (changes : set_attributes) (handle : option (option F)) | MReadlink (id : nat)
| MSymlink (parent : nat) (name target : text) (context : context) | MMkdir (parent : nat) (name : text) (context : context)
| MUnlink (parent : nat) (name : text) | MRmdir (parent : nat) (name : text)
| MRename (oldParent : nat) (oldName : text) (newParent : nat) (newName : text) | MOpen (id : nat) (flags : Z)
| MCreate (parent : nat) (name : text) (flags : Z) (context : context) | MRead (id : nat) (handle : option F) (offset length : Z)
| MWrite (id : nat) (handle : option F) (offset : Z) (data : list Z) | MFlush (id : nat) (handle : option F)
| MFsync (id : nat) (handle : option F) (dataOnly : bool) | MRelease (id : nat) (handle : option F) | MOpendir (id : nat) (flags : Z)
| MReaddir (id : nat) (handle : option F) | MAccess (id : nat) (mask : Z) | MStatfs (id : nat).
Definition run_method (m : method) : M node_fs unit :=
  match m with
  | MLookup parent name => lookup perform cwd root_path parent name ;; mret tt
  | MGetattr id handle => getattr perform cwd root_path id handle ;; mret tt
  | MSetattr id changes handle => setattr perform constants cwd root_path read_only id changes handle ;; mret tt
  | MReadlink id => readlink perform cwd root_path id ;; mret tt
  | MSymlink parent name target context => symlink perform cwd root_path read_only parent name target context ;; mret tt
  | MMkdir parent name context => mkdir perform cwd root_path read_only parent name context ;; mret tt
  | MUnlink parent name => unlink perform cwd root_path read_only parent name
  | MRmdir parent name => rmdir perform cwd root_path read_only parent name
  | MRename oldParent oldName newParent newName => rename perform cwd root_path read_only oldParent oldName newParent newName
  | MOpen id flags => open perform constants cwd root_path read_only id flags ;; mret tt
  | MCreate parent name flags context => create perform constants cwd root_path read_only parent name flags context ;; mret tt
  | MRead id handle offset length => read perform id handle offset length ;; mret tt
  | MWrite id handle offset data => write perform read_only id handle offset data ;; mret tt
  | MFlush id handle => flush perform id handle
  | MFsync id handle dataOnly => fsync perform id handle dataOnly
  | MRelease id handle => release perform id handle
  | MOpendir id flags => opendir perform cwd root_path id flags ;; mret tt
  | MReaddir id handle => readdir perform cwd root_path id handle ;; mret tt
  | MAccess id mask => access perform cwd root_path id mask
  | MStatfs id => statfs_of perform root_path id ;; mret tt
  end.
(** The place that it lists, and what it has seen once it is done. *)
Definition listing_of (hp : list node) (m : method) : option (list text) := match m with MReaddir id _ => place hp id | _ => None end.
Definition seen (hp : list node) (m : method) (V : list (event F)) : Prop := match m with MOpendir id _ => directory_seen hp id V | _ => True end.
Definition does {A} (hp : list node) (m : method) (body : M node_fs A) : Prop :=
  runs_from (listing_of hp m) (Some hp) None [] body (fun _ => seen hp m).
Lemma does_anything {A} hp m (body : M node_fs A) Q : (∀ V', seen hp m V') → runs (listing_of hp m) None [] body Q → does hp m body.
Proof using. intros Hq H. eapply runs_from_any, runs_weaken; [exact H|]. auto. Qed.
Lemma does_unit {A} hp m (body : M node_fs A) : does hp m body ↔ does hp m (body ;; mret tt).
Proof using.
  split; intros H s Hs; destruct (H s Hs) as (new&H1&H2&H3&H4); exists new; unfold mbind, M_bind in *;
    by destruct (body s) as [[a|e|] s'].
Qed.
Lemma does_opendir hp id flags : does hp (MOpendir id flags) (opendir perform cwd root_path id flags).
Proof using Hroot.
  intros s Hs. destruct (runs_opendir None hp [] id flags s Hs) as (new&H1&H2&H3&H4). exists new. split_and!; [done|by eapply sound_any|done|done].
Qed.
Lemma does_readdir hp id handle : does hp (MReaddir id handle) (readdir perform cwd root_path id handle).
Proof using Hroot Hhost. by apply runs_readdir. Qed.
Ltac operation := first
  [ apply does_opendir
  | apply does_readdir
  | eapply does_anything; [done|first
    [ apply runs_lookup
    | apply runs_getattr
    | apply runs_setattr
    | apply runs_readlink
    | apply runs_symlink
    | apply runs_mkdir
    | apply runs_remove; tauto
    | apply runs_rename
    | apply runs_open
    | apply runs_create
    | apply runs_read
    | apply runs_write
    | apply runs_flush
    | apply runs_fsync
    | apply runs_release
    | apply runs_access
    | apply runs_statfs ]] ].
Lemma runs_method hp m : does hp m (run_method m).
Proof using Hhost Hroot. destruct m; cbn [run_method]; first [rewrite <- does_unit; operation|operation]. Qed.
Lemma method_runs m s : table_ok s → ∃ new, nf_calls (run_method m s).2 = nf_calls s ++ new ∧ table_ok (run_method m s).2 ∧
  all_allowed (listing_of (nf_heap s) m) [] new ∧ match (run_method m s).1 with Done _ => seen (nf_heap s) m new | Raise _ => True | Loops => False end.
Proof using Hhost Hroot. intros Hs. destruct (runs_method (nf_heap s) m s (conj Hs eq_refl)) as (new&H1&[H2 _]&H3). by exists new. Qed.
Definition node_step (s s' : node_fs) : Prop := ∃ m, s' = (run_method m s).2.
Lemma steps_ok s s' : table_ok s → rtc node_step s s' → table_ok s'.
Proof using Hhost Hroot.
  intros H Hr. induction Hr as [s|s1 s2 s3 [m ->] _ IH]; [done|]. apply IH. by destruct (method_runs m s1 H) as (_&_&?&_).
Qed.

(** ** Renaming *)
Definition grows {A} (m : M node_fs A) : Prop := stays (fun s s' => nf_heap s `prefix_of` nf_heap s') m.
#[local] Instance grows_preorder : PreOrder (fun s s' : node_fs => nf_heap s `prefix_of` nf_heap s').
Proof. split; [by intros s|]. intros a b c H1 H2. by etrans. Qed.
Lemma grows_call {A} (c : host_call F A) : grows (call perform c).
Proof using. intros s. unfold call. by destruct (perform A c _) as [[a|code] w]. Qed.
Lemma grows_node_for parts : grows (node_for parts).
Proof using.
  unfold grows, node_for. apply stays_bind; [exact _|exact (stays_get _)|]. intros s. destruct (nf_nodes s !! _); [exact (stays_ret _ _)|].
  apply stays_bind; [exact _| |intros; exact (stays_ret _ _)]. apply stays_modify. intros s'. cbn. by apply prefix_app_r.
Qed.
Lemma grows_parts_of id : grows (parts_of id).
Proof using. intros s. unfold parts_of. erewrite M_bind_done by done. destruct (nf_heap s !! id) as [[p [|]]|]; done. Qed.
Lemma grows_validated parts : grows (validated_path perform cwd root_path parts).
Proof using. unfold grows, validated_path, host_path. stays_with ltac:(apply grows_call). Qed.
Lemma grows_stats id : grows (stats perform cwd root_path id).
Proof using. unfold grows, stats. stays_with ltac:(first [apply grows_call|apply grows_parts_of|apply grows_validated]). Qed.
(** What [rename] does to an object. *)
Definition renamed (old new : list text) (n : node) : node :=
  if negb (nd_attached n) || bool_decide (old = new) then n
  else if bool_decide (new `prefix_of` nd_parts n) then Node (nd_parts n) false
  else if bool_decide (old `prefix_of` nd_parts n) then Node (new ++ drop (length old) (nd_parts n)) true
  else n.
Definition rename_post (old new : list text) (s : node_fs) (r : outcome unit * node_fs) : Prop :=
  match r.1 with
  | Done _ => ∀ id n, nf_heap s !! id = Some n → nf_heap r.2 !! id = Some (renamed old new n)
  | Raise _ => nf_heap s `prefix_of` nf_heap r.2
  | Loops => False
  end.
Lemma rename_post_bind {A} old new (m : M node_fs A) (k : A → M node_fs unit) s Q : table_ok s → grows m → runs None None [] m Q →
  (∀ a s', table_ok s' → rename_post old new s' (k a s')) → rename_post old new s ((m ≫= k) s).
Proof using.
  intros Hs Hg Hm Hk. destruct (Hm s (conj Hs I)) as (new'&_&[Hs' _]&_&H). specialize (Hg s). unfold mbind, M_bind. destruct (m s) as [[a|e|] s']; [|done|done].
  specialize (Hk a s' Hs'). cbn in Hg. unfold rename_post in *. cbv beta iota. destruct (k a s') as [o s2]. cbn [fst snd] in *. destruct o; [|by etrans|done]. intros id n Hn. apply Hk. by eapply prefix_lookup_Some.
Qed.
Lemma child_parts_exact parent name p (s : node_fs) : nf_heap s !! parent = Some (Node p true) →
  child_parts parent name s = (match valid_name name with Done n => Done (p ++ [n]) | Raise e => Raise e | Loops => Loops end, s).
Proof using.
  intros Hp. unfold child_parts, parts_of, lift, mbind, M_bind, get_state. cbn [fst snd]. rewrite Hp. cbn. by destruct (valid_name name).
Qed.
Lemma runs_call_state {A} s (c : host_call F A) : table_ok s → let r := call perform c s in table_ok r.2 ∧ nf_heap r.2 = nf_heap s ∧ r.1 ≠ Loops.
Proof using. intros [H1 H2 H3]. unfold call. destruct (perform A c (nf_host s)) as [[a|code] w]; cbn; (split; [by split|by split]). Qed.
Lemma rename_exact s oldParent oldName newParent newName op np : table_ok s → nf_heap s !! oldParent = Some (Node op true) →
  nf_heap s !! newParent = Some (Node np true) → let old := op ++ [oldName] in let new := np ++ [newName] in
  rename_post old new s (rename perform cwd root_path read_only oldParent oldName newParent newName s).
Proof using Hroot constants.
  intros Hs Ho Hn. pose proof (to_names _ _ _ Hs Ho) as Hop. pose proof (to_names _ _ _ Hs Hn) as Hnp. cbv zeta. unfold rename.
  unfold writable. destruct read_only; [erewrite M_bind_raise by done; exact (reflexivity (nf_heap s))|]. erewrite M_bind_done by done.
  assert (Hname : ∀ name, match valid_name name with Done n => n = name ∧ name_ok name | Raise _ => True | Loops => False end).
  { intros name. pose proof (valid_name_ok name) as Hv. unfold valid_name in *. destruct (_ || _)%bool; [done|]. destruct (Hv name eq_refl) as (_&?&_). done. }
  pose proof (Hname oldName) as H1. pose proof (Hname newName) as H2. unfold mbind at 1, M_bind at 1. rewrite (child_parts_exact _ _ _ _ Ho).
  destruct (valid_name oldName) as [n1|e|]; [|exact (reflexivity (nf_heap s))|done]. destruct H1 as [-> H1]. cbv beta iota. unfold mbind at 1, M_bind at 1. rewrite (child_parts_exact _ _ _ _ Hn).
  destruct (valid_name newName) as [n2|e|]; [|exact (reflexivity (nf_heap s))|done]. destruct H2 as [-> H2]. cbv beta iota.
  assert (Hold : Forall name_ok (op ++ [oldName])) by (apply Forall_app_2; [done|by constructor]).
  assert (Hnew : Forall name_ok (np ++ [newName])) by (apply Forall_app_2; [done|by constructor]).
  assert (Hold0 : op ++ [oldName] ≠ []) by by destruct op. assert (Hnew0 : np ++ [newName] ≠ []) by by destruct np.
  set (old := op ++ [oldName]) in *. set (new := np ++ [newName]) in *. clear Ho Hn.
  case_bool_decide as E.
  { apply key_inj in E; [|done|done]. intros id n Hid. cbn. unfold renamed. rewrite bool_decide_true, orb_true_r by done. done. }
  assert (Hne : old ≠ new) by (intros Heq; by rewrite Heq in E).
  eapply rename_post_bind; [done|apply grows_validated|apply runs_validated|]. intros source s1 Hs1. clear Hs.
  eapply rename_post_bind; [done|apply grows_node_for|by apply runs_node_for|]. intros id s2 Hs2. clear Hs1.
  eapply rename_post_bind; [done|apply grows_stats|apply runs_stats|]. intros st s3 Hs3. clear Hs2.
  eapply rename_post_bind; [done|apply grows_validated|apply runs_validated|]. intros destination s4 Hs4. clear Hs3.
  unfold mbind at 1, M_bind at 1. destruct (runs_call_state s4 (Rename source destination) Hs4) as (H3&H4&H5).
  destruct (call perform (Rename source destination) s4) as [[u|e|] s5]; cbn [fst snd] in *; [|unfold rename_post; cbn; by rewrite H4|done].
  destruct (forget_spec new s5 Hnew0 Hnew H3) as (A1&_&A3&A4). erewrite M_bind_done by done.
  destruct (move_spec old new Hold0 Hnew0 Hold Hnew _ A1 A3) as (_&_&B3). intros i n Hi. etrans; [apply B3|]. rewrite A4, H4, Hi. cbn. f_equal.
  unfold renamed. rewrite (bool_decide_false (old = new)) by done. destruct n as [q [|]]; [|done]. cbn [nd_attached nd_parts negb orb andb].
  case_bool_decide as E1; [done|]. cbn [nd_attached nd_parts andb]. by case_bool_decide.
Qed.
End runs.

Section claims.
Context {F W : Type} (perform : ∀ A, host_call F A → W → (A + string) * W) (constants : string → option Z) (cwd root : text) (read_only : bool) (host : W).
(** The filesystem of a host that begins as [host]: its [#root_path], and what its
    operations can make of it. *)
Definition fs_root_path : outcome text := (new_node_fs perform cwd root host).1.
Definition fs_reachable (s : node_fs) : Prop :=
  rtc (node_step perform constants cwd fs_root_path read_only) (new_node_fs perform cwd root host).2 s.
Lemma root_path_ends : fs_root_path ≠ Loops.
Proof using. unfold fs_root_path, new_node_fs. by destruct (perform _ _ _) as [[p|code] w]. Qed.
Lemma new_table_ok : table_ok (new_node_fs perform cwd root host).2.
Proof using.
  unfold new_node_fs. destruct (perform _ _ _) as [r w]. cbn [snd]. split; cbn [nf_nodes nf_heap].
  - intros k id [<- <-]%lookup_singleton_Some. by exists [].
  - intros [|id] parts Hp; [|done]. injection Hp as <-. apply lookup_singleton_eq.
  - done.
Qed.
Lemma reachable_ok s : host_ok perform constants → fs_reachable s → table_ok s.
Proof using. intros Hh Hr. eapply steps_ok; [exact Hh|apply root_path_ends|apply new_table_ok|exact Hr]. Qed.

(** C37: whatever the guest asks and however the host answers, [#nodes] has exactly the
    attached [Node] objects, each under its own path, so that a path is one object and an
    object one path, of proper names; the root stays, and no operation runs for ever. *)
Theorem node_table_one_to_one s m : host_ok perform constants → fs_reachable s →
  (∀ k id, nf_nodes s !! k = Some id ↔ ∃ parts, nf_heap s !! id = Some (Node parts true) ∧ k = key parts ∧ Forall name_ok parts) ∧
  (∀ id id' parts, nf_heap s !! id = Some (Node parts true) → nf_heap s !! id' = Some (Node parts true) → id = id') ∧
  nf_heap s !! 0%nat = Some (Node [] true) ∧
  (run_method perform constants cwd fs_root_path read_only m s).1 ≠ Loops.
Proof using.
  intros Hh Hr. pose proof (reachable_ok s Hh Hr) as Hs. split_and!.
  - intros k id. split; [by apply (to_entry _ Hs)|]. intros (parts&Hp&->&_). by apply (to_node _ Hs).
  - intros id id' parts. by apply to_same.
  - apply (to_root _ Hs).
  - destruct (method_runs perform constants cwd fs_root_path read_only Hh root_path_ends m s Hs) as (new&_&_&_&H). intros E. by rewrite E in H.
Qed.

(** C38: an operation asks the host only for paths at or below the shared directory, of
    which the host has just said that their directory is there too; [open], [chmod] and
    [access], which would follow a symbolic link at the end of one, only with O_NOFOLLOW
    or after [lstat] said that it is none; the names of a directory only by [readdir],
    and of the path of the node that it is for, which [opendir] lets be opened only once
    [lstat] said that it is a directory; and a filesystem that is read only asks for
    nothing that modifies a file, opens for writing included. *)
Theorem node_fs_contained s m : host_ok perform constants → fs_reachable s →
  let '(o, s') := run_method perform constants cwd fs_root_path read_only m s in
  ∃ new, nf_calls s' = nf_calls s ++ new ∧
    all_allowed constants cwd fs_root_path read_only (listing_of (nf_heap s) m) [] new ∧
    ∀ id flags, m = MOpendir id flags → o = Done tt → directory_seen cwd fs_root_path (nf_heap s) id new.
Proof using.
  intros Hh Hr. destruct (method_runs perform constants cwd fs_root_path read_only Hh root_path_ends m s (reachable_ok s Hh Hr)) as (new&H1&_&H3&H4).
  destruct (run_method perform constants cwd fs_root_path read_only m s) as [o s']. exists new. split_and!; [done..|]. intros id flags -> ->. exact H4.
Qed.

(** C39: a rename that the host makes moves every object at or below the old path along,
    detaches every one that was at or below the new path, and leaves the others; one
    that fails, or of a path to itself, leaves them all. *)
Theorem rename_moves_subtree s oldParent oldName newParent newName op np : host_ok perform constants → fs_reachable s →
  nf_heap s !! oldParent = Some (Node op true) → nf_heap s !! newParent = Some (Node np true) →
  let '(o, s') := rename perform cwd fs_root_path read_only oldParent oldName newParent newName s in
  match o with
  | Done _ => ∀ id n, nf_heap s !! id = Some n → nf_heap s' !! id = Some (renamed (op ++ [oldName]) (np ++ [newName]) n)
  | Raise _ => nf_heap s `prefix_of` nf_heap s'
  | Loops => False
  end.
Proof using.
  intros Hh Hr Ho Hn. pose proof (rename_exact perform constants cwd fs_root_path read_only root_path_ends s oldParent oldName newParent newName op np
    (reachable_ok s Hh Hr) Ho Hn) as H. unfold rename_post in H. by destruct (rename _ _ _ _ _ _ _ _ s) as [o s'].
Qed.
End claims.

(** * Behind a virtio-fs device

    The filesystem with a log of its operations: of each, the nodes as it began, whether
    it was done, and what it asked the host for. *)
Section served.
Context {F W : Type} (perform : ∀ A, host_call F A → W → (A + string) * W) (constants : string → option Z) (cwd : text) (root_path : outcome text) (read_only : bool).
Context (Hhost : host_ok perform constants) (Hroot : root_path ≠ Loops).
Abbreviation node_fs := (@node_fs F W).
Abbreviation method := (@method F).
Record operation := Operation { op_method : method; op_nodes : list node; op_done : bool; op_calls : list (event F) }.
Definition is_done {A} (o : outcome A) : bool := match o with Done _ => true | _ => false end.
Definition logged {A} (m : method) (body : M node_fs A) : M (node_fs * list operation) A := fun '(s, log) =>
  let '(o, s') := body s in (o, (s', log ++ [Operation m (nf_heap s) (is_done o) (drop (length (nf_calls s)) (nf_calls s'))])).
Definition logged_filesystem : filesystem nat (option F) (node_fs * list operation) :=
  Filesystem _ _ _ 0%nat
    (fun parent name => logged (MLookup parent name) (lookup perform cwd root_path parent name))
    (fun id handle => logged (MGetattr id handle) (getattr perform cwd root_path id handle))
    (Some (fun id changes handle => logged (MSetattr id changes handle) (setattr perform constants cwd root_path read_only id changes handle)))
    (Some (fun id => logged (MReadlink id) (readlink perform cwd root_path id)))
    (Some (fun parent name target context => logged (MSymlink parent name target context) (symlink perform cwd root_path read_only parent name target context)))
    (Some (fun parent name context => logged (MMkdir parent name context) (mkdir perform cwd root_path read_only parent name context)))
    (Some (fun parent name => logged (MUnlink parent name) (unlink perform cwd root_path read_only parent name)))
    (Some (fun parent name => logged (MRmdir parent name) (rmdir perform cwd root_path read_only parent name)))
    (Some (fun p a q b => logged (MRename p a q b) (rename perform cwd root_path read_only p a q b)))
    (Some (fun id flags => logged (MOpen id flags) (open perform constants cwd root_path read_only id flags)))
    (Some (fun parent name flags context => logged (MCreate parent name flags context) (create perform constants cwd root_path read_only parent name flags context)))
    (Some (fun id handle offset length => logged (MRead id handle offset length) (read perform id handle offset length)))
    (Some (fun id handle offset data => logged (MWrite id handle offset data) (write perform read_only id handle offset data)))
    (Some (fun id handle => logged (MFlush id handle) (flush perform id handle)))
    (Some (fun id handle dataOnly => logged (MFsync id handle dataOnly) (fsync perform id handle dataOnly)))
    (Some (fun id handle => logged (MRelease id handle) (release perform id handle)))
    (Some (fun id flags => logged (MOpendir id flags) (opendir perform cwd root_path id flags)))
    (Some (fun id handle => logged (MReaddir id handle) (readdir perform cwd root_path id handle)))
    None
    (Some (fun id mask => logged (MAccess id mask) (access perform cwd root_path id mask)))
    (Some (fun id => logged (MStatfs id) (statfs_of perform root_path id)))
    None.

(** An [opendir] of the node was done. *)
Definition opened_dir (log : list operation) (id : nat) : Prop :=
  ∃ op flags, op ∈ log ∧ op_method op = MOpendir id flags ∧ op_done op = true.
(** An operation after [before] is contained in the shared directory: it asks for what it
    may, lists a directory only if an [opendir] of the node was done before, and is
    itself done as an [opendir] only if the node's path was seen to be a directory. *)
Definition op_contained (before : list operation) (op : operation) : Prop :=
  all_allowed constants cwd root_path read_only (listing_of (op_nodes op) (op_method op)) [] (op_calls op) ∧
  (∀ id handle, op_method op = MReaddir id handle → opened_dir before id) ∧
  (∀ id flags, op_method op = MOpendir id flags → op_done op = true → directory_seen cwd root_path (op_nodes op) id (op_calls op)).
Definition contained (log : list operation) : Prop := ∀ before op after, log = before ++ op :: after → op_contained before op.
(** The state between operations, whose calls are those of the log. *)
Definition fs_good (w : node_fs * list operation) : Prop :=
  table_ok w.1 ∧ nf_calls w.1 = concat (op_calls <$> w.2) ∧ contained w.2.
Definition fs_opened (w : node_fs * list operation) (id : nat) (_ : option F) : Prop := opened_dir w.2 id.

Lemma contained_snoc log op : contained log → op_contained log op → contained (log ++ [op]).
Proof using.
  intros Hl Ho before op' after E. destruct after as [|y after0] eqn:Ea; [|rewrite <- Ea in E; destruct (exists_last (l := after)) as (after'&x&->); [by rewrite Ea|]].
  - apply app_inj_tail in E as [-> ->]. done.
  - rewrite app_comm_cons, app_assoc in E. apply app_inj_tail in E as [E _]. by apply (Hl _ _ after').
Qed.
Lemma opened_later log log' id : opened_dir log id → opened_dir (log ++ log') id.
Proof using. intros (op&flags&Hin&H). exists op, flags. split; [|done]. apply elem_of_app. by left. Qed.
Abbreviation does := (does constants cwd root_path read_only).
Lemma logged_serves {A} m (body : M node_fs A) w : (∀ hp, does hp m body) → fs_good w → (∀ id handle, m = MReaddir id handle → opened_dir w.2 id) →
  serves_at fs_good fs_opened (logged m body) w.
Proof using.
  destruct w as [s log]. intros Hm (Hs&Hcalls&Hlog) Hopen. cbn [fst snd] in *. destruct (Hm (nf_heap s) s (conj Hs eq_refl)) as (new&H1&[H2 _]&H3&H4).
  unfold serves_at, logged. destruct (body s) as [o s']. cbn [fst snd] in *. split; [by intros ->|].
  assert (Hnew : drop (length (nf_calls s)) (nf_calls s') = new) by (by rewrite H1, drop_app_length). rewrite Hnew.
  split; [|intros id handle; apply opened_later]. split; [done|]. cbn [fst snd]. split; [by rewrite H1, Hcalls, fmap_app, concat_app; cbn; rewrite app_nil_r|].
  apply contained_snoc; [done|]. split_and!; [done|exact Hopen|]. cbn. intros id flags -> Hdone. by destruct o.
Qed.
Lemma logged_serving {A} m (body : M node_fs A) : (∀ hp, does hp m body) → (∀ id handle, m ≠ MReaddir id handle) →
  serving fs_good fs_opened (logged m body).
Proof using. intros Hm Hr w Hw. apply logged_serves; [done|done|]. intros id handle E. by apply Hr in E. Qed.
Ltac operation := match goal with |- does ?hp ?m _ =>
  pose proof (runs_method perform constants cwd root_path read_only Hhost Hroot hp m) as Hdoes; cbn [run_method] in Hdoes;
  first [exact Hdoes|by apply does_unit in Hdoes] end.
(** It is as the device needs it: every method ends, a directory that is listed has been
    opened, and looking up gives no root. *)
Lemma logged_host_ends : host_ends logged_filesystem fs_good fs_opened.
Proof using Hhost Hroot.
  split; intros; repeat match goal with H : _ = Some _ |- _ => progress cbn in H; first [discriminate H|injection H as <-] end;
    try (apply logged_serving; [intros hp; operation|by intros]).
  - destruct w as [s log]. match goal with H : logged _ _ _ = _ |- _ => revert H end. unfold logged.
    destruct (opendir perform cwd root_path n l s) as [o s']. intros [= -> <-].
    eexists _, l. split; [by apply elem_of_app; right; apply list_elem_of_singleton|done].
  - apply logged_serves; [intros hp; operation|done|]. by intros id handle [= <- <-].
Qed.
Lemma logged_lookup_root p n w id w' : fs_good w → fs_lookup logged_filesystem p n w = (Done (Some id), w') → id ≠ fs_root logged_filesystem.
Proof using Hhost Hroot.
  destruct w as [s log]. intros (Hs&_). cbn. destruct (runs_lookup perform constants cwd root_path read_only Hroot None [] p n s (conj Hs I)) as (new&_&_&_&H).
  destruct (lookup perform cwd root_path p n s) as [o s']. intros [= -> _]. cbn in H. by intros ->.
Qed.

(** C13: from end to end: while a guest's chains can be answered and its notifications
    run one after another, a virtio-fs device that shares a directory answers every
    chain once, within its buffers and with sane tables after it; and all that the host
    is ever asked for are the calls of operations that are contained in the shared
    directory, which modify nothing when it is read only: the names of a directory are
    asked for only of a node of which an earlier [opendir] was done, when the host had
    said that the node's path is a directory. *)
Theorem guest_contained validity chains (d : @device nat (option F) (node_fs * list operation) _ _) :
  device_sane logged_filesystem fs_good fs_opened d → Forall answerable chains →
  ∃ rs d', notify logged_filesystem validity chains d = (Done rs, d') ∧ Forall2 answered chains rs ∧
    device_sane logged_filesystem fs_good fs_opened d' ∧
    nf_calls (fd_host d').1 = concat (op_calls <$> (fd_host d').2) ∧ contained (fd_host d').2.
Proof using Hhost Hroot.
  intros Hd Hc. destruct (notify_all logged_filesystem _ _ validity chains d logged_host_ends logged_lookup_root Hd Hc) as (rs&d'&Hrs&Hf&[Hd' _]).
  exists rs, d'. split_and!; [done..| |]; apply Hd'.
Qed.
End served.

(** * A host of directories

    Its directories by path, in which nothing is a file or a link. *)
Definition directory_stats : BigIntStats := Stats S_IFDIR 0 0 2 0 0 0 4096 0 0 0.
Definition perform_dirs (A : Type) (c : host_call unit A) : list text → (A + string) * list text :=
  match c in host_call _ A return list text → (A + string) * list text with
  | Realpath p => fun w => (inl p, w)
  | Lstat p => fun w => (if bool_decide (p ∈ w) then inl directory_stats else inr "ENOENT"%string, w)
  | MkdirAt p _ => fun w => if bool_decide (p ∈ w) then (inr "EEXIST"%string, w) else (inl tt, w ++ [p])
  | Rename p q => fun w => (inl tt, (fun r => if bool_decide (r = p) then q else r) <$> w)
  | Readdir _ => fun w => (inl [], w)
  | _ => fun w => (inr "ENOSYS"%string, w)
  end.
Definition linux_constants (name : string) : option Z :=
  Bytes.assoc name [("O_RDONLY", 0); ("O_WRONLY", 1); ("O_RDWR", 2); ("O_CREAT", 0x40); ("O_EXCL", 0x80); ("O_NOCTTY", 0x100); ("O_TRUNC", 0x200);
    ("O_APPEND", 0x400); ("O_NONBLOCK", 0x800); ("O_DSYNC", 0x1000); ("O_DIRECT", 0x4000); ("O_DIRECTORY", 0x10000); ("O_NOFOLLOW", 0x20000);
    ("O_NOATIME", 0x40000); ("O_SYNC", 0x101000)].
Lemma dirs_ok : host_ok perform_dirs linux_constants.
Proof.
  split; [by intros p w names w' [= <- <-]|]. intros name Hin.
  assert (H : Forall (fun name => constant linux_constants name &&& writing linux_constants = 0)
    ["O_RDONLY"; "O_EXCL"; "O_NOCTTY"; "O_NONBLOCK"; "O_SYNC"; "O_DSYNC"; "O_DIRECT"; "O_DIRECTORY"; "O_NOFOLLOW"; "O_NOATIME"]%string)
    by by apply (bool_decide_unpack _).
  rewrite Forall_forall in H. by apply H.
Qed.
(** A shared directory "/s" with "a" and "a/x" in it, made through the filesystem. *)
Definition dirs_root : outcome text := fs_root_path perform_dirs (lit "/") (lit "/s") [lit "/s"].
Definition dirs_run (m : method) (s : @node_fs unit (list text)) : node_fs := (run_method perform_dirs linux_constants (lit "/") dirs_root false m s).2.
Definition dirs_start : @node_fs unit (list text) := (new_node_fs perform_dirs (lit "/") (lit "/s") [lit "/s"]).2.
Definition dirs_made : node_fs := dirs_run (MMkdir 1 (lit "x") (CreateContext 0x1ed 0 0)) (dirs_run (MMkdir 0 (lit "a") (CreateContext 0x1ed 0 0)) dirs_start).
Lemma dirs_reachable : fs_reachable perform_dirs linux_constants (lit "/") (lit "/s") false [lit "/s"] dirs_made.
Proof.
  eapply rtc_l; [by exists (MMkdir 0 (lit "a") (CreateContext 0x1ed 0 0))|]. eapply rtc_l; [by exists (MMkdir 1 (lit "x") (CreateContext 0x1ed 0 0))|]. apply rtc_refl.
Qed.
Lemma node_table_one_to_one_witness : nf_nodes dirs_made !! lit "a/x" = Some 2%nat ∧ nf_heap dirs_made !! 2%nat = Some (Node [lit "a"; lit "x"] true) ∧
  (run_method perform_dirs linux_constants (lit "/") dirs_root false (MLookup 1 (lit "x")) dirs_made).1 ≠ Loops.
Proof.
  destruct (node_table_one_to_one perform_dirs linux_constants (lit "/") (lit "/s") false [lit "/s"] dirs_made (MLookup 1 (lit "x")) dirs_ok dirs_reachable)
    as (H1&_&_&H4). split; [|split; [by vm_compute|exact H4]]. apply (proj2 (H1 (lit "a/x") 2%nat)). exists [lit "a"; lit "x"].
  split; [by vm_compute|]. split; [reflexivity|]. by apply (bool_decide_unpack _).
Defined.
Lemma node_fs_contained_witness :
  ∃ new, nf_calls (dirs_run (MOpendir 1 0) dirs_made) = nf_calls dirs_made ++ new ∧ all_allowed linux_constants (lit "/") dirs_root false None [] new ∧
    directory_seen (lit "/") dirs_root (nf_heap dirs_made) 1 new.
Proof.
  pose proof (node_fs_contained perform_dirs linux_constants (lit "/") (lit "/s") false [lit "/s"] dirs_made (MOpendir 1 0) dirs_ok dirs_reachable) as H.
  change (fs_root_path perform_dirs (lit "/") (lit "/s") [lit "/s"]) with dirs_root in H. unfold dirs_run.
  assert (E : (run_method perform_dirs linux_constants (lit "/") dirs_root false (MOpendir 1 0) dirs_made).1 = Done tt) by by vm_compute.
  destruct (run_method perform_dirs linux_constants (lit "/") dirs_root false (MOpendir 1 0) dirs_made) as [o s']. cbn [fst] in E. subst o.
  destruct H as (new&H1&H2&H3). exists new. split; [exact H1|]. split; [exact H2|]. exact (H3 1%nat 0 eq_refl eq_refl).
Defined.
Lemma rename_moves_subtree_witness :
  let '(o, s') := rename perform_dirs (lit "/") dirs_root false 0 (lit "a") 0 (lit "b") dirs_made in
  o = Done tt ∧ nf_heap s' !! 2%nat = Some (Node [lit "b"; lit "x"] true).
Proof.
  pose proof (rename_moves_subtree perform_dirs linux_constants (lit "/") (lit "/s") false [lit "/s"] dirs_made 0 (lit "a") 0 (lit "b") [] []
    dirs_ok dirs_reachable eq_refl eq_refl) as H.
  assert (E : (rename perform_dirs (lit "/") dirs_root false 0 (lit "a") 0 (lit "b") dirs_made).1 = Done tt) by by vm_compute.
  change (fs_root_path perform_dirs (lit "/") (lit "/s") [lit "/s"]) with dirs_root in H.
  destruct (rename perform_dirs (lit "/") dirs_root false 0 (lit "a") 0 (lit "b") dirs_made) as [o s']. cbn [fst] in E. subst o.
  split; [reflexivity|]. apply (H 2%nat (Node [lit "a"; lit "x"] true)). by vm_compute.
Defined.
Lemma dirs_good : fs_good linux_constants (lit "/") dirs_root false (dirs_start, []).
Proof. split; [apply new_table_ok|]. split; [reflexivity|]. by intros [|] op after. Qed.
Lemma dirs_root_ends : dirs_root ≠ Loops.
Proof. apply root_path_ends. Qed.
Definition dirs_filesystem : filesystem nat (option unit) (@node_fs unit (list text) * list (@operation unit)) :=
  logged_filesystem perform_dirs linux_constants (lit "/") dirs_root false.
Definition dirs_device : @device nat (option unit) (@node_fs unit (list text) * list (@operation unit)) _ _ :=
  Device (tables_new 0%nat) None (dirs_start, []).
(** The shared directory is opened and listed. *)
Definition listing_chains : list (list vbuffer) :=
  [ [VBuffer (sample_header 48 FuseOpcode.OPENDIR 1 ++ zeros 8) false; VBuffer (zeros 32) true];
    [VBuffer (sample_header 80 FuseOpcode.READDIR 1 ++ le_encode 8 1 ++ le_encode 8 0 ++ le_encode 4 4096 ++ zeros 20) false; VBuffer (zeros 4096) true] ].
Lemma listing_answerable : Forall answerable listing_chains.
Proof. repeat constructor; cbn; try (by intros h [= <-]); try done; repeat constructor; done. Qed.
Lemma guest_contained_witness :
  ∃ rs d', notify dirs_filesystem 1 listing_chains dirs_device = (Done rs, d') ∧ Forall2 answered listing_chains rs ∧
    op_method <$> (fd_host d').2 = [MOpendir 0 0; MReaddir 0 None; MGetattr 0 None; MGetattr 0 None] ∧ contained linux_constants (lit "/") dirs_root false (fd_host d').2.
Proof.
  destruct (guest_contained perform_dirs linux_constants (lit "/") dirs_root false dirs_ok dirs_root_ends 1 listing_chains dirs_device) as (rs&d'&H1&H2&_&_&H3).
  - destruct (file_system_device dirs_filesystem (lit "host") (dirs_start, [])) as [[d config]|e|] eqn:E; [|discriminate E..].
    pose proof (device_new_sane _ _ fs_opened _ _ _ _ dirs_good E) as H. unfold file_system_device in E. cbn in E. injection E as <- _. exact H.
  - apply listing_answerable.
  - exists rs, d'. split; [exact H1|]. split; [exact H2|]. split; [|exact H3].
    assert (E : op_method <$> (fd_host (notify dirs_filesystem 1 listing_chains dirs_device).2).2 = [MOpendir 0 0; MReaddir 0 None; MGetattr 0 None; MGetattr 0 None]) by (vm_compute; reflexivity).
    unfold dirs_filesystem in E. rewrite H1 in E. exact E.
Defined.
