(* ===== verification/VsockConn.v ===== *)
(** A vsock stream connection: [create_vsock_connection] of
    packages/kernel/src/virtio/vsock.ts, with its reads and writes as tasks.

    The asynchronous functions are cut where they wait. A read that waits is a
    [reader] in [vc_readers]; once its promise is resolved with a chunk it is in
    [vc_woken], until it runs again. Writes are chained on [write_tail]: they
    wait in [vc_writes] and run one at a time; the running one waits for credit
    in [vc_credit], and once woken is in [vc_resumed]. *)
From S2P Require Export Queue.

(** * Constants *)
Module VsockOp.
Definition REQUEST : Z := 1.
Definition RESPONSE : Z := 2.
Definition RST : Z := 3.
Definition SHUTDOWN : Z := 4.
Definition RW : Z := 5.
Definition CREDIT_UPDATE : Z := 6.
Definition CREDIT_REQUEST : Z := 7.
End VsockOp.
Definition SHUTDOWN_RCV : Z := 1.
Definition SHUTDOWN_SEND : Z := 2.
Definition HOST_CID : Z := 2.
Definition DEFAULT_VSOCK_BUF_ALLOC : Z := 256 * 1024.
Definition MAX_VSOCK_PAYLOAD : Z := 2048.

(** * The state of a connection *)

(** A call of [read] or of [readExactly(length)], with what the latter has. *)
Inductive reader :=
| Reading (id : nat)
| ReadingExactly (id : nat) (length : Z) (out : list Z).
(** A call of [write_serialized], with the offset it has reached. *)
Record writer := Writer { wr_id : nat; wr_data : list Z; wr_offset : Z }.

(** The last two fields log how the promises of reads and writes settled. *)
Record connection := Connection {
  vc_local_port : Z; vc_peer_port : Z;
  vc_buffer : list (list Z); vc_readers : list reader; vc_woken : list (reader * list Z);
  vc_writes : list (nat * list Z); vc_active : bool; vc_credit : list writer; vc_resumed : list writer;
  vc_closed : bool; vc_bytes_read : Z; vc_bytes_written : Z; vc_last_credit_update : Z;
  vc_peer_buf_alloc : Z; vc_peer_fwd_cnt : Z;
  vc_reads : list (nat * outcome (list Z)); vc_settled : list (nat * outcome unit) }.
#[export] Instance connection_eta : Eta connection := fun c => Connection
  (vc_local_port c) (vc_peer_port c) (vc_buffer c) (vc_readers c) (vc_woken c) (vc_writes c) (vc_active c)
  (vc_credit c) (vc_resumed c) (vc_closed c) (vc_bytes_read c) (vc_bytes_written c) (vc_last_credit_update c)
  (vc_peer_buf_alloc c) (vc_peer_fwd_cnt c) (vc_reads c) (vc_settled c).

Definition connection_new (local_port peer_port : Z) : connection :=
  Connection local_port peer_port [] [] [] [] false [] [] false 0 0 0 DEFAULT_VSOCK_BUF_ALLOC 0 [] [].

(** * The operations

    [VsockConnectionOps] and where the connection's state is: a connection is
    used through the callbacks it is created with, which act on the state [S]
    it is a part of and may throw. *)
Class ConnectionOps (S : Type) := {
  co_get : S → connection;
  co_put : connection → S → S;
  co_send : Z → Z → list Z → Z → M S unit;
  co_close : M S unit }.

Section connection.
Context {S : Type} `{!ConnectionOps S}.

Definition conn : M S connection := gets co_get.
Definition update (f : connection → connection) : M S unit := modify (fun s => co_put (f (co_get s)) s).

Definition settle_read (id : nat) (o : outcome (list Z)) : M S unit :=
  update (fun c => c <| vc_reads := vc_reads c ++ [(id, o)] |>).
Definition settle_write (id : nat) (o : outcome unit) : M S unit :=
  update (fun c => c <| vc_settled := vc_settled c ++ [(id, o)] |> <| vc_active := false |>).

Definition wake_credit_waiters (c : connection) : connection :=
  c <| vc_resumed := vc_resumed c ++ vc_credit c |> <| vc_credit := [] |>.

Definition close_from_peer (c : connection) : connection :=
  if vc_closed c then c
  else wake_credit_waiters
    (c <| vc_closed := true |>
       <| vc_woken := vc_woken c ++ ((fun r => (r, [])) <$> vc_readers c) |>
       <| vc_readers := [] |>).

(** [await read_chunk()] of the reader [r]. *)
Definition read_chunk (r : reader) (c : connection) : connection :=
  match vc_buffer c with
  | chunk :: rest => c <| vc_buffer := rest |> <| vc_woken := vc_woken c ++ [(r, chunk)] |>
  | [] =>
      if vc_closed c then c <| vc_woken := vc_woken c ++ [(r, [])] |>
      else c <| vc_readers := vc_readers c ++ [r] |>
  end.

Definition consume (length : Z) : M S unit :=
  update (fun c => c <| vc_bytes_read := to_u32 (vc_bytes_read c + length) |>) ;;
  c ← conn;
  let consumed := to_u32 (vc_bytes_read c - vc_last_credit_update c) in
  if DEFAULT_VSOCK_BUF_ALLOC / 4 <=? consumed then
    update (fun c => c <| vc_last_credit_update := vc_bytes_read c |>) ;;
    c ← conn;
    co_send VsockOp.CREDIT_UPDATE 0 [] (vc_bytes_read c)
  else mret tt.

(** [read()] and [readExactly(length)]. *)
Definition read (id : nat) : M S unit := update (read_chunk (Reading id)).
Definition read_exactly (id : nat) (length : Z) : M S unit :=
  if 0 <? length then update (read_chunk (ReadingExactly id length []))
  else settle_read id (Done []).

(** A read goes on with the chunk its promise was resolved with. *)
Definition resume_read (r : reader) (chunk : list Z) : M S unit :=
  match r with
  | Reading id => catch (consume (zlen chunk) ;; settle_read id (Done chunk)) (fun e => settle_read id (Raise e))
  | ReadingExactly id length out =>
      if zlen chunk =? 0 then settle_read id (Done out)
      else
        let n := Z.min (zlen chunk) (length - zlen out) in
        let out := out ++ subarray chunk 0 n in
        catch
          (consume n ;;
           (if n <? zlen chunk
            then update (fun c => c <| vc_buffer := subarray chunk n (zlen chunk) :: vc_buffer c |>)
            else mret tt) ;;
           if zlen out <? length then update (read_chunk (ReadingExactly id length out))
           else settle_read id (Done out))
          (fun e => settle_read id (Raise e))
  end.

(** The loop of [write_serialized]: each round sends at least a byte, so the
    number of bytes is fuel enough. *)
Fixpoint write_loop (fuel : nat) (id : nat) (data : list Z) (offset : Z) : M S unit :=
  if offset <? zlen data then
    c ← conn;
    if vc_closed c then throw (JsError "vsock connection is closed")
    else
      let used := to_u32 (vc_bytes_written c - vc_peer_fwd_cnt c) in
      let available := Z.max 0 (vc_peer_buf_alloc c - used) in
      if available =? 0 then update (fun c => c <| vc_credit := vc_credit c ++ [Writer id data offset] |>)
      else
        let n := Z.min (Z.min MAX_VSOCK_PAYLOAD available) (zlen data - offset) in
        co_send VsockOp.RW 0 (subarray data offset (offset + n)) (vc_bytes_read c) ;;
        update (fun c => c <| vc_bytes_written := to_u32 (vc_bytes_written c + n) |>) ;;
        match fuel with
        | O => lift Loops
        | Datatypes.S fuel => write_loop fuel id data (offset + n)
        end
  else settle_write id (Done tt).

Definition write_serialized (id : nat) (data : list Z) (offset : Z) : M S unit :=
  catch (write_loop (length data) id data offset) (fun e => settle_write id (Raise e)).

(** [write(data)] copies the data and waits for the writes before it. *)
Definition write (id : nat) (data : list Z) : M S unit :=
  update (fun c => c <| vc_writes := vc_writes c ++ [(id, data)] |>).

(** [connection.close()] *)
Definition close : M S unit :=
  c ← conn;
  if vc_closed c then mret tt else co_close ;; update close_from_peer.

Definition update_credit (buf_alloc fwd_cnt : Z) : M S unit :=
  update (fun c => wake_credit_waiters
    (c <| vc_peer_buf_alloc := buf_alloc |> <| vc_peer_fwd_cnt := fwd_cnt |>)).

Definition enqueue (data : list Z) : M S unit :=
  update (fun c =>
    if (vc_closed c || (zlen data =? 0))%bool then c
    else match vc_readers c with
         | r :: rs => c <| vc_readers := rs |> <| vc_woken := vc_woken c ++ [(r, data)] |>
         | [] => c <| vc_buffer := vc_buffer c ++ [data] |>
         end).

(** * What happens next

    The calls of the connection's user and of the device, and the tasks that
    can run. *)
Inductive event :=
| CallRead (id : nat) | CallReadExactly (id : nat) (length : Z)
| CallWrite (id : nat) (data : list Z) | CallClose
| PeerCredit (buf_alloc fwd_cnt : Z) | PeerData (data : list Z) | PeerClose
| RunRead (i : nat) | StartWrite | RunWrite (i : nat).

Definition step (e : event) : M S unit :=
  match e with
  | CallRead id => read id
  | CallReadExactly id length => read_exactly id length
  | CallWrite id data => write id data
  | CallClose => close
  | PeerCredit buf_alloc fwd_cnt => update_credit buf_alloc fwd_cnt
  | PeerData data => enqueue data
  | PeerClose => update close_from_peer
  | RunRead i =>
      c ← conn;
      match vc_woken c !! i with
      | Some (r, chunk) => update (fun c => c <| vc_woken := delete i (vc_woken c) |>) ;; resume_read r chunk
      | None => mret tt
      end
  | StartWrite =>
      c ← conn;
      match vc_active c, vc_writes c with
      | false, (id, data) :: rest =>
          update (fun c => c <| vc_writes := rest |> <| vc_active := true |>) ;; write_serialized id data 0
      | _, _ => mret tt
      end
  | RunWrite i =>
      c ← conn;
      match vc_resumed c !! i with
      | Some w =>
          update (fun c => c <| vc_resumed := delete i (vc_resumed c) |>) ;;
          write_serialized (wr_id w) (wr_data w) (wr_offset w)
      | None => mret tt
      end
  end.
Fixpoint run (es : list event) : M S unit :=
  match es with [] => mret tt | e :: es => step e ;; run es end.
End connection.

(** * A connection whose callbacks are logged *)
Inductive call := Sent (op flags : Z) (payload : list Z) (fwd_cnt : Z) | CloseCalled.
Abbreviation logged := (connection * list call)%type.
#[export] Instance log_ops : ConnectionOps logged := {|
  co_get := fst;
  co_put c s := (c, s.2);
  co_send op flags payload fwd_cnt := modify (fun s => (s.1, s.2 ++ [Sent op flags payload fwd_cnt]));
  co_close := modify (fun s => (s.1, s.2 ++ [CloseCalled])) |}.

(** The bytes of the data packets sent. *)
Definition rw_bytes (l : list call) : list Z :=
  l ≫= fun k => match k with Sent op _ payload _ => if op =? VsockOp.RW then payload else [] | CloseCalled => [] end.
Lemma rw_bytes_app l1 l2 : rw_bytes (l1 ++ l2) = rw_bytes l1 ++ rw_bytes l2.
Proof. apply bind_app. Qed.

(** ** Reading *)
Definition part_of (r : reader) : list Z := match r with Reading _ => [] | ReadingExactly _ _ out => out end.
Definition results (c : connection) : list Z := concat (omap (fun r => done_of r.2) (vc_reads c)).
(** What the reads have, what the one under way has and was given, and what is
    buffered. *)
Definition reading (c : connection) : list Z :=
  concat ((fun r => part_of r) <$> vc_readers c) ++ concat ((fun w => part_of w.1 ++ w.2) <$> vc_woken c).
(** A [readExactly] under way still wants something. *)
Definition more (r : reader) : Prop :=
  match r with ReadingExactly _ length out => zlen out < length | Reading _ => True end.
Record reads_ok (accepted : list Z) (c : connection) : Prop := {
  ro_one : (length (vc_readers c) + length (vc_woken c) ≤ 1)%nat;
  ro_data : results c ++ reading c ++ concat (vc_buffer c) = accepted;
  ro_wait : vc_readers c ≠ [] → vc_buffer c = [] ∧ vc_closed c = false;
  ro_chunks : Forall (fun chunk => chunk ≠ []) (vc_buffer c);
  ro_more : Forall more (vc_readers c ++ (vc_woken c).*1) }.

(** The data a step accepts, and the reads of one user at a time. *)
Definition accepts (e : event) (c : connection) : list Z :=
  match e with PeerData data => if vc_closed c then [] else data | _ => [] end.
Definition one_reader (e : event) (c : connection) : Prop :=
  match e with
  | CallRead _ | CallReadExactly _ _ => vc_readers c = [] ∧ vc_woken c = []
  | _ => True
  end.

Definition same_reads (s s' : logged) : Prop :=
  vc_readers s'.1 = vc_readers s.1 ∧ vc_woken s'.1 = vc_woken s.1 ∧ vc_buffer s'.1 = vc_buffer s.1 ∧
  vc_reads s'.1 = vc_reads s.1 ∧ vc_closed s'.1 = vc_closed s.1.
#[export] Instance same_reads_preorder : PreOrder same_reads.
Proof.
  split; [by intros s|]. intros a b c (?&?&?&?&?) (?&?&?&?&?). split_and!; congruence.
Qed.
Lemma reads_ok_same acc s s' : same_reads s s' → reads_ok acc s.1 → reads_ok acc s'.1.
Proof.
  intros (E1&E2&E3&E4&E5) []. constructor; unfold results, reading in *; by rewrite ?E1, ?E2, ?E3, ?E4, ?E5.
Qed.

Lemma consume_done n (s : logged) : ∃ s', consume n s = (Done tt, s') ∧ same_reads s s'.
Proof.
  unfold consume. erewrite M_bind_done by done. erewrite M_bind_done by done.
  destruct (_ <=? _); [|by eexists]. erewrite M_bind_done by done. by eexists.
Qed.

Lemma write_loop_reads fuel id data offset : stays same_reads (write_loop (S := logged) fuel id data offset).
Proof.
  revert offset; induction fuel as [|fuel IH]; intros offset; cbn [write_loop];
    stays_with ltac:(first [done | apply IH | apply stays_modify; done]).
Qed.
Lemma write_serialized_reads id data offset : stays same_reads (write_serialized (S := logged) id data offset).
Proof.
  apply stays_catch; [typeclasses eauto|apply write_loop_reads|]. intros e. by apply stays_modify.
Qed.

Lemma read_chunk_ok acc r c :
  vc_readers c = [] → vc_woken c = [] →
  results c ++ part_of r ++ concat (vc_buffer c) = acc → Forall (fun chunk => chunk ≠ []) (vc_buffer c) →
  more r → reads_ok acc (read_chunk r c).
Proof.
  intros Hr Hw Hd Hch Hm. unfold read_chunk. destruct (vc_buffer c) as [|chunk rest] eqn:Eb; [destruct (vc_closed c) eqn:Ec|].
  all: constructor; unfold reading, results in *; cbn; rewrite ?Hr, ?Hw, ?Eb, ?Ec; cbn.
  all: try done; try lia; try (by inversion Hch); try (by apply Forall_singleton).
  all: rewrite ?app_nil_r in *; rewrite <- ?app_assoc; done.
Qed.

Lemma results_snoc c c' id o :
  vc_reads c' = vc_reads c ++ [(id, o)] → results c' = results c ++ default [] (done_of o).
Proof.
  unfold results. intros ->. rewrite omap_app, concat_app. f_equal. destruct o; cbn; by rewrite ?app_nil_r.
Qed.

#[local] Arguments results : simpl never.

(** The read that was woken goes on. *)
Lemma resume_read_ok acc r chunk (s : logged) :
  vc_readers s.1 = [] → vc_woken s.1 = [] →
  results s.1 ++ part_of r ++ chunk ++ concat (vc_buffer s.1) = acc →
  Forall (fun chunk => chunk ≠ []) (vc_buffer s.1) →
  more r →
  reads_ok acc (resume_read r chunk s).2.1 ∧ (resume_read r chunk s).1 = Done tt.
Proof.
  intros Hr Hw Hd Hch Hlen. destruct r as [id|id length out]; cbn [resume_read part_of more] in *.
  - destruct (consume_done (zlen chunk) s) as (s1&E&E1&E2&E3&E4&E5). unfold catch.
    erewrite M_bind_done by exact E. cbn. split; [|done].
    constructor; unfold reading in *; cbn; rewrite ?E1, ?E2, ?E3, ?Hr, ?Hw; cbn; [lia| |done|done|done].
    erewrite (results_snoc s1.1) by done. cbn [default done_of]. unfold results in *. rewrite E4, <- app_assoc. done.
  - destruct (zlen chunk =? 0) eqn:Ez; zbool.
    + apply zlen_0_nil in Ez as ->. cbn. split; [|done].
      constructor; unfold reading in *; cbn; rewrite ?Hr, ?Hw; cbn; [lia| |done|done|done].
      erewrite (results_snoc s.1) by done. cbn. by rewrite <- app_assoc.
    + set (n := Z.min (zlen chunk) (length - zlen out)). unfold catch.
      destruct (consume_done n s) as (s1&E&E1&E2&E3&E4&E5).
      erewrite M_bind_done by exact E.
      assert (Hn : 0 < n ≤ zlen chunk) by (pose proof (zlen_nonneg chunk); lia).
      assert (Hsplit : subarray chunk 0 n ++ subarray chunk n (zlen chunk) = chunk).
      { rewrite subarray_snoc_range by lia. apply subarray_full. }
      set (s2 := if n <? zlen chunk then ((s1.1 <| vc_buffer := subarray chunk n (zlen chunk) :: vc_buffer s1.1 |>), s1.2) else s1).
      rewrite (M_bind_done _ _ _ tt s2).
      2: { unfold s2. by destruct (n <? zlen chunk). }
      assert (H2 : vc_readers s2.1 = [] ∧ vc_woken s2.1 = [] ∧ vc_reads s2.1 = vc_reads s.1 ∧
        concat (vc_buffer s2.1) = subarray chunk n (zlen chunk) ++ concat (vc_buffer s.1) ∧
        Forall (fun chunk => chunk ≠ []) (vc_buffer s2.1)).
      { unfold s2. destruct (n <? zlen chunk) eqn:En; zbool; cbn; rewrite ?E1, ?E2, ?E3, ?E4; split_and!; try done.
        - constructor; [|done]. intros Hnil. apply (f_equal zlen) in Hnil.
          rewrite zlen_subarray, zlen_nil in Hnil by lia. lia.
        - assert (n = zlen chunk) as -> by lia. by rewrite subarray_empty. }
      destruct H2 as (H21&H22&H23&H24&H25).
      assert (Hd2 : results s2.1 ++ (out ++ subarray chunk 0 n) ++ concat (vc_buffer s2.1) = acc).
      { unfold results in *. rewrite H23, H24, <- Hd. rewrite <- !app_assoc. do 2 f_equal.
        by rewrite app_assoc, Hsplit. }
      destruct (zlen _ <? length) eqn:El; cbn; (split; [|done]).
      * zbool. by apply read_chunk_ok.
      * constructor; unfold reading; cbn; rewrite ?H21, ?H22; cbn; [lia| |done|done|done].
        erewrite (results_snoc s2.1) by done. cbn. by rewrite <- app_assoc.
Qed.

(** What a single reader and any writers have seen, of what was accepted. *)
Inductive reads_run (local_port peer_port : Z) : list Z → logged → Prop :=
| reads_start : reads_run local_port peer_port [] (connection_new local_port peer_port, [])
| reads_step acc e s : reads_run local_port peer_port acc s → one_reader e s.1 →
    reads_run local_port peer_port (acc ++ accepts e s.1) (step e s).2.


Lemma results_reads c c' : vc_reads c' = vc_reads c → results c' = results c.
Proof. unfold results. by intros ->. Qed.

Lemma close_reads_ok acc c : reads_ok acc c → reads_ok acc (close_from_peer c).
Proof.
  intros Hok. pose proof Hok as []. unfold close_from_peer. destruct (vc_closed c) eqn:Ec; [done|]. unfold reading in *.
  destruct (vc_readers c) as [|r [|]] eqn:Er; destruct (vc_woken c) as [|w [|]] eqn:Ew; cbn in ro_one0; try lia.
  all: constructor; unfold reading; cbn; rewrite ?Er, ?Ew; cbn; try done; try lia.
  all: rewrite ?app_nil_r in *; try done.
Qed.

Lemma enqueue_reads_ok acc data (s : logged) :
  reads_ok acc s.1 → reads_ok (acc ++ (if vc_closed s.1 then [] else data)) (enqueue data s).2.1.
Proof.
  intros Hok. pose proof Hok as []. unfold enqueue, update, modify. cbn. destruct (vc_closed s.1) eqn:Ec; cbn; [by rewrite app_nil_r|].
  destruct (zlen data =? 0) eqn:Ez; zbool.
  { apply zlen_0_nil in Ez as ->. by rewrite app_nil_r. }
  assert (data ≠ []) by (intros ->; done). unfold reading in *.
  destruct (vc_readers s.1) as [|r [|]] eqn:Er; cbn in ro_one0; [| |lia].
  - constructor; unfold reading; cbn; rewrite ?Er; cbn; try done.
    + rewrite concat_app. cbn. rewrite app_nil_r, <- ro_data0. rewrite <- !app_assoc. done.
    + apply Forall_app. split; [done|]. by apply Forall_singleton.
  - destruct (ro_wait0 ltac:(done)) as [Hb _]. destruct (vc_woken s.1) as [|w ws] eqn:Ew; cbn in ro_one0; [|lia].
    constructor; unfold reading; cbn; rewrite ?Hb; cbn; try done; try lia.
    rewrite Hb in ro_data0. cbn in ro_data0. rewrite <- ro_data0, !app_nil_r. by rewrite <- !app_assoc.
Qed.

Lemma reads_step_ok acc e (s : logged) :
  reads_ok acc s.1 → one_reader e s.1 → reads_ok (acc ++ accepts e s.1) (step e s).2.1.
Proof.
  intros Hok Hone. destruct e as [id|id n|id data| |ba fc|data| |i| |i]; cbn [accepts one_reader] in *.
  6: by apply enqueue_reads_ok.
  all: rewrite app_nil_r.
  - destruct Hok, Hone as [Hr Hw]. apply read_chunk_ok; try done.
    unfold reading in ro_data0. rewrite Hr, Hw in ro_data0. done.
  - destruct Hone as [Hr Hw]. cbn [step]. unfold read_exactly. destruct (0 <? n) eqn:En; zbool.
    + destruct Hok. apply read_chunk_ok; try done. unfold reading in ro_data0. rewrite Hr, Hw in ro_data0. done.
    + destruct Hok. constructor; unfold reading in *; cbn; try done.
      erewrite (results_snoc s.1) by done. cbn. by rewrite app_nil_r.
  - by eapply (reads_ok_same _ s).
  - cbn [step]. unfold close. unfold mbind, M_bind. cbn. destruct (vc_closed s.1) eqn:Ec; [done|].
    by apply close_reads_ok.
  - by eapply (reads_ok_same _ s).
  - by apply close_reads_ok.
  - cbn [step]. erewrite M_bind_done by done. cbn [co_get log_ops].
    destruct (vc_woken s.1 !! i) as [[r chunk]|] eqn:Ei; [|done]. erewrite M_bind_done by done.
    destruct Hok. unfold reading in *.
    destruct (vc_woken s.1) as [|w [|]] eqn:Ew; [done| |cbn in ro_one0; lia].
    destruct i as [|i]; [|done]. injection Ei as ->. destruct (vc_readers s.1) as [|] eqn:Er; [|cbn in ro_one0; lia].
    cbn in *. rewrite app_nil_r in *.
    apply (resume_read_ok acc r chunk (_, s.2)); cbn; rewrite ?Er, ?Ew; try done.
    + rewrite <- ro_data0. by rewrite <- app_assoc.
    + by inversion ro_more0.
  - apply (reads_ok_same _ s); [|done]. cbn [step]. erewrite M_bind_done by done. cbn [co_get log_ops].
    destruct (vc_active s.1), (vc_writes s.1) as [|[id data] rest]; try done. erewrite M_bind_done by done.
    etrans; [|apply write_serialized_reads]. done.
  - apply (reads_ok_same _ s); [|done]. cbn [step]. erewrite M_bind_done by done. cbn [co_get log_ops].
    destruct (vc_resumed s.1 !! i); [|done]. erewrite M_bind_done by done.
    etrans; [|apply write_serialized_reads]. done.
Qed.

Lemma reads_run_ok local_port peer_port acc s : reads_run local_port peer_port acc s → reads_ok acc s.1.
Proof.
  induction 1 as [|acc e s Hrun IH Hone]; [|by apply reads_step_ok]. by constructor; cbn; [lia|..].
Qed.

#[local] Arguments rw_bytes : simpl never.

(** ** Writing

    [calls] are the writes called, in order. *)
Definition tasks (c : connection) : list writer := vc_credit c ++ vc_resumed c.
Definition settled_data (calls : list (nat * list Z)) (c : connection) : list Z :=
  concat (take (length (vc_settled c)) calls).*2.

(** What holds of the writes that settled, whatever the running one does. *)
Record settled_ok (calls : list (nat * list Z)) (s : logged) : Prop := {
  so_ids : (vc_settled s.1).*1 = take (length (vc_settled s.1)) calls.*1;
  so_open : vc_closed s.1 = false → Forall (fun r => r.2 = Done tt) (vc_settled s.1);
  so_prefix : rw_bytes s.2 `prefix_of` concat calls.*2;
  so_done : ∀ k id data, vc_settled s.1 !! k = Some (id, Done tt) → calls !! k = Some (id, data) → data ≠ [] →
    concat (take (S k) calls).*2 `prefix_of` rw_bytes s.2 }.

Record writes_ok (calls : list (nat * list Z)) (s : logged) : Prop := {
  wo_settled : settled_ok calls s;
  wo_active : length (tasks s.1) = (if vc_active s.1 then 1 else 0)%nat;
  wo_calls : ((fun w => (wr_id w, wr_data w)) <$> tasks s.1) ++ vc_writes s.1
             = drop (length (vc_settled s.1)) calls;
  wo_open : vc_closed s.1 = false →
    rw_bytes s.2 = settled_data calls s.1 ++ concat ((fun w => take (Z.to_nat (wr_offset w)) (wr_data w)) <$> tasks s.1);
  wo_offset : Forall (fun w => 0 ≤ wr_offset w < zlen (wr_data w)) (tasks s.1);
  wo_wait : vc_credit s.1 ≠ [] → vc_closed s.1 = false ∧
    Z.max 0 (vc_peer_buf_alloc s.1 - to_u32 (vc_bytes_written s.1 - vc_peer_fwd_cnt s.1)) = 0 }.

(** The write [id] runs and has sent the bytes before [offset]. *)
Record writing (calls : list (nat * list Z)) (id : nat) (data : list Z) (offset : Z) (s : logged) : Prop := {
  wi_settled : settled_ok calls s;
  wi_active : vc_active s.1 = true ∧ vc_credit s.1 = [] ∧ vc_resumed s.1 = [];
  wi_calls : (id, data) :: vc_writes s.1 = drop (length (vc_settled s.1)) calls;
  wi_open : vc_closed s.1 = false → rw_bytes s.2 = settled_data calls s.1 ++ take (Z.to_nat offset) data;
  wi_offset : 0 ≤ offset ≤ zlen data }.

Lemma settle_ok calls id data offset o s :
  writing calls id data offset s → (o = Done tt → offset = zlen data ∧ (vc_closed s.1 = true → data = [])) →
  (vc_closed s.1 = false → o = Done tt) →
  writes_ok calls (settle_write id o s).2.
Proof.
  intros [[] (Ha&Hc&Hr) Hcalls Hopen Hoff] Hdone Hraise.
  set (n := length (vc_settled s.1)) in *.
  assert (Hn : calls !! n = Some (id, data)).
  { replace n with (n + 0)%nat by lia. rewrite <- lookup_drop, <- Hcalls. done. }
  assert (Htake : take (S n) calls = take n calls ++ [(id, data)]) by (by apply take_S_r).
  assert (Hrest : vc_writes s.1 = drop (S n) calls).
  { replace (S n) with (n + 1)%nat by lia. rewrite <- drop_drop, <- Hcalls. done. }
  assert (Hlen : length (vc_settled s.1 ++ [(id, o)]) = S n) by (rewrite length_app; cbn; lia).
  constructor; unfold settle_write, update, modify, tasks, settled_data; cbn;
    rewrite ?Hc, ?Hr, ?Hlen; cbn; try done; [|intros Hopen'].
  - constructor; cbn; rewrite ?Hlen.
    + rewrite fmap_app, so_ids0. fold n. rewrite <- !fmap_take, Htake, fmap_app. done.
    + intros Hopen'. apply Forall_app. split; [by apply so_open0|]. apply Forall_singleton. cbn. auto.
    + done.
    + intros k id' data'. destruct (decide (k < n)%nat).
      * rewrite lookup_app_l by done. apply so_done0.
      * rewrite lookup_app_r by (fold n; lia). fold n. destruct (k - n)%nat as [|j] eqn:Ek; [|done].
        intros [= -> ->]. destruct (Hdone eq_refl) as [-> Hcl]. replace k with n by lia. rewrite Hn.
        intros [= <-] Hne. destruct (vc_closed s.1) eqn:Ecl; [by destruct Hne; auto|].
        rewrite (Hopen eq_refl), Htake, fmap_app, concat_app. unfold settled_data. fold n. cbn.
        rewrite app_nil_r, zlen_to_nat, firstn_all. done.
  - destruct (Hdone (Hraise Hopen')) as [-> _]. rewrite (Hopen Hopen'), Htake, fmap_app, concat_app.
    unfold settled_data. fold n. cbn. by rewrite zlen_to_nat, firstn_all, !app_nil_r.
Qed.

(** Sending the next piece. *)
Lemma send_piece_ok calls id data offset n fwd s :
  writing calls id data offset s → 0 < n → offset + n ≤ zlen data → vc_closed s.1 = false →
  writing calls id data (offset + n)
    (s.1 <| vc_bytes_written := to_u32 (vc_bytes_written s.1 + n) |>,
     s.2 ++ [Sent VsockOp.RW 0 (subarray data offset (offset + n)) fwd]).
Proof.
  intros [[] Ha Hcalls Hopen Hoff] Hn Hle Hcl. set (s' := (_, _)).
  assert (Hsub : take (Z.to_nat offset) data ++ subarray data offset (offset + n) = take (Z.to_nat (offset + n)) data).
  { unfold subarray. replace (Z.to_nat (offset + n)) with (Z.to_nat offset + Z.to_nat n)%nat by lia.
    replace (Z.to_nat offset + Z.to_nat n - Z.to_nat offset)%nat with (Z.to_nat n) by lia.
    by rewrite take_take_drop. }
  assert (Hrw : rw_bytes s'.2 = settled_data calls s.1 ++ take (Z.to_nat (offset + n)) data).
  { unfold s'. cbn [snd]. rewrite rw_bytes_app, (Hopen Hcl), <- Hsub, <- app_assoc. do 2 f_equal.
    unfold rw_bytes. cbn. by rewrite app_nil_r. }
  assert (Hall : concat calls.*2 = settled_data calls s.1 ++ data ++ concat (vc_writes s.1).*2).
  { rewrite <- (take_drop (length (vc_settled s.1)) calls) at 1. by rewrite <- Hcalls, fmap_app, concat_app. }
  constructor; [|done|done|done|lia]. constructor; [done|done| |].
  - rewrite Hrw, Hall. apply prefix_app, prefix_app_r. exists (drop (Z.to_nat (offset + n)) data). by rewrite take_drop.
  - intros k id' data' Hk Hd Hne. etrans; [by eapply so_done0|]. unfold s'. cbn [snd]. rewrite rw_bytes_app. by eexists.
Qed.

Lemma write_loop_ok calls fuel id data offset s :
  writing calls id data offset s → (Z.to_nat (zlen data - offset) ≤ fuel)%nat →
  (vc_closed s.1 = true → offset < zlen data ∨ data = []) →
  match write_loop fuel id data offset s with
  | (Done _, s') => writes_ok calls s'
  | (Raise _, s') => vc_closed s'.1 = true ∧ ∃ offset', writing calls id data offset' s'
  | (Loops, _) => False
  end.
Proof.
  revert offset s. induction fuel as [|fuel IH]; intros offset s Hw Hf Hclosed; cbn [write_loop].
  all: pose proof Hw as [_ (Ha&Hc&Hr) Hcalls Hopen Hoff].
  all: destruct (offset <? zlen data) eqn:El; zbool;
    [|assert (offset = zlen data) by lia;
      apply (settle_ok calls id data offset (Done tt) s Hw); [|done]; intros _; split; [done|];
      intros [?|?]%Hclosed; [lia|done]].
  { lia. }
  erewrite M_bind_done by done. cbn [co_get log_ops].
  destruct (vc_closed s.1) eqn:Ecl; [split; [done|by exists offset]|].
  destruct (Z.max 0 _ =? 0) eqn:Eav; zbool.
  - destruct Hw as [Hset _ _ _ _]. cbn. constructor; unfold tasks, settled_data in *; cbn; rewrite ?Hc, ?Hr, ?Ha; cbn; try done.
    + by destruct Hset.
    + intros _. by rewrite app_nil_r, Hopen.
    + apply Forall_singleton. cbn. lia.
  - set (n := Z.min _ (zlen data - offset)). set (av := Z.max 0 _) in *.
    assert (0 < n ∧ n ≤ zlen data - offset) as [Hn1 Hn2] by (unfold n, MAX_VSOCK_PAYLOAD; lia).
    erewrite M_bind_done by done. erewrite M_bind_done by done.
    set (s' := co_put _ _).
    pose proof (send_piece_ok calls id data offset n (vc_bytes_read s.1) s Hw Hn1 ltac:(lia) Ecl) as Hw'.
    apply IH; [exact Hw'|lia|]. cbn. congruence.
Qed.

Lemma write_serialized_ok calls id data offset s :
  writing calls id data offset s → (vc_closed s.1 = true → offset < zlen data ∨ data = []) →
  writes_ok calls (write_serialized id data offset s).2 ∧ (write_serialized id data offset s).1 = Done tt.
Proof.
  intros Hw Hclosed. pose proof (write_loop_ok calls (length data) id data offset s Hw) as Hl.
  specialize (Hl ltac:(destruct Hw as [_ _ _ _ ?]; unfold zlen in *; lia) Hclosed).
  unfold write_serialized, catch. destruct (write_loop _ _ _ _ s) as [[[]|e|] s']; [done| |done].
  destruct Hl as [Hcl [offset' Hw']]. split; [|done].
  apply (settle_ok calls id data offset' (Raise e) s' Hw'); [done|congruence].
Qed.

Definition same_writes (s s' : logged) : Prop :=
  vc_settled s'.1 = vc_settled s.1 ∧ vc_active s'.1 = vc_active s.1 ∧ vc_credit s'.1 = vc_credit s.1 ∧
  vc_resumed s'.1 = vc_resumed s.1 ∧ vc_writes s'.1 = vc_writes s.1 ∧ vc_closed s'.1 = vc_closed s.1 ∧
  vc_bytes_written s'.1 = vc_bytes_written s.1 ∧ vc_peer_buf_alloc s'.1 = vc_peer_buf_alloc s.1 ∧
  vc_peer_fwd_cnt s'.1 = vc_peer_fwd_cnt s.1 ∧ rw_bytes s'.2 = rw_bytes s.2.
#[export] Instance same_writes_preorder : PreOrder same_writes.
Proof.
  split; [by intros s|]. intros a b c (?&?&?&?&?&?&?&?&?&?) (?&?&?&?&?&?&?&?&?&?). split_and!; congruence.
Qed.
Lemma writes_ok_same calls s s' : same_writes s s' → writes_ok calls s → writes_ok calls s'.
Proof.
  intros (E1&E2&E3&E4&E5&E6&E7&E8&E9&E10) [[]]. constructor; [constructor| | | | |];
    unfold tasks, settled_data in *; rewrite ?E1, ?E2, ?E3, ?E4, ?E5, ?E6, ?E7, ?E8, ?E9, ?E10; done.
Qed.

Lemma consume_writes n : stays same_writes (consume (S := logged) n).
Proof.
  intros s. unfold consume. erewrite M_bind_done by done. erewrite M_bind_done by done.
  destruct (_ <=? _); [|done]. erewrite M_bind_done by done. erewrite M_bind_done by done. cbn.
  split_and!; try done. cbn [snd]. rewrite rw_bytes_app. unfold rw_bytes at 2. cbn. by rewrite app_nil_r.
Qed.
Lemma read_chunk_writes r c l : same_writes (c, l) (read_chunk r c, l).
Proof. unfold read_chunk. by destruct (vc_buffer c), (vc_closed c). Qed.
Lemma resume_read_writes r chunk : stays same_writes (resume_read (S := logged) r chunk).
Proof.
  destruct r; cbn [resume_read].
  - apply stays_catch; [typeclasses eauto| |intros; by apply stays_modify].
    stays_with ltac:(first [apply consume_writes | apply stays_modify; done]).
  - destruct (_ =? 0); [by apply stays_modify|].
    apply stays_catch; [typeclasses eauto| |intros; by apply stays_modify].
    stays_with ltac:(first [apply consume_writes | apply stays_modify; done
      | apply stays_modify; intros [c l]; apply read_chunk_writes]).
Qed.

Lemma tasks_one c : (length (tasks c) ≤ 1)%nat → vc_resumed c ++ vc_credit c = tasks c.
Proof.
  unfold tasks. destruct (vc_credit c) as [|a [|]], (vc_resumed c) as [|b [|]]; cbn; try done; lia.
Qed.

(** Waking the writer that waits for credit. *)
Lemma wake_ok calls c c' l :
  vc_settled c' = vc_settled c → vc_active c' = vc_active c → vc_writes c' = vc_writes c →
  vc_credit c' = vc_credit c → vc_resumed c' = vc_resumed c →
  (vc_closed c' = false → vc_closed c = false) →
  writes_ok calls (c, l) → writes_ok calls (wake_credit_waiters c', l).
Proof.
  intros E1 E2 E3 E4 E5 E6 [[] Ha Hcalls Hopen Hoff Hwait]. cbn in *.
  assert (Ht : tasks (wake_credit_waiters c') = tasks c).
  { unfold tasks at 1. cbn. rewrite E4, E5. apply tasks_one. rewrite Ha. destruct (vc_active c); lia. }
  constructor; [constructor| | | | |]; cbn [fst snd]; rewrite ?Ht; unfold settled_data in *; cbn;
    rewrite ?E1, ?E2, ?E3; auto. by intros [].
Qed.

Definition written (e : event) : list (nat * list Z) := match e with CallWrite id data => [(id, data)] | _ => [] end.

Lemma writes_call_ok calls id data s :
  writes_ok calls s → writes_ok (calls ++ [(id, data)]) (write id data s).2.
Proof.
  intros [[] Ha Hcalls Hopen Hoff Hwait]. set (n := length (vc_settled s.1)) in *.
  assert (Hn : (n ≤ length calls)%nat).
  { pose proof (f_equal length so_ids0) as Hl. rewrite length_fmap, length_take, length_fmap in Hl. fold n in Hl. lia. }
  assert (Ht : ∀ m, (m ≤ n)%nat → take m (calls ++ [(id, data)]) = take m calls) by (intros; apply take_app_le; lia).
  constructor; [constructor| | | | |]; unfold settled_data, tasks in *; cbn; fold n; try done.
  - rewrite fmap_app, take_app_le by (rewrite length_fmap; lia). done.
  - rewrite fmap_app, concat_app. by apply prefix_app_r.
  - intros k id' data' Hk. pose proof (lookup_lt_Some _ _ _ Hk) as Hlt. fold n in Hlt.
    rewrite lookup_app_l by lia. rewrite Ht by lia. by eapply so_done0.
  - rewrite drop_app_le by done. rewrite <- Hcalls. by rewrite app_assoc.
  - intros Hcl. by rewrite Ht, Hopen by done.
Qed.

Lemma writes_step_ok calls e s : writes_ok calls s → writes_ok (calls ++ written e) (step e s).2.
Proof.
  intros Hok. destruct e as [id|id n|id data| |ba fc|data| |i| |i]; cbn [written]; rewrite ?app_nil_r.
  - eapply writes_ok_same; [|done]. destruct s as [c l]. apply read_chunk_writes.
  - eapply writes_ok_same; [|done]. destruct s as [c l]. cbn [step]. unfold read_exactly.
    destruct (0 <? n); [apply read_chunk_writes|done].
  - by apply writes_call_ok.
  - cbn [step]. unfold close, mbind, M_bind. cbn. destruct (vc_closed s.1) eqn:Ec; [done|].
    change (writes_ok calls (close_from_peer s.1, s.2 ++ [CloseCalled])).
    unfold close_from_peer. rewrite Ec. apply (wake_ok calls s.1); [done..|].
    eapply (writes_ok_same _ s); [|exact Hok]. split_and!; try done. cbn [snd]. rewrite rw_bytes_app. unfold rw_bytes at 2. cbn. by rewrite app_nil_r.
  - destruct s as [c l]. by apply (wake_ok calls c).
  - eapply writes_ok_same; [|done]. cbn. unfold update, modify. cbn.
    destruct (_ || _)%bool; [done|]. by destruct (vc_readers s.1).
  - destruct s as [c l]. cbn. unfold close_from_peer. destruct (vc_closed c) eqn:Ec; [done|]. by apply (wake_ok calls c).
  - eapply writes_ok_same; [|done]. cbn [step]. erewrite M_bind_done by done. cbn [co_get log_ops].
    destruct (vc_woken s.1 !! i) as [[r chunk]|]; [|done]. erewrite M_bind_done by done.
    etrans; [|apply resume_read_writes]. done.
  - cbn [step]. erewrite M_bind_done by done. cbn [co_get log_ops].
    destruct (vc_active s.1) eqn:Ea; [done|]. destruct (vc_writes s.1) as [|[id data] rest] eqn:Ew; [done|].
    erewrite M_bind_done by done. destruct Hok as [[] Ha Hcalls Hopen Hoff Hwait].
    rewrite Ea in Ha. unfold tasks in *. destruct (vc_credit s.1) eqn:Ec; [|done]. destruct (vc_resumed s.1) eqn:Er; [|done].
    apply write_serialized_ok.
    + constructor; cbn; rewrite ?Ec, ?Er; try done.
      by rewrite <- Hcalls, Ew.
    + intros _. cbn. destruct data; [by right|left]. rewrite zlen_cons. pose proof (zlen_nonneg data). lia.
  - cbn [step]. erewrite M_bind_done by done. cbn [co_get log_ops].
    destruct (vc_resumed s.1 !! i) as [w|] eqn:Ei; [|done]. erewrite M_bind_done by done.
    destruct Hok as [[] Ha Hcalls Hopen Hoff Hwait]. unfold tasks in *.
    pose proof (lookup_lt_Some _ _ _ Ei) as Hi.
    destruct (vc_active s.1) eqn:Eact; rewrite length_app in Ha; [|lia].
    destruct (vc_credit s.1) eqn:Ec; [|cbn in Ha; lia]. destruct (vc_resumed s.1) as [|w' [|]] eqn:Er; [done| |cbn in Ha; lia].
    destruct i as [|i]; [|done]. injection Ei as ->. cbn in Hcalls, Hopen. inversion Hoff as [|? ? Hw _]; subst.
    apply write_serialized_ok.
    + constructor; cbn; rewrite ?Ec; try done; [by rewrite Er| |lia].
      intros Hcl. rewrite (Hopen Hcl). by rewrite app_nil_r.
    + intros _. left. lia.
Qed.

Lemma write_loop_total fuel id data offset (s : logged) :
  (Z.to_nat (zlen data - offset) ≤ fuel)%nat → (write_loop fuel id data offset s).1 ≠ Loops.
Proof.
  revert offset s. induction fuel as [|fuel IH]; intros offset s Hf; cbn [write_loop].
  all: destruct (offset <? zlen data) eqn:El; zbool; [|done].
  { lia. }
  erewrite M_bind_done by done. cbn [co_get log_ops]. destruct (vc_closed s.1); [done|].
  destruct (Z.max 0 _ =? 0) eqn:Eav; [done|]. zbool. do 2 erewrite M_bind_done by done.
  apply IH. unfold MAX_VSOCK_PAYLOAD. lia.
Qed.
Lemma write_serialized_done id data offset (s : logged) :
  0 ≤ offset → (write_serialized id data offset s).1 = Done tt.
Proof.
  intros Ho. unfold write_serialized, catch.
  pose proof (write_loop_total (length data) id data offset s ltac:(unfold zlen; lia)) as Hl.
  by destruct (write_loop _ _ _ _ s) as [[[]|e|] s'].
Qed.
Lemma resume_read_done r chunk (s : logged) : (resume_read r chunk s).1 = Done tt.
Proof.
  destruct r as [id|id n out]; cbn [resume_read].
  - unfold catch. destruct (consume_done (zlen chunk) s) as (s1&E&_). by erewrite M_bind_done by exact E.
  - destruct (_ =? 0); [done|]. unfold catch.
    destruct (consume_done (Z.min (zlen chunk) (n - zlen out)) s) as (s1&E&_).
    erewrite M_bind_done by exact E. destruct (_ <? zlen chunk); erewrite M_bind_done by done; by destruct (_ <? n).
Qed.

(** A step with logged callbacks neither throws nor hangs. *)
Lemma step_done calls e s : writes_ok calls s → (step e s).1 = Done tt.
Proof.
  intros Hok. destruct e as [id|id n|id data| |ba fc|data| |i| |i]; cbn [step]; try done.
  - unfold read_exactly. by destruct (0 <? n).
  - unfold close, mbind, M_bind. cbn. by destruct (vc_closed s.1).
  - erewrite M_bind_done by done. cbn [co_get log_ops]. destruct (vc_woken s.1 !! i) as [[r chunk]|]; [|done].
    erewrite M_bind_done by done. apply resume_read_done.
  - erewrite M_bind_done by done. cbn [co_get log_ops].
    destruct (vc_active s.1); [done|]. destruct (vc_writes s.1) as [|[id data] rest]; [done|].
    erewrite M_bind_done by done. by apply write_serialized_done.
  - erewrite M_bind_done by done. cbn [co_get log_ops]. destruct (vc_resumed s.1 !! i) as [w|] eqn:Ei; [|done].
    erewrite M_bind_done by done. apply write_serialized_done. destruct Hok as [_ _ _ _ Hoff _].
    apply Forall_app in Hoff as [_ Hoff]. rewrite Forall_lookup in Hoff. apply Hoff in Ei. lia.
Qed.

Lemma run_writes calls es s :
  writes_ok calls s → (run es s).1 = Done tt ∧ writes_ok (calls ++ (es ≫= written)) (run es s).2.
Proof.
  revert calls s. induction es as [|e es IH]; intros calls s Hok; cbn [run].
  { by rewrite app_nil_r. }
  pose proof (step_done calls e s Hok) as Hd. pose proof (writes_step_ok calls e s Hok) as Hs.
  unfold mbind, M_bind. destruct (step e s) as [o s']. cbn in Hd, Hs. subst o.
  rewrite bind_cons, app_assoc. by apply IH.
Qed.
Lemma writes_ok_new local_port peer_port : writes_ok [] (connection_new local_port peer_port, []).
Proof. constructor; [constructor| | | | |]; done. Qed.

(** ** Credit *)

(** The bytes sent and not yet acknowledged by the peer's count. *)
Definition in_flight (c : connection) : Z := to_u32 (vc_bytes_written c - vc_peer_fwd_cnt c).
Definition piece_ok (k : call) : Prop :=
  match k with
  | Sent op _ payload _ => op = VsockOp.RW → 0 < zlen payload ≤ MAX_VSOCK_PAYLOAD
  | CloseCalled => True
  end.
(** What a step adds to the log, and the credit it may use. *)
Definition credit_ok (s s' : logged) : Prop :=
  ∃ l, s'.2 = s.2 ++ l ∧ Forall piece_ok l ∧
    (rw_bytes l ≠ [] → in_flight s'.1 ≤ vc_peer_buf_alloc s'.1).

Lemma credit_none s s' : s'.2 = s.2 → credit_ok s s'.
Proof. intros E. exists []. rewrite app_nil_r. split; [done|]. split; [constructor|]. by intros []. Qed.

Definition sends_ok (s s' : logged) : Prop :=
  ∃ l, s'.2 = s.2 ++ l ∧ Forall piece_ok l ∧ vc_peer_buf_alloc s'.1 = vc_peer_buf_alloc s.1 ∧
    (l = [] → in_flight s'.1 = in_flight s.1) ∧ (l ≠ [] → in_flight s'.1 ≤ vc_peer_buf_alloc s'.1).
Lemma sends_none (s s' : logged) :
  s'.2 = s.2 → vc_peer_buf_alloc s'.1 = vc_peer_buf_alloc s.1 → in_flight s'.1 = in_flight s.1 → sends_ok s s'.
Proof.
  intros E1 E2 E3. exists []. rewrite app_nil_r. split; [done|]. split; [constructor|].
  split; [done|]. split; [done|]. by intros [].
Qed.

Lemma write_loop_credit fuel id data offset s :
  0 ≤ vc_peer_buf_alloc s.1 < 2 ^ 32 → 0 ≤ offset → sends_ok s (write_loop fuel id data offset s).2.
Proof.
  revert offset s. induction fuel as [|fuel IH]; intros offset s Halloc Ho; cbn [write_loop].
  all: destruct (offset <? zlen data) eqn:El; zbool; [|by apply sends_none].
  all: erewrite M_bind_done by done; cbn [co_get log_ops].
  all: destruct (vc_closed s.1); [by apply sends_none|].
  all: destruct (Z.max 0 _ =? 0) eqn:Eav; [by apply sends_none|]; zbool.
  all: set (n := Z.min _ (zlen data - offset)); do 2 erewrite M_bind_done by done; set (s' := co_put _ _).
  all: assert (0 < n ≤ MAX_VSOCK_PAYLOAD ∧ n ≤ zlen data - offset ∧
    n ≤ vc_peer_buf_alloc s.1 - in_flight s.1) as (Hn&Hn2&Hn3) by (unfold n, in_flight, MAX_VSOCK_PAYLOAD in *; lia).
  all: set (k := Sent VsockOp.RW 0 (subarray data offset (offset + n)) (vc_bytes_read s.1)).
  all: assert (Hlog : s'.2 = s.2 ++ [k]) by done.
  all: assert (Hk : piece_ok k) by (intros _; rewrite zlen_subarray; lia).
  all: assert (Hfl : in_flight s'.1 ≤ vc_peer_buf_alloc s'.1).
  1, 3: (unfold in_flight, s'; cbn; unfold to_u32 in *; unfold in_flight, to_u32 in Hn3;
    pose proof (Z.mod_pos_bound (vc_bytes_written s.1 - vc_peer_fwd_cnt s.1) (2 ^ 32));
    rewrite Zminus_mod_idemp_l;
    replace (vc_bytes_written s.1 + n - vc_peer_fwd_cnt s.1) with (vc_bytes_written s.1 - vc_peer_fwd_cnt s.1 + n) by lia;
    rewrite <- Zplus_mod_idemp_l, Z.mod_small; lia).
  - exists [k]. split_and!; [done|by apply Forall_singleton|done|done|done].
  - destruct (IH (offset + n) s' Halloc ltac:(lia)) as (l&El'&Hl&Ha&Hnil&Hc). exists (k :: l).
    split_and!; [by rewrite El', Hlog, <- app_assoc|by constructor|by rewrite Ha|done|].
    intros _. destruct l as [|x l]; [|by apply Hc]. by rewrite Ha, Hnil.
Qed.
Lemma write_serialized_credit id data offset s :
  0 ≤ vc_peer_buf_alloc s.1 < 2 ^ 32 → 0 ≤ offset → credit_ok s (write_serialized id data offset s).2.
Proof.
  intros Halloc Ho. destruct (write_loop_credit (length data) id data offset s Halloc Ho) as (l&El&Hl&_&_&Hc).
  unfold write_serialized, catch. exists l.
  assert (rw_bytes l ≠ [] → l ≠ []) by (by intros Hr ->).
  destruct (write_loop _ _ _ _ s) as [[[]|e|] s']; cbn in *; split_and!; auto.
Qed.

Definition advertised (c : connection) : Prop :=
  to_u32 (vc_bytes_read c - vc_last_credit_update c) < DEFAULT_VSOCK_BUF_ALLOC / 4.
Lemma consume_credit n s :
  (∃ l, (consume n s).2.2 = s.2 ++ l ∧ Forall piece_ok l ∧ rw_bytes l = []) ∧ advertised (consume n s).2.1 ∧
  vc_peer_buf_alloc (consume n s).2.1 = vc_peer_buf_alloc s.1.
Proof.
  unfold consume, advertised. do 2 erewrite M_bind_done by done. cbn [co_get log_ops].
  destruct (_ <=? _) eqn:E; zbool.
  - do 2 erewrite M_bind_done by done. cbn. split_and!; [|by rewrite Z.sub_diag|done].
    eexists. split_and!; [done| |done]. by apply Forall_singleton.
  - split_and!; [|exact E|done]. exists []. rewrite app_nil_r. split; [done|]. split; [constructor|done].
Qed.

Definition same_counts (s s' : logged) : Prop :=
  vc_bytes_read s'.1 = vc_bytes_read s.1 ∧ vc_last_credit_update s'.1 = vc_last_credit_update s.1 ∧
  vc_peer_buf_alloc s'.1 = vc_peer_buf_alloc s.1 ∧ s'.2 = s.2.
#[export] Instance same_counts_preorder : PreOrder same_counts.
Proof. split; [by intros s|]. intros a b c (?&?&?&?) (?&?&?&?). split_and!; congruence. Qed.
Lemma read_chunk_counts r c l : same_counts (c, l) (read_chunk r c, l).
Proof. unfold read_chunk. by destruct (vc_buffer c), (vc_closed c). Qed.

Definition event_ok (e : event) : Prop := match e with PeerCredit alloc _ => 0 ≤ alloc < 2 ^ 32 | _ => True end.
Definition counts_ok (s : logged) : Prop := advertised s.1 ∧ 0 ≤ vc_peer_buf_alloc s.1 < 2 ^ 32.

Lemma resume_read_credit r chunk (s : logged) :
  counts_ok s → credit_ok s (resume_read r chunk s).2 ∧ counts_ok (resume_read r chunk s).2.
Proof.
  intros [Had Halloc].
  assert (Hlift : ∀ n s', same_counts (consume n s).2 s' → credit_ok s s' ∧ counts_ok s').
  { intros n s' (E1&E2&E3&E4). destruct (consume_credit n s) as [(l&El&Hl&Hr) [Ha Ha']]. split.
    - exists l. rewrite E4. split_and!; [done|done|]. by rewrite Hr.
    - unfold counts_ok, advertised in *. by rewrite E1, E2, E3, Ha'. }
  destruct r as [id|id n out]; cbn [resume_read].
  - destruct (consume_done (zlen chunk) s) as (s1&E&_). apply (Hlift (zlen chunk)). unfold catch.
    erewrite M_bind_done by exact E. by rewrite E.
  - destruct (_ =? 0); [split; [by apply credit_none|done]|].
    set (m := Z.min _ (n - zlen out)). destruct (consume_done m s) as (s1&E&_). apply (Hlift m). unfold catch.
    erewrite M_bind_done by exact E. rewrite E. destruct (_ <? zlen chunk); erewrite M_bind_done by done;
      (destruct (_ <? n); [|done]).
    + etrans; [|apply read_chunk_counts]. done.
    + destruct s1. apply read_chunk_counts.
Qed.


Lemma write_serialized_counts id data offset s : counts_ok s → counts_ok (write_serialized id data offset s).2.
Proof.
  set (R := fun s s' : logged => counts_ok s → counts_ok s').
  assert (Hpre : PreOrder R) by (split; [intros x Hx; exact Hx|intros x y z A B C; exact (B (A C))]).
  assert (Hl : ∀ fuel offset, stays R (write_loop fuel id data offset)).
  { intros fuel. induction fuel as [|fuel IH]; intros o; cbn [write_loop];
      stays_with ltac:(first [apply IH | apply stays_modify; intros ? Hs; exact Hs]). }
  apply (stays_catch R); [apply Hl|]. intros e. apply stays_modify. intros ? Hs. exact Hs.
Qed.

Lemma step_credit calls e s :
  writes_ok calls s → counts_ok s → event_ok e → credit_ok s (step e s).2 ∧ counts_ok (step e s).2.
Proof.
  intros Hw Hc He. pose proof Hc as [Had Halloc].
  assert (Hnone : ∀ s' : logged, same_counts s s' → credit_ok s s' ∧ counts_ok s').
  { intros s' (E1&E2&E3&E4). split; [by apply credit_none|]. unfold counts_ok, advertised. by rewrite E1, E2, E3. }
  destruct e as [id|id n|id data| |ba fc|data| |i| |i]; cbn [step].
  - apply Hnone. destruct s. apply read_chunk_counts.
  - unfold read_exactly. destruct (0 <? n); apply Hnone; [|done]. destruct s. apply read_chunk_counts.
  - by apply Hnone.
  - unfold close, mbind, M_bind. cbn. destruct (vc_closed s.1) eqn:Ec; [by apply Hnone|].
    assert (counts_ok (close_from_peer s.1, s.2 ++ [CloseCalled])) by (unfold close_from_peer; by rewrite Ec).
    split; [|done]. exists [CloseCalled]. split; [done|]. split; [by apply Forall_singleton|]. by intros [].
  - split; [by apply credit_none|done].
  - unfold enqueue, update, modify. cbn. destruct (_ || _)%bool; [by apply Hnone|].
    by destruct (vc_readers s.1); apply Hnone.
  - cbn. unfold close_from_peer. by destruct (vc_closed s.1); apply Hnone.
  - erewrite M_bind_done by done. cbn [co_get log_ops]. destruct (vc_woken s.1 !! i) as [[r chunk]|]; [|by apply Hnone].
    erewrite M_bind_done by done. set (s1 := co_put _ s). exact (resume_read_credit r chunk s1 Hc).
  - erewrite M_bind_done by done. cbn [co_get log_ops].
    destruct (vc_active s.1); [by apply Hnone|]. destruct (vc_writes s.1) as [|[id data] rest]; [by apply Hnone|].
    erewrite M_bind_done by done. set (s1 := co_put _ s). split.
    + exact (write_serialized_credit id data 0 s1 Halloc ltac:(lia)).
    + exact (write_serialized_counts id data 0 s1 Hc).
  - erewrite M_bind_done by done. cbn [co_get log_ops].
    destruct (vc_resumed s.1 !! i) as [w|] eqn:Ei; [|by apply Hnone].
    erewrite M_bind_done by done. set (s1 := co_put _ s).
    destruct Hw as [_ _ _ _ Hoff _]. apply Forall_app in Hoff as [_ Hoff]. rewrite Forall_lookup in Hoff.
    apply Hoff in Ei. cbn in Ei. destruct Ei as [Ho _]. split.
    + exact (write_serialized_credit _ _ _ s1 Halloc Ho).
    + exact (write_serialized_counts _ _ _ s1 Hc).
Qed.

Lemma run_counts calls es s :
  writes_ok calls s → counts_ok s → Forall event_ok es → counts_ok (run es s).2.
Proof.
  intros Hw Hc Hes. revert calls s Hw Hc. induction Hes as [|e es He Hes IH]; intros calls s Hw Hc; cbn [run]; [done|].
  pose proof (step_done calls e s Hw) as Hd. pose proof (writes_step_ok calls e s Hw) as Hs.
  destruct (step_credit calls e s Hw Hc He) as [_ Hc'].
  unfold mbind, M_bind. destruct (step e s) as [o s']. cbn in Hd, Hs, Hc'. subst o. by eapply IH.
Qed.

(** * The properties *)

(** With one read at a time, whatever else happens, the data the guest sent
    before the connection closed is split, in order and without a loss, into
    what the reads returned, what the read under way has, and what is buffered;
    and a read is left waiting only while nothing is buffered and the
    connection is open. *)
Theorem vsock_reads_in_order local_port peer_port accepted s :
  reads_run local_port peer_port accepted s →
  results s.1 ++ reading s.1 ++ concat (vc_buffer s.1) = accepted ∧
  (vc_readers s.1 ≠ [] → vc_buffer s.1 = [] ∧ vc_closed s.1 = false).
Proof. intros Hrun. by destruct (reads_run_ok _ _ _ _ Hrun). Qed.

(** C17: whatever the interleaving of a connection's calls, its tasks and the
    guest's packets, no step throws or hangs; the data packets carry the written
    bytes in the order of the calls, a write that succeeded has sent all of its
    bytes and all of those before it, on an open connection an idle writer
    leaves nothing unsent, and a writer is left waiting for credit only while
    the connection is open and the guest has given it none. *)
Theorem vsock_writes_in_order local_port peer_port (es : list event) :
  let '(o, s) := run es (connection_new local_port peer_port, []) in
  let calls := es ≫= written in
  o = Done tt ∧
  rw_bytes s.2 `prefix_of` concat calls.*2 ∧
  (∀ k id data, vc_settled s.1 !! k = Some (id, Done tt) → calls !! k = Some (id, data) → data ≠ [] →
    concat (take (S k) calls).*2 `prefix_of` rw_bytes s.2) ∧
  (vc_closed s.1 = false → vc_active s.1 = false → vc_writes s.1 = [] → rw_bytes s.2 = concat calls.*2) ∧
  (vc_credit s.1 ≠ [] → vc_closed s.1 = false ∧ vc_peer_buf_alloc s.1 ≤ in_flight s.1).
Proof.
  destruct (run_writes [] es (connection_new local_port peer_port, []) (writes_ok_new local_port peer_port)) as [Hd Hw].
  destruct (run es _) as [o s]. cbn [fst snd app] in *. destruct Hw as [[] Ha Hcalls Hopen Hoff Hwait].
  split_and!; [done|done|done| |].
  - intros Hcl Hact Hnil. rewrite Hact in Ha. destruct (tasks s.1); [|done]. rewrite Hopen by done.
    rewrite Hnil in Hcalls. cbn in *. rewrite app_nil_r. unfold settled_data. rewrite take_ge; [done|].
    apply (f_equal length) in Hcalls. rewrite length_drop in Hcalls. cbn in Hcalls. lia.
  - intros Hc%Hwait. unfold in_flight. destruct Hc as [? ?]. split; [done|lia].
Qed.

(** C18: every data packet holds between 1 and 2048 bytes, and a step that sends
    data leaves no more bytes unacknowledged than the guest's buffer; of the
    bytes read, less than a quarter of the host's buffer has not been
    advertised to the guest. *)
Theorem vsock_within_credit local_port peer_port (es : list event) (e : event) :
  Forall event_ok es → event_ok e →
  let s := (run es (connection_new local_port peer_port, [])).2 in
  let s' := (step e s).2 in
  advertised s'.1 ∧
  ∃ sent, s'.2 = s.2 ++ sent ∧ Forall piece_ok sent ∧ (rw_bytes sent ≠ [] → in_flight s'.1 ≤ vc_peer_buf_alloc s'.1).
Proof.
  intros Hes He s s'.
  destruct (run_writes [] es _ (writes_ok_new local_port peer_port)) as [_ Hw].
  assert (Hc : counts_ok s) by (eapply run_counts; [apply writes_ok_new|done|done]).
  by destruct (step_credit _ e s Hw Hc He) as [Hcr [Had _]].
Qed.

(** A guest with room for three bytes; then it reads two of them. *)
Definition sample_events : list event :=
  [PeerCredit 3 0; CallWrite 0 [1; 2; 3; 4; 5]; StartWrite; PeerData [7; 8; 9]; CallReadExactly 0 2; RunRead 0;
   PeerCredit 3 2; RunWrite 0].
Lemma vsock_within_credit_witness :
  Forall event_ok sample_events ∧ rw_bytes (run sample_events (connection_new 49152 80, [])).2.2 = [1; 2; 3; 4; 5] ∧
  advertised (step (PeerCredit 3 3) (run sample_events (connection_new 49152 80, [])).2).2.1.
Proof.
  assert (Hes : Forall event_ok sample_events) by (repeat constructor; cbn; lia).
  split; [done|split; [reflexivity|]].
  apply (vsock_within_credit 49152 80 sample_events (PeerCredit 3 3)); [done|cbn; lia].
Defined.
Lemma vsock_reads_in_order_witness :
  ∃ accepted s, reads_run 49152 80 accepted s ∧ accepted = [7; 8; 9] ∧
    results s.1 ++ reading s.1 ++ concat (vc_buffer s.1) = accepted.
Proof.
  set (s0 := (connection_new 49152 80, [] : list call)).
  set (s1 := (step (PeerData [7; 8; 9]) s0).2). set (s2 := (step (CallReadExactly 0 2) s1).2).
  set (s3 := (step (RunRead 0) s2).2). exists [7; 8; 9], s3.
  assert (Hrun : reads_run 49152 80 [7; 8; 9] s3).
  { apply (reads_step _ _ [7; 8; 9] (RunRead 0) s2); [|done].
    apply (reads_step _ _ [7; 8; 9] (CallReadExactly 0 2) s1); [|done].
    apply (reads_step _ _ [] (PeerData [7; 8; 9]) s0); [|done]. constructor. }
  split; [done|]. split; [done|]. by apply (vsock_reads_in_order 49152 80 [7; 8; 9] s3 Hrun).
Defined.
