(* ===== verification/Vsock.v ===== *)
(** The virtio-vsock device of packages/kernel/src/virtio/vsock.ts: its packets,
    ports and connections. *)
From stdpp Require Import pretty.
From S2P Require Export Net VsockConn.

(** * Packets *)
Definition VsockConfig : ty := Struct [("guest_cid", U64LE)].
Definition VsockHeader : ty := Struct [("src_cid", U64LE); ("dst_cid", U64LE); ("src_port", U32LE);
  ("dst_port", U32LE); ("len", U32LE); ("type", U16LE); ("op", U16LE); ("flags", U32LE);
  ("buf_alloc", U32LE); ("fwd_cnt", U32LE)].
Definition VSOCK_STREAM : Z := 1.

(** What a transmit chain holds. *)
Definition read_tx_packet (chain : vchain) : outcome (value * list Z) :=
  assert_ (forallb (fun d => negb (vb_writable d)) chain) "vsock tx descriptor must be readable" ;;
  let header_bytes := concat (vb_array <$> chain) in
  assert_ (ty_size VsockHeader <=? zlen header_bytes) "short vsock header" ;;
  header ← struct_read VsockHeader header_bytes;
  mret (header, subarray header_bytes (ty_size VsockHeader) (ty_size VsockHeader + header.["len"])).

(** The fields of the header of a packet of the connection [c]. *)
Definition packet_header (guest_cid : Z) (c : connection) (op flags : Z) (payload : list Z) (fwd_cnt : Z) : value :=
  Obj [("src_cid", Num HOST_CID); ("dst_cid", Num guest_cid); ("src_port", Num (vc_local_port c));
       ("dst_port", Num (vc_peer_port c)); ("len", Num (zlen payload)); ("type", Num VSOCK_STREAM);
       ("op", Num op); ("flags", Num flags); ("buf_alloc", Num DEFAULT_VSOCK_BUF_ALLOC); ("fwd_cnt", Num fwd_cnt)].
Definition vsock_packet (guest_cid : Z) (c : connection) (op flags : Z) (payload : list Z) (fwd_cnt : Z) :
    outcome (list Z) :=
  packet ← ty_set VsockHeader (dv_of (zeros (ty_size VsockHeader + zlen payload))) 0
             (packet_header guest_cid c op flags payload fwd_cnt);
  ta_set packet payload (ty_size VsockHeader).

(** [#flush]'s callback. *)
Definition write_packet (packet : list Z) (chain : vchain) : outcome (vchain * Z) :=
  match chain with
  | [] => Raise (AssertionError "vsock rx buffer must be writable")
  | desc :: next_desc =>
      assert_ (vb_writable desc) "vsock rx buffer must be writable" ;;
      assert_ (bool_decide (next_desc = [])) "vsock rx buffer should be a single descriptor" ;;
      assert_ (zlen packet <=? zlen (vb_array desc)) "vsock rx buffer too small" ;;
      array ← ta_set (vb_array desc) packet 0;
      mret ([VBuf array (vb_writable desc)], zlen packet)
  end.

(** * The device

    Connections are numbered in the order they were made; [vs_heap] has their
    states. [vs_connections] is the map from ports, in insertion order, and
    [vs_connects] logs how the promises of [connect] settled. *)
Record endpoint := Endpoint { ep_id : nat; ep_connected : bool }.
Record vsock := Vsock {
  vs_guest_cid : Z; vs_stopped : bool; vs_rx : rx; vs_pending : list (list Z);
  vs_heap : list connection; vs_connections : list (Z * endpoint); vs_next_port : Z;
  vs_connects : list (nat * outcome unit); vs_released : list vchain }.
#[export] Instance vsock_eta : Eta vsock := fun s =>
  Vsock (vs_guest_cid s) (vs_stopped s) (vs_rx s) (vs_pending s) (vs_heap s) (vs_connections s)
    (vs_next_port s) (vs_connects s) (vs_released s).

Definition FIRST_PORT : Z := 49152.
Definition LAST_PORT : Z := 65535.

(** The constructor. *)
Definition vsock_new (guest_cid : Z) : outcome (vsock * list Z) :=
  config ← ty_set VsockConfig (dv_of (zeros (ty_size VsockConfig))) 0 (Obj [("guest_cid", Num guest_cid)]);
  mret (Vsock guest_cid false rx_new [] [] [] FIRST_PORT [] [], config).

Definition connection_at (port : Z) (s : vsock) : option endpoint :=
  match list_find (fun e => e.1 = port) (vs_connections s) with Some (_, e) => Some e.2 | None => None end.
Definition delete_connection (port : Z) (s : vsock) : vsock :=
  s <| vs_connections := filter (fun e => e.1 ≠ port) (vs_connections s) |>.
Definition heap_at (id : nat) (s : vsock) : connection := default (connection_new 0 0) (vs_heap s !! id).
Definition heap_put (id : nat) (c : connection) (s : vsock) : vsock := s <| vs_heap := <[id := c]> (vs_heap s) |>.

(** A promise settles once. *)
Definition settle_connect (id : nat) (o : outcome unit) (s : vsock) : vsock :=
  if decide (id ∈ (vs_connects s).*1) then s else s <| vs_connects := vs_connects s ++ [(id, o)] |>.

Fixpoint allocate_loop (attempts : nat) : M vsock Z :=
  match attempts with
  | O => throw (JsError "no local vsock ports available")
  | S attempts =>
      port ← gets vs_next_port;
      modify (fun s => s <| vs_next_port := if port =? LAST_PORT then FIRST_PORT else port + 1 |>) ;;
      taken ← gets (connection_at port);
      match taken with None => mret port | Some _ => allocate_loop attempts end
  end.
Definition allocate_port : M vsock Z := allocate_loop (Z.to_nat (65536 - 49152)).

Definition on_vs_rx {A} : M rx A → M vsock A := focus vs_rx (fun r s => s <| vs_rx := r |>).

(** The loop takes a packet and a chain each round; one that throws has taken
    both. *)
Fixpoint flush_loop (pending : list (list Z)) : M vsock unit :=
  match pending with
  | [] => mret tt
  | packet :: rest =>
      s ← get_state;
      if rx_available (vs_rx s) =? 0 then mret tt
      else
        modify (fun s => s <| vs_pending := rest |>) ;;
        on_vs_rx (rx_deliver (write_packet packet)) ;;
        flush_loop rest
  end.
Definition flush : M vsock unit := pending ← gets vs_pending; flush_loop pending.

(** [#send(connection, op, flags, payload, fwd_cnt = connection.bytes_read)] *)
Definition send_packet (id : nat) (op flags : Z) (payload : list Z) (fwd_cnt : option Z) : M vsock unit :=
  s ← get_state;
  let c := heap_at id s in
  packet ← lift (vsock_packet (vs_guest_cid s) c op flags payload (default (vc_bytes_read c) fwd_cnt));
  modify (fun s => s <| vs_pending := vs_pending s ++ [packet] |>) ;;
  flush.

(** The callbacks the connection [id] is created with. *)
Definition device_ops (id : nat) : ConnectionOps vsock := {|
  co_get := heap_at id;
  co_put := heap_put id;
  co_send op flags payload fwd_cnt :=
    s ← get_state;
    if vs_stopped s then mret tt
    else match connection_at (vc_local_port (heap_at id s)) s with
         | None => mret tt
         | Some e => send_packet (ep_id e) op flags payload (Some fwd_cnt)
         end;
  co_close :=
    s ← get_state;
    match connection_at (vc_local_port (heap_at id s)) s with
    | None => mret tt
    | Some e => send_packet (ep_id e) VsockOp.SHUTDOWN (SHUTDOWN_RCV ||| SHUTDOWN_SEND) [] None
    end |}.
Definition on_connection (id : nat) {A} (m : ∀ ops : ConnectionOps vsock, M vsock A) : M vsock A := m (device_ops id).
Definition from_peer (id : nat) : M vsock unit := on_connection id (fun _ => update close_from_peer).

Definition set_connected (port : Z) (s : vsock) : vsock :=
  s <| vs_connections := (fun e => if e.1 =? port then (e.1, Endpoint (ep_id e.2) true) else e) <$> vs_connections s |>.

(** The end of a connection the guest closed. *)
Definition drop_connection (port : Z) (e : endpoint) (reason : string) : M vsock unit :=
  (if ep_connected e then mret tt else modify (settle_connect (ep_id e) (Raise (JsError reason)))) ;;
  from_peer (ep_id e) ;;
  modify (delete_connection port).

Definition handle_tx_packet (header : value) (payload : list Z) : M vsock unit :=
  let local_port := header.["dst_port"] in
  s ← get_state;
  match connection_at local_port s with
  | None => mret tt
  | Some e =>
      let id := ep_id e in
      on_connection id (fun _ => update_credit header.["buf_alloc"] header.["fwd_cnt"]) ;;
      let op := header.["op"] in
      if op =? VsockOp.RESPONSE then
        modify (set_connected local_port) ;; modify (settle_connect id (Done tt))
      else if op =? VsockOp.RW then on_connection id (fun _ => enqueue payload)
      else if op =? VsockOp.CREDIT_UPDATE then mret tt
      else if op =? VsockOp.CREDIT_REQUEST then send_packet id VsockOp.CREDIT_UPDATE 0 [] None
      else if op =? VsockOp.SHUTDOWN then
        send_packet id VsockOp.RST 0 [] None ;;
        drop_connection local_port e "guest shut down vsock connection"
      else if op =? VsockOp.RST then drop_connection local_port e "guest reset vsock connection"
      else mret tt
  end.

(** [kick(1, queue)]: each chain is released once its packet is handled. *)
Fixpoint transmit (chains : list vchain) : M vsock unit :=
  match chains with
  | [] => mret tt
  | chain :: chains =>
      packet ← lift (read_tx_packet chain);
      handle_tx_packet packet.1 packet.2 ;;
      modify (fun s => s <| vs_released := vs_released s ++ [chain] |>) ;;
      transmit chains
  end.
Definition kick (vq : Z) (chains : list vchain) : M vsock unit :=
  if vq =? 0 then on_vs_rx (modify (rx_post chains)) ;; flush
  else if vq =? 1 then transmit chains
  else mret tt.

(** The loops of [reset] and [close] over the connections. *)
Fixpoint close_all (resets : bool) (reason : string) (l : list (Z * endpoint)) : M vsock unit :=
  match l with
  | [] => mret tt
  | (_, e) :: l =>
      (if resets then send_packet (ep_id e) VsockOp.RST 0 [] None else mret tt) ;;
      (if ep_connected e then mret tt else modify (settle_connect (ep_id e) (Raise (JsError reason)))) ;;
      from_peer (ep_id e) ;;
      close_all resets reason l
  end.
Definition vsock_reset : M vsock unit :=
  on_vs_rx (modify rx_reset) ;;
  modify (fun s => s <| vs_pending := [] |>) ;;
  l ← gets vs_connections;
  close_all false "vsock device reset while connecting" l ;;
  modify (fun s => s <| vs_connections := [] |>).
Definition vsock_close : M vsock unit :=
  l ← gets vs_connections;
  close_all true "vsock device closed while connecting" l ;;
  modify (fun s => s <| vs_connections := [] |>) ;;
  on_vs_rx (modify rx_close).

(** [connect(port)]: the number of the connection, whose promise it returns. *)
Definition connect (port : Z) : M vsock nat :=
  s ← get_state;
  if vs_stopped s then throw (JsError "vsock device is closed")
  else
    local_port ← allocate_port;
    s ← get_state;
    let id := length (vs_heap s) in
    modify (fun s => s <| vs_heap := vs_heap s ++ [connection_new local_port port] |>
                       <| vs_connections := vs_connections s ++ [(local_port, Endpoint id false)] |>) ;;
    send_packet id VsockOp.REQUEST 0 [] None ;;
    mret id.

(** The timer of a [connect], which is cleared when its promise settles. *)
Definition timeout (id : nat) : M vsock unit :=
  s ← get_state;
  if decide (id ∈ (vs_connects s).*1 ∨ (length (vs_heap s) ≤ id)%nat) then mret tt
  else
    send_packet id VsockOp.RST 0 [] None ;;
    modify (delete_connection (vc_local_port (heap_at id s))) ;;
    from_peer id ;;
    modify (settle_connect id (Raise (JsError
      ("timed out connecting to guest vsock port " +:+ pretty (vc_peer_port (heap_at id s)))))).

(** What happens to a device: notifications (none reach a stopped device), its
    lifecycle, [connect] and its timers, and the users and tasks of its
    connections. *)
Inductive device_event :=
| Kick (vq : Z) (chains : list vchain) | Connect (port : Z) | Timeout (id : nat)
| Connected (id : nat) (e : event) | Reset | Shutdown | Close.
Definition device_step (e : device_event) : M vsock unit :=
  s ← get_state;
  match e with
  | Kick vq chains => if vs_stopped s then mret tt else kick vq chains
  | Connect port => connect port ;; mret tt
  | Timeout id => timeout id
  | Connected id e => on_connection id (fun _ => step e)
  | Reset => if vs_stopped s then mret tt else vsock_reset
  | Shutdown => modify (fun s => s <| vs_stopped := true |>)
  | Close => if vs_stopped s then vsock_close else mret tt
  end.

(** * Ports *)
Lemma connection_at_spec port s :
  match connection_at port s with
  | Some e => (port, e) ∈ vs_connections s
  | None => port ∉ (vs_connections s).*1
  end.
Proof.
  unfold connection_at. destruct (list_find _ _) as [[i [p e]]|] eqn:E.
  - apply list_find_Some in E as (Hi&Hp&_). cbn in Hp. subst p. by eapply list_elem_of_lookup_2.
  - apply list_find_None in E. rewrite Forall_forall in E. intros ([p e]&->&Hin)%list_elem_of_fmap. exact (E _ Hin eq_refl).
Qed.

(** The port [i] places after [port], around the range. *)
Definition nth_port (port : Z) (i : nat) : Z := FIRST_PORT + (port - FIRST_PORT + Z.of_nat i) mod 16384.
Lemma nth_port_next port i :
  FIRST_PORT ≤ port ≤ LAST_PORT →
  nth_port (if port =? LAST_PORT then FIRST_PORT else port + 1) i = nth_port port (S i).
Proof.
  unfold nth_port, FIRST_PORT, LAST_PORT. intros Hp. rewrite Nat2Z.inj_succ. f_equal.
  destruct (port =? 65535) eqn:E; zbool; [subst|f_equal; lia].
  replace (65535 - 49152 + Z.succ (Z.of_nat i)) with (49152 - 49152 + Z.of_nat i + 1 * 16384) by lia.
  by rewrite Z.mod_add.
Qed.
Lemma nth_port_range port i : FIRST_PORT ≤ nth_port port i ≤ LAST_PORT.
Proof. unfold nth_port, FIRST_PORT, LAST_PORT. pose proof (Z.mod_pos_bound (port - 49152 + Z.of_nat i) 16384). lia. Qed.
Lemma nth_port_0 port : FIRST_PORT ≤ port ≤ LAST_PORT → nth_port port 0 = port.
Proof. unfold nth_port, FIRST_PORT, LAST_PORT. intros. rewrite Z.mod_small by lia. lia. Qed.

Lemma allocate_port_loop n s :
  FIRST_PORT ≤ vs_next_port s ≤ LAST_PORT →
  match allocate_loop n s with
  | (Done port, s') => ∃ i, (i < n)%nat ∧ port = nth_port (vs_next_port s) i ∧
      (port ∉ (vs_connections s).*1) ∧ (∀ j, (j < i)%nat → nth_port (vs_next_port s) j ∈ (vs_connections s).*1) ∧
      s' = (s <| vs_next_port := nth_port (vs_next_port s) (S i) |>)
  | (Raise _, s') => (∀ j, (j < n)%nat → nth_port (vs_next_port s) j ∈ (vs_connections s).*1) ∧
      s' = (s <| vs_next_port := nth_port (vs_next_port s) n |>)
  | (Loops, _) => False
  end.
Proof.
  revert s. induction n as [|n IH]; intros s Hs; cbn [allocate_loop].
  { split; [lia|]. rewrite nth_port_0 by done. by destruct s. }
  do 2 erewrite M_bind_done by done. set (port := vs_next_port s).
  set (next := if port =? LAST_PORT then FIRST_PORT else port + 1). set (s1 := s <| vs_next_port := next |>).
  assert (Hnext : ∀ i, nth_port next i = nth_port port (S i)) by (intros; by apply nth_port_next).
  assert (Hrange : FIRST_PORT ≤ next ≤ LAST_PORT).
  { unfold next, FIRST_PORT, LAST_PORT in *. destruct (port =? 65535) eqn:E; zbool; lia. }
  assert (H0 : nth_port port 0 = port) by (by apply nth_port_0).
  erewrite M_bind_done by done. pose proof (connection_at_spec port s1) as Hc.
  destruct (connection_at port s1) as [e|].
  - assert (Hin : port ∈ (vs_connections s).*1) by (apply list_elem_of_fmap; by exists (port, e)).
    specialize (IH s1 Hrange). change (vs_next_port s1) with next in IH.
    change (vs_connections s1) with (vs_connections s) in IH.
    destruct (allocate_loop n s1) as [[p|x|] s2]; [| |done].
    + destruct IH as (i&Hi&->&Hfree&Hbusy&->). rewrite !Hnext in *. exists (S i). split_and!; [lia|done|done| |done].
      intros [|j] Hj; [by rewrite H0|]. rewrite <- Hnext. apply Hbusy. lia.
    + destruct IH as [Hbusy ->]. rewrite Hnext. split; [|done].
      intros [|j] Hj; [by rewrite H0|]. rewrite <- Hnext. apply Hbusy. lia.
  - exists 0%nat. rewrite H0. split_and!; [lia|done|done|lia|].
    rewrite <- Hnext, nth_port_0 by done. done.
Qed.

(** [allocate_port] ends; it returns the first port, from the next one
    around the dynamic range, that no connection has, and fails only when every
    one of the 16384 is taken. *)
Theorem vsock_allocate_port (s : vsock) :
  FIRST_PORT ≤ vs_next_port s ≤ LAST_PORT →
  match allocate_port s with
  | (Done port, s') => FIRST_PORT ≤ port ≤ LAST_PORT ∧ (port ∉ (vs_connections s).*1) ∧
      s' = (s <| vs_next_port := vs_next_port s' |>) ∧ FIRST_PORT ≤ vs_next_port s' ≤ LAST_PORT
  | (Raise _, s') => (∀ port, FIRST_PORT ≤ port ≤ LAST_PORT → port ∈ (vs_connections s).*1) ∧
      vs_connections s' = vs_connections s
  | (Loops, _) => False
  end.
Proof.
  intros Hs. pose proof (allocate_port_loop (Z.to_nat (65536 - 49152)) s Hs) as Ha. unfold allocate_port.
  destruct (allocate_loop _ s) as [[p|x|] s']; [| |done].
  - destruct Ha as (i&_&->&Hfree&_&->). split_and!; try done; apply nth_port_range.
  - destruct Ha as [Hbusy ->]. split; [|done]. intros port Hp.
    replace port with (nth_port (vs_next_port s) (Z.to_nat ((port - vs_next_port s) mod 16384))).
    + apply Hbusy. pose proof (Z.mod_pos_bound (port - vs_next_port s) 16384). lia.
    + unfold nth_port. rewrite Z2Nat.id by (by apply Z.mod_pos_bound). rewrite Zplus_mod_idemp_r.
      replace (vs_next_port s - FIRST_PORT + (port - vs_next_port s)) with (port - FIRST_PORT) by lia.
      unfold FIRST_PORT, LAST_PORT in *. rewrite Z.mod_small by lia. lia.
Qed.

(** * The table of connections

    What a connection's own code may change. *)
Definition keeps_conn (f : connection → connection) : Prop := ∀ c,
  vc_local_port (f c) = vc_local_port c ∧ (vc_closed c = true → vc_closed (f c) = true).

Section steps.
Context {S : Type} `{!ConnectionOps S} (R : S → S → Prop) `{!PreOrder R}.
Context (Hput : ∀ f s, keeps_conn f → R s (co_put (f (co_get s)) s)).
Context (Hsend : ∀ op flags payload fwd_cnt, stays R (co_send op flags payload fwd_cnt)).
Context (Hclose : stays R co_close).

Lemma stays_update f : keeps_conn f → stays R (update f).
Proof using Hput. intros Hf. apply stays_modify. intros s. by apply Hput. Qed.
Lemma keeps_read_chunk r : keeps_conn (read_chunk r).
Proof using. intros c. unfold read_chunk. destruct (vc_buffer c); [destruct (vc_closed c) eqn:E|]; by cbn; rewrite ?E. Qed.
Lemma keeps_enqueue data : keeps_conn (fun c => if (vc_closed c || (zlen data =? 0))%bool then c
  else match vc_readers c with
       | r :: rs => c <| vc_readers := rs |> <| vc_woken := vc_woken c ++ [(r, data)] |>
       | [] => c <| vc_buffer := vc_buffer c ++ [data] |>
       end).
Proof using. intros c. destruct (_ || _)%bool; [done|]. by destruct (vc_readers c). Qed.
Lemma keeps_close : keeps_conn close_from_peer.
Proof using. intros c. unfold close_from_peer. destruct (vc_closed c) eqn:E; [by rewrite E|done]. Qed.
Lemma stays_conn : stays R conn.
Proof using PreOrder0. by intros s. Qed.
Ltac go := stays_with ltac:(first
  [ apply stays_conn | apply Hsend | apply Hclose | apply stays_update; first [apply keeps_read_chunk | apply keeps_close | done] ]).

Lemma stays_consume n : stays R (consume n).
Proof using Type*. unfold consume. go. Qed.
Lemma stays_write_loop fuel id data offset : stays R (write_loop fuel id data offset).
Proof using Type*.
  revert offset; induction fuel as [|fuel IH]; intros offset; cbn [write_loop];
    stays_with ltac:(first [apply IH | apply stays_conn | apply Hsend | apply stays_update; done]).
Qed.
Lemma stays_write_serialized id data offset : stays R (write_serialized id data offset).
Proof using Type*. apply stays_catch; [typeclasses eauto|apply stays_write_loop|]. intros e. by apply stays_update. Qed.
Lemma stays_resume_read r chunk : stays R (resume_read r chunk).
Proof using Type*.
  destruct r as [id|id n out]; cbn [resume_read].
  - apply stays_catch; [typeclasses eauto| |intros e; by apply stays_update].
    stays_with ltac:(first [apply stays_consume | apply stays_update; done]).
  - apply stays_if; [by apply stays_update|]. apply stays_catch; [typeclasses eauto| |intros e; by apply stays_update].
    stays_with ltac:(first [apply stays_consume | apply stays_update; first [apply keeps_read_chunk | done]]).
Qed.
Lemma stays_step e : stays R (step e).
Proof using Type*.
  destruct e as [id|id n|id data| |ba fc|data| |i| |i]; cbn [step].
  - apply stays_update, keeps_read_chunk.
  - apply stays_if; [apply stays_update, keeps_read_chunk|by apply stays_update].
  - by apply stays_update.
  - unfold close. go.
  - apply stays_update. intros c. done.
  - apply stays_update, keeps_enqueue.
  - apply stays_update, keeps_close.
  - apply stays_bind; [done|apply stays_conn|]. intros c. destruct (vc_woken c !! i) as [[r chunk]|]; [|by apply stays_ret].
    apply stays_bind; [done|by apply stays_update|]. intros _. apply stays_resume_read.
  - apply stays_bind; [done|apply stays_conn|]. intros c.
    destruct (vc_active c); [by apply stays_ret|]. destruct (vc_writes c) as [|[id data] rest]; [by apply stays_ret|].
    apply stays_bind; [done|by apply stays_update|]. intros _. apply stays_write_serialized.
  - apply stays_bind; [done|apply stays_conn|]. intros c. destruct (vc_resumed c !! i); [|by apply stays_ret].
    apply stays_bind; [done|by apply stays_update|]. intros _. apply stays_write_serialized.
Qed.
End steps.

(** What leaves the table as it is: connections may close and promises settle. *)
Record frame (s s' : vsock) : Prop := {
  fr_connections : vs_connections s' = vs_connections s;
  fr_next : vs_next_port s' = vs_next_port s;
  fr_length : length (vs_heap s') = length (vs_heap s);
  fr_heap : ∀ id c, vs_heap s !! id = Some c → ∃ c', vs_heap s' !! id = Some c' ∧
    vc_local_port c' = vc_local_port c ∧ (vc_closed c = true → vc_closed c' = true);
  fr_settled : ∀ id, id ∈ (vs_connects s).*1 → id ∈ (vs_connects s').*1;
  fr_once : NoDup (vs_connects s).*1 → NoDup (vs_connects s').*1;
  fr_known : ∀ id, id ∈ (vs_connects s').*1 → id ∈ (vs_connects s).*1 ∨ (id < length (vs_heap s))%nat }.
Lemma frame_same (s s' : vsock) :
  vs_connections s' = vs_connections s → vs_connects s' = vs_connects s → vs_next_port s' = vs_next_port s →
  vs_heap s' = vs_heap s → frame s s'.
Proof. intros E1 E2 E3 E4. constructor; rewrite ?E1, ?E2, ?E3, ?E4; auto. intros id c Hc. by exists c. Qed.
#[export] Instance frame_preorder : PreOrder frame.
Proof.
  split; [intros s; by apply frame_same|].
  intros a b c Hab Hbc. constructor.
  - rewrite (fr_connections _ _ Hbc). apply Hab.
  - rewrite (fr_next _ _ Hbc). apply Hab.
  - rewrite (fr_length _ _ Hbc). apply Hab.
  - intros id x Hx. destruct (fr_heap _ _ Hab id x Hx) as (y&Hy&?&?).
    destruct (fr_heap _ _ Hbc id y Hy) as (z&Hz&?&?). exists z. split_and!; [done|congruence|auto].
  - intros id H. by apply Hbc, Hab.
  - intros H. by apply Hbc, Hab.
  - intros id [H|H]%(fr_known _ _ Hbc); [by apply Hab|]. right. by rewrite <- (fr_length _ _ Hab).
Qed.

Lemma stays_focus_rx {A} (m : M rx A) : stays frame (on_vs_rx m).
Proof. intros s. unfold on_vs_rx, focus. destruct (m (vs_rx s)) as [o r]. by apply frame_same. Qed.
Lemma frame_flush_loop l : stays frame (flush_loop l).
Proof.
  induction l as [|p l IH]; cbn [flush_loop]; [apply stays_ret; typeclasses eauto|].
  stays_with ltac:(first [apply IH | apply stays_focus_rx | apply stays_modify; intros; by apply frame_same]).
Qed.
Lemma frame_flush : stays frame flush.
Proof. unfold flush. stays_with ltac:(first [apply frame_flush_loop | intros s; reflexivity]). Qed.
Lemma frame_send id op flags payload fwd : stays frame (send_packet id op flags payload fwd).
Proof.
  unfold send_packet.
  stays_with ltac:(first [apply frame_flush | apply stays_modify; intros; by apply frame_same]).
Qed.
Lemma heap_put_lookup id c s j x :
  vs_heap s !! j = Some x → vs_heap (heap_put id c s) !! j = Some (if decide (id = j) then c else x).
Proof.
  intros Hj. unfold heap_put. cbn. destruct (decide (id = j)) as [->|Hne].
  - apply list_lookup_insert_eq. by eapply lookup_lt_Some.
  - by rewrite list_lookup_insert_ne.
Qed.
Lemma heap_at_lookup id s c : vs_heap s !! id = Some c → heap_at id s = c.
Proof. unfold heap_at. by intros ->. Qed.
Lemma frame_put id f s : keeps_conn f → frame s (heap_put id (f (heap_at id s)) s).
Proof.
  intros Hf. constructor; try done; [apply length_insert| |by left].
  intros j c Hj. rewrite (heap_put_lookup _ _ _ _ _ Hj). eexists. split; [done|].
  destruct (decide (id = j)) as [->|]; [|done]. rewrite (heap_at_lookup _ _ _ Hj). apply Hf.
Qed.
Lemma frame_connection id e : stays frame (on_connection id (fun _ => step e)).
Proof.
  unfold on_connection. apply (@stays_step _ (device_ops id)); [typeclasses eauto|..].
  - intros f s Hf. by apply frame_put.
  - intros op flags payload fwd s. cbn. unfold mbind, M_bind. cbn. destruct (vs_stopped s); [done|].
    destruct (connection_at _ s); [|done]. apply frame_send.
  - intros s. cbn. unfold mbind, M_bind. cbn. destruct (connection_at _ s); [|done]. apply frame_send.
Qed.

Lemma frame_update id f : keeps_conn f → stays frame (on_connection id (fun _ => update f)).
Proof. intros Hf. apply stays_modify. intros s. by apply frame_put. Qed.
Lemma frame_from_peer id : stays frame (from_peer id).
Proof. apply frame_update, keeps_close. Qed.
Lemma settle_connect_settled id o s : id ∈ (vs_connects (settle_connect id o s)).*1.
Proof.
  unfold settle_connect. destruct (decide _) as [?|]; [done|]. cbn. rewrite fmap_app. apply elem_of_app. right. by left.
Qed.
Lemma frame_settle id o s : (id < length (vs_heap s))%nat → frame s (settle_connect id o s).
Proof.
  intros Hid. unfold settle_connect. destruct (decide _) as [?|Hnew]; [reflexivity|].
  constructor; cbn; try done; rewrite ?fmap_app.
  - intros j c Hc. by exists c.
  - intros j Hj. apply elem_of_app. by left.
  - intros Hn. apply NoDup_app. split_and!; [done| |apply NoDup_singleton]. by intros j Hj ->%list_elem_of_singleton.
  - intros j [Hj| ->%list_elem_of_singleton]%elem_of_app; [by left|by right].
Qed.

(** The table is well formed: its ports are distinct, each is its connection's
    and in the dynamic range; a connection is closed once it is not in the table;
    the promise of every [connect] settles at most once, and has settled once its
    connection is not in the table. *)
Definition table (s : vsock) : list nat := ep_id <$> (vs_connections s).*2.
Record vs_ok (s : vsock) : Prop := {
  vk_ports : NoDup (vs_connections s).*1;
  vk_entries : ∀ p e, (p, e) ∈ vs_connections s → FIRST_PORT ≤ p ≤ LAST_PORT ∧
    (∃ c, vs_heap s !! ep_id e = Some c ∧ vc_local_port c = p) ∧
    (ep_connected e = true → ep_id e ∈ (vs_connects s).*1);
  vk_pending : ∀ id, (id < length (vs_heap s))%nat → id ∈ (vs_connects s).*1 ∨ id ∈ table s;
  vk_closed : ∀ id c, vs_heap s !! id = Some c → vc_closed c = true ∨ id ∈ table s;
  vk_once : NoDup (vs_connects s).*1;
  vk_known : ∀ id, id ∈ (vs_connects s).*1 → (id < length (vs_heap s))%nat;
  vk_next : FIRST_PORT ≤ vs_next_port s ≤ LAST_PORT }.

Lemma table_spec id s : id ∈ table s ↔ ∃ p e, (p, e) ∈ vs_connections s ∧ ep_id e = id.
Proof.
  unfold table. rewrite list_elem_of_fmap. split.
  - intros (e&->&([p e']&->&Hin)%list_elem_of_fmap). by exists p, e'.
  - intros (p&e&Hin&<-). exists e. split; [done|]. apply list_elem_of_fmap. by exists (p, e).
Qed.
Lemma table_snoc id s s' p e :
  vs_connections s' = vs_connections s ++ [(p, e)] → id ∈ table s' ↔ id ∈ table s ∨ id = ep_id e.
Proof. intros E. unfold table. rewrite E, !fmap_app, elem_of_app. set_solver. Qed.
Lemma vk_bound s p e : vs_ok s → (p, e) ∈ vs_connections s → (ep_id e < length (vs_heap s))%nat.
Proof. intros Hok Hin. destruct (vk_entries _ Hok p e Hin) as (_&(c&Hc&_)&_). by eapply lookup_lt_Some. Qed.

Lemma frame_back s s' id c' : frame s s' → vs_heap s' !! id = Some c' → ∃ c, vs_heap s !! id = Some c.
Proof.
  intros Hf Hc. apply lookup_lt_Some in Hc. rewrite (fr_length _ _ Hf) in Hc. by apply lookup_lt_is_Some in Hc.
Qed.
Lemma vs_ok_frame s s' : frame s s' → vs_ok s → vs_ok s'.
Proof.
  intros Hf Hok. pose proof (fr_connections _ _ Hf) as Ec. assert (Et : table s' = table s) by (unfold table; by rewrite Ec).
  constructor; rewrite ?Ec, ?Et, ?(fr_next _ _ Hf), ?(fr_length _ _ Hf).
  - apply Hok.
  - intros p e Hin. destruct (vk_entries _ Hok p e Hin) as (Hr&(c&Hc&Hp)&He).
    destruct (fr_heap _ _ Hf _ _ Hc) as (c'&Hc'&Hp'&_). split_and!; [apply Hr..| |].
    + exists c'. split; [done|congruence].
    + intros H. by apply Hf, He.
  - intros id Hid. destruct (vk_pending _ Hok id Hid); [left; by apply Hf|by right].
  - intros id c' Hc'. destruct (frame_back _ _ _ _ Hf Hc') as [c Hc].
    destruct (fr_heap _ _ Hf _ _ Hc) as (x&Hx&_&Hcl). destruct (vk_closed _ Hok id c Hc); [left|by right].
    assert (x = c') as -> by congruence. auto.
  - apply Hf, Hok.
  - intros id [H|H]%(fr_known _ _ Hf); [by apply Hok|done].
  - apply Hok.
Qed.
Lemma preserves_frame {A} (m : M vsock A) : stays frame m → preserves vs_ok m.
Proof. intros Hm s. apply vs_ok_frame, Hm. Qed.

(** ** The operations *)
Lemma delete_entries p s q e : (q, e) ∈ vs_connections (delete_connection p s) ↔ q ≠ p ∧ (q, e) ∈ vs_connections s.
Proof. unfold delete_connection. cbn. by rewrite list_elem_of_filter. Qed.
Lemma entry_unique s p e e' : vs_ok s → (p, e) ∈ vs_connections s → (p, e') ∈ vs_connections s → e = e'.
Proof.
  intros Hok H1 H2. pose proof (vk_ports _ Hok) as Hn.
  apply list_elem_of_lookup_1 in H1 as [i Hi]. apply list_elem_of_lookup_1 in H2 as [j Hj].
  assert (i = j) as ->; [|congruence].
  eapply (NoDup_lookup _ i j p Hn); by rewrite list_lookup_fmap, ?Hi, ?Hj.
Qed.

(** A connection that is closed and whose promise has settled leaves the table. *)
Lemma vs_ok_delete p e s c :
  vs_ok s → (p, e) ∈ vs_connections s →
  ep_id e ∈ (vs_connects s).*1 → vs_heap s !! ep_id e = Some c → vc_closed c = true →
  vs_ok (delete_connection p s).
Proof.
  intros Hok Hin Hset Hc Hcl.
  assert (Ht : ∀ id, id ∈ table s → id = ep_id e ∨ id ∈ table (delete_connection p s)).
  { intros id (q&e'&Hin'&<-)%table_spec. destruct (decide (q = p)) as [->|Hne].
    - left. by rewrite (entry_unique _ _ _ _ Hok Hin Hin').
    - right. apply table_spec. exists q, e'. split; [|done]. by apply delete_entries. }
  constructor; try apply Hok.
  - cbn. eapply sublist_NoDup; [apply Hok|]. apply (fmap_sublist fst), sublist_filter.
  - intros q e' [_ H]%delete_entries. by apply Hok.
  - intros id Hid. destruct (vk_pending _ Hok id Hid) as [?|H]; [by left|].
    apply Ht in H as [->|?]; [by left|by right].
  - intros id c' Hc'. cbn in Hc'. destruct (vk_closed _ Hok id c' Hc') as [?|H]; [by left|].
    apply Ht in H as [->|?]; [left; congruence|by right].
Qed.

Lemma from_peer_done id s c :
  vs_heap s !! id = Some c → ∃ s' c', from_peer id s = (Done tt, s') ∧ frame s s' ∧ vs_connections s' = vs_connections s ∧
    vs_connects s' = vs_connects s ∧ vs_heap s' !! id = Some c' ∧ vc_closed c' = true ∧ vc_local_port c' = vc_local_port c.
Proof.
  intros Hc. pose proof (frame_from_peer id s) as Hf.
  exists (from_peer id s).2, (close_from_peer c). split_and!; try done.
  - change (from_peer id s).2 with (heap_put id (close_from_peer (heap_at id s)) s). rewrite (heap_put_lookup _ _ _ _ _ Hc), decide_True, (heap_at_lookup _ _ _ Hc) by done. done.
  - unfold close_from_peer. by destruct (vc_closed c) eqn:E.
  - unfold close_from_peer. by destruct (vc_closed c).
Qed.

Lemma drop_connection_ok p e reason s :
  vs_ok s → (p, e) ∈ vs_connections s → vs_ok (drop_connection p e reason s).2.
Proof.
  intros Hok Hin. pose proof (vk_bound _ _ _ Hok Hin) as Hb. unfold drop_connection.
  set (s1 := if ep_connected e then s else settle_connect (ep_id e) (Raise (JsError reason)) s).
  assert (H1 : frame s s1) by (unfold s1; destruct (ep_connected e); [done|by apply frame_settle]).
  assert (Hs : ep_id e ∈ (vs_connects s1).*1).
  { unfold s1. destruct (ep_connected e) eqn:E; [|apply settle_connect_settled]. by apply (vk_entries _ Hok p e Hin). }
  erewrite (M_bind_done _ _ s tt s1) by (unfold s1; by destruct (ep_connected e)).
  apply (vs_ok_frame _ _ H1) in Hok. rewrite <- (fr_connections _ _ H1) in Hin.
  destruct (vk_entries _ Hok p e Hin) as (_&(c&Hc&_)&_).
  destruct (from_peer_done _ _ _ Hc) as (s2&c2&E&Hf&Ec&Es&Hc2&Hcl&_).
  erewrite M_bind_done by exact E. cbn.
  apply (vs_ok_delete p e s2 c2); [by apply (vs_ok_frame s1)|by rewrite Ec|by rewrite Es|done|done].
Qed.

Lemma set_connected_ok p e s :
  vs_ok s → (p, e) ∈ vs_connections s → vs_ok (settle_connect (ep_id e) (Done tt) (set_connected p s)).
Proof.
  intros Hok Hin. pose proof (vk_bound _ _ _ Hok Hin) as Hb.
  set (s1 := settle_connect (ep_id e) (Done tt) s).
  assert (Hok1 : vs_ok s1) by (eapply vs_ok_frame; [by apply frame_settle|done]).
  assert (settle_connect (ep_id e) (Done tt) (set_connected p s) = set_connected p s1) as ->.
  { unfold s1, settle_connect. cbn. by destruct (decide _). }
  assert (Hin1 : (p, e) ∈ vs_connections s1) by (unfold s1, settle_connect; by destruct (decide _)).
  assert (Hset : ep_id e ∈ (vs_connects s1).*1) by apply settle_connect_settled. clearbody s1. clear Hin Hb Hok s.
  assert (Ep : (vs_connections (set_connected p s1)).*1 = (vs_connections s1).*1).
  { cbn. rewrite <- list_fmap_compose. apply list_fmap_ext. intros i [q e'] _. cbn. by destruct (_ =? _). }
  assert (Et : table (set_connected p s1) = table s1).
  { unfold table. cbn. rewrite <- !list_fmap_compose. apply list_fmap_ext. intros i [q e'] _. cbn. by destruct (_ =? _). }
  constructor; rewrite ?Ep, ?Et; try apply Hok1.
  intros q e' ([q' e0]&E&H0)%list_elem_of_fmap. cbn in E.
  destruct (vk_entries _ Hok1 q' e0 H0) as (?&?&?).
  destruct (q' =? p) eqn:Eq; zbool; [|by injection E as -> ->].
  assert (e0 = e) as -> by (subst q'; by eapply entry_unique). injection E as -> ->. subst q'.
  split; [done|]. split; [done|]. intros _. exact Hset.
Qed.

Lemma handle_tx_packet_ok header payload : preserves vs_ok (handle_tx_packet header payload).
Proof.
  intros s Hok. unfold handle_tx_packet. erewrite M_bind_done by done. set (p := header.["dst_port"]).
  pose proof (connection_at_spec p s) as Hin. destruct (connection_at p s) as [e|]; [|done].
  set (credit := fun c : connection => wake_credit_waiters
    (c <| vc_peer_buf_alloc := header.["buf_alloc"] |> <| vc_peer_fwd_cnt := header.["fwd_cnt"] |>)).
  pose proof (frame_update (ep_id e) credit ltac:(by intros c) s) as Hf.
  set (s1 := heap_put (ep_id e) (credit (heap_at (ep_id e) s)) s).
  erewrite (M_bind_done _ _ s tt s1) by done. change (frame s s1) in Hf.
  apply (vs_ok_frame _ _ Hf) in Hok. change (vs_connections s) with (vs_connections s1) in Hin.
  clearbody s1. clear Hf s. revert s1 Hok Hin. intros s Hok Hin.
  destruct (_ =? _).
  { erewrite M_bind_done by done. cbn. by apply (set_connected_ok p e). }
  destruct (_ =? _).
  { refine (vs_ok_frame s _ (frame_update (ep_id e) _ _ s) Hok). apply keeps_enqueue. }
  destruct (_ =? _); [done|].
  destruct (_ =? _); [by apply (preserves_frame _ (frame_send _ _ _ _ _))|].
  destruct (_ =? _); [|destruct (_ =? _); [by apply drop_connection_ok|done]].
  pose proof (frame_send (ep_id e) VsockOp.RST 0 [] None s) as Hf.
  unfold mbind, M_bind. destruct (send_packet _ _ _ _ _ s) as [[[]|x|] s1]; cbn in Hf |- *.
  - apply drop_connection_ok; [by eapply vs_ok_frame|by rewrite (fr_connections _ _ Hf)].
  - by eapply vs_ok_frame.
  - by eapply vs_ok_frame.
Qed.
Lemma transmit_ok chains : preserves vs_ok (transmit chains).
Proof.
  induction chains as [|chain chains IH]; cbn [transmit]; [apply preserves_ret|].
  apply preserves_bind; [apply preserves_lift|]. intros packet.
  apply preserves_bind; [apply handle_tx_packet_ok|]. intros _.
  apply preserves_bind; [|intros _; exact IH].
  apply preserves_frame, stays_modify. intros s. by apply frame_same.
Qed.
Lemma kick_ok vq chains : preserves vs_ok (kick vq chains).
Proof.
  unfold kick. destruct (_ =? _); [|destruct (_ =? _); [apply transmit_ok|apply preserves_ret]].
  apply preserves_bind; [apply preserves_frame, stays_focus_rx|]. intros _. apply preserves_frame, frame_flush.
Qed.

Lemma connect_ok port : preserves vs_ok (connect port).
Proof.
  intros s Hok. unfold connect. erewrite M_bind_done by done. destruct (vs_stopped s); [done|].
  pose proof (allocate_port_loop (Z.to_nat (65536 - 49152)) s (vk_next _ Hok)) as Ha.
  assert (Hn : ∀ p i, FIRST_PORT ≤ nth_port p i ≤ LAST_PORT) by (intros; apply nth_port_range).
  assert (Hmove : ∀ next, FIRST_PORT ≤ next ≤ LAST_PORT → vs_ok (s <| vs_next_port := next |>)).
  { intros next H. destruct Hok. by constructor. }
  unfold allocate_port. unfold mbind at 1, M_bind at 1. destruct (allocate_loop _ s) as [[p|x|] s1]; [| |done].
  2: { destruct Ha as [_ ->]. by apply Hmove. }
  destruct Ha as (i&_&Hp&Hfree&_&->). specialize (Hmove _ (Hn (vs_next_port s) (S i))).
  set (s1 := s <| vs_next_port := _ |>) in *. change (vs_connections s) with (vs_connections s1) in Hfree.
  assert (Hr : FIRST_PORT ≤ p ≤ LAST_PORT) by (rewrite Hp; apply Hn).
  clearbody s1. clear Hok Hp Hn s i. cbn [fst snd]. do 2 erewrite M_bind_done by done.
  apply preserves_bind; [apply preserves_frame, frame_send|intros; apply preserves_ret|].
  assert (Hlast : ∀ id, (id < length (vs_heap s1 ++ [connection_new p port]))%nat →
    (id < length (vs_heap s1))%nat ∨ id = length (vs_heap s1)) by (intros id; rewrite length_app; cbn; lia).
  set (s' := s1 <| vs_heap := _ |> <| vs_connections := _ |>).
  assert (Ht : ∀ id, id ∈ table s' ↔ id ∈ table s1 ∨ id = length (vs_heap s1)) by (intros id; exact (table_snoc id s1 s' _ _ eq_refl)).
  constructor; try apply Hmove.
  - cbn. rewrite fmap_app. apply NoDup_app. split_and!; [apply Hmove| |apply NoDup_singleton]. by intros q Hq ->%list_elem_of_singleton.
  - intros q e [Hin|[= -> ->]%list_elem_of_singleton]%elem_of_app.
    + destruct (vk_entries _ Hmove q e Hin) as (?&(c&Hc&?)&?). split_and!; try done; [lia..|].
      exists c. split; [|done]. by apply lookup_app_l_Some.
    + split; [done|]. split; [|done]. eexists. split; [by apply list_lookup_middle|done].
  - intros id [Hid| ->]%Hlast.
    + destruct (vk_pending _ Hmove id Hid) as [?|?]; [by left|right]. apply Ht. by left.
    + right. apply Ht. by right.
  - intros id c [Hc|[? Hc]]%lookup_app_Some.
    + destruct (vk_closed _ Hmove id c Hc) as [?|?]; [by left|right]. apply Ht. by left.
    + right. apply list_lookup_singleton_Some in Hc as [E _]. apply Ht. right. lia.
  - intros id Hid. cbn. rewrite length_app. pose proof (vk_known _ Hmove id Hid). lia.
Qed.

Lemma timeout_ok id : preserves vs_ok (timeout id).
Proof.
  intros s Hok. unfold timeout. erewrite M_bind_done by done. destruct (decide _) as [|Hnew]; [done|].
  apply Decidable.not_or in Hnew as [Hnew Hlt]. assert (Hid : (id < length (vs_heap s))%nat) by lia.
  destruct (vk_pending _ Hok id Hid) as [|(p&e&Hin&<-)%table_spec]; [done|].
  destruct (vk_entries _ Hok p e Hin) as (_&(c&Hc&Hp)&_). rewrite (heap_at_lookup _ _ _ Hc), Hp.
  pose proof (frame_send (ep_id e) VsockOp.RST 0 [] None s) as Hf.
  unfold mbind at 1, M_bind at 1. destruct (send_packet _ _ _ _ _ s) as [[[]|x|] s1]; cbn in Hf |- *; try by eapply vs_ok_frame.
  apply (vs_ok_frame _ _ Hf) in Hok. rewrite <- (fr_connections _ _ Hf) in Hin.
  rewrite <- (fr_length _ _ Hf) in Hid. clear Hf Hc Hp Hlt Hnew s.
  set (o := Raise _).
  assert (H1 : frame s1 (settle_connect (ep_id e) o s1)) by by apply frame_settle.
  set (s2 := settle_connect (ep_id e) o s1) in *.
  assert (Hs : ep_id e ∈ (vs_connects s2).*1) by apply settle_connect_settled.
  apply (vs_ok_frame _ _ H1) in Hok. rewrite <- (fr_connections _ _ H1) in Hin.
  destruct (vk_entries _ Hok p e Hin) as (_&(c2&Hc2&_)&_).
  destruct (from_peer_done _ _ _ Hc2) as (s3&c3&E&Hf&Ec&Es&Hc3&Hcl&_).
  assert (Hend : vs_ok (delete_connection p s3)).
  { apply (vs_ok_delete p e s3 c3); [by eapply vs_ok_frame|by rewrite Ec|by rewrite Es|done|done]. }
  assert (s3 = (from_peer (ep_id e) s2).2) as -> by (by rewrite E).
  do 2 erewrite M_bind_done by done. unfold s2, settle_connect in Hend. unfold modify, settle_connect. cbn in Hend |- *.
  by destruct (decide _).
Qed.

(** ** The end of every connection *)
Definition ended (s : vsock) (e : endpoint) : Prop :=
  ep_id e ∈ (vs_connects s).*1 ∧ ∃ c, vs_heap s !! ep_id e = Some c ∧ vc_closed c = true.
Lemma ended_frame s s' e : frame s s' → ended s e → ended s' e.
Proof.
  intros Hf [Hs (c&Hc&Hcl)]. split; [by apply Hf|]. destruct (fr_heap _ _ Hf _ _ Hc) as (c'&Hc'&_&H). eauto.
Qed.
Lemma close_all_ok resets reason l s :
  vs_ok s → (∀ x, x ∈ l → x ∈ vs_connections s) →
  match close_all resets reason l s with
  | (Done _, s') => frame s s' ∧ ∀ p e, (p, e) ∈ l → ended s' e
  | (_, s') => frame s s' ∧ resets = true
  end.
Proof.
  revert s. induction l as [|[p e] l IH]; intros s Hok Hl; cbn [close_all].
  { split; [done|]. by intros p e ?%not_elem_of_nil. }
  set (send := if resets then _ else _).
  assert (Hsend : frame s (send s).2 ∧ match (send s).1 with Done _ => True | _ => resets = true end).
  { unfold send. destruct resets; [|done]. split; [apply frame_send|]. by destruct (send_packet _ _ _ _ _ s).1. }
  unfold mbind at 1, M_bind at 1. destruct Hsend as [Hf Hr]. destruct (send s) as [[[]|x|] s1]; cbn in Hf, Hr |- *; try done.
  assert (Hin : (p, e) ∈ vs_connections s1) by (rewrite (fr_connections _ _ Hf); apply Hl; by left).
  apply (vs_ok_frame _ _ Hf) in Hok. pose proof (vk_bound _ _ _ Hok Hin) as Hb.
  set (s2 := if ep_connected e then s1 else settle_connect (ep_id e) (Raise (JsError reason)) s1).
  assert (H2 : frame s1 s2) by (unfold s2; destruct (ep_connected e); [done|by apply frame_settle]).
  assert (Hs : ep_id e ∈ (vs_connects s2).*1).
  { unfold s2. destruct (ep_connected e) eqn:E; [|apply settle_connect_settled]. by apply (vk_entries _ Hok p e Hin). }
  erewrite (M_bind_done _ _ s1 tt s2) by (unfold s2; by destruct (ep_connected e)).
  apply (vs_ok_frame _ _ H2) in Hok. rewrite <- (fr_connections _ _ H2) in Hin.
  destruct (vk_entries _ Hok p e Hin) as (_&(c&Hc&_)&_).
  destruct (from_peer_done _ _ _ Hc) as (s3&c3&E&Hf3&_&Es&Hc3&Hcl&_). erewrite M_bind_done by exact E.
  assert (Hall : frame s s3) by (by etrans; [exact Hf|etrans; [exact H2|]]).
  specialize (IH s3 (vs_ok_frame _ _ Hf3 Hok)).
  destruct (close_all resets reason l s3) as [[u|x|] s4].
  all: destruct IH as [Hrest Hdone]; [|split; [exact (transitivity Hall Hrest)|]].
  1,3,5: intros y Hy; rewrite (fr_connections _ _ Hall); apply Hl; by right.
  2-3: done.
  intros q e' [[= -> ->]|H]%elem_of_cons; [|by eapply Hdone].
  eapply ended_frame; [exact Hrest|]. split; [by rewrite Es|]. by exists c3.
Qed.

Lemma vs_ok_clear s :
  vs_ok s → (∀ p e, (p, e) ∈ vs_connections s → ended s e) → vs_ok (s <| vs_connections := [] |>).
Proof.
  intros Hok Hall. assert (Ht : ∀ id, id ∈ table s → id ∈ (vs_connects s).*1 ∧ ∃ c, vs_heap s !! id = Some c ∧ vc_closed c = true).
  { intros id (p&e&Hin&<-)%table_spec. by eapply Hall. }
  constructor; try apply Hok; cbn.
  - constructor.
  - by intros p e ?%not_elem_of_nil.
  - intros id Hid. destruct (vk_pending _ Hok id Hid) as [|H%Ht]; [by left|left; apply H].
  - intros id c Hc. destruct (vk_closed _ Hok id c Hc) as [|(_&c'&Hc'&?)%Ht]; [by left|left; congruence].
Qed.
(** Nothing is left of the connections. *)
Definition vs_idle (s : vsock) : Prop :=
  vs_connections s = [] ∧ (∀ id, (id < length (vs_heap s))%nat → id ∈ (vs_connects s).*1) ∧
  Forall (fun c => vc_closed c = true) (vs_heap s).
Lemma vs_ok_idle s : vs_ok s → vs_connections s = [] → vs_idle s.
Proof.
  intros Hok E. assert (Ht : ∀ id, id ∉ table s) by (intros id (p&e&H&_)%table_spec; rewrite E in H; by apply not_elem_of_nil in H).
  split; [done|]. split.
  - intros id Hid. destruct (vk_pending _ Hok id Hid) as [|H]; [done|by apply Ht in H].
  - apply Forall_lookup. intros id c Hc. destruct (vk_closed _ Hok id c Hc) as [|H]; [done|by apply Ht in H].
Qed.

Lemma vsock_reset_spec s : vs_ok s → (vsock_reset s).1 = Done tt ∧ vs_ok (vsock_reset s).2 ∧ vs_idle (vsock_reset s).2.
Proof.
  intros Hok. unfold vsock_reset. do 3 erewrite M_bind_done by done.
  set (s1 := _ <| vs_pending := _ |>). assert (Hf : frame s s1) by by apply frame_same.
  apply (vs_ok_frame _ _ Hf) in Hok. clearbody s1. clear Hf s. 
  pose proof (close_all_ok false "vsock device reset while connecting" (vs_connections s1) s1 Hok ltac:(done)) as Hc.
  unfold mbind, M_bind, gets. cbn [fst snd]. destruct (close_all _ _ _ s1) as [[[]|x|] s2]; destruct Hc as [Hf Hd]; try done. cbn.
  assert (H : vs_ok (s2 <| vs_connections := [] |>)).
  { apply vs_ok_clear; [by eapply vs_ok_frame|]. intros p e Hin. rewrite (fr_connections _ _ Hf) in Hin. by eapply Hd. }
  split; [done|]. split; [exact H|]. by apply vs_ok_idle.
Qed.
Lemma vsock_close_spec s :
  vs_ok s → vs_ok (vsock_close s).2 ∧ ((vsock_close s).1 = Done tt → vs_idle (vsock_close s).2).
Proof.
  intros Hok. unfold vsock_close. erewrite M_bind_done by done.
  pose proof (close_all_ok true "vsock device closed while connecting" (vs_connections s) s Hok ltac:(done)) as Hc.
  destruct (close_all _ _ _ s) as [[[]|x|] s2] eqn:E; destruct Hc as [Hf Hd].
  2: erewrite (M_bind_raise _ _ _ _ _ E); by split; [eapply vs_ok_frame|].
  2: erewrite (M_bind_loops _ _ _ _ E); by split; [eapply vs_ok_frame|].
  erewrite M_bind_done by exact E. clear E.
  set (s3 := s2 <| vs_connections := [] |>).
  assert (H : vs_ok s3).
  { apply vs_ok_clear; [by eapply vs_ok_frame|]. intros p e Hin. rewrite (fr_connections _ _ Hf) in Hin. by eapply Hd. }
  erewrite M_bind_done by done. change (_ <| vs_connections := [] |>) with s3. pose proof (stays_focus_rx (modify rx_close) s3) as H3.
  apply (vs_ok_frame _ _ H3) in H. split; [exact H|]. intros _. apply vs_ok_idle; [exact H|]. by rewrite (fr_connections _ _ H3).
Qed.

Lemma device_step_ok e : preserves vs_ok (device_step e).
Proof.
  intros s Hok. unfold device_step. erewrite M_bind_done by done. destruct e.
  - destruct (vs_stopped s); [done|by apply kick_ok].
  - apply preserves_bind; [apply connect_ok|intros; apply preserves_ret|done].
  - by apply timeout_ok.
  - by apply (preserves_frame _ (frame_connection _ _)).
  - destruct (vs_stopped s); [done|]. by apply vsock_reset_spec.
  - eapply vs_ok_frame; [|exact Hok]. by apply frame_same.
  - destruct (vs_stopped s); [by apply vsock_close_spec|done].
Qed.

(** A step that throws leaves what it has done. *)
Definition device_run (es : list device_event) (s : vsock) : vsock := foldl (fun s e => (device_step e s).2) s es.
Lemma device_run_ok es s : vs_ok s → vs_ok (device_run es s).
Proof. revert s. induction es as [|e es IH]; intros s Hok; [done|]. apply IH. by apply device_step_ok. Qed.
Lemma vsock_new_ok guest_cid s config : vsock_new guest_cid = Done (s, config) → vs_ok s.
Proof.
  unfold vsock_new. destruct (ty_set _ _ _ _) as [b|x|]; [|done..]. intros [= <- <-].
  constructor; cbn; try done.
  - constructor.
  - by intros p e ?%not_elem_of_nil.
  - intros id Hid. lia.
  - constructor.
  - by intros id ?%not_elem_of_nil.
Qed.

(** Whatever the guest, the users of connections and the timers do, and
    whatever throws: distinct connections have distinct ports of the dynamic
    range; the promise of a [connect] settles at most once, and it has settled
    unless its connection is still in the table; a connection that is not in
    the table is closed. *)
Theorem vsock_table_well_formed guest_cid s config es :
  vsock_new guest_cid = Done (s, config) → vs_ok (device_run es s).
Proof. intros ?%vsock_new_ok. by apply device_run_ok. Qed.

(** C22: a device reset always ends, and a close that does not throw ends, every
    connection: the table is empty, every [connect] there ever was has settled and
    every connection is closed, so that its reads end. *)
Theorem vsock_ends guest_cid s config es :
  vsock_new guest_cid = Done (s, config) →
  (vsock_reset (device_run es s)).1 = Done tt ∧ vs_idle (vsock_reset (device_run es s)).2 ∧
  ((vsock_close (device_run es s)).1 = Done tt → vs_idle (vsock_close (device_run es s)).2).
Proof.
  intros ?%vsock_new_ok. assert (Hok : vs_ok (device_run es s)) by by apply device_run_ok.
  destruct (vsock_reset_spec _ Hok) as (?&_&?). destruct (vsock_close_spec _ Hok) as [_ ?]. by split_and!.
Qed.

(** ** A conversation

    The guest [3] answers the first connection, sends it two bytes and resets
    the second, in the same notification. *)
Definition from_guest (src_port dst_port op : Z) (payload : list Z) : vchain :=
  [VBuf (enc VsockHeader (Obj [("src_cid", Num 3); ("dst_cid", Num HOST_CID); ("src_port", Num src_port);
     ("dst_port", Num dst_port); ("len", Num (zlen payload)); ("type", Num VSOCK_STREAM); ("op", Num op);
     ("flags", Num 0); ("buf_alloc", Num 4096); ("fwd_cnt", Num 0)]) ++ payload) false].
Definition conversation : list device_event :=
  [Kick 0 [[VBuf (zeros 64) true]]; Connect 80; Connect 81;
   Kick 1 [from_guest 80 49152 VsockOp.RESPONSE []; from_guest 80 49152 VsockOp.RW [7; 8];
           from_guest 81 49153 VsockOp.RST []]].
Definition vsock_sample : vsock :=
  match vsock_new 3 with Done (s, _) => s | _ => Vsock 3 false rx_new [] [] [] FIRST_PORT [] [] end.

Example conversation_settles :
  vs_connects (device_run conversation vsock_sample) =
    [(0%nat, Done tt); (1%nat, Raise (JsError "guest reset vsock connection"))].
Proof. vm_compute. reflexivity. Qed.
Example conversation_table :
  vs_connections (device_run conversation vsock_sample) = [(49152, Endpoint 0 true)].
Proof. vm_compute. reflexivity. Qed.
Example conversation_data : vc_buffer <$> vs_heap (device_run conversation vsock_sample) = [[[7; 8]]; []].
Proof. vm_compute. reflexivity. Qed.

Lemma vsock_allocate_port_witness :
  match allocate_port (device_run conversation vsock_sample) with
  | (Done port, _) => port = 49154 ∧ FIRST_PORT ≤ port ≤ LAST_PORT
  | _ => False
  end.
Proof.
  set (s := device_run conversation vsock_sample).
  assert (Hs : FIRST_PORT ≤ vs_next_port s ≤ LAST_PORT) by (vm_compute; split; discriminate).
  pose proof (vsock_allocate_port s Hs) as H.
  assert (E : (allocate_port s).1 = Done 49154) by (vm_compute; reflexivity).
  destruct (allocate_port s) as [o s']. cbn in E. subst o. split; [reflexivity|apply H].
Defined.
Lemma vsock_table_well_formed_witness :
  vsock_new 3 = Done (vsock_sample, [3; 0; 0; 0; 0; 0; 0; 0]) ∧
  (length (vs_heap (device_run conversation vsock_sample)) = 2)%nat ∧ vs_ok (device_run conversation vsock_sample).
Proof.
  assert (E : vsock_new 3 = Done (vsock_sample, [3; 0; 0; 0; 0; 0; 0; 0])) by (vm_compute; reflexivity).
  split; [exact E|]. split; [vm_compute; reflexivity|].
  exact (vsock_table_well_formed 3 vsock_sample [3; 0; 0; 0; 0; 0; 0; 0] conversation E).
Defined.
Lemma vsock_ends_witness :
  (vsock_close (device_run conversation vsock_sample)).1 = Done tt ∧
  vs_idle (vsock_close (device_run conversation vsock_sample)).2.
Proof.
  assert (E : vsock_new 3 = Done (vsock_sample, [3; 0; 0; 0; 0; 0; 0; 0])) by (vm_compute; reflexivity).
  assert (Hd : (vsock_close (device_run conversation vsock_sample)).1 = Done tt) by (vm_compute; reflexivity).
  split; [exact Hd|].
  by apply (vsock_ends 3 vsock_sample [3; 0; 0; 0; 0; 0; 0; 0] conversation E).
Defined.
