(* ===== verification/Device.v ===== *)
(** The base of every virtio device: [VirtioDevice] of
    packages/kernel/src/virtio/device.ts, attached to one machine.

    The asynchronous functions are cut where they wait, and what the runtime
    does between the program's turns is an [event]: a promise settles, a
    function that waited goes on, a microtask runs. Calls the device's own code
    makes while it is being called (a kick that shuts the device down, say) are
    events that follow. [vd_log] lists what the device does to the rest of the
    program. *)
From stdpp Require Import pretty.
From S2P Require Export Queue.

(** * The state *)

(** A [PackedVirtqueue] made by [enable_queue], with what its callbacks
    captured. Rings are numbered in the order they were made. *)
Record ring := Ring { rg_vq : Z; rg_irq : Z; rg_queue : queue; rg_armed : bool }.
#[export] Instance ring_eta : Eta ring := fun r => Ring (rg_vq r) (rg_irq r) (rg_queue r) (rg_armed r).

(** [QueueState] *)
Record queue_state := QueueState { qs_queue : option nat; qs_pending : bool; qs_notifying : bool }.
#[export] Instance queue_state_eta : Eta queue_state := fun q => QueueState (qs_queue q) (qs_pending q) (qs_notifying q).

(** A promise of [#active], with how it has settled: a kick's or spawned work. *)
Inductive work := Kick (vq : Z) | Spawned.
Record task := Task { tk_work : work; tk_settled : option (option exn) }.

(** Where a call of [drain] waits: for the promise [#dispatch] returned, or,
    after it reported an error, for its [finally]. *)
Inductive waiting := Dispatched (t : option nat) | Finally.

(** How far [shutdown] is, with the first failure: waiting for the active work it
    saw, waiting for [close()], and done. *)
Inductive closing :=
| Running
| Settling (failure : option exn) (seen : list nat)
| Closing (failure : option exn)
| Closed (failure : option exn).

Inductive effect :=
| Notified (vq : Z) | Dropped (vq : Z)
| Kicked (vq : Z) (r : nat) | Reported (e : exn)
| Published (r : nat) (c : completion) | PublishedRemotely (r : nat) (c : completion) | Irq (r : nat)
| ConfigIrq (irq : Z) | ConfigPublished (irq : Z) (config : list Z) (interrupt : bool)
| StopCalled | ResetCalled | CloseCalled | ResetDone (k : nat).

(** A device and its attachment. [vd_remote] is whether the context has the
    hooks of [serveDevice], [vd_config_at] is the target of [setup] as an
    address (in guest memory, or else [vd_target] under those hooks), and
    [vd_resets] has what each [reset()] waits for and whether its promise is
    resolved. *)
Record virtio := Virtio {
  vd_queues : Z; vd_features : Z; vd_views : bool; vd_remote : bool; vd_config : list Z;
  vd_stopped : bool; vd_active : list nat; vd_attached : option (Z * Z); vd_config_pending : bool;
  vd_context : bool; vd_states : gmap Z queue_state; vd_rings : list ring;
  vd_tasks : list task; vd_drains : list (Z * waiting); vd_reports : list exn; vd_microtasks : list nat;
  vd_closing : closing; vd_resets : list (list nat * bool);
  vd_memory : list Z; vd_target : list Z; vd_log : list effect }.
#[export] Instance virtio_eta : Eta virtio := fun d =>
  Virtio (vd_queues d) (vd_features d) (vd_views d) (vd_remote d) (vd_config d)
    (vd_stopped d) (vd_active d) (vd_attached d) (vd_config_pending d)
    (vd_context d) (vd_states d) (vd_rings d) (vd_tasks d) (vd_drains d) (vd_reports d) (vd_microtasks d)
    (vd_closing d) (vd_resets d) (vd_memory d) (vd_target d) (vd_log d).

(** The constructor. *)
Definition virtio_new (queues features : Z) (views remote : bool) (config : list Z) : virtio :=
  Virtio queues (VERSION_1 ||| RING_PACKED ||| INDIRECT_DESC ||| features) views remote config
    false [] None false false ∅ [] [] [] [] [] Running [] [] [] [].

Definition emit (e : effect) : M virtio unit := modify (fun d => d <| vd_log := vd_log d ++ [e] |>).

(** [queue_state(vq)] *)
Definition state_at (vq : Z) (d : virtio) : queue_state := default (QueueState None false false) (vd_states d !! vq).
Definition set_state (vq : Z) (f : queue_state → queue_state) : M virtio unit :=
  modify (fun d => d <| vd_states := <[vq := f (state_at vq d)]> (vd_states d) |>).
Definition set_ring (r : nat) (f : ring → ring) (d : virtio) : virtio := d <| vd_rings := alter f r (vd_rings d) |>.

(** * Configuration *)

(** Writes to the configuration's target. *)
Definition set_target (address : Z) (config : list Z) : M virtio unit :=
  d ← get_state;
  if vd_remote d then
    target ← lift (ta_set (vd_target d) config 0);
    modify (fun d => d <| vd_target := target |>)
  else
    memory ← lift (ta_set (vd_memory d) config address);
    modify (fun d => d <| vd_memory := memory |>).

Definition raise (irq : Z) : M virtio unit :=
  d ← get_state;
  if vd_remote d then emit (ConfigPublished irq (vd_target d) true) else emit (ConfigIrq irq).

Definition update_config : M virtio unit :=
  d ← get_state;
  if vd_stopped d then mret tt
  else match vd_attached d with
       | None => modify (fun d => d <| vd_config_pending := true |>)
       | Some (irq, address) => set_target address (vd_config d) ;; raise irq
       end.

(** * Work in flight *)
Definition add_active (w : work) : M virtio nat := fun d =>
  let t := length (vd_tasks d) in
  (Done t, d <| vd_tasks := vd_tasks d ++ [Task w None] |> <| vd_active := vd_active d ++ [t] |>).
Definition spawn : M virtio nat := add_active Spawned.

(** The promise of a kick, if the device still runs. *)
Definition dispatch (vq : Z) (r : nat) : M virtio (option nat) :=
  d ← get_state;
  if vd_stopped d then mret None
  else
    assert_m (vq <? vd_queues d) ("virtio device has no queue " +:+ pretty vq) ;;
    t ← add_active (Kick vq);
    emit (Kicked vq r) ;;
    mret (Some t).

(** [on_error], which does nothing before [attach]. *)
Definition report (e : exn) : M virtio unit :=
  d ← get_state; if vd_context d then emit (Reported e) else mret tt.

Definition set_drain (vq : Z) (w : waiting) : M virtio unit :=
  modify (fun d => d <| vd_drains := (fun p => if p.1 =? vq then (vq, w) else p) <$> vd_drains d |>).
Definition end_drain (vq : Z) : M virtio unit :=
  set_state vq (fun q => q <| qs_notifying := false |>) ;;
  modify (fun d => d <| vd_drains := filter (fun p => p.1 ≠ vq) (vd_drains d) |>).

(** A round of the loop of [drain], which has a queue; then its end or its next
    round. *)
Definition drain_round (vq : Z) (r : nat) : M virtio unit := fun d =>
  match (set_state vq (fun q => q <| qs_pending := false |>) ;; dispatch vq r) d with
  | (Done t, d) => set_drain vq (Dispatched t) d
  | (Raise e, d) => (report e ;; set_drain vq Finally) d
  | (Loops, d) => (Loops, d)
  end.
Definition drain_next (vq : Z) : M virtio unit :=
  q ← gets (state_at vq);
  match qs_pending q, qs_queue q with
  | true, Some r => drain_round vq r
  | _, _ => end_drain vq
  end.
(** [drain(vq)]: its place among the drains is made before its first round. *)
Definition drain (vq : Z) : M virtio unit :=
  q ← gets (state_at vq);
  if qs_notifying q then mret tt
  else match qs_queue q with
       | None => mret tt
       | Some r =>
           set_state vq (fun q => q <| qs_notifying := true |>) ;;
           modify (fun d => d <| vd_drains := vd_drains d ++ [(vq, Finally)] |>) ;;
           drain_round vq r
       end.
(** A [drain] goes on once what it waits for has settled. *)
Definition resume_drain (vq : Z) (w : waiting) : M virtio unit :=
  match w with
  | Finally => end_drain vq
  | Dispatched None => drain_next vq
  | Dispatched (Some t) =>
      tasks ← gets vd_tasks;
      match tk_settled <$> tasks !! t with
      | Some (Some None) => drain_next vq
      | Some (Some (Some e)) => report e ;; set_drain vq Finally
      | _ => mret tt
      end
  end.

(** * Shutting down *)
Definition settled (t : nat) (d : virtio) : option (option exn) := (vd_tasks d !! t) ≫= tk_settled.
Definition is_settled (t : nat) (d : virtio) : bool := if settled t d is Some _ then true else false.
(** The first rejected promise of [l]. *)
Fixpoint first_rejected (l : list nat) (d : virtio) : option exn :=
  match l with
  | [] => None
  | t :: l => match settled t d with Some (Some e) => Some e | _ => first_rejected l d end
  end.
Definition or_else {A} (a b : option A) : option A := if a is Some _ then a else b.

Definition settle_active (failure : option exn) : M virtio unit :=
  d ← get_state;
  match vd_active d with
  | [] => modify (fun d => d <| vd_closing := Closing failure |>) ;; emit CloseCalled
  | active => modify (fun d => d <| vd_closing := Settling failure active |>)
  end.
(** [shutdown()], where [stop()] throws or not. *)
Definition shutdown (stop : option exn) : M virtio unit :=
  d ← get_state;
  if vd_stopped d then mret tt
  else modify (fun d => d <| vd_stopped := true |>) ;; emit StopCalled ;; settle_active stop.
Definition resume_shutdown : M virtio unit :=
  d ← get_state;
  match vd_closing d with
  | Settling failure seen =>
      if forallb (fun t => is_settled t d) seen then settle_active (or_else failure (first_rejected seen d)) else mret tt
  | _ => mret tt
  end.
(** [close()] has settled. *)
Definition settle_close (o : option exn) : M virtio unit :=
  modify (fun d => match vd_closing d with
                   | Closing failure => d <| vd_closing := Closed (or_else failure o) |>
                   | _ => d
                   end).

(** A promise of [#active] settles, and then leaves the set; the failure of
    spawned work is reported. *)
Definition settle (t : nat) (o : option exn) : M virtio unit :=
  modify (fun d => d <| vd_tasks := alter (fun k =>
    match tk_settled k with None => Task (tk_work k) (Some o) | Some _ => k end) t (vd_tasks d) |>).
Definition leave (t : nat) : M virtio unit :=
  d ← get_state;
  match vd_tasks d !! t with
  | Some (Task w (Some o)) =>
      if decide (t ∈ vd_active d) then
        modify (fun d => d <| vd_active := filter (fun u => u ≠ t) (vd_active d) |>) ;;
        match w, o with
        | Spawned, Some e => modify (fun d => d <| vd_reports := vd_reports d ++ [e] |>)
        | _, _ => mret tt
        end
      else mret tt
  | _ => mret tt
  end.
Definition report_next : M virtio unit :=
  d ← get_state;
  match vd_reports d with
  | [] => mret tt
  | e :: rest => modify (fun d => d <| vd_reports := rest |>) ;; report e
  end.

(** * The rings *)

(** [state.queue === queue && (queue_is_current?.(vq) ?? true)], with the
    answer of the hook. *)
Definition ring_current (r : nat) (rg : ring) (hook : bool) (d : virtio) : bool :=
  (bool_decide (qs_queue (state_at (rg_vq rg) d) = Some r) && (negb (vd_remote d) || hook))%bool.
Definition invalidate_ring (r : nat) (d : virtio) : virtio :=
  set_ring r (fun rg => rg <| rg_queue := (invalidate (rg_queue rg)).2 |>) d.
Definition invalidate_at (vq : Z) (d : virtio) : virtio :=
  match qs_queue (state_at vq d) with Some r => invalidate_ring r d | None => d end.

(** The callback the ring publishes its completions with. *)
Definition completed (r : nat) (rg : ring) (c : completion) : M virtio unit :=
  d ← get_state;
  if vd_remote d then emit (PublishedRemotely r c)
  else
    memory ← lift (publish_virtqueue_completion (vd_memory d) c);
    modify (fun d => d <| vd_memory := memory |>) ;;
    emit (Published r c) ;;
    d ← get_state;
    if from_option rg_armed false (vd_rings d !! r) then mret tt
    else modify (set_ring r (fun rg => rg <| rg_armed := true |>)) ;;
         modify (fun d => d <| vd_microtasks := vd_microtasks d ++ [r] |>).
(** A call on the ring by the device's code: [next()] of its iterator, or the
    release of a chain. *)
Inductive ring_call := CallNext | CallRelease (id skip written : Z) (outputs : list output).
Definition run_call (k : ring_call) : M queue unit :=
  match k with
  | CallNext => next ;; mret tt
  | CallRelease id skip written outputs => release id skip written outputs
  end.
Definition with_view (memory : list Z) (current : bool) (q : queue) : queue :=
  Queue memory (q_size q) (q_desc_addr q) (q_views q) current (q_avail_wrap q) (q_used_wrap q)
    (q_used_idx q) (q_avail_idx q) (q_valid q) [].
Definition use_ring (r : nat) (hook : bool) (k : ring_call) : M virtio unit :=
  d ← get_state;
  match vd_rings d !! r with
  | None => mret tt
  | Some rg =>
      let '(o, q) := run_call k (with_view (vd_memory d) (ring_current r rg hook d) (rg_queue rg)) in
      modify (set_ring r (fun rg => rg <| rg_queue := q |>)) ;;
      lift o ;;
      match q_published q with
      | c :: _ => completed r rg c
      | [] => mret tt
      end
  end.
Definition microtask : M virtio unit :=
  d ← get_state;
  match vd_microtasks d with
  | [] => mret tt
  | r :: rest =>
      modify (fun d => d <| vd_microtasks := rest |>) ;;
      modify (set_ring r (fun rg => rg <| rg_armed := false |>)) ;;
      match vd_rings d !! r with
      | Some rg => if bool_decide (qs_queue (state_at (rg_vq rg) d) = Some r) then emit (Irq r) else mret tt
      | None => mret tt
      end
  end.

(** * The attachment *)
Definition attach : M virtio unit :=
  d ← get_state;
  assert_m (negb (vd_stopped d)) "cannot attach a closed virtio device" ;;
  assert_m (bool_decide (vd_attached d = None)) "virtio device is already attached" ;;
  modify (fun d => d <| vd_context := true |>).

Definition set_features (features : Z) : M virtio unit :=
  d ← get_state;
  assert_m (features =? vd_features d) "the kernel should accept every feature we offer, and no more".

Definition setup (irq address length : Z) : M virtio unit :=
  d ← get_state;
  assert_m (zlen (vd_config d) <=? length) "config space too small" ;;
  (if vd_remote d then modify (fun d => d <| vd_target := zeros length |>)
   else lift (if (0 <=? address) && (address + length <=? zlen (vd_memory d)) then Done tt
              else Raise (RangeError "Invalid typed array length"))%bool) ;;
  set_target address (vd_config d) ;;
  modify (fun d => d <| vd_attached := Some (irq, address) |>) ;;
  d ← get_state;
  (if vd_remote d then emit (ConfigPublished irq (vd_target d) false) else mret tt) ;;
  if vd_config_pending d then modify (fun d => d <| vd_config_pending := false |>) ;; update_config
  else mret tt.

(** The new ring becomes the queue's. *)
Definition add_ring (vq irq : Z) (q : queue) : M virtio unit := fun d =>
  let r := length (vd_rings d) in
  set_state vq (fun q => q <| qs_queue := Some r |>) (d <| vd_rings := vd_rings d ++ [Ring vq irq q false] |>).
Definition enable_queue (vq size descriptor_address irq : Z) : M virtio unit :=
  modify (invalidate_at vq) ;;
  d ← get_state;
  q ← lift (packed_virtqueue (vd_memory d) size descriptor_address (vd_views d));
  add_ring vq irq q ;;
  q ← gets (state_at vq);
  if qs_pending q then drain vq else mret tt.

Definition drop_queue (vq : Z) : M virtio unit :=
  modify (invalidate_at vq) ;;
  set_state vq (fun q => q <| qs_queue := None |> <| qs_pending := false |>) ;;
  emit (Dropped vq).
Definition disable_queue (vq : Z) : M virtio unit :=
  d ← get_state;
  match vd_states d !! vq with None => mret tt | Some _ => drop_queue vq end.

Definition notify (vq : Z) : M virtio unit :=
  set_state vq (fun q => q <| qs_pending := true |>) ;;
  emit (Notified vq) ;;
  drain vq.

Fixpoint drop_queues (l : list Z) : M virtio unit :=
  match l with [] => mret tt | vq :: l => drop_queue vq ;; drop_queues l end.
Definition finish_reset (k : nat) : M virtio unit :=
  modify (fun d => d <| vd_resets := alter (fun p => (p.1, true)) k (vd_resets d) |>) ;; emit (ResetDone k).
(** [reset()] of the attachment; its promise is one of [vd_resets]. *)
Definition reset : M virtio unit :=
  d ← get_state;
  drop_queues (map_to_list (vd_states d)).*1 ;;
  (if vd_stopped d then mret tt else emit ResetCalled) ;;
  d ← get_state;
  modify (fun d => d <| vd_resets := vd_resets d ++ [(if vd_views d then vd_active d else [], false)] |>) ;;
  if vd_views d then mret tt else finish_reset (length (vd_resets d)).
Definition resume_reset (k : nat) : M virtio unit :=
  d ← get_state;
  match vd_resets d !! k with
  | Some (seen, false) => if forallb (fun t => is_settled t d) seen then finish_reset k else mret tt
  | _ => mret tt
  end.

(** * What happens next *)
Inductive event :=
| Attach | SetFeatures (features : Z) | Setup (irq address length : Z)
| EnableQueue (vq size descriptor_address irq : Z) | DisableQueue (vq : Z) | Notify (vq : Z) | Reset
| UpdateConfig (config : list Z) | Spawn | UseRing (r : nat) (hook : bool) (k : ring_call)
| Shutdown (stop : option exn) | SettleClose (o : option exn)
| Settle (t : nat) (o : option exn) | Leave (t : nat) | ReportNext
| ResumeDrain (i : nat) | ResumeShutdown | ResumeReset (k : nat) | Microtask
| GuestWrites (memory : list Z).

Definition step (e : event) : M virtio unit :=
  d ← get_state;
  match e with
  | Attach => if vd_context d then mret tt else attach
  | Setup irq address length => if vd_context d then setup irq address length else mret tt
  | SetFeatures features => set_features features
  | EnableQueue vq size a irq => if vd_context d then enable_queue vq size a irq else mret tt
  | DisableQueue vq => disable_queue vq
  | Notify vq => if vd_context d then notify vq else mret tt
  | Reset => if vd_context d then reset else mret tt
  | UpdateConfig config => modify (fun d => d <| vd_config := config |>) ;; update_config
  | Spawn => spawn ;; mret tt
  | UseRing r hook k => use_ring r hook k
  | Shutdown stop => shutdown stop
  | SettleClose o => settle_close o
  | Settle t o => settle t o
  | Leave t => leave t
  | ReportNext => report_next
  | ResumeDrain i => match vd_drains d !! i with Some (vq, w) => resume_drain vq w | None => mret tt end
  | ResumeShutdown => resume_shutdown
  | ResumeReset k => resume_reset k
  | Microtask => microtask
  | GuestWrites memory => modify (fun d => d <| vd_memory := memory |>)
  end.
(** A step that throws leaves what it has done. *)
Definition run (es : list event) (d : virtio) : virtio := foldl (fun d e => (step e d).2) d es.

(** * The life of a device *)
Inductive mark := K | S_ | C_.
Definition life (l : list effect) : list mark :=
  omap (fun e => match e with Kicked _ _ => Some K | StopCalled => Some S_ | CloseCalled => Some C_ | _ => None end) l.

(** What leaves the work and its bookkeeping as they are. *)
Record same_work (d d' : virtio) : Prop := {
  sw_tasks : vd_tasks d' = vd_tasks d;
  sw_active : vd_active d' = vd_active d;
  sw_closing : vd_closing d' = vd_closing d;
  sw_stopped : vd_stopped d' = vd_stopped d;
  sw_drains : vd_drains d' = vd_drains d;
  sw_notifying : ∀ vq, qs_notifying (state_at vq d') = qs_notifying (state_at vq d);
  sw_life : life (vd_log d') = life (vd_log d) }.
#[export] Instance same_work_preorder : PreOrder same_work.
Proof.
  split; [by intros d|]. intros a b c [] []. split; congruence.
Qed.

Lemma state_at_insert vq v q d d' :
  vd_states d' = <[vq := q]> (vd_states d) → state_at v d' = if decide (vq = v) then q else state_at v d.
Proof.
  unfold state_at. intros ->. destruct (decide (vq = v)) as [->|Hne]; [by rewrite lookup_insert_eq|by rewrite lookup_insert_ne].
Qed.
Lemma state_at_same v d d' : vd_states d' = vd_states d → state_at v d' = state_at v d.
Proof. unfold state_at. by intros ->. Qed.

Definition quiet (e : effect) : bool := match e with Kicked _ _ | StopCalled | CloseCalled => false | _ => true end.
Lemma life_snoc l e : life (l ++ [e]) = life l ++ life [e].
Proof. apply omap_app. Qed.
Lemma work_modify (f : virtio → virtio) d :
  vd_tasks (f d) = vd_tasks d → vd_active (f d) = vd_active d → vd_closing (f d) = vd_closing d →
  vd_stopped (f d) = vd_stopped d → vd_drains (f d) = vd_drains d → vd_states (f d) = vd_states d →
  vd_log (f d) = vd_log d → same_work d (f d).
Proof. intros ????? Hs Hl. split; try done; [intros vq; by rewrite (state_at_same vq d)|by rewrite Hl]. Qed.
Lemma work_emit e : quiet e = true → stays same_work (emit e).
Proof.
  intros He d. split; try done. cbn. rewrite life_snoc. destruct e; try done; cbn; by rewrite app_nil_r.
Qed.
Lemma work_state vq f : (∀ q, qs_notifying (f q) = qs_notifying q) → stays same_work (set_state vq f).
Proof.
  intros Hf d. split; try done. intros v. cbn [set_state modify snd].
  erewrite (state_at_insert vq v) by done. case_decide as E; [subst; apply Hf|done].
Qed.
Lemma work_report e : stays same_work (report e).
Proof. unfold report. stays_with ltac:(by apply work_emit). Qed.

Ltac work := stays_with ltac:(first
  [ by apply work_emit | apply work_report | apply work_state; by intros []
  | apply stays_modify; intros; by apply (work_modify _ _) ]).

Lemma work_set_target a config : stays same_work (set_target a config).
Proof. unfold set_target. work. Qed.
Lemma work_raise irq : stays same_work (raise irq).
Proof. unfold raise. work. Qed.
Lemma work_update_config : stays same_work update_config.
Proof.
  unfold update_config. apply stays_bind; [typeclasses eauto|apply stays_get; typeclasses eauto|]. intros d. apply stays_if; [work|].
  destruct (vd_attached d) as [[irq a]|]; [|work].
  apply stays_bind; [typeclasses eauto|apply work_set_target|]. intros _. apply work_raise.
Qed.
Lemma work_setup irq a n : stays same_work (setup irq a n).
Proof.
  unfold setup, assert_m. stays_with ltac:(first [apply work_set_target | apply work_update_config | by apply work_emit
    | apply stays_modify; intros; by apply (work_modify _ _)]).
Qed.
Lemma set_ring_work r f d : same_work d (set_ring r f d).
Proof. by apply (work_modify (set_ring r f)). Qed.
Lemma invalidate_work vq d : same_work d (invalidate_at vq d).
Proof. unfold invalidate_at. destruct (qs_queue _); [apply set_ring_work|done]. Qed.
Lemma work_drop vq : stays same_work (drop_queue vq).
Proof. unfold drop_queue. stays_with ltac:(first [by apply work_emit | apply work_state; by intros [] | apply stays_modify; intros; apply invalidate_work]). Qed.
Lemma work_drops l : stays same_work (drop_queues l).
Proof. induction l; cbn [drop_queues]; [work|]. apply stays_bind; [typeclasses eauto|apply work_drop|]. by intros _. Qed.
Lemma work_reset : stays same_work reset.
Proof. unfold reset, finish_reset. stays_with ltac:(first [by apply work_emit | apply work_drops | apply stays_modify; intros; by apply (work_modify _ _)]). Qed.
Lemma work_use_ring r hook k : stays same_work (use_ring r hook k).
Proof.
  unfold use_ring. apply stays_bind; [typeclasses eauto|apply stays_get; typeclasses eauto|]. intros d.
  destruct (vd_rings d !! r) as [rg|]; [|work]. destruct (run_call _ _) as [o q].
  apply stays_bind; [typeclasses eauto|apply stays_modify; intros; apply set_ring_work|]. intros _.
  apply stays_bind; [typeclasses eauto|work|]. intros _. destruct (q_published q) as [|c l]; [work|].
  unfold completed. stays_with ltac:(first [by apply work_emit | apply stays_modify; intros; first [apply set_ring_work | by apply (work_modify _ _)]]).
Qed.
Lemma work_microtask : stays same_work microtask.
Proof.
  unfold microtask. apply stays_bind; [typeclasses eauto|apply stays_get; typeclasses eauto|]. intros d.
  destruct (vd_microtasks d) as [|r rest]; [work|].
  apply stays_bind; [typeclasses eauto|work|]. intros _. apply stays_bind; [typeclasses eauto|apply stays_modify; intros; apply set_ring_work|]. intros _.
  destruct (vd_rings d !! r); work.
Qed.
Lemma work_resume_reset k : stays same_work (resume_reset k).
Proof.
  unfold resume_reset, finish_reset. apply stays_bind; [typeclasses eauto|apply stays_get; typeclasses eauto|]. intros d.
  destruct (vd_resets d !! k) as [[seen []]|]; work.
Qed.

(** The kicks in flight are those the drains wait for, one for each; work that
    has not settled is active; [close()] starts once, when no kick is in
    flight, and no kick starts after [stop()]. *)
Definition ending (c : closing) : list mark :=
  match c with Running => [] | Settling _ _ => [S_] | Closing _ | Closed _ => [S_; C_] end.
Definition kick_settled (vq : Z) (d : virtio) : Prop := ∀ t, vd_tasks d !! t ≠ Some (Task (Kick vq) None).
Record work_ok (d : virtio) : Prop := {
  wo_drains : NoDup (vd_drains d).*1;
  wo_notifying : ∀ vq, qs_notifying (state_at vq d) = true ↔ vq ∈ (vd_drains d).*1;
  wo_kicks : ∀ vq t, vd_tasks d !! t = Some (Task (Kick vq) None) → (vq, Dispatched (Some t)) ∈ vd_drains d;
  wo_active : ∀ t w, vd_tasks d !! t = Some (Task w None) → t ∈ vd_active d;
  wo_stopped : vd_stopped d = true ↔ vd_closing d ≠ Running;
  wo_closing : C_ ∈ ending (vd_closing d) → ∀ vq, kick_settled vq d;
  wo_life : ∃ n, life (vd_log d) = replicate n K ++ ending (vd_closing d) }.
Lemma work_ok_same d d' : same_work d d' → work_ok d → work_ok d'.
Proof.
  intros [E1 E2 E3 E4 E5 E6 E7] []. split; unfold kick_settled in *; rewrite ?E1, ?E2, ?E3, ?E4, ?E5, ?E7; try done.
  intros vq. by rewrite E6.
Qed.
Lemma preserves_work {A} (m : M virtio A) : stays same_work m → preserves work_ok m.
Proof. intros Hm d. apply work_ok_same, Hm. Qed.

Lemma drain_unique d vq w w' : work_ok d → (vq, w) ∈ vd_drains d → (vq, w') ∈ vd_drains d → w = w'.
Proof.
  intros Hok H1 H2. pose proof (wo_drains _ Hok) as Hn.
  apply list_elem_of_lookup_1 in H1 as [i Hi]. apply list_elem_of_lookup_1 in H2 as [j Hj].
  assert (i = j) as ->; [|congruence].
  eapply (NoDup_lookup _ i j vq Hn); by rewrite list_lookup_fmap, ?Hi, ?Hj.
Qed.

Definition set_waiting (vq : Z) (w : waiting) (l : list (Z * waiting)) : list (Z * waiting) :=
  (fun p => if p.1 =? vq then (vq, w) else p) <$> l.
Lemma set_waiting_keys vq w l : (set_waiting vq w l).*1 = l.*1.
Proof.
  unfold set_waiting. rewrite <- list_fmap_compose. apply list_fmap_ext. intros i [v x] _. cbn.
  destruct (v =? vq) eqn:E; zbool; [by subst|done].
Qed.
Lemma set_waiting_here vq w l : vq ∈ l.*1 → (vq, w) ∈ set_waiting vq w l.
Proof.
  intros ([v x]&->&Hin)%list_elem_of_fmap. cbn. apply list_elem_of_fmap. exists (v, x). cbn. by rewrite Z.eqb_refl.
Qed.
Lemma set_waiting_other vq w l v x : v ≠ vq → (v, x) ∈ l → (v, x) ∈ set_waiting vq w l.
Proof. intros Hne Hin. apply list_elem_of_fmap. exists (v, x). cbn. by rewrite (proj2 (Z.eqb_neq v vq)). Qed.

(** A drain with no kick in flight waits for something else. *)
Lemma set_drain_ok vq w d : work_ok d → vq ∈ (vd_drains d).*1 → kick_settled vq d → work_ok (set_drain vq w d).2.
Proof.
  intros Hok Hin Hs. destruct Hok as [H1 H2 H3 H4 H5 H6 H7].
  assert (Ed : vd_drains (set_drain vq w d).2 = set_waiting vq w (vd_drains d)) by done.
  split; rewrite ?Ed, ?set_waiting_keys; try done.
  intros v t Ht. apply set_waiting_other; [|by apply H3]. intros ->. by apply (Hs t).
Qed.
Lemma end_drain_ok vq d : work_ok d → kick_settled vq d → work_ok (end_drain vq d).2.
Proof.
  intros [H1 H2 H3 H4 H5 H6 H7] Hs.
  assert (Hin : ∀ v x, (v, x) ∈ filter (fun p => p.1 ≠ vq) (vd_drains d) ↔ v ≠ vq ∧ (v, x) ∈ vd_drains d)
    by (intros; by rewrite list_elem_of_filter).
  split; try done.
  - eapply sublist_NoDup; [exact H1|]. apply (fmap_sublist fst), sublist_filter.
  - intros v. cbn [end_drain set_state modify snd mbind M_bind vd_drains].
    erewrite (state_at_insert vq v) by done. case_decide as E.
    + subst v. cbn. split; [done|]. intros ([v x]&->&[Hne _]%Hin)%list_elem_of_fmap. done.
    + etrans; [apply H2|]. rewrite !list_elem_of_fmap. split.
      * intros ([v' x]&->&Hx). exists (v', x). split; [done|]. by apply Hin.
      * intros ([v' x]&->&[_ Hx]%Hin). by exists (v', x).
  - intros v t Ht. apply Hin. split; [|by apply H3]. intros ->. by apply (Hs t).
Qed.

Lemma kick_task_ok vq r d :
  work_ok d → vd_stopped d = false → vq ∈ (vd_drains d).*1 → kick_settled vq d →
  work_ok (set_drain vq (Dispatched (Some (length (vd_tasks d)))) (emit (Kicked vq r) (add_active (Kick vq) d).2).2).2.
Proof.
  intros [H1 H2 H3 H4 H5 H6 H7] Hrun Hin Hs.
  assert (Hc : vd_closing d = Running).
  { destruct (vd_closing d) eqn:E; [done|..]; assert (vd_stopped d = true) by (by apply H5); congruence. }
  set (d' := (set_drain _ _ _).2). set (t := length (vd_tasks d)) in *.
  assert (Ht : vd_tasks d' = vd_tasks d ++ [Task (Kick vq) None]) by done.
  assert (Ha : vd_active d' = vd_active d ++ [t]) by done.
  assert (Ed : vd_drains d' = set_waiting vq (Dispatched (Some t)) (vd_drains d)) by done.
  assert (Hnew : ∀ u k, vd_tasks d' !! u = Some k → vd_tasks d !! u = Some k ∨ (u = t ∧ k = Task (Kick vq) None)).
  { intros u k. rewrite Ht. intros [?|[Hu Hk]]%lookup_app_Some; [by left|right].
    apply list_lookup_singleton_Some in Hk as [? <-]. split; [unfold t; lia|done]. }
  split; rewrite ?Ed, ?set_waiting_keys; try done.
  - intros v u [Hu|[-> [= ->]]]%Hnew.
    + apply set_waiting_other; [|by apply H3]. intros ->. by apply (Hs u).
    + by apply set_waiting_here.
  - intros u w Hu. rewrite Ha. apply elem_of_app. apply Hnew in Hu as [Hu|[-> _]]; [left; by eapply H4|right; by left].
  - change (vd_closing d') with (vd_closing d). rewrite Hc. cbn. by intros ?%not_elem_of_nil.
  - change (vd_closing d') with (vd_closing d). change (vd_log d') with (vd_log d ++ [Kicked vq r]).
    destruct H7 as [n Hn]. exists (S n). rewrite life_snoc, Hn, Hc, replicate_S_end. cbn. by rewrite !app_nil_r.
Qed.

Lemma set_notifying_ok vq d :
  work_ok d → vq ∉ (vd_drains d).*1 →
  let d' := (modify (fun d => d <| vd_drains := vd_drains d ++ [(vq, Finally)] |>)
               (set_state vq (fun q => q <| qs_notifying := true |>) d).2).2 in
  work_ok d' ∧ vq ∈ (vd_drains d').*1 ∧ kick_settled vq d'.
Proof.
  intros [H1 H2 H3 H4 H5 H6 H7] Hout d'.
  assert (Ed : vd_drains d' = vd_drains d ++ [(vq, Finally)]) by done.
  assert (Hk : (vd_drains d').*1 = (vd_drains d).*1 ++ [vq]) by (by rewrite Ed, fmap_app).
  split; [split|split]; rewrite ?Hk; try done.
  - apply NoDup_app. split_and!; [done| |apply NoDup_singleton]. by intros v Hv ->%list_elem_of_singleton.
  - intros v. cbn [d' set_state modify snd]. erewrite (state_at_insert vq v) by done. rewrite elem_of_app, list_elem_of_singleton.
    case_decide as E; [subst v; cbn; tauto|]. etrans; [apply H2|]. split; [by left|]. by intros [?| ->].
  - intros v t Ht. rewrite Ed. apply elem_of_app. left. by apply H3.
  - apply elem_of_app. right. by left.
  - intros t Ht. apply Hout, list_elem_of_fmap. exists (vq, Dispatched (Some t)). split; [done|by apply H3].
Qed.

Lemma drain_round_ok vq r d :
  work_ok d → vq ∈ (vd_drains d).*1 → kick_settled vq d → work_ok (drain_round vq r d).2.
Proof.
  intros Hok Hin Hs. unfold drain_round.
  set (d1 := (set_state vq (fun q => q <| qs_pending := false |>) d).2).
  assert (Hsame : same_work d d1) by (by apply work_state; intros []).
  assert (Hok1 : work_ok d1) by (by eapply work_ok_same).
  assert (Hs1 : kick_settled vq d1) by done. change (vd_drains d) with (vd_drains d1) in Hin.
  erewrite (M_bind_done _ _ d tt d1) by done. clearbody d1. clear d Hok Hs Hsame. unfold dispatch. erewrite M_bind_done by done.
  destruct (vd_stopped d1) eqn:Est; [by apply set_drain_ok|].
  destruct (vq <? vd_queues d1).
  - erewrite (M_bind_done _ _ d1 tt d1) by done. by apply kick_task_ok.
  - erewrite M_bind_raise by done.
    pose proof (work_report (AssertionError ("virtio device has no queue " +:+ pretty vq)) d1) as Hr.
    unfold report in *. unfold mbind, M_bind, get_state in *. destruct (vd_context d1); cbn [fst snd emit modify mret M_ret] in *.
    + apply set_drain_ok; [by eapply work_ok_same|done|done].
    + by apply set_drain_ok.
Qed.
Lemma drain_next_ok vq d :
  work_ok d → vq ∈ (vd_drains d).*1 → kick_settled vq d → work_ok (drain_next vq d).2.
Proof.
  intros Hok Hin Hs. unfold drain_next. erewrite M_bind_done by done.
  destruct (qs_pending (state_at vq d)), (qs_queue (state_at vq d)); first [by apply drain_round_ok | by apply end_drain_ok].
Qed.
Lemma drain_ok vq : preserves work_ok (drain vq).
Proof.
  intros d Hok. unfold drain. erewrite M_bind_done by done.
  destruct (qs_notifying (state_at vq d)) eqn:En; [done|]. destruct (qs_queue _) as [r|]; [|done].
  do 2 erewrite M_bind_done by done. assert (Hout : vq ∉ (vd_drains d).*1).
  { intros H%(wo_notifying _ Hok). congruence. }
  destruct (set_notifying_ok vq d Hok Hout) as (?&?&?). by apply drain_round_ok.
Qed.
Lemma resume_drain_ok vq w d : work_ok d → (vq, w) ∈ vd_drains d → work_ok (resume_drain vq w d).2.
Proof.
  intros Hok Hin. assert (Hk : vq ∈ (vd_drains d).*1) by (apply list_elem_of_fmap; by exists (vq, w)).
  assert (Hs : (∀ t, w = Dispatched (Some t) → vd_tasks d !! t ≠ Some (Task (Kick vq) None)) → kick_settled vq d).
  { intros Hw t Ht. eapply Hw; [|exact Ht]. eapply drain_unique; [done..|]. by apply (wo_kicks _ Hok). }
  destruct w as [[t|]|]; cbn [resume_drain].
  - erewrite M_bind_done by done. destruct (vd_tasks d !! t) as [[w [o|]]|] eqn:Et; [|done..].
    assert (Hsettled : kick_settled vq d) by (apply Hs; intros ? [= <-]; congruence).
    destruct o as [e|]; cbn [fmap option_fmap option_map tk_settled]; [|by apply drain_next_ok].
    pose proof (work_report e d) as Hr. unfold mbind, M_bind. destruct (report e d) as [[[]|x|] d1] eqn:E; cbn [snd] in Hr.
    2-3: by eapply work_ok_same.
    apply set_drain_ok; [by eapply work_ok_same|by rewrite (sw_drains _ _ Hr)|]. intros u. by rewrite (sw_tasks _ _ Hr).
  - apply drain_next_ok; [done..|by apply Hs].
  - apply end_drain_ok; [done|by apply Hs].
Qed.

Lemma add_active_ok d : work_ok d → work_ok (add_active Spawned d).2.
Proof.
  intros [H1 H2 H3 H4 H5 H6 H7]. set (d' := (add_active Spawned d).2).
  assert (Hnew : ∀ u w, vd_tasks d' !! u = Some (Task w None) → vd_tasks d !! u = Some (Task w None) ∨ (u = length (vd_tasks d) ∧ w = Spawned)).
  { intros u w [?|[Hu Hk]]%lookup_app_Some; [by left|right].
    apply list_lookup_singleton_Some in Hk as [? [= <-]]. split; [lia|done]. }
  split; try done.
  - intros v u [?|[_ [=]]]%Hnew. by apply H3.
  - intros u w [Hu|[-> _]]%Hnew; apply elem_of_app; [left; by eapply H4|right; by left].
  - intros Hc v u [Hu|[_ [=]]]%Hnew. by apply (H6 Hc v u).
Qed.
Lemma settle_lookup t o u w d :
  vd_tasks (settle t o d).2 !! u = Some (Task w None) → vd_tasks d !! u = Some (Task w None) ∧ u ≠ t.
Proof.
  cbn. destruct (decide (u = t)) as [->|Hne]; [|by rewrite list_lookup_alter_ne].
  rewrite list_lookup_alter_eq. destruct (vd_tasks d !! t) as [[w' [x|]]|]; by intros [=].
Qed.
Lemma task_settle_ok t o : preserves work_ok (settle t o).
Proof.
  intros d [H1 H2 H3 H4 H5 H6 H7]. split; try done.
  - intros v u [Hu _]%settle_lookup. by apply H3.
  - intros u w [Hu _]%settle_lookup. by eapply H4.
  - intros Hc v u [Hu _]%settle_lookup. by apply (H6 Hc v u).
Qed.
Lemma leave_ok t : preserves work_ok (leave t).
Proof.
  intros d Hok. unfold leave. erewrite M_bind_done by done.
  destruct (vd_tasks d !! t) as [[w [o|]]|] eqn:Et; [|done..]. destruct (decide (t ∈ vd_active d)); [|done].
  erewrite M_bind_done by done. set (d1 := d <| vd_active := _ |>).
  assert (Hok1 : work_ok d1).
  { destruct Hok as [H1 H2 H3 H4 H5 H6 H7]. split; try done. intros u w' Hu. apply list_elem_of_filter.
    split; [|by eapply H4]. intros ->. cbn in Hu. congruence. }
  destruct w, o; try done. by apply (work_ok_same d1).
Qed.
Lemma report_next_ok : preserves work_ok report_next.
Proof.
  apply preserves_work. unfold report_next. apply stays_bind; [typeclasses eauto|apply stays_get; typeclasses eauto|]. intros d.
  destruct (vd_reports d); work.
Qed.
Lemma settle_active_ok f d n :
  NoDup (vd_drains d).*1 → (∀ vq, qs_notifying (state_at vq d) = true ↔ vq ∈ (vd_drains d).*1) →
  (∀ vq t, vd_tasks d !! t = Some (Task (Kick vq) None) → (vq, Dispatched (Some t)) ∈ vd_drains d) →
  (∀ t w, vd_tasks d !! t = Some (Task w None) → t ∈ vd_active d) →
  vd_stopped d = true → life (vd_log d) = replicate n K ++ [S_] → work_ok (settle_active f d).2.
Proof.
  intros H1 H2 H3 H4 H5 H6. unfold settle_active. erewrite M_bind_done by done.
  destruct (vd_active d) as [|t active] eqn:Ea.
  - erewrite M_bind_done by done. split; try done; [intros t w Ht; by apply H4, not_elem_of_nil in Ht| |].
    + cbn. intros _ vq t Ht. apply H4 in Ht. by apply not_elem_of_nil in Ht.
    + exists n. cbn. rewrite life_snoc, H6, <- app_assoc. done.
  - split; cbn; try done.
    + by rewrite Ea.
    + by intros ?%list_elem_of_singleton.
    + by exists n.
Qed.
Lemma shutdown_ok stop : preserves work_ok (shutdown stop).
Proof.
  intros d Hok. unfold shutdown. erewrite M_bind_done by done. destruct (vd_stopped d) eqn:Est; [done|].
  destruct Hok as [H1 H2 H3 H4 H5 H6 [n H7]]. assert (Hc : vd_closing d = Running).
  { destruct (vd_closing d) eqn:E; [done|..]; assert (vd_stopped d = true) by (by apply H5); congruence. }
  do 2 erewrite M_bind_done by done. apply (settle_active_ok _ _ n); try done.
  cbn. by rewrite life_snoc, H7, Hc, app_nil_r.
Qed.
Lemma resume_shutdown_ok : preserves work_ok resume_shutdown.
Proof.
  intros d Hok. unfold resume_shutdown. erewrite M_bind_done by done.
  destruct (vd_closing d) as [|f seen|f|f] eqn:Ec; try done. destruct (forallb _ _); [|done].
  destruct Hok as [H1 H2 H3 H4 H5 H6 [n H7]]. rewrite Ec in *. apply (settle_active_ok _ _ n); try done. by apply H5.
Qed.
Lemma settle_close_ok o : preserves work_ok (settle_close o).
Proof.
  intros d Hok. unfold settle_close. cbn. destruct (vd_closing d) as [|f seen|f|f] eqn:Ec; try done.
  destruct Hok as [H1 H2 H3 H4 H5 H6 [n H7]]. rewrite Ec in *. split; cbn; try done; [by rewrite H5|by exists n].
Qed.

Lemma work_add_ring vq irq q : stays same_work (add_ring vq irq q).
Proof.
  intros d. unfold add_ring. set (d1 := d <| vd_rings := _ |>). etrans; [|by apply work_state; intros []].
  by apply (work_modify (fun d => d <| vd_rings := _ |>)).
Qed.
Lemma enable_queue_ok vq size a irq : preserves work_ok (enable_queue vq size a irq).
Proof.
  unfold enable_queue. apply preserves_bind; [apply preserves_work, stays_modify; intros; apply invalidate_work|]. intros _.
  apply preserves_bind; [apply preserves_get|]. intros d. apply preserves_bind; [apply preserves_lift|]. intros q.
  apply preserves_bind; [apply preserves_work, work_add_ring|]. intros _.
  apply preserves_bind; [apply preserves_gets|]. intros s. destruct (qs_pending s); [apply drain_ok|apply preserves_ret].
Qed.
Lemma notify_ok vq : preserves work_ok (notify vq).
Proof.
  unfold notify. apply preserves_bind; [apply preserves_work; work|]. intros _.
  apply preserves_bind; [apply preserves_work; work|]. intros _. apply drain_ok.
Qed.
Lemma step_work e : preserves work_ok (step e).
Proof.
  intros d Hok. unfold step. erewrite M_bind_done by done.
  destruct e as [|features|irq a n|vq size a irq|vq|vq| |config| |r hook k|stop|o|t o|t| |i| |k| |memory].
  - destruct (vd_context d); [done|]. apply (preserves_work attach); [|done]. unfold attach, assert_m. work.
  - apply (preserves_work (set_features features)); [|done]. unfold set_features, assert_m. work.
  - destruct (vd_context d); [|done]. by apply (preserves_work _ (work_setup irq a n)).
  - destruct (vd_context d); [|done]. by apply enable_queue_ok.
  - unfold disable_queue. erewrite M_bind_done by done. destruct (_ !! vq); [|done]. by apply (preserves_work _ (work_drop vq)).
  - destruct (vd_context d); [|done]. by apply notify_ok.
  - destruct (vd_context d); [|done]. by apply (preserves_work _ work_reset).
  - apply preserves_bind; [apply preserves_work; work|intros _; apply preserves_work, work_update_config|done].
  - apply preserves_bind; [exact add_active_ok|intros; apply preserves_ret|done].
  - by apply (preserves_work _ (work_use_ring r hook k)).
  - by apply shutdown_ok.
  - by apply settle_close_ok.
  - by apply task_settle_ok.
  - by apply leave_ok.
  - by apply report_next_ok.
  - destruct (vd_drains d !! i) as [[vq w]|] eqn:E; [|done]. apply resume_drain_ok; [done|]. by eapply list_elem_of_lookup_2.
  - by apply resume_shutdown_ok.
  - by apply (preserves_work _ (work_resume_reset k)).
  - by apply (preserves_work _ work_microtask).
  - apply (work_ok_same d); [by apply (work_modify (fun d => d <| vd_memory := memory |>))|done].
Qed.

Lemma run_preserves (P : virtio → Prop) es d : (∀ e, preserves P (step e)) → P d → P (run es d).
Proof. intros Hs. revert d. induction es as [|e es IH]; intros d Hd; [done|]. apply IH. by apply Hs. Qed.
Lemma run_app es es' d : run (es ++ es') d = run es' (run es d).
Proof. apply foldl_app. Qed.
Lemma work_ok_new queues features views remote config : work_ok (virtio_new queues features views remote config).
Proof.
  split; cbn; try done.
  - constructor.
  - intros vq. split; [done|]. by intros ?%not_elem_of_nil.
  - by exists O.
Qed.

(** C16: whatever the guest does and however the device's code behaves: at most
    one kick of a queue is in flight; [stop()] comes after every kick and
    [close()] after it, each at most once; and no kick is in flight once [close()]
    has started. *)
Theorem device_lifecycle queues features views remote config es :
  let d := run es (virtio_new queues features views remote config) in
  (∀ vq t u, vd_tasks d !! t = Some (Task (Kick vq) None) → vd_tasks d !! u = Some (Task (Kick vq) None) → t = u) ∧
  (∃ n, life (vd_log d) = replicate n K ++ ending (vd_closing d)) ∧
  (CloseCalled ∈ vd_log d → ∀ vq, kick_settled vq d).
Proof.
  intros d. assert (Hok : work_ok d) by (apply run_preserves; [exact step_work|apply work_ok_new]).
  split; [|split].
  - intros vq t u Ht Hu. assert (E : Dispatched (Some t) = Dispatched (Some u)); [|congruence].
    exact (drain_unique d vq _ _ Hok (wo_kicks _ Hok vq t Ht) (wo_kicks _ Hok vq u Hu)).
  - apply Hok.
  - intros Hin. apply (wo_closing _ Hok). destruct (wo_life _ Hok) as [n Hn].
    assert (H : C_ ∈ life (vd_log d)) by (apply list_elem_of_omap; by exists CloseCalled).
    rewrite Hn in H. apply elem_of_app in H as [H|H]; [|done]. by apply elem_of_replicate in H as [[=] _].
Qed.

(** * Notifications *)

(** The queue [vq] was notified, and neither kicked nor dropped since. *)
Definition owed (vq : Z) (b : bool) (e : effect) : bool :=
  match e with
  | Notified v => (v =? vq) || b
  | Kicked v _ | Dropped v => negb (v =? vq) && b
  | _ => b
  end.
Definition owes (vq : Z) (l : list effect) : bool := foldl (owed vq) false l.
(** No failure was reported to the machine. *)
Definition clean (l : list effect) : bool := forallb (fun e => if e is Reported _ then false else true) l.
Lemma owes_snoc vq l e : owes vq (l ++ [e]) = owed vq (owes vq l) e.
Proof. unfold owes. by rewrite foldl_app. Qed.
Lemma clean_app l l' : clean (l ++ l') = (clean l && clean l')%bool.
Proof. apply forallb_app. Qed.

Record note_ok (d : virtio) : Prop := {
  nt_context : ∀ p, p ∈ vd_drains d → vd_context d = true;
  nt_finally : ∀ vq, (vq, Finally) ∈ vd_drains d → clean (vd_log d) = false;
  nt_owes : ∀ vq, vd_stopped d = false → clean (vd_log d) = true → owes vq (vd_log d) = true →
    qs_pending (state_at vq d) = true;
  nt_pending : ∀ vq, clean (vd_log d) = true → qs_pending (state_at vq d) = true →
    is_Some (qs_queue (state_at vq d)) → qs_notifying (state_at vq d) = true }.

Record same_note (d d' : virtio) : Prop := {
  sn_context : vd_context d = true → vd_context d' = true;
  sn_drains : ∀ p, p ∈ vd_drains d' → p ∈ vd_drains d;
  sn_stopped : vd_stopped d' = false → vd_stopped d = false;
  sn_states : ∀ vq, state_at vq d' = state_at vq d;
  sn_owes : ∀ vq, owes vq (vd_log d') = owes vq (vd_log d);
  sn_clean : clean (vd_log d') = true → clean (vd_log d) = true }.
#[export] Instance same_note_preorder : PreOrder same_note.
Proof.
  split; [by intros d|]. intros a b c [] []. split; try (intros; congruence); auto.
Qed.
Lemma note_ok_same d d' : same_note d d' → note_ok d → note_ok d'.
Proof.
  intros [] []. split; intros; rewrite ?sn_states0, ?sn_owes0 in *; eauto.
  destruct (clean (vd_log d')) eqn:E; [|done]. rewrite <- (sn_clean0 eq_refl). eauto.
Qed.
Lemma preserves_note {A} (m : M virtio A) : stays same_note m → preserves note_ok m.
Proof. intros Hm d. apply note_ok_same, Hm. Qed.

Definition plain (e : effect) : bool := match e with Notified _ | Kicked _ _ | Dropped _ => false | _ => true end.
Lemma note_emit e : plain e = true → stays same_note (emit e).
Proof.
  intros He d. split; try done.
  - intros vq. change (vd_log (emit e d).2) with (vd_log d ++ [e]). rewrite owes_snoc. by destruct e.
  - change (vd_log (emit e d).2) with (vd_log d ++ [e]). rewrite clean_app. by intros [? _]%andb_true_iff.
Qed.
Lemma note_modify (f : virtio → virtio) d :
  vd_context (f d) = vd_context d → vd_drains (f d) = vd_drains d →
  (vd_stopped (f d) = false → vd_stopped d = false) → vd_states (f d) = vd_states d → vd_log (f d) = vd_log d → same_note d (f d).
Proof. intros E1 E2 E3 E4 E5. split; rewrite ?E1, ?E2, ?E5; try done. intros vq. by apply state_at_same. Qed.
Ltac note_step := intros; first [by apply (note_modify _ _) | by apply (note_modify (set_ring _ _) _)].
Ltac note := stays_with ltac:(first [by apply note_emit | apply stays_modify; note_step]).
Ltac note_get := apply stays_bind; [typeclasses eauto|apply stays_get; typeclasses eauto|intros d].

Lemma note_report e : stays same_note (report e).
Proof. unfold report. note. Qed.
Lemma note_update_config : stays same_note update_config.
Proof.
  unfold update_config, set_target, raise. note_get. apply stays_if; [note|].
  destruct (vd_attached d) as [[irq a]|]; note.
Qed.
Lemma note_setup irq a n : stays same_note (setup irq a n).
Proof.
  unfold setup, set_target, assert_m. stays_with ltac:(first [apply note_update_config | by apply note_emit | apply stays_modify; note_step]).
Qed.
Lemma note_use_ring r hook k : stays same_note (use_ring r hook k).
Proof.
  unfold use_ring, completed. note_get. destruct (vd_rings d !! r) as [rg|]; [|note]. destruct (run_call _ _) as [o q].
  apply stays_bind; [typeclasses eauto|note|]. intros _.
  apply stays_bind; [typeclasses eauto|note|]. intros _. destruct (q_published q) as [|c l]; note.
Qed.
Lemma note_microtask : stays same_note microtask.
Proof. unfold microtask. note_get. destruct (vd_microtasks d) as [|r rest]; [note|]. destruct (vd_rings d !! r); note. Qed.
Lemma note_resume_reset k : stays same_note (resume_reset k).
Proof. unfold resume_reset, finish_reset. note_get. destruct (vd_resets d !! k) as [[seen []]|]; note. Qed.
Lemma note_leave t : stays same_note (leave t).
Proof.
  unfold leave. note_get. destruct (vd_tasks d !! t) as [[w [o|]]|]; [|note..]. destruct (decide _); [|note].
  apply stays_bind; [typeclasses eauto|note|]. intros _. destruct w, o; note.
Qed.
Lemma note_report_next : stays same_note report_next.
Proof. unfold report_next. note_get. destruct (vd_reports d); [note|]. apply stays_bind; [typeclasses eauto|note|intros; apply note_report]. Qed.
Lemma note_settle_active f : stays same_note (settle_active f).
Proof. unfold settle_active. note_get. destruct (vd_active d); note. Qed.
Lemma note_shutdown stop : stays same_note (shutdown stop).
Proof. unfold shutdown. stays_with ltac:(first [apply note_settle_active | by apply note_emit | apply stays_modify; note_step]). Qed.
Lemma note_resume_shutdown : stays same_note resume_shutdown.
Proof. unfold resume_shutdown. note_get. destruct (vd_closing d); [note| |note..]. apply stays_if; [apply note_settle_active|note]. Qed.
Lemma note_settle_close o : stays same_note (settle_close o).
Proof. apply stays_modify. intros d. destruct (vd_closing d); try done. Qed.
Lemma note_add_active w : stays same_note (add_active w).
Proof. intros d. by split. Qed.

(** All but what is owed to [vq], whose drain is about to go on. *)
Record note_but (vq : Z) (d : virtio) : Prop := {
  nb_context : vd_context d = true;
  nb_finally : ∀ v, v ≠ vq → (v, Finally) ∈ vd_drains d → clean (vd_log d) = false;
  nb_owes : ∀ v, v ≠ vq → vd_stopped d = false → clean (vd_log d) = true → owes v (vd_log d) = true →
    qs_pending (state_at v d) = true;
  nb_pending : ∀ v, clean (vd_log d) = true → qs_pending (state_at v d) = true →
    is_Some (qs_queue (state_at v d)) → qs_notifying (state_at v d) = true }.
Lemma note_ok_but vq d : note_ok d → vd_context d = true → note_but vq d.
Proof. intros [H1 H2 H3 H4] Hc. split; eauto. Qed.
Lemma set_waiting_elem vq w l p : p ∈ set_waiting vq w l → p = (vq, w) ∨ (p.1 ≠ vq ∧ p ∈ l).
Proof.
  intros ([v x]&->&Hin)%list_elem_of_fmap. cbn. destruct (v =? vq) eqn:E; zbool; [by left|by right].
Qed.
Lemma set_drain_note vq w d :
  note_but vq d → (w = Finally → clean (vd_log d) = false) →
  (vd_stopped d = false → clean (vd_log d) = true → owes vq (vd_log d) = false) →
  note_ok (set_drain vq w d).2.
Proof.
  intros [H1 H2 H3 H4] Hw Ho.
  assert (Ed : vd_drains (set_drain vq w d).2 = set_waiting vq w (vd_drains d)) by done.
  split; rewrite ?Ed; try done.
  - intros v [[= -> <-]|[Hne Hin]]%set_waiting_elem; [by apply Hw|by eapply H2].
  - intros v Hs Hc Hv. destruct (decide (v = vq)) as [->|Hne]; [|by apply H3]. change (owes vq (vd_log d) = true) in Hv.
    by rewrite Ho in Hv.
Qed.
Lemma report_done e d : vd_context d = true → report e d = (Done tt, d <| vd_log := vd_log d ++ [Reported e] |>).
Proof. intros Hc. unfold report. erewrite M_bind_done by done. by rewrite Hc. Qed.
Lemma set_drain_reported vq w e d :
  note_but vq d → note_ok (set_drain vq w (d <| vd_log := vd_log d ++ [Reported e] |>)).2.
Proof.
  intros [H1 H2 H3 H4]. set (d' := d <| vd_log := _ |>).
  assert (Hc : clean (vd_log d') = false) by (cbn; rewrite clean_app; apply andb_false_r).
  apply set_drain_note; [split; rewrite ?Hc; done|done|congruence].
Qed.
Lemma drain_round_note vq r d : note_but vq d → note_ok (drain_round vq r d).2.
Proof.
  intros Hb. unfold drain_round.
  set (d1 := (set_state vq (fun q => q <| qs_pending := false |>) d).2).
  assert (Hb1 : note_but vq d1).
  { destruct Hb as [H1 H2 H3 H4]. split; try done; intros v; cbn [d1 set_state modify snd];
      erewrite (state_at_insert vq v) by done; (case_decide; [subst v|by auto]); [done|by intros ? [=]]. }
  erewrite (M_bind_done _ _ d tt d1) by done. clearbody d1. clear d Hb. unfold dispatch. erewrite M_bind_done by done.
  destruct (vd_stopped d1) eqn:Est; [by apply set_drain_note; [done..|congruence]|].
  destruct (vq <? vd_queues d1).
  - erewrite (M_bind_done _ _ d1 tt d1) by done.
    set (d2 := (emit (Kicked vq r) (add_active (Kick vq) d1).2).2). change (note_ok (set_drain vq (Dispatched (Some (length (vd_tasks d1)))) d2).2).
    assert (El : vd_log d2 = vd_log d1 ++ [Kicked vq r]) by done.
    assert (Ec : clean (vd_log d2) = clean (vd_log d1)) by (rewrite El, clean_app; cbn; by rewrite andb_true_r).
    apply set_drain_note; [|done|].
    + destruct Hb1 as [H1 H2 H3 H4]. split; rewrite ?Ec; try done. intros v Hne Hs Hc. rewrite El, owes_snoc. cbn.
      rewrite (proj2 (Z.eqb_neq vq v)) by done. by apply H3.
    + intros _ _. rewrite El, owes_snoc. cbn. by rewrite Z.eqb_refl.
  - erewrite M_bind_raise by done. set (x := AssertionError _).
    erewrite M_bind_done by (by apply report_done, Hb1). by apply set_drain_reported.
Qed.
Lemma end_drain_note vq d :
  note_but vq d → (clean (vd_log d) = true → qs_pending (state_at vq d) = true → qs_queue (state_at vq d) = None) →
  (vd_stopped d = false → clean (vd_log d) = true → owes vq (vd_log d) = true → qs_pending (state_at vq d) = true) →
  note_ok (end_drain vq d).2.
Proof.
  intros [H1 H2 H3 H4] Hp Ho.
  assert (Hin : ∀ v x, (v, x) ∈ vd_drains (end_drain vq d).2 ↔ v ≠ vq ∧ (v, x) ∈ vd_drains d).
  { intros v x. change (vd_drains (end_drain vq d).2) with (filter (fun p : Z * waiting => p.1 ≠ vq) (vd_drains d)).
    by rewrite list_elem_of_filter. }
  assert (Hq : ∀ v, state_at v (end_drain vq d).2 =
    if decide (vq = v) then state_at vq d <| qs_notifying := false |> else state_at v d) by (intros; by apply state_at_insert).
  split; try done.
  - intros v [Hne Hv]%Hin. by eapply H2.
  - intros v Hs Hc Hv. rewrite Hq. case_decide as E; [subst v; by apply Ho|by apply H3].
  - intros v Hc. rewrite Hq. case_decide as E; [subst v; cbn|by apply H4].
    intros Hpe [r Hr]. by rewrite Hp in Hr.
Qed.
Lemma drain_next_note vq d :
  note_ok d → vd_context d = true → note_ok (drain_next vq d).2.
Proof.
  intros Hok Hc. pose proof (note_ok_but vq _ Hok Hc) as Hb. unfold drain_next. erewrite M_bind_done by done.
  destruct (qs_pending (state_at vq d)) eqn:Ep, (qs_queue (state_at vq d)) as [r|] eqn:Eq.
  - by apply drain_round_note.
  - by apply end_drain_note.
  - apply end_drain_note; [done|by rewrite Ep|]. intros. by apply (nt_owes _ Hok).
  - apply end_drain_note; [done|by rewrite Ep|]. intros. by apply (nt_owes _ Hok).
Qed.
Lemma resume_drain_note vq w d : note_ok d → (vq, w) ∈ vd_drains d → note_ok (resume_drain vq w d).2.
Proof.
  intros Hok Hin. assert (Hc : vd_context d = true) by (by eapply (nt_context _ Hok)).
  destruct w as [[t|]|]; cbn [resume_drain].
  - erewrite M_bind_done by done. destruct (vd_tasks d !! t) as [[w [o|]]|] eqn:Et; [|done..].
    destruct o as [e|]; cbn [fmap option_fmap option_map tk_settled]; [|by apply drain_next_note].
    erewrite M_bind_done by (by apply report_done). apply set_drain_reported. by apply note_ok_but.
  - by apply drain_next_note.
  - pose proof (nt_finally _ Hok _ Hin) as Hcl. apply end_drain_note; [by apply note_ok_but|congruence..].
Qed.
(** What [drain] finds: only that [vq] is drained may be missing. *)
Record note_pre (vq : Z) (d : virtio) : Prop := {
  np_context : vd_context d = true;
  np_finally : ∀ v, (v, Finally) ∈ vd_drains d → clean (vd_log d) = false;
  np_owes : ∀ v, vd_stopped d = false → clean (vd_log d) = true → owes v (vd_log d) = true →
    qs_pending (state_at v d) = true;
  np_pending : ∀ v, v ≠ vq → clean (vd_log d) = true → qs_pending (state_at v d) = true →
    is_Some (qs_queue (state_at v d)) → qs_notifying (state_at v d) = true }.
Lemma drain_note vq d : note_pre vq d → note_ok (drain vq d).2.
Proof.
  intros [H1 H2 H3 H4]. unfold drain. erewrite M_bind_done by done.
  destruct (qs_notifying (state_at vq d)) eqn:En; [|destruct (qs_queue (state_at vq d)) as [r|] eqn:Eq].
  - split; try done. intros v. destruct (decide (v = vq)) as [->|Hne]; [done|by apply H4].
  - do 2 erewrite M_bind_done by done. apply drain_round_note. match goal with |- note_but _ ?x => set (d' := x) end.
    assert (Hq : ∀ v, state_at v d' = if decide (vq = v) then state_at vq d <| qs_notifying := true |> else state_at v d)
      by (intros; by apply state_at_insert).
    split; try done.
    + intros v Hne Hv. change (vd_drains d') with (vd_drains d ++ [(vq, Finally)]) in Hv.
      apply elem_of_app in Hv as [Hv|Hv]; [by apply (H2 v)|]. by apply list_elem_of_singleton in Hv as [= ->].
    + intros v Hne Hs Hc Hv. rewrite Hq. case_decide; [done|by apply H3].
    + intros v Hc. rewrite Hq. case_decide as E; [done|by apply H4].
  - split; try done. intros v. destruct (decide (v = vq)) as [->|Hne]; [|by apply H4]. intros _ _ [r Hr]. cbn in Hr. congruence.
Qed.
Lemma enable_queue_note vq size a irq d : note_ok d → vd_context d = true → note_ok (enable_queue vq size a irq d).2.
Proof.
  intros Hok Hc. unfold enable_queue. erewrite M_bind_done by done. set (d1 := invalidate_at vq d).
  assert (Hs : same_note d d1) by (unfold d1, invalidate_at; destruct (qs_queue _); [by apply (note_modify (set_ring _ _))|done]).
  apply (note_ok_same _ _ Hs) in Hok. apply (sn_context _ _ Hs) in Hc. clearbody d1. clear d Hs. erewrite M_bind_done by done.
  destruct (packed_virtqueue _ _ _ _) as [q|x|]; [|by erewrite M_bind_raise|by erewrite M_bind_loops].
  do 3 erewrite M_bind_done by done.
  match goal with |- context [qs_pending (state_at vq ?x)] => set (d2 := x) end.
  assert (Hq : ∀ v, state_at v d2 = if decide (vq = v) then QueueState (Some (length (vd_rings d1)))
      (qs_pending (state_at vq d1)) (qs_notifying (state_at vq d1)) else state_at v d1) by (intros; by apply state_at_insert).
  assert (Hpre : note_pre vq d2).
  { destruct Hok as [H1 H2 H3 H4]. split; try done.
    - intros v Hst Hcl Hv. rewrite Hq. case_decide; [subst v; by apply H3|by apply H3].
    - intros v Hne. rewrite Hq. case_decide; [congruence|by apply H4]. }
  destruct (qs_pending (state_at vq d2)) eqn:Ep; [by apply drain_note|].
  destruct Hpre as [H1 H2 H3 H4]. split; try done.
  intros v. destruct (decide (v = vq)) as [->|Hne]; [|by apply H4]. intros _ Hpe. change (qs_pending (state_at vq d2) = true) in Hpe. congruence.
Qed.
Lemma notify_note vq d : note_ok d → vd_context d = true → note_ok (notify vq d).2.
Proof.
  intros [H1 H2 H3 H4] Hc. unfold notify. do 2 erewrite M_bind_done by done. apply drain_note.
  match goal with |- note_pre _ ?x => set (d' := x) end.
  assert (Hq : ∀ v, state_at v d' = if decide (vq = v) then QueueState (qs_queue (state_at vq d)) true
      (qs_notifying (state_at vq d)) else state_at v d) by (intros; by apply state_at_insert).
  assert (El : vd_log d' = vd_log d ++ [Notified vq]) by done.
  assert (Ec : clean (vd_log d') = clean (vd_log d)) by (rewrite El, clean_app; cbn; by rewrite andb_true_r).
  split; rewrite ?Ec; try done.
  - intros v Hs Hcl. rewrite El, owes_snoc, Hq. cbn. case_decide as E; [done|].
    rewrite (proj2 (Z.eqb_neq vq v)) by done. cbn. by apply H3.
  - intros v Hne. rewrite Hq. case_decide; [congruence|by apply H4].
Qed.
Lemma drop_queue_note vq : preserves note_ok (drop_queue vq).
Proof.
  intros d Hok. unfold drop_queue. erewrite M_bind_done by done. set (d1 := invalidate_at vq d).
  assert (Hs : same_note d d1) by (unfold d1, invalidate_at; destruct (qs_queue _); [by apply (note_modify (set_ring _ _))|done]).
  apply (note_ok_same _ _ Hs) in Hok. clearbody d1. clear d Hs. erewrite M_bind_done by done.
  match goal with |- note_ok ?x => set (d' := x) end. destruct Hok as [H1 H2 H3 H4].
  assert (Hq : ∀ v, state_at v d' = if decide (vq = v) then QueueState None false
      (qs_notifying (state_at vq d1)) else state_at v d1) by (intros; by apply state_at_insert).
  assert (El : vd_log d' = vd_log d1 ++ [Dropped vq]) by done.
  assert (Ec : clean (vd_log d') = clean (vd_log d1)) by (rewrite El, clean_app; cbn; by rewrite andb_true_r).
  split; rewrite ?Ec; try done.
  - intros v Hs Hcl. rewrite El, owes_snoc, Hq. cbn. case_decide as E; [subst v; by rewrite Z.eqb_refl|].
    rewrite (proj2 (Z.eqb_neq vq v)) by done. cbn. by apply H3.
  - intros v. rewrite Hq. case_decide; [done|by apply H4].
Qed.
Lemma drop_queues_note l : preserves note_ok (drop_queues l).
Proof. induction l; cbn [drop_queues]; [apply preserves_ret|]. apply preserves_bind; [apply drop_queue_note|by intros _]. Qed.
Lemma reset_note : preserves note_ok reset.
Proof.
  unfold reset. apply preserves_bind; [apply preserves_get|]. intros d.
  apply preserves_bind; [apply drop_queues_note|]. intros _. apply preserves_note. unfold finish_reset. note.
Qed.

Lemma step_note e : preserves note_ok (step e).
Proof.
  intros d Hok. unfold step. erewrite M_bind_done by done.
  destruct e as [|features|irq a n|vq size a irq|vq|vq| |config| |r hook k|stop|o|t o|t| |i| |k| |memory].
  - destruct (vd_context d) eqn:Ec; [done|]. apply (preserves_note attach); [|done]. unfold attach, assert_m.
    stays_with ltac:(apply stays_modify; intros; by split).
  - apply (preserves_note (set_features features)); [|done]. unfold set_features, assert_m. note.
  - destruct (vd_context d); [|done]. by apply (preserves_note _ (note_setup irq a n)).
  - destruct (vd_context d) eqn:Ec; [|done]. by apply enable_queue_note.
  - unfold disable_queue. erewrite M_bind_done by done. destruct (_ !! vq); [|done]. by apply drop_queue_note.
  - destruct (vd_context d) eqn:Ec; [|done]. by apply notify_note.
  - destruct (vd_context d); [|done]. by apply reset_note.
  - apply preserves_bind; [apply preserves_note; note|intros _; apply preserves_note, note_update_config|done].
  - apply preserves_bind; [apply preserves_note, note_add_active|intros; apply preserves_ret|done].
  - by apply (preserves_note _ (note_use_ring r hook k)).
  - by apply (preserves_note _ (note_shutdown stop)).
  - by apply (preserves_note _ (note_settle_close o)).
  - apply (preserves_note (settle t o)); [unfold settle; note|done].
  - by apply (preserves_note _ (note_leave t)).
  - by apply (preserves_note _ note_report_next).
  - destruct (vd_drains d !! i) as [[vq w]|] eqn:E; [|done]. apply resume_drain_note; [done|]. by eapply list_elem_of_lookup_2.
  - by apply (preserves_note _ note_resume_shutdown).
  - by apply (preserves_note _ (note_resume_reset k)).
  - by apply (preserves_note _ note_microtask).
  - apply (note_ok_same d); [by apply (note_modify (fun d => d <| vd_memory := memory |>))|done].
Qed.
Lemma note_ok_new queues features views remote config : note_ok (virtio_new queues features views remote config).
Proof. split; try done; by intros ? ?%not_elem_of_nil. Qed.

(** C15: while the device runs and nothing has failed, no notification is lost:
    once no [drain] of an enabled queue is under way, every notification of it
    has been followed by a kick, started after it (or the queue was dropped
    since). *)
Theorem device_no_lost_notification queues features views remote config es vq :
  let d := run es (virtio_new queues features views remote config) in
  vd_stopped d = false → clean (vd_log d) = true → is_Some (qs_queue (state_at vq d)) →
  vq ∉ (vd_drains d).*1 → owes vq (vd_log d) = false.
Proof.
  intros d Hs Hc Hq Hout. apply not_true_is_false. intros Ho. apply Hout.
  assert (Hn : note_ok d) by (apply run_preserves; [exact step_note|apply note_ok_new]).
  assert (Hw : work_ok d) by (apply run_preserves; [exact step_work|apply work_ok_new]).
  apply (wo_notifying _ Hw), (nt_pending _ Hn); [done|by apply (nt_owes _ Hn)|done].
Qed.

(** * What each part of a step may do

    A relation that a step keeps, from what its primitive changes do to it. *)
Definition ordinary (e : effect) : bool :=
  match e with Kicked _ _ | Published _ _ | PublishedRemotely _ _ | Irq _ | ResetDone _ => false | _ => true end.
Definition still_active (d d' : virtio) : Prop :=
  ∀ t, t ∈ vd_active d → t ∈ vd_active d' ∨ is_settled t d' = true.
#[export] Hint Extern 0 (still_active _ _) => solve [intros ? ?; left; assumption] : core.
(** [close()] has been called, which waits for the active work. *)
Definition close_started (d : virtio) : bool := match vd_closing d with Closing _ | Closed _ => true | _ => false end.
Definition closes_idle (d d' : virtio) : Prop := close_started d' = true → close_started d = true ∨ vd_active d = [].
#[export] Hint Extern 0 (closes_idle _ _) => solve [intros ?; left; assumption] : core.
Record plain_change (d d' : virtio) : Prop := {
  pc_views : vd_views d' = vd_views d;
  pc_active : still_active d d';
  pc_states : vd_states d' = vd_states d;
  pc_rings : vd_rings d' = vd_rings d;
  pc_tasks : vd_tasks d' = vd_tasks d;
  pc_microtasks : vd_microtasks d' = vd_microtasks d;
  pc_resets : vd_resets d' = vd_resets d;
  pc_log : vd_log d' = vd_log d;
  pc_closing : closes_idle d d' }.

Section frame.
Context (R : virtio → virtio → Prop) `{!PreOrder R}.
Context (Hemit : ∀ e, ordinary e = true → stays R (emit e)).
Context (Hplain : ∀ d d', plain_change d d' → R d d').
Context (Hstate : ∀ vq f, (∀ q, qs_queue (f q) = qs_queue q) → stays R (set_state vq f)).
Context (Hwork : ∀ w, stays R (add_active w)).
Context (Hround : ∀ vq r d, qs_queue (state_at vq d) = Some r → R d (drain_round vq r d).2).
Context (Hdrop : ∀ vq, stays R (drop_queue vq)).
Context (Huse : ∀ r hook k, stays R (use_ring r hook k)).
Context (Hmicro : stays R microtask).
Context (Hsettle : ∀ t o, stays R (settle t o)).
Context (Hresume : ∀ k, stays R (resume_reset k)).

Ltac plain := apply stays_modify; intros; by apply Hplain.
Ltac leaf := stays_with ltac:(first [by apply Hemit | plain]).
Ltac leaf_get := apply stays_bind; [typeclasses eauto|apply stays_get; typeclasses eauto|intros d].

Lemma frame_report e : stays R (report e).
Proof using Type*. unfold report. leaf. Qed.
Lemma frame_update_config : stays R update_config.
Proof using Type*.
  unfold update_config, set_target, raise. leaf_get. apply stays_if; [leaf|].
  destruct (vd_attached d) as [[irq a]|]; leaf.
Qed.
Lemma frame_setup irq a n : stays R (setup irq a n).
Proof using Type*.
  unfold setup, set_target, assert_m. stays_with ltac:(first [apply frame_update_config | by apply Hemit | plain]).
Qed.
Lemma frame_leave t : stays R (leave t).
Proof using Type*.
  unfold leave. intros d. erewrite M_bind_done by done. destruct (vd_tasks d !! t) as [[w [o|]]|] eqn:Et; [|reflexivity..].
  destruct (decide _); [|reflexivity]. erewrite M_bind_done by done. set (d1 := d <| vd_active := _ |>).
  assert (Hd : R d d1).
  { apply Hplain. split; try done. intros u Hu. destruct (decide (u = t)) as [->|Hne]; [right|left; by apply list_elem_of_filter].
    unfold is_settled, settled. change (vd_tasks d1) with (vd_tasks d). by rewrite Et. }
  etrans; [exact Hd|]. generalize d1. destruct w, o; leaf.
Qed.
Lemma frame_report_next : stays R report_next.
Proof using Type*.
  unfold report_next. leaf_get. destruct (vd_reports d); [leaf|]. apply stays_bind; [typeclasses eauto|leaf|intros; apply frame_report].
Qed.
Lemma frame_settle_active f : stays R (settle_active f).
Proof using Type*.
  unfold settle_active. intros d. erewrite M_bind_done by done. destruct (vd_active d) as [|t active] eqn:Ea.
  - etrans; [|by apply Hemit]. apply Hplain. split; try done. intros _. by right.
  - apply Hplain. by split.
Qed.
Lemma frame_shutdown stop : stays R (shutdown stop).
Proof using Type*. unfold shutdown. stays_with ltac:(first [apply frame_settle_active | by apply Hemit | plain]). Qed.
Lemma frame_resume_shutdown : stays R resume_shutdown.
Proof using Type*.
  unfold resume_shutdown. leaf_get. destruct (vd_closing d); [leaf| |leaf..]. apply stays_if; [apply frame_settle_active|leaf].
Qed.
Lemma frame_settle_close o : stays R (settle_close o).
Proof using Type*.
  apply stays_modify. intros d. destruct (vd_closing d) eqn:E; apply Hplain; split; try done. intros _. left. unfold close_started. by rewrite E.
Qed.
Lemma frame_end_drain vq : stays R (end_drain vq).
Proof using PreOrder0 Hplain Hstate Hround. unfold end_drain. apply stays_bind; [typeclasses eauto|by apply Hstate|]. intros _. plain. Qed.
Lemma frame_set_drain vq w : stays R (set_drain vq w).
Proof using Type*. unfold set_drain. plain. Qed.
Lemma frame_drain_next vq : stays R (drain_next vq).
Proof using PreOrder0 Hplain Hstate Hround.
  intros d. unfold drain_next. erewrite M_bind_done by done.
  destruct (qs_pending (state_at vq d)), (qs_queue (state_at vq d)) as [r|] eqn:Eq; try apply frame_end_drain. by apply Hround.
Qed.
Lemma frame_drain vq : stays R (drain vq).
Proof using PreOrder0 Hplain Hstate Hround.
  intros d. unfold drain. erewrite M_bind_done by done. destruct (qs_notifying _); [reflexivity|].
  destruct (qs_queue (state_at vq d)) as [r|] eqn:Eq; [|reflexivity]. do 2 erewrite M_bind_done by done.
  etrans; [by apply (Hstate vq (fun q => q <| qs_notifying := true |>))|].
  set (d1 := (set_state vq _ d).2). set (d2 := d1 <| vd_drains := vd_drains d1 ++ [(vq, Finally)] |>). etrans; [by apply (Hplain d1 d2)|].
  apply Hround. change (qs_queue (state_at vq d2) = Some r). rewrite (state_at_insert vq vq (state_at vq d <| qs_notifying := true |>) d d2) by done.
  by rewrite decide_True.
Qed.
Lemma frame_resume_drain vq w : stays R (resume_drain vq w).
Proof using Type*.
  destruct w as [[t|]|]; cbn [resume_drain]; [|apply frame_drain_next|apply frame_end_drain].
  intros d. erewrite M_bind_done by done. destruct (tk_settled <$> vd_tasks d !! t) as [[[e|]|]|]; try reflexivity.
  - apply stays_bind; [typeclasses eauto|apply frame_report|]. intros _. apply frame_set_drain.
  - apply frame_drain_next.
Qed.

Lemma frame_enable vq size a irq :
  (∀ vq, stays R (modify (invalidate_at vq))) → (∀ vq irq q, stays R (add_ring vq irq q)) →
  stays R (enable_queue vq size a irq).
Proof using PreOrder0 Hplain Hstate Hround.
  intros Hinvalid Hadd. unfold enable_queue. stays_with ltac:(first [apply Hinvalid | apply Hadd | apply frame_drain | by intros ?]).
Qed.
Lemma step_frame e :
  match e with EnableQueue vq size a irq => stays R (enable_queue vq size a irq) | Reset => stays R reset | _ => True end →
  stays R (step e).
Proof using Type*.
  intros Hother.
  unfold step. leaf_get.
  destruct e as [|features|irq a n|vq size a irq|vq|vq| |config| |r hook k|stop|o|t o|t| |i| |k| |memory].
  - unfold attach, assert_m. leaf.
  - unfold set_features, assert_m. leaf.
  - apply stays_if; [apply frame_setup|leaf].
  - apply stays_if; [exact Hother|leaf].
  - unfold disable_queue; apply stays_bind; [typeclasses eauto|apply stays_get; typeclasses eauto|intros d1]. destruct (_ !! vq); [apply Hdrop|leaf].
  - apply stays_if; [|leaf]. unfold notify. apply stays_bind; [typeclasses eauto|by apply Hstate|]. intros _.
    apply stays_bind; [typeclasses eauto|by apply Hemit|]. intros _. apply frame_drain.
  - apply stays_if; [exact Hother|leaf].
  - apply stays_bind; [typeclasses eauto|leaf|intros; apply frame_update_config].
  - apply stays_bind; [typeclasses eauto|apply Hwork|intros; leaf].
  - apply Huse.
  - apply frame_shutdown.
  - apply frame_settle_close.
  - apply Hsettle.
  - apply frame_leave.
  - apply frame_report_next.
  - destruct (vd_drains d !! i) as [[vq w]|]; [apply frame_resume_drain|leaf].
  - apply frame_resume_shutdown.
  - apply Hresume.
  - exact Hmicro.
  - leaf.
Qed.
End frame.

(** * Interrupts *)

(** The ring [r] published a completion after its last interrupt. *)
Definition due_after (r : nat) (b : bool) (e : effect) : bool :=
  match e with
  | Published u _ => bool_decide (u = r) || b
  | Irq u => negb (bool_decide (u = r)) && b
  | _ => b
  end.
Definition due (r : nat) (l : list effect) : bool := foldl (due_after r) false l.
Definition irqs_due (l : list effect) : Prop := ∀ l1 r l2, l = l1 ++ Irq r :: l2 → due r l1 = true.
Lemma due_snoc r l e : due r (l ++ [e]) = due_after r (due r l) e.
Proof. unfold due. by rewrite foldl_app. Qed.
Lemma irqs_due_snoc l e : irqs_due l → (∀ r, e = Irq r → due r l = true) → irqs_due (l ++ [e]).
Proof.
  intros Hl He l1 r l2 E. destruct l2 as [|x l2 _] using rev_ind.
  - apply app_inj_tail in E as [-> ->]. by apply He.
  - change (l1 ++ Irq r :: l2 ++ [x]) with (l1 ++ (Irq r :: l2) ++ [x]) in E. rewrite app_assoc in E.
    apply app_inj_tail in E as [-> _]. by eapply Hl.
Qed.

Record ring_ok (d : virtio) : Prop := {
  rk_queue : ∀ vq r, qs_queue (state_at vq d) = Some r → ∃ rg, vd_rings d !! r = Some rg ∧ rg_vq rg = vq;
  rk_armed : ∀ r, r ∈ vd_microtasks d ↔ rg_armed <$> vd_rings d !! r = Some true;
  rk_once : NoDup (vd_microtasks d);
  rk_due : ∀ vq r, due r (vd_log d) = true → qs_queue (state_at vq d) = Some r → r ∈ vd_microtasks d;
  rk_known : ∀ r, due r (vd_log d) = true → (r < length (vd_rings d))%nat;
  rk_pending : ∀ r, r ∈ vd_microtasks d → due r (vd_log d) = true;
  rk_irqs : irqs_due (vd_log d) }.
Definition ring_step (d d' : virtio) : Prop := ring_ok d → ring_ok d'.
#[export] Instance ring_step_preorder : PreOrder ring_step.
Proof. split; [by intros d H|]. intros a b c Hab Hbc H. by apply Hbc, Hab. Qed.

Definition same_ring (rg rg' : ring) : Prop := rg_vq rg' = rg_vq rg ∧ rg_armed rg' = rg_armed rg.
(** The rings, the microtasks and the queues stay, the interrupts due too. *)
Lemma ring_ok_same d d' :
  Forall2 same_ring (vd_rings d) (vd_rings d') → vd_microtasks d' = vd_microtasks d →
  (∀ vq r, qs_queue (state_at vq d') = Some r → qs_queue (state_at vq d) = Some r) →
  (∀ r, due r (vd_log d') = due r (vd_log d)) → (irqs_due (vd_log d) → irqs_due (vd_log d')) → ring_step d d'.
Proof.
  intros Hr Em Hq Hd Hi [H1 H2 H3 H4 H5 H6 H7].
  assert (Ha : ∀ r, rg_armed <$> vd_rings d' !! r = rg_armed <$> vd_rings d !! r).
  { intros r. pose proof (proj1 (Forall2_lookup _ _ _) Hr r) as Hl. by inversion Hl as [? ? [_ E]|]; cbn; rewrite ?E. }
  split; rewrite ?Em; try done.
  - intros vq r E%Hq. destruct (H1 _ _ E) as (rg&Hrg&Hvq).
    destruct (Forall2_lookup_l _ _ _ _ _ Hr Hrg) as (rg'&Hrg'&[E' _]). exists rg'. split; [done|congruence].
  - intros r. by rewrite Ha.
  - intros vq r. rewrite Hd. intros Hdue E%Hq. by eapply H4.
  - intros r. rewrite Hd, <- (Forall2_length _ _ _ Hr). apply H5.
  - intros r. rewrite Hd. apply H6.
  - by apply Hi.
Qed.
Lemma same_rings_refl l : Forall2 same_ring l l.
Proof. by apply Forall_Forall2_diag, Forall_true. Qed.
Lemma same_rings_alter l r f : (∀ rg, same_ring rg (f rg)) → Forall2 same_ring l (alter f r l).
Proof.
  intros Hf. apply Forall2_same_length_lookup. split; [by rewrite length_alter|]. intros i x y Hx.
  destruct (decide (r = i)) as [->|Hne].
  - rewrite list_lookup_alter_eq, Hx. intros [= <-]. apply Hf.
  - rewrite list_lookup_alter_ne by done. intros Hy. by replace y with x by congruence.
Qed.
Lemma ring_emit e : match e with Published _ _ | Irq _ => false | _ => true end = true → stays ring_step (emit e).
Proof.
  intros He d. apply ring_ok_same; try done; [apply same_rings_refl|..];
    change (vd_log (emit e d).2) with (vd_log d ++ [e]).
  - intros r. rewrite due_snoc. by destruct e.
  - intros Hi. apply irqs_due_snoc; [done|]. by intros r ->.
Qed.
Lemma ring_plain d d' : plain_change d d' → ring_step d d'.
Proof.
  intros [_ _ E1 E2 _ E4 _ E6]. apply ring_ok_same; rewrite ?E2, ?E4, ?E6; try done; [apply same_rings_refl|].
  intros vq r. by rewrite (state_at_same vq d).
Qed.
Lemma ring_state vq f : (∀ q r, qs_queue (f q) = Some r → qs_queue q = Some r) → stays ring_step (set_state vq f).
Proof.
  intros Hf d. apply ring_ok_same; try done; [apply same_rings_refl|].
  intros v r. erewrite (state_at_insert vq v) by done. case_decide as E; [subst|done]. apply Hf.
Qed.
Lemma ring_set_ring r f d : (∀ rg, same_ring rg (f rg)) → ring_step d (set_ring r f d).
Proof. intros Hf. apply ring_ok_same; try done. by apply same_rings_alter. Qed.
Lemma ring_invalidate vq d : ring_step d (invalidate_at vq d).
Proof. unfold invalidate_at. destruct (qs_queue _); [by apply ring_set_ring|done]. Qed.
Lemma ring_drop vq : stays ring_step (drop_queue vq).
Proof.
  unfold drop_queue. apply stays_bind; [typeclasses eauto|apply stays_modify; intros; apply ring_invalidate|]. intros _.
  apply stays_bind; [typeclasses eauto|by apply ring_state|]. intros _. by apply ring_emit.
Qed.
Lemma ring_add vq irq q : stays ring_step (add_ring vq irq q).
Proof.
  intros d [H1 H2 H3 H4 H5 H6 H7]. set (d' := (add_ring vq irq q d).2).
  assert (Er : vd_rings d' = vd_rings d ++ [Ring vq irq q false]) by done.
  assert (Hq : ∀ v, state_at v d' = if decide (vq = v) then state_at vq d <| qs_queue := Some (length (vd_rings d)) |>
    else state_at v d) by (intros; by apply state_at_insert).
  split; rewrite ?Er; try done.
  - intros v r. rewrite Hq. case_decide as E.
    + subst v. cbn. intros [= <-]. eexists. by rewrite list_lookup_middle.
    + intros Hr. destruct (H1 _ _ Hr) as (rg&Hrg&?). exists rg. split; [by apply lookup_app_l_Some|done].
  - intros r. change (vd_microtasks d') with (vd_microtasks d). rewrite H2. split.
    + intros H. destruct (vd_rings d !! r) as [rg|] eqn:E; [|done]. by rewrite (lookup_app_l_Some _ _ _ _ E).
    + destruct ((vd_rings d ++ _) !! r) as [rg|] eqn:E; [|done].
      apply lookup_app_Some in E as [E|[_ E]]; [by rewrite E|]. by apply list_lookup_singleton_Some in E as [_ <-].
  - intros v r Hd. rewrite Hq. case_decide as E; [|by apply H4]. cbn. intros [= <-]. apply H5 in Hd. lia.
  - intros r Hd. rewrite length_app. apply H5 in Hd. lia.
Qed.
Lemma ring_work w : stays ring_step (add_active w).
Proof. intros d. apply ring_ok_same; try done. apply same_rings_refl. Qed.
Lemma ring_settle t o : stays ring_step (settle t o).
Proof. intros d. apply ring_ok_same; try done. apply same_rings_refl. Qed.
Lemma ring_drops l : stays ring_step (drop_queues l).
Proof. induction l; cbn [drop_queues]; [apply stays_ret; typeclasses eauto|]. apply stays_bind; [typeclasses eauto|apply ring_drop|by intros _]. Qed.
Lemma ring_resets (f : virtio → virtio) :
  (∀ d, vd_rings (f d) = vd_rings d ∧ vd_microtasks (f d) = vd_microtasks d ∧ vd_states (f d) = vd_states d ∧
    vd_log (f d) = vd_log d) → stays ring_step (modify f).
Proof.
  intros Hf d. destruct (Hf d) as (E1&E2&E3&E4). apply ring_ok_same; cbn; rewrite ?E1, ?E2, ?E4; try done; [apply same_rings_refl|].
  intros vq r. by rewrite (state_at_same vq d).
Qed.
Lemma ring_reset : stays ring_step reset.
Proof.
  unfold reset, finish_reset. stays_with ltac:(first [by apply ring_emit | apply ring_drops | by apply ring_resets]).
Qed.
Lemma ring_resume_reset k : stays ring_step (resume_reset k).
Proof.
  unfold resume_reset, finish_reset. apply stays_bind; [typeclasses eauto|apply stays_get; typeclasses eauto|intros d].
  destruct (vd_resets d !! k) as [[seen []]|]; stays_with ltac:(first [by apply ring_emit | by apply ring_resets]).
Qed.

(** A ring that is not current publishes nothing. *)
Lemma run_call_stale k memory q : q_published (run_call k (with_view memory false q)).2 = [].
Proof.
  destruct k; cbn [run_call].
  - unfold next, mbind, M_bind, get_state. cbn [q_valid q_current with_view]. by rewrite andb_false_r.
  - unfold release, mbind, M_bind, get_state. cbn [q_valid q_current with_view]. by rewrite orb_true_r.
Qed.
(** The callback of a current ring, in a local attachment. *)
Lemma alter_lookup (f : ring → ring) (r : nat) (l : list ring) (i : nat) : alter f r l !! i = if decide (i = r) then f <$> l !! i else l !! i.
Proof. case_decide as E; [subst; apply list_lookup_alter_eq|by apply list_lookup_alter_ne]. Qed.
Lemma ring_published r c d d' :
  (r < length (vd_rings d))%nat → vd_log d' = vd_log d ++ [Published r c] → vd_states d' = vd_states d →
  length (vd_rings d') = length (vd_rings d) → (∀ i, rg_vq <$> vd_rings d' !! i = rg_vq <$> vd_rings d !! i) →
  (∀ i, rg_armed <$> vd_rings d' !! i = if decide (i = r) then Some true else rg_armed <$> vd_rings d !! i) →
  (vd_microtasks d' = vd_microtasks d ∧ r ∈ vd_microtasks d ∨
   vd_microtasks d' = vd_microtasks d ++ [r] ∧ r ∉ vd_microtasks d) → ring_ok d → ring_ok d'.
Proof.
  intros Hlt El Es Hlen Hvq Harm Hm [H1 H2 H3 H4 H5 H6 H7].
  assert (Hin : ∀ i, i ∈ vd_microtasks d' ↔ i = r ∨ i ∈ vd_microtasks d).
  { intros i. destruct Hm as [[-> Hr]|[-> Hr]].
    - split; [by right|]. by intros [->|].
    - rewrite elem_of_app, list_elem_of_singleton. tauto. }
  assert (Hd : ∀ i, due i (vd_log d') = (bool_decide (r = i) || due i (vd_log d))%bool) by (intros i; by rewrite El, due_snoc).
  split.
  - intros vq i. rewrite (state_at_same vq d) by done. intros (rg&Hrg&Hv)%H1. specialize (Hvq i). rewrite Hrg in Hvq.
    destruct (vd_rings d' !! i) as [rg'|]; [|done]. exists rg'. split; [done|]. cbn in Hvq. congruence.
  - intros i. rewrite Hin, Harm, H2. case_decide; [|tauto]. by split; [|left].
  - destruct Hm as [[-> _]|[-> Hr]]; [done|]. apply NoDup_app. split_and!; [done| |apply NoDup_singleton].
    by intros i Hi ->%list_elem_of_singleton.
  - intros vq i. rewrite Hd, Hin, (state_at_same vq d) by done. intros [->%bool_decide_eq_true|Hi]%orb_true_iff Hq; [by left|].
    right. by eapply H4.
  - intros i. rewrite Hd, Hlen. intros [<-%bool_decide_eq_true|Hi]%orb_true_iff; [done|by apply H5].
  - intros i Hi. rewrite Hd. apply Hin in Hi as [->|Hi]; [by rewrite bool_decide_true|]. by rewrite (H6 _ Hi), orb_true_r.
  - rewrite El. by apply irqs_due_snoc.
Qed.
Lemma ring_completed r rg c d :
  rg_armed <$> vd_rings d !! r = Some (rg_armed rg) → ring_step d (completed r rg c d).2.
Proof.
  intros Hr Hok. assert (Hlt : (r < length (vd_rings d))%nat) by (destruct (vd_rings d !! r) eqn:E; [by eapply lookup_lt_Some|done]).
  unfold completed. erewrite M_bind_done by done.
  destruct (vd_remote d); [by apply (ring_emit (PublishedRemotely r c))|].
  destruct (publish_virtqueue_completion _ _) as [memory|x|]; [|by erewrite M_bind_raise|by erewrite M_bind_loops].
  do 4 erewrite M_bind_done by done.
  set (d1 := d <| vd_memory := memory |> <| vd_log := _ |>). change (vd_rings d1) with (vd_rings d).
  pose proof (rk_armed _ Hok r) as Hm.
  destruct (vd_rings d !! r) as [rg'|] eqn:Erg; [|done]. cbn in Hr, Hm |- *. injection Hr as Hr.
  destruct (rg_armed rg') eqn:Ea.
  - apply (ring_published r c d); try done.
    + intros i. case_decide as E; [subst i; cbn; by rewrite Erg; cbn; rewrite Ea|done].
    + left. split; [done|]. by apply Hm.
  - match goal with |- ring_ok ?x => set (d' := x) end.
    assert (Hl : ∀ i, vd_rings d' !! i = if decide (i = r) then (fun rg => rg <| rg_armed := true |>) <$> vd_rings d !! i
      else vd_rings d !! i) by (intros; by apply alter_lookup).
    apply (ring_published r c d); try done.
    + apply length_alter.
    + intros i. rewrite Hl. case_decide as E; [|done]. subst i. by rewrite Erg.
    + intros i. rewrite Hl. case_decide as E; [|done]. subst i. by rewrite Erg.
    + right. split; [done|]. rewrite Hm. by intros [=].
Qed.
Lemma ring_use r hook k : stays ring_step (use_ring r hook k).
Proof.
  intros d Hok. unfold use_ring. erewrite M_bind_done by done. destruct (vd_rings d !! r) as [rg|] eqn:Er; [|done].
  destruct (run_call _ _) as [o q]. erewrite M_bind_done by done.
  set (d1 := set_ring r _ d). assert (Hok1 : ring_ok d1) by (by apply (ring_set_ring r)).
  destruct o as [[]|x|]; [|by erewrite M_bind_raise|by erewrite M_bind_loops]. erewrite M_bind_done by done.
  destruct (q_published q) as [|c l]; [done|]. apply ring_completed; [|done].
  change (vd_rings d1) with (alter (fun rg => rg <| rg_queue := q |>) r (vd_rings d)).
  by rewrite alter_lookup, decide_True, Er.
Qed.
Lemma ring_microtask : stays ring_step microtask.
Proof.
  intros d Hok. unfold microtask. erewrite M_bind_done by done. destruct (vd_microtasks d) as [|r rest] eqn:Em; [done|].
  do 2 erewrite M_bind_done by done. set (d1 := set_ring r _ _).
  destruct Hok as [H1 H2 H3 H4 H5 H6 H7]. rewrite Em in *. apply NoDup_cons in H3 as [Hout H3].
  assert (Hl : ∀ i, vd_rings d1 !! i = if decide (i = r) then (fun rg => rg <| rg_armed := false |>) <$> vd_rings d !! i
    else vd_rings d !! i) by (intros; by apply alter_lookup).
  assert (Hr : ∃ rg, vd_rings d !! r = Some rg).
  { assert (H : rg_armed <$> vd_rings d !! r = Some true) by (apply H2; by left). destruct (vd_rings d !! r); [by eexists|done]. }
  destruct Hr as [rg Hrg]. rewrite Hrg.
  assert (Hok1 : ∀ d', vd_rings d' = vd_rings d1 → vd_microtasks d' = rest → vd_states d' = vd_states d →
    (∀ i, due i (vd_log d') = if decide (i = r ∧ qs_queue (state_at (rg_vq rg) d) = Some r) then false else due i (vd_log d)) →
    irqs_due (vd_log d') → ring_ok d').
  { intros d' Er Em' Es Hd Hi.
    split; rewrite ?Er, ?Em'; try done.
    - intros vq i. rewrite (state_at_same vq d) by done. intros (rg0&Hrg0&Hvq)%H1. rewrite Hl.
      destruct (decide (i = r)); [rewrite Hrg0; by eexists|by exists rg0].
    - intros i. rewrite Hl. specialize (H2 i). rewrite elem_of_cons in H2. destruct (decide (i = r)) as [->|E].
      + rewrite Hrg. by split.
      + rewrite <- H2. split; [by right|]. by intros [->|].
    - intros vq i. rewrite Hd, (state_at_same vq d) by done.
      destruct (decide (i = r ∧ qs_queue (state_at (rg_vq rg) d) = Some r)) as [_|E]; [done|]. intros Hi' Hq.
      pose proof (H4 _ _ Hi' Hq) as [->|]%elem_of_cons; [|done]. destruct E. split; [done|].
      destruct (H1 _ _ Hq) as (rg0&Hrg0&?). congruence.
    - intros i. rewrite Hd. unfold d1, set_ring. cbn. rewrite length_alter.
      destruct (decide (i = r ∧ qs_queue (state_at (rg_vq rg) d) = Some r)) as [_|E]; [done|apply H5].
    - intros i Hi'. rewrite Hd. rewrite decide_False by (by intros [-> _]). apply H6. by right. }
  destruct (decide (qs_queue (state_at (rg_vq rg) d) = Some r)) as [Hq|Hq].
  - rewrite bool_decide_true by done. apply Hok1; try done; change (vd_log (emit (Irq r) d1).2) with (vd_log d ++ [Irq r]).
    + intros i. rewrite due_snoc. cbn. destruct (decide (i = r)) as [->|Hne].
      * rewrite decide_True by done. by rewrite bool_decide_true.
      * rewrite decide_False by tauto. by rewrite bool_decide_false.
    + apply irqs_due_snoc; [done|]. intros u [= <-]. apply H6. by left.
  - rewrite bool_decide_false by done. apply Hok1; try done. intros i. by rewrite decide_False by tauto.
Qed.

Section round.
Context (R : virtio → virtio → Prop) `{!PreOrder R} (vq : Z) (r : nat).
Context (Hemit : ∀ e, ordinary e = true → stays R (emit e)).
Context (Hplain : ∀ d d', plain_change d d' → R d d').
Context (Hstate : ∀ f, (∀ q, qs_queue (f q) = qs_queue q) → stays R (set_state vq f)).
Context (Hwork : ∀ w, stays R (add_active w)) (Hkick : stays R (emit (Kicked vq r))).
Lemma frame_round : stays R (drain_round vq r).
Proof using Type*.
  assert (Hset : ∀ w, stays R (set_drain vq w)) by (intros w; apply stays_modify; intros; by apply Hplain).
  assert (H : stays R (set_state vq (fun q => q <| qs_pending := false |>) ;; dispatch vq r)).
  { apply stays_bind; [done|by apply Hstate|]. intros _. unfold dispatch, assert_m.
    stays_with ltac:(first [apply Hwork | exact Hkick]). }
  intros d. specialize (H d). unfold drain_round.
  destruct ((set_state vq (fun q => q <| qs_pending := false |>) ;; dispatch vq r) d) as [[t|e|] d1]; [| |done].
  - etrans; [exact H|apply Hset].
  - etrans; [exact H|]. apply stays_bind; [done|unfold report; stays_with ltac:(by apply Hemit)|]. intros _. apply Hset.
Qed.
End round.

Lemma step_ring e : stays ring_step (step e).
Proof.
  assert (Hemit : ∀ e, ordinary e = true → stays ring_step (emit e)) by (intros x Hx; apply ring_emit; by destruct x).
  assert (Hstate : ∀ vq f, (∀ q, qs_queue (f q) = qs_queue q) → stays ring_step (set_state vq f)).
  { intros vq f Hf. apply ring_state. intros q r. by rewrite Hf. }
  assert (Hround : ∀ vq r d, qs_queue (state_at vq d) = Some r → ring_step d (drain_round vq r d).2).
  { intros vq r d _. apply frame_round; auto using ring_plain, ring_work, ring_emit. typeclasses eauto. }
  apply step_frame; auto using ring_plain, ring_work, ring_drop, ring_use, ring_microtask, ring_settle, ring_reset, ring_resume_reset.
  { typeclasses eauto. }
  destruct e; try done; [|apply ring_reset]. apply frame_enable; auto using ring_plain, ring_add; [typeclasses eauto|].
  intros v. apply stays_modify. intros. apply ring_invalidate.
Qed.
Lemma ring_ok_new queues features views remote config : ring_ok (virtio_new queues features views remote config).
Proof.
  split; cbn; try done.
  - intros r. split; [by intros ?%not_elem_of_nil|done].
  - constructor.
  - by intros r ?%not_elem_of_nil.
  - by intros [|? l1] r l2.
Qed.

(** Interrupts and completions, for a device attached on the main thread:
    once no microtask is left, every completion of a current queue has been
    followed by an interrupt of that queue; and every interrupt follows a completion
    published since the one before it. *)
Theorem device_interrupts queues features views remote config es :
  let d := run es (virtio_new queues features views remote config) in
  (vd_microtasks d = [] → ∀ vq r, qs_queue (state_at vq d) = Some r → due r (vd_log d) = false) ∧
  (∀ l1 r l2, vd_log d = l1 ++ Irq r :: l2 → due r l1 = true).
Proof.
  intros d. assert (Hok : ring_ok d) by (apply run_preserves; [exact step_ring|apply ring_ok_new]).
  split; [|apply Hok]. intros Em vq r Hq. apply not_true_is_false. intros Hd.
  pose proof (rk_due _ Hok _ _ Hd Hq) as H. rewrite Em in H. by apply not_elem_of_nil in H.
Qed.

(** * The end of a queue *)

(** A ring that is no queue's, and what the device does with a ring. *)
Definition old (r : nat) (d : virtio) : Prop := (r < length (vd_rings d))%nat ∧ ∀ vq, qs_queue (state_at vq d) ≠ Some r.
Definition uses (r : nat) (e : effect) : bool :=
  match e with
  | Kicked _ u | Published u _ | PublishedRemotely u _ | Irq u => bool_decide (u = r)
  | _ => false
  end.
Definition ring_uses (r : nat) (l : list effect) : list effect := filter (fun e => uses r e = true) l.
Definition keeps_old (r : nat) (d d' : virtio) : Prop :=
  old r d → old r d' ∧ ring_uses r (vd_log d') = ring_uses r (vd_log d).
#[export] Instance keeps_old_preorder r : PreOrder (keeps_old r).
Proof.
  split; [by intros d H|]. intros a b c Hab Hbc H. destruct (Hab H) as [Hb E1]. destruct (Hbc Hb) as [Hc E2].
  split; [done|congruence].
Qed.
Lemma old_same r d d' :
  length (vd_rings d') = length (vd_rings d) → (∀ vq, qs_queue (state_at vq d') = Some r → qs_queue (state_at vq d) = Some r) →
  ring_uses r (vd_log d') = ring_uses r (vd_log d) → keeps_old r d d'.
Proof. intros Hl Hq Hu [Hr Ho]. split; [|done]. split; [by rewrite Hl|]. intros vq H%Hq. by apply (Ho vq). Qed.
Lemma old_emit r e : uses r e = false → stays (keeps_old r) (emit e).
Proof.
  intros He d. apply old_same; [done..|]. unfold ring_uses. cbn. rewrite filter_app, filter_cons, He. by rewrite decide_False, filter_nil, app_nil_r.
Qed.
Lemma old_plain r d d' : plain_change d d' → keeps_old r d d'.
Proof. intros [_ _ E1 E2 _ _ _ E6]. apply old_same; rewrite ?E2, ?E6; try done. intros vq. by rewrite (state_at_same vq d). Qed.
Lemma old_state r vq f : (∀ q u, qs_queue (f q) = Some u → qs_queue q = Some u) → stays (keeps_old r) (set_state vq f).
Proof.
  intros Hf d. apply old_same; [done| |done]. intros v. erewrite (state_at_insert vq v) by done. case_decide as E; [subst; apply Hf|done].
Qed.
Lemma old_ring r u f d : keeps_old r d (set_ring u f d).
Proof. apply old_same; [apply length_alter|done..]. Qed.
Lemma old_invalidate r vq d : keeps_old r d (invalidate_at vq d).
Proof. unfold invalidate_at. destruct (qs_queue _); [apply old_ring|done]. Qed.
Lemma old_drop r vq : stays (keeps_old r) (drop_queue vq).
Proof.
  unfold drop_queue. apply stays_bind; [typeclasses eauto|apply stays_modify; intros; apply old_invalidate|]. intros _.
  apply stays_bind; [typeclasses eauto|by apply old_state|]. intros _. by apply old_emit.
Qed.
Lemma old_drops r l : stays (keeps_old r) (drop_queues l).
Proof. induction l; cbn [drop_queues]; [apply stays_ret; typeclasses eauto|]. apply stays_bind; [typeclasses eauto|apply old_drop|by intros _]. Qed.
Lemma old_add r vq irq q : stays (keeps_old r) (add_ring vq irq q).
Proof.
  intros d [Hr Ho]. split; [|done]. split.
  - change (vd_rings (add_ring vq irq q d).2) with (vd_rings d ++ [Ring vq irq q false]). rewrite length_app. lia.
  - intros v. rewrite (state_at_insert vq v (state_at vq d <| qs_queue := Some (length (vd_rings d)) |>) d) by done.
    case_decide as E; [|apply Ho]. cbn. intros [= E']. lia.
Qed.
Lemma old_resets r (f : virtio → virtio) :
  (∀ d, vd_rings (f d) = vd_rings d ∧ vd_states (f d) = vd_states d ∧ vd_log (f d) = vd_log d) → stays (keeps_old r) (modify f).
Proof.
  intros Hf d. destruct (Hf d) as (E1&E2&E3). apply old_same; cbn; rewrite ?E1, ?E3; try done.
  intros vq. by rewrite (state_at_same vq d).
Qed.
Lemma old_reset r : stays (keeps_old r) reset.
Proof. unfold reset, finish_reset. stays_with ltac:(first [by apply old_emit | apply old_drops | by apply old_resets]). Qed.
Lemma old_resume_reset r k : stays (keeps_old r) (resume_reset k).
Proof.
  unfold resume_reset, finish_reset. apply stays_bind; [typeclasses eauto|apply stays_get; typeclasses eauto|intros d].
  destruct (vd_resets d !! k) as [[seen []]|]; stays_with ltac:(first [by apply old_emit | by apply old_resets]).
Qed.
Lemma old_completed r u rg c : u ≠ r → stays (keeps_old r) (completed u rg c).
Proof.
  intros Hne. assert (He : bool_decide (u = r) = false) by by apply bool_decide_false.
  unfold completed. stays_with ltac:(first [by apply old_emit | apply stays_modify; intros; first [apply old_ring | by apply old_plain]
    | by apply old_resets]).
Qed.
Lemma old_use r u hook k : stays (keeps_old r) (use_ring u hook k).
Proof.
  intros d Hold. unfold use_ring. erewrite M_bind_done by done. destruct (vd_rings d !! u) as [rg|] eqn:Er; [|done].
  destruct (decide (u = r)) as [->|Hne].
  - unfold ring_current. rewrite bool_decide_false by apply Hold. cbn [andb].
    pose proof (run_call_stale k (vd_memory d) (rg_queue rg)) as Hs.
    destruct (run_call _ _) as [o q]. cbn in Hs. rewrite Hs. revert d Hold Er.
    assert (H : stays (keeps_old r) (modify (set_ring r (fun rg => rg <| rg_queue := q |>)) ;; lift o ;; mret tt)).
    { stays_with ltac:(apply stays_modify; intros; apply old_ring). }
    intros d Hold Er. by apply H.
  - destruct (run_call _ _) as [o q]. revert Hold.
    change (keeps_old r d ((modify (set_ring u (fun rg => rg <| rg_queue := q |>)) ;; lift o ;;
      match q_published q with c :: _ => completed u rg c | [] => mret tt end) d).2).
    apply stays_bind; [typeclasses eauto|apply stays_modify; intros; apply old_ring|]. intros _.
    apply stays_bind; [typeclasses eauto|apply stays_lift; typeclasses eauto|]. intros _.
    destruct (q_published q); [apply stays_ret; typeclasses eauto|by apply old_completed].
Qed.
Lemma old_microtask r : stays (keeps_old r) microtask.
Proof.
  intros d Hold. unfold microtask. erewrite M_bind_done by done. destruct (vd_microtasks d) as [|u rest]; [done|].
  do 2 erewrite M_bind_done by done.
  set (d1 := set_ring u _ _). assert (H1 : keeps_old r d d1).
  { etrans; [by apply (old_resets r (fun d => d <| vd_microtasks := rest |>))|apply old_ring]. }
  assert (H2 : keeps_old r d1 (match vd_rings d !! u with
     | Some rg => if bool_decide (qs_queue (state_at (rg_vq rg) d) = Some u) then emit (Irq u) else mret ()
     | None => mret () end d1).2).
  { destruct (vd_rings d !! u) as [rg|]; [|done]. destruct (decide (u = r)) as [->|Hne].
    - rewrite bool_decide_false by apply Hold. done.
    - destruct (bool_decide _); [|done]. apply old_emit. by apply bool_decide_false. }
  destruct (H1 Hold) as [Ha E1]. destruct (H2 Ha) as [Hb E2]. split; [exact Hb|exact (eq_trans E2 E1)].
Qed.
Lemma step_old r e : stays (keeps_old r) (step e).
Proof.
  assert (Hemit : ∀ e, ordinary e = true → stays (keeps_old r) (emit e)) by (intros x Hx; apply old_emit; by destruct x).
  assert (Hstate : ∀ vq f, (∀ q, qs_queue (f q) = qs_queue q) → stays (keeps_old r) (set_state vq f)).
  { intros vq f Hf. apply old_state. intros q u. by rewrite Hf. }
  assert (Hwork : ∀ w, stays (keeps_old r) (add_active w)) by (intros w d; by apply old_same).
  assert (Hround : ∀ vq u d, qs_queue (state_at vq d) = Some u → keeps_old r d (drain_round vq u d).2).
  { intros vq u d Hq Hold. destruct (decide (u = r)) as [->|Hne]; [by destruct (proj2 Hold vq)|]. revert Hold.
    apply frame_round; [typeclasses eauto|exact Hemit|apply old_plain|apply Hstate|exact Hwork|]. apply old_emit. by apply bool_decide_false. }
  apply step_frame; auto using old_plain, old_drop, old_use, old_microtask, old_resume_reset.
  - typeclasses eauto.
  - intros t o d. by apply old_same.
  - destruct e; try done; [|apply old_reset]. apply frame_enable; auto using old_plain, old_add; [typeclasses eauto|].
    intros v. apply stays_modify. intros. apply old_invalidate.
Qed.

(** ** The promises of [reset()] *)
Lemma settled_app t d d' : (∃ l, vd_tasks d' = vd_tasks d ++ l) → is_settled t d = true → is_settled t d' = true.
Proof.
  intros [l E]. unfold is_settled, settled. rewrite E. destruct (vd_tasks d !! t) as [k|] eqn:Et; [|done].
  by rewrite (lookup_app_l_Some _ _ _ _ Et).
Qed.
Record grows (d d' : virtio) : Prop := {
  gr_settled : ∀ t, is_settled t d = true → is_settled t d' = true;
  gr_resets : ∀ k seen b, vd_resets d !! k = Some (seen, b) → ∃ b', vd_resets d' !! k = Some (seen, b') ∧
    (b' = true → b = true ∨ ∀ t, t ∈ seen → is_settled t d' = true) }.
#[export] Instance grows_preorder : PreOrder grows.
Proof.
  split.
  - intros d. split; [done|]. intros k seen b H. exists b. split; [done|by left].
  - intros a b c [Hs Hr] [Hs' Hr']. split; [auto|]. intros k seen x (y&Hy&Hxy)%Hr.
    destruct (Hr' _ _ _ Hy) as (z&Hz&Hyz). exists z. split; [done|]. intros [->|H]%Hyz; [|by right].
    destruct (Hxy eq_refl) as [?|H]; [by left|right; auto].
Qed.
Lemma grows_same d d' : vd_tasks d' = vd_tasks d → vd_resets d' = vd_resets d → grows d d'.
Proof.
  intros E1 E2. split; unfold is_settled, settled; rewrite ?E1, ?E2; [done|]. intros k seen b H. exists b. split; [done|by left].
Qed.
Ltac grow := first [by apply grows_same | apply stays_modify; intros; by apply grows_same].
Lemma grows_drop vq : stays grows (drop_queue vq).
Proof.
  assert (Hi : ∀ d, grows d (invalidate_at vq d)) by (intros d; unfold invalidate_at; destruct (qs_queue _); [by apply grows_same|done]).
  unfold drop_queue. apply stays_bind; [typeclasses eauto|apply stays_modify; intros; apply Hi|]. intros _.
  apply stays_bind; [typeclasses eauto|intros d; grow|]. intros _ d. grow.
Qed.
Lemma grows_drops l : stays grows (drop_queues l).
Proof. induction l; cbn [drop_queues]; [apply stays_ret; typeclasses eauto|]. apply stays_bind; [typeclasses eauto|apply grows_drop|by intros _]. Qed.
Lemma grows_use r hook k : stays grows (use_ring r hook k).
Proof.
  unfold use_ring, completed. apply stays_bind; [typeclasses eauto|apply stays_get; typeclasses eauto|intros d].
  destruct (vd_rings d !! r) as [rg|]; [|apply stays_ret; typeclasses eauto]. destruct (run_call _ _) as [o q].
  apply stays_bind; [typeclasses eauto|grow|]. intros _.
  apply stays_bind; [typeclasses eauto|apply stays_lift; typeclasses eauto|]. intros _.
  destruct (q_published q); stays_with ltac:(first [grow | intros ?; by apply grows_same]).
Qed.
Lemma grows_microtask : stays grows microtask.
Proof.
  unfold microtask. apply stays_bind; [typeclasses eauto|apply stays_get; typeclasses eauto|intros d].
  destruct (vd_microtasks d); [apply stays_ret; typeclasses eauto|].
  destruct (vd_rings d !! _); stays_with ltac:(first [grow | intros ?; by apply grows_same]).
Qed.
Lemma grows_work w : stays grows (add_active w).
Proof.
  intros d. split; [intros t; apply settled_app; by eexists|]. intros k seen b H. exists b. split; [done|by left].
Qed.
Lemma grows_settle t o : stays grows (settle t o).
Proof.
  intros d. split; [|intros k seen b H; exists b; split; [done|by left]].
  intros u. unfold is_settled, settled. cbn. destruct (decide (u = t)) as [->|Hne]; [|by rewrite list_lookup_alter_ne].
  rewrite list_lookup_alter_eq. by destruct (vd_tasks d !! t) as [[w [x|]]|].
Qed.
Lemma grows_finish k d seen :
  vd_resets d !! k = Some (seen, false) → (∀ t, t ∈ seen → is_settled t d = true) → grows d (finish_reset k d).2.
Proof.
  intros Hk Hs. split; [done|]. intros j seen' b Hj.
  change (vd_resets (finish_reset k d).2) with (alter (fun p : list nat * bool => (p.1, true)) k (vd_resets d)).
  destruct (decide (j = k)) as [->|Hne].
  - rewrite list_lookup_alter_eq, Hj. assert (seen' = seen) as -> by congruence. exists true. split; [done|]. intros _. by right.
  - rewrite list_lookup_alter_ne by done. exists b. split; [done|by left].
Qed.
Lemma grows_resume_reset k : stays grows (resume_reset k).
Proof.
  intros d. unfold resume_reset. erewrite M_bind_done by done. destruct (vd_resets d !! k) as [[seen []]|] eqn:E; try done.
  destruct (forallb _ _) eqn:Ef; [|done]. eapply grows_finish; [exact E|]. intros t Ht. apply list_elem_of_In in Ht. exact (proj1 (forallb_forall _ _) Ef t Ht).
Qed.
Lemma grows_push d b : grows d (d <| vd_resets := vd_resets d ++ [(b, false)] |>).
Proof.
  split; [done|]. intros k seen x H. exists x. split; [by apply lookup_app_l_Some|by left].
Qed.
(** What [reset()] leaves: no queue, and a promise that waits for the active work. *)
Lemma drop_queues_spec l d :
  let d' := (drop_queues l d).2 in
  (drop_queues l d).1 = Done tt ∧ vd_active d' = vd_active d ∧ vd_tasks d' = vd_tasks d ∧ vd_resets d' = vd_resets d ∧
  vd_views d' = vd_views d ∧ length (vd_rings d') = length (vd_rings d) ∧ vd_stopped d' = vd_stopped d ∧
  ∀ vq, qs_queue (state_at vq d') = if decide (vq ∈ l) then None else qs_queue (state_at vq d).
Proof.
  revert d. induction l as [|v l IH]; intros d; cbn [drop_queues]; [done|].
  set (d1 := (drop_queue v d).2).
  assert (E : drop_queue v d = (Done tt, d1)) by done.
  assert (Hi : ∀ d, let d' := invalidate_at v d in vd_active d' = vd_active d ∧ vd_tasks d' = vd_tasks d ∧
    vd_resets d' = vd_resets d ∧ vd_views d' = vd_views d ∧ length (vd_rings d') = length (vd_rings d) ∧
    vd_stopped d' = vd_stopped d ∧ vd_states d' = vd_states d).
  { intros x. unfold invalidate_at. destruct (qs_queue _); [|done]. split_and!; try done. apply length_alter. }
  erewrite M_bind_done by exact E. specialize (IH d1). cbn zeta in *.
  destruct (Hi d) as (Ea&Et&Er&Ev&El&Es&Est). destruct IH as (H0&H1&H2&H3&H4&H5&H6&H7).
  split_and!; [exact H0|etrans; [exact H1|exact Ea]|etrans; [exact H2|exact Et]|etrans; [exact H3|exact Er]|
    etrans; [exact H4|exact Ev]|etrans; [exact H5|exact El]|etrans; [exact H6|exact Es]|].
  intros vq. rewrite H7. assert (Hq : qs_queue (state_at vq d1) = if decide (v = vq) then None else qs_queue (state_at vq d)).
  { rewrite (state_at_insert v vq (QueueState None false (qs_notifying (state_at v (invalidate_at v d)))) (invalidate_at v d) d1) by done.
    case_decide; [done|]. by rewrite (state_at_same vq d). }
  rewrite Hq. destruct (decide (vq ∈ l)) as [Hl|Hl]; [by rewrite decide_True by by right|].
  destruct (decide (v = vq)) as [->|Hne]; [by rewrite decide_True by by left|].
  rewrite decide_False; [done|]. by intros [->|]%elem_of_cons.
Qed.
Lemma reset_spec d :
  let d' := (reset d).2 in
  grows d d' ∧ (∀ vq, qs_queue (state_at vq d') = None) ∧ length (vd_rings d') = length (vd_rings d) ∧
  vd_resets d' !! length (vd_resets d) = Some (if vd_views d then vd_active d else [], negb (vd_views d)).
Proof.
  pose proof (drop_queues_spec (map_to_list (vd_states d)).*1 d) as H.
  pose proof (grows_drops (map_to_list (vd_states d)).*1 d) as Hg.
  unfold reset. erewrite M_bind_done by done. set (d1 := (drop_queues _ d).2) in *.
  destruct H as (H0&Ha&_&Er&Ev&El&_&Hq).
  rewrite (M_bind_done _ _ d tt d1) by (rewrite <- H0; apply surjective_pairing).
  assert (Hnone : ∀ vq, qs_queue (state_at vq d1) = None).
  { intros vq. rewrite Hq. destruct (decide _) as [_|Hout]; [done|]. unfold state_at.
    destruct (vd_states d !! vq) as [q|] eqn:E; [|done]. destruct Hout. apply list_elem_of_fmap. exists (vq, q).
    split; [done|]. by apply elem_of_map_to_list. }
  set (d2 := if vd_stopped d then d1 else d1 <| vd_log := vd_log d1 ++ [ResetCalled] |>).
  rewrite (M_bind_done _ _ d1 tt d2) by (unfold d2; by destruct (vd_stopped d)).
  assert (E2 : vd_resets d2 = vd_resets d ∧ vd_views d2 = vd_views d ∧ vd_active d2 = vd_active d ∧
    length (vd_rings d2) = length (vd_rings d) ∧ (∀ vq, qs_queue (state_at vq d2) = None) ∧ grows d d2).
  { unfold d2. destruct (vd_stopped d); [by split_and!|]. split_and!; try done. etrans; [exact Hg|]. by apply grows_same. }
  clearbody d2. clear H0 Ha Er Ev El Hq Hnone Hg d1. destruct E2 as (Er&Ev&Ea&El&Hq&Hg).
  do 2 erewrite M_bind_done by done. rewrite Er, Ev, Ea.
  set (seen := if vd_views d then vd_active d else []). set (d3 := d2 <| vd_resets := vd_resets d ++ [(seen, false)] |>).
  assert (Hg3 : grows d d3) by (etrans; [exact Hg|]; unfold d3; rewrite <- Er; apply grows_push).
  assert (Hk : vd_resets d3 !! length (vd_resets d) = Some (seen, false)) by (by apply list_lookup_middle).
  destruct (vd_views d) eqn:Eviews; [by split_and!|].
  split_and!; try done.
  - etrans; [exact Hg3|]. eapply grows_finish; [exact Hk|]. by intros t ?%not_elem_of_nil.
  - change (vd_resets (finish_reset (length (vd_resets d)) d3).2) with
      (alter (fun p : list nat * bool => (p.1, true)) (length (vd_resets d)) (vd_resets d3)).
    by rewrite list_lookup_alter_eq, Hk.
Qed.
Lemma step_grows e : stays grows (step e).
Proof.
  assert (Hemit : ∀ e, stays grows (emit e)) by (intros x d; by apply grows_same).
  assert (Hplain : ∀ d d', plain_change d d' → grows d d') by (intros d d' []; by apply grows_same).
  assert (Hstate : ∀ vq f, stays grows (set_state vq f)) by (intros vq f d; by apply grows_same).
  assert (Hround : ∀ vq r d, qs_queue (state_at vq d) = Some r → grows d (drain_round vq r d).2).
  { intros vq r d _. apply frame_round; auto using grows_work. typeclasses eauto. }
  apply step_frame; auto using grows_drop, grows_use, grows_microtask, grows_work, grows_settle, grows_resume_reset.
  - typeclasses eauto.
  - destruct e; try done; [|intros d; apply reset_spec]. apply frame_enable; auto; [typeclasses eauto| |].
    + intros v. apply stays_modify. intros d. unfold invalidate_at. destruct (qs_queue _); [by apply grows_same|done].
    + intros v i q d. by apply grows_same.
Qed.
Lemma run_stays (R : virtio → virtio → Prop) `{!PreOrder R} es d : (∀ e, stays R (step e)) → R d (run es d).
Proof. intros Hs. revert d. induction es as [|e es IH]; intros d; [done|]. etrans; [apply (Hs e)|apply IH]. Qed.

(** A reset is final: no queue there was before it is kicked, publishes a
    completion or raises an interrupt ever after; and if the device holds views
    of guest memory, the promise of the reset is resolved only once all the work
    that was under way has settled. *)
Theorem device_reset_final queues features views remote config es es' :
  let d := run es (virtio_new queues features views remote config) in
  let d' := run es' (reset d).2 in
  (∀ r, (r < length (vd_rings d))%nat → ring_uses r (vd_log d') = ring_uses r (vd_log (reset d).2)) ∧
  (∃ seen done, vd_resets d' !! length (vd_resets d) = Some (seen, done) ∧
    (vd_views d = true → done = true → ∀ t w, vd_tasks d !! t = Some (Task w None) → is_settled t d' = true)).
Proof.
  intros d d'. destruct (reset_spec d) as (_&Hq&Hl&Hk).
  assert (Hw : work_ok d) by (apply run_preserves; [exact step_work|apply work_ok_new]).
  split.
  - intros r Hr. assert (Hold : old r (reset d).2) by (split; [by rewrite Hl|]; intros vq; by rewrite Hq).
    refine (proj2 (run_stays (keeps_old r) es' _ _ Hold)). intros e. apply step_old.
  - destruct (gr_resets _ _ (run_stays grows es' (reset d).2 step_grows) _ _ _ Hk) as (b&Hb&Hd).
    eexists _, b. split; [exact Hb|]. intros Hv ->. rewrite Hv in Hd. destruct (Hd eq_refl) as [[=]|Hs].
    intros t w Ht. apply Hs. by eapply (wo_active _ Hw).
Qed.

(** ** A run

    Two notifications, the second while the first's kick is in flight; the
    device shuts down while the second kick is in flight. *)
Definition device_sample : virtio := virtio_new 1 0 true false [1; 2].
Definition coalesced : list event :=
  [Attach; GuestWrites (zeros 256); EnableQueue 0 4 0 7; Notify 0; Notify 0; Notify 0; Settle 0 None; ResumeDrain 0].
Definition drained : list event := coalesced ++ [Settle 1 None; ResumeDrain 0; Leave 0; Leave 1].

Example coalesced_log : vd_log (run coalesced device_sample) = [Notified 0; Kicked 0 0; Notified 0; Notified 0; Kicked 0 0].
Proof. vm_compute. reflexivity. Qed.
Example shutdown_waits : life (vd_log (run (coalesced ++ [Shutdown None; ResumeShutdown]) device_sample)) = [K; K; S_].
Proof. vm_compute. reflexivity. Qed.
Example shutdown_closes :
  life (vd_log (run (coalesced ++ [Shutdown None; Settle 1 None; Leave 0; Leave 1; ResumeShutdown]) device_sample)) = [K; K; S_; C_].
Proof. vm_compute. reflexivity. Qed.
(** A kick that fails while another notification waits ends the drain with the
    queue still pending: the machine is told of the failure instead. *)
Example failed_kick :
  let d := run [Attach; GuestWrites (zeros 256); EnableQueue 0 4 0 7; Notify 0; Notify 0; Settle 0 (Some (JsError "io")); ResumeDrain 0;
                ResumeDrain 0] device_sample in
  (vd_drains d = []) ∧ state_at 0 d = QueueState (Some 0%nat) true false ∧ clean (vd_log d) = false.
Proof. vm_compute. split; [reflexivity|split; reflexivity]. Qed.

Lemma device_no_lost_notification_witness :
  Notified 0 ∈ vd_log (run drained device_sample) ∧ owes 0 (vd_log (run drained device_sample)) = false.
Proof.
  assert (El : vd_log (run drained device_sample) = [Notified 0; Kicked 0 0; Notified 0; Notified 0; Kicked 0 0])
    by (vm_compute; reflexivity).
  split; [rewrite El; left|].
  apply (device_no_lost_notification 1 0 true false [1; 2] drained 0).
  - vm_compute. reflexivity.
  - vm_compute. reflexivity.
  - exists 0%nat. vm_compute. reflexivity.
  - assert (E : vd_drains (run drained device_sample) = []) by (vm_compute; reflexivity).
    change (0 ∉ (vd_drains (run drained device_sample)).*1). rewrite E. apply not_elem_of_nil.
Defined.
