(* ===== verification/Remote.v ===== *)
(** A device in a worker: [workerDevice] and [serveDevice] of
    packages/kernel/src/virtio/remote.ts, and the messages between them.

    The main thread and the worker take turns in any order; what one posts the
    other receives in order. They share the guest's memory and the array
    [control] of epochs. An epoch is an int32 that wraps: it is kept here as the
    count it stands for, and compared modulo 2^32 ([same32]). *)
From stdpp Require Import pretty.
From S2P Require Export Device.

(** * The state *)
Inductive device_message :=
| MBind | MFeatures (features : Z) | MSetup (irq length : Z)
| MEnable (vq : nat) (size descriptor_address irq device_epoch queue_epoch : Z)
| MDisable (vq : nat) | MNotify (vq : nat) | MReset | MClose.
Inductive worker_message :=
| WComplete (vq : nat) (irq device_epoch queue_epoch : Z) (c : completion)
| WConfig (irq : Z) (config : list Z) (interrupt : bool)
| WResetDone | WError (e : exn) | WClosed (error : option exn).

(** What the main thread does to the machine, and what the guest asked of it. *)
Inductive remote_effect :=
| GuestEnabled (vq : nat) (epoch irq : Z) | GuestDisabled (vq : nat) | Revoked | Failed (e : exn)
| Committed (vq : nat) (epoch irq : Z) (c : completion) | RaisedConfig (irq : Z)
| Acknowledged (k : nat) | Released (k : nat).

(** [connect_remote_device] and [create_remote_device] on the main thread,
    [serveDevice] in the worker. The resets that wait are numbered in the order
    they were asked for. The worker's device has the guest's memory. *)
Record remote := Remote {
  rm_control : list Z; rm_enabled : list bool; rm_config : list Z; rm_target : option Z; rm_failed : bool;
  rm_resets : list nat; rm_asked : nat;
  rm_connected : bool; rm_terminal : option exn; rm_close_started : bool; rm_closed : option (option exn); rm_listening : bool;
  to_worker : list device_message; to_main : list worker_message;
  sv_device : virtio; sv_bound : bool; sv_device_epoch : Z; sv_epochs : list Z; sv_closing : bool; sv_listening : bool;
  rm_log : list remote_effect }.
#[export] Instance remote_eta : Eta remote := fun w =>
  Remote (rm_control w) (rm_enabled w) (rm_config w) (rm_target w) (rm_failed w) (rm_resets w) (rm_asked w)
    (rm_connected w) (rm_terminal w) (rm_close_started w) (rm_closed w) (rm_listening w) (to_worker w) (to_main w)
    (sv_device w) (sv_bound w) (sv_device_epoch w) (sv_epochs w) (sv_closing w) (sv_listening w) (rm_log w).

(** Both ends after the worker's [ready] message. *)
Definition remote_new (queues : nat) (features : Z) (views : bool) (config : list Z) : remote :=
  Remote (replicate (S queues) 0) (replicate queues false) config None false [] 0
    false None false None true [] [] (virtio_new (Z.of_nat queues) features views true config) false 0
    (replicate queues 0) false true [].

(** [workerDevice]: what its promise becomes of the messages and failures before
    the worker is ready ([None] while it waits), and what [serveDevice] and
    [serveDeviceError] post first. An error crosses as its name and message. *)
Record ready_message := ReadyMessage { rdy_id : Z; rdy_features : Z; rdy_config : list Z; rdy_queues : Z }.
Inductive startup_event := StartupReady (m : ready_message) | StartupError (e : exn) | StartupFails (e : exn) | StartupOther (m : worker_message).
Fixpoint worker_device (l : list startup_event) : option (exn + ready_message) :=
  match l with
  | [] => None
  | StartupReady m :: _ => Some (inr m)
  | (StartupError e | StartupFails e) :: _ => Some (inl e)
  | StartupOther _ :: l => worker_device l
  end.
Definition serve_ready (id : Z) (d : virtio) : startup_event := StartupReady (ReadyMessage id (vd_features d) (vd_config d) (vd_queues d)).
Definition serve_device_error (e : exn) : startup_event := StartupError e.

Definition same32 (a b : Z) : bool := to_u32 a =? to_u32 b.
Definition log_remote (e : remote_effect) : M remote unit := modify (fun w => w <| rm_log := rm_log w ++ [e] |>).
Definition post_worker (m : device_message) : M remote unit := modify (fun w => w <| to_worker := to_worker w ++ [m] |>).
Definition post_main (m : worker_message) : M remote unit := modify (fun w => w <| to_main := to_main w ++ [m] |>).

(** [Atomics.add(control, i, 1)] and [Atomics.load(control, i)]. *)
Definition bump_epoch (i : nat) : M remote unit := modify (fun w => w <| rm_control := alter (Z.add 1) i (rm_control w) |>).
Definition epoch (i : nat) (w : remote) : Z := default 0 (rm_control w !! i).

(** * The main thread *)

(** [fail] of the connection. *)
Definition fail_connection (e : exn) : M remote unit :=
  w ← get_state;
  if rm_failed w then mret tt
  else modify (fun w => w <| rm_failed := true |>) ;; bump_epoch 0 ;; log_remote (Failed e).
Definition revoke : M remote unit :=
  bump_epoch 0 ;;
  modify (fun w => w <| rm_enabled := replicate (length (rm_enabled w)) false |>) ;;
  log_remote Revoked.

Definition write_memory (f : list Z → outcome (list Z)) : M remote unit :=
  w ← get_state;
  memory ← lift (f (vd_memory (sv_device w)));
  modify (fun w => w <| sv_device := sv_device w <| vd_memory := memory |> |>).

(** [receive] of the connection. *)
Definition receive (m : worker_message) : M remote unit :=
  w ← get_state;
  match m with
  | WComplete vq irq device_epoch queue_epoch c =>
      if (negb (default false (rm_enabled w !! vq)) || negb (same32 (epoch 0 w) device_epoch) ||
          negb (same32 (epoch (S vq) w) queue_epoch))%bool
      then mret tt
      else
        write_memory (fun memory => publish_virtqueue_completion memory c) ;;
        log_remote (Committed vq queue_epoch irq c)
  | WConfig irq config interrupt =>
      modify (fun w => w <| rm_config := splice (rm_config w) 0 (subarray config 0 (zlen (rm_config w))) |>) ;;
      match rm_target w with
      | Some address => write_memory (fun memory => ta_set memory config address)
      | None => mret tt
      end ;;
      if interrupt then log_remote (RaisedConfig irq) else mret tt
  | WResetDone =>
      match rm_resets w with
      | k :: rest => modify (fun w => w <| rm_resets := rest |>) ;; log_remote (Acknowledged k)
      | [] => mret tt
      end
  | WError e => fail_connection e
  | WClosed _ => mret tt
  end.

Fixpoint release_resets (l : list nat) : M remote unit :=
  match l with [] => mret tt | k :: l => log_remote (Released k) ;; release_resets l end.

(** A settled promise stays as it is. *)
Definition settle_closed (o : option exn) : M remote unit :=
  modify (fun w => w <| rm_closed := or_else (rm_closed w) (Some o) |>).
Definition fail_device (e : exn) : M remote unit :=
  modify (fun w => w <| rm_terminal := or_else (rm_terminal w) (Some e) |>) ;;
  w ← get_state;
  (if rm_connected w then fail_connection e else mret tt) ;;
  settle_closed (Some e).
Definition when_connected (m : M remote unit) : M remote unit := w ← get_state; if rm_connected w then m else mret tt.
(** [receive] of the device. *)
Definition receive_message (m : worker_message) : M remote unit :=
  w ← get_state;
  match m with
  | WClosed error =>
      modify (fun w => w <| rm_listening := false |>) ;;
      when_connected revoke ;;
      when_connected (release_resets (rm_resets w) ;; modify (fun w => w <| rm_resets := [] |>)) ;;
      match error with
      | Some e => when_connected (fail_connection e) ;; settle_closed (Some e)
      | None => settle_closed None
      end
  | WError e => if rm_connected w then receive m else fail_device e
  | _ => when_connected (receive m)
  end.
Definition endpoint_failure (e : exn) : M remote unit :=
  modify (fun w => w <| rm_listening := false |>) ;; fail_device e.

(** The transport's [attach] and [shutdown], and the connection's operations. *)
Definition attach_remote : M remote unit :=
  w ← get_state;
  assert_m (negb (rm_connected w)) "remote virtio device is already attached" ;;
  match rm_terminal w with
  | Some e => throw e
  | None => modify (fun w => w <| rm_connected := true |>) ;; post_worker MBind
  end.
Definition shutdown_remote : M remote unit :=
  w ← get_state;
  if rm_close_started w then mret tt
  else modify (fun w => w <| rm_close_started := true |>) ;; when_connected revoke ;; post_worker MClose.

Definition remote_features (features : Z) : M remote unit :=
  w ← get_state;
  assert_m (features =? vd_features (sv_device w)) "" ;;
  post_worker (MFeatures features).
Definition remote_setup (irq address length : Z) : M remote unit :=
  w ← get_state;
  assert_m (zlen (rm_config w) <=? length) "config space too small" ;;
  lift (if (0 <=? address) && (address + length <=? zlen (vd_memory (sv_device w))) then Done tt
        else Raise (RangeError "Invalid typed array length"))%bool ;;
  modify (fun w => w <| rm_target := Some address |>) ;;
  write_memory (fun memory => ta_set memory (rm_config w) address) ;;
  post_worker (MSetup irq length).
Definition assert_queue (vq : nat) : M remote unit :=
  w ← get_state;
  assert_m (bool_decide (vq < length (rm_enabled w))%nat) ("virtio device has no queue " +:+ pretty vq).
Definition remote_enable (vq : nat) (size descriptor_address irq : Z) : M remote unit :=
  assert_queue vq ;;
  bump_epoch (S vq) ;;
  w ← get_state;
  modify (fun w => w <| rm_enabled := <[vq := true]> (rm_enabled w) |>) ;;
  log_remote (GuestEnabled vq (epoch (S vq) w) irq) ;;
  post_worker (MEnable vq size descriptor_address irq (epoch 0 w) (epoch (S vq) w)).
Definition remote_disable (vq : nat) : M remote unit :=
  assert_queue vq ;;
  modify (fun w => w <| rm_enabled := <[vq := false]> (rm_enabled w) |>) ;;
  bump_epoch (S vq) ;;
  log_remote (GuestDisabled vq) ;;
  post_worker (MDisable vq).
Definition remote_notify (vq : nat) : M remote unit := post_worker (MNotify vq).
Definition remote_reset : M remote unit :=
  revoke ;;
  modify (fun w => w <| rm_resets := rm_resets w ++ [rm_asked w] |> <| rm_asked := S (rm_asked w) |>) ;;
  post_worker MReset.

(** * The worker *)
Definition epochs_current (vq : nat) (w : remote) : bool :=
  (same32 (epoch 0 w) (sv_device_epoch w) && same32 (epoch (S vq) w) (sv_epochs w !!! vq))%bool.

(** What the worker posts for what its device does: the hooks it attached the
    device with, and the promises of [reset()]. *)
Definition post_effect (e : effect) : M remote unit :=
  w ← get_state;
  match e with
  | PublishedRemotely r c =>
      match vd_rings (sv_device w) !! r with
      | Some rg =>
          let vq := Z.to_nat (rg_vq rg) in
          if epochs_current vq w
          then post_main (WComplete vq (rg_irq rg) (sv_device_epoch w) (sv_epochs w !!! vq) c)
          else mret tt
      | None => mret tt
      end
  | ConfigPublished irq config interrupt => post_main (WConfig irq config interrupt)
  | Reported e => post_main (WError e)
  | ResetDone _ => post_main WResetDone
  | _ => mret tt
  end.
Fixpoint post_effects (l : list effect) : M remote unit :=
  match l with [] => mret tt | e :: l => post_effect e ;; post_effects l end.
(** The device runs; what it did is posted. *)
Definition on_device {A} (m : M virtio A) : M remote A := fun w =>
  let n := length (vd_log (sv_device w)) in
  let '(o, d) := m (sv_device w) in
  let w := w <| sv_device := d |> in
  match post_effects (drop n (vd_log d)) w with
  | (Done _, w) => (o, w)
  | (Raise e, w) => (Raise e, w)
  | (Loops, w) => (Loops, w)
  end.

Definition when_bound (m : M remote unit) : M remote unit := w ← get_state; if sv_bound w then m else mret tt.
(** [on_message] without its [try]. *)
Definition on_message (m : device_message) : M remote unit :=
  match m with
  | MBind =>
      w ← get_state;
      assert_m (negb (sv_bound w)) "virtio device is already bound" ;;
      on_device attach ;;
      modify (fun w => w <| sv_bound := true |>)
  | MFeatures features => when_bound (on_device (set_features features))
  | MSetup irq length => when_bound (on_device (setup irq 0 length))
  | MEnable vq size descriptor_address irq device_epoch queue_epoch =>
      modify (fun w => w <| sv_device_epoch := device_epoch |> <| sv_epochs := <[vq := queue_epoch]> (sv_epochs w) |>) ;;
      when_bound (on_device (enable_queue (Z.of_nat vq) size descriptor_address irq))
  | MDisable vq => when_bound (on_device (disable_queue (Z.of_nat vq)))
  | MNotify vq => when_bound (on_device (notify (Z.of_nat vq)))
  | MReset =>
      modify (fun w => w <| sv_device_epoch := epoch 0 w |>) ;;
      w ← get_state;
      if sv_bound w then on_device reset else post_main WResetDone
  | MClose =>
      w ← get_state;
      if sv_closing w then mret tt
      else modify (fun w => w <| sv_closing := true |>) ;; on_device (shutdown None)
  end.
Definition serve (m : device_message) : M remote unit := fun w =>
  match on_message m w with
  | (Raise e, w) => post_main (WError e) w
  | r => r
  end.
(** The promise of [shutdown()] has settled. *)
Definition report_closed : M remote unit :=
  w ← get_state;
  match vd_closing (sv_device w) with
  | Closed error =>
      if (sv_closing w && sv_listening w)%bool
      then modify (fun w => w <| sv_listening := false |>) ;; post_main (WClosed error)
      else mret tt
  | _ => mret tt
  end.

(** * What happens next

    The guest and the machine call the main thread; either end receives its
    next message; the worker's device runs. *)
Inductive remote_event :=
| GAttach | GFeatures (features : Z) | GSetup (irq address length : Z)
| GEnable (vq : nat) (size descriptor_address irq : Z) | GDisable (vq : nat) | GNotify (vq : nat) | GReset | GShutdown
| GWrites (memory : list Z) | EndpointFails (e : exn)
| MainReceives | WorkerReceives
| UpdatesConfig (config : list Z) | Spawns | UsesRing (r : nat) (k : ring_call) | Settles (t : nat) (o : option exn)
| Leaves (t : nat) | Reports | ResumesDrain (i : nat) | ResumesShutdown | SettlesClose (o : option exn)
| ResumesReset (k : nat) | ReportsClosed.

(** The hook [queue_is_current] for the ring [r]. *)
Definition hook_current (r : nat) (w : remote) : bool :=
  match vd_rings (sv_device w) !! r with Some rg => epochs_current (Z.to_nat (rg_vq rg)) w | None => false end.
Definition device_event (e : remote_event) (w : remote) : option event :=
  match e with
  | UpdatesConfig config => Some (UpdateConfig config)
  | Spawns => Some Spawn
  | UsesRing r k => Some (UseRing r (hook_current r w) k)
  | Settles t o => Some (Settle t o)
  | Leaves t => Some (Leave t)
  | Reports => Some ReportNext
  | ResumesDrain i => Some (ResumeDrain i)
  | ResumesShutdown => Some ResumeShutdown
  | SettlesClose o => Some (SettleClose o)
  | ResumesReset k => Some (ResumeReset k)
  | GWrites memory => Some (GuestWrites memory)
  | _ => None
  end.
Definition remote_step (e : remote_event) : M remote unit :=
  w ← get_state;
  match e with
  | GAttach => attach_remote
  | GFeatures features => when_connected (remote_features features)
  | GSetup irq address length => when_connected (remote_setup irq address length)
  | GEnable vq size a irq => when_connected (remote_enable vq size a irq)
  | GDisable vq => when_connected (remote_disable vq)
  | GNotify vq => when_connected (remote_notify vq)
  | GReset => when_connected remote_reset
  | GShutdown => shutdown_remote
  | EndpointFails e => if rm_listening w then endpoint_failure e else mret tt
  | MainReceives =>
      match to_main w with
      | m :: rest =>
          modify (fun w => w <| to_main := rest |>) ;;
          if rm_listening w then receive_message m else mret tt
      | [] => mret tt
      end
  | WorkerReceives =>
      match to_worker w with
      | m :: rest =>
          modify (fun w => w <| to_worker := rest |>) ;;
          if sv_listening w then serve m else mret tt
      | [] => mret tt
      end
  | ReportsClosed => report_closed
  | _ => match device_event e w with Some e => on_device (step e) | None => mret tt end
  end.
Definition remote_run (es : list remote_event) (w : remote) : remote := foldl (fun w e => (remote_step e w).2) w es.

(** * What the worker's device does with its rings *)
Definition valid (rg : ring) : bool := q_valid (rg_queue rg).
Definition same_origin (rg rg' : ring) : Prop := rg_vq rg' = rg_vq rg ∧ rg_irq rg' = rg_irq rg.
(** A ring that is valid is its queue's. *)
Definition live (d : virtio) : Prop :=
  ∀ r rg, vd_rings d !! r = Some rg → valid rg = true → qs_queue (state_at (rg_vq rg) d) = Some r.
(** No ring becomes valid, and only a valid ring publishes. *)
Record kept (d d' : virtio) : Prop := {
  kp_length : length (vd_rings d') = length (vd_rings d);
  kp_rings : ∀ r rg, vd_rings d !! r = Some rg → ∃ rg', vd_rings d' !! r = Some rg' ∧ same_origin rg rg';
  kp_valid : ∀ r rg', vd_rings d' !! r = Some rg' → valid rg' = true → ∃ rg, vd_rings d !! r = Some rg ∧ valid rg = true;
  kp_log : ∃ l, vd_log d' = vd_log d ++ l ∧
    ∀ r c, PublishedRemotely r c ∈ l → ∃ rg, vd_rings d !! r = Some rg ∧ valid rg = true;
  kp_live : live d → live d' }.
#[export] Instance kept_preorder : PreOrder kept.
Proof.
  split.
  - intros d. split; [done|intros r rg H; by exists rg|intros r rg H Hv; by exists rg| |done]. exists []. rewrite app_nil_r. split; [done|]. by intros r c ?%not_elem_of_nil.
  - intros a b c [N1 R1 V1 (l1&E1&P1) L1] [N2 R2 V2 (l2&E2&P2) L2]. split; [congruence| | | |auto].
    + intros r rg (rg1&H1&O1)%R1. destruct (R2 _ _ H1) as (rg2&H2&O2). exists rg2. split; [done|].
      destruct O1, O2. split; congruence.
    + intros r rg H Hv. destruct (V2 _ _ H Hv) as (rg1&H1&Hv1). by apply (V1 r rg1).
    + exists (l1 ++ l2). split; [by rewrite E2, E1, app_assoc|]. intros r x [H|H]%elem_of_app; [by eapply P1|].
      destruct (P2 _ _ H) as (rg1&H1&Hv1). by apply (V1 r rg1).
Qed.

Lemma kept_same d d' :
  length (vd_rings d') = length (vd_rings d) →
  (∀ r, vd_rings d' !! r = vd_rings d !! r ∨ ∃ rg rg', vd_rings d !! r = Some rg ∧ vd_rings d' !! r = Some rg' ∧
    same_origin rg rg' ∧ (valid rg' = true → valid rg = true)) →
  (∀ vq, qs_queue (state_at vq d') = qs_queue (state_at vq d)) →
  (∃ l, vd_log d' = vd_log d ++ l ∧ ∀ r c, PublishedRemotely r c ∈ l → ∃ rg, vd_rings d !! r = Some rg ∧ valid rg = true) →
  kept d d'.
Proof.
  intros Hn Hr Hq Hl.
  assert (H1 : ∀ r rg', vd_rings d' !! r = Some rg' → ∃ rg, vd_rings d !! r = Some rg ∧ same_origin rg rg' ∧
    (valid rg' = true → valid rg = true)).
  { intros r rg' H. destruct (Hr r) as [E|(rg&rg1&E1&E2&Ho&Hv)]; [exists rg'; split; [congruence|by split]|].
    exists rg. assert (rg1 = rg') as -> by congruence. by split_and!. }
  split; [done| | |done|].
  - intros r rg H. destruct (Hr r) as [E|(rg1&rg'&E1&E2&Ho&_)]; [exists rg; split; [congruence|done]|].
    exists rg'. assert (rg1 = rg) as -> by congruence. by split.
  - intros r rg' (rg&H&_&Hv)%H1 Hv'. exists rg. auto.
  - intros Hlive r rg' (rg&H&[Eo _]&Hv)%H1 Hv'. rewrite Hq, Eo. apply Hlive; auto.
Qed.
Lemma kept_emit e : match e with PublishedRemotely _ _ => false | _ => true end = true → stays kept (emit e).
Proof.
  intros He d. apply kept_same; [done|by left|done|]. exists [e]. split; [done|]. intros r c Hin%list_elem_of_singleton. by rewrite <- Hin in He.
Qed.
Lemma no_log (l : list effect) P : ∃ l', l = l ++ l' ∧ ∀ r c, PublishedRemotely r c ∈ l' → P r.
Proof. exists []. rewrite app_nil_r. split; [done|]. by intros r c ?%not_elem_of_nil. Qed.
Lemma kept_plain d d' : plain_change d d' → kept d d'.
Proof.
  intros [_ _ E1 E2 _ _ _ E6]. apply kept_same; [by rewrite E2|left; by rewrite E2|intros vq; by rewrite (state_at_same vq d)|].
  rewrite E6. apply (no_log _ (fun r => ∃ rg, vd_rings d !! r = Some rg ∧ valid rg = true)).
Qed.
Lemma kept_state vq f : (∀ q, qs_queue (f q) = qs_queue q) → stays kept (set_state vq f).
Proof.
  intros Hf d. apply kept_same; [done|by left| |apply (no_log _ (fun r => ∃ rg, vd_rings d !! r = Some rg ∧ valid rg = true))].
  intros v. erewrite (state_at_insert vq v) by done. case_decide as E; [subst; apply Hf|done].
Qed.
Lemma kept_set_ring r f d :
  (∀ rg, same_origin rg (f rg) ∧ (valid (f rg) = true → valid rg = true)) → kept d (set_ring r f d).
Proof.
  intros Hf. apply kept_same; [apply length_alter| |done|apply (no_log _ (fun r => ∃ rg, vd_rings d !! r = Some rg ∧ valid rg = true))].
  intros i. change (vd_rings (set_ring r f d)) with (alter f r (vd_rings d)). rewrite alter_lookup.
  destruct (decide (i = r)) as [->|Hne]; [|by left]. destruct (vd_rings d !! r) as [rg|]; [right|by left].
  exists rg, (f rg). split_and!; try done; apply Hf.
Qed.
Lemma kept_invalidate vq d : kept d (invalidate_at vq d).
Proof. unfold invalidate_at. destruct (qs_queue _); [by apply kept_set_ring|done]. Qed.
Lemma invalidate_states vq d : vd_states (invalidate_at vq d) = vd_states d.
Proof. unfold invalidate_at. by destruct (qs_queue (state_at vq d)). Qed.
(** No valid ring of [vq] is left. *)
Lemma invalidate_gone vq d r rg :
  live d → vd_rings (invalidate_at vq d) !! r = Some rg → rg_vq rg = vq → valid rg = false.
Proof.
  intros Hl Hr Hvq. destruct (valid rg) eqn:Hv; [|done]. exfalso.
  pose proof (kp_live _ _ (kept_invalidate vq d) Hl r rg Hr Hv) as Hq. rewrite Hvq in Hq.
  assert (E : state_at vq (invalidate_at vq d) = state_at vq d).
  { apply state_at_same, invalidate_states. }
  rewrite E in Hq. unfold invalidate_at in Hr. rewrite Hq in Hr.
  change (vd_rings (invalidate_ring r d)) with
    (alter (fun rg => rg <| rg_queue := (invalidate (rg_queue rg)).2 |>) r (vd_rings d)) in Hr.
  rewrite alter_lookup, decide_True in Hr by done. destruct (vd_rings d !! r); [|done]. injection Hr as <-. done.
Qed.
Lemma kept_drop vq : stays kept (drop_queue vq).
Proof.
  intros d. unfold drop_queue. erewrite M_bind_done by done. set (d1 := invalidate_at vq d).
  pose proof (kept_invalidate vq d : kept d d1) as H1. erewrite M_bind_done by done.
  set (d2 := (set_state vq (fun q => q <| qs_queue := None |> <| qs_pending := false |>) d1).2). change (kept d (emit (Dropped vq) d2).2).
  etrans; [|by apply kept_emit]. destruct H1 as [N R V L Hl].
  split; [exact N|exact R|exact V|exact L|]. intros Hlive r rg Hr Hv. pose proof (Hl Hlive r rg Hr Hv) as Hq.
  rewrite (state_at_insert vq (rg_vq rg) (QueueState None false (qs_notifying (state_at vq d1))) d1 d2) by done.
  case_decide as E; [|done]. rewrite (invalidate_gone vq d r rg) in Hv by done. done.
Qed.
Lemma kept_drops l : stays kept (drop_queues l).
Proof. induction l; cbn [drop_queues]; [apply stays_ret; typeclasses eauto|]. apply stays_bind; [typeclasses eauto|apply kept_drop|by intros _]. Qed.

(** The ring's own calls. *)
Definition same_valid (q q' : queue) : Prop := q_valid q' = q_valid q.
#[export] Instance same_valid_preorder : PreOrder same_valid.
Proof. split; [by intros q|]. intros a b c E1 E2. unfold same_valid in *. congruence. Qed.
Ltac same := stays_with ltac:(first [apply stays_modify; intros; reflexivity | intros ?; reflexivity]).
Lemma advance_valid : stays same_valid advance.
Proof. unfold advance. same. Qed.
Lemma pop_next_valid n : stays same_valid (pop_next n).
Proof.
  induction n as [|n IH]; cbn [pop_next]; [same|]. apply stays_bind; [typeclasses eauto|apply advance_valid|]. intros [i|]; [|same].
  stays_with ltac:(first [apply IH | intros ?; reflexivity]).
Qed.
Lemma next_valid : stays same_valid next.
Proof.
  assert (H : stays same_valid pop_ring).
  { unfold pop_ring. apply stays_bind; [typeclasses eauto|apply advance_valid|]. intros [i|]; [|same].
    stays_with ltac:(first [apply pop_next_valid | intros ?; reflexivity]). }
  unfold next, pop. apply stays_bind; [typeclasses eauto|apply stays_get; typeclasses eauto|]. intros q. apply stays_if; [|same].
  apply stays_bind; [typeclasses eauto|exact H|]. intros [[desc rest]|]; same.
Qed.
Lemma run_call_valid k q : q_valid (run_call k q).2 = q_valid q.
Proof.
  revert q. destruct k; cbn [run_call].
  - change (stays same_valid (next ;; mret tt)). apply stays_bind; [typeclasses eauto|apply next_valid|intros; same].
  - change (stays same_valid (release id skip written outputs)). unfold release. same.
Qed.
Lemma run_call_invalid k memory current q : q_valid q = false → q_published (run_call k (with_view memory current q)).2 = [].
Proof.
  intros Hv. destruct k; cbn [run_call].
  - unfold next, mbind, M_bind, get_state. cbn [q_valid q_current with_view]. by rewrite Hv.
  - unfold release, mbind, M_bind, get_state. cbn [q_valid q_current with_view]. by rewrite Hv.
Qed.
Lemma run_call_published k memory current q :
  q_published (run_call k (with_view memory current q)).2 ≠ [] → q_valid q = true.
Proof. intros H. destruct (q_valid q) eqn:E; [done|]. by rewrite run_call_invalid in H. Qed.

Lemma kept_completed r rg c d :
  (∃ rg, vd_rings d !! r = Some rg ∧ valid rg = true) → kept d (completed r rg c d).2.
Proof.
  intros Hv. unfold completed. erewrite M_bind_done by done. destruct (vd_remote d).
  - apply kept_same; [done|by left|done|]. exists [PublishedRemotely r c]. split; [done|].
    by intros u x [= -> ->]%list_elem_of_singleton.
  - destruct (publish_virtqueue_completion _ _) as [memory|x|]; [|erewrite M_bind_raise by done; reflexivity|erewrite M_bind_loops by done; reflexivity].
    erewrite M_bind_done by done. generalize d. 
    change (stays kept (modify (fun d => d <| vd_memory := memory |>) ;; emit (Published r c) ;; d ← get_state;
      if from_option rg_armed false (vd_rings d !! r) then mret tt
      else modify (set_ring r (fun rg => rg <| rg_armed := true |>)) ;;
           modify (fun d => d <| vd_microtasks := vd_microtasks d ++ [r] |>))).
    stays_with ltac:(first [by apply kept_emit | apply stays_modify; intros; first [by apply kept_set_ring | by apply kept_plain]
      | apply stays_modify; intros x; apply kept_same; [done|by left|done|apply (no_log _ (fun u => ∃ rg, vd_rings x !! u = Some rg ∧ valid rg = true))]]).
Qed.
Lemma kept_same_rings d d' :
  vd_rings d' = vd_rings d → vd_states d' = vd_states d → vd_log d' = vd_log d → kept d d'.
Proof.
  intros E1 E2 E3. apply kept_same; [by rewrite E1|left; by rewrite E1|intros vq; by rewrite (state_at_same vq d)|].
  rewrite E3. apply (no_log _ (fun r => ∃ rg, vd_rings d !! r = Some rg ∧ valid rg = true)).
Qed.
Lemma kept_use r hook k : stays kept (use_ring r hook k).
Proof.
  intros d. unfold use_ring. erewrite M_bind_done by done. destruct (vd_rings d !! r) as [rg|] eqn:Er; [|reflexivity].
  pose proof (run_call_published k (vd_memory d) (ring_current r rg hook d) (rg_queue rg)) as Hp.
  pose proof (run_call_valid k (with_view (vd_memory d) (ring_current r rg hook d) (rg_queue rg))) as Hv.
  destruct (run_call _ _) as [o q]. cbn [snd] in Hp, Hv. erewrite M_bind_done by done.
  set (d1 := set_ring r (fun rg => rg <| rg_queue := q |>) d). set (rg1 := rg <| rg_queue := q |>).
  assert (Er1 : vd_rings d1 !! r = Some rg1).
  { change (vd_rings d1) with (alter (fun rg => rg <| rg_queue := q |>) r (vd_rings d)). by rewrite alter_lookup, decide_True, Er. }
  assert (H1 : kept d d1).
  { apply kept_same; [apply length_alter| |done|apply (no_log _ (fun u => ∃ rg, vd_rings d !! u = Some rg ∧ valid rg = true))].
    intros i. destruct (decide (i = r)) as [->|Hne]; [right; exists rg, rg1; split_and!; try done|left].
    { intros H. change (q_valid q = true) in H. by rewrite Hv in H. }
    change (vd_rings d1) with (alter (fun rg => rg <| rg_queue := q |>) r (vd_rings d)). by rewrite alter_lookup, decide_False. }
  destruct o as [[]|x|]; [|erewrite M_bind_raise by done; exact H1|erewrite M_bind_loops by done; exact H1]. erewrite M_bind_done by done.
  destruct (q_published q) as [|c l] eqn:Eq; [exact H1|]. etrans; [exact H1|]. apply kept_completed.
  exists rg1. split; [done|]. change (q_valid q = true). rewrite Hv. by apply Hp.
Qed.
Lemma kept_microtask : stays kept microtask.
Proof.
  unfold microtask. apply stays_bind; [typeclasses eauto|apply stays_get; typeclasses eauto|intros d].
  destruct (vd_microtasks d) as [|u rest]; [apply stays_ret; typeclasses eauto|].
  apply stays_bind; [typeclasses eauto|apply stays_modify; intros; by apply kept_same_rings|]. intros _.
  apply stays_bind; [typeclasses eauto|apply stays_modify; intros; by apply kept_set_ring|]. intros _.
  destruct (vd_rings d !! u) as [rg|]; stays_with ltac:(by apply kept_emit).
Qed.
Lemma kept_reset : stays kept reset.
Proof.
  unfold reset, finish_reset. stays_with ltac:(first [by apply kept_emit | apply kept_drops | apply stays_modify; intros; by apply kept_same_rings]).
Qed.
Lemma kept_resume_reset k : stays kept (resume_reset k).
Proof.
  unfold resume_reset, finish_reset. apply stays_bind; [typeclasses eauto|apply stays_get; typeclasses eauto|intros d].
  destruct (vd_resets d !! k) as [[seen []]|]; stays_with ltac:(first [by apply kept_emit | apply stays_modify; intros; by apply kept_same_rings]).
Qed.
Lemma kept_ordinary e : ordinary e = true → stays kept (emit e).
Proof. intros He. apply kept_emit. by destruct e. Qed.
Lemma kept_work w : stays kept (add_active w).
Proof. intros d. by apply kept_same_rings. Qed.
Lemma kept_settle t o : stays kept (settle t o).
Proof. intros d. by apply kept_same_rings. Qed.
Lemma kept_round vq r d : qs_queue (state_at vq d) = Some r → kept d (drain_round vq r d).2.
Proof.
  intros _. apply frame_round; auto using kept_ordinary, kept_plain, kept_work, kept_state; [typeclasses eauto|]. by apply kept_emit.
Qed.
Lemma kept_drain vq : stays kept (drain vq).
Proof. apply frame_drain; auto using kept_plain, kept_state, kept_round. typeclasses eauto. Qed.
Lemma kept_notify vq : stays kept (notify vq).
Proof.
  unfold notify. apply stays_bind; [typeclasses eauto|by apply kept_state|]. intros _.
  apply stays_bind; [typeclasses eauto|by apply kept_emit|]. intros _. apply kept_drain.
Qed.
Lemma kept_step e : match e with EnableQueue _ _ _ _ => False | _ => True end → stays kept (step e).
Proof.
  intros He. apply step_frame; auto using kept_ordinary, kept_plain, kept_state, kept_work, kept_round, kept_drop, kept_use, kept_microtask,
    kept_settle, kept_resume_reset.
  - typeclasses eauto.
  - destruct e; try done. apply kept_reset.
Qed.

(** * Completions

    The enablement of [vq] in force, with its epoch and interrupt: the guest's
    last word on the queue, unless the device was revoked since. *)
Definition force_after (vq : nat) (o : option (Z * Z)) (e : remote_effect) : option (Z * Z) :=
  match e with
  | GuestEnabled v n irq => if decide (v = vq) then Some (n, irq) else o
  | GuestDisabled v => if decide (v = vq) then None else o
  | Revoked => None
  | _ => o
  end.
Definition in_force (vq : nat) (l : list remote_effect) : option (Z * Z) := foldl (force_after vq) None l.
Lemma in_force_snoc vq l e : in_force vq (l ++ [e]) = force_after vq (in_force vq l) e.
Proof. unfold in_force. by rewrite foldl_app. Qed.
Lemma in_force_elem vq l n irq : in_force vq l = Some (n, irq) → GuestEnabled vq n irq ∈ l.
Proof.
  induction l as [|e l IH] using rev_ind; [done|]. rewrite in_force_snoc, elem_of_app, list_elem_of_singleton.
  destruct e; cbn; try (by left; apply IH); try done; case_decide; try done; try (by left; apply IH).
  intros [= -> ->]. subst. by right.
Qed.
Definition commits_ok (l : list remote_effect) : Prop :=
  ∀ l1 vq n irq c l2, l = l1 ++ Committed vq n irq c :: l2 → in_force vq l1 = Some (n, irq).
Lemma commits_ok_snoc l e :
  commits_ok l → (∀ vq n irq c, e = Committed vq n irq c → in_force vq l = Some (n, irq)) → commits_ok (l ++ [e]).
Proof.
  intros Hl He l1 vq n irq c l2 E. destruct l2 as [|x l2 _] using rev_ind.
  - apply app_inj_tail in E as [-> ->]. by eapply He.
  - change (l1 ++ Committed vq n irq c :: l2 ++ [x]) with (l1 ++ (Committed vq n irq c :: l2) ++ [x]) in E.
    rewrite app_assoc in E. apply app_inj_tail in E as [-> _]. by eapply Hl.
Qed.

(** A run is bounded if no epoch can have come round. *)
Definition bounded (l : list remote_effect) : Prop := Z.of_nat (length l) < 2 ^ 32.

Record remote_ok (w : remote) : Prop := {
  ro_length : length (rm_control w) = S (length (rm_enabled w));
  ro_count : ∀ vq, 0 ≤ epoch (S vq) w ≤ Z.of_nat (length (rm_log w));
  ro_old : ∀ vq n irq, GuestEnabled vq n irq ∈ rm_log w → (vq < length (rm_enabled w))%nat ∧ 0 ≤ n ≤ epoch (S vq) w;
  ro_once : ∀ vq n irq irq', GuestEnabled vq n irq ∈ rm_log w → GuestEnabled vq n irq' ∈ rm_log w → irq = irq';
  ro_force : ∀ vq, rm_enabled w !! vq = Some true → ∃ irq, in_force vq (rm_log w) = Some (epoch (S vq) w, irq);
  ro_commits : bounded (rm_log w) → commits_ok (rm_log w);
  ro_enables : ∀ vq size a irq d n, MEnable vq size a irq d n ∈ to_worker w → GuestEnabled vq n irq ∈ rm_log w;
  ro_completes : ∀ vq irq d n c, WComplete vq irq d n c ∈ to_main w → GuestEnabled vq n irq ∈ rm_log w;
  ro_unbound : sv_bound w = false → vd_rings (sv_device w) = [];
  ro_epochs : length (sv_epochs w) = length (rm_enabled w);
  ro_rings : ∀ r rg, vd_rings (sv_device w) !! r = Some rg → valid rg = true →
    ∃ vq, rg_vq rg = Z.of_nat vq ∧ GuestEnabled vq (sv_epochs w !!! vq) (rg_irq rg) ∈ rm_log w;
  ro_live : live (sv_device w) }.

(** What the invariant does not see. *)
Record remote_same (w w' : remote) : Prop := {
  rs_control : ∀ vq, epoch (S vq) w' = epoch (S vq) w;
  rs_length : length (rm_control w') = length (rm_control w);
  rs_enabled : rm_enabled w' = rm_enabled w;
  rs_log : rm_log w' = rm_log w;
  rs_worker : ∀ m, m ∈ to_worker w' → m ∈ to_worker w ∨ match m with MEnable _ _ _ _ _ _ => False | _ => True end;
  rs_main : ∀ m, m ∈ to_main w' → m ∈ to_main w ∨ match m with WComplete _ _ _ _ _ => False | _ => True end;
  rs_bound : sv_bound w' = false → sv_bound w = false;
  rs_epochs : sv_epochs w' = sv_epochs w;
  rs_rings : vd_rings (sv_device w') = vd_rings (sv_device w);
  rs_states : vd_states (sv_device w') = vd_states (sv_device w) }.
Lemma remote_ok_same w w' : remote_same w w' → remote_ok w → remote_ok w'.
Proof.
  intros [E1 E2 E3 E4 E5 E6 Eb E7 E8 E9] []. split; rewrite ?E2, ?E3, ?E4, ?E7, ?E8; try done.
  - intros vq. by rewrite E1.
  - intros vq. rewrite E1. by apply ro_old0.
  - intros vq. rewrite E1. by apply ro_force0.
  - intros vq size a irq d n [H|[]]%E5. by eapply ro_enables0.
  - intros vq irq d n c [H|[]]%E6. by eapply ro_completes0.
  - auto.
  - intros r rg. rewrite E8. intros H Hv. rewrite (state_at_same _ (sv_device w)) by done. by apply ro_live0.
Qed.
Lemma ok_modify (f : remote → remote) :
  (∀ w, remote_same w (f w)) → preserves remote_ok (modify f).
Proof. intros Hf w. by apply remote_ok_same. Qed.
Lemma ok_post_worker m : match m with MEnable _ _ _ _ _ _ => False | _ => True end → preserves remote_ok (post_worker m).
Proof.
  intros Hm. apply ok_modify. intros w. split; try done; [|by left].
  intros x [H|H%list_elem_of_singleton]%elem_of_app; [by left|right; by subst].
Qed.
Lemma ok_post_main m : match m with WComplete _ _ _ _ _ => False | _ => True end → preserves remote_ok (post_main m).
Proof.
  intros Hm. apply ok_modify. intros w. split; try done; [by left|].
  intros x [H|H%list_elem_of_singleton]%elem_of_app; [by left|right; by subst].
Qed.
Lemma bump_epoch_other i j w : i ≠ j → epoch j (bump_epoch i w).2 = epoch j w.
Proof.
  intros Hne. unfold epoch. change (rm_control (bump_epoch i w).2) with (alter (Z.add 1) i (rm_control w)).
  by rewrite list_lookup_alter_ne.
Qed.
Lemma bump_epoch_here i w : (i < length (rm_control w))%nat → epoch i (bump_epoch i w).2 = epoch i w + 1.
Proof.
  intros Hi. unfold epoch. change (rm_control (bump_epoch i w).2) with (alter (Z.add 1) i (rm_control w)).
  rewrite list_lookup_alter_eq.
  apply lookup_lt_is_Some in Hi as [x Hx]. rewrite Hx. cbn. lia.
Qed.
Lemma ok_bump_device : preserves remote_ok (bump_epoch 0).
Proof.
  intros w. apply remote_ok_same. split; try done; [intros vq; by apply bump_epoch_other|apply length_alter|by left|by left].
Qed.

(** ** The main thread

    A step that adds [e] to the log. *)
Record remote_adds (e : remote_effect) (w w' : remote) : Prop := {
  ra_control : length (rm_control w') = length (rm_control w);
  ra_enabled : length (rm_enabled w') = length (rm_enabled w);
  ra_log : rm_log w' = rm_log w ++ [e];
  ra_epoch : ∀ vq, epoch (S vq) w ≤ epoch (S vq) w' ≤ epoch (S vq) w + 1;
  ra_new : ∀ vq n irq, e = GuestEnabled vq n irq →
    (vq < length (rm_enabled w))%nat ∧ n = epoch (S vq) w' ∧ epoch (S vq) w' = epoch (S vq) w + 1;
  ra_force : ∀ vq, rm_enabled w' !! vq = Some true →
    ∃ irq, force_after vq (in_force vq (rm_log w)) e = Some (epoch (S vq) w', irq);
  ra_commit : ∀ vq n irq c, e = Committed vq n irq c → bounded (rm_log w) → in_force vq (rm_log w) = Some (n, irq);
  ra_worker : ∀ m, m ∈ to_worker w' → m ∈ to_worker w ∨
    match m with MEnable vq _ _ irq _ n => e = GuestEnabled vq n irq | _ => True end;
  ra_main : to_main w' = to_main w;
  ra_bound : sv_bound w' = sv_bound w;
  ra_epochs : sv_epochs w' = sv_epochs w;
  ra_rings : vd_rings (sv_device w') = vd_rings (sv_device w);
  ra_states : vd_states (sv_device w') = vd_states (sv_device w) }.
Lemma bounded_snoc l e : bounded (l ++ [e]) → bounded l.
Proof. unfold bounded. rewrite length_app. lia. Qed.
Lemma remote_ok_adds e w w' : remote_adds e w w' → remote_ok w → remote_ok w'.
Proof.
  intros [E1 E2 E3 E4 E5 E6 E7 E8 E9 Eb E10 E11 E12] [H1 H2 H3 H4 H5 H6 H7 H8 H9 H10 H11 H12].
  assert (Hin : ∀ vq n irq, GuestEnabled vq n irq ∈ rm_log w' → GuestEnabled vq n irq ∈ rm_log w ∨ e = GuestEnabled vq n irq).
  { intros vq n irq. rewrite E3. intros [H| ->%list_elem_of_singleton]%elem_of_app; [by left|by right]. }
  assert (Hin' : ∀ x, x ∈ rm_log w → x ∈ rm_log w') by (intros; rewrite E3; apply elem_of_app; by left).
  split.
  - congruence.
  - intros vq. specialize (H2 vq). specialize (E4 vq). rewrite E3, length_app. cbn. lia.
  - intros vq n irq. specialize (E4 vq). specialize (H2 vq). rewrite E2.
    intros [[H H']%H3|(?&?&?)%E5]%Hin; [split; [done|lia]|split; [done|lia]].
  - assert (Hf : ∀ vq n irq irq', GuestEnabled vq n irq ∈ rm_log w → e = GuestEnabled vq n irq' → irq = irq').
    { intros vq n irq irq' [_ H]%H3 (_&?&?)%E5. lia. }
    intros vq n irq irq' [H|H]%Hin [H'|H']%Hin; [by eapply H4|by eapply Hf|symmetry; by eapply Hf|congruence].
  - intros vq. rewrite E3, in_force_snoc. apply E6.
  - rewrite E3. intros Hb%bounded_snoc. apply commits_ok_snoc; [by apply H6|]. intros vq n irq c ->. by eapply E7.
  - intros vq size a irq d n [H| ->]%E8; [by eapply Hin', H7|]. rewrite E3. apply elem_of_app. right. by left.
  - intros vq irq d n c. rewrite E9. intros. by eapply Hin', H8.
  - by rewrite Eb, E11.
  - congruence.
  - intros r rg. rewrite E11, E10. intros Hr Hv. destruct (H11 r rg Hr Hv) as (vq&?&?). exists vq. auto.
  - intros r rg. rewrite E11. intros H Hv. rewrite (state_at_same _ (sv_device w)) by done. by apply H12.
Qed.
Lemma ok_log e :
  match e with GuestEnabled _ _ _ | GuestDisabled _ | Revoked | Committed _ _ _ _ => False | _ => True end →
  preserves remote_ok (log_remote e).
Proof.
  intros He w Hok. refine (remote_ok_adds e w _ _ Hok). split; try done.
  - intros vq. change (epoch (S vq) (log_remote e w).2) with (epoch (S vq) w). lia.
  - by intros vq n irq ->.
  - intros vq [irq Hf]%(ro_force w Hok). exists irq. change (epoch (S vq) (log_remote e w).2) with (epoch (S vq) w). rewrite Hf. by destruct e.
  - by intros vq n irq c ->.
  - by left.
Qed.
Lemma ok_revoke : preserves remote_ok revoke.
Proof.
  intros w Hok. refine (remote_ok_adds Revoked w _ _ Hok).
  assert (E : ∀ vq, epoch (S vq) (revoke w).2 = epoch (S vq) w) by (intros; by apply (bump_epoch_other 0)).
  split; try done.
  - apply length_alter.
  - apply length_replicate.
  - intros vq. rewrite E. lia.
  - intros vq H. apply lookup_replicate in H as [[=] _].
  - by left.
Qed.
Lemma queue_known vq w :
  (assert_queue vq w = (Done tt, w) ∧ (vq < length (rm_enabled w))%nat) ∨ ∃ e, assert_queue vq w = (Raise e, w).
Proof. unfold assert_queue. erewrite M_bind_done by done. case_bool_decide; [left; by split|right; by eexists]. Qed.
Lemma ok_enable vq size a irq : preserves remote_ok (remote_enable vq size a irq).
Proof.
  intros w Hok. unfold remote_enable. destruct (queue_known vq w) as [[E Hvq]|[e E]]; [erewrite M_bind_done by exact E|by erewrite M_bind_raise by exact E].
  match goal with |- remote_ok (?m w).2 => set (w' := (m w).2) end.
  assert (Hi : (S vq < length (rm_control w))%nat) by (rewrite (ro_length w Hok); lia).
  assert (Eh : epoch (S vq) w' = epoch (S vq) w + 1) by apply (bump_epoch_here _ _ Hi).
  assert (Eo : ∀ v, v ≠ vq → epoch (S v) w' = epoch (S v) w) by (intros v Hv; apply (bump_epoch_other (S vq)); congruence).
  refine (remote_ok_adds (GuestEnabled vq (epoch (S vq) w') irq) w w' _ Hok). split; try done.
  - apply length_alter.
  - apply length_insert.
  - intros v. destruct (decide (v = vq)) as [->|Hv]; [lia|]. rewrite Eo by done. lia.
  - intros v n i [= <- <- <-]. by split_and!.
  - intros v H. change (rm_enabled w') with (<[vq := true]> (rm_enabled w)) in H. cbn [force_after].
    destruct (decide (vq = v)) as [->|Hne]; [by eexists|]. rewrite list_lookup_insert_ne in H by done.
    rewrite Eo by done. by apply (ro_force w Hok).
  - intros m [H| ->%list_elem_of_singleton]%elem_of_app; [by left|by right].
Qed.
Lemma ok_disable vq : preserves remote_ok (remote_disable vq).
Proof.
  intros w Hok. unfold remote_disable. destruct (queue_known vq w) as [[E Hvq]|[e E]]; [erewrite M_bind_done by exact E|by erewrite M_bind_raise by exact E].
  match goal with |- remote_ok (?m w).2 => set (w' := (m w).2) end.
  assert (Hi : (S vq < length (rm_control w))%nat) by (rewrite (ro_length w Hok); lia).
  assert (Eh : epoch (S vq) w' = epoch (S vq) w + 1) by apply (bump_epoch_here _ _ Hi).
  assert (Eo : ∀ v, v ≠ vq → epoch (S v) w' = epoch (S v) w) by (intros v Hv; refine (bump_epoch_other (S vq) (S v) w _); congruence).
  refine (remote_ok_adds (GuestDisabled vq) w w' _ Hok). split; try done.
  - apply length_alter.
  - apply length_insert.
  - intros v. destruct (decide (v = vq)) as [->|Hv]; [lia|]. rewrite Eo by done. lia.
  - intros v H. change (rm_enabled w') with (<[vq := false]> (rm_enabled w)) in H. cbn [force_after].
    destruct (decide (vq = v)) as [->|Hne]; [by rewrite list_lookup_insert_eq in H|]. rewrite list_lookup_insert_ne in H by done.
    rewrite Eo by done. by apply (ro_force w Hok).
  - intros m [H| ->%list_elem_of_singleton]%elem_of_app; [by left|by right].
Qed.

(** Goes through a program; what keeps the invariant's fields is left to [modify]. *)
Ltac same_remote := split; intros; first [done | reflexivity | by left].
Ltac keep_ok := repeat first
  [ assumption | progress auto with js
  | apply ok_bump_device | apply ok_revoke | by apply ok_log | by apply ok_post_worker | by apply ok_post_main
  | apply ok_modify; intros; same_remote
  | match goal with
    | |- preserves _ (_ ≫= _) => apply preserves_bind; [|intros ?]
    | |- preserves _ (if ?b then _ else _) => destruct b
    | |- preserves _ (match ?x with Some _ => _ | None => _ end) => destruct x
    | |- preserves _ (match ?x with [] => _ | _ :: _ => _ end) => destruct x
    end ].
Lemma ok_fail e : preserves remote_ok (fail_connection e).
Proof. unfold fail_connection. keep_ok. Qed.
Lemma ok_write f : preserves remote_ok (write_memory f).
Proof. unfold write_memory. keep_ok. Qed.
Lemma ok_release l : preserves remote_ok (release_resets l).
Proof. induction l; cbn [release_resets]; keep_ok. Qed.
Lemma ok_fail_device e : preserves remote_ok (fail_device e).
Proof. unfold fail_device, settle_closed. keep_ok; apply ok_fail. Qed.

Lemma same32_eq a b n : 0 ≤ a ≤ n → 0 ≤ b ≤ n → n < 2 ^ 32 → same32 a b = true → a = b.
Proof. intros Ha Hb Hn E. unfold same32 in E. zbool. rewrite !to_u32_id in E by lia. done. Qed.

(** A completion that passes the check of [receive] is of the enablement in
    force. *)
Lemma ok_complete vq irq d n c w :
  remote_ok w → GuestEnabled vq n irq ∈ rm_log w → remote_ok (receive (WComplete vq irq d n c) w).2.
Proof.
  intros Hok Hin. unfold receive. erewrite M_bind_done by done.
  destruct (negb _ || negb _ || negb _)%bool eqn:E; [done|].
  apply orb_false_iff in E as [[E1 _]%orb_false_iff E3]. apply negb_false_iff in E1, E3.
  destruct (rm_enabled w !! vq) as [[]|] eqn:Een; try done. clear E1.
  unfold write_memory. destruct (publish_virtqueue_completion (vd_memory (sv_device w)) c) as [memory|x|] eqn:Ep.
  - erewrite M_bind_done by (unfold mbind, M_bind, get_state, lift; by rewrite Ep).
    match goal with |- remote_ok (log_remote _ ?w1).2 => set (w' := (log_remote (Committed vq n irq c) w1).2) end.
    refine (remote_ok_adds (Committed vq n irq c) w w' _ Hok).
    destruct (ro_force w Hok vq Een) as [i Hi]. split; try done.
    + intros v. change (epoch (S v) w') with (epoch (S v) w). lia.
    + intros v Hv. change (epoch (S v) w') with (epoch (S v) w). by apply (ro_force w Hok).
    + intros v m j c' [= <- <- <- <-] Hb. destruct (ro_old w Hok _ _ _ Hin) as [_ Hn].
      pose proof (ro_count w Hok vq) as Hc. unfold bounded in Hb.
      assert (epoch (S vq) w = n) as En.
      { apply (same32_eq _ _ (Z.of_nat (length (rm_log w)))); [lia|lia|done|done]. }
      rewrite Hi, En. f_equal. f_equal. apply in_force_elem in Hi. rewrite En in Hi. by eapply (ro_once w Hok).
    + by left.
  - erewrite M_bind_raise by (unfold mbind, M_bind, get_state, lift; by rewrite Ep). done.
  - erewrite M_bind_loops by (unfold mbind, M_bind, get_state, lift; by rewrite Ep). done.
Qed.
Lemma ok_receive m w :
  remote_ok w → match m with WComplete vq irq _ n _ => GuestEnabled vq n irq ∈ rm_log w | _ => True end →
  remote_ok (receive_message m w).2.
Proof.
  assert (Hother : ∀ m, match m with WComplete _ _ _ _ _ => False | _ => True end → preserves remote_ok (receive_message m)).
  { intros x Hx. unfold receive_message, when_connected, settle_closed. destruct x; [done|..]; unfold receive; keep_ok;
      try apply ok_fail; try apply ok_release; try apply ok_write; try apply ok_fail_device. }
  intros Hok Hm. destruct m; try by apply Hother. unfold receive_message. erewrite M_bind_done by done.
  unfold when_connected. erewrite M_bind_done by done. destruct (rm_connected w); [by apply ok_complete|done].
Qed.
Lemma ok_connected m : preserves remote_ok m → preserves remote_ok (when_connected m).
Proof. intros Hm. unfold when_connected. keep_ok. Qed.
Lemma ok_attach : preserves remote_ok attach_remote.
Proof. unfold attach_remote, assert_m. keep_ok. Qed.
Lemma ok_shutdown : preserves remote_ok shutdown_remote.
Proof. unfold shutdown_remote, when_connected. keep_ok. Qed.
Lemma ok_features f : preserves remote_ok (remote_features f).
Proof. unfold remote_features, assert_m. keep_ok. Qed.
Lemma ok_setup irq a n : preserves remote_ok (remote_setup irq a n).
Proof. unfold remote_setup, assert_m. keep_ok. all: apply ok_write. Qed.
Lemma ok_reset : preserves remote_ok remote_reset.
Proof. unfold remote_reset. keep_ok. Qed.
Lemma ok_endpoint_failure e : preserves remote_ok (endpoint_failure e).
Proof. unfold endpoint_failure. keep_ok. apply ok_fail_device. Qed.

(** ** The worker *)
Definition rings_ok (w : remote) (d : virtio) : Prop :=
  ∀ r rg, vd_rings d !! r = Some rg → valid rg = true →
    ∃ vq, rg_vq rg = Z.of_nat vq ∧ GuestEnabled vq (sv_epochs w !!! vq) (rg_irq rg) ∈ rm_log w.
Lemma rings_kept w d d' : kept d d' → rings_ok w d → rings_ok w d'.
Proof.
  intros Hk Hr r rg' H' Hv'. destruct (kp_valid _ _ Hk _ _ H' Hv') as (rg&H&Hv).
  destruct (kp_rings _ _ Hk _ _ H) as (rg1&H1&Eo&Ei). assert (rg1 = rg') as -> by congruence.
  rewrite Eo, Ei. by apply (Hr r).
Qed.
(** What [post_effect] may post. *)
Definition postable (w : remote) (e : effect) : Prop :=
  ∀ r c rg, e = PublishedRemotely r c → vd_rings (sv_device w) !! r = Some rg →
    ∃ vq, rg_vq rg = Z.of_nat vq ∧ GuestEnabled vq (sv_epochs w !!! vq) (rg_irq rg) ∈ rm_log w.
Lemma ok_post e w :
  remote_ok w → postable w e →
  let w' := (post_effect e w).2 in
  remote_ok w' ∧ sv_device w' = sv_device w ∧ sv_epochs w' = sv_epochs w ∧ rm_log w' = rm_log w.
Proof.
  intros Hok He. unfold post_effect. erewrite M_bind_done by done.
  assert (Hpost : ∀ m, match m with WComplete vq irq _ n _ => GuestEnabled vq n irq ∈ rm_log w | _ => True end → remote_ok (post_main m w).2).
  { intros m Hm. destruct Hok as [H1 H2 H3 H4 H5 H6 H7 H8 H9 H10 H11 H12]. split; try done.
    intros vq irq d n c [H|H%list_elem_of_singleton]%elem_of_app; [by eapply H8|by subst m]. }
  destruct e; try (split; [by apply Hpost|done]); try done.
  destruct (vd_rings (sv_device w) !! r) as [rg|] eqn:Er; [|done]. destruct (He _ _ rg eq_refl Er) as (vq&Evq&Hin).
  destruct (epochs_current _ _); [|done]. split; [|done]. apply Hpost. by rewrite Evq, Nat2Z.id.
Qed.
Lemma ok_posts l w : remote_ok w → Forall (postable w) l → remote_ok (post_effects l w).2.
Proof.
  revert w; induction l as [|e l IH]; intros w Hok Hl; [done|]. apply Forall_cons in Hl as [He Hl]. cbn [post_effects].
  destruct (ok_post e w Hok He) as (Hok'&Ed&Ee&El). unfold mbind, M_bind.
  destruct (post_effect e w) as [[[]|x|] w']; cbn [snd] in *; [|done|done].
  apply IH; [done|]. eapply Forall_impl; [exact Hl|]. intros x Hx. unfold postable. by rewrite Ed, Ee, El.
Qed.
Definition with_device (d : virtio) (w : remote) : remote := w <| sv_device := d |>.
(** The device moves from [d0], which has done nothing yet. *)
Lemma ok_device {A} (m : M virtio A) d0 w :
  remote_ok (with_device d0 w) → vd_log d0 = vd_log (sv_device w) → kept d0 (m (sv_device w)).2 → remote_ok (on_device m w).2.
Proof.
  intros Hok El Hk. unfold on_device. destruct (m (sv_device w)) as [o d] eqn:Em. cbn [snd] in Hk.
  assert (Hr : rings_ok w d) by exact (rings_kept w d0 d Hk (ro_rings _ Hok)).
  assert (Hok' : remote_ok (with_device d w)).
  { destruct Hok as [H1 H2 H3 H4 H5 H6 H7 H8 H9 H10 H11 H12]. split; try done; [|by apply (kp_live _ _ Hk)].
    intros Hb%H9. apply nil_length_inv. change (length (vd_rings d) = 0%nat). rewrite (kp_length _ _ Hk). cbn in Hb. by rewrite Hb. }
  assert (Hl : Forall (postable (with_device d w)) (drop (length (vd_log (sv_device w))) (vd_log d))).
  { destruct (kp_log _ _ Hk) as (l&->&Hp). rewrite <- El, drop_app_length. apply Forall_forall. intros e He r c rg -> Hrg.
    destruct (Hp r c He) as (rg0&H0&Hv0). destruct (kp_rings _ _ Hk _ _ H0) as (rg1&H1&Eo&Ei).
    change (vd_rings (sv_device (with_device d w))) with (vd_rings d) in Hrg. assert (rg1 = rg) as -> by congruence.
    rewrite Eo, Ei. by apply (ro_rings _ Hok r rg0). }
  pose proof (ok_posts _ _ Hok' Hl) as H. change (w <| sv_device := d |>) with (with_device d w).
  destruct (post_effects _ _) as [[[]|x|] w']; exact H.
Qed.
Lemma ok_kept {A} (m : M virtio A) : stays kept m → preserves remote_ok (on_device m).
Proof.
  intros Hm w Hok. apply (ok_device m (sv_device w)); [|done|apply Hm]. revert Hok. by apply remote_ok_same; split; intros; first [done|by left].
Qed.

(** A new ring, made after the old one was invalidated, and the epoch its queue
    was enabled with. *)
Lemma invalidate_same vq d : vd_log (invalidate_at vq d) = vd_log d.
Proof. unfold invalidate_at. by destruct (qs_queue (state_at vq d)). Qed.
Definition told (vq : nat) (d n : Z) (w : remote) : remote :=
  w <| sv_device_epoch := d |> <| sv_epochs := <[vq := n]> (sv_epochs w) |>.
Lemma ok_told vq irq d n w : remote_ok w → GuestEnabled vq n irq ∈ rm_log w →
  remote_ok (with_device (invalidate_at (Z.of_nat vq) (sv_device w)) (told vq d n w)) ∧
  ∀ q, remote_ok (with_device (add_ring (Z.of_nat vq) irq q (invalidate_at (Z.of_nat vq) (sv_device w))).2 (told vq d n w)) ∨ sv_bound w = false.
Proof.
  intros Hok Hin. set (d1 := invalidate_at (Z.of_nat vq) (sv_device w)).
  assert (Hk : kept (sv_device w) d1) by apply kept_invalidate.
  assert (Hl : live d1) by by apply (kp_live _ _ Hk), ro_live.
  destruct (ro_old w Hok _ _ _ Hin) as [Hvq _].
  assert (Hr : ∀ r rg, vd_rings d1 !! r = Some rg → valid rg = true →
    ∃ v, rg_vq rg = Z.of_nat v ∧ v ≠ vq ∧ GuestEnabled v (sv_epochs w !!! v) (rg_irq rg) ∈ rm_log w).
  { intros r rg H Hv. destruct (rings_kept w _ _ Hk (ro_rings w Hok) r rg H Hv) as (v&Ev&Hv'). exists v. split_and!; [done| |done].
    intros ->. by rewrite (invalidate_gone _ _ _ _ (ro_live w Hok) H) in Hv. }
  assert (Hother : ∀ v, v ≠ vq → sv_epochs (told vq d n w) !!! v = sv_epochs w !!! v).
  { intros v Hne. apply list_lookup_total_insert_ne. done. }
  split; [|intros q; destruct (sv_bound w) eqn:Eb; [left|by right]].
  - destruct Hok as [H1 H2 H3 H4 H5 H6 H7 H8 H9 H10 H11 H12]. split; try done.
    + intros Hb%H9. apply nil_length_inv. change (length (vd_rings d1) = 0%nat). by rewrite (kp_length _ _ Hk), Hb.
    + cbn. by rewrite length_insert.
    + intros r rg H Hv. destruct (Hr r rg H Hv) as (v&?&?&?). exists v. split; [done|].
      change (sv_epochs (with_device d1 (told vq d n w))) with (sv_epochs (told vq d n w)). by rewrite Hother.
  - set (d2 := (add_ring _ _ _ d1).2).
    assert (Hnew : ∀ r rg, vd_rings d2 !! r = Some rg → vd_rings d1 !! r = Some rg ∨ r = length (vd_rings d1) ∧ rg = Ring (Z.of_nat vq) irq q false).
    { intros r rg. change (vd_rings d2) with (vd_rings d1 ++ [Ring (Z.of_nat vq) irq q false]).
      intros [H|[Hge H]]%lookup_app_Some; [by left|right]. apply list_lookup_singleton_Some in H as [? <-]. split; [lia|done]. }
    assert (Es : ∀ v, state_at v d2 = if decide (Z.of_nat vq = v) then QueueState (Some (length (vd_rings d1)))
      (qs_pending (state_at (Z.of_nat vq) d1)) (qs_notifying (state_at (Z.of_nat vq) d1)) else state_at v d1).
    { intros v. by apply state_at_insert. }
    destruct Hok as [H1 H2 H3 H4 H5 H6 H7 H8 H9 H10 H11 H12]. split; try done.
    + cbn. by rewrite Eb.
    + cbn. by rewrite length_insert.
    + intros r rg [H|[-> ->]]%Hnew Hv.
      * destruct (Hr r rg H Hv) as (v&?&?&?). exists v. split; [done|].
        change (sv_epochs (with_device d2 (told vq d n w))) with (sv_epochs (told vq d n w)). by rewrite Hother.
      * exists vq. split; [done|]. change (sv_epochs (with_device d2 (told vq d n w))) with (<[vq := n]> (sv_epochs w)).
        rewrite list_lookup_total_insert_eq; [exact Hin|]. by rewrite H10.
    + intros r rg [H|[-> ->]]%Hnew Hv; change (sv_device (with_device d2 (told vq d n w))) with d2; rewrite Es.
      * destruct (Hr r rg H Hv) as (v&Ev&?&_). rewrite decide_False by lia. by apply Hl.
      * by rewrite decide_True.
Qed.
Lemma ok_enable_message vq size a irq d n w : remote_ok w → GuestEnabled vq n irq ∈ rm_log w →
  remote_ok (on_message (MEnable vq size a irq d n) w).2.
Proof.
  intros Hok Hin. destruct (ok_told vq irq d n w Hok Hin) as [Ho1 Ho2]. cbn [on_message]. erewrite M_bind_done by done.
  change (w <| sv_device_epoch := d |> <| sv_epochs := <[vq:=n]> (sv_epochs w) |>) with (told vq d n w).
  unfold when_bound. erewrite M_bind_done by done. change (sv_bound (told vq d n w)) with (sv_bound w).
  set (d0 := sv_device w) in *. set (d1 := invalidate_at (Z.of_nat vq) d0) in *.
  destruct (sv_bound w) eqn:Eb.
  - unfold on_device. change (sv_device (told vq d n w)) with d0.
    destruct (packed_virtqueue (vd_memory d1) size a (vd_views d1)) as [q|x|] eqn:Eq.
    + apply (ok_device (enable_queue (Z.of_nat vq) size a irq) (add_ring (Z.of_nat vq) irq q d1).2 (told vq d n w)).
      * destruct (Ho2 q) as [H|?]; [exact H|congruence].
      * apply invalidate_same.
      * change (sv_device (told vq d n w)) with d0. unfold enable_queue. erewrite (M_bind_done _ _ d0 tt d1) by done.
        erewrite M_bind_done by done. erewrite (M_bind_done _ _ d1 q d1) by (unfold lift; by rewrite Eq).
        erewrite M_bind_done by done. erewrite M_bind_done by done. destruct (qs_pending _); [apply kept_drain|reflexivity].
    + apply (ok_device (enable_queue (Z.of_nat vq) size a irq) d1 (told vq d n w)); [done|apply invalidate_same|].
      change (sv_device (told vq d n w)) with d0. unfold enable_queue. erewrite (M_bind_done _ _ d0 tt d1) by done.
      erewrite M_bind_done by done. by erewrite (M_bind_raise _ _ d1 x d1) by (unfold lift; by rewrite Eq).
    + apply (ok_device (enable_queue (Z.of_nat vq) size a irq) d1 (told vq d n w)); [done|apply invalidate_same|].
      change (sv_device (told vq d n w)) with d0. unfold enable_queue. erewrite (M_bind_done _ _ d0 tt d1) by done.
      erewrite M_bind_done by done. by erewrite (M_bind_loops _ _ d1 d1) by (unfold lift; by rewrite Eq).
  - revert Ho1. assert (E : vd_rings d0 = []) by by apply (ro_unbound w Hok).
    assert (vd_rings d1 = []) as E1 by (apply nil_length_inv; by rewrite (kp_length _ _ (kept_invalidate _ _ : kept d0 d1)), E).
    apply remote_ok_same. split; intros; try done; [by left|by left| |by rewrite <- invalidate_states with (vq := Z.of_nat vq)].
    change (vd_rings d0 = vd_rings d1). congruence.
Qed.
Lemma kept_target a config : stays kept (set_target a config).
Proof. unfold set_target. stays_with ltac:(apply stays_modify; intros; by apply kept_plain). Qed.
Lemma kept_setup irq a n : stays kept (setup irq a n).
Proof.
  unfold setup, update_config, raise, assert_m. repeat (stays_with ltac:(first [apply kept_target | by apply kept_emit
    | apply stays_modify; intros; by apply kept_plain]); match goal with |- stays _ (match vd_attached ?d with _ => _ end) => destruct (vd_attached d) as [[]|] end);
  stays_with ltac:(first [apply kept_target | by apply kept_emit | apply stays_modify; intros; by apply kept_plain]).
Qed.
Lemma kept_attach : stays kept attach.
Proof. unfold attach, assert_m. stays_with ltac:(apply stays_modify; intros; by apply kept_plain). Qed.
Lemma ok_bound m : preserves remote_ok m → preserves remote_ok (when_bound m).
Proof. intros Hm. unfold when_bound. keep_ok. Qed.
Lemma ok_message m :
  match m with MEnable _ _ _ _ _ _ => False | _ => True end → preserves remote_ok (on_message m).
Proof.
  destruct m; intros Hm; try done; cbn [on_message].
  - unfold assert_m. keep_ok; apply ok_kept, kept_attach.
  - apply ok_bound, ok_kept, (kept_step (SetFeatures features)). done.
  - apply ok_bound, ok_kept, kept_setup.
  - apply ok_bound, ok_kept, (kept_step (DisableQueue (Z.of_nat vq))). done.
  - apply ok_bound, ok_kept, kept_notify.
  - keep_ok. apply ok_kept, kept_reset.
  - keep_ok. apply ok_kept, (kept_step (Shutdown None)). done.
Qed.
Definition deliverable (w : remote) (m : device_message) : Prop :=
  match m with MEnable vq _ _ irq _ n => GuestEnabled vq n irq ∈ rm_log w | _ => True end.
Lemma ok_serve m w : remote_ok w → deliverable w m → remote_ok (serve m w).2.
Proof.
  intros Hok Hm. assert (H : remote_ok (on_message m w).2).
  { destruct m; try by apply ok_message. by apply ok_enable_message. }
  unfold serve. destruct (on_message m w) as [[[]|e|] w']; try exact H. by apply ok_post_main.
Qed.
Lemma ok_report_closed : preserves remote_ok report_closed.
Proof. unfold report_closed. keep_ok. destruct (vd_closing (sv_device a)); keep_ok. Qed.
Lemma remote_step_ok e : preserves remote_ok (remote_step e).
Proof.
  intros w Hok. unfold remote_step. erewrite M_bind_done by done.
  assert (Hdev : ∀ x, device_event e w = Some x → remote_ok (on_device (step x) w).2).
  { intros x Hx. apply ok_kept; [|done]. apply kept_step. by destruct e; try done; injection Hx as <-. }
  destruct e; try (by apply Hdev).
  - by apply ok_attach.
  - by apply ok_connected, Hok; apply ok_features.
  - by apply ok_connected, Hok; apply ok_setup.
  - by apply ok_connected, Hok; apply ok_enable.
  - by apply ok_connected, Hok; apply ok_disable.
  - by apply ok_connected, Hok; apply ok_post_worker.
  - by apply ok_connected, Hok; apply ok_reset.
  - by apply ok_shutdown.
  - destruct (rm_listening w); [by apply ok_endpoint_failure|done].
  - destruct (to_main w) as [|m rest] eqn:Em; [done|]. erewrite M_bind_done by done.
    assert (Hok' : remote_ok (w <| to_main := rest |>)).
    { revert Hok. apply remote_ok_same. split; try done; [by left|]. intros x Hx. left. rewrite Em. by right. }
    destruct (rm_listening w); [|done]. apply ok_receive; [done|].
    destruct m; try done. apply (ro_completes w Hok _ _ device_epoch _ c). rewrite Em. by left.
  - destruct (to_worker w) as [|m rest] eqn:Em; [done|]. erewrite M_bind_done by done.
    assert (Hok' : remote_ok (w <| to_worker := rest |>)).
    { revert Hok. apply remote_ok_same. split; try done; [|by left]. intros x Hx. left. rewrite Em. by right. }
    destruct (sv_listening w); [|done]. apply ok_serve; [done|].
    destruct m; try done. apply (ro_enables w Hok vq size descriptor_address irq device_epoch queue_epoch). rewrite Em. by left.
  - by apply ok_report_closed.
Qed.
Lemma remote_new_ok n f v config : remote_ok (remote_new n f v config).
Proof.
  assert (H0 : ∀ vq, epoch (S vq) (remote_new n f v config) = 0).
  { intros vq. change (epoch (S vq) (remote_new n f v config)) with (default 0 (replicate (S n) 0 !! S vq)).
    destruct (replicate (S n) 0 !! S vq) as [x|] eqn:E; [|done]. by apply lookup_replicate in E as [-> _]. }
  split; try (intros vq; rewrite H0; done); cbn; rewrite ?length_replicate; try done.
  - by intros vq m irq ?%not_elem_of_nil.
  - by intros vq m irq irq' ?%not_elem_of_nil.
  - intros vq H. apply lookup_replicate in H as [[=] _].
  - intros _ l1 vq m irq c l2 E. by destruct l1.
  - by intros vq s a irq d m ?%not_elem_of_nil.
  - by intros vq irq d m c ?%not_elem_of_nil.
Qed.
Lemma remote_run_ok es w : remote_ok w → remote_ok (remote_run es w).
Proof. revert w; induction es as [|e es IH]; intros w Hw; [done|]. by apply (IH (remote_step e w).2), remote_step_ok. Qed.

(** C5: whatever the main thread and the worker do, in whatever order they take
    turns, a completion is committed to guest memory, and its interrupt raised,
    only while the very enablement of the queue under which the worker produced
    it is in force: the guest's last call for the queue enabled it with this epoch
    and this interrupt, and the device was not reset or shut down since. The
    epochs are compared as int32s, so this is up to 2^32 such steps. *)
Theorem remote_commits_in_force queues features views config es l1 vq n irq c l2 :
  let w := remote_run es (remote_new queues features views config) in
  bounded (rm_log w) → rm_log w = l1 ++ Committed vq n irq c :: l2 → in_force vq l1 = Some (n, irq).
Proof. intros w Hb. apply (ro_commits w); [|done]. apply remote_run_ok, remote_new_ok. Qed.

(** ** Runs

    The guest enables a queue with one descriptor of four bytes to write and
    notifies it; the worker serves it. *)
Definition remote_memory : list Z := sample_descriptor 64 4 7 (AVAIL ||| WRITE) ++ zeros 112.
Definition served : list remote_event :=
  [GAttach; GWrites remote_memory; GEnable 0 4 0 5; GNotify 0; WorkerReceives; WorkerReceives; WorkerReceives;
   UsesRing 0 CallNext; UsesRing 0 (CallRelease 7 1 4 [Output 64 [1; 2; 3; 4]])].
Definition remote_sample : remote := remote_new 1 0 false [].
Definition sample_completion : completion := Completion 0 7 4 (AVAIL ||| USED ||| WRITE) [Output 64 [1; 2; 3; 4]].

Example served_log : rm_log (remote_run (served ++ [MainReceives]) remote_sample) =
  [GuestEnabled 0 1 5; Committed 0 1 5 sample_completion].
Proof. vm_compute. reflexivity. Qed.
(** The guest resets, or enables the queue again, before the completion arrives. *)
Example stale_after_reset :
  rm_log (remote_run (served ++ [GReset; MainReceives]) remote_sample) = [GuestEnabled 0 1 5; Revoked].
Proof. vm_compute. reflexivity. Qed.
Example stale_after_enable :
  rm_log (remote_run (served ++ [GEnable 0 4 0 6; MainReceives]) remote_sample) = [GuestEnabled 0 1 5; GuestEnabled 0 2 6].
Proof. vm_compute. reflexivity. Qed.
Lemma remote_commits_in_force_witness :
  bounded [GuestEnabled 0 1 5; Committed 0 1 5 sample_completion] ∧ in_force 0 [GuestEnabled 0 1 5] = Some (1, 5).
Proof.
  assert (El : rm_log (remote_run (served ++ [MainReceives]) remote_sample) = [GuestEnabled 0 1 5; Committed 0 1 5 sample_completion])
    by (vm_compute; reflexivity).
  assert (Hb : bounded [GuestEnabled 0 1 5; Committed 0 1 5 sample_completion]) by (vm_compute; reflexivity).
  split; [exact Hb|].
  apply (remote_commits_in_force 1 0 false [] (served ++ [MainReceives]) [GuestEnabled 0 1 5] 0 1 5 sample_completion []).
  - change (remote_new 1 0 false []) with remote_sample. rewrite El. exact Hb.
  - exact El.
Defined.
