(* ===== verification/RemoteResets.v ===== *)
(** The resets of a device in a worker: when the main thread may tell the guest
    that a reset is complete.

    [resets], [receive]'s [reset_done], [release_resets] and the worker's
    [reset] of packages/kernel/src/virtio/remote.ts, over the device of
    Device.v and the two ends of Remote.v. *)
From S2P Require Export Remote.

(** * The device's resets *)

(** The resets whose promise has been resolved, and the resolutions logged. *)
Definition resolved (l : list (list nat * bool)) : nat := length (filter (fun p => p.2 = true) l).
Definition is_done (e : effect) : bool := match e with ResetDone _ => true | _ => false end.
Definition resolutions (l : list effect) : nat := length (filter is_done l).
Lemma resolved_app l l' : resolved (l ++ l') = (resolved l + resolved l')%nat.
Proof. unfold resolved. by rewrite filter_app, length_app. Qed.
Lemma resolutions_app l l' : resolutions (l ++ l') = (resolutions l + resolutions l')%nat.
Proof. unfold resolutions. by rewrite filter_app, length_app. Qed.
Lemma resolved_bound l : (resolved l ≤ length l)%nat.
Proof. apply length_filter. Qed.

(** Work that has not settled is active; a resolved reset has all it waited for
    settled. *)
Definition unsettled_active (d : virtio) : Prop := ∀ t w, vd_tasks d !! t = Some (Task w None) → t ∈ vd_active d.
Definition waited (d : virtio) : Prop := ∀ k seen t, vd_resets d !! k = Some (seen, true) → t ∈ seen → is_settled t d = true.

(** [close()] is called when all the work there is has settled. *)
Definition all_settled (d d' : virtio) : Prop := ∀ t, (t < length (vd_tasks d))%nat → is_settled t d' = true.
Definition closes_settled (d d' : virtio) : Prop :=
  unsettled_active d → close_started d' = true → close_started d = true ∨ all_settled d d'.
#[export] Hint Extern 0 (closes_settled _ _) => solve [intros ? ?; left; assumption] : core.
Lemma idle_settled d : unsettled_active d → vd_active d = [] → all_settled d d.
Proof.
  intros Hu Ha t [[w [o|]] Ht]%lookup_lt_is_Some; unfold is_settled, settled; rewrite Ht; [done|].
  apply Hu in Ht. rewrite Ha in Ht. by apply not_elem_of_nil in Ht.
Qed.

(** What a step that is no reset does. *)
Record resolves (d d' : virtio) : Prop := {
  rv_views : vd_views d' = vd_views d;
  rv_grows : grows d d';
  rv_length : length (vd_resets d') = length (vd_resets d);
  rv_log : ∃ l, vd_log d' = vd_log d ++ l ∧ resolved (vd_resets d') = (resolved (vd_resets d) + resolutions l)%nat;
  rv_active : still_active d d';
  rv_unsettled : unsettled_active d → unsettled_active d';
  rv_tasks : (length (vd_tasks d) ≤ length (vd_tasks d'))%nat;
  rv_closing : closes_settled d d' }.
#[export] Instance resolves_preorder : PreOrder resolves.
Proof.
  split.
  - intros d. split; try done. exists []. rewrite app_nil_r. split; [done|]. unfold resolutions. rewrite filter_nil. cbn. lia.
  - intros a b c [V1 G1 N1 (l1&E1&C1) A1 U1 T1 K1] [V2 G2 N2 (l2&E2&C2) A2 U2 T2 K2]. split; [congruence|by etrans|congruence| | |auto|lia|].
    + exists (l1 ++ l2). rewrite E2, E1, app_assoc, resolutions_app. split; [done|lia].
    + intros t [H|H]%A1; [by apply A2|right; by apply (gr_settled _ _ G2)].
    + intros Hu Hc. destruct (K2 (U1 Hu) Hc) as [Hb|Hb].
      * destruct (K1 Hu Hb) as [Ha|Ha]; [by left|right]. intros t Ht. by apply (gr_settled _ _ G2), Ha.
      * right. intros t Ht. apply Hb. lia.
Qed.
Lemma resolves_same d d' :
  vd_views d' = vd_views d → vd_tasks d' = vd_tasks d → vd_resets d' = vd_resets d → vd_active d' = vd_active d →
  vd_closing d' = vd_closing d → (∃ l, vd_log d' = vd_log d ++ l ∧ resolutions l = 0%nat) → resolves d d'.
Proof.
  intros E1 E2 E3 E4 Ec (l&E5&E6). split; [done|by apply grows_same|by rewrite E3| | | |by rewrite E2|].
  - exists l. rewrite E3, E6. split; [done|lia].
  - intros t Ht. left. by rewrite E4.
  - unfold unsettled_active. by rewrite E2, E4.
  - intros _. unfold close_started. rewrite Ec. by left.
Qed.
Lemma no_resolution (l : list effect) : ∃ l', l = l ++ l' ∧ resolutions l' = 0%nat.
Proof. exists []. by rewrite app_nil_r. Qed.
Lemma resolves_emit e : is_done e = false → stays resolves (emit e).
Proof.
  intros He d. apply resolves_same; try done. exists [e]. split; [done|]. unfold resolutions. by rewrite filter_cons, He.
Qed.
Lemma unsettled_settled t w d : vd_tasks d !! t = Some (Task w None) → is_settled t d = true → False.
Proof. unfold is_settled, settled. by intros ->. Qed.
Lemma resolves_plain d d' : plain_change d d' → resolves d d'.
Proof.
  intros [V A _ _ E4 _ E6 E7 Ec]. split; [done|by apply grows_same|by rewrite E6| |done| |by rewrite E4|].
  - destruct (no_resolution (vd_log d)) as (l&El&Hl). exists l. rewrite E7, E6, Hl. split; [done|lia].
  - intros H t w Ht. pose proof Ht as Ht'. rewrite E4 in Ht. destruct (A t (H t w Ht)); [done|]. by destruct (unsettled_settled t w d').
  - intros Hu [Hc|Hc]%Ec; [by left|right]. intros t Ht. unfold is_settled, settled. rewrite E4. by apply idle_settled.
Qed.
Ltac resolve := first [by apply resolves_emit | by apply resolves_same; [..|apply no_resolution]
  | apply stays_modify; intros; by apply resolves_same; [..|apply no_resolution]].
Lemma resolves_state vq f : stays resolves (set_state vq f).
Proof. intros d. resolve. Qed.
Lemma resolves_invalidate vq d : resolves d (invalidate_at vq d).
Proof. unfold invalidate_at. destruct (qs_queue _); [resolve|done]. Qed.
Lemma resolves_drop vq : stays resolves (drop_queue vq).
Proof.
  unfold drop_queue. apply stays_bind; [typeclasses eauto|apply stays_modify; apply resolves_invalidate|]. intros _.
  apply stays_bind; [typeclasses eauto|apply resolves_state|]. intros _. resolve.
Qed.
Lemma resolves_drops l : stays resolves (drop_queues l).
Proof. induction l; cbn [drop_queues]; [apply stays_ret; typeclasses eauto|]. apply stays_bind; [typeclasses eauto|apply resolves_drop|by intros _]. Qed.
Lemma resolves_use r hook k : stays resolves (use_ring r hook k).
Proof.
  unfold use_ring, completed. apply stays_bind; [typeclasses eauto|apply stays_get; typeclasses eauto|intros d].
  destruct (vd_rings d !! r) as [rg|]; [|apply stays_ret; typeclasses eauto]. destruct (run_call _ _) as [o q].
  apply stays_bind; [typeclasses eauto|resolve|]. intros _. apply stays_bind; [typeclasses eauto|apply stays_lift; typeclasses eauto|]. intros _.
  destruct (q_published q); stays_with ltac:(first [resolve | intros ?; resolve]).
Qed.
Lemma resolves_microtask : stays resolves microtask.
Proof.
  unfold microtask. apply stays_bind; [typeclasses eauto|apply stays_get; typeclasses eauto|intros d].
  destruct (vd_microtasks d); [apply stays_ret; typeclasses eauto|].
  destruct (vd_rings d !! _); stays_with ltac:(first [resolve | intros ?; resolve]).
Qed.
Lemma resolves_work w : stays resolves (add_active w).
Proof.
  intros d. split; try done; [apply grows_work| | | |cbn; rewrite length_app; lia].
  - destruct (no_resolution (vd_log d)) as (l&El&Hl). exists l. by rewrite Hl, Nat.add_0_r.
  - intros t Ht. left. apply elem_of_app. by left.
  - intros H t k. cbn. intros [Ht|[Hge Ht]]%lookup_app_Some; [apply elem_of_app; left; by eapply H|].
    apply list_lookup_singleton_Some in Ht as [Ht _]. apply elem_of_app. right. apply list_elem_of_singleton. lia.
Qed.
Lemma resolves_settle t o : stays resolves (settle t o).
Proof.
  intros d. split; try done; [apply grows_settle| | |cbn; by rewrite length_alter].
  - destruct (no_resolution (vd_log d)) as (l&El&Hl). exists l. by rewrite Hl, Nat.add_0_r.
  - intros H u w. cbn. destruct (decide (u = t)) as [->|Hne]; [|rewrite list_lookup_alter_ne by done; apply H].
    rewrite list_lookup_alter_eq. destruct (vd_tasks d !! t) as [[k [x|]]|]; cbn; congruence.
Qed.
Lemma resolved_alter k l seen :
  l !! k = Some (seen, false) → resolved (alter (fun p => (p.1, true)) k l) = S (resolved l).
Proof.
  revert k; induction l as [|[x b] l IH]; intros [|k]; try done.
  - intros [= -> ->]. unfold resolved. change (alter (fun p : list nat * bool => (p.1, true)) 0%nat ((seen, false) :: l)) with ((seen, true) :: l).
    by rewrite !filter_cons.
  - intros H%IH. change (resolved ([(x, b)] ++ alter (fun p => (p.1, true)) k l) = S (resolved ([(x, b)] ++ l))).
    rewrite !resolved_app, H. lia.
Qed.
Lemma resolves_resume k : stays resolves (resume_reset k).
Proof.
  intros d. pose proof (grows_resume_reset k d) as Hg. revert Hg. unfold resume_reset. erewrite M_bind_done by done.
  destruct (vd_resets d !! k) as [[seen []]|] eqn:E; try done. destruct (forallb _ _) eqn:Ef; [|done].
  intros Hg. split; try done.
  - apply length_alter.
  - exists [ResetDone k]. split; [done|].
    change (resolved (alter (fun p => (p.1, true)) k (vd_resets d)) = (resolved (vd_resets d) + 1)%nat).
    rewrite (resolved_alter k _ seen) by done. lia.
Qed.
Lemma resolves_ordinary e : ordinary e = true → stays resolves (emit e).
Proof. intros H. apply resolves_emit. by destruct e. Qed.
Lemma resolves_round vq r d : qs_queue (state_at vq d) = Some r → resolves d (drain_round vq r d).2.
Proof.
  intros _. apply frame_round; auto using resolves_ordinary, resolves_plain, resolves_work, resolves_state; [typeclasses eauto|]. by apply resolves_emit.
Qed.
Lemma step_resolves e : e ≠ Reset → stays resolves (step e).
Proof.
  intros He. apply step_frame; auto using resolves_ordinary, resolves_plain, resolves_work, resolves_state, resolves_round, resolves_drop,
    resolves_use, resolves_microtask, resolves_settle, resolves_resume.
  - typeclasses eauto.
  - destruct e; try done. apply frame_enable; auto using resolves_plain, resolves_state, resolves_round; [typeclasses eauto| |].
    + intros v. apply stays_modify, resolves_invalidate.
    + intros v i q d. resolve.
Qed.
(** [reset()] adds one, resolved at once unless the device holds views. *)
Lemma reset_adds d :
  let d' := (reset d).2 in
  (reset d).1 = Done tt ∧ vd_views d' = vd_views d ∧ vd_tasks d' = vd_tasks d ∧ vd_active d' = vd_active d ∧
  vd_resets d' = vd_resets d ++ [(if vd_views d then vd_active d else [], negb (vd_views d))] ∧
  ∃ l, vd_log d' = vd_log d ++ l ∧ resolutions l = (if vd_views d then 0 else 1)%nat.
Proof.
  destruct (drop_queues_spec (map_to_list (vd_states d)).*1 d) as (H0&Ha&Et&Er&Ev&_&Es&_).
  destruct (rv_log _ _ (resolves_drops (map_to_list (vd_states d)).*1 d)) as (l1&El&Hl).
  unfold reset. erewrite M_bind_done by done. set (d1 := (drop_queues _ d).2) in *. rewrite Er in Hl.
  rewrite (M_bind_done _ _ d tt d1) by (rewrite <- H0; apply surjective_pairing).
  set (l2 := if vd_stopped d then [] else [ResetCalled]). set (d2 := d1 <| vd_log := vd_log d1 ++ l2 |>).
  assert (E2 : (if vd_stopped d then mret tt else emit ResetCalled) d1 = (Done tt, d2)).
  { unfold d2, l2. destruct (vd_stopped d); [|done]. rewrite app_nil_r. by destruct d1. }
  rewrite (M_bind_done _ _ d1 tt d2) by exact E2. do 2 erewrite M_bind_done by done.
  assert (H2 : resolutions l2 = 0%nat) by (unfold l2; by destruct (vd_stopped d)).
  change (vd_resets d2) with (vd_resets d1). change (vd_views d2) with (vd_views d1). change (vd_active d2) with (vd_active d1).
  rewrite Er, Ev, Ha. destruct (vd_views d).
  - split_and!; try done. exists (l1 ++ l2). split; [by rewrite app_assoc, <- El|]. rewrite resolutions_app. lia.
  - split_and!; try done.
    + change (alter (fun p : list nat * bool => (p.1, true)) (length (vd_resets d)) (vd_resets d ++ [([], false)]) = vd_resets d ++ [([], true)]).
      rewrite alter_app_r_alt by lia. by rewrite Nat.sub_diag.
    + exists (l1 ++ l2 ++ [ResetDone (length (vd_resets d))]). split; [by rewrite !app_assoc, <- El|].
      rewrite !resolutions_app. change (resolutions [ResetDone (length (vd_resets d))]) with 1%nat. lia.
Qed.

(** The work [t] has settled, or every reset from the [k]-th on waits for it. *)
Definition awaits (t k : nat) (d : virtio) : Prop :=
  is_settled t d = true ∨ (t ∈ vd_active d ∧ ∀ j seen b, (k ≤ j)%nat → vd_resets d !! j = Some (seen, b) → t ∈ seen).
Lemma resolves_lookup d d' j seen b :
  resolves d d' → vd_resets d' !! j = Some (seen, b) → ∃ b0, vd_resets d !! j = Some (seen, b0) ∧
    (b = true → b0 = true ∨ ∀ t, t ∈ seen → is_settled t d' = true).
Proof.
  intros Hr Hj. destruct (vd_resets d !! j) as [[s b0]|] eqn:E.
  - destruct (gr_resets _ _ (rv_grows _ _ Hr) _ _ _ E) as (b1&E1&Hb). assert (s = seen ∧ b1 = b) as [-> ->] by (split; congruence). by exists b0.
  - apply lookup_ge_None in E. apply lookup_lt_Some in Hj. rewrite (rv_length _ _ Hr) in Hj. lia.
Qed.
Lemma awaits_resolves t k d d' : resolves d d' → awaits t k d → awaits t k d'.
Proof.
  intros Hr [H|[H1 H2]]; [left; by apply (gr_settled _ _ (rv_grows _ _ Hr))|].
  destruct (rv_active _ _ Hr t H1) as [H1'|H1']; [right|by left]. split; [done|]. intros j seen b Hj Hs.
  destruct (resolves_lookup _ _ _ _ _ Hr Hs) as (b0&H0&_). by eapply H2.
Qed.
Lemma awaits_reset t k d : vd_views d = true → awaits t k d → awaits t k (reset d).2.
Proof.
  intros Hv. destruct (reset_adds d) as (_&_&Et&Ea&Er&_). unfold awaits, is_settled, settled. rewrite Et, Ea, Er, Hv.
  intros [H|[H1 H2]]; [by left|right]. split; [done|]. intros j seen b Hj [H|[Hge H]]%lookup_app_Some; [by eapply H2|].
  by apply list_lookup_singleton_Some in H as [_ [= <- _]].
Qed.
Lemma waited_resolves d d' : resolves d d' → waited d → waited d'.
Proof.
  intros Hr Hw k seen t Hk Ht. destruct (resolves_lookup _ _ _ _ _ Hr Hk) as (b0&H0&[->|H]); [done| |by apply H].
  apply (gr_settled _ _ (rv_grows _ _ Hr)). by eapply Hw.
Qed.
Lemma waited_reset d : waited d → waited (reset d).2.
Proof.
  destruct (reset_adds d) as (_&_&Et&Ea&Er&_). unfold waited, is_settled, settled. rewrite Et, Er.
  intros Hw k seen t [H|[Hge H]]%lookup_app_Some Ht; [by eapply Hw|]. apply list_lookup_singleton_Some in H as [_ [= Es Eb]].
  destruct (vd_views d); [done|]. subst seen. by apply not_elem_of_nil in Ht.
Qed.
(** If more than [k] resets are resolved, one from the [k]-th on is. *)
Lemma awaits_settled t k d : awaits t k d → waited d → (k < resolved (vd_resets d))%nat → is_settled t d = true.
Proof.
  intros [H|[_ H]] Hw Hk; [done|]. rewrite <- (take_drop k (vd_resets d)), resolved_app in Hk.
  pose proof (resolved_bound (take k (vd_resets d))) as Hb. rewrite length_take in Hb.
  destruct (filter (fun p => p.2 = true) (drop k (vd_resets d))) as [|[seen b] l] eqn:E; [unfold resolved in *; rewrite E in Hk; cbn in *; lia|].
  assert (Hin : (seen, b) ∈ filter (fun p => p.2 = true) (drop k (vd_resets d))) by (rewrite E; by left).
  apply list_elem_of_filter in Hin as [Hb' Hin]. cbn in Hb'. subst b. apply list_elem_of_lookup_1 in Hin as [i Hi].
  rewrite lookup_drop in Hi. apply (Hw _ _ _ Hi), (H (k + i)%nat _ true); [lia|done].
Qed.

(** * The two ends *)
Definition answered (l : list remote_effect) : list nat := omap (fun e => match e with Acknowledged k => Some k | _ => None end) l.
Definition is_answer (m : worker_message) : bool := match m with WResetDone => true | _ => false end.
Definition is_reset (m : device_message) : bool := match m with MReset => true | _ => false end.
Definition is_bind (m : device_message) : bool := match m with MBind => true | _ => false end.
Definition pending (w : remote) : nat := length (filter is_answer (to_main w)).
Definition unhandled (w : remote) : nat := length (filter is_reset (to_worker w)).
Definition device_resets (w : remote) : list (list nat * bool) := vd_resets (sv_device w).
(** The main thread has been told, or is about to be, that the device has closed. *)
Definition is_closed (m : worker_message) : Prop := match m with WClosed _ => True | _ => False end.
Definition is_release (e : remote_effect) : Prop := match e with Released _ => True | _ => False end.
Definition told_closed (w : remote) : Prop := Exists is_closed (to_main w) ∨ Exists is_release (rm_log w).
Definition no_binds (l : list device_message) : Prop := Forall (fun m => is_bind m = false) l.
Definition no_resets (l : list device_message) : Prop := Forall (fun m => is_reset m = false) l.

(** What a step does that neither asks for a reset, nor handles or acknowledges
    one, nor binds the device. *)
Lemma no_more l : ∃ l', l = l ++ l' ∧ no_binds l' ∧ no_resets l'.
Proof. exists []. rewrite app_nil_r. split; [done|]. split; constructor. Qed.
Record moves (w w' : remote) : Prop := {
  mv_connected : rm_connected w' = rm_connected w;
  mv_bound : sv_bound w' = sv_bound w;
  mv_worker : ∃ l, to_worker w' = to_worker w ++ l ∧ no_binds l ∧ no_resets l;
  mv_device : resolves (sv_device w) (sv_device w');
  mv_pending : (pending w' + resolved (device_resets w) ≤ pending w + resolved (device_resets w'))%nat;
  mv_answered : answered (rm_log w') = answered (rm_log w);
  mv_asked : rm_asked w' = rm_asked w;
  mv_listening : rm_listening w' = true → rm_listening w = true ∧ rm_resets w' = rm_resets w;
  mv_serving : sv_listening w' = sv_listening w;
  mv_told : told_closed w' → told_closed w ∨ sv_listening w = false }.
#[export] Instance moves_preorder : PreOrder moves.
Proof.
  split.
  - intros w. split; try done; [apply no_more|by left].
  - intros a b c [] []. split; try congruence; [|by etrans|lia| |].
    + destruct mv_worker0 as (l1&E1&B1&R1), mv_worker1 as (l2&E2&B2&R2). exists (l1 ++ l2). rewrite E2, E1, app_assoc.
      split; [done|]. split; by apply Forall_app.
    + intros [H1 E1]%mv_listening1. destruct (mv_listening0 H1) as [H2 E2]. split; [done|congruence].
    + intros [H1|H1]%mv_told1; [auto|]. right. congruence.
Qed.
(** Nothing but what the relation does not see. *)
Lemma moves_same w w' :
  rm_connected w' = rm_connected w → sv_bound w' = sv_bound w → to_worker w' = to_worker w →
  resolves (sv_device w) (sv_device w') → device_resets w' = device_resets w → pending w' = pending w →
  answered (rm_log w') = answered (rm_log w) → rm_asked w' = rm_asked w →
  (rm_listening w' = true → rm_listening w = true ∧ rm_resets w' = rm_resets w) →
  sv_listening w' = sv_listening w → (told_closed w' → told_closed w ∨ sv_listening w = false) → moves w w'.
Proof.
  intros E1 E2 E3 E4 E5 E6 E7 E8 E9 E10 E11. split; try done; [|by rewrite E5, E6].
  rewrite E3. apply no_more.
Qed.
#[export] Hint Extern 0 (told_closed _ → told_closed _ ∨ _) => solve [intros ?; left; assumption] : core.
Lemma answered_same l e : match e with Acknowledged _ => False | _ => True end → answered (l ++ [e]) = answered l.
Proof. intros He. unfold answered. rewrite omap_app. cbn. destruct e; try done; by rewrite app_nil_r. Qed.
Lemma moves_log e : match e with Acknowledged _ | Released _ => False | _ => True end → stays moves (log_remote e).
Proof.
  intros He w. apply moves_same; try done; [apply answered_same; by destruct e|]. intros [H|H]; left; [by left|right].
  apply Exists_app in H as [H|H]; [done|]. apply Exists_cons in H as [H|H]; [by destruct e|by apply Exists_nil in H].
Qed.
Lemma moves_post_worker m : is_bind m = false → is_reset m = false → stays moves (post_worker m).
Proof.
  intros Hb Hr w. split; try done. exists [m]. split; [done|]. split; by constructor.
Qed.
Lemma told_posts w ms d : Forall (fun m => ¬ is_closed m) ms →
  told_closed (w <| sv_device := d |> <| to_main := to_main w ++ ms |>) → told_closed w.
Proof.
  intros Hms [H|H]; [left|by right]. apply Exists_app in H as [H|H]; [done|]. by apply (Forall_not_Exists is_closed ms) in Hms.
Qed.
Lemma moves_post_main m : is_answer m = false → ¬ is_closed m → stays moves (post_main m).
Proof.
  intros Hm Hc w. apply moves_same; try done.
  - unfold pending. cbn. rewrite filter_app, filter_cons, Hm. cbn. by rewrite app_nil_r.
  - intros H. left. apply (told_posts w [m] (sv_device w)); [by constructor|exact H].
Qed.
Ltac move_leaf := first
  [ by apply moves_log | by apply moves_post_worker | by apply moves_post_main
  | apply stays_modify; intros; by apply moves_same
  | intros ?; by apply moves_same ].
Ltac moving := stays_with ltac:(move_leaf).
Lemma moves_revoke : stays moves revoke.
Proof. unfold revoke, bump_epoch. moving. Qed.
Lemma moves_fail e : stays moves (fail_connection e).
Proof. unfold fail_connection, bump_epoch. moving. Qed.
Lemma moves_write f : stays moves (write_memory f).
Proof.
  unfold write_memory. stays_with ltac:(first [move_leaf | apply stays_modify; intros; apply moves_same; try done; by apply resolves_plain]).
Qed.
Lemma moves_settle_closed o : stays moves (settle_closed o).
Proof. unfold settle_closed. moving. Qed.
Lemma moves_fail_device e : stays moves (fail_device e).
Proof. unfold fail_device. stays_with ltac:(first [apply moves_fail | apply moves_settle_closed | move_leaf]). Qed.
Lemma moves_endpoint e : stays moves (endpoint_failure e).
Proof. unfold endpoint_failure. apply stays_bind; [typeclasses eauto|move_leaf|]. intros _. apply moves_fail_device. Qed.
Lemma moves_connected m : stays moves m → stays moves (when_connected m).
Proof. intros Hm. unfold when_connected. stays_with ltac:(first [exact Hm | move_leaf]). Qed.

(** [closed]: the listeners are gone when the resets are released. *)
Definition deaf (w : remote) : Prop := rm_listening w = false ∧ sv_listening w = false.
Definition deaf_moves (w w' : remote) : Prop := deaf w → deaf w' ∧ moves w w'.
#[export] Instance deaf_preorder : PreOrder deaf_moves.
Proof.
  split; [by intros w ?|]. intros a b c H1 H2 Ha. destruct (H1 Ha) as [Hb M1]. destruct (H2 Hb) as [Hc M2]. split; [done|by etrans].
Qed.
Lemma deafly {A} (m : M remote A) : stays moves m → stays deaf_moves m.
Proof.
  intros Hm w [Hw Hs]. pose proof (Hm w) as H. split; [|done]. split; [|by rewrite (mv_serving _ _ H)].
  destruct (rm_listening (m w).2) eqn:E; [|done]. destruct (mv_listening _ _ H E) as [E' _]. congruence.
Qed.
Lemma deaf_release l : stays deaf_moves (release_resets l).
Proof.
  induction l as [|k l IH]; cbn [release_resets]; [apply stays_ret; typeclasses eauto|].
  apply stays_bind; [typeclasses eauto| |by intros _]. intros w Hw. split; [exact Hw|].
  apply moves_same; try done; [by apply answered_same|]. intros _. right. apply Hw.
Qed.
Lemma moves_receive_message m w : is_answer m = false → (is_closed m → sv_listening w = false) → moves w (receive_message m w).2.
Proof.
  intros Hm Hclosed. unfold receive_message. erewrite M_bind_done by done.
  assert (Hrec : match m with WComplete _ _ _ _ _ | WConfig _ _ _ | WError _ => True | _ => False end → stays moves (receive m)).
  { unfold receive. destruct m; intros []; (apply stays_bind; [typeclasses eauto|apply stays_get; typeclasses eauto|intros x]);
      try apply moves_fail; [|destruct (rm_target x)]; stays_with ltac:(first [apply moves_write | move_leaf]). }
  destruct m; try done; try (by apply moves_connected, Hrec).
  - destruct (rm_connected w); [by apply Hrec|apply moves_fail_device].
  - erewrite M_bind_done by done. set (w1 := w <| rm_listening := false |>). etrans; [by apply (moves_same w w1)|].
    assert (H : stays deaf_moves (when_connected revoke ;;
      when_connected (release_resets (rm_resets w) ;; modify (fun w => w <| rm_resets := [] |>)) ;;
      match error with Some e => when_connected (fail_connection e) ;; settle_closed (Some e) | None => settle_closed None end)).
    { apply stays_bind; [typeclasses eauto|apply deafly, moves_connected, moves_revoke|]. intros _.
      apply stays_bind; [typeclasses eauto| |intros _; destruct error].
      - unfold when_connected. apply stays_bind; [typeclasses eauto|apply deafly; moving|]. intros x. apply stays_if; [|apply deafly; moving].
        apply stays_bind; [typeclasses eauto|apply deaf_release|]. intros _. apply stays_modify. intros y Hy. split; [done|].
        apply moves_same; try done. intros H. change (rm_listening y = true) in H. destruct Hy. congruence.
      - apply stays_bind; [typeclasses eauto|apply deafly, moves_connected, moves_fail|]. intros _. apply deafly, moves_settle_closed.
      - apply deafly, moves_settle_closed. }
    apply (H w1). split; [done|by apply Hclosed].
Qed.

(** ** The worker's device *)
Lemma post_effect_main e w :
  ∃ ms, post_effect e w = (Done tt, w <| to_main := to_main w ++ ms |>) ∧ length (filter is_answer ms) = resolutions [e] ∧
    Forall (fun m => ¬ is_closed m) ms.
Proof.
  assert (Hnil : w = w <| to_main := to_main w ++ [] |>) by (rewrite app_nil_r; by destruct w).
  assert (Hnone : ∃ ms, (Done tt, w) = (Done tt, w <| to_main := to_main w ++ ms |>) ∧ length (filter is_answer ms) = 0%nat ∧
    Forall (fun m => ¬ is_closed m) ms) by (exists []; by rewrite <- Hnil).
  unfold post_effect. erewrite M_bind_done by done.
  destruct e; try exact Hnone; try (eexists [_]; split_and!; [done..|by repeat constructor; intros []]).
  destruct (vd_rings (sv_device w) !! r) as [rg|]; [|exact Hnone]. destruct (epochs_current _ _); [|exact Hnone].
  eexists [_]. split_and!; [done..|]. repeat constructor. by intros [].
Qed.
Lemma post_effects_main l w :
  ∃ ms, post_effects l w = (Done tt, w <| to_main := to_main w ++ ms |>) ∧ length (filter is_answer ms) = resolutions l ∧
    Forall (fun m => ¬ is_closed m) ms.
Proof.
  revert w; induction l as [|e l IH]; intros w; cbn [post_effects].
  - exists []. split; [|done]. rewrite app_nil_r. by destruct w.
  - destruct (post_effect_main e w) as (ms&E&He&Hc). erewrite M_bind_done by exact E.
    destruct (IH (w <| to_main := to_main w ++ ms |>)) as (ms'&E'&Hl&Hc'). exists (ms ++ ms'). rewrite E'. split_and!; [| |by apply Forall_app].
    + by rewrite app_assoc.
    + change (e :: l) with ([e] ++ l). rewrite filter_app, length_app, resolutions_app. lia.
Qed.
Lemma on_device_main {A} (m : M virtio A) w l :
  vd_log (m (sv_device w)).2 = vd_log (sv_device w) ++ l →
  ∃ ms, on_device m w = ((m (sv_device w)).1, w <| sv_device := (m (sv_device w)).2 |> <| to_main := to_main w ++ ms |>) ∧
    length (filter is_answer ms) = resolutions l ∧ Forall (fun m => ¬ is_closed m) ms.
Proof.
  intros El. unfold on_device. destruct (m (sv_device w)) as [o d]. cbn [fst snd] in *. rewrite El, drop_app_length.
  destruct (post_effects_main l (w <| sv_device := d |>)) as (ms&E&Hm). rewrite E. by exists ms.
Qed.
Lemma moves_device {A} (m : M virtio A) : stays resolves m → stays moves (on_device m).
Proof.
  intros Hm w. pose proof (Hm (sv_device w)) as Hr. destruct (rv_log _ _ Hr) as (l&El&Hl).
  destruct (on_device_main m w l El) as (ms&E&Hms&Hc). rewrite E. split; try done; [| |by intros H%told_posts; auto].
  - apply no_more.
  - unfold pending. cbn. rewrite filter_app, length_app. unfold device_resets. cbn. rewrite Hl. lia.
Qed.
Lemma moves_bound m : stays moves m → stays moves (when_bound m).
Proof. intros Hm. unfold when_bound. stays_with ltac:(first [exact Hm | move_leaf]). Qed.
Lemma bound_steps : 
  (∀ f, stays resolves (set_features f)) ∧ (∀ irq a n, stays resolves (setup irq a n)) ∧
  (∀ vq, stays resolves (disable_queue vq)) ∧ (∀ vq, stays resolves (notify vq)) ∧
  (∀ vq size a irq, stays resolves (enable_queue vq size a irq)) ∧ (∀ stop, stays resolves (shutdown stop)) ∧ stays resolves attach.
Proof.
  split_and!; intros.
  - by apply (step_resolves (SetFeatures f)).
  - apply frame_setup; auto using resolves_ordinary, resolves_plain, resolves_work, resolves_state, resolves_round, resolves_drop,
      resolves_use, resolves_microtask, resolves_settle, resolves_resume. typeclasses eauto.
  - by apply (step_resolves (DisableQueue vq)).
  - unfold notify. apply stays_bind; [typeclasses eauto|apply resolves_state|]. intros _.
    apply stays_bind; [typeclasses eauto|by apply resolves_emit|]. intros _.
    apply frame_drain; auto using resolves_plain, resolves_state, resolves_round. typeclasses eauto.
  - apply frame_enable; auto using resolves_plain, resolves_state, resolves_round; [typeclasses eauto| |].
    + intros v. apply stays_modify, resolves_invalidate.
    + intros v i q d. resolve.
  - by apply (step_resolves (Shutdown stop)).
  - unfold attach, assert_m. stays_with ltac:(resolve).
Qed.
Lemma moves_message m : is_bind m = false → is_reset m = false → stays moves (on_message m).
Proof.
  destruct bound_steps as (H1&H2&H3&H4&H5&H6&_). intros Hb Hr. destruct m; try done; cbn [on_message];
    try (apply stays_bind; [typeclasses eauto|move_leaf|intros _]); try (by apply moves_bound, moves_device).
  apply stays_bind; [typeclasses eauto|apply stays_get; typeclasses eauto|intros w]. apply stays_if; [move_leaf|].
  apply stays_bind; [typeclasses eauto|move_leaf|intros _]. apply moves_device, H6.
Qed.
Lemma moves_serve m : is_bind m = false → is_reset m = false → stays moves (serve m).
Proof.
  intros Hb Hr w. pose proof (moves_message m Hb Hr w) as H. unfold serve. destruct (on_message m w) as [[[]|e|] w']; try done.
  etrans; [exact H|]. by apply moves_post_main; [|intros []].
Qed.
Lemma moves_features f : stays moves (remote_features f).
Proof. unfold remote_features, assert_m. moving. Qed.
Lemma moves_setup irq a n : stays moves (remote_setup irq a n).
Proof. unfold remote_setup, assert_m. stays_with ltac:(first [apply moves_write | move_leaf]). Qed.
Lemma moves_enable vq size a irq : stays moves (remote_enable vq size a irq).
Proof. unfold remote_enable, assert_queue, assert_m, bump_epoch. moving. Qed.
Lemma moves_disable vq : stays moves (remote_disable vq).
Proof. unfold remote_disable, assert_queue, assert_m, bump_epoch. moving. Qed.
Lemma moves_shutdown : stays moves shutdown_remote.
Proof.
  unfold shutdown_remote. apply stays_bind; [typeclasses eauto|apply stays_get; typeclasses eauto|intros w]. apply stays_if; [move_leaf|].
  apply stays_bind; [typeclasses eauto|move_leaf|intros _]. apply stays_bind; [typeclasses eauto|apply moves_connected, moves_revoke|intros _].
  by apply moves_post_worker.
Qed.

(** ** The invariant

    The resets are acknowledged in the order they were asked for; the worker
    answers none before it is bound, and then no more than its device resolved. *)
Definition in_order (w : remote) : Prop :=
  ∃ rest, answered (rm_log w) ++ rest = seq 0 (rm_asked w) ∧ (rm_listening w = true → rest = rm_resets w).
Definition unanswered (w : remote) : Prop := answered (rm_log w) = [] ∧ pending w = 0%nat ∧ device_resets w = [].
Inductive phase (w : remote) : Prop :=
| Unattached : rm_connected w = false → sv_bound w = false → no_binds (to_worker w) → no_resets (to_worker w) → unanswered w → phase w
| Binding pre post : rm_connected w = true → sv_bound w = false → to_worker w = pre ++ MBind :: post →
    no_binds pre → no_resets pre → no_binds post → unanswered w → phase w
| Bound : rm_connected w = true → no_binds (to_worker w) →
    (sv_bound w = true → (length (answered (rm_log w)) + pending w ≤ resolved (device_resets w))%nat) → phase w.
Record resets_ok (w : remote) : Prop := {
  rs_order : in_order w;
  rs_phase : phase w;
  rs_handled : (length (device_resets w) + unhandled w ≤ rm_asked w)%nat;
  rs_waited : waited (sv_device w);
  rs_unsettled : unsettled_active (sv_device w);
  rs_told : told_closed w → sv_listening w = false }.
Lemma unhandled_app w w' l : to_worker w' = to_worker w ++ l → no_resets l → unhandled w' = unhandled w.
Proof.
  intros E Hl. unfold unhandled. rewrite E, filter_app, length_app.
  assert (filter is_reset l = []) as ->; [|cbn; lia]. clear E. induction Hl as [|m l Hm _ IH]; [done|]. rewrite filter_cons_False; [exact IH|rewrite Hm; intros []].
Qed.
Lemma no_resolved l : length l = 0%nat → resolved l = 0%nat.
Proof. intros H. pose proof (resolved_bound l). lia. Qed.
Lemma unanswered_moves w w' : moves w w' → unanswered w → unanswered w'.
Proof.
  intros Hm (Ha&Hp&Hr). pose proof (rv_length _ _ (mv_device _ _ Hm)) as Hl. unfold device_resets in *. rewrite Hr in Hl.
  split_and!; [by rewrite (mv_answered _ _ Hm)| |by apply nil_length_inv].
  pose proof (mv_pending _ _ Hm) as H. unfold device_resets in H. rewrite (no_resolved (vd_resets (sv_device w'))) in H by done. lia.
Qed.
Lemma resets_moves w w' : moves w w' → resets_ok w → resets_ok w'.
Proof.
  intros Hm [Ho Hp Hh Hw Hu Ht]. pose proof (unanswered_moves _ _ Hm) as Hun. destruct Hm as [Ec Eb (l&El&Bl&Rl) Hr Hpend Ea Eas Hls Es Htold].
  split; [| | |exact (waited_resolves _ _ Hr Hw)|by apply (rv_unsettled _ _ Hr)|rewrite Es; intros [H|H]%Htold; auto].
  - destruct Ho as (rest&E1&E2). exists rest. rewrite Ea, Eas. split; [done|]. intros [H1 ->]%Hls. auto.
  - destruct Hp as [Hc Hb Hbs Hrs Hq|pre post Hc Hb E Hbs Hrs Hps Hq|Hc Hbs Hn].
    + apply Unattached; [congruence|congruence|rewrite El; apply Forall_app; by split|rewrite El; apply Forall_app; by split|auto].
    + apply (Binding _ pre (post ++ l)); [congruence|congruence|by rewrite El, E, <- app_assoc|done|done|apply Forall_app; by split|auto].
    + apply Bound; [congruence|rewrite El; apply Forall_app; by split|]. rewrite Eb, Ea. intros H%Hn. lia.
  - rewrite (unhandled_app _ _ l El Rl), Eas. unfold device_resets. rewrite (rv_length _ _ Hr). done.
Qed.
(** How a step moves the worker's device. *)
Definition device_moves (d d' : virtio) : Prop := resolves d d' ∨ d' = (reset d).2.
Definition serving (w w' : remote) : Prop := sv_listening w' = sv_listening w ∨ close_started (sv_device w) = true.
#[export] Hint Extern 0 (serving _ _) => solve [left; reflexivity] : core.
Definition steps_from (w w' : remote) : Prop := resets_ok w' ∧ device_moves (sv_device w) (sv_device w') ∧ serving w w'.
Definition steps_ok (m : M remote unit) : Prop := ∀ w, resets_ok w → steps_from w (m w).2.
Lemma moves_from w w' : moves w w' → resets_ok w → steps_from w w'.
Proof.
  intros Hm Hw. split; [exact (resets_moves _ _ Hm Hw)|]. split; [left; apply (mv_device _ _ Hm)|left; apply (mv_serving _ _ Hm)].
Qed.
Lemma steps_refl w : resets_ok w → steps_from w w.
Proof. by apply moves_from. Qed.
Lemma moves_steps m : stays moves m → steps_ok m.
Proof. intros Hm w. by apply moves_from. Qed.
(** [closed] is posted when the device has closed. *)
Lemma report_steps : steps_ok report_closed.
Proof.
  intros w Hok. unfold report_closed. erewrite M_bind_done by done.
  destruct (vd_closing (sv_device w)) as [| | |error] eqn:Ec; try by apply steps_refl.
  destruct (sv_closing w && sv_listening w)%bool; [|by apply steps_refl]. erewrite M_bind_done by done.
  split; [|split; [by left|right; unfold close_started; by rewrite Ec]].
  destruct Hok as [Ho Hp Hh Hw Hu Ht].
  set (w' := (post_main (WClosed error) (w <| sv_listening := false |>)).2).
  assert (Epend : pending w' = pending w).
  { unfold pending. change (to_main w') with (to_main w ++ [WClosed error]). rewrite filter_app, length_app. assert (E : length (filter is_answer [WClosed error]) = 0%nat) by done. rewrite E. unfold pending. lia. }
  split; try done. destruct Hp as [Hc Hb Hbs Hrs (Ha&Hq&Hr)|pre post Hc Hb E Hbs Hrs Hps (Ha&Hq&Hr)|Hc Hbs Hn].
  - apply Unattached; try done. unfold unanswered. by rewrite Epend.
  - apply (Binding w' pre post); try done. unfold unanswered. by rewrite Epend.
  - apply Bound; try done. intros H%Hn. rewrite Epend. exact H.
Qed.

Lemma attach_steps : steps_ok attach_remote.
Proof.
  intros w Hok. unfold attach_remote. erewrite M_bind_done by done. destruct (rm_connected w) eqn:Ec.
  { by apply steps_refl. }
  erewrite M_bind_done by done. destruct (rm_terminal w); [by apply steps_refl|]. split; [|split; by left].
  destruct Hok as [Ho Hp Hh Hw Hu Ht]. split; try done.
  - destruct Hp as [_ Hb Hbs Hrs Hq|pre post Hc| Hc]; [|congruence..].
    apply (Binding _ (to_worker w) []); try done. constructor.
  - rewrite (unhandled_app w _ [MBind]); [exact Hh|done|by constructor].
Qed.
Lemma reset_steps : steps_ok (when_connected remote_reset).
Proof.
  intros w Hok. unfold when_connected. erewrite M_bind_done by done. destruct (rm_connected w) eqn:Ec; [|by apply steps_refl].
  unfold remote_reset. pose proof (moves_revoke w) as Hm. set (w1 := (revoke w).2) in *.
  rewrite (M_bind_done revoke _ w tt w1) by done.
  pose proof (resets_moves _ _ Hm Hok) as [Ho Hp Hh Hw Hu Ht].
  split; [|split; left; [exact (mv_device _ _ Hm)|exact (mv_serving _ _ Hm)]].
  rewrite <- (mv_connected _ _ Hm) in Ec. clearbody w1. split; try done.
  - destruct Ho as (rest&E1&E2). exists (rest ++ [rm_asked w1]). split; [|by intros ->%E2].
    change (answered (rm_log w1) ++ rest ++ [rm_asked w1] = seq 0 (S (rm_asked w1))). rewrite app_assoc, E1. by rewrite seq_S.
  - destruct Hp as [Hc|pre post Hc Hb E Hbs Hrs Hps Hq|Hc Hbs Hn]; [congruence| |].
    + apply (Binding _ pre (post ++ [MReset])); try done; [|apply Forall_app].
      { change (to_worker w1 ++ [MReset] = pre ++ MBind :: post ++ [MReset]). by rewrite E, <- app_assoc. }
      split; [done|by constructor].
    + apply Bound; try done. apply Forall_app. split; [done|by constructor].
  - match goal with |- context [unhandled ?x] => assert (E : unhandled x = (unhandled w1 + 1)%nat) by
      (unfold unhandled; change (to_worker x) with (to_worker w1 ++ [MReset]); by rewrite filter_app, length_app);
      change (length (device_resets w1) + unhandled x ≤ S (rm_asked w1))%nat end. lia.
Qed.
Lemma pop_moves w m rest : to_main w = m :: rest → moves w (w <| to_main := rest |>).
Proof.
  intros Em. split; try done.
  - apply no_more.
  - change (device_resets (w <| to_main := rest |>)) with (device_resets w).
    unfold pending. rewrite Em. change (to_main (w <| to_main := rest |>)) with rest. rewrite filter_cons. case_decide; cbn; lia.
  - intros [H|H]; left; [left|by right]. rewrite Em. by right.
Qed.
(** [reset_done] *)
Lemma answer_steps w rest : resets_ok w → to_main w = WResetDone :: rest → rm_listening w = true →
  let w' := (receive_message WResetDone (w <| to_main := rest |>)).2 in resets_ok w' ∧ sv_device w' = sv_device w ∧ sv_listening w' = sv_listening w.
Proof.
  intros Hok Em Hlisten. assert (Epend : pending w = S (pending (w <| to_main := rest |>))) by (unfold pending; cbn; by rewrite Em, filter_cons).
  unfold receive_message, when_connected. do 2 erewrite M_bind_done by done. change (rm_connected (w <| to_main := rest |>)) with (rm_connected w).
  assert (Hsame : moves w (w <| to_main := rest |>)).
  { by apply (pop_moves w WResetDone). }
  destruct (rm_connected w) eqn:Ec; [|split; [exact (resets_moves _ _ Hsame Hok)|done]].
  unfold receive. erewrite M_bind_done by done. change (rm_resets (w <| to_main := rest |>)) with (rm_resets w).
  destruct (rm_resets w) as [|k ks] eqn:Ek; [split; [exact (resets_moves _ _ Hsame Hok)|done]|]. erewrite M_bind_done by done. split; [|done].
  destruct (resets_moves _ _ Hsame Hok) as [_ _ _ _ _ Ht]. destruct Hok as [Ho Hp Hh Hw Hu _]. split; try done.
  - destruct Ho as (rest'&E1&E2). rewrite (E2 Hlisten), Ek in E1. exists ks. cbn. split; [|done].
    unfold answered in *. rewrite omap_app. cbn. by rewrite <- app_assoc.
  - destruct Hp as [Hc|pre post Hc Hb E Hbs Hrs Hps (_&Hq&_)|Hc Hbs Hn]; [congruence|congruence|]. apply Bound; try done.
    intros H%Hn. unfold answered in *. cbn. rewrite omap_app, length_app. cbn. change (device_resets w) with (vd_resets (sv_device w)) in H.
    unfold device_resets. cbn. unfold pending in *. cbn in Epend. cbn. lia.
  - intros [H|H]; apply Ht; [by left|right]. apply Exists_app in H as [H|H]; [done|]. apply Exists_cons in H as [[]|H]. by apply Exists_nil in H.
Qed.

(** The worker takes a message. *)
Lemma bind_taken w rest : resets_ok w → to_worker w = MBind :: rest →
  let w1 := w <| to_worker := rest |> in
  rm_connected w1 = true ∧ sv_bound w1 = false ∧ no_binds (to_worker w1) ∧ unanswered w1 ∧ resets_ok w1.
Proof.
  intros [Ho Hp Hh Hw Hu Ht] E w1. destruct Hp as [_ _ Hbs|pre post Hc Hb E' Hbs Hrs Hps Hq|_ Hbs]; [rewrite E in Hbs; by apply Forall_cons in Hbs as [? _]| |
    rewrite E in Hbs; by apply Forall_cons in Hbs as [? _]].
  assert (rest = post) as ->.
  { rewrite E in E'. destruct pre as [|m pre]; [by injection E'|]. injection E' as <- _. by apply Forall_cons in Hbs as [? _]. }
  split_and!; try done. split; try done; [apply Bound; try done; intros H; change (sv_bound w = true) in H; congruence|].
  assert (Eu : unhandled w = unhandled w1) by (unfold unhandled; by rewrite E). change (device_resets w1) with (device_resets w). rewrite <- Eu. done.
Qed.
Lemma bind_steps w rest : resets_ok w → to_worker w = MBind :: rest →
  steps_from w (serve MBind (w <| to_worker := rest |>)).2.
Proof.
  intros Hok E. destruct (bind_taken w rest Hok E) as (Hc&Hb&Hbs&Hq&Hok1).
  set (w1 := w <| to_worker := rest |>) in *. change (steps_from w1 (serve MBind w1).2). clearbody w1. clear Hok E w rest.
  unfold serve. cbn [on_message]. erewrite M_bind_done by done. rewrite Hb. erewrite (M_bind_done _ _ w1 tt w1) by done.
  pose proof (moves_device attach (proj2 (proj2 (proj2 (proj2 (proj2 (proj2 bound_steps)))))) w1) as Hm.
  destruct (on_device attach w1) as [[[]|e|] w2] eqn:Ed; cbn [snd] in Hm.
  - erewrite M_bind_done by exact Ed. cbn [modify]. split; [|split; left; [exact (mv_device _ _ Hm)|exact (mv_serving _ _ Hm)]].
    pose proof (unanswered_moves _ _ Hm Hq) as Hq2. pose proof (resets_moves _ _ Hm Hok1) as [Ho Hp Hh Hw Hu Ht]. split; try done.
    apply Bound; [etrans; [exact (mv_connected _ _ Hm)|done]| |].
    + destruct (mv_worker _ _ Hm) as (l&El&Hl&_). change (no_binds (to_worker w2)). rewrite El. apply Forall_app. by split.
    + intros _. destruct Hq2 as (Ha&Hpe&Hre).
      change (length (answered (rm_log w2)) + pending w2 ≤ resolved (device_resets w2))%nat. rewrite Ha, Hpe. cbn. lia.
  - erewrite M_bind_raise by exact Ed. assert (Hm' : moves w1 (post_main (WError e) w2).2) by (etrans; [exact Hm|by apply moves_post_main; [|intros []]]).
    by apply moves_from.
  - erewrite M_bind_loops by exact Ed. by apply moves_from.
Qed.
(** [reset], with the message gone. *)
Lemma reset_taken w rest : resets_ok w → to_worker w = MReset :: rest →
  rm_connected w = true ∧ no_binds rest ∧ unhandled w = S (unhandled (w <| to_worker := rest |>)) ∧
  (sv_bound w = true → (length (answered (rm_log w)) + pending w ≤ resolved (device_resets w))%nat).
Proof.
  intros [Ho Hp Hh Hw Hu Ht] E. assert (Eu : unhandled w = S (unhandled (w <| to_worker := rest |>))) by (unfold unhandled; by rewrite E).
  destruct Hp as [_ _ _ Hrs|pre post _ _ E' Hbs Hrs|Hc Hbs Hn].
  - rewrite E in Hrs. by apply Forall_cons in Hrs as [? _].
  - rewrite E in E'. destruct pre as [|m pre]; [done|]. injection E' as <- _. by apply Forall_cons in Hrs as [? _].
  - rewrite E in Hbs. apply Forall_cons in Hbs as [_ Hbs]. done.
Qed.
Lemma drop_taken w rest : resets_ok w → to_worker w = MReset :: rest → resets_ok (w <| to_worker := rest |>).
Proof.
  intros Hok E. destruct (reset_taken w rest Hok E) as (Hc&Hbs&Eu&Hn). destruct Hok as [Ho Hp Hh Hw Hu Ht]. split; try done.
  - by apply Bound.
  - rewrite Eu in Hh. change (device_resets (w <| to_worker := rest |>)) with (device_resets w).
    change (rm_asked (w <| to_worker := rest |>)) with (rm_asked w). lia.
Qed.
Lemma handle_steps w rest : resets_ok w → to_worker w = MReset :: rest →
  steps_from w (serve MReset (w <| to_worker := rest |>)).2.
Proof.
  intros Hok E. destruct (reset_taken w rest Hok E) as (Hc&Hbs&Eu&Hn). destruct Hok as [Ho Hp Hh Hw Hu Ht].
  unfold serve. cbn [on_message]. do 2 erewrite M_bind_done by done.
  match goal with |- context [sv_bound ?x] => set (w1 := x) end. change (sv_bound w1) with (sv_bound w). destruct (sv_bound w) eqn:Eb.
  - destruct (reset_adds (sv_device w)) as (Er&_&Et&Ea&Ers&l&El&Hl).
    destruct (on_device_main reset w1 l El) as (ms&Em&Hms&Hc'). rewrite Em. change (sv_device w1) with (sv_device w). rewrite Er. cbn [snd].
    match goal with |- steps_from _ ?x => set (w' := x) end. split; [|split; [by right|by left]].
    assert (Epend : pending w' = (pending w + resolutions l)%nat).
    { unfold pending. change (to_main w') with (to_main w ++ ms). by rewrite filter_app, length_app, Hms. }
    assert (Edev : device_resets w' = device_resets w ++ [(if vd_views (sv_device w) then vd_active (sv_device w) else [], negb (vd_views (sv_device w)))]) by exact Ers.
    split; [done| | |by apply waited_reset| |by intros H%told_posts; auto].
    + apply Bound; [done|done|]. intros _. rewrite Epend, Edev, resolved_app, Hl. specialize (Hn eq_refl).
      change (rm_log w') with (rm_log w).
      destruct (vd_views (sv_device w)); [change (resolved [(vd_active (sv_device w), negb true)]) with 0%nat|change (resolved [([], negb false)]) with 1%nat]; lia.
    + rewrite Edev, length_app. change (unhandled w') with (unhandled (w <| to_worker := rest |>)). change (rm_asked w') with (rm_asked w). cbn [length]. lia.
    + intros t k. change (sv_device w') with (reset (sv_device w)).2. rewrite Et, Ea. apply Hu.
  - cbn [post_main modify]. match goal with |- steps_from _ ?x => set (w' := x) end.
    split; [|split; by left]. split; try done.
    + apply Bound; [done|done|]. intros H. change (sv_bound w' = true) with (sv_bound w = true) in H. congruence.
    + change (unhandled w') with (unhandled (w <| to_worker := rest |>)). change (device_resets w') with (device_resets w).
      change (rm_asked w') with (rm_asked w). lia.
    + intros H. apply Ht. by apply (told_posts w [WResetDone] (sv_device w)); [repeat constructor; intros []|].
Qed.
Lemma other_taken w m rest : resets_ok w → to_worker w = m :: rest → is_bind m = false → is_reset m = false →
  resets_ok (w <| to_worker := rest |>).
Proof.
  intros [Ho Hp Hh Hw Hu Ht] E Hb Hr.
  assert (Eu : unhandled w = unhandled (w <| to_worker := rest |>)).
  { unfold unhandled. rewrite E, filter_cons_False; [done|]. rewrite Hr. intros []. }
  split; try done; [|by rewrite Eu in Hh].
  destruct Hp as [Hc Hbd Hbs Hrs Hq|pre post Hc Hbd E' Hbs Hrs Hps Hq|Hc Hbs Hn]; rewrite E in *.
  - apply Forall_cons in Hbs as [_ Hbs], Hrs as [_ Hrs]. by apply Unattached.
  - destruct pre as [|x pre]; [injection E' as -> _; done|]. injection E' as -> E'.
    apply Forall_cons in Hbs as [_ Hbs], Hrs as [_ Hrs]. by apply (Binding _ pre post).
  - apply Forall_cons in Hbs as [_ Hbs]. by apply Bound.
Qed.
Lemma remote_step_resets e : steps_ok (remote_step e).
Proof.
  intros w Hok. unfold remote_step. erewrite M_bind_done by done.
  assert (Hdev : ∀ x, device_event e w = Some x → steps_ok (on_device (step x))).
  { intros x Hx. apply moves_steps, moves_device, step_resolves. intros ->. by destruct e. }
  destruct e; try (by apply Hdev).
  - by apply attach_steps.
  - apply moves_steps; [apply moves_connected, moves_features|done].
  - apply moves_steps; [apply moves_connected, moves_setup|done].
  - apply moves_steps; [apply moves_connected, moves_enable|done].
  - apply moves_steps; [apply moves_connected, moves_disable|done].
  - apply moves_steps; [by apply moves_connected, moves_post_worker|done].
  - by apply reset_steps.
  - apply moves_steps; [apply moves_shutdown|done].
  - destruct (rm_listening w); [apply moves_steps; [apply moves_endpoint|done]|by apply steps_refl].
  - destruct (to_main w) as [|m rest] eqn:Em; [by apply steps_refl|]. erewrite M_bind_done by done.
    pose proof (pop_moves w m rest Em) as Hpop. destruct (rm_listening w) eqn:El; [|by apply moves_from].
    destruct (is_answer m) eqn:Ea.
    + destruct m; try done. destruct (answer_steps w rest Hok Em El) as (H1&H2&H3). split; [exact H1|split; left; [by rewrite H2|exact H3]].
    + apply moves_from; [|done]. etrans; [exact Hpop|]. apply moves_receive_message; [done|]. intros Hc.
      apply (rs_told w Hok). left. rewrite Em. by left.
  - destruct (to_worker w) as [|m rest] eqn:Em; [by apply steps_refl|]. erewrite M_bind_done by done.
    destruct (is_bind m) eqn:Eb; [|destruct (is_reset m) eqn:Er].
    + destruct m; try done. destruct (sv_listening w).
      * by apply bind_steps.
      * split; [|split; by left]. by destruct (bind_taken w rest Hok Em) as (_&_&_&_&H).
    + destruct m; try done. destruct (sv_listening w); [by apply handle_steps|]. split; [by apply drop_taken|split; by left].
    + pose proof (other_taken w m rest Hok Em Eb Er) as Hok1.
      destruct (sv_listening w); [|split; [done|split; by left]].
      exact (moves_from _ _ (moves_serve m Eb Er (w <| to_worker := rest |>)) Hok1).
  - by apply report_steps.
Qed.
Lemma resets_ok_new n f v config : resets_ok (remote_new n f v config).
Proof.
  split.
  - by exists [].
  - apply Unattached; try done; constructor.
  - done.
  - by intros k seen t H.
  - by intros t w H.
  - intros [H|H]; by apply Exists_nil in H.
Qed.
(** A device with views waits for [t] with every reset from the [k]-th on. *)
Definition holds_reset (t k : nat) (w : remote) : Prop := vd_views (sv_device w) = true ∧ awaits t k (sv_device w).
Lemma holds_moves t k w d' : holds_reset t k w → device_moves (sv_device w) d' → vd_views d' = true ∧ awaits t k d'.
Proof.
  intros [Hv Ha] [Hr| ->].
  - split; [by rewrite (rv_views _ _ Hr)|by eapply awaits_resolves].
  - destruct (reset_adds (sv_device w)) as (_&Ev&_). split; [by rewrite Ev|by apply awaits_reset].
Qed.
Lemma run_resets es w : resets_ok w → resets_ok (remote_run es w) ∧ ∀ t k, holds_reset t k w → holds_reset t k (remote_run es w).
Proof.
  revert w; induction es as [|e es IH]; intros w Hw; [done|]. destruct (remote_step_resets e w Hw) as (Hw'&Hm&_).
  destruct (IH _ Hw') as [H1 H2]. split; [exact H1|]. intros t k Ht. apply H2. by eapply holds_moves.
Qed.
Lemma run_views es n f v config : vd_views (sv_device (remote_run es (remote_new n f v config))) = v.
Proof.
  assert (H : ∀ w, resets_ok w → vd_views (sv_device (remote_run es w)) = vd_views (sv_device w)).
  { induction es as [|e es IH]; intros w Hw; [done|]. destruct (remote_step_resets e w Hw) as (Hw'&Hm&_).
    change (remote_run (e :: es) w) with (remote_run es (remote_step e w).2). rewrite IH by done.
    destruct Hm as [Hr| ->]; [apply (rv_views _ _ Hr)|by destruct (reset_adds (sv_device w)) as (_&->&_)]. }
  by rewrite H by apply resets_ok_new.
Qed.
Lemma answered_elem l k : Acknowledged k ∈ l → k ∈ answered l.
Proof. intros H. apply list_elem_of_omap. by exists (Acknowledged k). Qed.
Lemma holds_asked w t : resets_ok w → vd_views (sv_device w) = true → (t < length (vd_tasks (sv_device w)))%nat → holds_reset t (rm_asked w) w.
Proof.
  intros Hok Hv Ht. split; [done|]. apply lookup_lt_is_Some in Ht as [[k [o|]] Ht].
  - left. unfold is_settled, settled. by rewrite Ht.
  - right. split; [by eapply (rs_unsettled w Hok)|]. intros j seen b Hj Hs. apply lookup_lt_Some in Hs.
    pose proof (rs_handled w Hok) as H. unfold device_resets in H. lia.
Qed.

Lemma remote_run_app es es' w : remote_run (es ++ es') w = remote_run es' (remote_run es w).
Proof. apply foldl_app. Qed.
Lemma acknowledged_settled es es' n f config t :
  let start := remote_new n f true config in
  let w := remote_run es start in let w' := remote_run (es ++ GReset :: es') start in
  sv_bound w' = true → Acknowledged (rm_asked w) ∈ rm_log w' →
  (t < length (vd_tasks (sv_device w)))%nat → is_settled t (sv_device w') = true.
Proof.
  intros start w w' Hb Hack Ht. destruct (run_resets es start (resets_ok_new n f true config)) as [Hok _]. change (resets_ok w) in Hok.
  assert (E : w' = remote_run es' (remote_step GReset w).2) by apply remote_run_app.
  destruct (remote_step_resets GReset w Hok) as (Hok1&Hm&_). destruct (run_resets es' _ Hok1) as [Hok' Hkeep]. rewrite <- E in Hok', Hkeep.
  destruct (rs_order w' Hok') as (rest&Eo&_). clearbody w'.
  assert (Hh : holds_reset t (rm_asked w) w') by (by apply Hkeep; eapply holds_moves; [apply holds_asked; [..|apply run_views|]|]).
  apply (awaits_settled t (rm_asked w)); [apply Hh|by apply rs_waited|].
  assert (Hlen : (rm_asked w < length (answered (rm_log w')))%nat).
  { apply answered_elem, list_elem_of_lookup_1 in Hack as [i Hi]. pose proof (lookup_lt_Some _ _ _ Hi) as Hlt.
    apply (lookup_app_l_Some _ rest) in Hi. rewrite Eo in Hi. apply lookup_seq in Hi as [-> _]. lia. }
  destruct (rs_phase w' Hok') as [_ Hnb|pre post _ Hnb|_ _ Hn]; [congruence|congruence|]. specialize (Hn Hb).
  change (vd_resets (sv_device w')) with (device_resets w'). lia.
Qed.

(** ** The device's close *)
Lemma device_settled t d d' : device_moves d d' → is_settled t d = true → is_settled t d' = true.
Proof.
  intros [Hr| ->]; [apply (gr_settled _ _ (rv_grows _ _ Hr))|].
  destruct (reset_adds d) as (_&_&Et&_). unfold is_settled, settled. by rewrite Et.
Qed.
Lemma device_tasks d d' : device_moves d d' → (length (vd_tasks d) ≤ length (vd_tasks d'))%nat.
Proof. intros [Hr| ->]; [apply (rv_tasks _ _ Hr)|]. destruct (reset_adds d) as (_&_&->&_). lia. Qed.
Lemma device_closes d d' : device_moves d d' → closes_settled d d'.
Proof.
  intros [Hr| ->]; [apply (rv_closing _ _ Hr)|]. intros _. unfold close_started.
  rewrite (sw_closing _ _ (work_reset d)). by left.
Qed.
(** The work [t] has settled, or [close()] has not been called yet. *)
Definition closes_after (t : nat) (w : remote) : Prop :=
  is_settled t (sv_device w) = true ∨
  ((t < length (vd_tasks (sv_device w)))%nat ∧ close_started (sv_device w) = false ∧ sv_listening w = true).
Lemma closes_after_step t e w : resets_ok w → closes_after t w → closes_after t (remote_step e w).2.
Proof.
  intros Hok Hc. destruct (remote_step_resets e w Hok) as (_&Hm&Hs).
  destruct Hc as [H|(Ht&Hc&Hl)]; [left; by apply (device_settled _ _ _ Hm)|].
  destruct (close_started (sv_device (remote_step e w).2)) eqn:E.
  - destruct (device_closes _ _ Hm (rs_unsettled w Hok) E) as [H|H]; [congruence|left; by apply H].
  - right. pose proof (device_tasks _ _ Hm). split; [lia|]. split; [done|]. destruct Hs as [->|Hs]; congruence.
Qed.
Lemma closes_after_run t es w : resets_ok w → closes_after t w → closes_after t (remote_run es w).
Proof.
  revert w; induction es as [|e es IH]; intros w Hok Hc; [done|].
  apply (IH (remote_step e w).2); [by apply remote_step_resets|by apply closes_after_step].
Qed.
(** When the guest is released, the device has closed. *)
Lemma released_settled es t w k : resets_ok w → closes_after t w →
  Released k ∈ rm_log (remote_run es w) → is_settled t (sv_device (remote_run es w)) = true.
Proof.
  intros Hok Hc Hk. destruct (run_resets es w Hok) as [Hok' _]. destruct (closes_after_run t es w Hok Hc) as [H|(_&_&Hl)]; [done|].
  enough (sv_listening (remote_run es w) = false) by congruence. apply (rs_told _ Hok'). right. apply Exists_exists. by exists (Released k).
Qed.

(** C6: when the guest is told that its reset is complete, the work it waits for
    has settled, whatever the main thread, the worker and the guest did in
    between. The worker's answers reach the guest in the order it asked; if the
    device writes guest memory in place, then when the reset asked for now is
    acknowledged, every piece of work the worker's device had when it was asked
    for has settled. And when a reset is released instead, since the worker
    reported its device closed, every piece of work the device had at any moment
    before its [close()] was called has settled. *)
Theorem remote_reset_waits queues features views config es es' :
  let start := remote_new queues features views config in
  let w := remote_run es start in
  let w' := remote_run (es ++ GReset :: es') start in
  answered (rm_log w') `prefix_of` seq 0 (rm_asked w') ∧
  (views = true → sv_bound w' = true → Acknowledged (rm_asked w) ∈ rm_log w' →
    ∀ t, (t < length (vd_tasks (sv_device w)))%nat → is_settled t (sv_device w') = true) ∧
  (∀ k es1 es2, Released k ∈ rm_log w' → es ++ GReset :: es' = es1 ++ es2 →
    let w1 := remote_run es1 start in
    close_started (sv_device w1) = false → sv_listening w1 = true →
    ∀ t, (t < length (vd_tasks (sv_device w1)))%nat → is_settled t (sv_device w') = true).
Proof.
  intros start w w'. pose proof (resets_ok_new queues features views config) as Hnew. change (resets_ok start) in Hnew.
  split_and!; [| |intros k es1 es2 Hk E w1 Hc Hl t Ht].
  - destruct (rs_order w' (proj1 (run_resets _ _ Hnew))) as (rest&Eo&_). by exists rest.
  - intros -> Hb Hack t Ht. by apply (acknowledged_settled es es' queues features config t).
  - unfold w' in *. rewrite E, remote_run_app in *. apply (released_settled es2 t w1 k); [by apply run_resets|by right|done].
Qed.

(** ** Runs

    A device with views whose kick is in flight: the reset is acknowledged after
    the kick has settled, or released when the device has closed. *)
Definition holding : list remote_event :=
  [GAttach; GWrites remote_memory; GEnable 0 4 0 5; GNotify 0; WorkerReceives; WorkerReceives; WorkerReceives; GReset; WorkerReceives;
   ResumesReset 0; MainReceives].
Definition remote_in_place : remote := remote_new 1 0 true [].
Example reset_held : rm_log (remote_run holding remote_in_place) = [GuestEnabled 0 1 5; Revoked].
Proof. vm_compute. reflexivity. Qed.
Example reset_acknowledged :
  rm_log (remote_run (holding ++ [Settles 0 None; ResumesReset 0; MainReceives]) remote_in_place) = [GuestEnabled 0 1 5; Revoked; Acknowledged 0].
Proof. vm_compute. reflexivity. Qed.
Example reset_released :
  rm_log (remote_run (holding ++ [GShutdown; WorkerReceives; Settles 0 None; Leaves 0; ResumesShutdown; SettlesClose None; ReportsClosed; MainReceives])
    remote_in_place) = [GuestEnabled 0 1 5; Revoked; Revoked; Revoked; Released 0].
Proof. vm_compute. reflexivity. Qed.
(** The guest is released from the reset it asked for while the kick was in
    flight; the kick has settled. *)
Definition asking : list remote_event := take 7 holding.
Definition releasing : list remote_event :=
  drop 8 holding ++ [GShutdown; WorkerReceives; Settles 0 None; Leaves 0; ResumesShutdown; SettlesClose None; ReportsClosed; MainReceives].
Lemma remote_reset_waits_witness :
  let start := remote_new 1 0 true [] in
  let w1 := remote_run asking start in
  let w' := remote_run (asking ++ GReset :: releasing) start in
  (0 < length (vd_tasks (sv_device w1)))%nat ∧ is_settled 0 (sv_device w1) = false ∧
  Released 0 ∈ rm_log w' ∧ is_settled 0 (sv_device w') = true.
Proof.
  intros start w1 w'.
  assert (H1 : (0 < length (vd_tasks (sv_device w1)))%nat) by (vm_compute; constructor).
  assert (H2 : Released 0 ∈ rm_log w') by (vm_compute; do 4 right; left).
  assert (H3 : close_started (sv_device w1) = false) by (vm_compute; reflexivity).
  assert (H4 : sv_listening w1 = true) by (vm_compute; reflexivity).
  split; [exact H1|]. split; [vm_compute; reflexivity|]. split; [exact H2|].
  pose proof (remote_reset_waits 1 0 true [] asking releasing) as H. destruct H as [_ [_ H]].
  exact (H 0%nat asking (GReset :: releasing) H2 eq_refl H3 H4 0%nat H1).
Defined.
