(* ===== verification/Http.v ===== *)
(** The grammar of HTTP/1.1 messages: heads, start lines and declared bodies of
    packages/linux-guest/src/http.ts. The reader and the bodies are in
    HttpBody.v. *)
From S2P Require Export Text.

Definition CR : Z := 13.
Definition LF : Z := 10.
Definition SP : Z := 32.
Definition crlf : text := [CR; LF].

(** * [Headers] of the platform

    The fields in the order they were appended, their names in lower case. *)
Abbreviation headers := (list (text * text)).

Definition token_char (c : Z) : bool :=
  (alpha c || digit c || (c =? 33) || between 35 c 39 || (c =? 42) || (c =? 43) || (c =? 45) || (c =? 46) || (c =? 94) || (c =? 95) ||
   (c =? 96) || (c =? 124) || (c =? 126))%bool.
Definition is_token (s : text) : bool := match s with [] => false | _ => forallb token_char s end.
Definition latin1 (s : text) : bool := forallb (fun c => c <? 256) s.
Definition http_space (c : Z) : bool := ((c =? 9) || (c =? LF) || (c =? CR) || (c =? SP))%bool.

Definition headers_append (name value : text) (h : headers) : outcome headers :=
  if negb (latin1 name && latin1 value) then Raise (JsTypeError "cannot convert to a ByteString")
  else
    let value := trim_with http_space value in
    if (is_token name && forallb (fun c => negb ((c =? 0) || (c =? LF) || (c =? CR))) value)%bool
    then Done (h ++ [(lower_ascii name, value)])
    else Raise (JsTypeError "invalid header").
Definition headers_values (name : text) (h : headers) : list text :=
  (filter (fun p => p.1 = name) h).*2.
Definition headers_get (name : text) (h : headers) : option text :=
  match headers_values name h with [] => None | vs => Some (join (lit ", ") vs) end.
Definition headers_delete (name : text) (h : headers) : headers := filter (fun p => p.1 ≠ lower_ascii name) h.

(** Iteration: sorted by name, the values of a name combined. *)
Fixpoint text_leb (a b : text) : bool :=
  match a, b with
  | [], _ => true
  | _, [] => false
  | x :: a, y :: b => ((x <? y) || (x =? y) && text_leb a b)%bool
  end.
Fixpoint insert_name (n : text) (l : list text) : list text :=
  match l with
  | [] => [n]
  | m :: l' => if bool_decide (n = m) then l else if text_leb n m then n :: l else m :: insert_name n l'
  end.
Definition headers_names (h : headers) : list text := foldr insert_name [] h.*1.
Definition headers_entries (h : headers) : list (text * text) :=
  headers_names h ≫= fun n =>
    if bool_decide (n = lit "set-cookie") then pair n <$> headers_values n h
    else [(n, join (lit ", ") (headers_values n h))].

(** * Heads *)
Record http_head := Head { hd_line : text; hd_raw : list (text * text); hd_headers : headers }.

(** [NON_CRLF_LINE_ENDING_RE]: an LF that no CR precedes; [prev] is the last
    character. *)
Fixpoint bare_lf (prev : option Z) (s : text) : bool :=
  match s with
  | [] => false
  | c :: s => ((c =? LF) && negb (bool_decide (prev = Some CR)) || bare_lf (Some c) s)%bool
  end.
Definition cons_line (c : Z) (ls : list text) : list text :=
  match ls with l :: ls => (c :: l) :: ls | [] => [[c]] end.
(** [text.split] at each CR LF, and at each LF with or without a CR. *)
Fixpoint split_crlf (s : text) : list text :=
  match s with
  | [] => [[]]
  | c :: s' =>
      match s' with
      | d :: s'' => if ((c =? CR) && (d =? LF))%bool then [] :: split_crlf s'' else cons_line c (split_crlf s')
      | [] => [[c]]
      end
  end.
Fixpoint split_lines (s : text) : list text :=
  match s with
  | [] => [[]]
  | c :: s' =>
      if c =? LF then [] :: split_lines s'
      else match s' with
           | d :: s'' => if ((c =? CR) && (d =? LF))%bool then [] :: split_lines s'' else cons_line c (split_lines s')
           | [] => [[c]]
           end
  end.
(** [INVALID_HEADER_VALUE_RE] *)
Definition invalid_value (c : Z) : bool :=
  (between 0 c 8 || (c =? 11) || (c =? 12) || between 14 c 31 || (c =? 127) || (c =? CR))%bool.

Definition malformed_header (header : text) : exn := JsError ("malformed HTTP header: " +:+ show header).
Fixpoint parse_fields (lines : list text) (raw : list (text * text)) (h : headers) : outcome (list (text * text) * headers) :=
  match lines with
  | [] => Done (raw, h)
  | header :: lines =>
      if bool_decide (header = []) then parse_fields lines raw h
      else match char_index 58 header with
           | Some (S n as colon) =>
               let name := take colon header in
               if existsb js_space name then Raise (malformed_header header)
               else
                 let raw_value := drop (S colon) header in
                 if existsb invalid_value raw_value then Raise (malformed_header header)
                 else
                   let value := trim raw_value in
                   h ← headers_append name value h;
                   parse_fields lines (raw ++ [(name, value)]) h
           | _ => Raise (malformed_header header)
           end
  end.
Definition parse_head (s : text) (strict_crlf : bool) : outcome http_head :=
  if (strict_crlf && bare_lf None s)%bool then Raise (JsError "HTTP requires CRLF line endings")
  else
    let lines := if strict_crlf then split_crlf s else split_lines s in
    '(raw, h) ← parse_fields (tail lines) [] [];
    Done (Head (default [] (head lines)) raw h).

Definition field_line (p : text * text) : text := p.1 ++ lit ": " ++ p.2 ++ crlf.
Definition serialize_head (line : text) (h : headers) : list Z :=
  utf8_encode ((line ++ crlf ++ (headers_entries h ≫= field_line)) ++ crlf).

(** * Start lines *)
Fixpoint span (f : Z → bool) (s : text) : text * text :=
  match s with
  | [] => ([], [])
  | c :: s' => if f c then let '(a, b) := span f s' in (c :: a, b) else ([], s)
  end.
(** [REQUEST_LINE_RE] *)
Definition request_line (line : text) : option (text * text) :=
  let '(method, rest) := span upper_ascii line in
  match method, rest with
  | _ :: _, 32 :: rest =>
      let '(target, rest) := span (fun c => negb (c =? SP)) rest in
      match target with
      | 47 :: _ => if bool_decide (rest = lit " HTTP/1.0" ∨ rest = lit " HTTP/1.1") then Some (method, target) else None
      | _ => None
      end
  | _, _ => None
  end.
(** [INVALID_REQUEST_TARGET_RE]; a code point above U+FFFF is two units in range. *)
Definition invalid_target (c : Z) : bool := ((c =? 35) || (c =? 92) || between 0 c 31 || (127 <=? c))%bool.
Definition parse_request_line (line : text) : outcome (text * text) :=
  match request_line line with
  | None => Raise (JsError ("unsupported HTTP request line: " +:+ show line))
  | Some (method, target) =>
      if existsb invalid_target target then Raise (JsError ("unsupported HTTP request target: " +:+ show target))
      else Done (method, target)
  end.

Definition digits_value (base : Z) (value : Z → Z) (s : text) : Z := foldl (fun n c => n * base + value c) 0 s.
(** [Number(s)] of decimal digits, before rounding. *)
Definition decimal_value (s : text) : Z := digits_value 10 (fun c => c - 48) s.
Definition line_terminator (c : Z) : bool := ((c =? LF) || (c =? CR) || (c =? 0x2028) || (c =? 0x2029))%bool.
(** [STATUS_LINE_RE] *)
Definition status_line (line : text) : option (text * text) :=
  if negb (bool_decide (take 9 line = lit "HTTP/1.0 " ∨ take 9 line = lit "HTTP/1.1 ")) then None
  else
    let status := take 3 (drop 9 line) in
    if negb (bool_decide (length status = 3%nat) && forallb digit status) then None
    else match drop 12 line with
         | [] => Some (status, [])
         | c :: phrase => if ((c =? SP) && negb (existsb line_terminator phrase))%bool then Some (status, phrase) else None
         end.
Definition parse_status_line (line : text) : outcome (Z * text) :=
  match status_line line with
  | None => Raise (JsError ("malformed HTTP status line: " +:+ show line))
  | Some (status, phrase) => Done (decimal_value status, phrase)
  end.

(** * Declared bodies *)
Inductive body := Length (n : Z) | Chunked.
Definition MAX_SAFE_INTEGER : Z := 2 ^ 53 - 1.
(** An integer above [MAX_SAFE_INTEGER] rounds to one above it. *)
Definition is_safe (n : Z) : bool := n <=? MAX_SAFE_INTEGER.
Definition content_length : text := lit "content-length".
Definition transfer_encoding : text := lit "transfer-encoding".
Definition declared_body (h : headers) : outcome (option body) :=
  match headers_get transfer_encoding h, headers_get content_length h with
  | Some _, Some _ => Raise (JsError "HTTP message has both transfer-encoding and content-length")
  | Some encoding, None =>
      if bool_decide (lower_ascii encoding = lit "chunked") then Done (Some Chunked)
      else Raise (JsError ("unsupported transfer encoding: " +:+ show encoding))
  | None, None => Done None
  | None, Some declared =>
      if negb (negb (bool_decide (declared = [])) && forallb digit declared)
      then Raise (JsError ("invalid content length: " +:+ show declared))
      else if negb (is_safe (decimal_value declared)) then Raise (JsError ("invalid content length: " +:+ show declared))
      else Done (Some (Length (decimal_value declared)))
  end.
Definition raw_values (name : text) (raw : list (text * text)) : list text :=
  (filter (fun p => lower_ascii p.1 = name) raw).*2.
Definition declared_raw_body (hd : http_head) : outcome (option body) :=
  if bool_decide (1 < length (raw_values content_length (hd_raw hd)))%nat
  then Raise (JsError "HTTP message has duplicate content-length")
  else if bool_decide (1 < length (raw_values transfer_encoding (hd_raw hd)))%nat
  then Raise (JsError "HTTP message has duplicate transfer-encoding")
  else declared_body (hd_headers hd).

(** * Fields of one connection *)
Definition HOP_BY_HOP : list text :=
  [lit "connection"; lit "keep-alive"; lit "proxy-authenticate"; lit "proxy-authorization"; lit "proxy-connection";
   lit "te"; lit "trailer"; transfer_encoding; lit "upgrade"].
Definition headers_remove (name : text) : M headers unit :=
  if is_token name then modify (headers_delete name) else throw (JsTypeError "invalid header name").
Fixpoint delete_all (names : list text) : M headers unit :=
  match names with
  | [] => mret tt
  | name :: names => headers_remove name ;; delete_all names
  end.
Fixpoint delete_tokens (connection : text) (names : list text) : M headers unit :=
  match names with
  | [] => mret tt
  | name :: names =>
      let token := trim name in
      if negb (is_token token) then throw (JsError ("invalid Connection header: " +:+ show connection))
      else headers_remove token ;; delete_tokens connection names
  end.
Definition strip_hop_by_hop (additional : list text) : M headers unit :=
  connection ← gets (headers_get (lit "connection"));
  match connection with
  | Some connection => delete_tokens connection (split_on 44 connection)
  | None => mret tt
  end ;;
  delete_all HOP_BY_HOP ;;
  delete_all additional.

(** * Lemmas on lines and fields *)
Lemma split_crlf_line a b : CR ∉ a → split_crlf (a ++ crlf ++ b) = a :: split_crlf b.
Proof.
  induction a as [|c a IH]; intros Ha; [done|]. apply not_elem_of_cons in Ha as [Hc Ha]. specialize (IH Ha).
  change ((c :: a) ++ crlf ++ b) with (c :: (a ++ crlf ++ b)).
  assert (Hd : ∃ d s, a ++ crlf ++ b = d :: s) by (destruct a as [|x a]; by do 2 eexists). destruct Hd as (d&s&E).
  rewrite E in *. cbn [split_crlf]. replace (c =? CR) with false by (symmetry; apply Z.eqb_neq; congruence). cbn [andb].
  cbn [split_crlf] in IH. rewrite IH. done.
Qed.
Lemma split_lines_line a b : CR ∉ a → LF ∉ a → split_lines (a ++ crlf ++ b) = a :: split_lines b.
Proof.
  induction a as [|c a IH]; intros Ha Hl; [done|]. apply not_elem_of_cons in Ha as [Hc Ha]. apply not_elem_of_cons in Hl as [Hn Hl]. specialize (IH Ha Hl).
  change ((c :: a) ++ crlf ++ b) with (c :: (a ++ crlf ++ b)).
  assert (Hd : ∃ d s, a ++ crlf ++ b = d :: s) by (destruct a as [|x a]; by do 2 eexists). destruct Hd as (d&s&E).
  rewrite E in *. cbn [split_lines]. replace (c =? CR) with false by (symmetry; apply Z.eqb_neq; congruence).
  replace (c =? LF) with false by (symmetry; apply Z.eqb_neq; congruence). cbn [andb]. cbn [split_lines] in IH. by rewrite IH.
Qed.
Lemma bare_lf_line prev a b : LF ∉ a → bare_lf prev (a ++ crlf ++ b) = bare_lf (Some LF) b.
Proof.
  revert prev; induction a as [|c a IH]; intros prev Ha.
  - cbn. by rewrite bool_decide_true by done.
  - apply not_elem_of_cons in Ha as [Hc Ha]. cbn. replace (c =? LF) with false by (symmetry; apply Z.eqb_neq; congruence). by apply IH.
Qed.
Lemma char_index_here c a b : c ∉ a → char_index c (a ++ c :: b) = Some (length a).
Proof.
  induction a as [|x a IH]; intros Ha; cbn; [by rewrite Z.eqb_refl|]. apply not_elem_of_cons in Ha as [Hc Ha].
  replace (x =? c) with false by (symmetry; apply Z.eqb_neq; congruence). by rewrite IH.
Qed.

Lemma drop_while_length {A} (f : A → bool) l : (length (drop_while f l) ≤ length l)%nat.
Proof. induction l as [|x l IH]; [done|]. cbn. destruct (f x); cbn; lia. Qed.
Lemma drop_while_fixed {A} (f : A → bool) l : length (drop_while f l) = length l → ∀ x l', l = x :: l' → f x = false.
Proof. intros H x l' ->. cbn in H. destruct (f x); [|done]. pose proof (drop_while_length f l'). cbn in H. lia. Qed.
Lemma drop_while_none {A} (f : A → bool) l : (∀ x l', l = x :: l' → f x = false) → drop_while f l = l.
Proof. destruct l as [|x l]; [done|]. intros H. cbn. by rewrite (H x l). Qed.
(** A text that trimming leaves alone has no space at either end. *)
Lemma trim_fixed f s : trim_with f s = s → drop_while f s = s ∧ drop_while f (reverse s) = reverse s.
Proof.
  unfold trim_with. intros H. assert (E1 : length (drop_while f s) = length s).
  { pose proof (drop_while_length f s). pose proof (drop_while_length f (reverse (drop_while f s))) as H2. rewrite length_reverse in H2.
    assert (length s = length (drop_while f (reverse (drop_while f s)))) as H3 by (rewrite <- H at 1; apply length_reverse). lia. }
  assert (E : drop_while f s = s) by (apply drop_while_none, drop_while_fixed, E1). split; [done|]. rewrite E in H.
  rewrite <- H at 2. by rewrite reverse_involutive.
Qed.
Lemma trim_less f g s : (∀ c, f c = true → g c = true) → trim_with g s = s → trim_with f s = s.
Proof.
  intros Hfg [E1 E2]%trim_fixed. assert (Hnone : ∀ l, drop_while g l = l → drop_while f l = l).
  { intros l El. apply drop_while_none. intros x l' ->. destruct (f x) eqn:Ex; [|done]. apply Hfg in Ex.
    pose proof (drop_while_fixed g (x :: l') (f_equal length El) x l' eq_refl). congruence. }
  unfold trim_with. rewrite (Hnone s E1), (Hnone _ E2). by rewrite reverse_involutive.
Qed.
Lemma trim_space s : trim (SP :: s) = trim s.
Proof. done. Qed.

Lemma token_range c : token_char c = true → 33 ≤ c < 127.
Proof. unfold token_char, alpha, digit, between. rewrite !orb_true_iff, !andb_true_iff, !Z.leb_le, !Z.eqb_eq. lia. Qed.
Lemma token_plain s c : is_token s = true → c ∈ s → 33 ≤ c < 127 ∧ c ≠ 58.
Proof.
  intros Hs Hc. assert (H : token_char c = true).
  { destruct s as [|x s]; [done|]. apply list_elem_of_In in Hc. exact (proj1 (forallb_forall _ _) Hs c Hc). }
  split; [by apply token_range|]. by intros ->.
Qed.
Lemma space_range c : 33 ≤ c < 127 → js_space c = false.
Proof. intros. unfold js_space, between. rewrite !orb_false_iff, !andb_false_iff, !Z.leb_gt, !Z.eqb_neq. lia. Qed.

(** A field that is serialized and parsed as itself. *)
Definition value_char (c : Z) : Prop := 0 ≤ c < 256 ∧ invalid_value c = false ∧ c ≠ LF.
Record field_ok (p : text * text) : Prop := {
  fo_name : is_token p.1 = true;
  fo_lower : lower_ascii p.1 = p.1;
  fo_value : Forall value_char p.2;
  fo_trim : trim p.2 = p.2 }.
Lemma forallb_of_Forall {A} (f : A → bool) (P : A → Prop) l : (∀ x, P x → f x = true) → Forall P l → forallb f l = true.
Proof. intros H. induction 1; [done|]. cbn. rewrite H by done. done. Qed.
Lemma existsb_of_Forall {A} (f : A → bool) (P : A → Prop) l : (∀ x, P x → f x = false) → Forall P l → existsb f l = false.
Proof. intros H. induction 1; [done|]. cbn. rewrite H by done. done. Qed.
Lemma append_field p h : field_ok p → headers_append p.1 p.2 h = Done (h ++ [p]).
Proof.
  intros [Hn Hl Hv Ht]. destruct p as [n v]. cbn [fst snd] in *. unfold headers_append.
  assert (E1 : latin1 n = true).
  { apply (forallb_of_Forall _ (fun c => c < 256)); [intros; by apply Z.ltb_lt|]. apply Forall_forall. intros c [? _]%(token_plain n); [lia|done]. }
  assert (E2 : latin1 v = true) by (eapply forallb_of_Forall; [|exact Hv]; intros c [? _]; apply Z.ltb_lt; lia).
  rewrite E1, E2. cbn [andb negb]. rewrite (trim_less _ js_space) by
    (try exact Ht; intros c; unfold http_space, js_space, LF, CR, SP, between; rewrite !orb_true_iff, !andb_true_iff, !Z.leb_le, !Z.eqb_eq; lia).
  rewrite Hn. erewrite forallb_of_Forall; [by rewrite Hl| |exact Hv]. intros c (?&Hc&?). cbn.
  unfold invalid_value, between, CR, LF in *. rewrite !orb_false_iff, !andb_false_iff, !Z.leb_gt, !Z.eqb_neq in Hc.
  apply negb_true_iff. rewrite !orb_false_iff, !Z.eqb_neq. lia.
Qed.
Lemma parse_field p lines raw h :
  field_ok p → parse_fields ((p.1 ++ lit ": " ++ p.2) :: lines) raw h = parse_fields lines (raw ++ [p]) (h ++ [p]).
Proof.
  intros Hp. pose proof (append_field p h Hp) as Ha. destruct Hp as [Hn Hl Hv Ht]. destruct p as [n v]. cbn [fst snd] in *.
  cbn [parse_fields]. change (n ++ lit ": " ++ v) with (n ++ 58 :: SP :: v).
  rewrite bool_decide_false by (by destruct n). rewrite char_index_here by (intros H; by apply (token_plain n) in H as [_ ?]).
  destruct n as [|x n]; [done|]. cbn [length]. change (S (length n)) with (length (x :: n)). rewrite take_app_length.
  rewrite (existsb_of_Forall _ (fun c => 33 ≤ c < 127)); [|apply space_range|apply Forall_forall; intros c [? _]%(token_plain (x :: n)); done].
  replace (drop (S (length (x :: n))) ((x :: n) ++ 58 :: SP :: v)) with (SP :: v).
  2: { change ((x :: n) ++ 58 :: SP :: v) with ((x :: n) ++ [58] ++ SP :: v). rewrite app_assoc, drop_app_length'; [done|]. rewrite length_app. cbn. lia. }
  cbn [existsb]. change (invalid_value SP) with false. rewrite (existsb_of_Forall _ value_char); [|by intros c (?&?&?)|done]. cbn [orb].
  rewrite trim_space, Ht, Ha. done.
Qed.

(** ** A serialized head *)
Definition line_ok (line : text) : Prop := ascii line ∧ (CR ∉ line) ∧ (LF ∉ line).
Definition body_of (p : text * text) : text := p.1 ++ lit ": " ++ p.2.
Definition head_text (line : text) (fields : list (text * text)) : text :=
  line ++ crlf ++ (fields ≫= (fun p => body_of p ++ crlf)) ++ crlf.
Lemma serialize_head_text line h : serialize_head line h = utf8_encode (head_text line (headers_entries h)).
Proof.
  unfold serialize_head, head_text. f_equal. rewrite <- !app_assoc. do 2 f_equal. f_equal.
  induction (headers_entries h) as [|p l IH]; [done|]. rewrite !bind_cons, IH. unfold field_line, body_of. by rewrite <- !app_assoc.
Qed.
Lemma body_plain p c : field_ok p → c ∈ body_of p → 0 ≤ c < 256 ∧ c ≠ CR ∧ c ≠ LF.
Proof.
  intros [Hn Hl Hv Ht]. unfold body_of. rewrite !elem_of_app. intros [H|[H|H]].
  - apply (token_plain p.1) in H as [? _]; [|done]. unfold CR, LF. lia.
  - change (lit ": ") with [58; 32] in H. apply elem_of_cons in H as [->|H%list_elem_of_singleton]; [|subst]; done.
  - rewrite Forall_forall in Hv. destruct (Hv c H) as (?&Hi&?). split_and!; [lia|lia| |done]. intros ->. done.
Qed.
Lemma split_fields fields : Forall field_ok fields →
  let s := (fields ≫= (fun p => body_of p ++ crlf)) ++ crlf in
  split_crlf s = (body_of <$> fields) ++ [[]; []] ∧ split_lines s = (body_of <$> fields) ++ [[]; []].
Proof.
  induction 1 as [|p l Hp Hl [IH1 IH2]]; [done|]. cbn zeta in *. rewrite bind_cons, <- !app_assoc.
  assert (Hc : (CR ∉ body_of p) ∧ (LF ∉ body_of p)) by (split; intros (?&?&?)%body_plain; done).
  rewrite split_crlf_line, split_lines_line by apply Hc. by rewrite IH1, IH2.
Qed.
Lemma bare_fields prev fields : Forall field_ok fields → bare_lf (Some prev) ((fields ≫= (fun p => body_of p ++ crlf)) ++ crlf) = false.
Proof.
  intros H. revert prev; induction H as [|p l Hp Hl IH]; intros prev; [done|]. rewrite bind_cons, <- !app_assoc, bare_lf_line; [by rewrite IH|].
  intros Hin%body_plain; [|done]. naive_solver.
Qed.
Lemma parse_all fields raw h : Forall field_ok fields →
  parse_fields ((body_of <$> fields) ++ [[]; []]) raw h = Done (raw ++ fields, h ++ fields).
Proof.
  intros H. revert raw h; induction H as [|p l Hp Hl IH]; intros raw h; [by rewrite !app_nil_r|].
  cbn [fmap list_fmap app]. unfold body_of at 1. rewrite parse_field, IH by done. by rewrite <- !app_assoc.
Qed.
Lemma parse_head_text line fields strict : line_ok line → Forall field_ok fields →
  parse_head (head_text line fields) strict = Done (Head line fields fields).
Proof.
  intros (Ha&Hc&Hl) Hf. destruct (split_fields fields Hf) as [E1 E2]. unfold parse_head, head_text. rewrite bare_lf_line, bare_fields, andb_false_r by done.
  rewrite split_crlf_line, split_lines_line, E1, E2 by done. destruct strict; cbn [tail]; by rewrite parse_all.
Qed.
Lemma head_text_plain line fields : line_ok line → Forall field_ok fields → Forall (fun c => 0 ≤ c < 256) (head_text line fields).
Proof.
  intros (Ha&_&_) Hf. assert (Hcr : Forall (fun c => 0 ≤ c < 256) crlf) by (repeat constructor; done).
  unfold head_text. repeat apply Forall_app_2; try exact Hcr.
  - eapply Forall_impl; [exact Ha|]. cbn. lia.
  - induction Hf as [|p l Hp _ IH]; [constructor|]. rewrite bind_cons. apply Forall_app_2; [apply Forall_app_2; [|exact Hcr]|exact IH].
    apply Forall_forall. intros c H%body_plain; [apply H|done].
Qed.
Lemma utf8_replace_head line fields : line_ok line → Forall field_ok fields →
  utf8_replace (utf8_encode (head_text line fields)) = head_text line fields.
Proof.
  intros Hl Hf. assert (H : utf8_replace_from utf8_start (utf8_encode (head_text line fields)) = head_text line fields).
  { apply utf8_replace_encode. eapply Forall_impl; [by apply head_text_plain|]. cbn. intros c Hc. split; [lia|].
    unfold surrogate. apply andb_false_iff. rewrite !Z.leb_gt. lia. }
  assert (E : ∃ c s, utf8_encode (head_text line fields) = c :: s ∧ c < 128).
  { unfold head_text. destruct line as [|c line].
    - change (utf8_encode ([] ++ ?x)) with (utf8_encode x). eexists CR, _. split; [reflexivity|done].
    - destruct Hl as ([Hc _]%Forall_cons&_&_). eexists c, _. split; [|lia]. unfold utf8_encode. cbn [app]. rewrite bind_cons.
      unfold utf8_encode_point at 1. replace (c <? 128) with true by (symmetry; apply Z.ltb_lt; lia). reflexivity. }
  destruct E as (c&s&E&Hc). rewrite <- H at 2. unfold utf8_replace. rewrite E. repeat (case_match; try reflexivity); subst; lia.
Qed.

(** A head that is serialized, whatever its start line and headers, parses
    back, with strict line endings or without, to the start line and the fields it lists: the
    headers sorted by name with the values of each name combined. *)
Theorem serialized_head_parses line h strict :
  line_ok line → Forall field_ok (headers_entries h) →
  parse_head (utf8_replace (serialize_head line h)) strict = Done (Head line (headers_entries h) (headers_entries h)).
Proof. intros Hl Hf. rewrite serialize_head_text, utf8_replace_head by done. by apply parse_head_text. Qed.
Definition sample_headers : headers := [(lit "host", lit "a.test"); (lit "accept", lit "x"); (lit "accept", lit "y z")].
Lemma sample_entries : headers_entries sample_headers = [(lit "accept", lit "x, y z"); (lit "host", lit "a.test")].
Proof. vm_compute. reflexivity. Qed.
Lemma sample_fields : Forall field_ok (headers_entries sample_headers).
Proof.
  rewrite sample_entries. repeat constructor; try (vm_compute; reflexivity); cbn [snd];
    apply (bool_decide_unpack _); vm_compute; exact I.
Qed.
Lemma sample_line : line_ok (lit "GET / HTTP/1.1").
Proof. split_and!; apply (bool_decide_unpack _); vm_compute; exact I. Qed.
Lemma serialized_head_parses_witness :
  parse_head (utf8_replace (serialize_head (lit "GET / HTTP/1.1") sample_headers)) true =
  Done (Head (lit "GET / HTTP/1.1") (headers_entries sample_headers) (headers_entries sample_headers)).
Proof. apply serialized_head_parses; [exact sample_line|exact sample_fields]. Defined.

(** * Start lines *)
Lemma span_app f a b : forallb f a = true → (∀ c b', b = c :: b' → f c = false) → span f (a ++ b) = (a, b).
Proof.
  induction a as [|c a IH]; cbn; intros Ha Hb.
  - destruct b as [|c b]; [done|]. cbn. by rewrite (Hb c b).
  - apply andb_true_iff in Ha as [Hc Ha]. by rewrite Hc, IH.
Qed.
Lemma span_spec f s a b : span f s = (a, b) → s = a ++ b ∧ forallb f a = true.
Proof.
  revert a b; induction s as [|c s IH]; cbn; intros a b; [intros [= <- <-]; by split|].
  destruct (f c) eqn:Hc; [|intros [= <- <-]; by split]. destruct (span f s) as [x y] eqn:E. intros [= <- <-].
  destruct (IH x y eq_refl) as [-> Hx]. cbn. by rewrite Hc.
Qed.
Definition target_char (c : Z) : bool := (negb (invalid_target c) && negb (c =? SP))%bool.
Lemma target_forall t :
  forallb target_char t = (negb (existsb invalid_target t) && forallb (fun c => negb (c =? SP)) t)%bool.
Proof.
  induction t as [|c t IH]; [done|]. cbn. rewrite IH. unfold target_char.
  destruct (invalid_target c), (c =? SP), (existsb invalid_target t); done.
Qed.

(** A request line is accepted exactly when it is an upper-case method, a
    space, a target that starts with a slash and has no control character, space,
    fragment, backslash or non-ASCII character, and HTTP/1.0 or HTTP/1.1; and it
    is read as that method and target. *)
Theorem request_line_iff line method target :
  parse_request_line line = Done (method, target) ↔
  ∃ version, line = method ++ [SP] ++ target ++ version ∧ (version = lit " HTTP/1.0" ∨ version = lit " HTTP/1.1") ∧
    method ≠ [] ∧ forallb upper_ascii method = true ∧ head target = Some 47 ∧ forallb target_char target = true.
Proof.
  unfold parse_request_line. split.
  - destruct (request_line line) as [[m t]|] eqn:E; [|done]. destruct (existsb invalid_target t) eqn:Ei; [done|]. intros [= -> ->].
    revert E. unfold request_line. destruct (span upper_ascii line) as [m rest] eqn:E1. apply span_spec in E1 as [-> Hm].
    destruct m as [|x m]; [done|]. destruct rest as [|c rest]; [done|].
    destruct (decide (c = 32)) as [->|Hc]; [|by repeat case_match].
    destruct (span _ rest) as [t rest'] eqn:E2. apply span_spec in E2 as [-> Ht]. destruct t as [|y t]; [done|].
    destruct (decide (y = 47)) as [->|Hy]; [|by repeat case_match]. case_bool_decide as Hv; [|done]. intros [= <- <-].
    exists rest'. split_and!; try done. by rewrite target_forall, Ei, Ht.
  - intros (v&->&Hv&Hm&Hmu&Hh&Ht). rewrite target_forall in Ht. apply andb_true_iff in Ht as [Hi%negb_true_iff Ht].
    unfold request_line. rewrite span_app by (try done; by intros c b [= <- _]). destruct method as [|x m]; [done|].
    cbn [app]. change SP with 32 at 1. cbv iota beta.
    rewrite span_app; [|done|by intros c b E; destruct Hv as [-> | ->]; injection E as <- _].
    destruct target as [|y t]; [done|]. injection Hh as ->. rewrite bool_decide_true by done. by rewrite Hi.
Qed.

(** * Declared bodies *)
Lemma drop_while_head {A} (f : A → bool) l x l' : drop_while f l = x :: l' → f x = false.
Proof. induction l as [|y l IH]; [done|]. cbn. destruct (f y) eqn:E; [auto|]. by intros [= -> _]. Qed.
Lemma drop_while_suffix {A} (f : A → bool) l : ∃ p, l = p ++ drop_while f l.
Proof.
  induction l as [|y l [p IH]]; [by exists []|]. cbn. destruct (f y); [exists (y :: p); cbn; by rewrite <- IH|by exists []].
Qed.
Lemma trim_idempotent f s : trim_with f (trim_with f s) = trim_with f s.
Proof.
  assert (H : ∀ l, drop_while f l = l → trim_with f (reverse (drop_while f (reverse l))) = reverse (drop_while f (reverse l))).
  { intros l El. unfold trim_with. set (r := drop_while f (reverse l)).
    assert (Er : drop_while f (reverse r) = reverse r).
    { apply drop_while_none. intros x l' E. destruct (drop_while_suffix f (reverse l)) as [p Hp]. fold r in Hp.
      apply (f_equal reverse) in Hp. rewrite reverse_involutive, reverse_app, E in Hp.
      apply (drop_while_fixed f l (f_equal length El) x (l' ++ reverse p)). by rewrite Hp. }
    rewrite Er, reverse_involutive. f_equal. apply drop_while_none. intros x l' E. by eapply drop_while_head. }
  apply H. apply drop_while_none. intros x l' E. by eapply drop_while_head.
Qed.
Lemma append_trimmed name s h h' :
  headers_append name (trim s) h = Done h' → h' = h ++ [(lower_ascii name, trim s)].
Proof.
  unfold headers_append. destruct (negb _); [done|]. rewrite (trim_less _ js_space).
  - destruct (_ && _)%bool; [|done]. by intros [= <-].
  - intros c. unfold http_space, js_space, LF, CR, SP, between. rewrite !orb_true_iff, !andb_true_iff, !Z.leb_le, !Z.eqb_eq. lia.
  - apply trim_idempotent.
Qed.
Definition canonical (p : text * text) : text * text := (lower_ascii p.1, p.2).
Lemma parse_fields_canonical lines raw h raw' h' :
  parse_fields lines raw h = Done (raw', h') → h = canonical <$> raw → h' = canonical <$> raw'.
Proof.
  revert raw h; induction lines as [|l lines IH]; intros raw h; cbn; [by intros [= -> ->]|].
  case_bool_decide; [apply IH|]. destruct (char_index 58 l) as [[|n]|]; [done| |done].
  destruct (existsb js_space _); [done|]. destruct (existsb invalid_value _); [done|].
  destruct (headers_append _ _ h) as [h1|e|] eqn:Ea; [|done..]. apply append_trimmed in Ea as ->. cbn. intros Hp Hh.
  apply (IH _ _ Hp). by rewrite fmap_app, Hh.
Qed.
Lemma raw_values_canonical name raw : headers_values name (canonical <$> raw) = raw_values name raw.
Proof.
  unfold headers_values, raw_values. induction raw as [|p raw IH]; [done|]. rewrite fmap_cons, !filter_cons.
  change ((canonical p).1) with (lower_ascii p.1). destruct (decide (lower_ascii p.1 = name)); [|exact IH]. by rewrite !fmap_cons, IH.
Qed.
Lemma digits_value_bound n s : 0 ≤ n → forallb digit s = true → 0 ≤ foldl (fun n c => n * 10 + (c - 48)) n s.
Proof.
  revert n; induction s as [|c s IH]; intros n Hn; [done|]. cbn. intros [Hc Hs]%andb_true_iff. apply IH; [|done].
  unfold digit, between in Hc. zbool. lia.
Qed.

(** The framing of a message is read in one way only: a length comes from a
    single content-length field of decimal digits, at most 2^53 - 1, with no
    transfer-encoding; chunked coding from a single transfer-encoding field that
    says just that, with no content-length; otherwise there is neither field.
    Repeated, conflicting or malformed framing fields are refused. *)
Theorem declared_body_unambiguous s strict hd b :
  parse_head s strict = Done hd → declared_raw_body hd = Done b →
  match b with
  | Some (Length n) => ∃ v, raw_values content_length (hd_raw hd) = [v] ∧ raw_values transfer_encoding (hd_raw hd) = [] ∧
      v ≠ [] ∧ forallb digit v = true ∧ n = decimal_value v ∧ 0 ≤ n ≤ MAX_SAFE_INTEGER
  | Some Chunked => ∃ v, raw_values transfer_encoding (hd_raw hd) = [v] ∧ raw_values content_length (hd_raw hd) = [] ∧
      lower_ascii v = lit "chunked"
  | None => raw_values transfer_encoding (hd_raw hd) = [] ∧ raw_values content_length (hd_raw hd) = []
  end.
Proof.
  unfold parse_head, declared_raw_body, declared_body, headers_get. destruct (_ && _)%bool; [done|].
  destruct (parse_fields _ [] []) as [[raw h]|e|] eqn:E; [|done..]. intros [= <-]. cbn [hd_raw hd_headers].
  rewrite (parse_fields_canonical _ _ _ _ _ E eq_refl), !raw_values_canonical.
  case_bool_decide as H1; [done|]. case_bool_decide as H2; [done|].
  destruct (raw_values transfer_encoding raw) as [|t [|? ?]]; [| |cbn in H2; lia];
    (destruct (raw_values content_length raw) as [|c [|? ?]]; [| |cbn in H1; lia]); cbn [join].
  - by intros [= <-].
  - destruct (negb (negb (bool_decide (c = [])) && forallb digit c)) eqn:Ed; [done|].
    apply negb_false_iff, andb_true_iff in Ed as [Hc%negb_true_iff%bool_decide_eq_false Hd].
    destruct (negb (is_safe (decimal_value c))) eqn:Es; [done|]. apply negb_false_iff in Es. intros [= <-].
    exists c. split_and!; try done; [by apply digits_value_bound|]. unfold is_safe in Es. by zbool.
  - case_bool_decide; [|done]. intros [= <-]. by exists t.
  - done.
Qed.
Definition framed : text := lit "POST / HTTP/1.1" ++ crlf ++ lit "Content-Length: 42" ++ crlf ++ crlf.
Lemma declared_body_unambiguous_witness :
  ∃ v, raw_values content_length [(lit "Content-Length", lit "42")] = [v] ∧ raw_values transfer_encoding [(lit "Content-Length", lit "42")] = [] ∧
    v ≠ [] ∧ forallb digit v = true ∧ 42 = decimal_value v ∧ 0 ≤ 42 ≤ MAX_SAFE_INTEGER.
Proof.
  apply (declared_body_unambiguous framed true
    (Head (lit "POST / HTTP/1.1") [(lit "Content-Length", lit "42")] [(content_length, lit "42")]) (Some (Length 42)));
    vm_compute; reflexivity.
Defined.
(** Two lengths, or a length and chunked coding, are refused. *)
Example smuggled :
  (∃ e, (hd ← parse_head (lit "POST / HTTP/1.1" ++ crlf ++ lit "Content-Length: 5" ++ crlf ++ lit "content-length: 5" ++ crlf ++ crlf) true;
    declared_raw_body hd) = Raise e) ∧
  (∃ e, (hd ← parse_head (lit "POST / HTTP/1.1" ++ crlf ++ lit "Content-Length: 5" ++ crlf ++ lit "Transfer-Encoding: chunked" ++ crlf ++ crlf) true;
    declared_raw_body hd) = Raise e).
Proof. split; eexists; vm_compute; reflexivity. Qed.

(** * Fields of one connection *)
(** The fields whose name is none of [names]. *)
Definition without (names : list text) (h : headers) : headers := filter (fun p => p.1 ∉ lower_ascii <$> names) h.
Lemma without_nil h : without [] h = h.
Proof. unfold without. induction h as [|p h IH]; [done|]. rewrite filter_cons_True by apply not_elem_of_nil. by rewrite IH. Qed.
Lemma without_delete name names h : without names (headers_delete name h) = without (name :: names) h.
Proof.
  unfold without, headers_delete. rewrite list_filter_filter. apply list_filter_iff. intros p. cbn [fmap list_fmap].
  rewrite not_elem_of_cons. tauto.
Qed.
Lemma without_app a b h : without a (without b h) = without (b ++ a) h.
Proof.
  unfold without. rewrite list_filter_filter. apply list_filter_iff. intros p. rewrite fmap_app, not_elem_of_app. tauto.
Qed.
Lemma delete_all_spec names h : Forall (fun n => is_token n = true) names → delete_all names h = (Done tt, without names h).
Proof.
  intros Hn. revert h. induction Hn as [|n names Hn _ IH]; intros h; cbn [delete_all]; [by rewrite without_nil|].
  unfold headers_remove. rewrite Hn. erewrite M_bind_done by done. by rewrite IH, without_delete.
Qed.
Lemma delete_tokens_spec connection names h :
  if forallb is_token (trim <$> names) then delete_tokens connection names h = (Done tt, without (trim <$> names) h)
  else (delete_tokens connection names h).1 = Raise (JsError ("invalid Connection header: " +:+ show connection)).
Proof.
  revert h; induction names as [|n names IH]; intros h; cbn [delete_tokens fmap list_fmap forallb]; [by rewrite without_nil|].
  destruct (is_token (trim n)) eqn:Hn; [|done]. cbn [negb andb]. specialize (IH (headers_delete (trim n) h)).
  unfold headers_remove. rewrite Hn. erewrite M_bind_done by done. rewrite <- without_delete. exact IH.
Qed.
(** The names a message's Connection field lists. *)
Definition connection_tokens (h : headers) : list text :=
  match headers_get (lit "connection") h with Some c => trim <$> split_on 44 c | None => [] end.

(** [strip_hop_by_hop] removes the fields named by Connection, the hop-by-hop
    ones and the additional ones, whatever their case and however often they occur,
    and keeps every other field in its order; it throws when Connection names what
    is no token. *)
Theorem strip_hop_by_hop_exact additional h :
  Forall (fun n => is_token n = true) additional →
  if forallb is_token (connection_tokens h)
  then strip_hop_by_hop additional h = (Done tt, without (connection_tokens h ++ HOP_BY_HOP ++ additional) h)
  else raises (strip_hop_by_hop additional h).1 = true.
Proof.
  intros Ha. assert (Hr : ∀ h, (delete_all HOP_BY_HOP ;; delete_all additional) h = (Done tt, without (HOP_BY_HOP ++ additional) h)).
  { intros h'. erewrite M_bind_done by (apply delete_all_spec; repeat constructor). by rewrite delete_all_spec, without_app by done. }
  unfold strip_hop_by_hop, connection_tokens. erewrite M_bind_done by done. destruct (headers_get _ h) as [c|]; cbn [forallb].
  - pose proof (delete_tokens_spec c (split_on 44 c) h) as H. destruct (forallb is_token _).
    + erewrite M_bind_done by exact H. by rewrite Hr, without_app.
    + unfold mbind at 1, M_bind at 1. destruct (delete_tokens _ _ h) as [o s]. cbn [fst] in H. by subst o.
  - erewrite M_bind_done by done. by rewrite Hr.
Qed.
Lemma strip_hop_by_hop_exact_witness :
  strip_hop_by_hop [lit "Host"] [(lit "host", lit "a"); (lit "x", lit "1"); (lit "connection", lit "Close, X"); (lit "y", lit "2"); (lit "te", [])] =
  (Done tt, [(lit "y", lit "2")]).
Proof.
  apply (strip_hop_by_hop_exact [lit "Host"]
    [(lit "host", lit "a"); (lit "x", lit "1"); (lit "connection", lit "Close, X"); (lit "y", lit "2"); (lit "te", [])]).
  repeat constructor.
Defined.
