(* ===== verification/HttpBody.v ===== *)
(** Reading HTTP messages off a byte stream: [ByteReader], the bodies and the
    chunked coding of packages/linux-guest/src/http.ts.

    The stream under a reader is the chunks it has yet to give and how it ends.
    One call of a reader is made at a time, so the function that waits for the
    stream is one that takes its next chunk. *)
From S2P Require Export Http.

Definition MAX_HEAD_BYTES : Z := 65536.
Definition MAX_LINE_BYTES : Z := 8192.
Definition MAX_TRAILER_BYTES : Z := 65536.

(** * The reader *)
Record byte_reader := ByteReader {
  br_source : list (list Z); br_failure : option exn; br_buffer : list Z; br_ended : bool; br_strict : bool }.
#[export] Instance byte_reader_eta : Eta byte_reader := fun r =>
  ByteReader (br_source r) (br_failure r) (br_buffer r) (br_ended r) (br_strict r).
Definition reader_new (source : list (list Z)) (failure : option exn) (strict : bool) : byte_reader :=
  ByteReader source failure [] false strict.

Fixpoint fill_loop (source : list (list Z)) : M byte_reader bool :=
  match source with
  | [] =>
      modify (fun r => r <| br_source := [] |>) ;;
      r ← get_state;
      match br_failure r with
      | Some e => throw e
      | None => modify (fun r => r <| br_ended := true |>) ;; mret false
      end
  | value :: source =>
      if bool_decide (value = []) then fill_loop source
      else modify (fun r => r <| br_source := source |> <| br_buffer := br_buffer r ++ value |>) ;; mret true
  end.
Definition fill : M byte_reader bool :=
  r ← get_state;
  if br_ended r then mret false else fill_loop (br_source r).
Definition consume (n : nat) : M byte_reader (list Z) :=
  r ← get_state;
  modify (fun r => r <| br_buffer := drop n (br_buffer r) |>) ;;
  mret (take n (br_buffer r)).

Definition byte_at (bytes : list Z) (i : nat) (c : Z) : bool := bool_decide (bytes !! i = Some c).
(** Whether the head ends at [index], and where the rest starts. *)
Definition head_end (strict : bool) (bytes : list Z) (index : nat) : option nat :=
  if strict then
    if (byte_at bytes index CR && byte_at bytes (index + 1) LF && byte_at bytes (index + 2) CR && byte_at bytes (index + 3) LF)%bool
    then Some (index + 4)%nat else None
  else if byte_at bytes index LF then
    let next := (index + 1)%nat in
    let next := if byte_at bytes next CR then (next + 1)%nat else next in
    if byte_at bytes next LF then Some (next + 1)%nat else None
  else None.
Fixpoint find_head (strict : bool) (bytes : list Z) (n index : nat) : option nat :=
  match n with
  | O => None
  | S n => match head_end strict bytes index with Some e => Some e | None => find_head strict bytes n (S index) end
  end.

(** [head()]: a round for each chunk at most, and one more. *)
Fixpoint head_loop (fuel searched : nat) : M byte_reader (option http_head) :=
  match fuel with
  | O => lift Loops
  | S fuel =>
      r ← get_state;
      let bytes := br_buffer r in
      match find_head (br_strict r) bytes (length bytes - 1 - searched) searched with
      | Some e =>
          if MAX_HEAD_BYTES <? Z.of_nat e then throw (JsError "HTTP head too large")
          else
            bytes ← consume e;
            hd ← lift (parse_head (utf8_replace bytes) (br_strict r));
            mret (Some hd)
      | None =>
          if MAX_HEAD_BYTES <? zlen bytes then throw (JsError "HTTP head too large")
          else
            more ← fill;
            if more : bool then head_loop fuel (length bytes - 3)
            else if bool_decide (bytes = []) then mret None else throw (JsError "unexpected end of HTTP head")
      end
  end.
Definition head : M byte_reader (option http_head) :=
  r ← get_state; head_loop (S (length (br_source r))) 0.

(** [line()] *)
Fixpoint line_loop (fuel : nat) : M byte_reader text :=
  match fuel with
  | O => lift Loops
  | S fuel =>
      r ← get_state;
      match char_index LF (br_buffer r) with
      | Some index =>
          if MAX_LINE_BYTES <? Z.of_nat index + 1 then throw (JsError "HTTP line too long")
          else
            bytes ← consume (S index);
            let ended := ((0 <? Z.of_nat index) && byte_at bytes (index - 1) CR)%bool in
            let e := if ended then (index - 1)%nat else index in
            if (br_strict r && (negb ended || bool_decide (CR ∈ take e bytes)))%bool
            then throw (JsError "HTTP requires CRLF line endings")
            else mret (utf8_replace (take e bytes))
      | None =>
          if MAX_LINE_BYTES <? zlen (br_buffer r) then throw (JsError "HTTP line too long")
          else
            more ← fill;
            if more : bool then line_loop fuel else throw (JsError "unexpected end of HTTP line")
      end
  end.
Definition line : M byte_reader text := r ← get_state; line_loop (S (length (br_source r))).

(** [take(limit)], where [None] is [Infinity]. *)
Definition take_chunk (limit : option Z) : M byte_reader (option (list Z)) :=
  r ← get_state;
  more ← (if bool_decide (br_buffer r = []) then fill else mret true);
  if more : bool then
    r ← get_state;
    let n := match limit with Some limit => Z.min limit (zlen (br_buffer r)) | None => zlen (br_buffer r) end in
    bytes ← consume (Z.to_nat n);
    mret (Some bytes)
  else mret None.
Definition detach : M byte_reader (list Z) :=
  r ← get_state; modify (fun r => r <| br_buffer := [] |>) ;; mret (br_buffer r).

(** * Bodies

    A body is what its [pull] does: it enqueues a chunk, enqueues a last chunk
    and closes, or closes. *)
Inductive pulled := Pulled (chunk : list Z) | PulledLast (chunk : list Z) | Ended.

Record fixed := Fixed { fx_reader : byte_reader; fx_remaining : Z }.
#[export] Instance fixed_eta : Eta fixed := fun s => Fixed (fx_reader s) (fx_remaining s).
Definition on_fixed {A} : M byte_reader A → M fixed A := focus fx_reader (fun r s => s <| fx_reader := r |>).
Definition fixed_body (reader : byte_reader) (length : Z) : fixed := Fixed reader length.
Definition fixed_pull : M fixed pulled :=
  s ← get_state;
  if fx_remaining s =? 0 then mret Ended
  else
    chunk ← on_fixed (take_chunk (Some (fx_remaining s)));
    match chunk with
    | None => throw (JsError "HTTP body ended early")
    | Some chunk =>
        let remaining := fx_remaining s - zlen chunk in
        modify (fun s => s <| fx_remaining := remaining |>) ;;
        mret (if remaining =? 0 then PulledLast chunk else Pulled chunk)
    end.

Definition eof_pull : M byte_reader pulled :=
  chunk ← take_chunk None;
  mret (match chunk with Some chunk => Pulled chunk | None => Ended end).

(** ** The chunked coding *)
Definition hex_digit (c : Z) : bool := (digit c || between 97 c 102 || between 65 c 70)%bool.
Definition hex_value (c : Z) : Z := if digit c then c - 48 else if between 97 c 102 then c - 87 else c - 55.
(** [CHUNK_SIZE_RE]: the extensions that follow the digits. *)
Fixpoint extensions (fuel : nat) (s : text) : bool :=
  match s, fuel with
  | [], _ => true
  | 59 :: s, S fuel =>
      let '(name, s) := span token_char s in
      if bool_decide (name = []) then false
      else match s with
           | 61 :: 34 :: s =>
               match span (fun c => negb (c =? 34)) s with
               | (_, _ :: s) => extensions fuel s
               | (_, []) => false
               end
           | 61 :: s => let '(value, s) := span token_char s in if bool_decide (value = []) then false else extensions fuel s
           | _ => extensions fuel s
           end
  | _, _ => false
  end.
Definition chunk_size (s : text) : option Z :=
  let '(digits, rest) := span hex_digit s in
  if (negb (bool_decide (digits = [])) && extensions (length rest) rest)%bool
  then Some (digits_value 16 hex_value digits) else None.

Record chunked := ChunkedBody { cb_reader : byte_reader; cb_remaining : Z; cb_between : bool }.
#[export] Instance chunked_eta : Eta chunked := fun s => ChunkedBody (cb_reader s) (cb_remaining s) (cb_between s).
Definition on_chunked {A} : M byte_reader A → M chunked A := focus cb_reader (fun r s => s <| cb_reader := r |>).
Definition chunked_body (reader : byte_reader) : chunked := ChunkedBody reader 0 false.

(** The trailers; each line takes a byte at least. *)
Fixpoint trailers (fuel : nat) (trailer_bytes : Z) : M byte_reader unit :=
  match fuel with
  | O => lift Loops
  | S fuel =>
      trailer ← line;
      let trailer_bytes := trailer_bytes + js_length trailer + 2 in
      if MAX_TRAILER_BYTES <? trailer_bytes then throw (JsError "HTTP trailers too large")
      else if bool_decide (trailer = []) then mret tt else trailers fuel trailer_bytes
  end.
(** The bytes a reader has yet to give. *)
Definition unread (r : byte_reader) : list Z := br_buffer r ++ concat (br_source r).

(** The next chunk's size, and whether it was the last. *)
Definition next_chunk : M chunked bool :=
  s ← get_state;
  (if cb_between s then
     boundary ← on_chunked line;
     if negb (bool_decide (boundary = [])) then throw (JsError "malformed chunk boundary")
     else modify (fun s => s <| cb_between := false |>)
   else mret tt) ;;
  size_line ← on_chunked line;
  match chunk_size size_line with
  | None => throw (JsError ("malformed chunk size: " +:+ show size_line))
  | Some n =>
      modify (fun s => s <| cb_remaining := n |>) ;;
      if negb (is_safe n) then throw (JsError ("chunk size is too large: " +:+ show size_line))
      else if n =? 0 then
        s ← get_state;
        on_chunked (trailers (S (length (unread (cb_reader s)))) 0) ;; mret true
      else mret false
  end.
Definition chunked_pull : M chunked pulled :=
  s ← get_state;
  last ← (if cb_remaining s =? 0 then next_chunk else mret false);
  if last : bool then mret Ended
  else
    s ← get_state;
    chunk ← on_chunked (take_chunk (Some (cb_remaining s)));
    match chunk with
    | None => throw (JsError "HTTP body ended early")
    | Some chunk =>
        let remaining := cb_remaining s - zlen chunk in
        modify (fun s => s <| cb_remaining := remaining |> <| cb_between := if remaining =? 0 then true else cb_between s |>) ;;
        mret (Pulled chunk)
    end.

(** [n.toString(16)] *)
Definition hex_char (d : Z) : Z := if d <? 10 then 48 + d else 87 + d.
Fixpoint hex_loop (fuel : nat) (n : Z) : text :=
  match fuel with
  | O => []
  | S fuel => (if n <? 16 then [] else hex_loop fuel (n / 16)) ++ [hex_char (n mod 16)]
  end.
Definition to_hex (n : Z) : text := hex_loop (S (Z.to_nat (Z.log2 n))) n.
(** [transform] and [flush] of [chunked_encoder]: the chunks they enqueue. *)
Definition encode_chunk (chunk : list Z) : list (list Z) :=
  if bool_decide (chunk = []) then [] else [utf8_encode (to_hex (zlen chunk) ++ crlf); chunk; utf8_encode crlf].
Definition encode_flush : list (list Z) := [utf8_encode (lit "0" ++ crlf ++ crlf)].
Definition chunked_encoder (chunks : list (list Z)) : list (list Z) := (chunks ≫= encode_chunk) ++ encode_flush.

(** What reading a body to its end gives: a pull for each byte at most, and one. *)
Fixpoint read_all {S} (pull : M S pulled) (fuel : nat) : M S (list Z) :=
  match fuel with
  | O => lift Loops
  | Datatypes.S fuel =>
      p ← pull;
      match p with
      | Ended => mret []
      | PulledLast chunk => mret chunk
      | Pulled chunk => rest ← read_all pull fuel; mret (chunk ++ rest)
      end
  end.

(** * The reader as a sequence of bytes

    How the stream is cut into chunks does not matter. *)
Definition reader_ok (r : byte_reader) : Prop := br_ended r = true → br_source r = [] ∧ br_failure r = None.
(** The reader after it has given [l]. *)
Record reads (l : list Z) (r r' : byte_reader) : Prop := {
  rd_unread : unread r = l ++ unread r';
  rd_strict : br_strict r' = br_strict r;
  rd_failure : br_failure r' = br_failure r;
  rd_source : (length (br_source r') ≤ length (br_source r))%nat;
  rd_ok : reader_ok r' }.
Lemma reads_trans a b r r1 r2 : reads a r r1 → reads b r1 r2 → reads (a ++ b) r r2.
Proof.
  intros [U1 S1 F1 L1 O1] [U2 S2 F2 L2 O2]. split; [by rewrite U1, U2, app_assoc|congruence|congruence|lia|done].
Qed.
Lemma fill_cases r :
  reader_ok r →
  (∃ v r', fill r = (Done true, r') ∧ reads [] r r' ∧ br_buffer r' = br_buffer r ++ v ∧ v ≠ [] ∧
    (length (br_source r') < length (br_source r))%nat) ∨
  (concat (br_source r) = [] ∧ ∃ r', fill r = (match br_failure r with Some e => Raise e | None => Done false end, r') ∧
    reads [] r r' ∧ br_buffer r' = br_buffer r).
Proof.
  intros Hok. unfold fill. erewrite M_bind_done by done. destruct (br_ended r) eqn:Ee.
  { right. destruct (Hok Ee) as [Es Ef]. rewrite Es, Ef. split; [done|]. exists r. split; [done|]. split; [|done]. split; done. }
  assert (Hg : ∀ source r0, br_ended r0 = false →
    (∃ v rest, fill_loop source r0 = (Done true, r0 <| br_source := rest |> <| br_buffer := br_buffer r0 ++ v |>) ∧
      v ≠ [] ∧ concat source = v ++ concat rest ∧ (length rest < length source)%nat) ∨
    (concat source = [] ∧ fill_loop source r0 =
      match br_failure r0 with
      | Some e => (Raise e, r0 <| br_source := [] |>)
      | None => (Done false, r0 <| br_source := [] |> <| br_ended := true |>)
      end)).
  { intros source r0 E0. induction source as [|v source IH]; cbn [fill_loop].
    - right. split; [done|]. unfold mbind, M_bind, get_state, modify. cbn. destruct (br_failure r0); done.
    - case_bool_decide as Hv.
      + subst. destruct IH as [(v&rest&E&Hn&Hc&Hl)|[Hc E]]; [left; exists v, rest|right]; split_and!; try done; cbn; lia.
      + left. exists v, source. split_and!; try done. cbn. lia. }
  destruct (Hg (br_source r) r Ee) as [(v&rest&E&Hn&Hc&Hl)|[Hc E]].
  - left. exists v. eexists. split; [exact E|]. split_and!; try done. split; try done.
    + unfold unread. cbn. by rewrite Hc, app_assoc.
    + cbn. lia.
    + intros H. cbn in H. congruence.
  - right. split; [done|]. rewrite E. destruct (br_failure r) as [e|] eqn:Ef; eexists; (split; [reflexivity|]); (split; [|done]);
      split; try done; try (unfold unread; cbn; by rewrite Hc); try (cbn; lia); intros H; cbn in *; congruence.
Qed.
Lemma consume_reads n r : reader_ok r → ∃ r', consume n r = (Done (take n (br_buffer r)), r') ∧ reads (take n (br_buffer r)) r r' ∧
  br_buffer r' = drop n (br_buffer r).
Proof.
  intros Hok. eexists. split; [reflexivity|]. split; [|done]. split; try done. unfold unread. cbn. by rewrite app_assoc, take_drop.
Qed.

(** ** Heads *)
Lemma byte_at_app bytes more i c : (i < length bytes)%nat → byte_at (bytes ++ more) i c = byte_at bytes i c.
Proof. intros. unfold byte_at. by rewrite lookup_app_l. Qed.
Definition head_width (strict : bool) : nat := if strict then 4 else 3.
Lemma head_end_app strict bytes more i :
  (i + head_width strict ≤ length bytes)%nat → head_end strict (bytes ++ more) i = head_end strict bytes i.
Proof.
  intros H. unfold head_end, head_width in *. destruct strict; [rewrite !byte_at_app by lia; done|].
  rewrite !(byte_at_app _ _ i), !(byte_at_app _ _ (i + 1)) by lia. destruct (byte_at bytes (i + 1) CR); rewrite byte_at_app by lia; done.
Qed.
Lemma byte_at_length bytes i c : byte_at bytes i c = true → (i < length bytes)%nat.
Proof. unfold byte_at. intros H%bool_decide_eq_true. by apply lookup_lt_Some in H. Qed.
Lemma head_end_bound strict bytes i e : head_end strict bytes i = Some e →
  (i + 1 < length bytes ∧ e ≤ length bytes ∧ i + 2 ≤ e ≤ i + 4 ∧ (i + head_width strict ≤ S (length bytes)))%nat ∧
  ∀ more, head_end strict (bytes ++ more) i = Some e.
Proof.
  unfold head_end, head_width. destruct strict.
  - destruct (byte_at bytes i CR && byte_at bytes (i + 1) LF && byte_at bytes (i + 2) CR && byte_at bytes (i + 3) LF)%bool eqn:E; [|done].
    intros [= <-]. apply andb_true_iff in E as [E E4]. pose proof (byte_at_length _ _ _ E4). split; [lia|]. intros more.
    rewrite !byte_at_app by lia. by rewrite E, E4.
  - destruct (byte_at bytes i LF) eqn:E1; [|done]. pose proof (byte_at_length _ _ _ E1).
    destruct (byte_at bytes (i + 1) CR) eqn:E2.
    + destruct (byte_at bytes (i + 1 + 1) LF) eqn:E3; [|done]. intros [= <-]. pose proof (byte_at_length _ _ _ E3). split; [lia|].
      intros more. rewrite (byte_at_app bytes more i), E1 by lia. cbv zeta. rewrite (byte_at_app _ _ (i + 1) CR), E2 by lia. rewrite byte_at_app, E3 by lia. done.
    + destruct (byte_at bytes (i + 1) LF) eqn:E3; [|done]. intros [= <-]. pose proof (byte_at_length _ _ _ E3). split; [lia|].
      intros more. rewrite (byte_at_app bytes more i), E1 by lia. cbv zeta. rewrite (byte_at_app _ _ (i + 1) CR), E2 by lia. rewrite byte_at_app, E3 by lia. done.
Qed.
Lemma head_end_prefix strict bytes more i e :
  head_end strict (bytes ++ more) i = Some e → (e ≤ length bytes)%nat → head_end strict bytes i = Some e.
Proof.
  unfold head_end. destruct strict.
  - destruct (_ && _)%bool eqn:E; [|done]. intros [= <-] He. rewrite !byte_at_app in E by lia. by rewrite E.
  - destruct (byte_at (bytes ++ more) i LF) eqn:E1; [|done]. cbv zeta.
    destruct (byte_at (bytes ++ more) (i + 1) CR) eqn:E2; destruct (byte_at (bytes ++ more) _ LF) eqn:E3 in |- *; try done;
      intros [= <-] He; rewrite byte_at_app in E1, E2, E3 by lia; rewrite E1, E2; by rewrite E3.
Qed.
Lemma find_head_some strict bytes n i e : find_head strict bytes n i = Some e →
  ∃ j, (i ≤ j < i + n)%nat ∧ head_end strict bytes j = Some e ∧ ∀ k, (i ≤ k < j)%nat → head_end strict bytes k = None.
Proof.
  revert i; induction n as [|n IH]; intros i; [done|]. cbn. destruct (head_end strict bytes i) eqn:E.
  - intros [= ->]. exists i. split_and!; [lia|lia|done|lia].
  - intros (j&?&Ej&Hk)%IH. exists j. split_and!; [lia|lia|done|]. intros k Hk'. destruct (decide (k = i)) as [->|]; [done|]. apply Hk. lia.
Qed.
Lemma find_head_none strict bytes n i : find_head strict bytes n i = None → ∀ k, (i ≤ k < i + n)%nat → head_end strict bytes k = None.
Proof.
  revert i; induction n as [|n IH]; intros i; [lia|]. cbn. destruct (head_end strict bytes i) eqn:E; [done|].
  intros H k Hk. destruct (decide (k = i)) as [->|]; [done|]. apply (IH _ H). lia.
Qed.
Lemma find_head_intro strict bytes n i j e :
  (i ≤ j < i + n)%nat → head_end strict bytes j = Some e → (∀ k, (i ≤ k < j)%nat → head_end strict bytes k = None) →
  find_head strict bytes n i = Some e.
Proof.
  revert i; induction n as [|n IH]; intros i Hj He Hk; [lia|]. cbn. destruct (decide (j = i)) as [->|]; [by rewrite He|].
  rewrite Hk by lia. apply IH; [lia|done|]. intros k ?. apply Hk. lia.
Qed.
Lemma find_head_none_intro strict bytes n i : (∀ k, (i ≤ k)%nat → head_end strict bytes k = None) → find_head strict bytes n i = None.
Proof. revert i; induction n as [|n IH]; intros i H; [done|]. cbn. rewrite H by lia. apply IH. intros k ?. apply H. lia. Qed.

(** Where the head ends. *)
Definition first_end (strict : bool) (bytes : list Z) : option nat := find_head strict bytes (length bytes - 1) 0.
(** A search from [searched] finds what a search of everything finds, when no
    head ends before it. *)
Lemma search_found strict bytes more searched e :
  (∀ k, (k < searched)%nat → head_end strict (bytes ++ more) k = None) →
  find_head strict bytes (length bytes - 1 - searched) searched = Some e → first_end strict (bytes ++ more) = Some e.
Proof.
  intros Hs (j&Hj&He&Hk)%find_head_some. destruct (head_end_bound _ _ _ _ He) as [Hb Hmore].
  apply (find_head_intro _ _ _ _ j); [rewrite length_app; lia|apply Hmore|]. intros k Hk'.
  destruct (decide (k < searched)%nat) as [?|Hge]; [by apply Hs|]. rewrite head_end_app by (destruct strict; cbn in *; lia). apply Hk. lia.
Qed.
Lemma search_missed strict bytes more searched :
  (∀ k, (k < searched)%nat → head_end strict (bytes ++ more) k = None) →
  find_head strict bytes (length bytes - 1 - searched) searched = None →
  ∀ k, (k < length bytes - 3)%nat → head_end strict (bytes ++ more) k = None.
Proof.
  intros Hs Hf k Hk. destruct (decide (k < searched)%nat) as [?|Hge]; [by apply Hs|].
  rewrite head_end_app by (destruct strict; cbn in *; lia). apply (find_head_none _ _ _ _ Hf). lia.
Qed.
(** What [head()] gives of the bytes. *)
Definition head_outcome (strict : bool) (failure : option exn) (bytes : list Z) : outcome (option http_head) :=
  match first_end strict bytes with
  | Some e =>
      if MAX_HEAD_BYTES <? Z.of_nat e then Raise (JsError "HTTP head too large")
      else hd ← parse_head (utf8_replace (take e bytes)) strict; Done (Some hd)
  | None =>
      if MAX_HEAD_BYTES <? zlen bytes then Raise (JsError "HTTP head too large")
      else match failure with
           | Some e => Raise e
           | None => if bool_decide (bytes = []) then Done None else Raise (JsError "unexpected end of HTTP head")
           end
  end.
Lemma first_end_bound strict bytes e : first_end strict bytes = Some e → (e ≤ length bytes)%nat.
Proof. intros (j&_&He&_)%find_head_some. apply head_end_bound in He as [? _]. lia. Qed.
Lemma head_end_end strict bytes k : (length bytes ≤ k + 1)%nat → head_end strict bytes k = None.
Proof. intros H. destruct (head_end strict bytes k) eqn:E; [|done]. apply head_end_bound in E as [? _]. lia. Qed.
Lemma first_end_none strict bytes : (∀ k, (k < length bytes - 1)%nat → head_end strict bytes k = None) → first_end strict bytes = None.
Proof.
  intros H. apply find_head_none_intro. intros k _. destruct (decide (k < length bytes - 1)%nat); [by apply H|]. apply head_end_end. lia.
Qed.
Lemma head_loop_spec fuel searched r :
  reader_ok r → (length (br_source r) < fuel)%nat → (∀ k, (k < searched)%nat → head_end (br_strict r) (unread r) k = None) →
  (head_loop fuel searched r).1 = head_outcome (br_strict r) (br_failure r) (unread r) ∧
  ∀ e, first_end (br_strict r) (unread r) = Some e → Z.of_nat e ≤ MAX_HEAD_BYTES →
    reads (take e (unread r)) r (head_loop fuel searched r).2.
Proof.
  revert searched r; induction fuel as [|fuel IH]; intros searched r Hok Hfuel Hs; [lia|].
  cbn [head_loop]. erewrite M_bind_done by done. cbv zeta. set (bytes := br_buffer r) in *. set (more := concat (br_source r)).
  change (unread r) with (bytes ++ more) in *. unfold head_outcome.
  destruct (find_head _ bytes _ searched) as [e|] eqn:Ef.
  - rewrite (search_found _ _ _ _ _ Hs Ef). pose proof Ef as (j&_&He&_)%find_head_some. apply head_end_bound in He as [He _].
    destruct (Z.ltb_spec MAX_HEAD_BYTES (Z.of_nat e)); [split; [done|]; intros ? [= <-]; lia|].
    destruct (consume_reads e r Hok) as (r'&Ec&Hr&_). fold bytes in Ec, Hr. erewrite M_bind_done by exact Ec.
    rewrite !take_app_le by lia. unfold mbind at 1 2, M_bind at 1 2, lift. cbn [outcome_bind mbind].
    destruct (parse_head (utf8_replace (take e bytes)) (br_strict r)) as [hd|x|]; (split; [done|]); intros ? [= <-] _; by rewrite take_app_le by lia.
  - pose proof (search_missed _ _ more _ Hs Ef) as Hmiss.
    destruct (Z.ltb_spec MAX_HEAD_BYTES (zlen bytes)) as [Hlarge|Hsmall].
    + assert (Hnone : ∀ e, first_end (br_strict r) (bytes ++ more) = Some e → MAX_HEAD_BYTES < Z.of_nat e).
      { intros e (j&_&He&Hk)%find_head_some. destruct (Z.lt_ge_cases MAX_HEAD_BYTES (Z.of_nat e)) as [?|Hle]; [done|]. exfalso.
        unfold zlen in Hlarge. apply head_end_prefix in He; [|lia]. pose proof He as [Hb _]%head_end_bound.
        destruct (decide (j < searched)%nat) as [Hj|Hj]; [specialize (Hs j Hj)|]; [|by rewrite (find_head_none _ _ _ _ Ef) in He by lia].
        pose proof (proj2 (head_end_bound _ _ _ _ He) more). congruence. }
      split; [|intros e He Hle; apply Hnone in He; lia].
      destruct (first_end (br_strict r) (bytes ++ more)) as [e|] eqn:Ee.
      * specialize (Hnone e eq_refl). by destruct (Z.ltb_spec MAX_HEAD_BYTES (Z.of_nat e)); [|lia].
      * destruct (Z.ltb_spec MAX_HEAD_BYTES (zlen (bytes ++ more))); [done|]. unfold zlen in *. rewrite length_app in *. lia.
    + destruct (fill_cases r Hok) as [(v&r'&Efill&Hr&Eb&Hv&Hl)|[Hc (r'&Efill&Hr&Eb)]].
      * erewrite M_bind_done by exact Efill. destruct Hr as [U S F L O]. cbn [app] in U. change (unread r) with (bytes ++ more) in U. rewrite U, <- S, <- F.
        destruct (IH (length bytes - 3)%nat r' O) as [H1 H2]; [lia|rewrite S, <- U; exact Hmiss|]. rewrite U in *.
        split; [exact H1|]. intros e He Hle. destruct (H2 e He Hle) as [U' S' F' L' O']. split; try done; try congruence; [|lia].
        change (unread r) with (bytes ++ more). by rewrite U, <- U'.
      * change (concat (br_source r)) with more in Hc. rewrite Hc, app_nil_r in *.
        assert (En : first_end (br_strict r) bytes = None).
        { apply first_end_none. intros k Hk. destruct (decide (k < searched)%nat); [by apply Hs|]. apply (find_head_none _ _ _ _ Ef). lia. }
        rewrite En. destruct (Z.ltb_spec MAX_HEAD_BYTES (zlen bytes)); [lia|].
        split; [|done]. unfold mbind, M_bind. rewrite Efill. destruct (br_failure r); [done|]. by case_bool_decide.
Qed.

(** C27: [head()] depends only on the bytes, however the stream is cut into
    chunks: it takes the bytes up to the first blank line and parses them, if
    that ends within 65536 bytes; it refuses a head that is larger or that the
    stream breaks off, and tells a clean end of the stream from either. *)
Theorem reader_head r :
  reader_ok r →
  (head r).1 = head_outcome (br_strict r) (br_failure r) (unread r) ∧
  ∀ e, first_end (br_strict r) (unread r) = Some e → Z.of_nat e ≤ MAX_HEAD_BYTES →
    reads (take e (unread r)) r (head r).2.
Proof. intros Hok. unfold head. erewrite M_bind_done by done. apply head_loop_spec; [done|lia|lia]. Qed.

(** ** A serialized head in a stream *)
Definition first_at (strict : bool) (bytes : list Z) (e : nat) : Prop :=
  ∃ j, head_end strict bytes j = Some e ∧ ∀ k, (k < j)%nat → head_end strict bytes k = None.
Lemma first_at_end strict bytes e : first_at strict bytes e → first_end strict bytes = Some e.
Proof.
  intros (j&Hj&Hk). pose proof (head_end_bound _ _ _ _ Hj) as [Hb ?]. apply (find_head_intro _ _ _ _ j); [lia|done|].
  intros k ?. apply Hk. lia.
Qed.
(** A line's content. *)
Definition plain (a : list Z) : Prop := (CR ∉ a) ∧ (LF ∉ a).
Lemma byte_at_not bytes i c d : bytes !! i = Some d → d ≠ c → byte_at bytes i c = false.
Proof. intros H Hd. unfold byte_at. rewrite H. apply bool_decide_eq_false. congruence. Qed.
Lemma head_end_line strict a b k : plain a → (k < length a)%nat → head_end strict (a ++ b) k = None.
Proof.
  intros [Ha Hl] Hk. apply lookup_lt_is_Some in Hk as [c Hc]. unfold head_end.
  rewrite (byte_at_not _ k CR c), (byte_at_not _ k LF c); [by destruct strict|by apply lookup_app_l_Some| |by apply lookup_app_l_Some|];
    intros ->; [apply Hl|apply Ha]; by apply (list_elem_of_lookup_2 a k).
Qed.
Lemma head_end_shift strict a b k : head_end strict (a ++ b) (length a + k) = (fun e => length a + e)%nat <$> head_end strict b k.
Proof.
  assert (H : ∀ i, (a ++ b) !! (length a + i)%nat = b !! i) by (intros i; rewrite lookup_app_r by lia; f_equal; lia).
  unfold head_end, byte_at. cbn zeta. rewrite <- !Nat.add_assoc, !H. destruct strict; [destruct (_ && _)%bool; [cbn; f_equal; lia|done]|].
  destruct (bool_decide (b !! k = Some LF)); [|done]. destruct (bool_decide (b !! (k + 1)%nat = Some CR)); rewrite <- ?Nat.add_assoc, !H; case_bool_decide; cbn; f_equal; lia.
Qed.
Lemma first_at_skip strict a b e : plain a → first_at strict b e → first_at strict (a ++ b) (length a + e).
Proof.
  intros Ha (j&Hj&Hk). exists (length a + j)%nat. rewrite head_end_shift, Hj. split; [done|]. intros k Hk'.
  destruct (decide (k < length a)%nat); [by apply head_end_line|]. replace k with (length a + (k - length a))%nat by lia.
  rewrite head_end_shift, Hk by lia. done.
Qed.
Lemma first_at_last strict b : first_at strict (crlf ++ crlf ++ b) 4.
Proof. destruct strict; [by exists 0%nat; split; [|lia]|exists 1%nat; split; [done|]]. by intros [|k] Hk; [|lia]. Qed.
Lemma first_at_line strict b e : hd_error b ≠ Some CR → hd_error b ≠ Some LF → first_at strict b e → first_at strict (crlf ++ b) (2 + e).
Proof.
  intros Hc Hl (j&Hj&Hk). exists (2 + j)%nat. change 2%nat with (length crlf). rewrite head_end_shift, Hj. split; [done|]. intros [|[|k]] Hk'.
  - destruct strict; [|done]. destruct b as [|c b]; [done|]. cbn in Hc. unfold head_end, byte_at. cbn. by rewrite (bool_decide_false (Some c = Some CR)).
  - destruct strict; [done|]. destruct b as [|c b]; [done|]. cbn in Hc, Hl. unfold head_end, byte_at. cbn.
    rewrite (bool_decide_false (Some c = Some CR)) by done. by rewrite (bool_decide_false (Some c = Some LF)) by done.
  - change (S (S k)) with (length crlf + k)%nat. rewrite head_end_shift, Hk by (cbn in Hk'; lia). done.
Qed.
Lemma encode_app a b : utf8_encode (a ++ b) = utf8_encode a ++ utf8_encode b.
Proof. apply bind_app. Qed.
Lemma encode_point_plain c x : 0 ≤ c < 256 → c ≠ CR → c ≠ LF → x ∈ utf8_encode_point c → x ≠ CR ∧ x ≠ LF.
Proof.
  intros Hc Hne Hnl. unfold utf8_encode_point. destruct (Z.ltb_spec c 128).
  - by intros ->%list_elem_of_singleton.
  - destruct (Z.ltb_spec c 2048); [|lia]. unfold CR, LF. intros [->|[->|[]%not_elem_of_nil]%elem_of_cons]%elem_of_cons; div_bytes.
Qed.
Lemma encode_plain s : Forall (fun c => 0 ≤ c < 256 ∧ c ≠ CR ∧ c ≠ LF) s → plain (utf8_encode s).
Proof.
  intros H. rewrite Forall_forall in H. split; intros Hin; unfold utf8_encode in Hin; apply list_elem_of_bind in Hin as (c&Hc&Hs);
    destruct (H c Hs) as (?&?&?); by apply encode_point_plain in Hc as [? ?].
Qed.
Lemma encode_nonempty s : s ≠ [] → utf8_encode s ≠ [].
Proof.
  destruct s as [|c s]; [done|]. intros _. unfold utf8_encode. rewrite bind_cons. unfold utf8_encode_point. by repeat case_match.
Qed.
Lemma first_at_fields strict fields rest :
  Forall field_ok fields →
  let t := utf8_encode ((fields ≫= (fun p => body_of p ++ crlf)) ++ crlf) in first_at strict (crlf ++ t ++ rest) (length (crlf ++ t)).
Proof.
  induction 1 as [|p fields Hp Hf IH]; [apply (first_at_last strict rest)|]. cbn zeta in *. set (t := utf8_encode (_ ++ crlf)) in IH.
  assert (Hb : plain (utf8_encode (body_of p))).
  { apply encode_plain, Forall_forall. intros c Hc. by apply (body_plain p). }
  rewrite bind_cons, <- !app_assoc, !encode_app, <- encode_app. change (utf8_encode crlf) with crlf. fold t.
  replace (length (crlf ++ _)) with (2 + (length (utf8_encode (body_of p)) + length (crlf ++ t)))%nat by (rewrite !length_app; cbn; lia).
  assert (Hne : utf8_encode (body_of p) ≠ []) by (apply encode_nonempty; unfold body_of; destruct Hp as [Hn _ _ _]; by destruct p.1).
  rewrite <- !app_assoc. destruct Hb as [Hc Hl]. apply first_at_line.
  - destruct (utf8_encode (body_of p)); [done|]. intros [= ->]. apply Hc. by left.
  - destruct (utf8_encode (body_of p)); [done|]. intros [= ->]. apply Hl. by left.
  - apply first_at_skip; [done|]. rewrite <- app_assoc in IH || idtac. exact IH.
Qed.

(** C28: a head one side serializes, of well-formed fields and within the 65536 bytes
    that a head may have, is the head the other side reads, with strict line endings or
    without, wherever the stream cuts it, and what follows it stays unread. *)
Theorem serialized_head_read r line h rest :
  reader_ok r → line_ok line → Forall field_ok (headers_entries h) →
  unread r = serialize_head line h ++ rest → zlen (serialize_head line h) ≤ MAX_HEAD_BYTES →
  (head r).1 = Done (Some (Head line (headers_entries h) (headers_entries h))) ∧ unread (head r).2 = rest.
Proof.
  intros Hok Hl Hf Hu Hlen. change (head r) with (head_loop (S (length (br_source r))) 0 r).
  destruct (head_loop_spec (S (length (br_source r))) 0 r Hok) as [H1 H2]; [lia|lia|]. rewrite Hu, serialize_head_text in *.
  set (t := utf8_encode (head_text line (headers_entries h))) in *.
  assert (E : first_end (br_strict r) (t ++ rest) = Some (length t)).
  { apply first_at_end. unfold t, head_text. rewrite (encode_app line), (encode_app crlf), (utf8_encode_ascii line) by apply Hl.
    change (utf8_encode crlf) with crlf. rewrite length_app, <- !app_assoc. apply first_at_skip; [by split; apply Hl|]. by apply first_at_fields. }
  specialize (H2 _ E Hlen). rewrite take_app_length in H2. split; [|pose proof (rd_unread _ _ _ H2) as U; rewrite Hu in U; by apply app_inv_head in U].
  rewrite H1. unfold head_outcome. rewrite E, take_app_length. destruct (Z.ltb_spec MAX_HEAD_BYTES (Z.of_nat (length t))); [unfold zlen in Hlen; lia|].
  unfold t. rewrite utf8_replace_head by done. by rewrite parse_head_text.
Qed.

(** ** Lines and pieces *)
Lemma char_index_some c s i : char_index c s = Some i → ∃ a b, s = a ++ c :: b ∧ (c ∉ a) ∧ length a = i.
Proof.
  revert i; induction s as [|x s IH]; intros i; [done|]. cbn. destruct (Z.eqb_spec x c) as [->|Hne].
  - intros [= <-]. exists [], s. split_and!; [done|by intros ?%not_elem_of_nil|done].
  - destruct (char_index c s) as [j|]; [|done]. intros [= <-]. destruct (IH j eq_refl) as (a&b&->&Ha&<-).
    exists (x :: a), b. split_and!; [done| |done]. by intros [|]%elem_of_cons.
Qed.
Lemma char_index_none c s : char_index c s = None → c ∉ s.
Proof.
  induction s as [|x s IH]; [intros _; by intros ?%not_elem_of_nil|]. cbn. destruct (Z.eqb_spec x c); [done|].
  destruct (char_index c s); [done|]. intros H [|]%elem_of_cons; [congruence|by apply IH].
Qed.
Lemma app_first c (a b l r : list Z) : c ∉ a → c ∉ l → a ++ c :: b = l ++ c :: r → a = l ∧ b = r.
Proof.
  revert l; induction a as [|x a IH]; intros [|y l] Ha Hl; cbn; try done.
  - by intros [= ->].
  - intros [= <- _]. destruct Hl. by left.
  - intros [= -> _]. destruct Ha. by left.
  - intros [= -> H]. apply not_elem_of_cons in Ha as [_ Ha], Hl as [_ Hl]. destruct (IH _ Ha Hl H) as [-> ->]. done.
Qed.
Lemma line_loop_spec fuel l rest r :
  reader_ok r → (length (br_source r) < fuel)%nat → (CR ∉ l) → (LF ∉ l) → Z.of_nat (length l) + 2 ≤ MAX_LINE_BYTES →
  unread r = l ++ crlf ++ rest → ∃ r', line_loop fuel r = (Done (utf8_replace l), r') ∧ reads (l ++ crlf) r r'.
Proof.
  revert r; induction fuel as [|fuel IH]; intros r Hok Hfuel Hcr Hlf Hlen Hu; [lia|].
  cbn [line_loop]. erewrite M_bind_done by done. destruct (char_index LF (br_buffer r)) as [i|] eqn:Ei.
  - apply char_index_some in Ei as (a&b&Eb&Ha&<-).
    assert (a = l ++ [CR] ∧ b ++ concat (br_source r) = rest) as [-> <-].
    { apply (app_first LF); [done| |]; [intros [H|H%list_elem_of_singleton]%elem_of_app; [done|done]|].
      unfold unread in Hu. rewrite Eb, <- app_assoc in Hu. cbn in Hu. rewrite Hu, <- app_assoc. done. }
    rewrite length_app, Nat.add_comm. change (length [CR] + length l)%nat with (S (length l)).
    destruct (Z.ltb_spec MAX_LINE_BYTES (Z.of_nat (S (length l)) + 1)); [lia|].
    destruct (consume_reads (S (S (length l))) r Hok) as (r'&Ec&Hr&_).
    assert (Et : take (S (S (length l))) (br_buffer r) = l ++ crlf).
    { rewrite Eb, <- app_assoc. change (l ++ [CR] ++ LF :: b) with (l ++ crlf ++ b). rewrite app_assoc, take_app_length'; [done|]. rewrite length_app. cbn. lia. }
    rewrite Et in Ec, Hr. erewrite M_bind_done by exact Ec. exists r'. split; [|exact Hr].
    assert (Hend : byte_at (l ++ crlf) (S (length l) - 1) CR = true).
    { unfold byte_at. apply bool_decide_eq_true. replace (S (length l) - 1)%nat with (length l) by lia. by apply list_lookup_middle. }
    rewrite Hend. replace (0 <? Z.of_nat (S (length l))) with true by (symmetry; apply Z.ltb_lt; lia). cbn [andb negb orb].
    replace (S (length l) - 1)%nat with (length l) by lia. rewrite take_app_length, (bool_decide_false (CR ∈ l)) by done. by rewrite andb_false_r.
  - apply char_index_none in Ei. destruct (fill_cases r Hok) as [(v&r'&Ef&Hr&_&_&Hl)|[Hc _]].
    + assert (Hshort : zlen (br_buffer r) ≤ MAX_LINE_BYTES).
      { unfold zlen. assert (length (br_buffer r) ≤ length l + 1)%nat; [|lia].
        destruct (decide (length (br_buffer r) ≤ length l + 1)%nat) as [|Hlong]; [done|]. exfalso. apply Ei.
        apply (list_elem_of_lookup_2 _ (length l + 1)).
        assert (H : unread r !! (length l + 1)%nat = Some LF).
        { rewrite Hu, lookup_app_r by lia. replace (length l + 1 - length l)%nat with 1%nat by lia. done. }
        unfold unread in H. by rewrite lookup_app_l in H by lia. }
      destruct (Z.ltb_spec MAX_LINE_BYTES (zlen (br_buffer r))); [lia|]. erewrite M_bind_done by exact Ef.
      destruct (IH r') as (r2&E2&Hr2); try done; [apply Hr|lia|by rewrite <- Hu, (rd_unread _ _ _ Hr)|].
      exists r2. split; [exact E2|]. exact (reads_trans [] _ _ _ _ Hr Hr2).
    + exfalso. apply Ei. unfold unread in Hu. rewrite Hc, app_nil_r in Hu. rewrite Hu. rewrite !elem_of_app. right. left. right. by left.
Qed.
Lemma line_spec l rest r :
  reader_ok r → (CR ∉ l) → (LF ∉ l) → Z.of_nat (length l) + 2 ≤ MAX_LINE_BYTES →
  unread r = l ++ crlf ++ rest → ∃ r', line r = (Done (utf8_replace l), r') ∧ reads (l ++ crlf) r r'.
Proof. intros Hok. unfold line. erewrite M_bind_done by done. intros. eapply line_loop_spec; [done|lia|done..]. Qed.
Lemma take_chunk_spec n r :
  reader_ok r → unread r ≠ [] → 0 < n →
  ∃ c r', take_chunk (Some n) r = (Done (Some c), r') ∧ reads c r r' ∧ c ≠ [] ∧ zlen c ≤ n.
Proof.
  intros Hok Hu Hn. unfold take_chunk. erewrite M_bind_done by done.
  assert (H : ∃ r1, (if bool_decide (br_buffer r = []) then fill else mret true) r = (Done true, r1) ∧ reads [] r r1 ∧ br_buffer r1 ≠ []).
  { case_bool_decide as Eb; [|exists r; split; [done|]; split; [by split|done]].
    destruct (fill_cases r Hok) as [(v&r'&Ef&Hr&Eb'&Hv&_)|[Hc _]].
    - exists r'. split; [done|]. split; [done|]. by rewrite Eb', Eb.
    - destruct Hu. unfold unread. by rewrite Eb, Hc. }
  destruct H as (r1&E1&Hr1&Hb). erewrite M_bind_done by exact E1. cbv iota beta. erewrite M_bind_done by done.
  set (k := Z.to_nat (Z.min n (zlen (br_buffer r1)))). destruct (consume_reads k r1 (rd_ok _ _ _ Hr1)) as (r2&E2&Hr2&_).
  erewrite M_bind_done by exact E2. exists (take k (br_buffer r1)), r2. split; [done|]. split; [exact (reads_trans [] _ _ _ _ Hr1 Hr2)|].
  assert (Hk : (0 < k ≤ length (br_buffer r1))%nat).
  { unfold k, zlen. destruct (br_buffer r1) as [|x b]; [done|]. cbn [length]. lia. }
  split.
  - intros E. apply (f_equal length) in E. rewrite length_take in E. cbn in E. lia.
  - unfold zlen. rewrite length_take. unfold k, zlen in *. lia.
Qed.

(** * The chunked coding *)

(** ** Sizes *)
Lemma hex_char_digit d : 0 ≤ d < 16 → hex_digit (hex_char d) = true ∧ hex_value (hex_char d) = d ∧ 48 ≤ hex_char d < 128.
Proof.
  intros H. unfold hex_char. destruct (Z.ltb_spec d 10).
  - unfold hex_digit, hex_value, digit. rewrite (between_true 48) by lia. split_and!; [done|lia|lia|lia].
  - unfold hex_digit, hex_value, digit. rewrite (between_false 48), (between_true 97) by lia. split_and!; [done|lia|lia|lia].
Qed.
Lemma digits_value_app base f a b : digits_value base f (a ++ b) = foldl (fun n c => n * base + f c) (digits_value base f a) b.
Proof. unfold digits_value. apply foldl_app. Qed.
Lemma hex_loop_spec fuel n :
  0 ≤ n < 2 ^ Z.of_nat fuel → (0 < fuel)%nat →
  digits_value 16 hex_value (hex_loop fuel n) = n ∧ Forall (fun c => hex_digit c = true ∧ 48 ≤ c < 128) (hex_loop fuel n) ∧
  hex_loop fuel n ≠ [] ∧ ∀ k, n < 16 ^ Z.of_nat (S k) → (length (hex_loop fuel n) ≤ S k)%nat.
Proof.
  revert n; induction fuel as [|fuel IH]; intros n Hn Hf; [lia|]. cbn [hex_loop].
  destruct (hex_char_digit (n mod 16)) as (Hd&Hv&Hr); [apply Z.mod_pos_bound; lia|].
  destruct (Z.ltb_spec n 16) as [Hs|Hs].
  - split_and!; [|by apply Forall_singleton|done|intros k _; cbn; lia].
    change (hex_value (hex_char (n mod 16)) = n). rewrite Hv. apply Z.mod_small. lia.
  - assert (Hdiv : n = n / 16 * 16 + n mod 16) by div_bytes.
    destruct (IH (n / 16)) as (H1&H2&H3&H4).
    + rewrite Nat2Z.inj_succ, Z.pow_succ_r in Hn by lia. split; [div_bytes|]. apply Z.div_lt_upper_bound; lia.
    + destruct fuel; [|lia]. cbn in Hn. lia.
    + split_and!.
      * rewrite digits_value_app, H1. cbn. lia.
      * apply Forall_app. split; [exact H2|]. by apply Forall_singleton.
      * by intros [? ?]%app_eq_nil.
      * intros k Hk. rewrite length_app. cbn. destruct k as [|k]; [cbn in Hk; lia|]. rewrite Nat2Z.inj_succ, Z.pow_succ_r in Hk by lia.
        assert (length (hex_loop fuel (n / 16)) ≤ S k)%nat; [|lia]. apply H4. apply Z.div_lt_upper_bound; lia.
Qed.
Lemma to_hex_spec n : 0 ≤ n ≤ MAX_SAFE_INTEGER →
  chunk_size (to_hex n) = Some n ∧ Forall (fun c => 48 ≤ c < 128) (to_hex n) ∧ (length (to_hex n) ≤ 14)%nat ∧ to_hex n ≠ [].
Proof.
  intros Hn. destruct (hex_loop_spec (S (Z.to_nat (Z.log2 n))) n) as (H1&H2&H3&H4); [|lia|].
  - split; [lia|]. rewrite Nat2Z.inj_succ, Z2Nat.id by apply Z.log2_nonneg. destruct (decide (n = 0)) as [->|]; [done|]. apply Z.log2_spec. lia.
  - unfold to_hex, chunk_size. set (s := hex_loop _ n) in *. split_and!.
    + rewrite <- (app_nil_r s) at 1. rewrite span_app; [|by eapply forallb_of_Forall; [|exact H2]; intros c []|done].
      rewrite bool_decide_false by done. change (Some (digits_value 16 hex_value s) = Some n). by rewrite H1.
    + eapply Forall_impl; [exact H2|]. by intros c [].
    + apply (H4 13%nat). change (16 ^ Z.of_nat 14) with (2 ^ 56). unfold MAX_SAFE_INTEGER in Hn. lia.
    + done.
Qed.

(** ** Pulls that give [d] *)
Inductive gives : nat → chunked → list Z → chunked → Prop :=
| gives_nil s : gives 0 s [] s
| gives_pull n s c s1 d s2 : chunked_pull s = (Done (Pulled c), s1) → gives n s1 d s2 → gives (S n) s (c ++ d) s2.
Lemma gives_trans n m s d s1 e s2 : gives n s d s1 → gives m s1 e s2 → gives (n + m) s (d ++ e) s2.
Proof. induction 1; [done|]. intros H'. cbn. rewrite <- app_assoc. econstructor; eauto. Qed.
Lemma read_all_gives n s d s1 s2 fuel : gives n s d s1 → chunked_pull s1 = (Done Ended, s2) → (n < fuel)%nat →
  read_all chunked_pull fuel s = (Done d, s2).
Proof.
  intros Hg He. revert fuel; induction Hg as [s|n s c s1 d s3 Hp Hg IH]; intros [|fuel] Hf; try lia; cbn [read_all].
  - erewrite M_bind_done by exact He. done.
  - erewrite M_bind_done by exact Hp. cbv iota beta. erewrite M_bind_done by (apply IH; [done|lia]). done.
Qed.
(** A pull inside a chunk. *)
Lemma pull_piece r d tail b :
  reader_ok r → unread r = d ++ tail → d ≠ [] →
  ∃ c d' r', chunked_pull (ChunkedBody r (zlen d) b) = (Done (Pulled c), ChunkedBody r' (zlen d') (if zlen d' =? 0 then true else b)) ∧
    d = c ++ d' ∧ c ≠ [] ∧ reads c r r'.
Proof.
  intros Hok Hu Hd. assert (Hz : 0 < zlen d) by (unfold zlen; destruct d; [done|cbn [length]; lia]).
  unfold chunked_pull. erewrite M_bind_done by done. cbn [cb_remaining]. destruct (Z.eqb_spec (zlen d) 0); [lia|].
  erewrite M_bind_done by done. cbv iota beta. erewrite M_bind_done by done. cbn [cb_remaining].
  destruct (take_chunk_spec (zlen d) r Hok) as (c&r'&E&Hr&Hc&Hl); [rewrite Hu; by destruct d|done|].
  erewrite M_bind_done by (unfold on_chunked, focus; cbn [cb_reader]; rewrite E; reflexivity).
  assert (Hdrop : d = c ++ drop (length c) d).
  { pose proof (rd_unread _ _ _ Hr) as U. rewrite Hu in U. apply (f_equal (take (length c))) in U.
    rewrite take_app_length, take_app_le in U by (unfold zlen in Hl; lia). rewrite <- U at 1. by rewrite take_drop. }
  exists c, (drop (length c) d), r'. split_and!; try done.
  assert (zlen d - zlen c = zlen (drop (length c) d)) as -> by (unfold zlen; rewrite length_drop; unfold zlen in Hl; lia). done.
Qed.
(** The rest of a chunk. *)
Lemma gives_chunk d r tail b : reader_ok r → unread r = d ++ tail → d ≠ [] →
  ∃ n r', gives n (ChunkedBody r (zlen d) b) d (ChunkedBody r' 0 true) ∧ reads d r r' ∧ (n ≤ length d)%nat.
Proof.
  revert r b. induction d as [d IH] using (induction_ltof1 _ length); intros r b Hok Hu Hd.
  destruct (pull_piece r d tail b Hok Hu Hd) as (c&d'&r'&Hp&->&Hc&Hr). destruct d' as [|x d'].
  - exists 1%nat, r'. rewrite app_nil_r in *. split_and!; [|done|destruct c; [done|cbn; lia]].
    rewrite <- (app_nil_r c) at 2. econstructor; [exact Hp|]. constructor.
  - assert (Hu' : unread r' = (x :: d') ++ tail) by (pose proof (rd_unread _ _ _ Hr) as U; rewrite Hu, <- app_assoc in U; by apply app_inv_head in U).
    destruct (IH (x :: d') ltac:(unfold ltof; rewrite length_app; destruct c; [done|cbn; lia]) r'
      (if zlen (x :: d') =? 0 then true else b) (rd_ok _ _ _ Hr) Hu' ltac:(done)) as (n&r2&Hg&Hr2&Hn).
    exists (S n), r2. split_and!; [econstructor; [exact Hp|exact Hg]|exact (reads_trans _ _ _ _ _ Hr Hr2)|].
    rewrite length_app. destruct c; [done|cbn in *; lia].
Qed.

(** The bytes of the encoding, after the boundary that ends the last chunk. *)
Definition boundary (between : bool) : list Z := if between then crlf else [].
Definition encoded (chunks : list (list Z)) : list Z := concat (chunked_encoder chunks).
Lemma encoded_cons c chunks : c ≠ [] → encoded (c :: chunks) = (to_hex (zlen c) ++ crlf) ++ c ++ crlf ++ encoded chunks.
Proof.
  intros Hc. unfold encoded, chunked_encoder. rewrite bind_cons. unfold encode_chunk at 1. rewrite bool_decide_false by done.
  assert (Hh : ascii (to_hex (zlen c) ++ crlf)).
  { apply Forall_app. split; [|by repeat constructor]. unfold to_hex.
    destruct (hex_loop_spec (S (Z.to_nat (Z.log2 (zlen c)))) (zlen c)) as (_&H&_); [|lia|].
    - unfold zlen in *. destruct c as [|x c]; [done|]. split; [lia|]. rewrite Nat2Z.inj_succ, Z2Nat.id by apply Z.log2_nonneg. apply Z.log2_spec. cbn. lia.
    - eapply Forall_impl; [exact H|]. intros y [_ ?]. cbn. lia. }
  rewrite utf8_encode_ascii by done. cbn [app concat]. rewrite <- !app_assoc. done.
Qed.
Lemma skip_boundary r b tail : reader_ok r → unread r = boundary b ++ tail →
  ∃ r', (∀ A (k : M chunked A), (s ← get_state;
      (if cb_between s then
         boundary ← on_chunked line;
         if negb (bool_decide (boundary = [])) then throw (JsError "malformed chunk boundary")
         else modify (fun s => s <| cb_between := false |>)
       else mret tt) ;; k) (ChunkedBody r 0 b) = k (ChunkedBody r' 0 false)) ∧ reads (boundary b) r r'.
Proof.
  intros Hok Hu. destruct b; cbn [boundary] in *.
  - destruct (line_spec [] tail r Hok) as (r'&E&Hr); try done; try by intros ?%not_elem_of_nil.
    exists r'. split; [|exact Hr]. intros A k. erewrite M_bind_done by done. cbn [cb_between].
    erewrite M_bind_done; [reflexivity|]. erewrite M_bind_done by (unfold on_chunked, focus; cbn [cb_reader]; rewrite E; reflexivity). done.
  - exists r. split; [|by split]. intros A k. by do 2 erewrite M_bind_done by done.
Qed.
Lemma next_size r b size tail : reader_ok r → (CR ∉ size) → (LF ∉ size) → ascii size → (length size ≤ 14)%nat →
  unread r = boundary b ++ size ++ crlf ++ tail →
  ∃ r', reads (boundary b ++ size ++ crlf) r r' ∧ ∀ n, chunk_size size = Some n → is_safe n = true →
    next_chunk (ChunkedBody r 0 b) =
    (if n =? 0 then on_chunked (trailers (S (length (unread r'))) 0) ;; mret true else mret false) (ChunkedBody r' n false).
Proof.
  intros Hok Hc Hl Ha Hn Hu. destruct (skip_boundary r b _ Hok Hu) as (r1&Hk&Hr1).
  assert (Hu1 : unread r1 = size ++ crlf ++ tail) by (pose proof (rd_unread _ _ _ Hr1) as U; rewrite Hu in U; by apply app_inv_head in U).
  destruct (line_spec size tail r1) as (r2&E2&Hr2); try done; [apply Hr1|unfold MAX_LINE_BYTES; lia|].
  exists r2. split; [exact (reads_trans _ _ _ _ _ Hr1 Hr2)|]. intros n Hs Hsafe.
  unfold next_chunk. rewrite Hk. erewrite M_bind_done by (unfold on_chunked, focus; cbn [cb_reader]; rewrite E2; reflexivity).
  rewrite utf8_replace_ascii, Hs by done. erewrite M_bind_done by done. rewrite Hsafe. cbn [negb].
  destruct (n =? 0); [|done]. erewrite M_bind_done by done. done.
Qed.
Lemma gives_same n s0 s d s' : chunked_pull s0 = chunked_pull s → d ≠ [] → gives n s d s' → gives n s0 d s'.
Proof. intros E Hd Hg. destruct Hg; [done|]. econstructor; [|done]. by rewrite E. Qed.
Lemma read_reads l r r' tail : reads l r r' → unread r = l ++ tail → unread r' = tail.
Proof. intros [U _ _ _ _] Hu. rewrite Hu in U. symmetry. by apply app_inv_head in U. Qed.
Lemma gives_encoded chunks : ∀ r b rest,
  reader_ok r → Forall (fun c => zlen c ≤ MAX_SAFE_INTEGER) chunks → unread r = boundary b ++ encoded chunks ++ rest →
  ∃ n s1 s2, gives n (ChunkedBody r 0 b) (concat chunks) s1 ∧ chunked_pull s1 = (Done Ended, s2) ∧
    unread (cb_reader s2) = rest ∧ (n ≤ length (concat chunks))%nat.
Proof.
  induction chunks as [|c chunks IH]; intros r b rest Hok Hs Hu.
  - change (encoded []) with ([48] ++ crlf ++ crlf) in Hu. rewrite <- !app_assoc in Hu.
    destruct (next_size r b [48] (crlf ++ rest) Hok) as (r2&Hr2&Hnext); [by intros ?%list_elem_of_singleton|by intros ?%list_elem_of_singleton|
      by apply Forall_singleton|cbn; lia|exact Hu|].
    assert (Hu2 : unread r2 = crlf ++ rest) by (apply (read_reads _ _ _ _ Hr2); by rewrite Hu, <- !app_assoc).
    destruct (line_spec [] rest r2) as (r3&E3&Hr3); try done; [apply Hr2|by intros ?%not_elem_of_nil|by intros ?%not_elem_of_nil|].
    exists 0%nat, (ChunkedBody r 0 b), (ChunkedBody r3 0 false). split_and!; [constructor| |by apply (read_reads _ _ _ _ Hr3)|cbn; lia].
    unfold chunked_pull. erewrite M_bind_done by done. cbn [cb_remaining Z.eqb].
    rewrite (M_bind_done next_chunk _ _ true (ChunkedBody r3 0 false)); [done|]. rewrite (Hnext 0) by done. cbn [Z.eqb].
    rewrite (M_bind_done _ _ _ tt (ChunkedBody r3 0 false)); [done|]. unfold on_chunked, focus. cbn [cb_reader trailers].
    erewrite M_bind_done by exact E3. done.
  - apply Forall_cons in Hs as [Hc Hs]. destruct (decide (c = [])) as [->|Hne]; [by apply IH|].
    rewrite encoded_cons, <- !app_assoc in Hu by done.
    assert (Hz : 0 < zlen c) by (unfold zlen; destruct c; [done|cbn [length]; lia]).
    destruct (to_hex_spec (zlen c)) as (Hsize&Hrange&Hlen&_); [lia|]. rewrite Forall_forall in Hrange.
    destruct (next_size r b (to_hex (zlen c)) (c ++ crlf ++ encoded chunks ++ rest) Hok) as (r2&Hr2&Hnext);
      [intros H%Hrange; unfold CR in H; lia|intros H%Hrange; unfold LF in H; lia|apply Forall_forall; intros x ?%Hrange; lia|done|exact Hu|].
    assert (Hu2 : unread r2 = c ++ crlf ++ encoded chunks ++ rest) by (apply (read_reads _ _ _ _ Hr2); by rewrite Hu, <- !app_assoc).
    destruct (gives_chunk c r2 _ false (rd_ok _ _ _ Hr2) Hu2 Hne) as (n1&r3&Hg1&Hr3&Hn1).
    destruct (IH r3 true rest (rd_ok _ _ _ Hr3) Hs (read_reads _ _ _ _ Hr3 Hu2)) as (n2&s1&s2&Hg2&He&Hrest&Hn2).
    exists (n1 + n2)%nat, s1, s2. split_and!; [|exact He|exact Hrest|cbn [concat]; rewrite length_app; lia].
    cbn [concat]. eapply gives_trans; [|exact Hg2]. eapply gives_same; [|exact Hne|exact Hg1].
    unfold chunked_pull. rewrite !(M_bind_done get_state _ _ _ _ eq_refl). cbn [cb_remaining Z.eqb].
    rewrite (M_bind_done next_chunk _ _ false (ChunkedBody r2 (zlen c) false)).
    + by destruct (Z.eqb_spec (zlen c) 0); [lia|].
    + rewrite (Hnext (zlen c)) by (try done; unfold is_safe; apply Z.leb_le; lia). by destruct (Z.eqb_spec (zlen c) 0); [lia|].
Qed.

(** C26: what [chunked_encoder] makes of any chunks, [chunked_body] reads back as
    the same bytes, wherever the stream cuts the encoding, and it leaves what
    follows unread. *)
Theorem chunked_roundtrip r chunks rest :
  reader_ok r → Forall (fun c => zlen c ≤ MAX_SAFE_INTEGER) chunks → unread r = concat (chunked_encoder chunks) ++ rest →
  ∃ s, read_all chunked_pull (S (length (unread r))) (chunked_body r) = (Done (concat chunks), s) ∧ unread (cb_reader s) = rest.
Proof.
  intros Hok Hs Hu. destruct (gives_encoded chunks r false rest Hok Hs Hu) as (n&s1&s2&Hg&He&Hrest&Hn).
  exists s2. split; [|exact Hrest]. eapply read_all_gives; [exact Hg|exact He|].
  assert (H : (length (concat chunks) ≤ length (concat (chunked_encoder chunks)))%nat).
  { clear. induction chunks as [|c chunks IH]; [cbn; lia|]. unfold chunked_encoder in *. rewrite bind_cons. unfold encode_chunk at 1.
    case_bool_decide as E; [subst; exact IH|]. cbn [concat app]. rewrite !length_app in *. lia. }
  rewrite Hu, length_app. lia.
Qed.

(** * Bodies of a declared length *)
Lemma take_chunk_end n r : reader_ok r → unread r = [] →
  ∃ r', take_chunk n r = (match br_failure r with Some e => Raise e | None => Done None end, r').
Proof.
  intros Hok Hu. unfold take_chunk. erewrite M_bind_done by done. apply app_eq_nil in Hu as [Hb Hc]. rewrite bool_decide_true by done.
  destruct (fill_cases r Hok) as [(v&r'&_&Hr&Eb&Hv&_)|[_ (r'&Ef&_)]].
  - pose proof (rd_unread _ _ _ Hr) as U. unfold unread in U. rewrite Hb, Hc, Eb, Hb in U. cbn in U. by destruct v.
  - exists r'. unfold mbind, M_bind. rewrite Ef. by destruct (br_failure r).
Qed.
Lemma fixed_piece r n : reader_ok r → unread r ≠ [] → 0 < n →
  ∃ c r', fixed_pull (Fixed r n) = (Done (if n - zlen c =? 0 then PulledLast c else Pulled c), Fixed r' (n - zlen c)) ∧
    reads c r r' ∧ c ≠ [] ∧ zlen c ≤ n.
Proof.
  intros Hok Hu Hn. destruct (take_chunk_spec n r Hok Hu Hn) as (c&r'&E&Hr&Hc&Hl). exists c, r'. split_and!; try done.
  unfold fixed_pull. erewrite M_bind_done by done. cbn [fx_remaining]. destruct (Z.eqb_spec n 0); [lia|].
  erewrite M_bind_done by (unfold on_fixed, focus; cbn [fx_reader]; rewrite E; reflexivity). done.
Qed.
Lemma fixed_read fuel d r tail : reader_ok r → unread r = d ++ tail → (length d < fuel)%nat →
  ∃ s, read_all fixed_pull fuel (Fixed r (zlen d)) = (Done d, s) ∧ unread (fx_reader s) = tail.
Proof.
  revert d r; induction fuel as [|fuel IH]; intros d r Hok Hu Hf; [lia|]. cbn [read_all].
  destruct d as [|x d]; [by exists (Fixed r 0)|]. set (d1 := x :: d) in *.
  assert (Hz : 0 < zlen d1) by (unfold zlen, d1; cbn [length]; lia).
  destruct (fixed_piece r (zlen d1) Hok) as (c&r'&E&Hr&Hc&Hl); [by rewrite Hu|done|]. erewrite M_bind_done by exact E.
  assert (Hd : ∃ d2, d1 = c ++ d2).
  { exists (drop (length c) d1). pose proof (rd_unread _ _ _ Hr) as U. rewrite Hu in U. apply (f_equal (take (length c))) in U.
    rewrite take_app_length, take_app_le in U by (unfold zlen in Hl; lia). rewrite <- U at 1. by rewrite take_drop. }
  destruct Hd as [d2 Hd]. clearbody d1. subst d1.
  assert (Hu2 : unread r' = d2 ++ tail) by (apply (read_reads _ _ _ _ Hr); by rewrite Hu, <- app_assoc).
  replace (zlen (c ++ d2) - zlen c) with (zlen d2) by (unfold zlen; rewrite length_app; lia).
  rewrite length_app in Hf. assert (0 < length c)%nat by (destruct c; [done|cbn; lia]).
  destruct (Z.eqb_spec (zlen d2) 0) as [Hz2|].
  - assert (d2 = []) as -> by (apply nil_length_inv; unfold zlen in Hz2; lia). exists (Fixed r' 0). by rewrite app_nil_r.
  - destruct (IH d2 r' (rd_ok _ _ _ Hr) Hu2) as (s&Es&Hs); [lia|]. exists s. erewrite M_bind_done by exact Es. done.
Qed.
Lemma fixed_short fuel r n : reader_ok r → zlen (unread r) < n → (length (unread r) < fuel)%nat →
  (read_all fixed_pull fuel (Fixed r n)).1 = Raise (default (JsError "HTTP body ended early") (br_failure r)).
Proof.
  revert r n; induction fuel as [|fuel IH]; intros r n Hok Hn Hf; [lia|]. cbn [read_all].
  destruct (decide (unread r = [])) as [Hu|Hu].
  - destruct (take_chunk_end (Some n) r Hok Hu) as (r'&E). unfold zlen in Hn.
    assert (Ep : (fixed_pull (Fixed r n)).1 = Raise (default (JsError "HTTP body ended early") (br_failure r))).
    { unfold fixed_pull. erewrite M_bind_done by done. cbn [fx_remaining]. destruct (Z.eqb_spec n 0); [lia|].
      unfold on_fixed, focus, mbind, M_bind. cbn [fx_reader]. rewrite E. by destruct (br_failure r). }
    unfold mbind, M_bind. destruct (fixed_pull (Fixed r n)) as [o s]. cbn in Ep. by subst o.
  - destruct (fixed_piece r n Hok Hu) as (c&r'&E&Hr&Hc&Hl); [unfold zlen in Hn; lia|]. erewrite M_bind_done by exact E.
    pose proof (rd_unread _ _ _ Hr) as U. rewrite U in Hn, Hf. rewrite length_app in Hf. unfold zlen in Hn, Hl. rewrite length_app in Hn.
    assert (0 < length c)%nat by (destruct c; [done|cbn; lia]). unfold zlen.
    destruct (Z.eqb_spec (n - Z.of_nat (length c)) 0); [lia|].
    specialize (IH r' (n - Z.of_nat (length c)) (rd_ok _ _ _ Hr)). rewrite (rd_failure _ _ _ Hr) in IH.
    unfold mbind, M_bind. destruct (read_all fixed_pull fuel _) as [o s]. cbn [fst] in IH.
    rewrite IH by (unfold zlen; lia). done.
Qed.

(** A body of a declared length is exactly that many of the bytes, however the
    stream is cut, and leaves the rest unread; if the stream breaks off first,
    reading it fails, with the stream's failure if it has one. *)
Theorem fixed_body_exact r n :
  reader_ok r → 0 ≤ n →
  let '(o, s) := read_all fixed_pull (S (length (unread r))) (fixed_body r n) in
  if n <=? zlen (unread r)
  then o = Done (take (Z.to_nat n) (unread r)) ∧ unread (fx_reader s) = drop (Z.to_nat n) (unread r)
  else o = Raise (default (JsError "HTTP body ended early") (br_failure r)).
Proof.
  intros Hok Hn. unfold fixed_body. destruct (Z.leb_spec n (zlen (unread r))) as [Hle|Hlt].
  - set (d := take (Z.to_nat n) (unread r)). assert (En : n = zlen d) by (unfold zlen, d in *; rewrite length_take; lia).
    destruct (fixed_read (S (length (unread r))) d r (drop (Z.to_nat n) (unread r)) Hok) as (s&Es&Hs);
      [symmetry; apply take_drop|unfold d; rewrite length_take; lia|]. replace (Fixed r n) with (Fixed r (zlen d)) by (by rewrite <- En). by rewrite Es.
  - pose proof (fixed_short (S (length (unread r))) r n Hok Hlt ltac:(lia)) as H. by destruct (read_all _ _ _).
Qed.

(** * Readers at work

    A request whose stream comes a byte at a time. *)
Definition sample_request_head : list Z := serialize_head (lit "GET / HTTP/1.1") sample_headers.
Definition sample_chunks : list (list Z) := [[1; 2; 3]; []; [4; 5; 6; 7; 8; 9; 10; 11; 12; 13; 14; 15; 16; 17; 18; 19; 20]].
Definition by_bytes (l : list Z) : byte_reader := reader_new ((fun b => [b]) <$> l) None true.
Lemma serialized_head_read_witness :
  (head (by_bytes (sample_request_head ++ [1; 2]))).1 =
    Done (Some (Head (lit "GET / HTTP/1.1") (headers_entries sample_headers) (headers_entries sample_headers))) ∧
  unread (head (by_bytes (sample_request_head ++ [1; 2]))).2 = [1; 2].
Proof.
  apply (serialized_head_read (by_bytes (sample_request_head ++ [1; 2])) (lit "GET / HTTP/1.1") sample_headers [1; 2]);
    [done|exact sample_line|exact sample_fields|vm_compute; reflexivity|vm_compute; discriminate].
Defined.
Lemma reader_head_witness :
  (head (by_bytes (lit "GET /"))).1 = head_outcome true None (lit "GET /").
Proof. refine (proj1 (reader_head (by_bytes (lit "GET /")) _)). intros H. discriminate H. Defined.
Lemma chunked_roundtrip_witness :
  ∃ s, read_all chunked_pull (S (length (unread (by_bytes (concat (chunked_encoder sample_chunks) ++ [7])))))
    (chunked_body (by_bytes (concat (chunked_encoder sample_chunks) ++ [7]))) = (Done (concat sample_chunks), s) ∧ unread (cb_reader s) = [7].
Proof.
  apply chunked_roundtrip; [intros H; discriminate H| |vm_compute; reflexivity].
  repeat constructor; vm_compute; discriminate.
Defined.
Lemma fixed_body_exact_witness :
  let '(o, s) := read_all fixed_pull 4 (fixed_body (by_bytes [1; 2; 3]) 2) in o = Done [1; 2] ∧ unread (fx_reader s) = [3].
Proof. refine (fixed_body_exact (by_bytes [1; 2; 3]) 2 _ _); [intros H; discriminate H|discriminate]. Defined.
(** Malformed chunks are refused. *)
Example malformed_chunks :
  Forall (fun s => raises (read_all chunked_pull 100 (chunked_body (reader_new [lit s] None false))).1 = true)
    ["zz"; "5"; "0"; "10000000000000000"; "1;x="]%string.
Proof. repeat constructor; vm_compute; reflexivity. Qed.
