(* ===== verification/Conn.v ===== *)
(** The transport to the guest's agent: lanes, the handshake and [GuestSession]
    of packages/linux-guest/src/conn.ts.

    The asynchronous functions are cut where they wait, and what the runtime
    does between is an [event]. A connection is a number in the order [connect]
    made it, the session's own being 0; what [close()] of one throws is a
    parameter, a function of the connection and of what has happened. *)
From S2P Require Export Bytes.

Definition SESSION_PORT : Z := 1024.
Definition LANE_PORT : Z := 1025.
Definition HANDSHAKE_MAGIC : Z := 0x584e4c54.
Definition PROTOCOL_VERSION : Z := 3.
Definition MAX_LANES : Z := 64.

(** * The handshake *)
Definition Handshake : ty := Struct [("magic", U32LE); ("version", U16LE); ("reserved", U16LE)].
Definition hello_value : value :=
  Obj [("magic", Num HANDSHAKE_MAGIC); ("version", Num PROTOCOL_VERSION); ("reserved", Num 0)].
(** What [handshake] writes. *)
Definition hello : outcome (list Z) :=
  match (hello ← alloc Handshake; alloc_set Handshake hello hello_value) (bytes_new (ty_size Handshake)) with
  | (Done _, bytes) => Done (array bytes)
  | (Raise e, _) => Raise e
  | (Loops, _) => Loops
  end.
(** What it does with what it then reads. *)
Definition check_echo (echo : list Z) : outcome unit :=
  if negb (zlen echo =? ty_size Handshake) then Raise (ProtocolError "guest connection closed during handshake")
  else
    reply ← struct_read Handshake echo;
    if (negb (num (field reply "magic") =? HANDSHAKE_MAGIC) || negb (num (field reply "version") =? PROTOCOL_VERSION))%bool
    then Raise (ProtocolError "guest handshake echo mismatch")
    else Done tt.

(** [VsockLane.read], once [readExactly] has settled. *)
Definition lane_read (length : Z) (settled : outcome (list Z)) : outcome (list Z) :=
  bytes ← settled;
  if negb (zlen bytes =? length) then Raise (ProtocolError "guest connection closed mid-message") else Done bytes.

(** * The state *)

(** How a promise settles. *)
Inductive settlement (A : Type) := Resolved (a : A) | Rejected (e : exn).
Arguments Resolved {A} a.
Arguments Rejected {A} e.
#[export] Instance settlement_eq_dec `{EqDecision A} : EqDecision (settlement A).
Proof. solve_decision. Defined.

(** Where a call of [exchange] is: in [#acquire], waiting for the connection of a
    new lane, for the write and the read of its handshake, or with its handshake
    settled; in [#waiters]; with a lane that [#acquire] has returned; waiting for
    [fn]; or settled itself. *)
Inductive phase :=
| Connecting | Writing (c : nat) | Echoing (c : nat) | Shaken (c : nat) (o : settlement unit)
| Waits | Acquired (c : nat) | Calling (c : nat)
| Exchanged | Failed (e : exn).
#[export] Instance phase_eq_dec : EqDecision phase.
Proof. solve_decision. Defined.

Inductive effect :=
| ConnectCalled (port : Z) (timeout : option Z) | Wrote (c : nat) (bytes : list Z)
| ReadExactly (c : nat) (length : Z) | ReadCalled (c : nat) | Closed (c : nat) | FnCalled (x c : nat)
| Queued (x : nat) | Served (x c : nat) | Refused (x : nat).

(** A [GuestSession], with the calls of [exchange] in order. *)
Record session := Session {
  gs_dead : option exn; gs_watching : bool; gs_free : list nat; gs_lane_count : Z; gs_waiters : list nat;
  gs_exchanges : list phase; gs_conns : nat; gs_log : list effect }.
#[export] Instance session_eta : Eta session := fun s =>
  Session (gs_dead s) (gs_watching s) (gs_free s) (gs_lane_count s) (gs_waiters s) (gs_exchanges s) (gs_conns s) (gs_log s).
(** The constructor, after [log], with [#watch] started. *)
Definition session_new (log : list effect) : session := Session None true [] 0 [] [] 1 (log ++ [ReadCalled 0]).

Definition emit (e : effect) : M session unit := modify (fun s => s <| gs_log := gs_log s ++ [e] |>).
Definition set_phase (x : nat) (p : phase) : M session unit :=
  modify (fun s => s <| gs_exchanges := <[x := p]> (gs_exchanges s) |>).

Section session.
Context (close_throws : nat → list effect → option exn).

Definition close_conn (c : nat) : M session unit :=
  emit (Closed c) ;;
  s ← get_state;
  match close_throws c (gs_log s) with Some e => throw e | None => mret tt end.

(** [GuestSession.connect], by how what it waits for settles. *)
Definition connect (timeout : option Z) (connected written : settlement unit) (echoed : settlement (list Z)) :
    outcome session * list effect :=
  let called := [ConnectCalled SESSION_PORT timeout] in
  let failed e log :=
    let log := log ++ [Closed 0] in (Raise (default e (close_throws 0 log)), log) in
  match connected with
  | Rejected e => (Raise e, called)
  | Resolved _ =>
      match hello with
      | Raise e => failed e called
      | Loops => (Loops, called)
      | Done bytes =>
          let wrote := called ++ [Wrote 0 bytes] in
          match written with
          | Rejected e => failed e wrote
          | Resolved _ =>
              let read := wrote ++ [ReadExactly 0 (ty_size Handshake)] in
              match echoed with
              | Rejected e => failed e read
              | Resolved echo =>
                  match check_echo echo with
                  | Done _ => (Done (session_new read), read)
                  | Raise e => failed e read
                  | Loops => (Loops, read)
                  end
              end
          end
      end
  end.

(** * Death *)
Fixpoint reject_all (e : exn) (waiters : list nat) : M session unit :=
  match waiters with
  | [] => mret tt
  | x :: waiters => emit (Refused x) ;; set_phase x (Failed e) ;; reject_all e waiters
  end.
Fixpoint close_all (lanes : list nat) : M session unit :=
  match lanes with
  | [] => mret tt
  | c :: lanes => close_conn c ;; close_all lanes
  end.
Definition die (error : exn) : M session unit :=
  s ← get_state;
  match gs_dead s with
  | Some _ => mret tt
  | None =>
      modify (fun s => s <| gs_dead := Some error |>) ;;
      modify (fun s => s <| gs_waiters := [] |>) ;;
      reject_all error (gs_waiters s) ;;
      close_all (gs_free s) ;;
      modify (fun s => s <| gs_free := [] |>) ;;
      close_conn 0
  end.

(** [#watch], once its [read()] has settled. *)
Definition watch (o : settlement (list Z)) : M session unit :=
  modify (fun s => s <| gs_watching := false |>) ;;
  catch
    (match o with
     | Resolved chunk =>
         die (if zlen chunk =? 0 then JsError "guest session closed"
              else ProtocolError "unexpected data on the session connection")
     | Rejected e => throw e
     end)
    die.
Definition close : M session unit := die (JsError "guest session closed").

(** * Lanes *)
Definition lane_count (f : Z → Z) : M session unit := modify (fun s => s <| gs_lane_count := f (gs_lane_count s) |>).

(** [#acquire] for the exchange [x], up to where it waits. *)
Definition acquire (x : nat) : M session phase :=
  s ← get_state;
  match gs_dead s with
  | Some e => mret (Failed e)
  | None =>
      match last (gs_free s) with
      | Some c =>
          modify (fun s => s <| gs_free := removelast (gs_free s) |>) ;;
          mret (Acquired c)
      | None =>
          if gs_lane_count s <? MAX_LANES then
            lane_count (fun n => n + 1) ;;
            emit (ConnectCalled LANE_PORT None) ;;
            mret Connecting
          else
            modify (fun s => s <| gs_waiters := gs_waiters s ++ [x] |>) ;;
            emit (Queued x) ;;
            mret Waits
      end
  end.
(** Its outer [catch], and the inner one. *)
Definition acquire_failed (x : nat) (e : exn) : M session unit :=
  lane_count (fun n => n - 1) ;; set_phase x (Failed e).
Definition drop_lane (x c : nat) (e : exn) : M session unit :=
  catch (close_conn c ;; throw e) (acquire_failed x).

(** [connect(LANE_PORT)] has settled. *)
Definition connected (x : nat) (o : settlement unit) : M session unit :=
  match o with
  | Rejected e => acquire_failed x e
  | Resolved _ =>
      c ← gets gs_conns;
      modify (fun s => s <| gs_conns := S c |>) ;;
      match hello with
      | Done bytes => emit (Wrote c bytes) ;; set_phase x (Writing c)
      | Raise e => set_phase x (Shaken c (Rejected e))
      | Loops => lift Loops
      end
  end.
(** The [write] of the handshake has settled, then its [readExactly]. *)
Definition written (x c : nat) (o : settlement unit) : M session unit :=
  match o with
  | Rejected e => set_phase x (Shaken c (Rejected e))
  | Resolved _ => emit (ReadExactly c (ty_size Handshake)) ;; set_phase x (Echoing c)
  end.
Definition echoed (x c : nat) (o : settlement (list Z)) : M session unit :=
  match o with
  | Rejected e => set_phase x (Shaken c (Rejected e))
  | Resolved echo =>
      match check_echo echo with
      | Done _ => set_phase x (Shaken c (Resolved tt))
      | Raise e => set_phase x (Shaken c (Rejected e))
      | Loops => lift Loops
      end
  end.
(** [#acquire] goes on after the handshake. *)
Definition shaken (x c : nat) (o : settlement unit) : M session unit :=
  s ← get_state;
  match o, gs_dead s with
  | Rejected e, _ | Resolved _, Some e => drop_lane x c e
  | Resolved _, None => set_phase x (Acquired c)
  end.

Definition release (c : nat) : M session unit :=
  s ← get_state;
  match gs_dead s with
  | Some _ => close_conn c
  | None =>
      match gs_waiters s with
      | x :: waiters =>
          modify (fun s => s <| gs_waiters := waiters |>) ;;
          emit (Served x c) ;;
          set_phase x (Acquired c)
      | [] => modify (fun s => s <| gs_free := gs_free s ++ [c] |>)
      end
  end.

(** A call of [exchange]; it calls [fn] once it has a lane, and goes on once
    [fn]'s promise has settled. *)
Definition exchange : M session unit :=
  s ← get_state;
  p ← acquire (length (gs_exchanges s));
  modify (fun s => s <| gs_exchanges := gs_exchanges s ++ [p] |>).
Definition call (x c : nat) : M session unit := emit (FnCalled x c) ;; set_phase x (Calling c).
Definition finish (x c : nat) (o : settlement unit) : M session unit :=
  catch
    (match o with
     | Resolved _ => release c ;; set_phase x Exchanged
     | Rejected e => throw e
     end)
    (fun e => catch (die e ;; close_conn c ;; lane_count (fun n => n - 1) ;; throw e) (fun e => set_phase x (Failed e))).

(** * What happens next *)
Inductive event :=
| Exchange | Connected (x : nat) (o : settlement unit) | Written (x : nat) (o : settlement unit)
| Echoed (x : nat) (o : settlement (list Z)) | Resume (x : nat) | Settled (x : nat) (o : settlement unit)
| Watched (o : settlement (list Z)) | Close.
Definition step (e : event) : M session unit :=
  s ← get_state;
  match e with
  | Exchange => exchange
  | Connected x o => match gs_exchanges s !! x with Some Connecting => connected x o | _ => mret tt end
  | Written x o => match gs_exchanges s !! x with Some (Writing c) => written x c o | _ => mret tt end
  | Echoed x o => match gs_exchanges s !! x with Some (Echoing c) => echoed x c o | _ => mret tt end
  | Resume x =>
      match gs_exchanges s !! x with
      | Some (Shaken c o) => shaken x c o
      | Some (Acquired c) => call x c
      | _ => mret tt
      end
  | Settled x o => match gs_exchanges s !! x with Some (Calling c) => finish x c o | _ => mret tt end
  | Watched o => if gs_watching s then watch o else mret tt
  | Close => close
  end.
Definition run (es : list event) (s : session) : session := foldl (fun s e => (step e s).2) s es.
End session.

(** * The pool

    The lane an exchange holds, the lanes held, and with the free ones those a
    session that lives has: its pool. *)
Definition lane_of (p : phase) : option nat :=
  match p with Writing c | Echoing c | Shaken c _ | Acquired c | Calling c => Some c | _ => None end.
Definition held (s : session) : list nat := omap lane_of (gs_exchanges s).
Definition alive (s : session) : bool := if gs_dead s is None then true else false.
Definition pool (s : session) : list nat := held s ++ (if alive s then gs_free s else []).
Definition is_connecting (p : phase) : bool := match p with Connecting => true | _ => false end.
Definition connecting (s : session) : Z := zlen (List.filter is_connecting (gs_exchanges s)).
(** The exchanges that queued for a lane, and those whose turn has come. *)
Definition queued (l : list effect) : list nat := omap (fun e => if e is Queued x then Some x else None) l.
Definition served (l : list effect) : list nat :=
  omap (fun e => match e with Served x _ | Refused x => Some x | _ => None end) l.

(** ** The moves a step makes *)
Definition quiet (e : effect) : bool :=
  match e with Closed _ | Queued _ | Served _ _ | Refused _ => false | _ => true end.
Definition with_phase (x : nat) (p : phase) (s : session) : session := s <| gs_exchanges := <[x := p]> (gs_exchanges s) |>.
Definition logs (l : list effect) (s : session) : session := s <| gs_log := gs_log s ++ l |>.
Definition refuse (e : exn) (waiters : list nat) (l : list phase) : list phase :=
  foldl (fun l x => <[x := Failed e]> l) l waiters.

Section moves.
Context (close_throws : nat → list effect → option exn).

Inductive move (s : session) : session → Prop :=
| MSame x p p' l :
    gs_exchanges s !! x = Some p → is_Some (lane_of p) → lane_of p' = lane_of p → Forall (fun e => quiet e = true) l →
    move s (with_phase x p' (logs l s))
| MConnectFailed x e :
    gs_exchanges s !! x = Some Connecting → move s (with_phase x (Failed e) (s <| gs_lane_count := gs_lane_count s - 1 |>))
| MConnected x p l :
    gs_exchanges s !! x = Some Connecting → lane_of p = Some (gs_conns s) → Forall (fun e => quiet e = true) l →
    move s (with_phase x p (logs l (s <| gs_conns := S (gs_conns s) |>)))
| MDropped x p c e :
    gs_exchanges s !! x = Some p → lane_of p = Some c →
    move s (with_phase x (Failed e) (logs [Closed c] s <| gs_lane_count := gs_lane_count s - 1 |>))
| MRefused e : gs_dead s = Some e → move s (s <| gs_exchanges := gs_exchanges s ++ [Failed e] |>)
| MPop c free :
    alive s = true → gs_free s = free ++ [c] →
    move s (s <| gs_free := free |> <| gs_exchanges := gs_exchanges s ++ [Acquired c] |>)
| MConnect l :
    alive s = true → gs_free s = [] → gs_lane_count s < MAX_LANES → Forall (fun e => quiet e = true) l →
    move s (logs l s <| gs_lane_count := gs_lane_count s + 1 |> <| gs_exchanges := gs_exchanges s ++ [Connecting] |>)
| MQueue :
    alive s = true → gs_free s = [] →
    move s (logs [Queued (length (gs_exchanges s))] s <| gs_waiters := gs_waiters s ++ [length (gs_exchanges s)] |>
              <| gs_exchanges := gs_exchanges s ++ [Waits] |>)
| MServe x p c w ws :
    alive s = true → gs_exchanges s !! x = Some p → lane_of p = Some c → gs_waiters s = w :: ws →
    move s (with_phase x Exchanged (with_phase w (Acquired c) (logs [Served w c] s <| gs_waiters := ws |>)))
| MFree x p c :
    alive s = true → gs_exchanges s !! x = Some p → lane_of p = Some c → gs_waiters s = [] →
    move s (with_phase x Exchanged (s <| gs_free := gs_free s ++ [c] |>))
| MEnd x p c p' l n :
    alive s = false → gs_exchanges s !! x = Some p → lane_of p = Some c → p' = Exchanged ∨ (∃ e, p' = Failed e) →
    ((∀ c l, close_throws c l = None) → l ≠ []) → Forall (fun e => e = Closed c) l →
    move s (with_phase x p' (logs l s <| gs_lane_count := n |>))
| MDie e cs free :
    alive s = true → (∀ c, c ∈ cs → c ∈ gs_free s ∨ c = 0%nat) →
    ((∀ c l, close_throws c l = None) → cs = gs_free s ++ [0%nat]) →
    move s (logs ((Refused <$> gs_waiters s) ++ (Closed <$> cs)) s <| gs_dead := Some e |> <| gs_waiters := [] |>
              <| gs_free := free |> <| gs_exchanges := refuse e (gs_waiters s) (gs_exchanges s) |>)
| MWatch : move s (s <| gs_watching := false |>).
End moves.

(** ** Each step is some moves *)
Lemma hello_done : hello = Done [84; 76; 78; 88; 3; 0; 0; 0].
Proof. vm_compute. reflexivity. Qed.
Lemma reject_all_done e ws s :
  reject_all e ws s = (Done tt, logs (Refused <$> ws) s <| gs_exchanges := refuse e ws (gs_exchanges s) |>).
Proof.
  revert s; induction ws as [|x ws IH]; intros s; cbn [reject_all].
  - unfold mret, M_ret, logs. destruct s. cbn. by rewrite app_nil_r.
  - erewrite M_bind_done by done. erewrite M_bind_done by done. rewrite IH. unfold logs. cbn. by rewrite <- app_assoc.
Qed.

Section steps.
Context (close_throws : nat → list effect → option exn).
Abbreviation move := (move close_throws).
Abbreviation moves := (rtc move).

Lemma close_conn_spec c s : (close_conn close_throws c s).2 = logs [Closed c] s ∧
  ((∀ c l, close_throws c l = None) → (close_conn close_throws c s).1 = Done tt).
Proof.
  unfold close_conn. erewrite M_bind_done by done. erewrite M_bind_done by done. cbn [gs_log set_field].
  destruct (close_throws _ _) eqn:E; (split; [done|]); [intros H; by rewrite H in E|done].
Qed.
Lemma close_conn_cases c s : ∃ o, close_conn close_throws c s = (o, logs [Closed c] s) ∧ (o = Done tt ∨ ∃ e, o = Raise e).
Proof.
  unfold close_conn. erewrite M_bind_done by done. erewrite M_bind_done by done. cbn [gs_log set_field].
  destruct (close_throws _ _) as [e|]; eexists; (split; [reflexivity|]); [right; by eexists|by left].
Qed.
Lemma logs_logs a b s : logs b (logs a s) = logs (a ++ b) s.
Proof. unfold logs. cbn. by rewrite app_assoc. Qed.
Lemma logs_nil s : logs [] s = s.
Proof. destruct s. unfold logs. cbn. by rewrite app_nil_r. Qed.
Lemma close_all_spec l s : ∃ cs, (close_all close_throws l s).2 = logs (Closed <$> cs) s ∧ cs ⊆ l ∧
  ((close_all close_throws l s).1 = Done tt ∧ cs = l ∨ ∃ e, (close_all close_throws l s).1 = Raise e) ∧
  ((∀ c l, close_throws c l = None) → (close_all close_throws l s).1 = Done tt).
Proof.
  revert s; induction l as [|c l IH]; intros s; cbn [close_all].
  - exists []. rewrite logs_nil. split_and!; try done. by left.
  - destruct (close_conn_cases c s) as (o&E&[->|[e ->]]).
    + erewrite M_bind_done by exact E. destruct (IH (logs [Closed c] s)) as (cs&E2&Hin&H&Hn). exists (c :: cs).
      rewrite E2, logs_logs. split_and!; [done|set_solver| |done]. destruct H as [[H ->]|H]; [by left|by right].
    + erewrite M_bind_raise by exact E. exists [c]. split_and!; [done|set_solver|right; by exists e|].
      intros Hc. destruct (close_conn_spec c s) as [_ H]. rewrite E in H. by specialize (H Hc).
Qed.
Lemma die_spec e s : moves s (die close_throws e s).2 ∧ alive (die close_throws e s).2 = false ∧
  (die close_throws e s).1 ≠ Loops ∧ gs_exchanges (die close_throws e s).2 = refuse e (if alive s then gs_waiters s else []) (gs_exchanges s).
Proof.
  unfold die, alive. erewrite M_bind_done by done. destruct (gs_dead s) as [e'|] eqn:Ed; [split_and!; [apply rtc_refl| | |]; cbn; rewrite ?Ed; done|].
  erewrite M_bind_done by done. erewrite M_bind_done by done. erewrite M_bind_done by apply reject_all_done.
  set (s1 := _ <| gs_exchanges := _ |>). destruct (close_all_spec (gs_free s) s1) as (cs&E&Hin&Ho&Hn).
  assert (Halive : alive s = true) by (unfold alive; by rewrite Ed).
  unfold mbind, M_bind.
  destruct (close_all close_throws (gs_free s) s1) as [o s2]. cbn [fst snd] in *. subst s2.
  destruct Ho as [[-> ->]|[e' ->]].
  - unfold modify.
    destruct (close_conn_cases 0 (logs (Closed <$> gs_free s) s1 <| gs_free := [] |>)) as (o&E3&Ho).
    rewrite E3. cbn [fst snd]. split_and!; [|done|by destruct Ho as [->|[? ->]]|done].
    apply rtc_once. pose proof (MDie close_throws s e (gs_free s ++ [0%nat]) [] Halive) as Hm.
    unfold s1, logs in *. cbn in *. rewrite fmap_app in Hm. cbn in Hm. rewrite <- !app_assoc. apply Hm; [|done].
    intros c [?| ->%list_elem_of_singleton]%elem_of_app; [by left|by right].
  - split_and!; [|done|done|done].
    apply rtc_once. pose proof (MDie close_throws s e cs (gs_free s) Halive) as Hm.
    unfold s1, logs in *. cbn in *. rewrite <- app_assoc. apply Hm; [intros c ?; left; by apply Hin|].
    intros Hc. specialize (Hn Hc). done.
Qed.
Lemma die_done e s : (∀ c l, close_throws c l = None) → (die close_throws e s).1 = Done tt.
Proof.
  intros Hc. unfold die. erewrite M_bind_done by done. destruct (gs_dead s); [done|].
  erewrite M_bind_done by done. erewrite M_bind_done by done. erewrite M_bind_done by apply reject_all_done.
  set (s1 := _ <| gs_exchanges := _ |>). destruct (close_all_spec (gs_free s) s1) as (cs&_&_&_&Hn). specialize (Hn Hc).
  destruct (close_all close_throws (gs_free s) s1) as [o s2] eqn:E. cbn in Hn. subst o. erewrite M_bind_done by exact E.
  erewrite M_bind_done by done. by apply close_conn_spec.
Qed.
Lemma refuse_other e ws l x : (x ∉ ws) → refuse e ws l !! x = l !! x.
Proof.
  unfold refuse. revert l; induction ws as [|w ws IH]; intros l Hx; [done|]. apply not_elem_of_cons in Hx as [Hne Hx]. cbn [foldl].
  rewrite IH by done. by rewrite list_lookup_insert_ne.
Qed.

Lemma exchange_moves s : moves s (exchange s).2.
Proof.
  unfold exchange, acquire. erewrite M_bind_done by done. unfold mbind, M_bind, get_state. destruct (gs_dead s) as [e|] eqn:Ed.
  - by apply rtc_once, MRefused.
  - assert (Ha : alive s = true) by (unfold alive; by rewrite Ed). destruct (last (gs_free s)) as [c|] eqn:El.
    + apply last_Some in El as [free El]. unfold modify, mret, M_ret. cbn. rewrite El, removelast_last. by apply rtc_once, MPop.
    + apply last_None in El. destruct (Z.ltb_spec (gs_lane_count s) MAX_LANES) as [Hn|Hn].
      * apply rtc_once, (MConnect _ s [ConnectCalled LANE_PORT None]); try done. by constructor.
      * by apply rtc_once, MQueue.
Qed.
Lemma same_move x p p' l s :
  gs_exchanges s !! x = Some p → is_Some (lane_of p) → lane_of p' = lane_of p → Forall (fun e => quiet e = true) l →
  moves s (with_phase x p' (logs l s)).
Proof. intros. by eapply rtc_once, MSame. Qed.
Lemma set_phase_moves x p p' s :
  gs_exchanges s !! x = Some p → is_Some (lane_of p) → lane_of p' = lane_of p → moves s (set_phase x p' s).2.
Proof.
  intros Hx Hp Hp'. change (set_phase x p' s).2 with (with_phase x p' s). rewrite <- (logs_nil s) at 2. by eapply same_move.
Qed.
Lemma connected_moves x o s : gs_exchanges s !! x = Some Connecting → moves s (connected x o s).2.
Proof.
  intros Hx. destruct o as [[]|e]; cbn [connected]; [|by apply rtc_once, MConnectFailed].
  rewrite hello_done. by eapply rtc_once, (MConnected _ s x _ [Wrote (gs_conns s) _]); [|reflexivity|constructor].
Qed.
Lemma echoed_moves x c o s : gs_exchanges s !! x = Some (Echoing c) → moves s (echoed x c o s).2.
Proof.
  intros Hx. destruct o as [echo|e]; cbn [echoed]; [destruct (check_echo echo)|];
    first [by eapply set_phase_moves | apply rtc_refl].
Qed.
Lemma shaken_moves x c o s : gs_exchanges s !! x = Some (Shaken c o) → moves s (shaken close_throws x c o s).2.
Proof.
  intros Hx. unfold shaken. erewrite M_bind_done by done.
  assert (Hd : ∀ e, moves s (drop_lane close_throws x c e s).2).
  { intros e. unfold drop_lane, catch. destruct (close_conn_cases c s) as (r&E&[->|[e' ->]]).
    - erewrite M_bind_done by exact E. exact (rtc_once _ _ (MDropped _ s x _ c e Hx eq_refl)).
    - erewrite M_bind_raise by exact E. exact (rtc_once _ _ (MDropped _ s x _ c e' Hx eq_refl)). }
  destruct o as [[]|e]; [|apply Hd]. destruct (gs_dead s) as [e|]; [apply Hd|]. by eapply set_phase_moves.
Qed.
Lemma end_moves s x c e l n :
  alive s = false → gs_exchanges s !! x = Some (Calling c) → ((∀ c l, close_throws c l = None) → l ≠ []) →
  Forall (fun e => e = Closed c) l →
  moves s (with_phase x (Failed e) (logs l s <| gs_lane_count := n |>)).
Proof. intros. eapply rtc_once, MEnd; try done. right. by eexists. Qed.
(** The end of an exchange whose [fn] threw, or whose release did. *)
Lemma finish_failed x c e s :
  alive s = false → gs_exchanges s !! x = Some (Calling c) →
  moves s (catch (close_conn close_throws c ;; lane_count (fun n => n - 1) ;; throw e) (fun e => set_phase x (Failed e)) s).2.
Proof.
  intros Ha Hx. unfold catch. destruct (close_conn_cases c s) as (r&E&[->|[e' ->]]).
  - erewrite M_bind_done by exact E. eapply (end_moves s x c e [Closed c]); try done. by constructor.
  - erewrite M_bind_raise by exact E.
    pose proof (end_moves s x c e' [Closed c] (gs_lane_count s) Ha Hx) as H. apply H; [done|by constructor].
Qed.
Lemma release_dead c s : alive s = false → release close_throws c s = close_conn close_throws c s.
Proof. unfold release, alive. erewrite M_bind_done by done. by destruct (gs_dead s). Qed.
Lemma die_dead e s : alive s = false → die close_throws e s = (Done tt, s).
Proof. unfold die, alive. erewrite M_bind_done by done. by destruct (gs_dead s). Qed.
Lemma finish_moves x c o s :
  (∀ w, w ∈ gs_waiters s → gs_exchanges s !! w = Some Waits) → gs_exchanges s !! x = Some (Calling c) →
  moves s (finish close_throws x c o s).2.
Proof.
  intros Hw Hx. unfold finish. destruct o as [[]|e].
  - destruct (alive s) eqn:Ha.
    + unfold catch, release. unfold alive in Ha. destruct (gs_dead s) eqn:Ed; [done|].
      assert (alive s = true) by (unfold alive; by rewrite Ed).
      unfold mbind, M_bind, get_state. rewrite Ed. destruct (gs_waiters s) as [|w ws] eqn:Ew.
      * by eapply rtc_once, MFree.
      * by eapply rtc_once, MServe.
    + unfold catch at 1. destruct (close_conn_cases c s) as (r&E&[->|[e ->]]).
      * erewrite M_bind_done by (by rewrite release_dead).
        pose proof (MEnd close_throws s x _ c Exchanged [Closed c] (gs_lane_count s) Ha Hx) as H.
        apply rtc_once, H; try done; [by left|by constructor].
      * erewrite M_bind_raise by (by rewrite release_dead). unfold catch.
        erewrite M_bind_done by (by apply die_dead).
        destruct (close_conn_cases c (logs [Closed c] s)) as (r&E2&[->|[e' ->]]);
          [erewrite M_bind_done by exact E2|erewrite M_bind_raise by exact E2].
        -- rewrite logs_logs. eapply (end_moves s x c e [Closed c; Closed c]); try done. by repeat constructor.
        -- rewrite logs_logs. pose proof (end_moves s x c e' [Closed c; Closed c] (gs_lane_count s) Ha Hx) as H.
           apply H; [done|by repeat constructor].
  - unfold catch at 1, throw at 1. destruct (die_spec e s) as (Hm&Hd&Hl&He).
    assert (Hx2 : gs_exchanges (die close_throws e s).2 !! x = Some (Calling c)).
    { rewrite He. destruct (alive s); [|done]. rewrite refuse_other; [done|]. intros H%Hw. congruence. }
    pose proof (die_done e s) as Hn. destruct (die close_throws e s) as [[[]|e'|] s1] eqn:E; cbn [fst snd] in *; [| |done];
      (etrans; [exact Hm|]); unfold catch.
    + erewrite M_bind_done by exact E. by apply finish_failed.
    + erewrite M_bind_raise by exact E.
      pose proof (end_moves s1 x c e' [] (gs_lane_count s1) Hd Hx2) as H. rewrite logs_nil in H. apply H; [|done].
      intros Hc. by specialize (Hn Hc).
Qed.
Lemma step_moves e s : (∀ w, w ∈ gs_waiters s → gs_exchanges s !! w = Some Waits) → moves s (step close_throws e s).2.
Proof.
  intros Hw. unfold step. erewrite M_bind_done by done. destruct e as [|x o|x o|x o|x|x o|o|].
  - apply exchange_moves.
  - destruct (gs_exchanges s !! x) as [[]|] eqn:Hx; try apply rtc_refl. by apply connected_moves.
  - destruct (gs_exchanges s !! x) as [[]|] eqn:Hx; try apply rtc_refl. destruct o as [[]|e]; cbn [written].
    + eapply (same_move x _ (Echoing c) [ReadExactly c (ty_size Handshake)]); [exact Hx|done|done|by constructor].
    + by eapply set_phase_moves.
  - destruct (gs_exchanges s !! x) as [[]|] eqn:Hx; try apply rtc_refl. by apply echoed_moves.
  - destruct (gs_exchanges s !! x) as [[]|] eqn:Hx; try apply rtc_refl; [by apply shaken_moves|].
    eapply (same_move x _ (Calling c) [FnCalled x c]); [exact Hx|done|done|by constructor].
  - destruct (gs_exchanges s !! x) as [[]|] eqn:Hx; try apply rtc_refl. by apply finish_moves.
  - destruct (gs_watching s); [|apply rtc_refl]. unfold watch. erewrite M_bind_done by done.
    etrans; [apply rtc_once, MWatch|]. set (s1 := s <| gs_watching := false |>).
    assert (Hd : ∀ e, moves s1 (catch (die close_throws e) (die close_throws) s1).2).
    { intros e. unfold catch. destruct (die_spec e s1) as (Hm&Hd&_&_). destruct (die close_throws e s1) as [[[]|e'|] s2]; try exact Hm.
      by rewrite die_dead. }
    destruct o as [chunk|e]; [apply Hd|]. unfold catch, throw. apply die_spec.
  - apply die_spec.
Qed.
End steps.

(** * The invariant *)
Lemma held_at l x p : l !! x = Some p → ∃ rest,
  omap lane_of l ≡ₚ option_list (lane_of p) ++ rest ∧ ∀ p', omap lane_of (<[x := p']> l) ≡ₚ option_list (lane_of p') ++ rest.
Proof.
  intros Hx. destruct (list_elem_of_split_length l x p Hx) as (l1&l2&->&->). exists (omap lane_of l1 ++ omap lane_of l2).
  split; [|intros p'; rewrite insert_app_r_alt, Nat.sub_diag by lia; cbn [insert list_insert]];
    rewrite omap_app; cbn [omap list_omap]; destruct (lane_of _); cbn; by rewrite ?Permutation_middle.
Qed.
Lemma connecting_at l x p p' : l !! x = Some p →
  zlen (List.filter is_connecting (<[x := p']> l)) + Z.b2z (is_connecting p) = zlen (List.filter is_connecting l) + Z.b2z (is_connecting p').
Proof.
  intros Hx. destruct (list_elem_of_split_length l x p Hx) as (l1&l2&->&->). rewrite insert_app_r_alt, Nat.sub_diag by lia. cbn [insert list_insert].
  rewrite !List.filter_app, !zlen_app. cbn [List.filter]. destruct (is_connecting p), (is_connecting p'); autorewrite with zlen; cbn [Z.b2z]; lia.
Qed.
Definition idle (l : list phase) (w : nat) : Prop := ∃ p, l !! w = Some p ∧ lane_of p = None ∧ is_connecting p = false.
Lemma held_refuse e ws l : Forall (idle l) ws →
  omap lane_of (refuse e ws l) ≡ₚ omap lane_of l ∧ zlen (List.filter is_connecting (refuse e ws l)) = zlen (List.filter is_connecting l).
Proof.
  unfold refuse. revert l; induction ws as [|w ws IH]; intros l Hw; [done|]. cbn [foldl].
  apply Forall_cons in Hw as [(p&Hp&Hl&Hc) Hw].
  destruct (IH (<[w := Failed e]> l)) as [E1 E2].
  { eapply Forall_impl; [exact Hw|]. intros x (q&Hq&?&?). destruct (decide (w = x)) as [->|Hne].
    - exists (Failed e). split; [|done]. apply list_lookup_insert_eq. by eapply lookup_lt_Some.
    - exists q. by rewrite list_lookup_insert_ne. }
  rewrite E1, E2. destruct (held_at l w p Hp) as (rest&H1&H2). pose proof (connecting_at l w p (Failed e) Hp) as H3.
  rewrite Hc in H3. rewrite H1, H2, Hl. cbn [is_connecting Z.b2z] in H3. split; [done|lia].
Qed.

(** What a move does to the pool: it loses the lanes that are closed, or those a
    session loses with its life, and gains a new connection at most. *)
Record pool_moves (s s' : session) (lost came : list nat) (closes : list nat) (n : Z) : Prop := {
  pm_pool : pool s ++ came ≡ₚ lost ++ pool s';
  pm_conns : gs_conns s' = (gs_conns s + length came)%nat;
  pm_came : came = [] ∨ came = [gs_conns s];
  pm_closes : ∀ c, Closed c ∈ gs_log s' ↔ Closed c ∈ gs_log s ∨ c ∈ closes;
  pm_lost : ∀ c, c ∈ closes → c ∈ lost ∨ (alive s' = false ∧ c = 0%nat);
  pm_count : alive s' = true → gs_lane_count s' = gs_lane_count s + n ∧
    connecting s' + zlen (pool s') = connecting s + zlen (pool s) + n ∧ gs_lane_count s + n ≤ Z.max (gs_lane_count s) MAX_LANES;
  pm_alive : alive s' = true → alive s = true }.
(** A lane is held by one exchange or is free, and is open; the count is that of
    the lanes and of the connections being made. *)
Record lanes_held (s : session) : Prop := {
  lh_once : NoDup (pool s);
  lh_range : ∀ c, c ∈ pool s → (1 ≤ c < gs_conns s)%nat;
  lh_open : ∀ c, c ∈ pool s ∨ (alive s = true ∧ c = 0%nat) → Closed c ∉ gs_log s;
  lh_closed : ∀ c, Closed c ∈ gs_log s → (c < gs_conns s)%nat;
  lh_conns : (0 < gs_conns s)%nat;
  lh_count : alive s = true → gs_lane_count s = connecting s + zlen (pool s) ∧ gs_lane_count s ≤ MAX_LANES }.
Lemma pool_moves_held s s' lost came closes n : pool_moves s s' lost came closes n → lanes_held s → lanes_held s'.
Proof.
  intros [Hp Hc Hcame Hcl Hlost Hn Ha] [L1 L2 L3 L4 L5 L6].
  assert (Hfresh : ∀ c, c ∈ came → c = gs_conns s) by (intros c; destruct Hcame as [-> | ->]; [by intros ?%not_elem_of_nil|by intros ->%list_elem_of_singleton]).
  assert (Hnew : NoDup (pool s ++ came)).
  { apply NoDup_app. split_and!; [done|intros c H1 H2%Hfresh; apply L2 in H1; lia|].
    destruct Hcame as [-> | ->]; [constructor|apply NoDup_singleton]. }
  assert (Hin : ∀ c, c ∈ pool s' → c ∈ pool s ∨ c ∈ came) by (intros c H; apply elem_of_app; rewrite Hp; apply elem_of_app; by right).
  rewrite Hp in Hnew. apply NoDup_app in Hnew as (N1&N2&N3).
  assert (Hlen : (length came ≤ 1)%nat) by (by destruct Hcame as [-> | ->]; cbn; lia).
  split.
  - done.
  - intros c [H%L2|H]%Hin; [lia|]. rewrite (Hfresh c H), Hc. destruct Hcame as [-> | ->]; [by apply not_elem_of_nil in H|cbn; lia].
  - intros c H [Hlog|Hlog]%Hcl.
    + destruct H as [H|[H ->]]; [|by apply (L3 0%nat); [right; auto|]].
      apply Hin in H as [H|H%Hfresh]; [by apply (L3 c); [left|]|]. apply L4 in Hlog. lia.
    + destruct H as [H|[H ->]].
      * destruct (Hlost c Hlog) as [Hl|[_ ->]]; [by apply (N2 c)|]. apply Hin in H as [H%L2|H%Hfresh]; lia.
      * destruct (Hlost _ Hlog) as [Hl|[Hl _]]; [|congruence].
        assert (0%nat ∈ pool s ++ came) as [H0%L2|H0%Hfresh]%elem_of_app by (rewrite Hp; apply elem_of_app; by left); lia.
  - intros c [H%L4|H]%Hcl; [lia|]. destruct (Hlost c H) as [Hl|[_ ->]]; [|lia].
    assert (c ∈ pool s ++ came) as [H0%L2|H0]%elem_of_app by (rewrite Hp; apply elem_of_app; by left); [lia|].
    rewrite (Hfresh _ H0). destruct Hcame as [-> | ->]; [by apply not_elem_of_nil in H0|cbn in Hc; lia].
  - lia.
  - intros H. destruct (Hn H) as (E1&E2&E3). destruct (L6 (Ha H)) as [E4 E5]. unfold MAX_LANES in *. lia.
Qed.
Lemma quiet_closes l c : Forall (fun e => quiet e = true) l → Closed c ∉ l.
Proof. rewrite Forall_forall. intros H Hc%H. done. Qed.
Lemma closes_log s c l (cs : list nat) : (Closed c ∈ l ↔ c ∈ cs) → Closed c ∈ gs_log s ++ l ↔ Closed c ∈ gs_log s ∨ c ∈ cs.
Proof. intros H. by rewrite elem_of_app, H. Qed.
Lemma elem_closed c (cs : list nat) : Closed c ∈ (Closed <$> cs) ↔ c ∈ cs.
Proof. rewrite list_elem_of_fmap. split; [by intros (?&[= ->]&?)|by exists c]. Qed.
Lemma refused_open c (ws : list nat) : Closed c ∉ (Refused <$> ws).
Proof. intros (?&?&?)%list_elem_of_fmap. done. Qed.

(** What a move on lane [c] of the exchange [x] does to the counts. *)
Lemma lane_rephased s x p p' c : gs_exchanges s !! x = Some p → lane_of p = Some c →
  (∃ rest, held s ≡ₚ c :: rest ∧ omap lane_of (<[x := p']> (gs_exchanges s)) ≡ₚ option_list (lane_of p') ++ rest) ∧
  zlen (List.filter is_connecting (<[x := p']> (gs_exchanges s))) = connecting s + Z.b2z (is_connecting p').
Proof.
  intros Hx Hc. destruct (held_at _ _ _ Hx) as (rest&H1&H2). rewrite Hc in H1. split; [exists rest; by split|].
  pose proof (connecting_at _ _ _ p' Hx) as H3. unfold connecting. destruct p; try done; cbn [is_connecting Z.b2z] in H3; lia.
Qed.
Lemma connecting_rephased s x p' : gs_exchanges s !! x = Some Connecting →
  omap lane_of (<[x := p']> (gs_exchanges s)) ≡ₚ option_list (lane_of p') ++ held s ∧
  zlen (List.filter is_connecting (<[x := p']> (gs_exchanges s))) = connecting s + Z.b2z (is_connecting p') - 1.
Proof.
  intros Hx. destruct (held_at _ _ _ Hx) as (rest&H1&H2). cbn [option_list lane_of app] in H1. split; [by rewrite H2, <- H1|].
  pose proof (connecting_at _ _ _ p' Hx) as H3. cbn [is_connecting Z.b2z] in H3. unfold connecting. lia.
Qed.
Lemma zlen_perm {A} (l l' : list A) : l ≡ₚ l' → zlen l = zlen l'.
Proof. unfold zlen. by intros ->. Qed.

Definition kept_pool (close_throws : nat → list effect → option exn) (s s' : session) (lost closes : list nat) : Prop :=
  (∀ c l, close_throws c l = None) → lost ⊆ closes ∧ (alive s = true → alive s' = false → 0%nat ∈ closes).
Lemma same_pool s s' :
  pool s' ≡ₚ pool s → alive s' = alive s → connecting s' = connecting s → gs_conns s' = gs_conns s →
  gs_lane_count s' = gs_lane_count s → (∀ c, Closed c ∈ gs_log s' ↔ Closed c ∈ gs_log s) → pool_moves s s' [] [] [] 0.
Proof.
  intros Ep E2 E4 E5 E6 E7.
  split.
  - by rewrite app_nil_r, Ep.
  - by rewrite E5, Nat.add_0_r.
  - by left.
  - intros c. rewrite E7. split; [by left|]. by intros [?|?%not_elem_of_nil].
  - by intros c ?%not_elem_of_nil.
  - intros _. rewrite E4, E6, (zlen_perm _ _ Ep). lia.
  - by rewrite E2.
Qed.

Lemma lane_not_connecting p c : lane_of p = Some c → is_connecting p = false.
Proof. by destruct p. Qed.
Lemma pool_with s l f d : pool (s <| gs_exchanges := l |> <| gs_free := f |> <| gs_dead := d |>) =
  omap lane_of l ++ (if d is None then f else []).
Proof. by destruct d. Qed.

(** The pool after one exchange has moved. *)
Lemma pool_moves_at s s' x p p' lost came closes :
  gs_exchanges s !! x = Some p → gs_exchanges s' = <[x := p']> (gs_exchanges s) → gs_dead s' = gs_dead s → gs_free s' = gs_free s →
  (option_list (lane_of p) ++ came ≡ₚ lost ++ option_list (lane_of p')) →
  gs_conns s' = (gs_conns s + length came)%nat → came = [] ∨ came = [gs_conns s] →
  (∀ c, Closed c ∈ gs_log s' ↔ Closed c ∈ gs_log s ∨ c ∈ closes) → closes ⊆ lost →
  (alive s = true → gs_lane_count s' = gs_lane_count s + zlen came + Z.b2z (is_connecting p') - Z.b2z (is_connecting p) - zlen lost) →
  zlen came + Z.b2z (is_connecting p') ≤ Z.b2z (is_connecting p) + zlen lost →
  pool_moves s s' lost came closes (zlen came + Z.b2z (is_connecting p') - Z.b2z (is_connecting p) - zlen lost).
Proof.
  intros Hx Ex Ed Ef Hp Hc Hcame Hcl Hlost Hn Hle. destruct (held_at _ _ _ Hx) as (rest&H1&H2).
  assert (Ea : alive s' = alive s) by (unfold alive; by rewrite Ed).
  assert (Ep : pool s ++ came ≡ₚ lost ++ pool s').
  { unfold pool, held. rewrite Ex, Ea, Ef, H1, H2, <- !app_assoc, (app_assoc lost), <- Hp, <- !app_assoc.
    apply Permutation_app_head. rewrite (app_assoc rest). apply Permutation_app_comm. }
  split; try done.
  - intros c H. left. by apply Hlost.
  - rewrite Ea. intros Ha. rewrite (Hn Ha). pose proof (connecting_at _ _ _ p' Hx) as H3. unfold connecting. rewrite Ex.
    apply zlen_perm in Ep. rewrite !zlen_app in Ep. unfold MAX_LANES. lia.
  - by rewrite Ea.
Qed.
(** The pool after an exchange has been called. *)
Lemma pool_moves_new s s' p free l n :
  gs_exchanges s' = gs_exchanges s ++ [p] → gs_dead s' = gs_dead s → gs_free s' = free → gs_log s' = gs_log s ++ l →
  (alive s = true → gs_free s ≡ₚ option_list (lane_of p) ++ free) → (alive s = false → lane_of p = None) →
  Forall (fun e => quiet e = true ∨ ∃ x, e = Queued x) l → gs_conns s' = gs_conns s →
  gs_lane_count s' = gs_lane_count s + n → (alive s = true → n = Z.b2z (is_connecting p) ∧ (n = 0 ∨ gs_lane_count s < MAX_LANES)) →
  pool_moves s s' [] [] [] n.
Proof.
  intros Ex Ed <- El Ha Hd Hl Hc Hn1 Hn2. assert (Ea : alive s' = alive s) by (unfold alive; by rewrite Ed).
  assert (Ep : pool s ≡ₚ pool s').
  { unfold pool, held. rewrite Ex, Ea, omap_app. cbn [omap list_omap]. destruct (alive s) eqn:E.
    - rewrite (Ha eq_refl), <- app_assoc. by destruct (lane_of p).
    - by rewrite (Hd eq_refl), !app_nil_r. }
  split.
  - by rewrite app_nil_r.
  - by rewrite Hc, Nat.add_0_r.
  - by left.
  - intros c. rewrite El, elem_of_app. split; intros [?|H]; [by left| |by left|by apply not_elem_of_nil in H].
    rewrite Forall_forall in Hl. apply Hl in H as [?|[? ?]]; done.
  - by intros c ?%not_elem_of_nil.
  - rewrite Ea. intros Hal. destruct (Hn2 Hal) as [-> Hm]. rewrite Hn1, <- (zlen_perm _ _ Ep). unfold connecting. rewrite Ex, List.filter_app, zlen_app.
    cbn [List.filter]. unfold MAX_LANES in *. destruct (is_connecting p); cbn [zlen length Z.b2z] in *; unfold zlen; cbn [length]; lia.
  - by rewrite Ea.
Qed.

Ltac kept := intros _; split; [done|let Ha := fresh in let Hb := fresh in intros Ha Hb; exfalso; unfold alive in *; cbn in *; congruence].
Ltac pool_triv := try first [done | by left | by right | by unfold zlen; cbn; lia | by intros _; unfold zlen; cbn; lia].
Ltac new_triv := try first [done | intros _; match goal with H : gs_free _ = [] |- _ => by rewrite H end | by rewrite app_nil_r | by rewrite Z.add_0_r | by intros; congruence | intros _; split; [done|by left] | intros _; split; [done|by right]].
Lemma move_pool close_throws s s' :
  Forall (idle (gs_exchanges s)) (gs_waiters s) → move close_throws s s' →
  ∃ lost came closes n, pool_moves s s' lost came closes n ∧ kept_pool close_throws s s' lost closes.
Proof.
  intros Hw Hm. destruct Hm as [x p p' l Hx [c Hc] Hp' Hq|x e Hx|x p l Hx Hp Hq|x p c e Hx Hc|e Hd|c free Ha Hf|l Ha Hf Hn Hq|Ha Hf
    |x p c w ws Ha Hx Hc Hws|x p c Ha Hx Hc Hws|x p c p' l n Ha Hx Hc Hp' Hl Hq|e cs free Ha Hcs Hall|].
  - exists [], [], []. eexists. split; [|kept]. rewrite Hc in Hp'.
    assert (E1 := lane_not_connecting _ _ Hc). assert (E2 := lane_not_connecting _ _ Hp').
    eapply (pool_moves_at s _ x p p' [] [] []); try done; rewrite ?E1, ?E2, ?Hc, ?Hp'; pool_triv.
    intros c'. cbn. apply closes_log. pose proof (quiet_closes l c' Hq). set_solver.
  - exists [], [], []. eexists. split; [|kept].
    eapply (pool_moves_at s _ x Connecting (Failed e) [] [] []); pool_triv. set_solver.
  - exists [], [gs_conns s], []. eexists. split; [|kept]. assert (E := lane_not_connecting _ _ Hp).
    eapply (pool_moves_at s _ x Connecting p [] [gs_conns s] []); try done; rewrite ?E, ?Hp; pool_triv.
    intros c'. cbn. apply closes_log. pose proof (quiet_closes l c' Hq). set_solver.
  - exists [c], [], [c]. eexists. split; [|kept]. assert (E := lane_not_connecting _ _ Hc).
    eapply (pool_moves_at s _ x p (Failed e) [c] [] [c]); try done; rewrite ?E, ?Hc; pool_triv.
    intros c'. cbn. apply closes_log. set_solver.
  - exists [], [], [], 0. split; [|kept].
    assert (alive s = false) by (unfold alive; by rewrite Hd).
    eapply (pool_moves_new s _ (Failed e) _ []); new_triv.
  - exists [], [], [], 0. split; [|kept].
    eapply (pool_moves_new s _ (Acquired c) _ []); new_triv.
    intros _. rewrite Hf. cbn. by rewrite Permutation_app_comm.
  - exists [], [], [], 1. split; [|kept].
    eapply (pool_moves_new s _ Connecting _ l); new_triv.
    eapply Forall_impl; [exact Hq|]. by left.
  - exists [], [], [], 0. split; [|kept].
    eapply (pool_moves_new s _ Waits _ [Queued _]); new_triv. constructor; [right; by eexists|constructor].
  - exists [], [], [], 0. split; [|kept]. rewrite Hws in Hw. apply Forall_cons_1 in Hw as [(q&Hq&Hql&Hqc) _].
    assert (Hne : w ≠ x) by (intros ->; congruence). set (l2 := <[w := Acquired c]> (gs_exchanges s)).
    assert (Hx2 : l2 !! x = Some p) by (unfold l2; by rewrite list_lookup_insert_ne).
    destruct (held_at _ _ _ Hq) as (rest&H1&H2). destruct (held_at _ _ _ Hx2) as (rest2&H3&H4).
    specialize (H2 (Acquired c)). fold l2 in H2. rewrite H2, Hc in H3. rewrite Hql in H1. cbn in H1, H3. apply Permutation_cons_inv in H3.
    pose proof (connecting_at _ _ _ (Acquired c) Hq) as C1. pose proof (connecting_at _ _ _ Exchanged Hx2) as C2.
    fold l2 in C1. rewrite Hqc in C1. rewrite (lane_not_connecting _ _ Hc) in C2. cbn [is_connecting Z.b2z] in C1, C2.
    apply same_pool; try done.
    + unfold pool, held. cbn. fold l2. by rewrite (H4 Exchanged), <- H3, <- H1.
    + unfold connecting. cbn. fold l2. lia.
    + intros c'. cbn. set_solver.
  - exists [], [], [], 0. split; [|kept]. destruct (lane_rephased s x p Exchanged c Hx Hc) as [(rest&H1&H2) H3].
    apply same_pool; try done.
    + unfold pool. rewrite H1. unfold held, alive in *. cbn. rewrite H2. destruct (gs_dead s); [done|]. cbn. by rewrite app_assoc, Permutation_app_comm.
    + unfold connecting at 1. cbn. rewrite H3. cbn. lia.
  - assert (E := lane_not_connecting _ _ Hc). assert (E' : is_connecting p' = false ∧ lane_of p' = None) by (by destruct Hp' as [->|[? ->]]).
    destruct E' as [E1 E2]. exists [c], [], (if decide (l = []) then [] else [c]). eexists.
    split; [|intros Hn; split; [rewrite decide_False by auto; done|intros; congruence]].
    eapply (pool_moves_at s _ x p p' [c] []); try done; rewrite ?E, ?E1, ?E2, ?Hc; pool_triv; [| |intros; congruence].
    + intros c'. cbn. apply closes_log. rewrite Forall_forall in Hq. destruct (decide (l = [])) as [->|Hl2]; [set_solver|].
      rewrite list_elem_of_singleton. split; [by intros [= ->]%Hq|]. intros ->. destruct l as [|e l]; [done|].
      rewrite (Hq e) by (by left). by left.
    + destruct (decide _); set_solver.
  - exists (gs_free s), [], cs, 0. destruct (held_refuse e _ _ Hw) as [H1 H2]. split.
    + split; pool_triv.
      * unfold pool, held. cbn. unfold alive in *. destruct (gs_dead s); [done|]. rewrite H1, !app_nil_r. by rewrite Permutation_app_comm.
      * intros c. cbn. apply closes_log. rewrite elem_of_app, elem_closed. pose proof (refused_open c (gs_waiters s)). tauto.
      * intros c [?| ->]%Hcs; [by left|by right].
    + intros Hn. rewrite (Hall Hn). split; [set_solver|]. intros _ _. apply elem_of_app. right. by left.
  - exists [], [], [], 0. split; [|kept]. by apply same_pool.
Qed.

(** ** The exchanges that wait

    Those of [#waiters] are the ones that wait, in the order they queued; they do
    only while no lane is free. *)
Record waits_ok (s : session) : Prop := {
  wt_once : NoDup (gs_waiters s);
  wt_waiting : ∀ x, x ∈ gs_waiters s ↔ gs_exchanges s !! x = Some Waits;
  wt_starved : gs_waiters s ≠ [] → alive s = true ∧ gs_free s = [];
  wt_order : queued (gs_log s) = served (gs_log s) ++ gs_waiters s }.
Lemma waiting_insert (l : list phase) x p p' : l !! x = Some p → p ≠ Waits → p' ≠ Waits → ∀ y, <[x := p']> l !! y = Some Waits ↔ l !! y = Some Waits.
Proof.
  intros Hx Hp Hp' y. destruct (decide (x = y)) as [->|Hne]; [|by rewrite list_lookup_insert_ne].
  rewrite list_lookup_insert_eq by (by eapply lookup_lt_Some). rewrite Hx. split; congruence.
Qed.
Lemma waiting_snoc (l : list phase) p y : p ≠ Waits → (l ++ [p]) !! y = Some Waits ↔ l !! y = Some Waits.
Proof.
  intros Hp. rewrite lookup_app_Some. split; [|by left]. intros [H|[_ H]]; [done|].
  apply list_lookup_singleton_Some in H as [_ H]. congruence.
Qed.
Lemma quiet_queued l : Forall (fun e => quiet e = true) l → queued l = [] ∧ served l = [].
Proof. induction 1 as [|e l He _ [E1 E2]]; [done|]. unfold queued, served in *. cbn. rewrite E1, E2. by destruct e. Qed.
Lemma closes_queued (cs : list nat) : queued (Closed <$> cs) = [] ∧ served (Closed <$> cs) = [].
Proof. by induction cs. Qed.
Lemma refused_queued (ws : list nat) : queued (Refused <$> ws) = [] ∧ served (Refused <$> ws) = ws.
Proof. induction ws as [|w ws [E1 E2]]; [done|]. split; [exact E1|]. unfold served in *. cbn. by rewrite E2. Qed.
Lemma waits_same s s' l :
  waits_ok s → gs_waiters s' = gs_waiters s → (∀ y, gs_exchanges s' !! y = Some Waits ↔ gs_exchanges s !! y = Some Waits) →
  (gs_waiters s ≠ [] → alive s' = alive s ∧ (gs_free s = [] → gs_free s' = [])) →
  gs_log s' = gs_log s ++ l → queued l = [] ∧ served l = [] → waits_ok s'.
Proof.
  intros [W1 W2 W3 W4] Ew Ex Ha El [Q1 Q2]. split; rewrite ?Ew.
  - done.
  - intros x. by rewrite W2, Ex.
  - intros H. destruct (W3 H) as [A1 A2], (Ha H) as [A3 A4]. rewrite A3. auto.
  - unfold queued, served in *. rewrite El, !omap_app, Q1, Q2, !app_nil_r. exact W4.
Qed.
Lemma refuse_waiting e (ws : list nat) (l : list phase) y : (∀ w, w ∈ ws ↔ l !! w = Some Waits) → refuse e ws l !! y ≠ Some Waits.
Proof.
  intros Hw. assert (Hg : ∀ ws l, refuse e ws l !! y = Some Waits → (y ∉ ws) ∧ l !! y = Some Waits).
  { clear. unfold refuse. induction ws as [|w ws IH]; intros l; cbn [foldl]; [intros H; split; [by apply not_elem_of_nil|done]|].
    intros [H1 H2]%IH. destruct (decide (w = y)) as [->|Hne].
    - apply list_lookup_insert_Some in H2 as [(_&?&_)|[? _]]; congruence.
    - rewrite list_lookup_insert_ne in H2 by done. split; [|done]. apply not_elem_of_cons. split; [congruence|done]. }
  intros [H1 H2]%Hg. by apply H1, Hw.
Qed.
Lemma lane_not_waits p c : lane_of p = Some c → p ≠ Waits.
Proof. by intros H ->. Qed.
Lemma move_waits close_throws s s' : waits_ok s → move close_throws s s' → waits_ok s'.
Proof.
  intros Hw Hm. pose proof Hw as [W1 W2 W3 W4].
  destruct Hm as [x p p' l Hx [c Hc] Hp' Hq|x e Hx|x p l Hx Hp Hq|x p c e Hx Hc|e Hd|c free Ha Hf|l Ha Hf Hn Hq|Ha Hf
    |x p c w ws Ha Hx Hc Hws|x p c Ha Hx Hc Hws|x p c p' l n Ha Hx Hc Hp' Hl Hq|e cs free Ha Hcs Hall|].
  - rewrite Hc in Hp'. eapply (waits_same s _ l); try done; [|by apply quiet_queued].
    by apply (waiting_insert _ _ p); eauto using lane_not_waits.
  - eapply (waits_same s _ []); try done; [|by rewrite app_nil_r]. by eapply waiting_insert.
  - eapply (waits_same s _ l); try done; [|by apply quiet_queued].
    apply (waiting_insert _ _ Connecting); eauto using lane_not_waits.
  - eapply (waits_same s _ [Closed c]); try done. by apply (waiting_insert _ _ p); eauto using lane_not_waits.
  - eapply (waits_same s _ []); try done; [|by rewrite app_nil_r]. intros y. by apply waiting_snoc.
  - eapply (waits_same s _ []); try done; [| |by rewrite app_nil_r].
    + intros y. by apply waiting_snoc.
    + intros H. apply W3 in H as [_ H]. rewrite H in Hf. by destruct free.
  - eapply (waits_same s _ l); try done; [|by apply quiet_queued]. intros y. by apply waiting_snoc.
  - split; cbn.
    + apply NoDup_app. split_and!; [done| |apply NoDup_singleton]. intros x Hx ->%list_elem_of_singleton.
      apply W2, lookup_lt_Some in Hx. lia.
    + intros x. rewrite elem_of_app, list_elem_of_singleton, lookup_app_Some, W2. split.
      * intros [?| ->]; [by left|right; split; [lia|by rewrite Nat.sub_diag]].
      * intros [?|[? H]]; [by left|right]. apply list_lookup_singleton_Some in H as [? _]. lia.
    + intros _. done.
    + unfold queued, served in *. rewrite !omap_app, W4. cbn. by rewrite app_nil_r, <- app_assoc.
  - rewrite Hws in W1, W2, W4. apply NoDup_cons in W1 as [N1 N2].
    assert (Hw' : gs_exchanges s !! w = Some Waits) by (apply W2; by left).
    assert (Hne : w ≠ x) by (intros ->; rewrite Hx in Hw'; injection Hw' as ->; done).
    split; cbn.
    + done.
    + intros y. etrans; [|symmetry; apply (waiting_insert _ _ p); [by rewrite list_lookup_insert_ne|eauto using lane_not_waits|done]].
      destruct (decide (w = y)) as [->|Hy].
      * rewrite list_lookup_insert_eq by (by eapply lookup_lt_Some). split; [done|congruence].
      * rewrite list_lookup_insert_ne, <- W2, elem_of_cons by done. split; [by right|]. by intros [?|?].
    + intros _. apply W3. congruence.
    + unfold queued, served in *. rewrite !omap_app, W4. cbn. by rewrite app_nil_r, <- app_assoc.
  - eapply (waits_same s _ []); try done; [|by rewrite app_nil_r].
    apply (waiting_insert _ _ p); eauto using lane_not_waits.
  - destruct (decide (gs_waiters s = [])) as [E|E]; [|apply W3 in E as [? _]; congruence].
    eapply (waits_same s _ l); try done.
    + apply (waiting_insert _ _ p); [done|eauto using lane_not_waits|]. by destruct Hp' as [->|[? ->]].
    + clear -Hq. induction Hq as [|e l -> _ [E1 E2]]; [done|]. by split.
  - destruct (refused_queued (gs_waiters s)) as [R1 R2], (closes_queued cs) as [C1 C2]. split; cbn.
    + constructor.
    + intros y. split; [by intros ?%not_elem_of_nil|]. intros H. by apply refuse_waiting in H.
    + done.
    + unfold queued, served in *. rewrite !omap_app, R1, R2, C1, C2, W4. by rewrite !app_nil_r.
  - eapply (waits_same s _ []); try done. by rewrite app_nil_r.
Qed.

(** * Sessions *)
Definition session_ok (s : session) : Prop := lanes_held s ∧ waits_ok s.
Definition never_leaks (s : session) : Prop :=
  ∀ c, (c < gs_conns s)%nat → c ∈ pool s ∨ Closed c ∈ gs_log s ∨ (alive s = true ∧ c = 0%nat).

Lemma waits_idle s : waits_ok s → Forall (idle (gs_exchanges s)) (gs_waiters s).
Proof. intros [_ Hw _ _]. apply Forall_forall. intros x Hx%Hw. by exists Waits. Qed.
Lemma moves_ok ct s s' : session_ok s → rtc (move ct) s s' → session_ok s'.
Proof.
  intros Hs Hm. induction Hm as [s|s s1 s2 Hm _ IH]; [done|]. apply IH. destruct Hs as [Hl Hw]. split; [|by eapply move_waits].
  destruct (move_pool ct s s1 (waits_idle _ Hw) Hm) as (lost&came&closes&n&Hp&_). by eapply pool_moves_held.
Qed.
Lemma moves_keep ct s s' : (∀ c l, ct c l = None) → session_ok s → never_leaks s → rtc (move ct) s s' → never_leaks s'.
Proof.
  intros Hct Hs Hk Hm. induction Hm as [s|s s1 s2 Hm _ IH]; [done|]. apply IH; [by eapply moves_ok, rtc_once|]. destruct Hs as [_ Hw].
  destruct (move_pool ct s s1 (waits_idle _ Hw) Hm) as (lost&came&closes&n&[Hp Hc Hcame Hcl _ _ Ha]&Hkeep). destruct (Hkeep Hct) as [Hlost H0].
  assert (Hin : ∀ c, c ∈ pool s ∨ c ∈ came → c ∈ pool s1 ∨ Closed c ∈ gs_log s1).
  { intros c H. apply elem_of_app in H. rewrite Hp in H. apply elem_of_app in H as [H|H]; [right|by left].
    apply Hcl. right. by apply Hlost. }
  intros c Hlt. destruct (decide (c < gs_conns s)%nat) as [Hold|Hnew].
  - destruct (Hk c Hold) as [H|[H|[H ->]]].
    + destruct (Hin c) as [?|?]; auto.
    + right. left. apply Hcl. by left.
    + destruct (alive s1) eqn:E; [auto|]. right. left. apply Hcl. right. auto.
  - destruct (Hin c) as [?|?]; auto. right. destruct Hcame as [-> | ->]; cbn in Hc; [lia|]. apply list_elem_of_singleton. lia.
Qed.
Lemma step_ok ct e s : session_ok s → rtc (move ct) s (step ct e s).2.
Proof. intros [_ [_ Hw _ _]]. apply step_moves. intros w. apply Hw. Qed.
Lemma run_moves ct es s : session_ok s → rtc (move ct) s (run ct es s).
Proof.
  revert s; induction es as [|e es IH]; intros s Hs; [done|]. etrans; [by apply (step_ok ct e)|].
  apply IH. eapply moves_ok; [done|by apply step_ok].
Qed.
Lemma session_new_ok log : Forall (fun e => quiet e = true) log → session_ok (session_new log) ∧ never_leaks (session_new log).
Proof.
  intros Hq. assert (Hq' : Forall (fun e => quiet e = true) (log ++ [ReadCalled 0])) by (apply Forall_app; split; [done|by constructor]).
  destruct (quiet_queued _ Hq') as [Q1 Q2].
  assert (Hc : ∀ c, Closed c ∉ log ++ [ReadCalled 0]) by (intros c; by apply quiet_closes).
  split; [split; split|]; cbn [session_new gs_log gs_waiters gs_exchanges gs_conns gs_lane_count gs_free pool held alive omap list_omap app].
  - constructor.
  - intros c ?%not_elem_of_nil. done.
  - intros c _. apply Hc.
  - intros c H. by apply Hc in H.
  - lia.
  - intros _. vm_compute. by split.
  - constructor.
  - intros x. split; [by intros ?%not_elem_of_nil|done].
  - done.
  - by rewrite Q1, Q2.
  - intros c Hlt. right. right. cbn in *. split; [done|lia].
Qed.
Lemma connect_quiet ct timeout o1 o2 o3 s log : connect ct timeout o1 o2 o3 = (Done s, log) →
  ∃ l, s = session_new l ∧ Forall (fun e => quiet e = true) l.
Proof.
  unfold connect. rewrite hello_done. destruct o1 as [[]|]; [|done]. destruct o2 as [[]|]; [|done]. destruct o3 as [echo|]; [|done].
  destruct (check_echo echo); [|done|done]. intros [= <- _]. eexists. split; [done|]. by repeat constructor.
Qed.

(** C19: a session's lanes stay in order, whatever its exchanges do, however their
    promises settle and whatever [close()] throws: a lane is held by one exchange
    or is free, never both, and is open until then; the lanes and the connections
    being made are at most 64, as [#lane_count] says; an exchange waits only while
    no lane is free, and those that wait get lanes in the order they came. *)
Theorem session_lanes_exclusive ct timeout o1 o2 o3 s log es :
  connect ct timeout o1 o2 o3 = (Done s, log) → lanes_held (run ct es s) ∧ waits_ok (run ct es s).
Proof.
  intros (l&->&Hq)%connect_quiet. destruct (session_new_ok l Hq) as [Hok _]. eapply moves_ok; [exact Hok|by apply run_moves].
Qed.

(** C20: where [close()] does not throw no connection is ever lost: each that was
    made is the session's own, held by an exchange or free, or has been closed; and
    once the session is dead and its exchanges are over, all have been closed. *)
Theorem session_never_leaks ct timeout o1 o2 o3 s log es :
  (∀ c l, ct c l = None) → connect ct timeout o1 o2 o3 = (Done s, log) →
  let s' := run ct es s in
  (∀ c, (c < gs_conns s')%nat → c ∈ pool s' ∨ Closed c ∈ gs_log s' ∨ (alive s' = true ∧ c = 0%nat)) ∧
  (alive s' = false → held s' = [] → ∀ c, (c < gs_conns s')%nat → Closed c ∈ gs_log s').
Proof.
  intros Hct (l&->&Hq)%connect_quiet. destruct (session_new_ok l Hq) as [Hok Hk].
  assert (Hk' : never_leaks (run ct es (session_new l))) by (eapply moves_keep; [done|exact Hok|exact Hk|by apply run_moves]).
  split; [exact Hk'|]. intros Ha Hh c Hc. destruct (Hk' c Hc) as [H|[H|[H _]]]; [|done|congruence].
  unfold pool in H. rewrite Ha, Hh in H. by apply not_elem_of_nil in H.
Qed.

(** ** Death *)
Record dead_from (n : nat) (e : exn) (s : session) : Prop := {
  df_dead : gs_dead s = Some e;
  df_length : (n ≤ length (gs_exchanges s))%nat;
  df_failed : ∀ x p, (n ≤ x)%nat → gs_exchanges s !! x = Some p → p = Failed e }.
Lemma dead_rephased n e (l : list phase) x p p' :
  (∀ y q, (n ≤ y)%nat → l !! y = Some q → q = Failed e) → l !! x = Some p → p ≠ Failed e →
  ∀ y q, (n ≤ y)%nat → <[x := p']> l !! y = Some q → q = Failed e.
Proof.
  intros Hf Hx Hp y q Hy. destruct (decide (x = y)) as [->|Hne]; [by specialize (Hf y p Hy Hx)|].
  rewrite list_lookup_insert_ne by done. by apply Hf.
Qed.
Lemma lane_not_failed p c e : lane_of p = Some c → p ≠ Failed e.
Proof. by intros H ->. Qed.
Lemma move_dead ct n e s s' : dead_from n e s → move ct s s' → dead_from n e s'.
Proof.
  intros [Hd Hn Hf] Hm. assert (Ha : alive s = false) by (unfold alive; by rewrite Hd).
  destruct Hm as [x p p' l Hx [c Hc] Hp' Hq|x e' Hx|x p l Hx Hp Hq|x p c e' Hx Hc|e' Hd'|c free Ha' Hf'|l Ha' Hf' Hn' Hq|Ha' Hf'
    |x p c w ws Ha' Hx Hc Hws|x p c Ha' Hx Hc Hws|x p c p' l n' Ha' Hx Hc Hp' Hl Hq|e' cs free Ha' Hcs Hall|];
    try congruence; split; cbn; rewrite ?length_insert, ?length_app; try done; try lia.
  - eapply dead_rephased; [exact Hf|exact Hx|by eapply lane_not_failed].
  - by eapply dead_rephased.
  - by eapply dead_rephased.
  - eapply dead_rephased; [exact Hf|exact Hx|by eapply lane_not_failed].
  - intros y q Hy [H|[_ H]]%lookup_app_Some; [by eapply Hf|]. apply list_lookup_singleton_Some in H as [_ <-]. congruence.
  - eapply dead_rephased; [exact Hf|exact Hx|by eapply lane_not_failed].
Qed.
Lemma moves_dead ct n e s s' : dead_from n e s → rtc (move ct) s s' → dead_from n e s'.
Proof. intros Hd Hm. induction Hm as [s|s s1 s2 Hm _ IH]; [done|]. apply IH. by eapply move_dead. Qed.
Lemma die_dead_as ct e s : alive s = true → gs_dead (die ct e s).2 = Some e.
Proof.
  intros Ha. unfold die, alive in *. erewrite M_bind_done by done. destruct (gs_dead s); [done|].
  erewrite M_bind_done by done. erewrite M_bind_done by done. erewrite M_bind_done by apply reject_all_done.
  set (s1 := _ <| gs_exchanges := _ |>). destruct (close_all_spec ct (gs_free s) s1) as (cs&E&_&Ho&_).
  destruct (close_all ct (gs_free s) s1) as [o s2] eqn:E1. cbn [fst snd] in *. subst s2. destruct Ho as [[-> _]|[e' ->]].
  - erewrite M_bind_done by exact E1. erewrite M_bind_done by done. by rewrite (proj1 (close_conn_spec ct 0 _)).
  - by erewrite M_bind_raise by exact E1.
Qed.
Lemma refuse_length e ws l : length (refuse e ws l) = length l.
Proof. unfold refuse. revert l; induction ws as [|w ws IH]; intros l; [done|]. cbn [foldl]. by rewrite IH, length_insert. Qed.

Lemma finish_rejected ct x c e s : alive s = true → ∃ e',
  gs_dead (finish ct x c (Rejected e) s).2 = Some e ∧
  gs_exchanges (finish ct x c (Rejected e) s).2 = <[x := Failed e']> (refuse e (gs_waiters s) (gs_exchanges s)).
Proof.
  intros Ha. change (finish ct x c (Rejected e) s) with
    (catch (die ct e ;; close_conn ct c ;; lane_count (fun n => n - 1) ;; throw e) (fun e => set_phase x (Failed e)) s).
  destruct (die_spec ct e s) as (_&_&Hl&He). pose proof (die_dead_as ct e s Ha) as Hd.
  rewrite Ha in He. destruct (die ct e s) as [[[]|e'|] s1] eqn:E; cbn [fst snd] in *; [| |done]; unfold catch.
  - erewrite M_bind_done by exact E. destruct (close_conn_cases ct c s1) as (r&E2&[->|[e' ->]]).
    + erewrite M_bind_done by exact E2. exists e. split; [exact Hd|]. unfold logs. cbn. by rewrite He.
    + erewrite M_bind_raise by exact E2. exists e'. split; [exact Hd|]. unfold logs. cbn. by rewrite He.
  - erewrite M_bind_raise by exact E. exists e'. split; [exact Hd|]. unfold logs. cbn. by rewrite He.
Qed.
Lemma refuse_at e (ws : list nat) (l : list phase) w : (∀ w, w ∈ ws → is_Some (l !! w)) → w ∈ ws → refuse e ws l !! w = Some (Failed e).
Proof.
  intros Hs. unfold refuse. assert (Hg : ∀ (ws : list nat) (l : list phase), is_Some (l !! w) → w ∈ ws ∨ l !! w = Some (Failed e) →
    foldl (fun l x => <[x := Failed e]> l) l ws !! w = Some (Failed e)).
  { clear. induction ws as [|x ws IH]; intros l Hl Hw; cbn [foldl].
    - destruct Hw as [Hw|Hw]; [by apply not_elem_of_nil in Hw|done].
    - apply IH; destruct (decide (x = w)) as [->|Hne].
      + apply lookup_lt_is_Some. rewrite length_insert. by apply lookup_lt_is_Some.
      + by rewrite list_lookup_insert_ne.
      + right. apply list_lookup_insert_eq. by apply lookup_lt_is_Some.
      + rewrite list_lookup_insert_ne by done. rewrite elem_of_cons in Hw. naive_solver. }
  intros Hw. apply Hg; [by apply Hs|by left].
Qed.

(** C21: an exchange whose [fn] throws poisons the session for good: with that error
    it rejects every exchange that waits and every later one, and its state of
    death never changes. *)
Theorem failure_poisons ct s x c e es :
  session_ok s → alive s = true → gs_exchanges s !! x = Some (Calling c) →
  let s1 := (step ct (Settled x (Rejected e)) s).2 in
  let s' := run ct es s1 in
  (∀ w, w ∈ gs_waiters s → gs_exchanges s1 !! w = Some (Failed e)) ∧
  gs_dead s' = Some e ∧ gs_waiters s' = [] ∧
  ∀ y p, (length (gs_exchanges s) ≤ y)%nat → gs_exchanges s' !! y = Some p → p = Failed e.
Proof.
  intros Hok Ha Hx s1 s'. assert (Hok1 : session_ok s1) by (eapply moves_ok; [exact Hok|by apply step_ok]).
  assert (E1 : s1 = (finish ct x c (Rejected e) s).2) by (unfold s1, step; erewrite M_bind_done by done; by rewrite Hx).
  destruct (finish_rejected ct x c e s Ha) as (e'&Hd&He). rewrite <- E1 in Hd, He. clearbody s1. clear E1.
  assert (Hdf : dead_from (length (gs_exchanges s)) e s').
  { apply (moves_dead ct _ e s1); [|by apply run_moves]. split; [done|by rewrite He, length_insert, refuse_length|].
    intros y p Hy Hl%lookup_lt_Some. rewrite He, length_insert, refuse_length in Hl. lia. }
  assert (Hok' : session_ok s') by (eapply moves_ok; [exact Hok1|by apply run_moves]).
  destruct Hok as [_ [_ Hw _ _]], Hok' as [_ [_ _ Hs' _]], Hdf as [D1 D2 D3]. split_and!; [|done| |done].
  - intros w Hin. rewrite He. apply Hw in Hin as Hww. rewrite list_lookup_insert_ne by congruence.
    apply refuse_at; [|done]. intros v Hv%Hw. by exists Waits.
  - destruct (gs_waiters s') eqn:E; [done|]. destruct Hs' as [Hal _]; [done|]. unfold alive in Hal. by rewrite D1 in Hal.
Qed.

(** * Sessions at work *)
Definition echo_bytes : list Z := [84; 76; 78; 88; 3; 0; 0; 0].
Definition opened (ct : nat → list effect → option exn) : outcome session * list effect :=
  connect ct None (Resolved tt) (Resolved tt) (Resolved echo_bytes).
Definition sample_session : session := session_new
  [ConnectCalled SESSION_PORT None; Wrote 0 echo_bytes; ReadExactly 0 8].
(** A new lane for the exchange [x], up to the call of [fn]. *)
Definition lane_up (x : nat) : list event :=
  [Exchange; Connected x (Resolved tt); Written x (Resolved tt); Echoed x (Resolved echo_bytes); Resume x; Resume x].
Definition sample_run : list event := lane_up 0 ++ lane_up 1 ++ [Settled 0 (Resolved tt); Exchange; Resume 2; Exchange].
Lemma session_lanes_exclusive_witness :
  let s := run (fun _ _ => None) sample_run sample_session in
  held s = [2%nat; 1%nat] ∧ lanes_held s ∧ waits_ok s.
Proof.
  split; [vm_compute; reflexivity|].
  apply (session_lanes_exclusive (fun _ _ => None) None (Resolved tt) (Resolved tt) (Resolved echo_bytes) sample_session
    [ConnectCalled SESSION_PORT None; Wrote 0 echo_bytes; ReadExactly 0 8]).
  vm_compute. reflexivity.
Defined.
Lemma session_never_leaks_witness :
  let s := run (fun _ _ => None) (sample_run ++ [Close; Settled 1 (Resolved tt); Settled 2 (Resolved tt); Connected 3 (Rejected (JsError "dead"))]) sample_session in
  alive s = false ∧ held s = [] ∧ gs_conns s = 3%nat ∧ ∀ c, (c < gs_conns s)%nat → Closed c ∈ gs_log s.
Proof.
  split_and!; [vm_compute; reflexivity..|].
  apply (session_never_leaks (fun _ _ => None) None (Resolved tt) (Resolved tt) (Resolved echo_bytes) sample_session
    [ConnectCalled SESSION_PORT None; Wrote 0 echo_bytes; ReadExactly 0 8]); vm_compute; reflexivity.
Defined.
Lemma sample_ok : session_ok (run (fun _ _ => None) sample_run sample_session).
Proof.
  eapply moves_ok; [|apply run_moves]; apply session_new_ok; by repeat constructor.
Qed.
Lemma failure_poisons_witness :
  let s := run (fun _ _ => None) sample_run sample_session in
  let s' := run (fun _ _ => None) [Exchange] (step (fun _ _ => None) (Settled 1 (Rejected (JsError "broken"))) s).2 in
  gs_dead s' = Some (JsError "broken") ∧ gs_waiters s' = [].
Proof.
  destruct (failure_poisons (fun _ _ => None) (run (fun _ _ => None) sample_run sample_session) 1 2 (JsError "broken") [Exchange] sample_ok)
    as (_&H1&H2&_); [vm_compute; reflexivity..|]. exact (conj H1 H2).
Defined.
(** An exchange that waits is not retried when the lanes it waits for fail to
    connect: it waits though nothing is under way any more. *)
Example waiter_starves :
  let s := run (fun _ _ => None) (replicate 65 Exchange ++ ((fun x => Connected x (Rejected (JsError "timeout"))) <$> seq 0 64)) sample_session in
  alive s = true ∧ gs_waiters s = [64%nat] ∧ gs_lane_count s = 0 ∧
  Forall (fun p => p = Failed (JsError "timeout") ∨ p = Waits) (gs_exchanges s).
Proof.
  cbv zeta. split_and!; [vm_compute; reflexivity..|].
  apply (bool_decide_unpack _). vm_compute. exact I.
Qed.
