(* ===== verification/Abi.v ===== *)
(** The guest's ABI: packages/linux-guest/src/abi.ts, with the check tables from
    which distro/guest-agent/gen-abi-check.ts makes the assertions of the guest's
    build. *)
From S2P Require Export Bytes Text.

(** * Check tables *)
Record field_check := FieldCheck { fc_c : string; fc_offset : Z; fc_size : option Z }.
Record struct_check := StructCheck { sc_c : string; sc_sizeof : option Z; sc_fields : list field_check }.

(** The values of a group and their checks. *)
Definition scalar_group (prefix : string) (entries : list (string * Z)) : list (string * Z) * list (string * Z) :=
  (entries, (fun p => (prefix +:+ p.1, p.2)) <$> entries).
Fixpoint field_checks (layout : list (string * ty)) (offset : Z) : list field_check :=
  match layout with
  | [] => []
  | (key, type) :: layout => FieldCheck key offset (Some (ty_size type)) :: field_checks layout (offset + ty_size type)
  end.
(** The schema of a struct, its check and its size. *)
Definition define_struct (c_type : string) (layout : list (string * ty)) (assert_sizeof : bool) : ty * struct_check * Z :=
  let offset := foldl (fun offset p => offset + ty_size p.2) 0 layout in
  (Struct layout, StructCheck c_type (if assert_sizeof then Some offset else None) (field_checks layout 0), offset).

(** A value of a group, by its name. *)
Definition entry (group : list (string * Z)) (name : string) : Z := default 0 (Bytes.assoc name group).

(** * Constants *)
Definition nr := scalar_group "__NR_"
  [("umount2", 39); ("mount", 40); ("openat", 56); ("close", 57); ("read", 63); ("write", 64); ("llseek", 62);
   ("fstatat64", 79); ("ftruncate64", 46); ("fsync", 82); ("getdents64", 61); ("mkdirat", 34); ("unlinkat", 35);
   ("renameat", 38); ("symlinkat", 36); ("readlinkat", 78); ("fchmodat", 53); ("fchownat", 54); ("kill", 129);
   ("getpid", 172)].
Definition NR : string → Z := entry nr.1.
Definition o := scalar_group "O_"
  [("RDONLY", 0); ("WRONLY", 1); ("RDWR", 2); ("CREAT", 64); ("EXCL", 128); ("TRUNC", 512); ("APPEND", 1024);
   ("NONBLOCK", 2048); ("DIRECTORY", 65536); ("CLOEXEC", 524288); ("PATH", 2097152)].
Definition O_ : string → Z := entry o.1.
Definition at_ := scalar_group "AT_" [("FDCWD", -100); ("SYMLINK_NOFOLLOW", 0x100); ("REMOVEDIR", 0x200)].
Definition AT : string → Z := entry at_.1.
Definition mount_flags := scalar_group "MS_" [("RDONLY", 1); ("BIND", 4096); ("REC", 16384)].
Definition unmount_flags := scalar_group "MNT_" [("FORCE", 1); ("DETACH", 2)].
Definition s_if := scalar_group "S_IF" [("MT", 61440); ("REG", 32768); ("DIR", 16384); ("LNK", 40960)].
Definition S_IF : string → Z := entry s_if.1.
Definition dt := scalar_group "DT_" [("REG", 8); ("DIR", 4); ("LNK", 10)].
Definition DT : string → Z := entry dt.1.
Definition e_ := scalar_group "E"
  [("PERM", 1); ("NOENT", 2); ("SRCH", 3); ("INTR", 4); ("IO", 5); ("2BIG", 7); ("BADF", 9); ("AGAIN", 11); ("NOMEM", 12);
   ("ACCES", 13); ("BUSY", 16); ("EXIST", 17); ("XDEV", 18); ("NOTDIR", 20); ("ISDIR", 21); ("INVAL", 22); ("NOSPC", 28);
   ("ROFS", 30); ("PIPE", 32); ("NAMETOOLONG", 36); ("NOSYS", 38); ("NOTEMPTY", 39); ("LOOP", 40); ("PROTO", 71);
   ("OVERFLOW", 75); ("CONNRESET", 104); ("ALREADY", 114)].
Definition E : string → Z := entry e_.1.
Definition sig := scalar_group "SIG" [("HUP", 1); ("INT", 2); ("QUIT", 3); ("KILL", 9); ("USR1", 10); ("USR2", 12); ("TERM", 15)].
Definition SIG : string → Z := entry sig.1.

(** [errno_names]: a later entry of the same number would replace an earlier. *)
Definition errno_names : gmap Z string := list_to_map (reverse ((fun p => (p.2, "E" +:+ p.1)) <$> e_.1)).
(** The [code] of a [SystemError]. *)
Definition error_code (errno : Z) : option string := errno_names !! errno.

(** * Structs *)
Definition stat_layout : list (string * ty) :=
  [("st_dev", U64LE); ("st_ino", U64LE); ("st_mode", U32LE); ("st_nlink", U32LE); ("st_uid", U32LE); ("st_gid", U32LE);
   ("st_rdev", U64LE); ("__pad1", U64LE); ("st_size", I64LE); ("st_blksize", I32LE); ("__pad2", I32LE); ("st_blocks", I64LE);
   ("st_atime", I32LE); ("st_atime_nsec", U32LE); ("st_mtime", I32LE); ("st_mtime_nsec", U32LE); ("st_ctime", I32LE);
   ("st_ctime_nsec", U32LE); ("__unused4", U32LE); ("__unused5", U32LE)].
Definition stat := define_struct "struct stat64" stat_layout true.
Definition Stat : ty := stat.1.1.
Definition stat_size : Z := stat.2.
Definition dirent := define_struct "struct dirent" [("d_ino", U64LE); ("d_off", I64LE); ("d_reclen", U16LE); ("d_type", U8)] false.
Definition Dirent : ty := dirent.1.1.
Definition dirent_name_offset : Z := dirent.2.
(** Its check, with the name's offset. *)
Definition dirent_check : struct_check :=
  StructCheck (sc_c dirent.1.2) (sc_sizeof dirent.1.2) (sc_fields dirent.1.2 ++ [FieldCheck "d_name" dirent_name_offset None]).

(** * Wait statuses *)
Definition WIFEXITED (status : Z) : bool := status &&& 0x7f =? 0.
Definition WEXITSTATUS (status : Z) : Z := (status &&& 0xff00) >>> 8.
Definition WIFSIGNALED (status : Z) : bool := to_u32 ((status &&& 0xffff) - 1) <? 0xff.
Definition WTERMSIG (status : Z) : Z := status &&& 0x7f.

(** * Directories *)
Record dir_entry := DirEntry { de_name : text; de_dtype : Z }.
(** The bytes up to the first NUL. *)
Fixpoint until_nul (l : list Z) : list Z :=
  match l with [] => [] | b :: l => if b =? 0 then [] else b :: until_nul l end.
Definition is_dot (name : text) : bool := bool_decide (name = lit "." ∨ name = lit "..").

(** The records take 19 bytes at least. *)
Fixpoint dirents_loop (fuel : nat) (buf : list Z) (offset : Z) (entries : list dir_entry) : outcome (list dir_entry) :=
  if offset + dirent_name_offset <=? zlen buf then
    match fuel with
    | O => Loops
    | S fuel =>
        header ← struct_read Dirent (subarray buf offset (zlen buf));
        let reclen := header.["d_reclen"] in
        if ((reclen <? dirent_name_offset) || (zlen buf <? offset + reclen))%bool
        then Raise (ProtocolError "malformed getdents64 record")
        else
          let dtype := header.["d_type"] in
          let limit := offset + reclen in
          match utf8_decode (until_nul (subarray buf (offset + dirent_name_offset) limit)) with
          | None => Raise (JsTypeError "The encoded data was not valid for encoding utf-8")
          | Some name =>
              dirents_loop fuel buf limit (if is_dot name then entries else entries ++ [DirEntry name dtype])
          end
    end
  else Done entries.
Definition parse_dirents (buf : list Z) : outcome (list dir_entry) := dirents_loop (length buf) buf 0 [].

(** * The checks and the codec agree *)
Lemma field_checks_read dv layout offset fs :
  NoDup layout.*1 → get_fields ty_get dv layout offset = Done fs →
  Forall (fun c => ∃ t v, Bytes.assoc (fc_c c) layout = Some t ∧ fc_size c = Some (ty_size t) ∧
    Bytes.assoc (fc_c c) fs = Some v ∧ ty_get t dv (fc_offset c) = Done v) (field_checks layout offset).
Proof.
  revert offset fs; induction layout as [|[k t] layout IH]; intros offset fs Hn Hf; cbn [field_checks]; [constructor|].
  rewrite fmap_cons in Hn. apply NoDup_cons in Hn as [Hk Hn]. cbn [get_fields] in Hf.
  destruct (ty_get t dv offset) as [v| |] eqn:Ev; [|done|done]. cbn [mbind outcome_bind] in Hf.
  destruct (get_fields ty_get dv layout (offset + ty_size t)) as [vs| |] eqn:Es; [|done|done]. injection Hf as <-.
  constructor.
  - exists t, v. cbn [fc_c fc_size fc_offset Bytes.assoc]. by rewrite String.eqb_refl.
  - specialize (IH _ _ Hn Es). clear -IH Hk. induction IH as [|c cs (t'&v'&H1&H2&H3&H4) _ IHc]; [constructor|].
    constructor; [|exact IHc]. exists t', v'. cbn [Bytes.assoc].
    destruct (String.eqb_spec (fc_c c) k) as [Ek|Hne]; [|done]. exfalso. apply Hk. rewrite Ek in H1.
    clear -H1. induction layout as [|[k' t''] layout IH]; [done|]. cbn in *.
    destruct (String.eqb_spec k k') as [->|]; [by left|right; by apply IH].
Qed.

(** The checks of a struct state what the codec does: where the check puts a
    field, at that offset and with that size, is where reading the struct reads it,
    and the size asserted is the size read. *)
Theorem define_struct_faithful c_type layout assert_sizeof buf v :
  NoDup layout.*1 →
  let '(schema, check, size) := define_struct c_type layout assert_sizeof in
  struct_read schema buf = Done v →
  size = ty_size schema ∧ (sc_sizeof check = Some size ∨ sc_sizeof check = None) ∧ (fc_c <$> sc_fields check) = layout.*1 ∧
  Forall (fun c => ∃ t w, Bytes.assoc (fc_c c) layout = Some t ∧ fc_size c = Some (ty_size t) ∧
    field v (fc_c c) = w ∧ ty_get t (dv_of buf) (fc_offset c) = Done w) (sc_fields check).
Proof.
  intros Hn. unfold define_struct. cbn zeta. intros Hr. cbn [sc_sizeof sc_fields]. split_and!.
  - cbn [ty_size]. clear. assert (Hg : ∀ a, foldl (fun offset p => offset + ty_size p.2) a layout = a + foldr (fun '(_, t) acc => ty_size t + acc) 0 layout).
    { induction layout as [|[k t] layout IH]; intros a; cbn; [lia|]. rewrite IH. lia. }
    rewrite Hg. lia.
  - destruct assert_sizeof; [by left|by right].
  - generalize 0. clear. induction layout as [|[k t] layout IH]; intros z; [done|]. cbn. by rewrite IH.
  - unfold struct_read in Hr. cbn [ty_get narrow Z.eqb mbind outcome_bind] in Hr.
    destruct (get_fields ty_get (dv_of buf) layout 0) as [fs| |] eqn:Ef; [|done|done]. injection Hr as <-.
    eapply Forall_impl; [by apply field_checks_read|]. intros c (t&w&H1&H2&H3&H4). exists t, w. split_and!; try done.
    cbn [field]. by rewrite H3.
Qed.
Lemma define_struct_faithful_witness :
  ∃ v, struct_read Stat (zeros stat_size) = Done v ∧ stat_size = ty_size Stat ∧ (fc_c <$> sc_fields stat.1.2) = stat_layout.*1.
Proof.
  eexists. split; [vm_compute; reflexivity|].
  destruct (define_struct_faithful "struct stat64" stat_layout true (zeros stat_size)
    (default Undef (done_of (struct_read Stat (zeros stat_size))))) as (H1&_&H2&_);
    [apply (bool_decide_unpack _); vm_compute; exact I|vm_compute; reflexivity|]. exact (conj H1 H2).
Defined.

(** * Directories *)

(** A record of the kernel's: [linux_dirent64] with its name, the NUL and padding. *)
Record kernel_dirent := KernelDirent { kd_ino : Z; kd_off : Z; kd_type : Z; kd_name : list Z; kd_pad : list Z }.
Definition reclen (d : kernel_dirent) : Z := dirent_name_offset + zlen (kd_name d) + 1 + zlen (kd_pad d).
Definition dirent_value (d : kernel_dirent) : value :=
  Obj [("d_ino", Num (kd_ino d)); ("d_off", Num (kd_off d)); ("d_reclen", Num (reclen d)); ("d_type", Num (kd_type d))].
Definition dirent_bytes (d : kernel_dirent) : list Z := enc Dirent (dirent_value d) ++ kd_name d ++ 0 :: kd_pad d.
Record dirent_ok (d : kernel_dirent) : Prop := {
  do_ino : 0 ≤ kd_ino d < 2 ^ 64; do_off : - 2 ^ 63 ≤ kd_off d < 2 ^ 63; do_type : 0 ≤ kd_type d < 256;
  do_reclen : reclen d < 65536; do_name : 0 ∉ kd_name d; do_text : is_Some (utf8_decode (kd_name d)) }.
Definition dirent_entry (d : kernel_dirent) : list dir_entry :=
  let name := default [] (utf8_decode (kd_name d)) in if is_dot name then [] else [DirEntry name (kd_type d)].

Lemma typed_i64le z : - 2 ^ 63 ≤ z < 2 ^ 63 → typed I64LE (Num z) = true.
Proof.
  intros H. change (- 2 ^ 63) with (- 2 ^ (8 * 8 - 1)) in H. change (2 ^ 63) with (2 ^ (8 * 8 - 1)) in H.
  cbn [typed]. unfold widths_ok, sc_in_range, sc_bits. cbn [sc_width sc_signed]. apply andb_true_intro; split; [done|].
  apply andb_true_intro; split; [apply Z.leb_le|apply Z.ltb_lt]; apply H.
Qed.
Lemma dirent_typed d : dirent_ok d → typed Dirent (dirent_value d) = true.
Proof.
  intros [H1 H2 H3 H4 _ _]. assert (0 ≤ reclen d) by (unfold reclen, dirent_name_offset, zlen; cbn; lia). unfold Dirent, dirent_value.
  cbn [dirent define_struct fst]. typed_struct; try lia. by apply typed_i64le.
Qed.
Lemma until_nul_name n pad : (0 ∉ n) → until_nul (n ++ 0 :: pad) = n.
Proof.
  induction n as [|b n IH]; intros Hn; [done|]. apply not_elem_of_cons in Hn as [Hb Hn]. cbn [app until_nul].
  destruct (Z.eqb_spec b 0); [congruence|]. by rewrite IH.
Qed.
Lemma dirent_size d : dirent_ok d → zlen (dirent_bytes d) = reclen d.
Proof.
  intros Hd. unfold dirent_bytes, reclen. rewrite !zlen_app, zlen_cons, zlen_enc by by apply dirent_typed.
  change (ty_size Dirent) with dirent_name_offset. lia.
Qed.
Lemma dirents_loop_spec ds pre tail fuel acc :
  Forall dirent_ok ds → zlen tail < dirent_name_offset → (length ds ≤ fuel)%nat →
  dirents_loop fuel (pre ++ concat (dirent_bytes <$> ds) ++ tail) (zlen pre) acc = Done (acc ++ (ds ≫= dirent_entry)).
Proof.
  intros Hds. revert pre fuel acc; induction Hds as [|d ds Hd _ IH]; intros pre fuel acc Ht Hf.
  - cbn [fmap list_fmap concat app]. rewrite app_nil_r. pose proof (zlen_nonneg tail).
    assert (E : (zlen pre + dirent_name_offset <=? zlen (pre ++ tail)) = false) by (rewrite zlen_app; apply Z.leb_gt; lia).
    destruct fuel; cbn [dirents_loop]; by rewrite E.
  - destruct fuel as [|fuel]; [cbn in Hf; lia|]. cbn [fmap list_fmap concat]. set (rest := concat (dirent_bytes <$> ds) ++ tail).
    rewrite <- app_assoc. fold rest. set (buf := pre ++ dirent_bytes d ++ rest).
    assert (Hz : zlen buf = zlen pre + reclen d + zlen rest) by (unfold buf; rewrite !zlen_app, dirent_size by done; lia).
    assert (Hr : dirent_name_offset < reclen d) by (unfold reclen; pose proof (zlen_nonneg (kd_name d)); pose proof (zlen_nonneg (kd_pad d)); lia).
    pose proof (zlen_nonneg rest). pose proof (zlen_nonneg pre). cbn [dirents_loop].
    rewrite (proj2 (Z.leb_le _ _)) by lia.
    assert (E1 : subarray buf (zlen pre) (zlen buf) = enc Dirent (dirent_value d) ++ (kd_name d ++ 0 :: kd_pad d) ++ rest).
    { rewrite subarray_clamp, zlen_to_nat by lia. unfold buf. rewrite drop_app_length. unfold dirent_bytes. by rewrite <- !app_assoc. }
    rewrite E1, struct_read_enc by by apply dirent_typed. cbn [mbind outcome_bind].
    change ((dirent_value d).["d_reclen"]) with (reclen d). change ((dirent_value d).["d_type"]) with (kd_type d).
    destruct (Z.ltb_spec (reclen d) dirent_name_offset); [lia|]. destruct (Z.ltb_spec (zlen buf) (zlen pre + reclen d)); [lia|]. cbn [orb].
    assert (E2 : subarray buf (zlen pre + dirent_name_offset) (zlen pre + reclen d) = kd_name d ++ 0 :: kd_pad d).
    { assert (Hd' := dirent_typed d Hd). unfold subarray. rewrite !Z2Nat.inj_add, zlen_to_nat by (change dirent_name_offset with 19 in *; lia).
      unfold buf, dirent_bytes. rewrite <- drop_drop, drop_app_length, <- app_assoc.
      replace (Z.to_nat dirent_name_offset) with (length (enc Dirent (dirent_value d))) by (by rewrite length_enc).
      rewrite drop_app_length. apply take_app_length'. rewrite length_enc, length_app by done. cbn [length].
      change (ty_size Dirent) with 19. unfold reclen, zlen. change dirent_name_offset with 19. lia. }
    rewrite E2, until_nul_name by apply Hd. destruct (do_text _ Hd) as [name En]. rewrite En.
    replace buf with ((pre ++ dirent_bytes d) ++ rest) by (by unfold buf; rewrite app_assoc).
    replace (zlen pre + reclen d) with (zlen (pre ++ dirent_bytes d)) by (rewrite zlen_app, dirent_size by done; lia).
    unfold rest. rewrite IH by (try done; cbn in Hf; lia). cbn [mbind list_bind]. unfold dirent_entry at 2. rewrite En. cbn [default from_option id].
    destruct (is_dot name); [done|by rewrite <- app_assoc].
Qed.
(** The names and types of the records the kernel wrote come back in their
    order, less the dot entries; fewer than 19 bytes after them are ignored. *)
Theorem parse_dirents_records ds tail :
  Forall dirent_ok ds → zlen tail < dirent_name_offset →
  parse_dirents (concat (dirent_bytes <$> ds) ++ tail) = Done (ds ≫= dirent_entry).
Proof.
  intros Hds Ht. unfold parse_dirents. pose proof (dirents_loop_spec ds [] tail (length (concat (dirent_bytes <$> ds) ++ tail)) [] Hds Ht) as H.
  apply H. clear H Ht. rewrite length_app. induction Hds as [|d ds Hd _ IH]; [cbn; lia|]. cbn [fmap list_fmap concat length]. rewrite length_app.
  pose proof (dirent_size d Hd) as Hz. unfold reclen, zlen in Hz. change dirent_name_offset with 19 in Hz. lia.
Qed.
Lemma parse_dirents_records_witness :
  parse_dirents (concat (dirent_bytes <$> [KernelDirent 1 1 4 (lit ".") []; KernelDirent 7 2 8 (lit "a.txt") [0; 0; 0]]) ++ [1; 2]) =
  Done [DirEntry (lit "a.txt") 8].
Proof.
  apply (parse_dirents_records [KernelDirent 1 1 4 (lit ".") []; KernelDirent 7 2 8 (lit "a.txt") [0; 0; 0]] [1; 2]); [|done].
  repeat constructor; try (vm_compute; (discriminate || reflexivity || (eexists; reflexivity)));
    apply (bool_decide_unpack _); vm_compute; exact I.
Defined.

(** Whatever the buffer, the walk ends: every record moves on by 19 bytes at least. *)
Theorem parse_dirents_ends buf : parse_dirents buf ≠ Loops.
Proof.
  unfold parse_dirents. assert (Hg : ∀ fuel o acc, 0 ≤ o → zlen buf - o ≤ Z.of_nat fuel → dirents_loop fuel buf o acc ≠ Loops).
  { induction fuel as [|fuel IH]; intros o acc Ho Hf; cbn [dirents_loop]; change dirent_name_offset with 19 in *;
      destruct (Z.leb_spec (o + 19) (zlen buf)); try done; [lia|].
    destruct (struct_read_ok Dirent (subarray buf o (zlen buf))) as [v ->].
    { rewrite zlen_subarray by lia. change (ty_size Dirent) with 19. lia. }
    cbn [mbind outcome_bind]. destruct (Z.ltb_spec (v.["d_reclen"]) 19); [done|]. cbn [orb].
    destruct (_ <? _); [done|]. destruct (utf8_decode _); [|done]. apply IH; lia. }
  apply Hg; [lia|unfold zlen; lia].
Qed.
(** A record too short, one that runs past the buffer, and a name that is no UTF-8. *)
Example malformed_dirents :
  parse_dirents (zeros 19) = Raise (ProtocolError "malformed getdents64 record") ∧
  parse_dirents (enc Dirent (dirent_value (KernelDirent 1 1 8 (lit "file") []))) = Raise (ProtocolError "malformed getdents64 record") ∧
  raises (parse_dirents (dirent_bytes (KernelDirent 1 1 8 [255] []))) = true.
Proof. vm_compute. done. Qed.

(** * Wait statuses *)

Definition exit_status_ok (code : Z) : bool :=
  let s := code <<< 8 in (WIFEXITED s && negb (WIFSIGNALED s) && (WEXITSTATUS s =? code))%bool.
Definition kill_status_ok (core signal : Z) : bool :=
  let s := signal ||| core in (negb (WIFEXITED s) && WIFSIGNALED s && (WTERMSIG s =? signal))%bool.
(** An exited process is told from a killed one: of a status the kernel reports,
    exactly one of the two holds, with the code or the signal it was made of. *)
Theorem wait_status_decodes code signal core :
  0 ≤ code < 256 → 0 < signal < 127 → core = 0 ∨ core = 0x80 →
  (let s := code <<< 8 in WIFEXITED s = true ∧ WIFSIGNALED s = false ∧ WEXITSTATUS s = code) ∧
  (let s := signal ||| core in WIFEXITED s = false ∧ WIFSIGNALED s = true ∧ WTERMSIG s = signal).
Proof.
  intros Hc Hs Hcore.
  assert (H1 : exit_status_ok code = true) by (by apply (below_seq exit_status_ok 256); [vm_compute; reflexivity|]).
  assert (H2 : (kill_status_ok core (1 + (signal - 1))) = true).
  { apply (below_seq (fun z => kill_status_ok core (1 + z)) 126); [|lia]. destruct Hcore as [-> | ->]; vm_compute; reflexivity. }
  unfold exit_status_ok in H1. unfold kill_status_ok in H2. replace (1 + (signal - 1)) with signal in H2 by lia. cbv zeta in *. zbool.
  split_and!; try done.
Qed.
