(* ===== verification/Syscalls.v ===== *)
(** The guest syscall table: packages/linux-guest/src/syscalls.ts, the host's side
    of a lane. The agent's side is in Agent.v.

    What a function passed to [exchange] does with its lane is a [lane_prog], the
    writes and the reads it makes in turn; a [Peer] says what happens on the other
    side. The session's own part in an exchange is in Conn.v. *)
From S2P Require Export Abi Conn.

Definition CHUNK : Z := 32 * 1024.
Definition MAX_BLOB : Z := 128 * 1024.
Definition REQ_SYSCALL : Z := 1.
Definition REQ_SPAWN : Z := 2.
Definition REQ_REAP : Z := 3.
Definition ARG_SCALAR : Z := 0.
Definition ARG_IN : Z := 1.
Definition ARG_OUT_FULL : Z := 2.
Definition ARG_OUT_RET : Z := 3.

Definition SyscallReq_layout : list (string * ty) :=
  [("kind", U8); ("nr", U32LE); ("arg_kinds", FixedArray U8 6); ("arg_values", FixedArray U64LE 6)].
Definition SyscallReq : ty := Struct SyscallReq_layout.
Definition ReplyHead : ty := Struct [("ret", I64LE); ("errno", U32LE)].
Definition SpawnReply : ty := Struct [("pid", U32LE); ("stdin", U32LE); ("stdout", U32LE); ("stderr", U32LE)].

(** * Programs on a lane *)
Inductive lane_prog (A : Type) : Type :=
| Return (a : A) | Fail (e : exn)
| Write (bytes : list Z) (k : lane_prog A) | Read (length : Z) (k : list Z → lane_prog A).
Arguments Return {A} a.
Arguments Fail {A} e.
Arguments Write {A} bytes k.
Arguments Read {A} length k.
#[export] Instance lane_ret : MRet lane_prog := @Return.
#[export] Instance lane_bind : MBind lane_prog := fun A B f =>
  fix bind m :=
    match m with
    | Return a => f a
    | Fail e => Fail e
    | Write bytes k => Write bytes (bind k)
    | Read length k => Read length (fun l => bind (k l))
    end.
Definition lane_write (bytes : list Z) : lane_prog unit := Write bytes (Return tt).
Definition lane_get (length : Z) : lane_prog (list Z) := Read length Return.
Definition lane_lift {A} (o : outcome A) : lane_prog A :=
  match o with Done a => Return a | Raise e => Fail e | Loops => Fail (JsError "unreachable") end.

(** The other side of a lane: a [read] gives what has come of the bytes asked for,
    or waits for ever. *)
Class Peer (P : Type) := { peer_write : list Z → M P unit; peer_read : Z → M P (list Z) }.
Section peer.
Context {P : Type} `{!Peer P}.

Fixpoint run_lane {A} (prog : lane_prog A) : M P A :=
  match prog with
  | Return a => mret a
  | Fail e => throw e
  | Write bytes k => peer_write bytes ;; run_lane k
  | Read length k => bytes ← peer_read length; bytes ← lift (lane_read length (Done bytes)); run_lane (k bytes)
  end.
End peer.

(** * Requests *)

(** A [GuestFd], with what its [#close] promise came to. *)
Record guest_fd := GuestFd { gf_fd : Z; gf_path : option text; gf_close : option (outcome unit) }.
#[export] Instance guest_fd_eta : Eta guest_fd := fun f => GuestFd (gf_fd f) (gf_path f) (gf_close f).
Definition guest_fd_new (fd : Z) (path : option text) : guest_fd := GuestFd fd path None.

Inductive arg := ArgNumber (n : Z) | ArgFd (fd : guest_fd) | ArgIn (bytes : list Z) | ArgOut (out : Z) (ret_sized : bool).

(** The offset of an element of a field that is an array. *)
Fixpoint field_offset (key : string) (layout : list (string * ty)) : Z :=
  match layout with
  | [] => 0
  | (k, t) :: layout => if String.eqb key k then 0 else ty_size t + field_offset key layout
  end.
(** [head.value.key[i] = v]: the array has six elements and is frozen. *)
Definition set_element (head : Z) (key : string) (t : ty) (i : nat) (v : Z) : M buf unit :=
  if (i <? 6)%nat then alloc_set t (head + field_offset key SyscallReq_layout + ty_size t * Z.of_nat i) (Num v)
  else throw (JsTypeError "object is not extensible").
Definition set_arg (head : Z) (i : nat) (kind v : Z) : M buf unit :=
  set_element head "arg_kinds" U8 i kind ;; set_element head "arg_values" U64LE i v.
Definition set_one (head : Z) (i : nat) (a : arg) : M buf (list (Z * bool)) :=
  match a with
  | ArgNumber n => set_arg head i ARG_SCALAR (to_u64 n) ;; mret []
  | ArgFd fd => set_arg head i ARG_SCALAR (to_u64 (gf_fd fd)) ;; mret []
  | ArgIn bytes =>
      if MAX_BLOB <? zlen bytes then throw (RangeError "in-blob exceeds MAX_BLOB")
      else set_arg head i ARG_IN (zlen bytes) ;; append bytes ;; mret []
  | ArgOut out ret_sized =>
      if MAX_BLOB <? out then throw (RangeError "out capacity exceeds MAX_BLOB")
      else set_arg head i (if ret_sized then ARG_OUT_RET else ARG_OUT_FULL) out ;; mret [(out, ret_sized)]
  end.
Fixpoint set_args (head : Z) (i : nat) (args : list arg) : M buf (list (Z * bool)) :=
  match args with
  | [] => mret []
  | a :: args => out ← set_one head i a; outs ← set_args head (S i) args; mret (out ++ outs)
  end.
(** The request, and what is to be read of its reply. *)
Definition syscall_request (number : Z) (args : list arg) : outcome (list Z * list (Z * bool)) :=
  match (head ← alloc SyscallReq;
         alloc_set SyscallReq head (Obj [("kind", Num REQ_SYSCALL)]) ;;
         alloc_set SyscallReq head (Obj [("nr", Num number)]) ;;
         set_args head 0 args) (bytes_new (ty_size SyscallReq)) with
  | (Done outs, request) => Done (array request, outs)
  | (Raise e, _) => Raise e
  | (Loops, _) => Loops
  end.

(** * Replies *)
Definition out_length (ret : Z) (spec : Z * bool) : Z := if spec.2 then Z.min spec.1 (Z.max 0 ret) else spec.1.
Fixpoint read_outs (ret : Z) (outs : list (Z * bool)) : lane_prog (list (list Z)) :=
  match outs with
  | [] => Return []
  | spec :: outs => bytes ← lane_get (out_length ret spec); rest ← read_outs ret outs; Return (bytes :: rest)
  end.
Definition read_head : lane_prog (Z * Z) :=
  bytes ← lane_get (ty_size ReplyHead);
  reply ← lane_lift (struct_read ReplyHead bytes);
  Return (reply.["ret"], reply.["errno"]).
Definition syscall_exchange (request : list Z) (outs : list (Z * bool)) : lane_prog (Z * Z * list (list Z)) :=
  lane_write request ;;
  '(ret, errno) ← read_head;
  if ret =? -1 then Return (ret, errno, [])
  else out ← read_outs ret outs; Return (ret, errno, out).

Section calls.
Context {P : Type} `{!Peer P}.

Definition syscall (number : Z) (args : list arg) : M P (Z * list (list Z)) :=
  '(request, outs) ← lift (syscall_request number args);
  '(ret, errno, out) ← run_lane (syscall_exchange request outs);
  if ret =? -1 then throw (SystemError errno) else mret (ret, out).
Definition out0 (out : list (list Z)) : list Z := default [] (head out).

(** [close()] of a [GuestFd]: the first call makes the promise, all have it. *)
Definition close : M (P * guest_fd) unit := fun '(p, fd) =>
  match gf_close fd with
  | Some o => (o, (p, fd))
  | None =>
      let '(o, p) := (syscall (NR "close") [ArgFd fd] ;; mret tt) p in
      (o, (p, fd <| gf_close := Some o |>))
  end.

Definition c_string (s : text) : arg := ArgIn (utf8_encode (s ++ [0])).
Definition nullable_c_string (s : option text) : arg := match s with None => ArgNumber 0 | Some s => c_string s end.

(** * The table *)
Definition openat (path : text) (flags mode : Z) : M P guest_fd :=
  '(ret, _) ← syscall (NR "openat") [ArgNumber (AT "FDCWD"); c_string path; ArgNumber flags; ArgNumber mode];
  mret (guest_fd_new ret (Some path)).
Definition read (fd : guest_fd) (capacity : Z) : M P (list Z) :=
  '(_, out) ← syscall (NR "read") [ArgFd fd; ArgOut capacity true; ArgNumber capacity];
  mret (out0 out).
Definition write (fd : guest_fd) (data : list Z) : M P Z :=
  '(ret, _) ← syscall (NR "write") [ArgFd fd; ArgIn data; ArgNumber (zlen data)];
  mret ret.
Definition llseek (fd : guest_fd) (offset whence : Z) : M P Z :=
  let off := to_u64 offset in
  '(_, out) ← syscall (NR "llseek") [ArgFd fd; ArgNumber (off >>> 32); ArgNumber (off &&& 0xffffffff); ArgOut 8 false; ArgNumber whence];
  v ← lift (ty_get I64LE (dv_of (out0 out)) 0);
  mret (num v).
Definition ftruncate64 (fd : guest_fd) (length : Z) : M P unit :=
  let len := to_u64 length in
  syscall (NR "ftruncate64") [ArgFd fd; ArgNumber (len &&& 0xffffffff); ArgNumber (len >>> 32)] ;; mret tt.
Definition fsync (fd : guest_fd) : M P unit := syscall (NR "fsync") [ArgFd fd] ;; mret tt.
Definition getdents64 (fd : guest_fd) (capacity : Z) : M P (list Z) :=
  '(_, out) ← syscall (NR "getdents64") [ArgFd fd; ArgOut capacity true; ArgNumber capacity];
  mret (out0 out).
Definition fstatat64 (path : text) (flags : Z) : M P value :=
  '(_, out) ← syscall (NR "fstatat64") [ArgNumber (AT "FDCWD"); c_string path; ArgOut stat_size false; ArgNumber flags];
  lift (struct_read Stat (out0 out)).
Definition mkdirat (path : text) (mode : Z) : M P unit :=
  syscall (NR "mkdirat") [ArgNumber (AT "FDCWD"); c_string path; ArgNumber mode] ;; mret tt.
Definition unlinkat (path : text) (flags : Z) : M P unit :=
  syscall (NR "unlinkat") [ArgNumber (AT "FDCWD"); c_string path; ArgNumber flags] ;; mret tt.
Definition renameat (from to : text) : M P unit :=
  syscall (NR "renameat") [ArgNumber (AT "FDCWD"); c_string from; ArgNumber (AT "FDCWD"); c_string to] ;; mret tt.
Definition symlinkat (target path : text) : M P unit :=
  syscall (NR "symlinkat") [c_string target; ArgNumber (AT "FDCWD"); c_string path] ;; mret tt.
Definition readlinkat (path : text) (capacity : Z) : M P (list Z) :=
  '(_, out) ← syscall (NR "readlinkat") [ArgNumber (AT "FDCWD"); c_string path; ArgOut capacity true; ArgNumber capacity];
  mret (out0 out).
Definition fchmodat (path : text) (mode : Z) : M P unit :=
  syscall (NR "fchmodat") [ArgNumber (AT "FDCWD"); c_string path; ArgNumber mode; ArgNumber 0] ;; mret tt.
Definition fchownat (path : text) (uid gid : Z) : M P unit :=
  syscall (NR "fchownat") [ArgNumber (AT "FDCWD"); c_string path; ArgNumber uid; ArgNumber gid; ArgNumber 0] ;; mret tt.
Definition mount (source : option text) (target : text) (type : option text) (flags : Z) (data : option text) : M P unit :=
  syscall (NR "mount") [nullable_c_string source; c_string target; nullable_c_string type; ArgNumber flags; nullable_c_string data] ;;
  mret tt.
Definition umount2 (target : text) (flags : Z) : M P unit :=
  syscall (NR "umount2") [c_string target; ArgNumber flags] ;; mret tt.
Definition kill (pid signal : Z) : M P unit := syscall (NR "kill") [ArgNumber pid; ArgNumber signal] ;; mret tt.
Definition getpid : M P Z := '(ret, _) ← syscall (NR "getpid") []; mret ret.

(** * Processes *)
Record spawned := Spawned { sp_pid : Z; sp_stdin : guest_fd; sp_stdout : guest_fd; sp_stderr : guest_fd }.
Definition write_string (s : text) : M buf unit :=
  let bytes := utf8_encode s in Bytes.emit U32LE (Num (zlen bytes)) ;; append bytes.
Fixpoint write_strings (l : list text) : M buf unit :=
  match l with [] => mret tt | s :: l => write_string s ;; write_strings l end.
Definition write_payload (argv : list text) (cwd : text) (env : list text) : M buf unit :=
  Bytes.emit U32LE (Num (zlen argv)) ;; write_strings argv ;; write_string cwd ;;
  Bytes.emit U32LE (Num (zlen env)) ;; write_strings env.
Definition built {A} (m : M buf A) : outcome (list Z) :=
  match m (bytes_new 32) with (Done _, b) => Done (array b) | (Raise e, _) => Raise e | (Loops, _) => Loops end.
Definition spawn_request (argv : list text) (cwd : text) (env : list text) : outcome (list Z) :=
  payload ← built (write_payload argv cwd env);
  built (Bytes.emit U8 (Num REQ_SPAWN) ;; Bytes.emit U32LE (Num (zlen payload)) ;; append payload).
(** The errno, or the reply's body. *)
Definition spawn_exchange (request : list Z) : lane_prog (Z + value) :=
  lane_write request ;;
  '(ret, errno) ← read_head;
  if ret =? -1 then Return (inl errno)
  else bytes ← lane_get (ty_size SpawnReply); body ← lane_lift (struct_read SpawnReply bytes); Return (inr body).
Definition spawn (argv : list text) (cwd : text) (env : list text) : M P spawned :=
  request ← lift (spawn_request argv cwd env);
  result ← run_lane (spawn_exchange request);
  match result with
  | inl errno => throw (SystemError errno)
  | inr body =>
      let named suffix := Some (default (lit "undefined") (head argv) ++ lit suffix) in
      mret (Spawned body.["pid"] (guest_fd_new body.["stdin"] (named ":stdin"))
        (guest_fd_new body.["stdout"] (named ":stdout")) (guest_fd_new body.["stderr"] (named ":stderr")))
  end.
Definition reap_request (pid : Z) : outcome (list Z) :=
  built (Bytes.emit U8 (Num REQ_REAP) ;; Bytes.emit U32LE (Num pid)).
Definition reap_exchange (request : list Z) : lane_prog (Z + Z) :=
  lane_write request ;;
  '(ret, errno) ← read_head;
  if ret =? -1 then Return (inl errno)
  else body ← lane_get 4; v ← lane_lift (ty_get U32LE (dv_of body) 0); Return (inr (num v)).
Definition reap (pid : Z) : M P Z :=
  request ← lift (reap_request pid);
  result ← run_lane (reap_exchange request);
  match result with inl errno => throw (SystemError errno) | inr status => mret status end.
End calls.
