(* ===== verification/Agent.v ===== *)
(** The guest's agent: the serving of a lane, of distro/guest-agent/agent.c, and the
    theorems that the host's calls (Syscalls.v) over the wire are calls of the
    guest's kernel.

    The kernel and the agent's table of processes are a parameter. A lane is served
    by one thread, which blocks until the bytes it reads have come: as what it does
    before a request is complete has no effect, a request is served when all of it
    has come. Allocations succeed. *)
From S2P Require Export Syscalls.

Definition max_spawn_payload : Z := 4 * 1024 * 1024.
Definition max_string : Z := 4096.
Definition max_arguments : Z := 256.
Definition max_environment : Z := 256.
Definition EINVAL : Z := 22.

Definition load_u32 (p : list Z) : Z := le_decode (take 4 p).
Definition load_u64 (p : list Z) : Z := le_decode (take 8 p).
Definition store_u32 (z : Z) : list Z := le_encode 4 (to_u32 z).
Definition store_u64 (z : Z) : list Z := le_encode 8 (to_u64 z).

(** An argument as the kernel is given it: a number of 32 bits, a pointer to the
    bytes of an in-blob, or one to a buffer. *)
Inductive karg := KNumber (n : Z) | KIn (bytes : list Z) | KOut (capacity : Z).

(** What the kernel answers: the result, the errno and what the buffers then hold.
    [k_reap] has no answer while the process runs. *)
Class Kernel (W : Type) := {
  k_syscall : Z → list karg → W → Z * Z * list (list Z) * W;
  k_spawn : list (list Z) → list Z → list (list Z) → W → (Z + Z * Z * Z * Z) * W;
  k_reap : Z → W → option ((Z + Z) * W) }.

(** * Serving a request

    A request is read off the bytes that have come. *)
Inductive served (A : Type) := Got (a : A) (rest : list Z) | Ends | WaitsMore.
Arguments Got {A} a rest.
Arguments Ends {A}.
Arguments WaitsMore {A}.
Definition serving (A : Type) : Type := list Z → served A.
#[export] Instance serving_ret : MRet serving := fun A a input => Got a input.
#[export] Instance serving_bind : MBind serving := fun A B f m input =>
  match m input with Got a rest => f a rest | Ends => Ends | WaitsMore => WaitsMore end.
Definition read_all (length : Z) : serving (list Z) := fun input =>
  if length <=? zlen input then Got (take (Z.to_nat length) input) (drop (Z.to_nat length) input) else WaitsMore.
Definition ends {A} : serving A := fun _ => Ends.

(** An argument of a syscall, with how much of a buffer is sent back. *)
Inductive agent_arg := AScalar (n : Z) | AIn (bytes : list Z) | AOut (capacity : Z) (ret_sized : bool).
Definition read_arg (kind value : Z) : serving agent_arg :=
  if kind =? ARG_SCALAR then mret (AScalar (to_u32 value))
  else if kind =? ARG_IN then
    if MAX_BLOB <? value then ends else bytes ← read_all value; mret (AIn bytes)
  else if ((kind =? ARG_OUT_FULL) || (kind =? ARG_OUT_RET))%bool then
    if MAX_BLOB <? value then ends else mret (AOut value (kind =? ARG_OUT_RET))
  else ends.
Fixpoint read_args (hdr : list Z) (n i : nat) : serving (list agent_arg) :=
  match n with
  | O => mret []
  | S n =>
      a ← read_arg (default 0 (hdr !! (4 + i)%nat)) (load_u64 (drop (10 + 8 * i) hdr));
      args ← read_args hdr n (S i);
      mret (a :: args)
  end.
Definition karg_of (a : agent_arg) : karg :=
  match a with AScalar n => KNumber n | AIn bytes => KIn bytes | AOut capacity _ => KOut capacity end.
(** The buffers, and what of each is sent. *)
Definition capacities (args : list agent_arg) : list (Z * bool) :=
  omap (fun a => match a with AOut capacity r => Some (capacity, r) | _ => None end) args.
Definition taken (ret : Z) (spec : Z * bool) : Z :=
  if spec.2 then (if 0 <=? ret then Z.min ret spec.1 else 0) else spec.1.
Definition send_outs (ret : Z) (specs : list (Z * bool)) (outs : list (list Z)) : list Z :=
  concat (zip_with (fun spec out => take (Z.to_nat (taken ret spec)) out) specs outs).
Definition write_reply (ret err : Z) : list Z := store_u64 ret ++ store_u32 err.

Section agent.
Context {W : Type} `{!Kernel W}.

Definition serve_syscall (w : W) : serving (list Z * W) :=
  hdr ← read_all 58;
  let nr := load_u32 hdr in
  args ← read_args hdr 6 0;
  let '(ret, errno, outs, w) := k_syscall nr (karg_of <$> args) w in
  let err := if ret =? -1 then errno else 0 in
  mret (write_reply ret err ++ (if ret =? -1 then [] else send_outs ret (capacities args) outs), w).

(** ** Spawning *)
Definition cursor (A : Type) : Type := list Z → option (A * list Z).
#[export] Instance cursor_ret : MRet cursor := fun A a c => Some (a, c).
#[export] Instance cursor_bind : MBind cursor := fun A B f m c =>
  match m c with Some (a, c) => f a c | None => None end.
Definition invalid {A} : cursor A := fun _ => None.
Definition cursor_u32 : cursor Z := fun c => if zlen c <? 4 then None else Some (load_u32 c, drop 4 c).
Definition cursor_bytes (length : Z) : cursor (list Z) := fun c =>
  if ((max_string <? length) || (zlen c <? length))%bool then None
  else if bool_decide (0 ∈ take (Z.to_nat length) c) then None
  else Some (take (Z.to_nat length) c, drop (Z.to_nat length) c).
Definition cursor_string : cursor (list Z) := length ← cursor_u32; cursor_bytes length.
Definition cursor_end {A} (a : A) : cursor A := fun c => if bool_decide (c = []) then Some (a, []) else None.
Fixpoint cursor_strings (check : list Z → bool) (n : nat) : cursor (list (list Z)) :=
  match n with
  | O => mret []
  | S n => s ← cursor_string; if check s then (l ← cursor_strings check n; mret (s :: l)) else invalid
  end.
Definition has_equals (s : list Z) : bool := bool_decide (61 ∈ s).
Definition parse_spawn : cursor (list (list Z) * list Z * list (list Z)) :=
  argc ← cursor_u32;
  if ((argc <? 1) || (max_arguments <? argc))%bool then invalid
  else
    argv ← cursor_strings (fun _ => true) (Z.to_nat argc);
    cwd ← cursor_string;
    envc ← cursor_u32;
    if max_environment <? envc then invalid
    else
      envp ← cursor_strings has_equals (Z.to_nat envc);
      cursor_end (argv, cwd, envp).
Definition serve_spawn (w : W) : serving (list Z * W) :=
  len ← read_all 4;
  if max_spawn_payload <? load_u32 len then ends
  else
    payload ← read_all (load_u32 len);
    match parse_spawn payload with
    | None => mret (write_reply (-1) EINVAL, w)
    | Some (argv, cwd, envp, _) =>
        let '(r, w) := k_spawn argv cwd envp w in
        mret (match r with
              | inl err => write_reply (-1) err
              | inr (pid, stdin, stdout, stderr) =>
                  write_reply 0 0 ++ store_u32 pid ++ store_u32 stdin ++ store_u32 stdout ++ store_u32 stderr
              end, w)
    end.
Definition waits {A} : serving A := fun _ => WaitsMore.
Definition serve_reap (w : W) : serving (list Z * W) :=
  pid ← read_all 4;
  match k_reap (load_u32 pid) w with
  | None => waits
  | Some (inl err, w) => mret (write_reply (-1) err, w)
  | Some (inr status, w) => mret (write_reply 0 0 ++ store_u32 status, w)
  end.

(** ** The lane *)
Definition serve_request (w : W) : serving (list Z * W) :=
  kind ← read_all 1;
  let kind := default 0 (head kind) in
  if kind =? REQ_SYSCALL then serve_syscall w
  else if kind =? REQ_SPAWN then serve_spawn w
  else if kind =? REQ_REAP then serve_reap w
  else ends.
(** A lane past its handshake: the bytes that have come, those that were sent and
    the host has yet to read, and whether it is still served. *)
Record lane := Lane { ln_in : list Z; ln_out : list Z; ln_open : bool; ln_world : W }.

(** [serve_lane]: every request takes a byte at least. *)
Fixpoint serve_lane (fuel : nat) (l : lane) : lane :=
  match fuel with
  | O => l
  | S fuel =>
      match serve_request (ln_world l) (ln_in l) with
      | Got (out, w) rest => serve_lane fuel (Lane rest (ln_out l ++ out) true w)
      | Ends => Lane [] (ln_out l) false (ln_world l)
      | WaitsMore => l
      end
  end.
(** The lane as the host's peer: the agent serves what it can of what is written;
    a read of more than was sent has what there is once the lane has ended. *)
#[export] Instance lane_peer : Peer lane := {
  peer_write bytes := fun l =>
    if ln_open l then
      let input := ln_in l ++ bytes in
      (Done tt, serve_lane (S (length input)) (Lane input (ln_out l) true (ln_world l)))
    else (Raise (JsError "vsock connection is closed"), l);
  peer_read length := fun l =>
    if ((length <=? zlen (ln_out l)) || negb (ln_open l))%bool
    then (Done (take (Z.to_nat length) (ln_out l)), Lane (ln_in l) (drop (Z.to_nat length) (ln_out l)) (ln_open l) (ln_world l))
    else (Loops, l) }.
(** A lane between two exchanges. *)
Definition idle_lane (w : W) : lane := Lane [] [] true w.
End agent.
Arguments lane W : clear implicits.

(** * The bytes of a request *)
Definition arg_kind (a : arg) : Z :=
  match a with ArgNumber _ | ArgFd _ => ARG_SCALAR | ArgIn _ => ARG_IN | ArgOut _ r => if r then ARG_OUT_RET else ARG_OUT_FULL end.
Definition arg_value (a : arg) : Z :=
  match a with ArgNumber n => to_u64 n | ArgFd fd => to_u64 (gf_fd fd) | ArgIn bytes => zlen bytes | ArgOut out _ => out end.
Definition arg_blob (a : arg) : list Z := match a with ArgIn bytes => bytes | _ => [] end.
Definition arg_out (a : arg) : list (Z * bool) := match a with ArgOut out r => [(out, r)] | _ => [] end.
Definition arg_ok (a : arg) : Prop :=
  match a with ArgIn bytes => zlen bytes ≤ MAX_BLOB | ArgOut out _ => 0 ≤ out ≤ MAX_BLOB | _ => True end.
Definition padded (l : list Z) : list Z := l ++ replicate (6 - length l) 0.
(** A buffer that holds a request with these kinds and values, and these blobs. *)
Definition request_head (number : Z) (kinds values : list Z) : list Z :=
  [REQ_SYSCALL] ++ le_encode 4 number ++ kinds ++ concat (le_encode 8 <$> values).
Definition request_bytes (number : Z) (args : list arg) : list Z :=
  request_head number (padded (arg_kind <$> args)) (padded (arg_value <$> args)) ++ concat (arg_blob <$> args).

Lemma arg_value_range a : arg_ok a → 0 ≤ arg_value a < 2 ^ 64.
Proof.
  assert (∀ n, 0 ≤ to_u64 n < 2 ^ 64) by (intros n; by apply Z.mod_pos_bound).
  destruct a; cbn; unfold MAX_BLOB, zlen; intros; try done; lia.
Qed.
Lemma enc_u64 z : 0 ≤ z < 2 ^ 64 → enc U64LE (Num z) = le_encode 8 z.
Proof. intros Hz. change (enc U64LE (Num z)) with (le_encode 8 (z mod 2 ^ 64)). by rewrite Z.mod_small. Qed.
Lemma enc_u32 z : 0 ≤ z < 2 ^ 32 → enc U32LE (Num z) = le_encode 4 z.
Proof. intros Hz. change (enc U32LE (Num z)) with (le_encode 4 (z mod 2 ^ 32)). by rewrite Z.mod_small. Qed.
Lemma enc_u8 z : 0 ≤ z < 256 → enc U8 (Num z) = [z].
Proof. intros Hz. change (enc U8 (Num z)) with [(z mod 256) mod 256]. rewrite !(Z.mod_small z) by lia. done. Qed.
Lemma length_words (values : list Z) : length (concat (le_encode 8 <$> values)) = (8 * length values)%nat.
Proof. induction values as [|v values IH]; [done|]. cbn [fmap list_fmap concat length]. rewrite length_app, length_le_encode. lia. Qed.
Lemma length_head number kinds values : length (request_head number kinds values) = (5 + length kinds + 8 * length values)%nat.
Proof. unfold request_head. rewrite !length_app, length_words, length_le_encode. cbn. lia. Qed.
Lemma splice_at (a : list Z) b c src n : n = length a → length src = length b → splice (a ++ b ++ c) n src = a ++ src ++ c.
Proof. intros -> Hb. by apply splice_app_l. Qed.
Lemma split_at {A} (l : list A) i : (i < length l)%nat → ∃ l1 x l2, l = l1 ++ [x] ++ l2 ∧ length l1 = i ∧ ∀ v, <[i := v]> l = l1 ++ [v] ++ l2.
Proof.
  intros Hi. apply lookup_lt_is_Some in Hi as [x Hx]. exists (take i l), x, (drop (S i) l).
  pose proof (lookup_lt_Some _ _ _ Hx). split_and!; [symmetry; by apply take_drop_middle|rewrite length_take; lia|].
  intros v. by rewrite insert_take_drop.
Qed.
Lemma set_kind_bytes number kinds values rest i v : (i < length kinds)%nat →
  splice (request_head number kinds values ++ rest) (5 + i) [v] = request_head number (<[i := v]> kinds) values ++ rest.
Proof.
  intros Hi. destruct (split_at kinds i Hi) as (l1&x&l2&->&Hl&->). unfold request_head.
  replace (([REQ_SYSCALL] ++ le_encode 4 number ++ (l1 ++ [x] ++ l2) ++ concat (le_encode 8 <$> values)) ++ rest)
    with (([REQ_SYSCALL] ++ le_encode 4 number ++ l1) ++ [x] ++ (l2 ++ concat (le_encode 8 <$> values) ++ rest)) by (by rewrite <- !app_assoc).
  rewrite splice_at; [by rewrite <- !app_assoc| |done]. rewrite !length_app, length_le_encode. cbn. lia.
Qed.
Lemma set_value_bytes number kinds values rest i v : (i < length values)%nat →
  splice (request_head number kinds values ++ rest) (5 + length kinds + 8 * i) (le_encode 8 v) =
  request_head number kinds (<[i := v]> values) ++ rest.
Proof.
  intros Hi. destruct (split_at values i Hi) as (l1&x&l2&->&Hl&->). unfold request_head. rewrite !fmap_app, !concat_app. cbn [fmap list_fmap concat].
  rewrite !app_nil_r.
  replace (([REQ_SYSCALL] ++ le_encode 4 number ++ kinds ++ concat (le_encode 8 <$> l1) ++ le_encode 8 x ++ concat (le_encode 8 <$> l2)) ++ rest)
    with (([REQ_SYSCALL] ++ le_encode 4 number ++ kinds ++ concat (le_encode 8 <$> l1)) ++ le_encode 8 x ++ (concat (le_encode 8 <$> l2) ++ rest))
    by (by rewrite <- !app_assoc).
  rewrite splice_at; [by rewrite <- !app_assoc| |by rewrite !length_le_encode]. rewrite !length_app, length_words, length_le_encode. cbn. lia.
Qed.
Ltac by_decide := apply (bool_decide_unpack _); vm_compute; exact I.
Lemma length_padded l : (length l ≤ 6)%nat → length (padded l) = 6%nat.
Proof. intros Hl. unfold padded. rewrite length_app, length_replicate. lia. Qed.
Lemma padded_insert l v : (length l < 6)%nat → <[length l := v]> (padded l) = padded (l ++ [v]).
Proof.
  intros Hl. unfold padded. rewrite length_app. cbn [length]. replace (6 - length l)%nat with (S (6 - (length l + 1))) by lia.
  rewrite replicate_S, insert_app_r_alt, Nat.sub_diag by lia. cbn [insert list_insert]. by rewrite <- app_assoc.
Qed.
Lemma set_arg_builds number kinds values rest i k v :
  length kinds = 6%nat → length values = 6%nat → (i < 6)%nat → 0 ≤ k < 256 → 0 ≤ v < 2 ^ 64 →
  builds (set_arg 0 i k v) (request_head number kinds values ++ rest) tt (request_head number (<[i := k]> kinds) (<[i := v]> values) ++ rest).
Proof.
  intros Hk Hv Hi Hkr Hvr. unfold set_arg, set_element. rewrite (proj2 (Nat.ltb_lt i 6)) by done.
  change (field_offset "arg_kinds" SyscallReq_layout) with 5. change (field_offset "arg_values" SyscallReq_layout) with 11.
  change (ty_size U8) with 1. change (ty_size U64LE) with 8.
  assert (Hlen : ∀ ks vs, length ks = 6%nat → length vs = 6%nat → zlen (request_head number ks vs ++ rest) = 59 + zlen rest).
  { intros ks vs H1 H2. rewrite zlen_app. unfold zlen at 1. rewrite length_head. lia. }
  pose proof (zlen_nonneg rest). eapply builds_bind.
  - apply builds_alloc_set; [by apply typed_u8|lia|]. rewrite Hlen by done. change (ty_size U8) with 1. lia.
  - rewrite enc_u8 by done. replace (Z.to_nat (0 + 5 + 1 * Z.of_nat i)) with (5 + i)%nat by lia. rewrite set_kind_bytes by lia.
    replace (request_head number (<[i := k]> kinds) (<[i := v]> values) ++ rest) with
      (splice (request_head number (<[i := k]> kinds) values ++ rest) (Z.to_nat (0 + 11 + 8 * Z.of_nat i)) (enc U64LE (Num v))).
    + apply builds_alloc_set; [by apply typed_u64le|lia|]. rewrite Hlen by (rewrite ?length_insert; done). change (ty_size U64LE) with 8. lia.
    + rewrite enc_u64 by done. rewrite <- (set_value_bytes number (<[i := k]> kinds) values rest i v) by lia. f_equal.
      rewrite length_insert. lia.
Qed.
Lemma set_one_builds number before a : (length before < 6)%nat → arg_ok a →
  builds (set_one 0 (length before) a) (request_bytes number before) (arg_out a) (request_bytes number (before ++ [a])).
Proof.
  intros Hb Ha. assert (Hk : 0 ≤ arg_kind a < 256) by (destruct a as [| | |? []]; vm_compute; done). pose proof (arg_value_range a Ha) as Hv.
  assert (Hset : builds (set_arg 0 (length before) (arg_kind a) (arg_value a)) (request_bytes number before) tt
    (request_head number (padded (arg_kind <$> before ++ [a])) (padded (arg_value <$> before ++ [a])) ++ concat (arg_blob <$> before))).
  { rewrite !fmap_app. cbn [fmap list_fmap]. rewrite <- !padded_insert by (rewrite length_fmap; lia). rewrite !length_fmap.
    apply set_arg_builds; try done; apply length_padded; rewrite length_fmap; lia. }
  assert (Hblob : concat (arg_blob <$> before ++ [a]) = concat (arg_blob <$> before) ++ arg_blob a)
    by (rewrite fmap_app, concat_app; cbn; by rewrite app_nil_r).
  unfold request_bytes at 2. rewrite Hblob.
  destruct a as [n|fd|bytes|out r]; cbn [set_one arg_out arg_kind arg_value arg_blob arg_ok] in *;
    rewrite ?app_nil_r; try (eapply builds_bind; [exact Hset|apply builds_ret]).
  - destruct (Z.ltb_spec MAX_BLOB (zlen bytes)); [lia|]. eapply builds_bind; [exact Hset|]. eapply builds_bind; [apply builds_append|].
    rewrite <- app_assoc. apply builds_ret.
  - destruct (Z.ltb_spec MAX_BLOB out); [lia|]. eapply builds_bind; [exact Hset|apply builds_ret].
Qed.
Lemma set_args_builds number before args : (length before + length args ≤ 6)%nat → Forall arg_ok args →
  builds (set_args 0 (length before) args) (request_bytes number before) (args ≫= arg_out) (request_bytes number (before ++ args)).
Proof.
  revert before; induction args as [|a args IH]; intros before Hl Ha; cbn [set_args].
  - rewrite app_nil_r. apply builds_ret.
  - apply Forall_cons in Ha as [Ha Has]. cbn [length] in Hl. eapply builds_bind; [apply set_one_builds; [lia|done]|].
    eapply builds_bind; [|apply builds_ret]. specialize (IH (before ++ [a])). rewrite length_app in IH. cbn [length] in IH.
    rewrite Nat.add_1_r, <- app_assoc in IH. apply IH; [lia|done].
Qed.
Lemma syscall_request_eq number args :
  0 ≤ number < 2 ^ 32 → (length args ≤ 6)%nat → Forall arg_ok args →
  syscall_request number args = Done (request_bytes number args, args ≫= arg_out).
Proof.
  intros Hn Hl Ha. unfold syscall_request. set (m := mbind _ _).
  assert (Hm : builds m [] (args ≫= arg_out) (request_bytes number args)).
  { unfold m. eapply builds_bind; [apply builds_alloc|]. change (zlen []) with 0. cbn [app].
    eapply builds_bind.
    { apply (builds_alloc_set_field _ [] "kind" U8 (tail SyscallReq_layout) (Num REQ_SYSCALL) 0);
        [by_decide|by_decide|by apply typed_u8|done|vm_compute; discriminate]. }
    eapply builds_bind.
    { apply (builds_alloc_set_field _ [("kind", U8)] "nr" U32LE (drop 2 SyscallReq_layout) (Num number) 0);
        [by_decide|by_decide|by apply typed_u32le|done|vm_compute; discriminate]. }
    rewrite enc_u32 by done.
    replace (splice _ _ (le_encode 4 number)) with (request_bytes number []).
    - apply (set_args_builds number [] args); [cbn; lia|done].
    - unfold request_bytes, request_head. cbn. done. }
  destruct (builds_run m (ty_size SyscallReq) (args ≫= arg_out) (request_bytes number args)) as (b&->&Hb); [vm_compute; reflexivity|done|].
  by rewrite Hb.
Qed.

(** * The agent reads the request *)
Definition agent_arg_of (a : arg) : agent_arg :=
  match a with
  | ArgNumber n => AScalar (to_u32 (to_u64 n))
  | ArgFd fd => AScalar (to_u32 (to_u64 (gf_fd fd)))
  | ArgIn bytes => AIn bytes
  | ArgOut out r => AOut out r
  end.
(** The six arguments of a call; those not given are 0. *)
Definition six (args : list arg) : list arg := args ++ replicate (6 - length args) (ArgNumber 0).

Lemma six_padded (f : arg → Z) args : f (ArgNumber 0) = 0 → padded (f <$> args) = f <$> six args.
Proof. intros Hf. unfold padded, six. by rewrite fmap_app, length_fmap, fmap_replicate, Hf. Qed.
Lemma six_blobs args : concat (arg_blob <$> six args) = concat (arg_blob <$> args).
Proof.
  unfold six. rewrite fmap_app, concat_app, fmap_replicate. cbn [arg_blob]. generalize (6 - length args)%nat. intros n.
  replace (concat (replicate n [])) with (@nil Z) by (induction n; [done|cbn; auto]). apply app_nil_r.
Qed.
Lemma six_ok args : Forall arg_ok args → Forall arg_ok (six args).
Proof. intros H. apply Forall_app. split; [done|]. by apply Forall_replicate. Qed.
Lemma length_six args : (length args ≤ 6)%nat → length (six args) = 6%nat.
Proof. intros H. unfold six. rewrite length_app, length_replicate. lia. Qed.

Lemma read_all_app bytes rest n : n = zlen bytes → read_all n (bytes ++ rest) = Got bytes rest.
Proof.
  intros ->. unfold read_all. rewrite zlen_app, zlen_to_nat, take_app_length, drop_app_length.
  pose proof (zlen_nonneg rest). by rewrite (proj2 (Z.leb_le _ _)) by lia.
Qed.
Lemma take_le_encode n z rest : 0 ≤ z < 256 ^ Z.of_nat n → le_decode (take n (le_encode n z ++ rest)) = z.
Proof. intros Hz. rewrite take_app_length' by (by rewrite length_le_encode). by apply le_decode_encode. Qed.
Lemma serving_got {A B} (m : serving A) (k : A → serving B) input a rest : m input = Got a rest → (m ≫= k) input = k a rest.
Proof. unfold mbind, serving_bind. by intros ->. Qed.
Lemma read_arg_spec a rest : arg_ok a → read_arg (arg_kind a) (arg_value a) (arg_blob a ++ rest) = Got (agent_arg_of a) rest.
Proof.
  intros Ha. destruct a as [n|fd|bytes|out r]; cbn [arg_ok arg_kind arg_value arg_blob agent_arg_of] in *.
  - done.
  - done.
  - unfold read_arg. cbn [Z.eqb ARG_IN ARG_SCALAR Pos.eqb]. destruct (Z.ltb_spec MAX_BLOB (zlen bytes)); [lia|].
    erewrite serving_got by (by apply read_all_app). done.
  - unfold read_arg. destruct (Z.ltb_spec MAX_BLOB out); [lia|]. by destruct r.
Qed.
Lemma words_at (values : list Z) i v rest : values !! i = Some v → 0 ≤ v < 2 ^ 64 →
  load_u64 (drop (8 * i) (concat (le_encode 8 <$> values) ++ rest)) = v.
Proof.
  intros Hv Hr. rewrite <- (take_drop_middle values i v Hv), fmap_app, concat_app. cbn [fmap list_fmap concat].
  rewrite <- !app_assoc. pose proof (lookup_lt_Some _ _ _ Hv).
  replace (8 * i)%nat with (length (concat (le_encode 8 <$> take i values))) by (rewrite length_words, length_take; lia).
  rewrite drop_app_length. by apply take_le_encode.
Qed.
Definition request_hdr (number : Z) (args : list arg) : list Z :=
  le_encode 4 number ++ (arg_kind <$> args) ++ concat (le_encode 8 <$> (arg_value <$> args)).
Lemma hdr_kind number args i a : args !! i = Some a → request_hdr number args !! (4 + i)%nat = Some (arg_kind a).
Proof.
  intros Ha. unfold request_hdr. rewrite lookup_app_r by (rewrite length_le_encode; lia). rewrite length_le_encode, Nat.add_comm, Nat.add_sub.
  rewrite lookup_app_l by (rewrite length_fmap; by eapply lookup_lt_Some). by rewrite list_lookup_fmap, Ha.
Qed.
Lemma hdr_value number args i a : length args = 6%nat → args !! i = Some a → arg_ok a →
  load_u64 (drop (10 + 8 * i) (request_hdr number args)) = arg_value a.
Proof.
  intros Hl Ha Hok. unfold request_hdr. rewrite app_assoc, <- drop_drop.
  replace 10%nat with (length (le_encode 4 number ++ (arg_kind <$> args))) by (rewrite length_app, length_le_encode, length_fmap; lia).
  rewrite drop_app_length, <- (app_nil_r (concat _)). apply words_at; [by rewrite list_lookup_fmap, Ha|by apply arg_value_range].
Qed.
Lemma read_args_spec number args n i rest : length args = 6%nat → Forall arg_ok args → (i + n = 6)%nat →
  read_args (request_hdr number args) n i (concat (arg_blob <$> drop i args) ++ rest) = Got (agent_arg_of <$> drop i args) rest.
Proof.
  intros Hl Hok. revert i; induction n as [|n IH]; intros i Hi; cbn [read_args].
  - by rewrite drop_ge by lia.
  - destruct (lookup_lt_is_Some_2 args i) as [a Ha]; [lia|]. assert (Hoka : arg_ok a) by (rewrite Forall_lookup in Hok; by eapply Hok).
    rewrite (hdr_kind number args i a Ha), (hdr_value number args i a Hl Ha Hoka). cbn [default from_option id].
    rewrite (drop_S args a i Ha). cbn [fmap list_fmap concat]. rewrite <- app_assoc.
    erewrite serving_got by (by apply read_arg_spec). erewrite serving_got by (apply IH; lia). done.
Qed.

(** * A call over the wire is a call of the kernel

    What a kernel keeps to: results and errnos of 32 bits, buffers of their size. *)
Definition buffers (args : list karg) : list Z := omap (fun a => if a is KOut capacity then Some capacity else None) args.
Class KernelOk (W : Type) `{!Kernel W} : Prop := {
  ko_syscall : ∀ number args w ret errno outs w',
    Forall (fun capacity => 0 ≤ capacity) (buffers args) → k_syscall number args w = (ret, errno, outs, w') →
    - 2 ^ 31 ≤ ret < 2 ^ 31 ∧ 0 ≤ errno < 2 ^ 32 ∧ zlen <$> outs = buffers args;
  ko_spawn : ∀ argv cwd envp w r w', k_spawn argv cwd envp w = (r, w') →
    match r with
    | inl err => 0 ≤ err < 2 ^ 32
    | inr (pid, stdin, stdout, stderr) => Forall (fun z => 0 ≤ z < 2 ^ 32) [pid; stdin; stdout; stderr]
    end;
  ko_reap : ∀ pid w r w', k_reap pid w = Some (r, w') →
    match r with inl err => 0 ≤ err < 2 ^ 32 | inr status => 0 ≤ status < 2 ^ 32 end }.

(** What [syscall] does, as a call of the kernel. *)
Definition kargs (args : list arg) : list karg := (karg_of ∘ agent_arg_of) <$> six args.
Definition call_kernel {W} `{!Kernel W} (number : Z) (args : list arg) : M W (Z * list (list Z)) := fun w =>
  let '(ret, errno, outs, w) := k_syscall number (kargs args) w in
  (if ret =? -1 then Raise (SystemError errno)
   else Done (ret, zip_with (fun spec out => take (Z.to_nat (out_length ret spec)) out) (args ≫= arg_out) outs), w).

Section refinement.
Context {W : Type} `{!Kernel W} `{!KernelOk W}.

Lemma out_length_taken ret spec : 0 ≤ spec.1 → out_length ret spec = taken ret spec ∧ 0 ≤ taken ret spec ≤ spec.1.
Proof using. intros H. unfold out_length, taken. destruct spec as [c []]; cbn in *; [|lia]. destruct (Z.leb_spec 0 ret); lia. Qed.
Lemma reply_read ret err : - 2 ^ 63 ≤ ret < 2 ^ 63 → 0 ≤ err < 2 ^ 32 →
  struct_read ReplyHead (write_reply ret err) = Done (Obj [("ret", Num ret); ("errno", Num err)]).
Proof using.
  intros Hr He. set (v := Obj [("ret", Num ret); ("errno", Num err)]). assert (Ht : typed ReplyHead v = true).
  { unfold ReplyHead, v. typed_struct; [by apply typed_i64le|done]. }
  assert (Hw : write_reply ret err = enc ReplyHead v) by (reflexivity).
  rewrite Hw, <- (app_nil_r (enc _ _)). by apply struct_read_enc.
Qed.
Lemma zlen_write_reply ret err : zlen (write_reply ret err) = ty_size ReplyHead.
Proof using. unfold write_reply, store_u64, store_u32, zlen. by rewrite length_app, !length_le_encode. Qed.

Lemma M_bind_eq {S A B} (m : M S A) (f : A → M S B) s :
  (m ≫= f) s = match m s with (Done a, s) => f a s | (Raise e, s) => (Raise e, s) | (Loops, s) => (Loops, s) end.
Proof using. done. Qed.
Lemma run_lane_bind {A B} (m : lane_prog A) (f : A → lane_prog B) (l : lane W) : run_lane (m ≫= f) l = (run_lane m ≫= fun a => run_lane (f a)) l.
Proof using.
  revert l; induction m as [a|e|bytes m IH|n k IH]; intros l; [done..| |].
  - change (Write bytes m ≫= f) with (Write bytes (m ≫= f)). cbn [run_lane]. rewrite !M_bind_eq.
    destruct (peer_write bytes l) as [[[]|e|] l']; [|done..]. rewrite IH. by rewrite M_bind_eq.
  - change (Read n k ≫= f) with (Read n (fun x => k x ≫= f)). cbn [run_lane]. rewrite !M_bind_eq.
    destruct (peer_read n l) as [[bytes|e|] l']; [|done..]. rewrite !M_bind_eq.
    unfold lift. destruct (lane_read n (Done bytes)); [|done..]. rewrite IH. by rewrite M_bind_eq.
Qed.
Lemma read_lane n bytes rest (w : W) : n = zlen bytes →
  run_lane (lane_get n) (Lane [] (bytes ++ rest) true w) = (Done bytes, Lane [] rest true w).
Proof using.
  intros ->. unfold lane_get. cbn [run_lane peer_read lane_peer]. unfold mbind, M_bind. cbn [ln_out ln_open ln_in ln_world].
  rewrite zlen_app. pose proof (zlen_nonneg rest). rewrite (proj2 (Z.leb_le _ _)) by lia. cbn [orb].
  rewrite zlen_to_nat, take_app_length, drop_app_length. unfold lane_read, lift. cbn [mbind outcome_bind]. by rewrite Z.eqb_refl.
Qed.
Lemma run_bind {A B} (m : lane_prog A) (f : A → lane_prog B) (l l' : lane W) a :
  run_lane m l = (Done a, l') → run_lane (m ≫= f) l = run_lane (f a) l'.
Proof using. intros H. rewrite run_lane_bind. by erewrite M_bind_done by exact H. Qed.
Lemma read_outs_spec ret specs outs rest (w : W) : Forall (fun spec => 0 ≤ spec.1) specs → zlen <$> outs = specs.*1 →
  run_lane (read_outs ret specs) (Lane [] (send_outs ret specs outs ++ rest) true w) =
  (Done (zip_with (fun spec out => take (Z.to_nat (out_length ret spec)) out) specs outs), Lane [] rest true w).
Proof using.
  intros Hs. revert outs; induction Hs as [|spec specs Hc _ IH]; intros outs Ho; [done|].
  destruct outs as [|out outs]; [done|]. injection Ho as Hz Ho. destruct (out_length_taken ret spec Hc) as [E Ht].
  unfold send_outs in *. cbn [zip_with concat read_outs]. rewrite <- app_assoc.
  erewrite run_bind by (apply read_lane; rewrite E, zlen_take; lia). erewrite run_bind by (by apply IH). by rewrite E.
Qed.
Lemma head_spec ret err rest (w : W) : - 2 ^ 63 ≤ ret < 2 ^ 63 → 0 ≤ err < 2 ^ 32 →
  run_lane read_head (Lane [] (write_reply ret err ++ rest) true w) = (Done (ret, err), Lane [] rest true w).
Proof using.
  intros Hr He. unfold read_head. erewrite run_bind by (apply read_lane; by rewrite zlen_write_reply).
  by rewrite reply_read by done.
Qed.
(** The agent answers a complete request, and waits for the next. *)
Lemma write_served request out w w' : 0 < zlen request → serve_request w request = Got (out, w') [] →
  run_lane (lane_write request) (idle_lane w) = (Done tt, Lane [] out true w').
Proof using.
  intros Hz Hs. unfold lane_write. cbn [run_lane peer_write lane_peer]. unfold mbind, M_bind. cbn [idle_lane ln_open ln_in ln_out ln_world].
  cbn [app]. destruct request as [|b request]; [done|]. cbn [length]. set (n := length request).
  change (serve_lane (S (S n))) with (fun l : lane W => match serve_request (ln_world l) (ln_in l) with
    | Got (out, w) rest => serve_lane (S n) (Lane rest (ln_out l ++ out) true w)
    | Ends => Lane [] (ln_out l) false (ln_world l)
    | WaitsMore => l end). cbv beta. cbn [ln_world ln_in ln_out]. rewrite Hs. done.
Qed.
Lemma request_bytes_eq number args : (length args ≤ 6)%nat →
  request_bytes number args = [REQ_SYSCALL] ++ request_hdr number (six args) ++ concat (arg_blob <$> six args).
Proof using.
  intros Hl. unfold request_bytes, request_head, request_hdr. rewrite !(six_padded _ args) by done. by rewrite six_blobs, <- !app_assoc.
Qed.
Lemma zlen_request_hdr number args : length args = 6%nat → zlen (request_hdr number args) = 58.
Proof using. intros Hl. unfold request_hdr, zlen. rewrite !length_app, length_words, length_le_encode, !length_fmap. lia. Qed.
Lemma capacities_of args : capacities (agent_arg_of <$> args) = args ≫= arg_out.
Proof using. induction args as [|a args IH]; [done|]. unfold capacities in *. cbn. rewrite IH. by destruct a. Qed.
Lemma six_outs args : six args ≫= arg_out = args ≫= arg_out.
Proof using.
  unfold six. rewrite bind_app. replace (replicate _ (ArgNumber 0) ≫= arg_out) with (@nil (Z * bool)); [by rewrite app_nil_r|].
  generalize (6 - length args)%nat. intros n. induction n as [|n IH]; [done|exact IH].
Qed.
Lemma buffers_of args : buffers ((karg_of ∘ agent_arg_of) <$> args) = (args ≫= arg_out).*1.
Proof using.
  induction args as [|a args IH]; [done|]. unfold buffers in *. cbn. rewrite IH. by destruct a.
Qed.
Lemma outs_nonneg args : Forall arg_ok args → Forall (fun spec => 0 ≤ spec.1) (args ≫= arg_out).
Proof using.
  induction 1 as [|a args Ha _ IH]; [done|]. cbn. apply Forall_app. split; [|exact IH].
  destruct a; cbn in *; try done. apply Forall_singleton. cbn. lia.
Qed.

(** What the agent sends for a call, given what the kernel answered. *)
Definition reply_bytes (ret errno : Z) (specs : list (Z * bool)) (outs : list (list Z)) : list Z :=
  write_reply ret (if ret =? -1 then errno else 0) ++ (if ret =? -1 then [] else send_outs ret specs outs).
Lemma serve_syscall_request number args w ret errno outs w' :
  0 ≤ number < 2 ^ 32 → (length args ≤ 6)%nat → Forall arg_ok args →
  k_syscall number (kargs args) w = (ret, errno, outs, w') →
  serve_request w (request_bytes number args) = Got (reply_bytes ret errno (args ≫= arg_out) outs, w') [].
Proof using.
  intros Hn Hl Hok Hk. rewrite request_bytes_eq by done. unfold serve_request.
  erewrite serving_got by (by apply read_all_app). cbn [head default from_option id].
  change (REQ_SYSCALL =? REQ_SYSCALL) with true. cbv iota. unfold serve_syscall.
  erewrite serving_got by (apply read_all_app; symmetry; apply zlen_request_hdr; by apply length_six).
  erewrite serving_got.
  2:{ rewrite <- (app_nil_r (concat _)). apply (read_args_spec number (six args) 6 0); [by apply length_six|by apply six_ok|done]. }
  rewrite drop_0, <- list_fmap_compose, capacities_of, six_outs.
  replace (load_u32 (request_hdr number (six args))) with number by (unfold load_u32, request_hdr; rewrite take_le_encode by lia; done).
  unfold kargs in Hk. rewrite Hk. done.
Qed.

Lemma exchange_spec request ret errno specs outs w w' :
  0 < zlen request → serve_request w request = Got (reply_bytes ret errno specs outs, w') [] →
  - 2 ^ 31 ≤ ret < 2 ^ 31 → 0 ≤ errno < 2 ^ 32 → Forall (fun spec => 0 ≤ spec.1) specs → zlen <$> outs = specs.*1 →
  run_lane (syscall_exchange request specs) (idle_lane w) =
  (Done (if ret =? -1 then (ret, errno, [])
         else (ret, 0, zip_with (fun spec out => take (Z.to_nat (out_length ret spec)) out) specs outs)), idle_lane w').
Proof using.
  intros Hz Hs Hr He Hn Ho. unfold syscall_exchange. erewrite run_bind by (by eapply write_served).
  unfold reply_bytes. erewrite run_bind by (apply head_spec; [lia|destruct (ret =? -1); lia]).
  cbv beta iota. destruct (ret =? -1); [done|].
  erewrite run_bind by (rewrite <- (app_nil_r (send_outs _ _ _)); by apply read_outs_spec). done.
Qed.

Lemma syscall_lane number args w :
  0 ≤ number < 2 ^ 32 → (length args ≤ 6)%nat → Forall arg_ok args →
  syscall number args (idle_lane w) = let '(o, w') := call_kernel number args w in (o, idle_lane w').
Proof using W Kernel0 KernelOk0.
  intros Hn Hl Hok. unfold syscall, call_kernel. rewrite syscall_request_eq by done.
  destruct (k_syscall number (kargs args) w) as [[[ret errno] outs] w'] eqn:Hk.
  assert (Hb : Forall (fun capacity => 0 ≤ capacity) (buffers (kargs args))).
  { unfold kargs. rewrite buffers_of, six_outs. apply Forall_fmap. by apply outs_nonneg. }
  destruct (ko_syscall _ _ _ _ _ _ _ Hb Hk) as (Hr&He&Ho).
  erewrite M_bind_done by done. cbv beta iota. erewrite M_bind_done.
  2:{ apply exchange_spec; [|by eapply serve_syscall_request|done|done|by apply outs_nonneg|].
      - rewrite request_bytes_eq, zlen_app by done. pose proof (zlen_nonneg (request_hdr number (six args) ++ concat (arg_blob <$> six args))).
        change (zlen [REQ_SYSCALL]) with 1. lia.
      - by rewrite Ho, <- six_outs, <- buffers_of. }
  cbv beta iota. destruct (ret =? -1) eqn:E; rewrite ?E; done.
Qed.

(** C8: over the wire, a system call is one call of the guest's kernel: the agent
    gives the kernel the call's number and its arguments, and the host then has the
    kernel's result with the bytes its buffers came to hold, or its errno; the lane
    is left as it was found, ready for the next exchange. *)
Theorem syscall_refines number args w :
  0 ≤ number < 2 ^ 32 → (length args ≤ 6)%nat → Forall arg_ok args →
  syscall number args (idle_lane w) = let '(o, w') := call_kernel number args w in (o, idle_lane w').
Proof using W Kernel0 KernelOk0.
  intros Hn Hl Hok. rewrite syscall_lane by done. by destruct (call_kernel number args w).
Qed.
End refinement.

(** A kernel that counts its calls: a read fills its buffer, a spawn gives the next
    process, and anything else is not there. *)
#[export] Instance counting_kernel : Kernel Z := {
  k_syscall number args w :=
    if number =? NR "read" then (5, 0, (fun capacity => replicate (Z.to_nat capacity) 7) <$> buffers args, w + 1)
    else (-1, 38, (fun capacity => replicate (Z.to_nat capacity) 0) <$> buffers args, w);
  k_spawn argv cwd envp w := (inr (to_u32 w, 4, 5, 6), w + 1);
  k_reap pid w := if pid <? w then Some (inr 256, w) else None }.
#[export] Instance counting_kernel_ok : KernelOk Z.
Proof.
  split.
  - intros number args w ret errno outs w' Hb E. cbn in E.
    assert (Hf : ∀ z : Z, zlen (A:=Z) <$> ((fun capacity => replicate (Z.to_nat capacity) z) <$> buffers args) = buffers args).
    { intros z. revert Hb; generalize (buffers args) as caps; intros caps Hb. induction Hb as [|c l Hc _ IH]; [done|]. cbn. rewrite IH. unfold zlen. by rewrite length_replicate, Z2Nat.id by exact Hc. }
    destruct (number =? 63); injection E as <- <- <- <-; rewrite Hf; (split; [lia|split; [lia|done]]).
  - intros argv cwd envp w r w' E. injection E as <- <-. rewrite !Forall_cons, Forall_nil. pose proof (Z.mod_pos_bound w (2 ^ 32)). unfold to_u32. lia.
  - intros pid w r w' E. cbn in E. destruct (pid <? w); [|done]. by injection E as <- <-.
Qed.
Lemma syscall_refines_witness :
  syscall (NR "read") [ArgFd (guest_fd_new 3 None); ArgOut 8 true; ArgNumber 8] (idle_lane (W := Z) 0) =
    (let '(o, w') := call_kernel (NR "read") [ArgFd (guest_fd_new 3 None); ArgOut 8 true; ArgNumber 8] (0 : Z) in (o, idle_lane w')) ∧
  call_kernel (NR "read") [ArgFd (guest_fd_new 3 None); ArgOut 8 true; ArgNumber 8] (0 : Z) = (Done (5, [replicate 5 7]), 1).
Proof.
  split; [|vm_compute; reflexivity]. apply (syscall_refines (W := Z) (NR "read")); [split; [vm_compute; discriminate|reflexivity]|cbn; lia|].
  rewrite !Forall_cons, Forall_nil. cbn [arg_ok]. unfold MAX_BLOB. split_and!; exact I || lia.
Defined.
