(* ===== verification/AgentSpawn.v ===== *)
(** Processes over a lane: a spawn and a reap of syscalls.ts, served by agent.c.

    The host writes the payload with a [bytes] buffer, the agent parses it; the
    agent takes it exactly when its limits hold, and the kernel is then given what
    the host was. *)
From S2P Require Export Agent.

(** * The payload *)
Definition string_bytes (s : text) : list Z := le_encode 4 (zlen (utf8_encode s)) ++ utf8_encode s.
Definition payload_bytes (argv : list text) (cwd : text) (env : list text) : list Z :=
  le_encode 4 (zlen argv) ++ concat (string_bytes <$> argv) ++ string_bytes cwd ++
  le_encode 4 (zlen env) ++ concat (string_bytes <$> env).
Definition spawn_bytes (payload : list Z) : list Z := [REQ_SPAWN] ++ le_encode 4 (zlen payload) ++ payload.

Lemma builds_u32 l z : 0 ≤ z < 2 ^ 32 → builds (Bytes.emit U32LE (Num z)) l (zlen l) (l ++ le_encode 4 z).
Proof. intros Hz. rewrite <- (enc_u32 z) by done. apply builds_emit. by apply typed_u32le. Qed.
Lemma write_string_builds l s : zlen (string_bytes s) < 2 ^ 32 → builds (write_string s) l tt (l ++ string_bytes s).
Proof.
  intros Hs. unfold string_bytes in *. rewrite zlen_app in Hs. pose proof (zlen_nonneg (utf8_encode s)). pose proof (zlen_nonneg (le_encode 4 (zlen (utf8_encode s)))).
  eapply builds_bind; [apply builds_u32; lia|]. rewrite app_assoc. apply builds_append.
Qed.
Lemma write_strings_builds l ss : zlen (concat (string_bytes <$> ss)) < 2 ^ 32 →
  builds (write_strings ss) l tt (l ++ concat (string_bytes <$> ss)).
Proof.
  revert l; induction ss as [|s ss IH]; intros l Hs; cbn [write_strings fmap list_fmap concat] in *.
  - rewrite app_nil_r. apply builds_ret.
  - rewrite zlen_app in Hs. pose proof (zlen_nonneg (string_bytes s)). pose proof (zlen_nonneg (concat (string_bytes <$> ss))).
    eapply builds_bind; [apply write_string_builds; lia|]. rewrite app_assoc. apply IH. lia.
Qed.
Lemma concat_strings_length ss : zlen ss ≤ zlen (concat (string_bytes <$> ss)).
Proof.
  induction ss as [|s ss IH]; [done|]. cbn [fmap list_fmap concat]. unfold string_bytes at 1. unfold zlen in *. rewrite !length_app, length_le_encode.
  cbn [length]. lia.
Qed.
Lemma write_payload_builds argv cwd env : zlen (payload_bytes argv cwd env) < 2 ^ 32 →
  builds (write_payload argv cwd env) [] tt (payload_bytes argv cwd env).
Proof.
  unfold payload_bytes. rewrite !zlen_app. pose proof (concat_strings_length argv). pose proof (concat_strings_length env).
  pose proof (zlen_nonneg (string_bytes cwd)). pose proof (zlen_nonneg argv). pose proof (zlen_nonneg env).
  assert (∀ z, zlen (le_encode 4 z) = 4) as H4 by (intros z; unfold zlen; by rewrite length_le_encode). rewrite !H4. intros Hl.
  eapply builds_bind; [apply builds_u32; lia|]. cbn [app]. eapply builds_bind; [apply write_strings_builds; lia|].
  eapply builds_bind; [apply write_string_builds; lia|]. eapply builds_bind; [apply builds_u32; lia|].
  eapply builds_eq; [apply write_strings_builds; lia|by rewrite <- !app_assoc].
Qed.
Lemma built_builds {A} (m : M buf A) a l : builds m [] a l → built m = Done l.
Proof.
  intros Hm. unfold built. destruct (builds_run m 32 a l) as (b&->&Hb); [done|done|]. by rewrite Hb.
Qed.
Lemma spawn_request_eq argv cwd env : zlen (payload_bytes argv cwd env) < 2 ^ 32 →
  spawn_request argv cwd env = Done (spawn_bytes (payload_bytes argv cwd env)).
Proof.
  intros Hl. unfold spawn_request. rewrite (built_builds _ _ _ (write_payload_builds argv cwd env Hl)). cbn [mbind outcome_bind].
  set (payload := payload_bytes argv cwd env) in *. eapply built_builds.
  eapply builds_bind; [apply (builds_emit [] U8 (Num REQ_SPAWN)); apply typed_u8; unfold REQ_SPAWN; lia|].
  eapply builds_bind; [apply builds_u32; pose proof (zlen_nonneg payload); lia|].
  unfold spawn_bytes. rewrite app_assoc. apply builds_append.
Qed.

(** * The agent parses the payload *)

(** What the agent takes: a program, with few and short enough strings, none with a
    NUL, and every variable with its value. *)
Definition string_ok (s : text) : bool := (zlen (utf8_encode s) <=? max_string) && negb (bool_decide (0 ∈ utf8_encode s)).
Definition variable_ok (s : text) : bool := string_ok s && has_equals (utf8_encode s).
Definition spawn_ok (argv : list text) (cwd : text) (env : list text) : bool :=
  (1 <=? zlen argv) && (zlen argv <=? max_arguments) && forallb string_ok argv && string_ok cwd &&
  (zlen env <=? max_environment) && forallb variable_ok env.

Lemma cursor_bind_eq {A B} (m : cursor A) (f : A → cursor B) c :
  (m ≫= f) c = match m c with Some (a, c) => f a c | None => None end.
Proof. done. Qed.
Lemma cursor_u32_bytes z rest : 0 ≤ z < 2 ^ 32 → cursor_u32 (le_encode 4 z ++ rest) = Some (z, rest).
Proof.
  intros Hz. unfold cursor_u32. rewrite zlen_app. pose proof (zlen_nonneg rest). change (zlen (le_encode 4 z)) with 4.
  rewrite (proj2 (Z.ltb_ge _ _)) by lia. unfold load_u32. rewrite take_le_encode by lia.
  by rewrite drop_app_length' by (by rewrite length_le_encode).
Qed.
Lemma cursor_string_bytes s rest : zlen (utf8_encode s) < 2 ^ 32 →
  cursor_string (string_bytes s ++ rest) = if string_ok s then Some (utf8_encode s, rest) else None.
Proof.
  intros Hs. pose proof (zlen_nonneg (utf8_encode s)). unfold cursor_string, string_bytes. rewrite <- app_assoc.
  unfold mbind, cursor_bind. rewrite cursor_u32_bytes by lia. unfold cursor_bytes, string_ok.
  rewrite zlen_app, zlen_to_nat, take_app_length, drop_app_length. pose proof (zlen_nonneg rest).
  rewrite (proj2 (Z.ltb_ge (_ + _) _)), orb_false_r by lia. rewrite Z.ltb_antisym.
  destruct (zlen (utf8_encode s) <=? max_string); [|done]. cbn [negb andb]. by case_bool_decide.
Qed.
Lemma cursor_strings_bytes check ss rest : Forall (fun s => zlen (utf8_encode s) < 2 ^ 32) ss →
  cursor_strings check (length ss) (concat (string_bytes <$> ss) ++ rest) =
  if forallb (fun s => string_ok s && check (utf8_encode s)) ss then Some (utf8_encode <$> ss, rest) else None.
Proof.
  induction 1 as [|s ss Hs _ IH]; [done|]. cbn [length cursor_strings fmap list_fmap concat forallb]. rewrite <- app_assoc.
  rewrite cursor_bind_eq, cursor_string_bytes by done. destruct (string_ok s); [|done]. cbn [andb].
  destruct (check (utf8_encode s)); [|done]. rewrite cursor_bind_eq, IH. cbn [andb]. by destruct (forallb _ ss).
Qed.
Lemma zlen_string_le s ss : s ∈ ss → zlen (utf8_encode s) ≤ zlen (concat (string_bytes <$> ss)).
Proof.
  induction 1 as [s ss|s s' ss _ IH]; cbn [fmap list_fmap concat]; rewrite zlen_app.
  - unfold string_bytes at 1. rewrite zlen_app. pose proof (zlen_nonneg (le_encode 4 (zlen (utf8_encode s)))).
    pose proof (zlen_nonneg (concat (string_bytes <$> ss))). lia.
  - pose proof (zlen_nonneg (string_bytes s')). lia.
Qed.

Definition parsed (argv : list text) (cwd : text) (env : list text) : list (list Z) * list Z * list (list Z) :=
  (utf8_encode <$> argv, utf8_encode cwd, utf8_encode <$> env).
Lemma parse_payload argv cwd env : zlen (payload_bytes argv cwd env) < 2 ^ 32 →
  parse_spawn (payload_bytes argv cwd env) = if spawn_ok argv cwd env then Some (parsed argv cwd env, []) else None.
Proof.
  unfold payload_bytes. rewrite !zlen_app. pose proof (concat_strings_length argv). pose proof (concat_strings_length env).
  pose proof (zlen_nonneg (string_bytes cwd)). pose proof (zlen_nonneg argv). pose proof (zlen_nonneg env).
  assert (∀ z, zlen (le_encode 4 z) = 4) as H4 by (intros z; unfold zlen; by rewrite length_le_encode). rewrite !H4. intros Hl.
  assert (Hcwd : zlen (utf8_encode cwd) < 2 ^ 32).
  { assert (zlen (string_bytes cwd) = 4 + zlen (utf8_encode cwd)) by (unfold string_bytes; by rewrite zlen_app, H4). lia. }
  assert (Hs : ∀ ss, zlen (concat (string_bytes <$> ss)) < 2 ^ 32 → Forall (fun s => zlen (utf8_encode s) < 2 ^ 32) ss).
  { intros ss Hss. apply Forall_forall. intros s Hin. pose proof (zlen_string_le s ss Hin). lia. }
  unfold parse_spawn, spawn_ok. rewrite cursor_bind_eq, cursor_u32_bytes by lia. rewrite !Z.ltb_antisym.
  destruct (1 <=? zlen argv); [|done]. destruct (zlen argv <=? max_arguments); [|done]. cbn [negb orb andb].
  rewrite cursor_bind_eq, zlen_to_nat, cursor_strings_bytes by (apply Hs; lia).
  replace (forallb (fun s => string_ok s && true) argv) with (forallb string_ok argv)
    by (clear; induction argv as [|s l IH]; [done|]; cbn [forallb]; by rewrite IH, andb_true_r).
  destruct (forallb string_ok argv); [|done]. cbn [andb].
  rewrite cursor_bind_eq, cursor_string_bytes by done. destruct (string_ok cwd); [|done]. cbn [andb].
  rewrite cursor_bind_eq, cursor_u32_bytes by lia. rewrite Z.ltb_antisym.
  destruct (zlen env <=? max_environment); [|done]. cbn [negb andb].
  rewrite cursor_bind_eq, zlen_to_nat, <- (app_nil_r (concat _)), cursor_strings_bytes by (apply Hs; lia).
  change (forallb (fun s => string_ok s && has_equals (utf8_encode s)) env) with (forallb variable_ok env).
  by destruct (forallb variable_ok env).
Qed.

(** * A spawn is a spawn of the kernel *)
Section spawn.
Context {W : Type} `{!Kernel W} `{!KernelOk W}.

Definition named (argv : list text) (suffix : string) : option text := Some (default (lit "undefined") (head argv) ++ lit suffix).
(** What [spawn] does, as a call of the kernel: arguments the agent does not take
    are an [EINVAL] that the kernel does not see. *)
Definition call_spawn (argv : list text) (cwd : text) (env : list text) : M W spawned := fun w =>
  if spawn_ok argv cwd env then
    let '(r, w) := k_spawn (utf8_encode <$> argv) (utf8_encode cwd) (utf8_encode <$> env) w in
    (match r with
     | inl errno => Raise (SystemError errno)
     | inr (pid, stdin, stdout, stderr) =>
         Done (Spawned pid (guest_fd_new stdin (named argv ":stdin")) (guest_fd_new stdout (named argv ":stdout"))
           (guest_fd_new stderr (named argv ":stderr")))
     end, w)
  else (Raise (SystemError EINVAL), w).
Definition spawn_reply (r : Z + Z * Z * Z * Z) : list Z :=
  match r with
  | inl err => write_reply (-1) err
  | inr (pid, stdin, stdout, stderr) =>
      write_reply 0 0 ++ store_u32 pid ++ store_u32 stdin ++ store_u32 stdout ++ store_u32 stderr
  end.
(** The kernel's answer, or the agent's own. *)
Definition spawn_answer (argv : list text) (cwd : text) (env : list text) (w : W) : (Z + Z * Z * Z * Z) * W :=
  if spawn_ok argv cwd env then k_spawn (utf8_encode <$> argv) (utf8_encode cwd) (utf8_encode <$> env) w else (inl EINVAL, w).

Lemma serve_spawn_request argv cwd env w : zlen (payload_bytes argv cwd env) ≤ max_spawn_payload →
  serve_request w (spawn_bytes (payload_bytes argv cwd env)) =
  let '(r, w') := spawn_answer argv cwd env w in Got (spawn_reply r, w') [].
Proof using.
  intros Hl. unfold max_spawn_payload in Hl. set (payload := payload_bytes argv cwd env). pose proof (zlen_nonneg payload). fold payload in Hl.
  unfold spawn_bytes, serve_request. erewrite serving_got by (by apply read_all_app). cbn [head default from_option id].
  change (REQ_SPAWN =? REQ_SYSCALL) with false. change (REQ_SPAWN =? REQ_SPAWN) with true. cbv iota. unfold serve_spawn.
  erewrite serving_got by (by apply read_all_app).
  assert (E : load_u32 (le_encode 4 (zlen payload)) = zlen payload).
  { unfold load_u32. rewrite <- (app_nil_r (le_encode _ _)). apply take_le_encode. lia. }
  rewrite E. unfold max_spawn_payload. rewrite (proj2 (Z.ltb_ge _ _)) by lia.
  erewrite serving_got by (rewrite <- (app_nil_r payload) at 2; by apply read_all_app).
  unfold payload. rewrite parse_payload by (fold payload; lia). unfold spawn_answer. destruct (spawn_ok argv cwd env); [|done].
  unfold parsed. destruct (k_spawn _ _ _ w) as [[err|[[[pid stdin] stdout] stderr]] w']; done.
Qed.
Lemma spawn_body_read pid stdin stdout stderr :
  Forall (fun z => 0 ≤ z < 2 ^ 32) [pid; stdin; stdout; stderr] →
  struct_read SpawnReply (store_u32 pid ++ store_u32 stdin ++ store_u32 stdout ++ store_u32 stderr) =
  Done (Obj [("pid", Num pid); ("stdin", Num stdin); ("stdout", Num stdout); ("stderr", Num stderr)]).
Proof using.
  rewrite !Forall_cons. intros (H1&H2&H3&H4&_). set (v := Obj _).
  assert (Ht : typed SpawnReply v = true) by (unfold SpawnReply, v; by typed_struct).
  assert (Hw : store_u32 pid ++ store_u32 stdin ++ store_u32 stdout ++ store_u32 stderr = enc SpawnReply v) by reflexivity.
  rewrite Hw, <- (app_nil_r (enc _ _)). by apply struct_read_enc.
Qed.
Definition spawn_result (r : Z + Z * Z * Z * Z) : Z + value :=
  match r with
  | inl err => inl err
  | inr (pid, stdin, stdout, stderr) =>
      inr (Obj [("pid", Num pid); ("stdin", Num stdin); ("stdout", Num stdout); ("stderr", Num stderr)])
  end.
Definition answer_ok (r : Z + Z * Z * Z * Z) : Prop :=
  match r with
  | inl err => 0 ≤ err < 2 ^ 32
  | inr (pid, stdin, stdout, stderr) => Forall (fun z => 0 ≤ z < 2 ^ 32) [pid; stdin; stdout; stderr]
  end.
Lemma spawn_exchange_spec request r w w' : 0 < zlen request → serve_request w request = Got (spawn_reply r, w') [] → answer_ok r →
  run_lane (spawn_exchange request) (idle_lane w) = (Done (spawn_result r), idle_lane w').
Proof using.
  intros Hz Hs Hr. unfold spawn_exchange. erewrite run_bind by (by eapply write_served).
  destruct r as [err|[[[pid stdin] stdout] stderr]]; cbn [spawn_reply spawn_result answer_ok] in *.
  - erewrite run_bind by (rewrite <- (app_nil_r (write_reply _ _)); apply head_spec; lia). done.
  - erewrite run_bind by (apply head_spec; lia). cbv beta iota. change (0 =? -1) with false. cbv iota.
    erewrite run_bind by (rewrite <- (app_nil_r (store_u32 pid ++ _)); by apply read_lane).
    by rewrite spawn_body_read.
Qed.
Lemma answer_is_ok argv cwd env w r w' : spawn_answer argv cwd env w = (r, w') → answer_ok r.
Proof using KernelOk0.
  unfold spawn_answer. destruct (spawn_ok _ _ _); intros E.
  - pose proof (ko_spawn _ _ _ _ _ _ E) as Hok. destruct r as [err|[[[pid stdin] stdout] stderr]]; exact Hok.
  - injection E as <- <-. cbn. unfold EINVAL. lia.
Qed.

(** C30: within the agent's bound of 4 MiB on its payload, a spawn over the wire is a
    spawn of the kernel, with the bytes of the program, its arguments, its directory and
    its variables, and the host then holds the process and its three streams or the
    errno; when the agent's limits on their number and length do not hold the kernel
    sees nothing and the host has [EINVAL]; the lane is left ready either way. (Beyond
    the bound the agent ends the lane: [oversized_spawn_ends].) *)
Theorem spawn_refines argv cwd env w : zlen (payload_bytes argv cwd env) ≤ max_spawn_payload →
  spawn argv cwd env (idle_lane w) = let '(o, w') := call_spawn argv cwd env w in (o, idle_lane w').
Proof using KernelOk0.
  intros Hl. unfold max_spawn_payload in Hl. unfold spawn. rewrite spawn_request_eq by lia.
  pose proof (serve_spawn_request argv cwd env w Hl) as Hs. destruct (spawn_answer argv cwd env w) as [r w'] eqn:Ha.
  erewrite M_bind_done by done. erewrite M_bind_done
    by (apply spawn_exchange_spec; [|exact Hs|by eapply answer_is_ok]; pose proof (zlen_nonneg (payload_bytes argv cwd env));
        unfold spawn_bytes; rewrite !zlen_app; change (zlen [REQ_SPAWN]) with 1; pose proof (zlen_nonneg (le_encode 4 (zlen (payload_bytes argv cwd env)))); lia).
  unfold spawn_answer, call_spawn in *. destruct (spawn_ok argv cwd env).
  - rewrite Ha. by destruct r as [err|[[[pid stdin] stdout] stderr]].
  - by injection Ha as <- <-.
Qed.

(** A payload that is too long ends the lane: the agent answers nothing, and the
    host, which does not look, takes the session's loss for it. *)
Lemma oversized_spawn_ends argv cwd env w : max_spawn_payload < zlen (payload_bytes argv cwd env) < 2 ^ 32 →
  spawn argv cwd env (idle_lane w) = (Raise (ProtocolError "guest connection closed mid-message"), Lane [] [] false w).
Proof using.
  intros Hl. unfold max_spawn_payload in Hl. unfold spawn. rewrite spawn_request_eq by lia. erewrite M_bind_done by done.
  set (payload := payload_bytes argv cwd env) in *.
  assert (Hs : serve_request w (spawn_bytes payload) = Ends).
  { unfold spawn_bytes, serve_request. erewrite serving_got by (by apply read_all_app). cbn [head default from_option id].
    change (REQ_SPAWN =? REQ_SYSCALL) with false. change (REQ_SPAWN =? REQ_SPAWN) with true. cbv iota. unfold serve_spawn.
    erewrite serving_got by (by apply read_all_app).
    assert (E : load_u32 (le_encode 4 (zlen payload)) = zlen payload).
    { unfold load_u32. rewrite <- (app_nil_r (le_encode _ _)). apply take_le_encode. lia. }
    rewrite E. unfold max_spawn_payload. by rewrite (proj2 (Z.ltb_lt _ _)) by lia. }
  eapply M_bind_raise. unfold spawn_exchange. erewrite run_bind.
  2:{ unfold lane_write. cbn [run_lane peer_write lane_peer]. rewrite M_bind_eq. cbn [idle_lane ln_open ln_in ln_out ln_world serve_lane app].
      rewrite Hs. done. }
  done.
Qed.

(** ** Reaping *)
Definition call_reap (pid : Z) (w : W) : option (outcome Z * W) :=
  match k_reap pid w with
  | None => None
  | Some (inl errno, w) => Some (Raise (SystemError errno), w)
  | Some (inr status, w) => Some (Done status, w)
  end.
Definition reap_bytes (pid : Z) : list Z := [REQ_REAP] ++ le_encode 4 pid.
Lemma reap_request_eq pid : 0 ≤ pid < 2 ^ 32 → reap_request pid = Done (reap_bytes pid).
Proof using.
  intros Hp. eapply built_builds. eapply builds_bind; [apply (builds_emit [] U8 (Num REQ_REAP)); apply typed_u8; unfold REQ_REAP; lia|].
  by apply builds_u32.
Qed.
Lemma serve_reap_request pid w : 0 ≤ pid < 2 ^ 32 → serve_request w (reap_bytes pid) =
  match k_reap pid w with
  | None => WaitsMore
  | Some (inl err, w) => Got (write_reply (-1) err, w) []
  | Some (inr status, w) => Got (write_reply 0 0 ++ store_u32 status, w) []
  end.
Proof using.
  intros Hp. unfold reap_bytes, serve_request. erewrite serving_got by (by apply read_all_app). cbn [head default from_option id].
  change (REQ_REAP =? REQ_SYSCALL) with false. change (REQ_REAP =? REQ_SPAWN) with false. change (REQ_REAP =? REQ_REAP) with true. cbv iota.
  unfold serve_reap. erewrite serving_got by (rewrite <- (app_nil_r (le_encode _ _)); by apply read_all_app).
  unfold load_u32. rewrite <- (app_nil_r (le_encode 4 pid)), take_le_encode by lia.
  by destruct (k_reap pid w) as [[[err|status] w']|].
Qed.
Lemma reap_exchange_spec request r w w' : 0 < zlen request →
  serve_request w request = Got (match r with inl err => write_reply (-1) err | inr status => write_reply 0 0 ++ store_u32 status end, w') [] →
  match r with inl err => 0 ≤ err < 2 ^ 32 | inr status => 0 ≤ status < 2 ^ 32 end →
  run_lane (reap_exchange request) (idle_lane w) = (Done r, idle_lane w').
Proof using.
  intros Hz Hs Hr. unfold reap_exchange. erewrite run_bind by (by eapply write_served). destruct r as [err|status].
  - erewrite run_bind by (rewrite <- (app_nil_r (write_reply _ _)); apply head_spec; lia). done.
  - erewrite run_bind by (apply head_spec; lia). cbv beta iota. change (0 =? -1) with false. cbv iota.
    erewrite run_bind by (rewrite <- (app_nil_r (store_u32 _)); by apply read_lane).
    change (ty_get U32LE (dv_of (store_u32 status)) 0) with (struct_read U32LE (enc U32LE (Num status))).
    rewrite <- (app_nil_r (enc _ _)), struct_read_enc by (by apply typed_u32le). done.
Qed.
(** A reap answers with the status once the process has ended, and waits until then. *)
Lemma reap_refines pid w : 0 ≤ pid < 2 ^ 32 →
  reap pid (idle_lane w) =
  match call_reap pid w with Some (o, w') => (o, idle_lane w') | None => (Loops, Lane (reap_bytes pid) [] true w) end.
Proof using KernelOk0.
  intros Hp. unfold reap. rewrite reap_request_eq by done. erewrite M_bind_done by done. unfold call_reap.
  assert (Hz : 0 < zlen (reap_bytes pid)) by (change (zlen (reap_bytes pid)) with 5; lia).
  pose proof (serve_reap_request pid w Hp) as Hs. destruct (k_reap pid w) as [[[err|status] w']|] eqn:Hk.
  - erewrite M_bind_done by (apply (reap_exchange_spec _ (inl err)); [done|exact Hs|exact (ko_reap _ _ _ _ Hk)]). done.
  - erewrite M_bind_done by (apply (reap_exchange_spec _ (inr status)); [done|exact Hs|exact (ko_reap _ _ _ _ Hk)]). done.
  - eapply M_bind_loops. unfold reap_exchange. erewrite run_bind.
    2:{ unfold lane_write. cbn [run_lane peer_write lane_peer]. rewrite M_bind_eq. cbn [idle_lane ln_open ln_in ln_out ln_world serve_lane app].
        rewrite Hs. done. }
    done.
Qed.
End spawn.

Lemma spawn_refines_witness :
  spawn [lit "/bin/sh"; lit "-c"] (lit "/") [lit "A=1"] (idle_lane (W := Z) 9) =
    (let '(o, w') := call_spawn [lit "/bin/sh"; lit "-c"] (lit "/") [lit "A=1"] (9 : Z) in (o, idle_lane w')) ∧
  call_spawn [lit "/bin/sh"; lit "-c"] (lit "/") [lit "A=1"] (9 : Z) =
    (Done (Spawned 9 (guest_fd_new 4 (Some (lit "/bin/sh:stdin"))) (guest_fd_new 5 (Some (lit "/bin/sh:stdout")))
      (guest_fd_new 6 (Some (lit "/bin/sh:stderr")))), 10) ∧
  call_spawn [] (lit "/") [] (9 : Z) = (Raise (SystemError EINVAL), 9).
Proof.
  split; [|split; vm_compute; reflexivity].
  apply (spawn_refines (W := Z) [lit "/bin/sh"; lit "-c"] (lit "/") [lit "A=1"]). vm_compute. discriminate.
Defined.
(** A variable without a value is not taken, and an exit is reaped once it has been made. *)
Example spawn_and_reap :
  (spawn [lit "/bin/sh"] (lit "/") [lit "A"] (idle_lane (W := Z) 9)).1 = Raise (SystemError EINVAL) ∧
  (reap 8 (idle_lane (W := Z) 9)).1 = Done 256 ∧ (reap 9 (idle_lane (W := Z) 9)).1 = Loops.
Proof. split_and!; vm_compute; reflexivity. Qed.
