(* ===== verification/GatewayDns.v ===== *)
(** What the gateway of packages/linux-guest/src/network.ts answers without a
    connection: DNS queries and ARP requests. *)
From S2P Require Export Ipv4 Text.

Definition ArpPacket : ty := Struct
  [("hardware_type", U16BE); ("protocol_type", U16BE); ("hardware_length", U8); ("protocol_length", U8);
   ("operation", U16BE); ("sender_mac", Mac); ("sender_ip", U32BE); ("target_mac", Mac); ("target_ip", U32BE)].
Definition DnsHeader : ty := Struct
  [("id", U16BE); ("flags", U16BE); ("question_count", U16BE); ("answer_count", U16BE); ("authority_count", U16BE);
   ("additional_count", U16BE)].
Definition DnsQuestionFooter : ty := Struct [("type", U16BE); ("klass", U16BE)].
Definition DnsIpv4Answer : ty := Struct
  [("name", U16BE); ("type", U16BE); ("klass", U16BE); ("ttl", U32BE); ("length", U16BE); ("address", U32BE)].
Definition dns_header_size : Z := ty_size DnsHeader.
Definition dns_footer_size : Z := ty_size DnsQuestionFooter.

(** * Names *)

(** The labels of a name and where it ends; a label takes a byte at least. *)
Fixpoint dns_labels (fuel : nat) (packet : list Z) (offset : Z) : outcome (list text * Z) :=
  match fuel with
  | O => Loops
  | S fuel =>
      match packet !! Z.to_nat offset with
      | None => Raise (JsError "truncated DNS name")
      | Some length =>
          let offset := offset + 1 in
          if length =? 0 then Done ([], offset)
          else if (negb (length &&& 0xc0 =? 0) || (zlen packet <? offset + length))%bool
          then Raise (JsError "unsupported DNS name")
          else
            '(labels, end_) ← dns_labels fuel packet (offset + length);
            mret (utf8_replace (subarray packet offset (offset + length)) :: labels, end_)
      end
  end.
Definition decode_dns_name (packet : list Z) (offset : Z) : outcome (text * Z) :=
  '(labels, end_) ← dns_labels (S (length packet)) packet offset;
  mret (join (lit ".") labels, end_).

(** * Responses *)
Fixpoint dns_answers (addresses : list text) : M buf unit :=
  match addresses with
  | [] => mret tt
  | address :: addresses =>
      a ← lift (ipv4_number address);
      emit DnsIpv4Answer (Obj [("name", Num 0xc00c); ("type", Num 1); ("klass", Num 1); ("ttl", Num 60); ("length", Num 4);
        ("address", Num a)]) ;;
      dns_answers addresses
  end.
Definition dns_header (id answer_count : Z) : value :=
  Obj [("id", Num id); ("flags", Num 0x8180); ("question_count", Num 1); ("answer_count", Num answer_count);
       ("authority_count", Num 0); ("additional_count", Num 0)].
Definition dns_response (query : list Z) (addresses : list text) : outcome (list Z) :=
  if zlen query <? dns_header_size then Raise (JsError "short DNS query") else
  input ← struct_read DnsHeader query;
  if negb (input.["question_count"] =? 1) then Raise (JsError "DNS query must have one question") else
  '(_, name_end) ← decode_dns_name query dns_header_size;
  if zlen query <? name_end + dns_footer_size then Raise (JsError "truncated DNS question") else
  let question_end := name_end + dns_footer_size in
  question ← struct_read DnsQuestionFooter (subarray query name_end (zlen query));
  let answer_addresses :=
    if ((question.["type"] =? 1) && (question.["klass"] =? 1))%bool then addresses else [] in
  let '(o, result) := (
    header ← alloc DnsHeader;
    append (subarray query dns_header_size question_end) ;;
    alloc_set DnsHeader header (dns_header input.["id"] (zlen answer_addresses)) ;;
    dns_answers answer_addresses)
    (bytes_new (question_end + zlen answer_addresses * ty_size DnsIpv4Answer)) in
  o ;; mret (array result).

(** * ARP: the reply to a frame that asks for the gateway's address *)
Definition arp_value (operation : Z) (sender_mac : value) (sender_ip : Z) (target_mac : value) (target_ip : Z) : value :=
  Obj [("hardware_type", Num 1); ("protocol_type", Num TYPE_IPv4); ("hardware_length", Num 6); ("protocol_length", Num 4);
       ("operation", Num operation); ("sender_mac", sender_mac); ("sender_ip", Num sender_ip); ("target_mac", target_mac);
       ("target_ip", Num target_ip)].
Definition receive_arp (frame : list Z) : outcome (option (list Z)) :=
  if zlen frame <? ethernet_size + ty_size ArpPacket then Done None else
  ethernet_header ← struct_read EthernetHeader frame;
  request ← struct_read ArpPacket (subarray frame ethernet_size (zlen frame));
  if (negb (ethernet_header.["type"] =? TYPE_ARP) || negb (request.["hardware_type"] =? 1)
      || negb (request.["protocol_type"] =? TYPE_IPv4) || negb (request.["hardware_length"] =? ty_size Mac)
      || negb (request.["protocol_length"] =? 4) || negb (request.["operation"] =? 1)
      || negb (request.["target_ip"] =? GATEWAY_IP))%bool then Done None else
  let '(o, reply) := (
    emit EthernetHeader (Obj [("destination", field request "sender_mac"); ("source", macs GATEWAY_MAC);
                              ("type", Num TYPE_ARP)]) ;;
    emit ArpPacket (arp_value 2 (macs GATEWAY_MAC) GATEWAY_IP (field request "sender_mac") request.["sender_ip"]))
    (bytes_new (ethernet_size + ty_size ArpPacket)) in
  o ;; mret (Some (array reply)).

(** * Names are read as they are written *)

(** A name on the wire: each label with its length, up to 63, and an empty one. *)
Definition name_bytes (labels : list (list Z)) : list Z := concat ((fun l => zlen l :: l) <$> labels) ++ [0].
Definition label_ok (l : list Z) : Prop := 1 ≤ zlen l < 64.

Lemma dns_labels_name labels before rest fuel :
  Forall label_ok labels → (length labels < fuel)%nat →
  dns_labels fuel (before ++ name_bytes labels ++ rest) (zlen before) =
  Done (utf8_replace <$> labels, zlen before + zlen (name_bytes labels)).
Proof.
  intros Hl. revert before fuel; induction Hl as [|l labels Hl _ IH]; intros before [|fuel] Hf; [cbn in Hf; lia| |cbn in Hf; lia|].
  - cbn [dns_labels]. rewrite zlen_to_nat, lookup_app_r, Nat.sub_diag by done. reflexivity.
  - cbn [dns_labels]. set (packet := before ++ _).
    assert (Hp : packet = (before ++ [zlen l]) ++ l ++ name_bytes labels ++ rest)
      by (unfold packet, name_bytes; cbn [fmap list_fmap concat]; by rewrite <- !app_assoc).
    replace (packet !! Z.to_nat (zlen before)) with (Some (zlen l))
      by (unfold packet; rewrite zlen_to_nat, lookup_app_r, Nat.sub_diag by done; done).
    unfold label_ok in Hl. rewrite (proj2 (Z.eqb_neq _ _)) by lia.
    assert (Hand : (zlen l &&& 0xc0 =? 0) = true) by (apply (below_seq (fun z => z &&& 0xc0 =? 0) 64); [vm_compute; reflexivity|lia]).
    rewrite Hand. cbn [negb orb].
    assert (Hb : zlen (before ++ [zlen l]) = zlen before + 1) by (rewrite zlen_app; done).
    rewrite (proj2 (Z.ltb_ge _ _)).
    2:{ rewrite Hp, !zlen_app. pose proof (zlen_nonneg (name_bytes labels)). pose proof (zlen_nonneg rest). change (zlen [zlen l]) with 1. lia. }
    replace (zlen before + 1 + zlen l) with (zlen ((before ++ [zlen l]) ++ l)) by (rewrite !zlen_app; done).
    rewrite Hp at 1. rewrite (app_assoc (before ++ [zlen l])), IH by (cbn in Hf; lia).
    cbn [mbind outcome_bind mret outcome_ret fmap list_fmap]. f_equal. f_equal.
    + f_equal. f_equal. rewrite Hp, <- Hb, (zlen_app _ l). apply subarray_mid.
    + unfold name_bytes. cbn [fmap list_fmap concat]. rewrite !zlen_app, !zlen_cons. change (@zlen Z []) with 0. lia.
Qed.

(** * A query is answered *)
Definition question_value (type klass : Z) : value := Obj [("type", Num type); ("klass", Num klass)].
Definition query_header (id flags answers authorities additional : Z) : value :=
  Obj [("id", Num id); ("flags", Num flags); ("question_count", Num 1); ("answer_count", Num answers);
       ("authority_count", Num authorities); ("additional_count", Num additional)].
Definition answer_value (address : Z) : value :=
  Obj [("name", Num 0xc00c); ("type", Num 1); ("klass", Num 1); ("ttl", Num 60); ("length", Num 4); ("address", Num address)].
Definition u16 (z : Z) : Prop := 0 ≤ z < 65536.
(** A query with one question. *)
Definition query_bytes (header : value) (labels : list (list Z)) (type klass : Z) (rest : list Z) : list Z :=
  enc DnsHeader header ++ name_bytes labels ++ enc DnsQuestionFooter (question_value type klass) ++ rest.
Definition response_bytes (id : Z) (labels : list (list Z)) (type klass : Z) (ips : list Z) : list Z :=
  enc DnsHeader (dns_header id (zlen ips)) ++ name_bytes labels ++ enc DnsQuestionFooter (question_value type klass) ++
  concat ((fun a => enc DnsIpv4Answer (answer_value a)) <$> ips).

Lemma dns_answers_builds l addresses ips : Forall2 (fun a ip => ipv4_number a = Done ip ∧ 0 ≤ ip < 2 ^ 32) addresses ips →
  builds (dns_answers addresses) l tt (l ++ concat ((fun a => enc DnsIpv4Answer (answer_value a)) <$> ips)).
Proof.
  intros H. revert l; induction H as [|a ip addresses ips [Ha Hr] _ IH]; intros l; cbn [dns_answers fmap list_fmap concat].
  - rewrite app_nil_r. apply builds_ret.
  - rewrite Ha. eapply builds_bind; [apply builds_lift|]. eapply builds_bind.
    { apply builds_emit. unfold DnsIpv4Answer. by typed_struct. }
    rewrite app_assoc. apply IH.
Qed.
Lemma typed_query id flags an ns ar : Forall u16 [id; flags; an; ns; ar] → typed DnsHeader (query_header id flags an ns ar) = true.
Proof. rewrite !Forall_cons. unfold u16. intros (?&?&?&?&?&_). unfold DnsHeader, query_header. by typed_struct. Qed.
Lemma typed_question type klass : u16 type → u16 klass → typed DnsQuestionFooter (question_value type klass) = true.
Proof. unfold u16. intros. unfold DnsQuestionFooter, question_value. by typed_struct. Qed.

(** A DNS query with one question, whatever follows it, is read as the name that
    was asked for, and is answered with its own identifier and question and, when it
    asks for IPv4 addresses, with the resolver's. *)
Theorem dns_answers_query id flags an ns ar labels type klass rest addresses ips :
  Forall u16 [id; flags; an; ns; ar] → Forall label_ok labels → u16 type → u16 klass → zlen ips < 65536 →
  Forall2 (fun a ip => ipv4_number a = Done ip ∧ 0 ≤ ip < 2 ^ 32) addresses ips →
  let query := query_bytes (query_header id flags an ns ar) labels type klass rest in
  (∃ name_end, decode_dns_name query dns_header_size = Done (join (lit ".") (utf8_replace <$> labels), name_end)) ∧
  dns_response query addresses =
    Done (response_bytes id labels type klass (if ((type =? 1) && (klass =? 1))%bool then ips else [])).
Proof.
  intros Hh Hl Ht Hk Hn Ha query.
  pose proof (typed_query _ _ _ _ _ Hh) as Hth. pose proof (typed_question _ _ Ht Hk) as Htq.
  pose proof (zlen_enc _ _ Hth) as Zh. pose proof (zlen_enc _ _ Htq) as Zq. change (ty_size DnsHeader) with 12 in Zh.
  change (ty_size DnsQuestionFooter) with 4 in Zq. set (hv := query_header id flags an ns ar) in *. set (qv := question_value type klass) in *.
  assert (Eq : query = enc DnsHeader hv ++ name_bytes labels ++ enc DnsQuestionFooter qv ++ rest) by done.
  assert (Hd : decode_dns_name query dns_header_size = Done (join (lit ".") (utf8_replace <$> labels), 12 + zlen (name_bytes labels))).
  { unfold decode_dns_name. change dns_header_size with 12. rewrite <- Zh, Eq.
    rewrite dns_labels_name; [done|done|]. rewrite !length_app. enough (length labels ≤ length (name_bytes labels))%nat by lia.
    unfold name_bytes. clear. induction labels as [|l labels IH]; [cbn; lia|]. cbn in *. rewrite !length_app in *. cbn in *. lia. }
  split; [by eexists|]. pose proof (zlen_nonneg (name_bytes labels)) as Hn0. pose proof (zlen_nonneg rest).
  assert (Hz : zlen query = 12 + zlen (name_bytes labels) + 4 + zlen rest) by (rewrite Eq, !zlen_app, Zh, Zq; lia).
  unfold dns_response. rewrite Hd. change dns_header_size with 12. change dns_footer_size with 4. rewrite Hz.
  rewrite (proj2 (Z.ltb_ge _ _)) by lia. rewrite Eq at 1. rewrite struct_read_enc by done. cbn [mbind outcome_bind].
  change (negb (hv.["question_count"] =? 1)) with false. cbv iota beta. rewrite (proj2 (Z.ltb_ge _ _)) by lia.
  assert (Hq : subarray query (12 + zlen (name_bytes labels)) (12 + zlen (name_bytes labels) + 4 + zlen rest) = enc DnsQuestionFooter qv ++ rest).
  { rewrite <- Hz, Eq, <- Zh, <- zlen_app, (app_assoc (enc DnsHeader hv)). apply subarray_app_r. }
  rewrite Hq, struct_read_enc by done. cbn [mbind outcome_bind].
  change (qv.["type"]) with type. change (qv.["klass"]) with klass. change (hv.["id"]) with id.
  assert (Hs : subarray query 12 (12 + zlen (name_bytes labels) + 4) = name_bytes labels ++ enc DnsQuestionFooter qv).
  { rewrite Eq, <- Zh, <- Zq, <- Z.add_assoc, <- zlen_app, (app_assoc (name_bytes labels)). apply subarray_mid. }
  rewrite Hs. set (ask := (_ && _)%bool).
  set (answers := if ask then addresses else []). set (aips := if ask then ips else []).
  assert (Haa : Forall2 (fun a ip => ipv4_number a = Done ip ∧ 0 ≤ ip < 2 ^ 32) answers aips)
    by (unfold answers, aips; by destruct ask).
  assert (Hza : zlen answers = zlen aips) by (unfold zlen; by erewrite Forall2_length).
  assert (Hzi : 0 ≤ zlen aips < 65536) by (unfold aips; destruct ask; [pose proof (zlen_nonneg ips); lia|done]).
  rewrite Hza. change (ty_size DnsIpv4Answer) with 16.
  destruct (builds_run (header ← alloc DnsHeader;
    append (name_bytes labels ++ enc DnsQuestionFooter qv) ;; alloc_set DnsHeader header (dns_header id (zlen aips)) ;; dns_answers answers)
    (12 + zlen (name_bytes labels) + 4 + zlen aips * 16) tt (response_bytes id labels type klass aips)) as (b&E&Hb).
  - lia.
  - eapply builds_bind; [apply builds_alloc|]. eapply builds_bind; [apply builds_append|]. cbn [app]. eapply builds_bind.
    { apply builds_alloc_set; [apply (typed_query id 0x8180 (zlen aips) 0 0)| |].
      - rewrite !Forall_cons in *. unfold u16 in *. lia || (split_and!; try lia; try done; apply Hh).
      - done.
      - rewrite zlen_app. change (zlen [] + ty_size DnsHeader) with 12. change (zlen (zeros (ty_size DnsHeader))) with 12.
        pose proof (zlen_nonneg (name_bytes labels ++ enc DnsQuestionFooter qv)). lia. }
    eapply builds_eq; [apply dns_answers_builds; exact Haa|]. unfold response_bytes. fold qv. by rewrite !app_assoc.
  - rewrite E. cbn [mbind outcome_bind]. by rewrite Hb.
Qed.

Definition example_query : list Z :=
  query_bytes (query_header 7 0x100 0 0 1) [lit "example"; lit "com"] 1 1 [0; 0; 41].
Lemma dns_answers_query_witness :
  (∃ name_end, decode_dns_name example_query dns_header_size =
     Done (join (lit ".") (utf8_replace <$> [lit "example"; lit "com"]), name_end)) ∧
  dns_response example_query [lit "93.184.216.34"] =
    Done (response_bytes 7 [lit "example"; lit "com"] 1 1 (if ((1 =? 1) && (1 =? 1))%bool then [1572395042] else [])).
Proof.
  apply (dns_answers_query 7 0x100 0 0 1 [lit "example"; lit "com"] 1 1 [0; 0; 41] [lit "93.184.216.34"] [1572395042]).
  - rewrite !Forall_cons, Forall_nil. unfold u16. lia.
  - rewrite !Forall_cons, Forall_nil. unfold label_ok. repeat split; vm_compute; discriminate || reflexivity.
  - unfold u16; lia.
  - unfold u16; lia.
  - reflexivity.
  - constructor; [|constructor]. split; [vm_compute; reflexivity|lia].
Defined.
(** The name is example.com; a query for another type has no answer; a response that
    names itself by a pointer is not read. *)
Example dns_queries :
  decode_dns_name example_query 12 = Done (lit "example.com", 25) ∧
  dns_response (query_bytes (query_header 7 0x100 0 0 0) [lit "a"] 28 1 []) [lit "1.2.3.4"] =
    Done (response_bytes 7 [lit "a"] 28 1 []) ∧
  decode_dns_name [0xc0; 12] 0 = Raise (JsError "unsupported DNS name") ∧
  decode_dns_name [3; 97] 0 = Raise (JsError "unsupported DNS name").
Proof. split_and!; vm_compute; reflexivity. Qed.

(** Reading a name ends, whatever the bytes. *)
Lemma dns_labels_end fuel packet offset : bytes_ok packet → 0 ≤ offset ≤ zlen packet → zlen packet - offset < Z.of_nat fuel →
  dns_labels fuel packet offset ≠ Loops.
Proof.
  intros Hb. revert offset; induction fuel as [|fuel IH]; intros offset Ho Hf; cbn [dns_labels]; [lia|].
  destruct (packet !! Z.to_nat offset) as [len|] eqn:E; [|done]. pose proof (Forall_lookup_1 _ _ _ _ Hb E) as Hl. unfold byte_ok in Hl.
  destruct (len =? 0); [done|]. destruct (_ || _)%bool eqn:Hc; [done|]. apply orb_false_iff in Hc as [_ Hc%Z.ltb_ge].
  enough (Hr : dns_labels fuel packet (offset + 1 + len) ≠ Loops) by (by destruct (dns_labels fuel packet (offset + 1 + len)) as [[labels e]| |]).
  apply IH; lia.
Qed.
Lemma decode_dns_name_ends packet offset : bytes_ok packet → 0 ≤ offset → decode_dns_name packet offset ≠ Loops.
Proof.
  intros Hb Ho. unfold decode_dns_name. enough (Hr : dns_labels (S (length packet)) packet offset ≠ Loops)
    by (by destruct (dns_labels (S (length packet)) packet offset) as [[labels e]| |]).
  destruct (Z.le_gt_cases offset (zlen packet)); [apply dns_labels_end; [done|lia|unfold zlen; lia]|].
  cbn [dns_labels]. by rewrite (lookup_ge_None_2 packet) by (unfold zlen in *; lia).
Qed.

(** * The gateway answers for its address, and for no other *)
Lemma typed_arp operation sender sender_ip target target_ip :
  u16 operation → mac_ok sender → mac_ok target → 0 ≤ sender_ip < 2 ^ 32 → 0 ≤ target_ip < 2 ^ 32 →
  typed ArpPacket (arp_value operation (macs sender) sender_ip (macs target) target_ip) = true.
Proof. unfold u16. intros. unfold ArpPacket, arp_value. typed_struct; auto using typed_mac; done. Qed.

Theorem arp_answers destination source sender sender_ip target target_ip padding :
  mac_ok destination → mac_ok source → mac_ok sender → mac_ok target → 0 ≤ sender_ip < 2 ^ 32 → 0 ≤ target_ip < 2 ^ 32 →
  receive_arp (enc EthernetHeader (eth_value destination source TYPE_ARP) ++
    enc ArpPacket (arp_value 1 (macs sender) sender_ip (macs target) target_ip) ++ padding) =
  Done (if target_ip =? GATEWAY_IP
        then Some (enc EthernetHeader (eth_value sender GATEWAY_MAC TYPE_ARP) ++
               enc ArpPacket (arp_value 2 (macs GATEWAY_MAC) GATEWAY_IP (macs sender) sender_ip))
        else None).
Proof.
  intros Hd Hs Hm Ht Hsi Hti. pose proof (typed_eth _ _ TYPE_ARP Hd Hs ltac:(done)) as Te.
  assert (Ta : typed ArpPacket (arp_value 1 (macs sender) sender_ip (macs target) target_ip) = true) by (by apply typed_arp).
  pose proof (zlen_enc _ _ Te) as Ze. pose proof (zlen_enc _ _ Ta) as Za. set (av := arp_value 1 _ _ _ _) in *. set (ev := eth_value _ _ _) in *.
  pose proof (zlen_nonneg padding). unfold receive_arp. rewrite !zlen_app, Ze, Za. rewrite (proj2 (Z.ltb_ge _ _)) by (change ethernet_size with (ty_size EthernetHeader); lia).
  rewrite struct_read_enc by done. cbn [mbind outcome_bind].
  replace (subarray _ ethernet_size _) with (enc ArpPacket av ++ padding).
  2:{ rewrite <- Ze, <- Za, <- !zlen_app. change ethernet_size with (ty_size EthernetHeader). rewrite <- Ze. by rewrite subarray_app_r. }
  rewrite struct_read_enc by done. cbn [mbind outcome_bind].
  change (ev.["type"]) with TYPE_ARP. change (av.["target_ip"]) with target_ip.
  change (av.["sender_ip"]) with sender_ip. change (field av "sender_mac") with (macs sender).
  match goal with |- (if ?c then _ else _) = _ => replace c with (negb (target_ip =? GATEWAY_IP)) by done end.
  destruct (target_ip =? GATEWAY_IP); [|done]. cbn [negb].
  set (reply := enc EthernetHeader _ ++ _).
  destruct (builds_run (emit EthernetHeader (eth_value sender GATEWAY_MAC TYPE_ARP) ;;
    emit ArpPacket (arp_value 2 (macs GATEWAY_MAC) GATEWAY_IP (macs sender) sender_ip)) (ethernet_size + ty_size ArpPacket)
    (zlen (enc EthernetHeader (eth_value sender GATEWAY_MAC TYPE_ARP))) reply) as (b&E&Hb).
  - done.
  - eapply builds_bind; [apply (builds_emit []), typed_eth; done || apply gateway_mac_ok|]. apply builds_emit, typed_arp; done || apply gateway_mac_ok.
  - unfold eth_value in E at 1. rewrite E. cbn [mbind outcome_bind]. by rewrite Hb.
Qed.
Lemma arp_answers_witness :
  receive_arp (enc EthernetHeader (eth_value (replicate 6 255) [2; 0; 0; 0; 0; 2] TYPE_ARP) ++
    enc ArpPacket (arp_value 1 (macs [2; 0; 0; 0; 0; 2]) (GATEWAY_IP + 1) (macs (replicate 6 0)) GATEWAY_IP) ++ zeros 18) =
  Done (if GATEWAY_IP =? GATEWAY_IP
        then Some (enc EthernetHeader (eth_value [2; 0; 0; 0; 0; 2] GATEWAY_MAC TYPE_ARP) ++
               enc ArpPacket (arp_value 2 (macs GATEWAY_MAC) GATEWAY_IP (macs [2; 0; 0; 0; 0; 2]) (GATEWAY_IP + 1)))
        else None).
Proof.
  apply arp_answers; try (split; [reflexivity|apply (bool_decide_unpack _); vm_compute; exact I]); unfold GATEWAY_IP; lia.
Defined.
