(* ===== verification/Gateway.v ===== *)
(** The gateway of packages/linux-guest/src/network.ts: [createNetwork], with its
    attachments and its tables of flows, over the TCP flows of Tcp.v, the table of
    Reassembly.v and the answers of GatewayDns.v.

    A flow is a [sys] of Tcp.v; what its operations log is done by the gateway, in
    order: a segment sent is handed to the Ethernet port, a deleted flow leaves the
    table. The keys of the tables are the numbers the source joins with colons.
    User code that runs inside an operation (a stream's or a signal's callbacks) does
    not call the network back. *)
From S2P Require Export GatewayDns Reassembly Tcp.

Definition UDP_READABLE_QUEUE_CAP : Z := 64.
Definition FIRST_PORT : Z := 49152.

Record attachment := Attachment { at_address : text; at_ip : Z; at_mac : list Z }.
#[export] Instance attachment_eq_dec : EqDecision attachment.
Proof. solve_decision. Defined.

(** A connection's ends: the guest's address and port, then the peer's. *)
Abbreviation tcp_key := (Z * Z * Z * Z)%type.
Abbreviation udp_key := (Z * Z * Z)%type.
Record tcp_entry := TcpEntry { te_guest : attachment; te_outbound : bool; te_sys : sys }.
#[export] Instance tcp_entry_eta : Eta tcp_entry := fun e => TcpEntry (te_guest e) (te_outbound e) (te_sys e).
Record udp_flow := UdpFlow {
  uf_guest : attachment; uf_guest_port : Z; uf_host_port : Z; uf_stream : stream; uf_closed : bool }.
#[export] Instance udp_flow_eta : Eta udp_flow := fun u =>
  UdpFlow (uf_guest u) (uf_guest_port u) (uf_host_port u) (uf_stream u) (uf_closed u).

(** What the gateway does outside: frames it sends, what its flows' promises come
    to, the sessions and the names it hands to the host's handlers. *)
Inductive output :=
| Frame (frame : list Z)
| FlowEvent (i : nat) (e : event)
| Session (i : nat) (hostname : text) (port : Z)
| Resolve (query : nat) (hostname : text).

Record dns_query := DnsQuery { dq_guest : attachment; dq_datagram : udp_parsed }.
Record gateway := Gateway {
  gw_next_address : Z; gw_next_port : Z; gw_identifier : Z; gw_closed : bool;
  gw_attachments : list (Z * attachment);
  gw_tcp : list (tcp_key * nat); gw_flows : list tcp_entry;
  gw_udp : list (udp_key * nat); gw_udp_flows : list udp_flow;
  gw_reassemblies : table; gw_queries : list (option dns_query);
  gw_down : bool; gw_log : list output }.
#[export] Instance gateway_eta : Eta gateway := fun g =>
  Gateway (gw_next_address g) (gw_next_port g) (gw_identifier g) (gw_closed g) (gw_attachments g) (gw_tcp g) (gw_flows g)
    (gw_udp g) (gw_udp_flows g) (gw_reassemblies g) (gw_queries g) (gw_down g) (gw_log g).
Definition gateway_new : gateway := Gateway 2 FIRST_PORT 0 false [] [] [] [] [] [] [] false [].

Abbreviation G := (M gateway).
Definition log_output (o : output) : G unit := modify (fun g => g <| gw_log := gw_log g ++ [o] |>).

(** [gateway.send]: the switch drops what is sent once it is closed. *)
Definition gateway_send (frame : list Z) : G unit :=
  g ← get_state; if gw_down g then mret tt else log_output (Frame frame).
Fixpoint gateway_send_all (frames : list (list Z)) : G unit :=
  match frames with [] => mret tt | frame :: frames => gateway_send frame ;; gateway_send_all frames end.
(** [send_ip] to a guest. *)
Definition send_to_guest (guest : attachment) (source_ip protocol : Z) (payload : list Z) : G unit := fun g =>
  let '(o, identifier) := send_ip (at_mac guest) source_ip (at_ip guest) protocol payload (gw_identifier g) in
  (frames ← lift o; gateway_send_all frames) (g <| gw_identifier := identifier |>).

(** [allocate_port] *)
Fixpoint allocate_from (in_use : Z → bool) (attempts : nat) : G Z :=
  match attempts with
  | O => throw (JsError "no network ports available")
  | S attempts =>
      g ← get_state;
      let port := gw_next_port g in
      put_state (g <| gw_next_port := if port =? 65535 then FIRST_PORT else port + 1 |>) ;;
      if in_use port then allocate_from in_use attempts else mret port
  end.
Definition allocate_port (in_use : Z → bool) : G Z := allocate_from in_use (Z.to_nat (65535 - FIRST_PORT)).

(** * Flows *)

Definition flow_key (f : flow) : tcp_key := (fl_guest_ip f, fl_guest_port f, fl_peer_ip f, fl_peer_port f).
(** What a call throws is left to the promise it gave. *)
Definition ignored {A} (m : G A) : G unit := fun g => (Done tt, (m g).2).
(** What a flow's event does. *)
Definition perform (i : nat) (guest : attachment) (f : flow) (e : event) : G unit :=
  match e with
  | Sent flags sequence acknowledgement payload window =>
      ignored (segment ← lift (tcp_segment (fl_peer_ip f) (at_ip guest) (fl_peer_port f) (fl_guest_port f) sequence acknowledgement flags payload window);
               send_to_guest guest (fl_peer_ip f) PROTO_TCP segment)
  | Deleted => modify (fun g => g <| gw_tcp := remove_key (flow_key f) (gw_tcp g) |>)
  | e => log_output (FlowEvent i e)
  end.
Fixpoint perform_all (i : nat) (guest : attachment) (f : flow) (es : list event) : G unit :=
  match es with [] => mret tt | e :: es => perform i guest f e ;; perform_all i guest f es end.
(** A step of a flow, with what it logs. *)
Definition with_flow (i : nat) (step : sys → sys) : G unit :=
  g ← get_state;
  match gw_flows g !! i with
  | None => mret tt
  | Some t =>
      let s := te_sys t in
      let s' := step s in
      put_state (g <| gw_flows := <[i := t <| te_sys := s' |>]> (gw_flows g) |>) ;;
      perform_all i (te_guest t) (sy_flow s') (drop (length (fl_log (sy_flow s))) (fl_log (sy_flow s')))
  end.
Definition on_flow (op : flow → flow) (s : sys) : sys := s <| sy_flow := op (sy_flow s) |>.
Definition abort_flow (error : option exn) (i : nat) : G unit := with_flow i (on_flow (abort_tcp_flow error)).
Fixpoint abort_flows (error : option exn) (is_ : list nat) : G unit :=
  match is_ with [] => mret tt | i :: is_ => abort_flow error i ;; abort_flows error is_ end.
Definition add_flow (t : tcp_entry) : G nat :=
  g ← get_state;
  put_state (g <| gw_flows := gw_flows g ++ [t] |> <| gw_tcp := gw_tcp g ++ [(flow_key (sy_flow (te_sys t)), length (gw_flows g))] |>) ;;
  mret (length (gw_flows g)).

(** [start_outbound_tcp], up to the call of the handler; [initial] is random. *)
Definition start_outbound_tcp (initial : Z) (guest : attachment) (ip : ip_parsed) (segment : tcp_parsed) : G unit :=
  g ← get_state;
  let key := (ip_source ip, ts_source_port segment, ip_destination ip, ts_destination_port segment) in
  if bool_decide (key ∈ (gw_tcp g).*1) then mret tt
  else
    let f := outbound_flow (ip_source ip) (ts_source_port segment) (ip_destination ip) (ts_destination_port segment) initial segment in
    let f := host_tcp_connection true (expire_tcp_handshake f) in
    i ← add_flow (TcpEntry guest true (sys_start f));
    log_output (Session i (if ip_destination ip =? GATEWAY_IP then lit "127.0.0.1" else ipv4_string (ip_destination ip))
      (ts_destination_port segment)).

(** * Frames from the guests *)
Definition receive_tcp (initial : Z) (ip : ip_parsed) (source_mac : list Z) : G unit :=
  parsed ← lift (parse_tcp (ip_payload ip));
  g ← get_state;
  match parsed, find_key (ip_source ip) (gw_attachments g) with
  | Some segment, Some guest =>
      if negb (bool_decide (source_mac = at_mac guest)) then mret tt
      else
        let key := (ip_source ip, ts_source_port segment, ip_destination ip, ts_destination_port segment) in
        match find_key key (gw_tcp g) with
        | None =>
            if (negb (ts_flags segment &&& SYN =? 0) && (ts_flags segment &&& ACK =? 0))%bool
            then start_outbound_tcp initial guest ip segment else mret tt
        | Some i => with_flow i (on_flow (fun f => f <| fl_receive_tail := fl_receive_tail f ++ [JSegment segment] |>))
        end
  | _, _ => mret tt
  end.

(** [receive_dns], cut where it waits for the resolver; nothing it throws leaves it. *)
Definition receive_dns (guest : attachment) (datagram : udp_parsed) : G unit :=
  match decode_dns_name (ud_payload datagram) 12 with
  | Done (hostname, _) =>
      g ← get_state;
      put_state (g <| gw_queries := gw_queries g ++ [Some (DnsQuery guest datagram)] |>) ;;
      log_output (Resolve (length (gw_queries g)) hostname)
  | _ => mret tt
  end.
Definition dns_resolved (q : nat) (addresses : outcome (list text)) : G unit :=
  g ← get_state;
  match gw_queries g !! q with
  | Some (Some query) =>
      put_state (g <| gw_queries := <[q := None]> (gw_queries g) |>) ;;
      catch (addresses ← lift addresses;
             response ← lift (dns_response (ud_payload (dq_datagram query)) addresses);
             udp ← lift (udp_datagram 53 (ud_source_port (dq_datagram query)) response);
             send_to_guest (dq_guest query) GATEWAY_IP PROTO_UDP udp) (fun _ => mret tt)
  | _ => mret tt
  end.

Definition with_udp (i : nat) (op : M udp_flow unit) : G unit := fun g =>
  match gw_udp_flows g !! i with
  | None => (Done tt, g)
  | Some u => let '(o, u) := op u in (o, g <| gw_udp_flows := <[i := u]> (gw_udp_flows g) |>)
  end.
Definition on_udp_stream (op : M stream unit) : M udp_flow unit := fun u =>
  let '(o, s) := op (uf_stream u) in (o, u <| uf_stream := s |>).
Definition receive_udp (ip : ip_parsed) : G unit :=
  parsed ← lift (parse_udp (ip_payload ip));
  g ← get_state;
  match parsed, find_key (ip_source ip) (gw_attachments g) with
  | Some datagram, Some guest =>
      if ((ip_destination ip =? GATEWAY_IP) && (ud_destination_port datagram =? 53))%bool then receive_dns guest datagram
      else if negb (ip_destination ip =? GATEWAY_IP) then mret tt
      else
        match find_key (ip_source ip, ud_source_port datagram, ud_destination_port datagram) (gw_udp g) with
        | None => mret tt
        | Some i =>
            with_udp i (fun u =>
              if 0 <? default 0 (desired_size (uf_stream u))
              then on_udp_stream (stream_enqueue (ud_payload datagram)) u else (Done tt, u))
        end
  | _, _ => mret tt
  end.
Definition receive_frame (initial : Z) (frame : list Z) : G unit :=
  reply ← lift (receive_arp frame);
  match reply with Some reply => gateway_send reply | None => mret tt end ;;
  fragment ← lift (parse_ip frame);
  match fragment with
  | None => mret tt
  | Some fragment =>
      g ← get_state;
      let '(packet, reassemblies) := reassemble_ip fragment (gw_reassemblies g) in
      put_state (g <| gw_reassemblies := reassemblies |>) ;;
      match packet with
      | None => mret tt
      | Some ip =>
          header ← lift (struct_read EthernetHeader frame);
          let source_mac := nums (field header "source") in
          if ip_protocol ip =? PROTO_TCP then receive_tcp initial ip source_mac
          else if ip_protocol ip =? PROTO_UDP then receive_udp ip
          else mret tt
      end
  end.

(** * Connections from the host *)
Definition valid_port (port : Z) : bool := (0 <? port) && (port <=? 65535).

(** Both kinds first find the guest. *)
Definition guest_at (hostname : text) (port : Z) (invalid : exn) : G attachment :=
  g ← get_state;
  if gw_closed g then throw (JsError "network is closed")
  else if negb (valid_port port) then throw invalid
  else
    address ← lift (ipv4_number hostname);
    match find_key address (gw_attachments g) with
    | None => throw (JsError "address is not attached to this network")
    | Some guest => mret guest
    end.

(** [connect_tcp]: the flow whose handshake is the promise. [aborted] is the reason
    of a signal that is aborted already, [initial] is random. *)
Definition connect_tcp (hostname : text) (port : Z) (aborted : option exn) (initial : Z) : G nat :=
  match aborted with
  | Some reason => throw reason
  | None =>
      guest ← guest_at hostname port (JsTypeError "invalid TCP port");
      g ← get_state;
      host_port ← allocate_port (fun candidate => bool_decide ((at_ip guest, port, GATEWAY_IP, candidate) ∈ (gw_tcp g).*1));
      i ← add_flow (TcpEntry guest false (sys_start (expire_tcp_handshake (connect_flow (at_ip guest) port GATEWAY_IP host_port initial))));
      syn ← lift (tcp_segment GATEWAY_IP (at_ip guest) host_port port initial 0 SYN [] TCP_RECEIVE_WINDOW);
      catch (send_to_guest guest GATEWAY_IP PROTO_TCP syn) (fun e => with_flow i (on_flow (close_tcp_flow (Some e)))) ;;
      mret i
  end.

Definition connect_udp (hostname : text) (port : Z) : G nat :=
  guest ← guest_at hostname port (JsTypeError "invalid UDP port");
  g ← get_state;
  host_port ← allocate_port (fun candidate => bool_decide ((at_ip guest, port, candidate) ∈ (gw_udp g).*1));
  g ← get_state;
  let i := length (gw_udp_flows g) in
  put_state (g <| gw_udp_flows := gw_udp_flows g ++ [UdpFlow guest port host_port (stream_new UDP_READABLE_QUEUE_CAP (fun _ => 1)) false] |>
               <| gw_udp := gw_udp g ++ [((at_ip guest, port, host_port), i)] |>) ;;
  mret i.
Definition udp_flow_key (u : udp_flow) : udp_key := (at_ip (uf_guest u), uf_guest_port u, uf_host_port u).
(** [close] of a UDP connection. *)
Definition udp_close (i : nat) : G unit :=
  g ← get_state;
  match gw_udp_flows g !! i with
  | None => mret tt
  | Some u =>
      if uf_closed u then mret tt
      else
        put_state (g <| gw_udp_flows := <[i := u <| uf_closed := true |>]> (gw_udp_flows g) |>
                     <| gw_udp := remove_key (udp_flow_key u) (gw_udp g) |>) ;;
        catch (with_udp i (on_udp_stream stream_close)) (fun _ => mret tt)
  end.
(** The user reads from the readable half, or cancels it. *)
Definition udp_read (i : nat) : G unit := with_udp i (fun u => (Done tt, u <| uf_stream := stream_read (uf_stream u) |>)).
Definition udp_cancel (i : nat) : G unit :=
  g ← get_state;
  match gw_udp_flows g !! i with
  | None => mret tt
  | Some u =>
      if bool_decide (st_state (uf_stream u) = Readable ∨ st_state (uf_stream u) = CloseRequested)
      then with_udp i (fun u => (Done tt, u <| uf_stream := stream_cancel (uf_stream u) |>)) ;; udp_close i
      else mret tt
  end.
Definition udp_write (i : nat) (payload : list Z) : G unit :=
  g ← get_state;
  match gw_udp_flows g !! i with
  | None => mret tt
  | Some u =>
      if uf_closed u then throw (JsError "UDP connection is closed")
      else
        datagram ← lift (udp_datagram (uf_host_port u) (uf_guest_port u) payload);
        send_to_guest (uf_guest u) GATEWAY_IP PROTO_UDP datagram
  end.

(** * Attachments *)
Definition attachment_of (suffix : Z) : attachment :=
  Attachment (lit "192.0.2." ++ decimal suffix) (GATEWAY_IP - 1 + suffix) [0x02; 0; 0; 0; 0; suffix].
(** [do_attach_guest] *)
Definition attach : G attachment :=
  g ← get_state;
  if gw_closed g then throw (JsError "network is closed")
  else if 254 <? gw_next_address g then throw (JsError "network has no guest addresses left")
  else
    let a := attachment_of (gw_next_address g) in
    put_state (g <| gw_next_address := gw_next_address g + 1 |> <| gw_attachments := gw_attachments g ++ [(at_ip a, a)] |>) ;;
    mret a.
Definition flow_guest (g : gateway) (i : nat) : option attachment := te_guest <$> gw_flows g !! i.
Definition udp_guest (g : gateway) (i : nat) : option attachment := uf_guest <$> gw_udp_flows g !! i.
Fixpoint end_udp_flows (delete : bool) (is_ : list nat) : G unit :=
  match is_ with
  | [] => mret tt
  | i :: is_ =>
      g ← get_state;
      match gw_udp_flows g !! i with
      | None => mret tt
      | Some u =>
          put_state (g <| gw_udp_flows := <[i := u <| uf_closed := true |>]> (gw_udp_flows g) |>
                       <| gw_udp := if delete then remove_key (udp_flow_key u) (gw_udp g) else gw_udp g |>) ;;
          with_udp i (on_udp_stream stream_close)
      end ;;
      end_udp_flows delete is_
  end.
(** [close] of an attachment that has not been closed. *)
Definition detach (a : attachment) : G unit :=
  modify (fun g => g <| gw_attachments := remove_key (at_ip a) (gw_attachments g) |>) ;;
  g ← get_state;
  abort_flows (Some (JsError "guest detached from network"))
    (filter (fun i => flow_guest g i = Some a) (gw_tcp g).*2) ;;
  g ← get_state;
  end_udp_flows true (filter (fun i => udp_guest g i = Some a) (gw_udp g).*2) ;;
  modify (fun g => g <| gw_reassemblies := filter (fun kr => ra_source kr.2 ≠ at_ip a) (gw_reassemblies g) |>).
(** [close] of the network: its UDP flows leave their table once all are closed. *)
Definition close : G unit :=
  g ← get_state;
  if gw_closed g then mret tt
  else
    put_state (g <| gw_closed := true |>) ;;
    abort_flows (Some (JsError "network closed")) (gw_tcp g).*2 ;;
    end_udp_flows false (gw_udp g).*2 ;;
    modify (fun g => g <| gw_tcp := [] |> <| gw_udp := [] |> <| gw_reassemblies := [] |> <| gw_attachments := [] |>
                       <| gw_down := true |>).

(** * The gateway's steps

    A call returns or throws, and leaves the gateway as it is then; frames come as
    long as the port is open. *)
Inductive gateway_step : gateway → gateway → Prop :=
| GAttach g : gateway_step g (attach g).2
| GDetach g suffix : gateway_step g (detach (attachment_of suffix) g).2
| GClose g : gateway_step g (close g).2
| GConnectTcp g hostname port aborted initial : gateway_step g (connect_tcp hostname port aborted initial g).2
| GConnectUdp g hostname port : gateway_step g (connect_udp hostname port g).2
| GFrame g initial frame : gw_down g = false → gateway_step g (receive_frame initial frame g).2
| GResolved g q addresses : gateway_step g (dns_resolved q addresses g).2
| GFlow g i t s : gw_flows g !! i = Some t → flow_step (te_outbound t) (fun _ => False) (te_sys t) s →
    gateway_step g (with_flow i (fun _ => s) g).2
| GUdpClose g i : gateway_step g (udp_close i g).2
| GUdpRead g i : gateway_step g (udp_read i g).2
| GUdpCancel g i : gateway_step g (udp_cancel i g).2
| GUdpWrite g i payload : gateway_step g (udp_write i payload g).2
| GReassemblyTimeout g key : gateway_step g (g <| gw_reassemblies := discard key (gw_reassemblies g) |>).

(** * A flow leaves its table when it closes *)
Record flow_moves (f f' : flow) : Prop := FlowMoves {
  fm_key : flow_key f' = flow_key f;
  fm_log : ∃ l, fl_log f' = fl_log f ++ l ∧ (fl_closed f = true → fl_closed f' = true ∧ Deleted ∉ l) ∧
    (fl_closed f = false → fl_closed f' = true ↔ Deleted ∈ l) }.
#[export] Instance flow_moves_preorder : PreOrder flow_moves.
Proof.
  split.
  - intros f. split; [done|]. exists []. rewrite app_nil_r. assert (Deleted ∉ []) by apply not_elem_of_nil. split_and!; [done|done|].
    intros ->. by split.
  - intros f g h [K1 (l1&E1&C1&O1)] [K2 (l2&E2&C2&O2)]. split; [congruence|]. exists (l1 ++ l2). rewrite E2, E1, app_assoc.
    rewrite elem_of_app. split_and!; [done| |].
    + intros Hf. destruct (C1 Hf) as [Hg N1]. destruct (C2 Hg). naive_solver.
    + intros Hf. specialize (O1 Hf). destruct (fl_closed g); naive_solver.
Qed.
(** Most operations do not close. *)
Lemma moves_open f f' l : fl_log f' = fl_log f ++ l → Deleted ∉ l → fl_closed f' = fl_closed f → flow_key f' = flow_key f → flow_moves f f'.
Proof. intros Hl Hd Hc Hk. split; [done|]. exists l. rewrite Hc. split_and!; [done|done|]. intros ->. by split. Qed.
Lemma flow_moves_same f f' : fl_log f' = fl_log f → fl_closed f' = fl_closed f → flow_key f' = flow_key f → flow_moves f f'.
Proof. intros Hl. apply (moves_open _ _ []); [by rewrite app_nil_r|by apply not_elem_of_nil]. Qed.
Lemma flow_moves_log e f : e ≠ Deleted → flow_moves f (log e f).
Proof. intros He. apply (moves_open _ _ [e]); try done. intros ?%list_elem_of_singleton. congruence. Qed.
Lemma moves_settled {A} (ev : A → event) (ws : list A) f f' : (∀ a, ev a ≠ Deleted) → fl_log f' = fl_log f ++ (ev <$> ws) →
  fl_closed f' = fl_closed f → flow_key f' = flow_key f → flow_moves f f'.
Proof. intros He Hl. apply (moves_open _ _ _ Hl). intros (a&Ha&_)%list_elem_of_fmap. by destruct (He a). Qed.

Ltac moves := first [by apply flow_moves_log | by apply flow_moves_same | by eapply moves_settled].
Lemma moves_send_tcp flags payload f : flow_moves f (send_tcp flags payload f).
Proof. unfold send_tcp. etrans; [|by apply flow_moves_log]. moves. Qed.
Lemma moves_settle o f : flow_moves f (settle_activation o f).
Proof. unfold settle_activation. destruct (fl_activation_waiter f); [|moves]. etrans; [by apply (flow_moves_log (ActivationSettled o))|moves]. Qed.
Lemma moves_signal e f : flow_moves f (signal_abort e f).
Proof. unfold signal_abort. destruct (fl_abort f); [moves|done]. Qed.
Lemma moves_end_readable e f : flow_moves f (end_readable e f).
Proof.
  unfold end_readable. destruct e as [e|]; [|moves]. destruct (fl_handshake _); [|moves]. etrans; [|by apply flow_moves_log]. moves.
Qed.
Lemma moves_reject_acks e f : flow_moves f (reject_ack_waiters e f).
Proof. by eapply (moves_settled (fun w => AckSettled w.1 (Some e))). Qed.
Lemma moves_reject_windows e f : flow_moves f (reject_window_waiters e f).
Proof. by eapply (moves_settled (fun w => WindowSettled w (Some e))). Qed.
Lemma moves_close e f : flow_moves f (close_tcp_flow e f).
Proof.
  unfold close_tcp_flow. destruct (fl_closed f) eqn:Hc; [done|]. generalize (default closed_error e). intros reason.
  etrans; [|apply moves_end_readable]. etrans; [|apply moves_signal]. etrans; [|apply moves_settle].
  etrans; [|apply moves_reject_windows]. etrans; [|apply moves_reject_acks].
  split; [done|]. exists [Deleted]. rewrite Hc. split_and!; [done|done|]. intros _. split; [intros _; by constructor|done].
Qed.
Lemma moves_abort e f : flow_moves f (abort_tcp_flow e f).
Proof. unfold abort_tcp_flow. destruct (fl_closed f); [done|]. etrans; [apply moves_send_tcp|apply moves_close]. Qed.
Lemma moves_handshake_timeout m f : flow_moves f (handshake_timeout m f).
Proof. unfold handshake_timeout. destruct (_ && _)%bool; [|done]. etrans; [|apply moves_abort]. moves. Qed.
Lemma moves_reject e f : flow_moves f (reject_outbound_tcp e f).
Proof. unfold reject_outbound_tcp. etrans; [|apply moves_close]. moves. Qed.
Lemma moves_ack_timeout w f : flow_moves f (ack_timeout w f).
Proof. unfold ack_timeout. case_decide; [|done]. etrans; [|by apply flow_moves_log]. moves. Qed.
Lemma moves_acknowledge a f : flow_moves f (acknowledge_waiters a f).
Proof. by eapply (moves_settled (fun w => AckSettled w.1 None)). Qed.
Lemma moves_peer_window w f : flow_moves f (update_peer_window w f).
Proof. unfold update_peer_window. destruct (w =? 0); [moves|]. by eapply (moves_settled (fun w => WindowSettled w None)). Qed.
Lemma moves_establish f : flow_moves f (establish_tcp_flow f).
Proof.
  unfold establish_tcp_flow. transitivity (settle_activation None (f <| fl_established := true |>)); [|moves].
  etrans; [|apply moves_settle]. moves.
Qed.
Create HintDb moves.
#[export] Hint Resolve moves_send_tcp moves_settle moves_close moves_abort moves_handshake_timeout moves_reject moves_ack_timeout
  moves_acknowledge moves_peer_window moves_establish : moves.
Ltac flow_moves := stays_with ltac:(auto with moves); try moves.
Lemma moves_wait_for_ack a : stays flow_moves (wait_for_ack a).
Proof. intros f. cbn. moves. Qed.
Lemma moves_push : stays flow_moves push_window_waiter.
Proof. intros f. cbn. moves. Qed.
#[export] Hint Resolve moves_wait_for_ack moves_push : moves.
Lemma moves_wait k1 k2 : stays flow_moves (wait_for_peer_window k1 k2).
Proof. unfold wait_for_peer_window. flow_moves. Qed.
#[export] Hint Resolve moves_wait : moves.
Lemma moves_send_data data offset : stays flow_moves (send_tcp_data data offset).
Proof. unfold send_tcp_data. flow_moves. Qed.
Lemma moves_send_piece data offset w : stays flow_moves (send_tcp_piece data offset w).
Proof. unfold send_tcp_piece. flow_moves. Qed.
Lemma moves_send_fin : stays flow_moves send_tcp_fin.
Proof. unfold send_tcp_fin. flow_moves. Qed.
Lemma moves_fin_segment : stays flow_moves send_fin_segment.
Proof. unfold send_fin_segment. flow_moves. Qed.
Lemma moves_activate : stays flow_moves activate_flow.
Proof. unfold activate_flow. flow_moves. Qed.
Lemma moves_readable_op op g : (∀ f, flow_moves f (g f)) → stays flow_moves (readable_op op g).
Proof.
  intros Hg f. unfold readable_op. destruct (fl_readable f) as [s|]; [|done]. destruct (op s) as [[u|e|] s']; cbn; [|moves|moves].
  etrans; [|apply Hg]. moves.
Qed.
#[export] Hint Resolve moves_send_data moves_send_piece moves_send_fin moves_fin_segment moves_activate : moves.
Lemma moves_accept_payload p : stays flow_moves (accept_payload p).
Proof. unfold accept_payload. flow_moves. apply moves_readable_op. intros f. moves. Qed.
Lemma moves_accept_fin flags : stays flow_moves (accept_fin flags).
Proof. unfold accept_fin. flow_moves. by apply moves_readable_op. Qed.
#[export] Hint Resolve moves_accept_payload moves_accept_fin : moves.
Lemma moves_process_data segment : stays flow_moves (process_data segment).
Proof. unfold process_data. flow_moves. Qed.
Lemma moves_process_handshake segment : stays flow_moves (process_handshake segment).
Proof. unfold process_handshake. flow_moves. Qed.
Lemma moves_note_ack segment : stays flow_moves (note_ack segment).
Proof. unfold note_ack. flow_moves. Qed.
#[export] Hint Resolve moves_process_data moves_process_handshake moves_note_ack : moves.
Lemma moves_run_job j : stays flow_moves (run_job j).
Proof. destruct j; cbn [run_job]; [unfold process_tcp|unfold process_window]; flow_moves. Qed.
Lemma moves_resume t o : stays flow_moves (resume t o).
Proof.
  unfold resume. apply stays_bind; [typeclasses eauto|apply stays_lift; typeclasses eauto|intros _].
  destruct t; flow_moves. etrans; [by apply (flow_moves_log HandshakeResolved)|moves].
Qed.

(** Every step of a flow. *)
Lemma moves_step outbound arrives s s' : flow_step outbound arrives s s' → flow_moves (sy_flow s) (sy_flow s').
Proof.
  destruct 1; try solve [exact (moves_ack_timeout _ _)|exact (moves_abort _ _)|exact (moves_handshake_timeout _ _)|exact (moves_reject _ _)|moves].
  - pose proof (moves_run_job j (sy_flow s <| fl_receive_tail := tl |>)) as Hm.
    transitivity (sy_flow s <| fl_receive_tail := tl |>); [moves|].
    destruct (run_job j _) as [[t|e|] f]; cbn in *; [done| |done]. etrans; [exact Hm|apply moves_abort].
  - pose proof (moves_resume t o (sy_flow s)) as Hm. destruct (resume t o (sy_flow s)) as [[t'|e|] f]; cbn in *; [done| |done].
    etrans; [exact Hm|apply moves_abort].
  - pose proof (moves_send_data data 0 (sy_flow s)) as Hm. destruct (send_tcp_data data 0 (sy_flow s)) as [[t|e|] f]; exact Hm.
  - pose proof (moves_send_fin (sy_flow s)) as Hm. destruct (send_tcp_fin (sy_flow s)) as [[t|e|] f]; exact Hm.
  - pose proof (moves_resume t o (sy_flow s)) as Hm. destruct (resume t o (sy_flow s)) as [[t'|e|] f]; exact Hm.
  - pose proof (moves_activate (sy_flow s)) as Hm. destruct (activate_flow (sy_flow s)) as [[t|e|] f]; exact Hm.
  - pose proof (moves_resume t o (sy_flow s)) as Hm. destruct (resume t o (sy_flow s)) as [[t'|e|] f]; exact Hm.
  - pose proof (moves_send_fin (sy_flow s)) as Hm. destruct (send_tcp_fin (sy_flow s)) as [[t|e|] f]; cbn in *; [done| |done].
    etrans; [exact Hm|apply moves_abort].
  - pose proof (moves_resume t o (sy_flow s)) as Hm. destruct (resume t o (sy_flow s)) as [[t'|e|] f]; cbn in *; [done| |done].
    etrans; [exact Hm|apply moves_abort].
Qed.

(** * The gateway's parts

    What an operation sends changes the counter of identifiers and the log alone. *)
Definition quiet (g g' : gateway) : Prop := ∃ i l, g' = g <| gw_identifier := i |> <| gw_log := l |>.
#[export] Instance quiet_preorder : PreOrder quiet.
Proof.
  split; [intros []; by eexists _, _|]. intros g1 g2 g3 (i1&l1&->) (i2&l2&->). by exists i2, l2.
Qed.
Lemma quiet_log o : stays quiet (log_output o).
Proof. intros []. by eexists _, _. Qed.
Lemma quiet_send frame : stays quiet (gateway_send frame).
Proof. unfold gateway_send. stays_with ltac:(apply quiet_log). Qed.
Lemma quiet_send_all frames : stays quiet (gateway_send_all frames).
Proof. induction frames as [|frame frames IH]; cbn [gateway_send_all]; stays_with ltac:(first [apply quiet_send|exact IH]). Qed.
Lemma quiet_to_guest guest source protocol payload : stays quiet (send_to_guest guest source protocol payload).
Proof.
  intros g. unfold send_to_guest. destruct (send_ip _ _ _ _ _ _) as [o identifier].
  transitivity (g <| gw_identifier := identifier |>); [by exists identifier, (gw_log g); destruct g|].
  revert g. generalize identifier. intros j g. generalize (g <| gw_identifier := j |>). change (stays quiet (frames ← lift o; gateway_send_all frames)).
  stays_with ltac:(apply quiet_send_all).
Qed.
Lemma quiet_ignored {A} (m : G A) : stays quiet m → stays quiet (ignored m).
Proof. intros Hm g. apply Hm. Qed.
Lemma quiet_perform i guest f e : e ≠ Deleted → stays quiet (perform i guest f e).
Proof.
  intros He. destruct e; try done; try apply quiet_log. apply quiet_ignored.
  stays_with ltac:(apply quiet_to_guest).
Qed.

Lemma remove_key_twice {K V} `{EqDecision K} (k : K) (l : list (K * V)) : remove_key k (remove_key k l) = remove_key k l.
Proof. unfold remove_key. rewrite list_filter_filter. apply list_filter_iff. naive_solver. Qed.
(** A flow's events, done. *)
Lemma perform_done i guest f e g : (perform i guest f e g).1 = Done tt.
Proof. by destruct e. Qed.
Lemma perform_all_spec i guest f es g : ∃ g', perform_all i guest f es g = (Done tt, g') ∧
  quiet (g <| gw_tcp := if decide (Deleted ∈ es) then remove_key (flow_key f) (gw_tcp g) else gw_tcp g |>) g'.
Proof.
  revert g; induction es as [|e es IH]; intros g.
  - exists g. split; [done|]. rewrite decide_False by apply not_elem_of_nil. by destruct g.
  - cbn [perform_all]. pose proof (perform_done i guest f e g) as Hd. destruct (perform i guest f e g) as [o g1] eqn:E. cbn in Hd. subst o.
    destruct (IH g1) as (g'&E'&Hq). exists g'. split; [by rewrite (M_bind_done _ _ _ _ _ E)|]. etrans; [|exact Hq].
    destruct (decide (e = Deleted)) as [->|He].
    + rewrite decide_True by by constructor. injection E as <-. case_decide; destruct g; [|by eexists _, _].
      eexists _, _. cbn. f_equal. apply remove_key_twice.
    + pose proof (quiet_perform i guest f e He g) as Hq1. rewrite E in Hq1. destruct Hq1 as (j&l&Hg). cbn [snd] in Hg. subst g1.
      assert (Hdec : Deleted ∈ e :: es ↔ Deleted ∈ es) by (rewrite elem_of_cons; naive_solver).
      rewrite (decide_ext _ _ _ _ Hdec). destruct g; by exists j, l.
Qed.

(** A step of a flow moves the flow, and takes it out of its table when it closes. *)
Definition after_step (tcp : list (tcp_key * nat)) (f f' : flow) : list (tcp_key * nat) :=
  if (fl_closed f' && negb (fl_closed f))%bool then remove_key (flow_key f') tcp else tcp.
Lemma with_flow_spec i step g t : gw_flows g !! i = Some t → flow_moves (sy_flow (te_sys t)) (sy_flow (step (te_sys t))) →
  ∃ g', with_flow i step g = (Done tt, g') ∧
    quiet (g <| gw_flows := <[i := t <| te_sys := step (te_sys t) |>]> (gw_flows g) |>
             <| gw_tcp := after_step (gw_tcp g) (sy_flow (te_sys t)) (sy_flow (step (te_sys t))) |>) g'.
Proof.
  intros Ht [Hk (l&Hl&Hc&Ho)]. set (f := sy_flow (te_sys t)) in *. set (f' := sy_flow (step (te_sys t))) in *.
  set (g1 := g <| gw_flows := <[i := t <| te_sys := step (te_sys t) |>]> (gw_flows g) |>).
  destruct (perform_all_spec i (te_guest t) f' l g1) as (g'&E&Hq). exists g'.
  assert (Hd : drop (length (fl_log f)) (fl_log f') = l) by (rewrite Hl; apply drop_app_length).
  split.
  - unfold with_flow. erewrite (M_bind_done get_state) by done. rewrite Ht. fold f f'. rewrite Hd. erewrite M_bind_done by done. exact E.
  - unfold after_step.
    replace (if (fl_closed f' && _)%bool then _ else _) with (if decide (Deleted ∈ l) then remove_key (flow_key f') (gw_tcp g1) else gw_tcp g1); [done|].
    destruct (fl_closed f), (fl_closed f'); case_decide; naive_solver.
Qed.

(** ** Tables of flows

    What is in a table are the live entries, each once under its key. *)
Section flow_table.
Context {K E : Type} `{EqDecision K} (key : E → K) (live : E → bool).

Record table_ok (good : E → Prop) (tbl : list (K * nat)) (ents : list E) : Prop := {
  tk_keys : NoDup tbl.*1;
  tk_entry : ∀ k i, (k, i) ∈ tbl → ∃ t, ents !! i = Some t ∧ live t = true ∧ key t = k ∧ good t;
  tk_live : ∀ i t, ents !! i = Some t → live t = true → (key t, i) ∈ tbl }.
(** An entry that is no longer live leaves the table. *)
Definition moved (tbl : list (K * nat)) (t t' : E) : list (K * nat) :=
  if (live t && negb (live t'))%bool then remove_key (key t) tbl else tbl.

Lemma elem_moved tbl t t' kv : kv ∈ moved tbl t t' ↔ kv ∈ tbl ∧ (live t = true → live t' = false → kv.1 ≠ key t).
Proof using. unfold moved. destruct (live t), (live t'); cbn; rewrite ?elem_remove_key; naive_solver. Qed.
Lemma table_update good tbl ents i t t' : table_ok good tbl ents → ents !! i = Some t → key t' = key t →
  (live t' = true → live t = true) → (live t' = true → good t → good t') → table_ok good (moved tbl t t') (<[i := t']> ents).
Proof using.
  intros [Hn He Hl] Ht Hk Hlt Hg. pose proof (lookup_lt_Some _ _ _ Ht) as Hi. split.
  - unfold moved. destruct (_ && _)%bool; [by apply remove_key_nodup|done].
  - intros k j [Hin Hne]%elem_moved. destruct (He _ _ Hin) as (u&Hu&Hlive&Hkey&Hgood).
    destruct (decide (j = i)) as [->|Hj]; [|exists u; by rewrite list_lookup_insert_ne].
    rewrite Ht in Hu. injection Hu as <-. exists t'. rewrite list_lookup_insert_eq by done. rewrite Hk.
    destruct (live t') eqn:Hl'; [by auto|]. by destruct (Hne Hlive eq_refl).
  - intros j u. destruct (decide (j = i)) as [->|Hj].
    + rewrite list_lookup_insert_eq by done. intros [= <-] Hlive. apply elem_moved. rewrite Hk. split; [by auto|congruence].
    + rewrite list_lookup_insert_ne by done. intros Hu Hlive. pose proof (Hl _ _ Hu Hlive) as Hin. apply elem_moved. split; [done|].
      intros Hlt' _ Heq. cbn in Heq. pose proof (Hl _ _ Ht Hlt') as Hin'. apply (find_key_nodup _ _ _ Hn) in Hin, Hin'. congruence.
Qed.
Lemma table_add good tbl ents t : table_ok good tbl ents → live t = true → key t ∉ tbl.*1 → good t →
  table_ok good (tbl ++ [(key t, length ents)]) (ents ++ [t]).
Proof using.
  intros [Hn He Hl] Ht Hk Hg. split.
  - rewrite fmap_app. apply NoDup_app. split_and!; [done| |apply NoDup_singleton]. by intros k Hin ->%list_elem_of_singleton.
  - intros k i [Hin|[= -> ->]%list_elem_of_singleton]%elem_of_app.
    + destruct (He _ _ Hin) as (u&Hu&?). exists u. split; [by apply lookup_app_l_Some|done].
    + exists t. by rewrite lookup_app_r, Nat.sub_diag by done.
  - intros i u [Hu|[Hi Hu]]%lookup_app_Some Hlive; apply elem_of_app; [left; by apply Hl|right].
    destruct (i - length ents)%nat as [|n] eqn:En; [|done]. injection Hu as <-. apply list_elem_of_singleton. f_equal. lia.
Qed.
Lemma table_impl (good good' : E → Prop) tbl ents : table_ok good tbl ents →
  (∀ i t, ents !! i = Some t → live t = true → good t → good' t) → table_ok good' tbl ents.
Proof using. intros [Hn He Hl] HQ. split; [done| |done]. intros k i Hin. destruct (He _ _ Hin) as (t&?&?&?&?). exists t. split_and!; eauto. Qed.
Lemma table_dead (good : E → Prop) ents : (∀ i t, ents !! i = Some t → live t = false) → table_ok good [] ents.
Proof using.
  intros Hd. split; [apply NoDup_nil_2|by intros k i ?%not_elem_of_nil|]. intros i t Ht Hl. specialize (Hd _ _ Ht). congruence.
Qed.
Lemma table_ids good tbl ents : table_ok good tbl ents → NoDup tbl.*2.
Proof using.
  intros [Hn He _]. induction tbl as [|[k i] tbl IH]; [apply NoDup_nil_2|]. cbn in *. apply NoDup_cons in Hn as [Hk Hn].
  apply NoDup_cons. split; [|apply IH; [done|intros k' i' Hin; apply He; by constructor]].
  intros ((k'&i')&Hi&Hin)%list_elem_of_fmap. cbn in Hi. subst i'.
  destruct (He k i) as (t&Ht&_&Hkt&_); [by constructor|]. destruct (He k' i) as (t'&Ht'&_&Hkt'&_); [by constructor|].
  apply Hk. apply list_elem_of_fmap. exists (k', i). split; [cbn; congruence|done].
Qed.
End flow_table.

(** ** The table of TCP flows: those of guests of which [P] holds *)
Definition live (t : tcp_entry) : bool := negb (fl_closed (sy_flow (te_sys t))).
Definition entry_key (t : tcp_entry) : tcp_key := flow_key (sy_flow (te_sys t)).
Definition tcp_good (P : attachment → Prop) (t : tcp_entry) : Prop := fl_guest_ip (sy_flow (te_sys t)) = at_ip (te_guest t) ∧ P (te_guest t).
Abbreviation tcp_ok P := (table_ok entry_key live (tcp_good P)).

Lemma tcp_ok_step P tcp flows i t s : tcp_ok P tcp flows → flows !! i = Some t → flow_moves (sy_flow (te_sys t)) (sy_flow s) →
  tcp_ok P (after_step tcp (sy_flow (te_sys t)) (sy_flow s)) (<[i := t <| te_sys := s |>]> flows).
Proof.
  intros Hok Ht [Hk (l&_&Hc&_)]. set (t' := t <| te_sys := s |>).
  replace (after_step _ _ _) with (moved entry_key live tcp t t').
  - apply table_update; [done|done|exact Hk| |].
    + unfold live, t'. cbn. destruct (fl_closed (sy_flow (te_sys t))); [|done]. by destruct (Hc eq_refl) as [-> _].
    + intros _ [Hip HP]. split; [|done]. unfold t'. cbn. injection Hk as Hk _ _ _. congruence.
  - unfold moved, after_step, live, t', entry_key. cbn. rewrite Hk. by destruct (fl_closed (sy_flow (te_sys t))), (fl_closed (sy_flow s)).
Qed.

Definition tcp_part (g g' : gateway) : Prop := ∃ tcp flows, quiet (g <| gw_flows := flows |> <| gw_tcp := tcp |>) g'.
#[export] Instance tcp_part_preorder : PreOrder tcp_part.
Proof.
  split; [intros g; exists (gw_tcp g), (gw_flows g); by destruct g|].
  intros g1 g2 g3 (t1&f1&i1&l1&->) (t2&f2&i2&l2&->). exists t2, f2, i2, l2. by destruct g1.
Qed.
Lemma with_flow_ok P i step g t : tcp_ok P (gw_tcp g) (gw_flows g) → gw_flows g !! i = Some t →
  flow_moves (sy_flow (te_sys t)) (sy_flow (step (te_sys t))) →
  ∃ g', with_flow i step g = (Done tt, g') ∧ tcp_part g g' ∧ tcp_ok P (gw_tcp g') (gw_flows g') ∧
    gw_flows g' = <[i := t <| te_sys := step (te_sys t) |>]> (gw_flows g).
Proof.
  intros Hok Ht Hm. destruct (with_flow_spec i step g t Ht Hm) as (g'&E&Hq). exists g'. split; [done|]. split; [by eexists _, _|].
  destruct Hq as (j&l&->). cbn. split; [|done]. by apply tcp_ok_step.
Qed.
Lemma abort_closes e f : fl_closed (abort_tcp_flow e f) = true.
Proof. unfold abort_tcp_flow. destruct (fl_closed f) eqn:Hf; [done|]. apply close_closes. Qed.
Lemma abort_flow_ok P e i g : tcp_ok P (gw_tcp g) (gw_flows g) →
  ∃ g', abort_flow e i g = (Done tt, g') ∧ tcp_part g g' ∧ tcp_ok P (gw_tcp g') (gw_flows g') ∧
    ∀ j t', gw_flows g' !! j = Some t' →
      ∃ t, gw_flows g !! j = Some t ∧ te_guest t' = te_guest t ∧ (live t = false → live t' = false) ∧ (j = i → live t' = false).
Proof.
  intros Hok. unfold abort_flow. destruct (gw_flows g !! i) as [t|] eqn:Ht.
  - destruct (with_flow_ok P i (on_flow (abort_tcp_flow e)) g t Hok Ht (moves_abort e _)) as (g'&E&Hp&Hok'&Hf).
    exists g'. split_and!; try done. rewrite Hf. intros j t'. destruct (decide (j = i)) as [->|Hj].
    + rewrite list_lookup_insert_eq by (by eapply lookup_lt_Some). intros [= <-]. exists t.
      assert (Hc : live (t <| te_sys := on_flow (abort_tcp_flow e) (te_sys t) |>) = false) by (unfold live; cbn; by rewrite abort_closes).
      by split_and!.
    + rewrite list_lookup_insert_ne by done. intros Ht'. by exists t'.
  - exists g. unfold with_flow. erewrite (M_bind_done get_state) by done. rewrite Ht. split_and!; try done. intros j t' Ht'. exists t'. split_and!; try done. intros ->. congruence.
Qed.
Lemma abort_flows_ok P e is_ g : tcp_ok P (gw_tcp g) (gw_flows g) →
  ∃ g', abort_flows e is_ g = (Done tt, g') ∧ tcp_part g g' ∧ tcp_ok P (gw_tcp g') (gw_flows g') ∧
    ∀ j t', gw_flows g' !! j = Some t' →
      ∃ t, gw_flows g !! j = Some t ∧ te_guest t' = te_guest t ∧ (live t = false → live t' = false) ∧ (j ∈ is_ → live t' = false).
Proof.
  revert g; induction is_ as [|i is_ IH]; intros g Hok; cbn [abort_flows].
  - exists g. split_and!; try done. intros j t' Ht'. exists t'. split_and!; try done. by intros ?%not_elem_of_nil.
  - destruct (abort_flow_ok P e i g Hok) as (g1&E1&Hp1&Hok1&H1). destruct (IH g1 Hok1) as (g2&E2&Hp2&Hok2&H2).
    exists g2. split_and!; [by rewrite (M_bind_done _ _ _ _ _ E1)|by etrans|done|].
    intros j t2 Ht2. destruct (H2 _ _ Ht2) as (t1&Ht1&Hg1&Hl1&Hi1). destruct (H1 _ _ Ht1) as (t&Ht&Hg&Hl&Hi).
    exists t. split_and!; [done|congruence|auto|]. intros [->|?]%elem_of_cons; auto.
Qed.

(** ** The table of UDP flows *)
Definition udp_live (u : udp_flow) : bool := negb (uf_closed u).
Definition udp_good (P : attachment → Prop) (u : udp_flow) : Prop := st_state (uf_stream u) = Readable ∧ P (uf_guest u).
(** A connection keeps at most 64 datagrams. *)
Definition queue_ok (u : udp_flow) : Prop :=
  st_hwm (uf_stream u) = UDP_READABLE_QUEUE_CAP ∧ (∀ c, st_size (uf_stream u) c = 1) ∧ queue_size (uf_stream u) ≤ UDP_READABLE_QUEUE_CAP.
Definition udp_ok (P : attachment → Prop) (udp : list (udp_key * nat)) (flows : list udp_flow) : Prop :=
  table_ok udp_flow_key udp_live (udp_good P) udp flows ∧ Forall queue_ok flows.

Lemma queue_ok_stream u s : queue_ok u → st_hwm s = st_hwm (uf_stream u) → st_size s = st_size (uf_stream u) →
  queue_size s ≤ queue_size (uf_stream u) ∨ queue_size s ≤ UDP_READABLE_QUEUE_CAP → queue_ok (u <| uf_stream := s |>).
Proof. intros (Hh&Hs&Hq) Eh Es Hle. unfold queue_ok. cbn. rewrite Eh, Es. split_and!; [done|done|lia]. Qed.
Lemma queue_ok_ops u : queue_ok u →
  queue_ok (u <| uf_stream := stream_read (uf_stream u) |>) ∧ queue_ok (u <| uf_stream := stream_cancel (uf_stream u) |>) ∧
  queue_ok (u <| uf_stream := (stream_close (uf_stream u)).2 |>).
Proof.
  intros Hq. assert (Hn : ∀ c, 0 ≤ st_size (uf_stream u) c) by (intros c; destruct Hq as (_&->&_); lia).
  destruct (stream_ops_shape (uf_stream u)) as (_&[Hc1 Hc2]&_&[Hr1 Hr2]&[Hx1 Hx2]).
  split_and!; apply queue_ok_stream; try done; left; [by apply queue_size_read|by apply queue_size_cancel|by apply queue_size_close].
Qed.
Lemma udp_update P udp flows i u u' : udp_ok P udp flows → flows !! i = Some u → udp_flow_key u' = udp_flow_key u → uf_guest u' = uf_guest u →
  (uf_closed u = true → uf_closed u' = true) → (uf_closed u' = false → st_state (uf_stream u') = st_state (uf_stream u)) → queue_ok u' →
  udp_ok P (moved udp_flow_key udp_live udp u u') (<[i := u']> flows).
Proof.
  intros [Hok Hq] Hu Hk Hg Hc Hs Hq'. split; [|by apply Forall_insert]. apply table_update; try done.
  - unfold udp_live. destruct (uf_closed u); [by rewrite Hc|done].
  - unfold udp_live, udp_good. rewrite negb_true_iff, Hg. intros Hc'. by rewrite Hs.
Qed.
Lemma moved_live udp u u' : uf_closed u' = uf_closed u → moved udp_flow_key udp_live udp u u' = udp.
Proof. unfold moved, udp_live. intros ->. by destruct (uf_closed u). Qed.
Lemma moved_closed udp u u' : uf_closed u = false → uf_closed u' = true →
  moved udp_flow_key udp_live udp u u' = remove_key (udp_flow_key u) udp.
Proof. unfold moved, udp_live. by intros -> ->. Qed.
Lemma queue_of P udp flows i u : udp_ok P udp flows → flows !! i = Some u → queue_ok u.
Proof. intros [_ Hq] Hu. by eapply Forall_lookup_1. Qed.

Definition udp_part (g g' : gateway) : Prop := ∃ udp flows, g' = g <| gw_udp_flows := flows |> <| gw_udp := udp |>.
#[export] Instance udp_part_preorder : PreOrder udp_part.
Proof.
  split; [intros g; exists (gw_udp g), (gw_udp_flows g); by destruct g|].
  intros g1 g2 g3 (t1&f1&->) (t2&f2&->). exists t2, f2. by destruct g1.
Qed.
Abbreviation gudp_ok P g := (udp_ok P (gw_udp g) (gw_udp_flows g)).

(** An operation on a stream alone. *)
Lemma with_udp_ok P i (op : M udp_flow unit) g : gudp_ok P g →
  (∀ u, gw_udp_flows g !! i = Some u → queue_ok u → let u' := (op u).2 in
     udp_flow_key u' = udp_flow_key u ∧ uf_guest u' = uf_guest u ∧ uf_closed u' = uf_closed u ∧ queue_ok u' ∧
     (uf_closed u = false → st_state (uf_stream u') = st_state (uf_stream u))) →
  udp_part g (with_udp i op g).2 ∧ gudp_ok P (with_udp i op g).2.
Proof.
  intros Hok Hop. unfold with_udp. destruct (gw_udp_flows g !! i) as [u|] eqn:Hu; [|done].
  destruct (Hop u eq_refl (queue_of _ _ _ _ _ Hok Hu)) as (Hk&Hg&Hc&Hq&Hs). destruct (op u) as [o u'] eqn:E. cbn in *.
  split; [exists (gw_udp g), (<[i := u']> (gw_udp_flows g)); by destruct g|]. rewrite <- (moved_live (gw_udp g) u u') by done.
  apply udp_update; try done; rewrite Hc; auto.
Qed.
(** A flow in the table is closed without an error. *)
Lemma close_readable s : st_state s = Readable → (stream_close s).1 = Done tt.
Proof. intros Hs. unfold stream_close. rewrite Hs. by destruct (st_queue s). Qed.
Definition ended (u : udp_flow) : udp_flow := u <| uf_closed := true |> <| uf_stream := (stream_close (uf_stream u)).2 |>.
Lemma udp_close_spec P i g : gudp_ok P g → ∃ g', udp_close i g = (Done tt, g') ∧ udp_part g g' ∧ gudp_ok P g'.
Proof.
  intros Hok. unfold udp_close. erewrite (M_bind_done get_state) by done. destruct (gw_udp_flows g !! i) as [u|] eqn:Hu; [|by exists g].
  destruct (uf_closed u) eqn:Hc; [by exists g|]. pose proof (lookup_lt_Some _ _ _ Hu).
  pose proof (queue_of _ _ _ _ _ Hok Hu) as Hq. erewrite M_bind_done by done.
  exists (g <| gw_udp_flows := <[i := ended u]> (gw_udp_flows g) |> <| gw_udp := moved udp_flow_key udp_live (gw_udp g) u (ended u) |>).
  split_and!; [|by eexists _, _|].
  - rewrite moved_closed by done. unfold catch, with_udp. cbn. rewrite list_lookup_insert_eq by done. unfold on_udp_stream. cbn.
    change (uf_stream (u <| uf_closed := true |>)) with (uf_stream u).
    unfold ended. destruct (stream_close (uf_stream u)) as [o s] eqn:E. cbn. rewrite list_insert_insert_eq. destruct g.
    assert (o ≠ Loops) by (intros ->; unfold stream_close in E; destruct (st_state (uf_stream u)), (st_queue (uf_stream u)); congruence).
    by destruct o as [[]| |].
  - apply udp_update; try done. apply (queue_ok_ops u Hq).
Qed.
Lemma udp_closed_after P i g u : gudp_ok P g → gw_udp_flows g !! i = Some u → uf_closed u = false →
  ∃ g', udp_close i g = (Done tt, g') ∧ udp_part g g' ∧ gudp_ok P g' ∧ gw_udp_flows g' = <[i := ended u]> (gw_udp_flows g) ∧
    end_udp_flows true [i] g = (Done tt, g').
Proof.
  intros Hok Hu Hc. pose proof (lookup_lt_Some _ _ _ Hu). pose proof (queue_of _ _ _ _ _ Hok Hu) as Hq.
  assert (Hr : st_state (uf_stream u) = Readable).
  { destruct Hok as [Hok _]. assert (Hl : udp_live u = true) by (unfold udp_live; by rewrite Hc).
    destruct (tk_entry _ _ _ _ _ Hok _ _ (tk_live _ _ _ _ _ Hok _ _ Hu Hl)) as (u'&Hu'&_&_&Hg&_). congruence. }
  pose proof (close_readable _ Hr) as Hd.
  assert (Hend : (with_udp i (on_udp_stream stream_close) (g <| gw_udp_flows := <[i := u <| uf_closed := true |>]> (gw_udp_flows g) |>
      <| gw_udp := remove_key (udp_flow_key u) (gw_udp g) |>)) =
    (Done tt, g <| gw_udp_flows := <[i := ended u]> (gw_udp_flows g) |> <| gw_udp := moved udp_flow_key udp_live (gw_udp g) u (ended u) |>)).
  { rewrite moved_closed by done. unfold with_udp. cbn. rewrite list_lookup_insert_eq by done. unfold on_udp_stream. cbn.
    change (uf_stream (u <| uf_closed := true |>)) with (uf_stream u). unfold ended.
    destruct (stream_close (uf_stream u)) as [o s] eqn:E. cbn in *. rewrite list_insert_insert_eq, Hd. by destruct g. }
  eexists. split_and!; [| | | |].
  - unfold udp_close. erewrite (M_bind_done get_state) by done. rewrite Hu, Hc. erewrite M_bind_done by done.
    unfold catch. rewrite Hend. done.
  - by eexists _, _.
  - cbn. apply udp_update; try done. apply (queue_ok_ops u Hq).
  - done.
  - cbn [end_udp_flows]. erewrite (M_bind_done get_state) by done. rewrite Hu.
    etrans; [eapply M_bind_done; erewrite M_bind_done by done; exact Hend|done].
Qed.
Lemma end_udp_cons delete i is_ g g1 : end_udp_flows delete [i] g = (Done tt, g1) → end_udp_flows delete (i :: is_) g = end_udp_flows delete is_ g1.
Proof.
  cbn [end_udp_flows]. erewrite !(M_bind_done get_state) by done. intros E.
  match type of E with (mbind _ ?m) g = _ => set (step := m) in *; destruct (step g) as [[[]|e|] g2] eqn:E1 end.
  - erewrite M_bind_done in E by exact E1. injection E as <-. by erewrite M_bind_done by exact E1.
  - erewrite M_bind_raise in E by exact E1. done.
  - erewrite M_bind_loops in E by exact E1. done.
Qed.
(** What is left of the flows once some are closed. *)
Definition udp_ends (is_ : list nat) (flows flows' : list udp_flow) : Prop := ∀ j u', flows' !! j = Some u' →
  ∃ u, flows !! j = Some u ∧ uf_guest u' = uf_guest u ∧ (uf_closed u = true → uf_closed u' = true) ∧ (j ∈ is_ → uf_closed u' = true).
Lemma udp_ends_cons i is_ flows u flows' : flows !! i = Some u → udp_ends is_ (<[i := ended u]> flows) flows' → udp_ends (i :: is_) flows flows'.
Proof.
  intros Hu H j u' Hu'. destruct (H _ _ Hu') as (u1&Hu1&Hg&Hc&Hi). destruct (decide (j = i)) as [->|Hj].
  - rewrite list_lookup_insert_eq in Hu1 by (by eapply lookup_lt_Some). injection Hu1 as <-. exists u.
    split_and!; [done|done|intros _; by apply Hc|intros _; by apply Hc].
  - rewrite list_lookup_insert_ne in Hu1 by done. exists u1. split_and!; [done..|]. intros [->|?]%elem_of_cons; auto.
Qed.
Lemma end_udp_ok P is_ g : gudp_ok P g → NoDup is_ → (∀ i, i ∈ is_ → ∃ u, gw_udp_flows g !! i = Some u ∧ uf_closed u = false) →
  ∃ g', end_udp_flows true is_ g = (Done tt, g') ∧ udp_part g g' ∧ gudp_ok P g' ∧ udp_ends is_ (gw_udp_flows g) (gw_udp_flows g').
Proof.
  revert g; induction is_ as [|i is_ IH]; intros g Hok Hn Hopen.
  - exists g. split_and!; try done. intros j u' Hu'. exists u'. split_and!; try done. by intros ?%not_elem_of_nil.
  - apply NoDup_cons in Hn as [Hi Hn]. destruct (Hopen i) as (u&Hu&Hc); [by constructor|].
    destruct (udp_closed_after P i g u Hok Hu Hc) as (g1&_&Hp1&Hok1&Hf1&E1).
    destruct (IH g1 Hok1 Hn) as (g2&E2&Hp2&Hok2&H2).
    { intros j Hj. destruct (Hopen j) as (v&Hv&Hcv); [by constructor|]. exists v. split; [|done]. rewrite Hf1, list_lookup_insert_ne; [done|]. by intros ->. }
    exists g2. split_and!; [by rewrite (end_udp_cons _ _ _ _ _ E1)|by etrans|done|]. rewrite Hf1 in H2. by eapply udp_ends_cons.
Qed.

(** The network's end closes every flow of the table, which is then emptied. *)
Lemma end_udp_step i g u : gw_udp_flows g !! i = Some u → st_state (uf_stream u) = Readable →
  end_udp_flows false [i] g = (Done tt, g <| gw_udp_flows := <[i := ended u]> (gw_udp_flows g) |>).
Proof.
  intros Hu Hr. pose proof (lookup_lt_Some _ _ _ Hu). pose proof (close_readable _ Hr) as Hd. unfold ended.
  destruct (stream_close (uf_stream u)) as [o s] eqn:E. cbn in Hd. subst o. cbn [end_udp_flows snd].
  erewrite (M_bind_done get_state) by done. rewrite Hu. etrans; [eapply M_bind_done; erewrite M_bind_done by done|done].
  unfold with_udp. cbn. rewrite list_lookup_insert_eq by done. unfold on_udp_stream. cbn.
  change (uf_stream (u <| uf_closed := true |>)) with (uf_stream u). rewrite E, list_insert_insert_eq. by destruct g.
Qed.
Lemma end_udp_all is_ g : NoDup is_ → Forall queue_ok (gw_udp_flows g) →
  (∀ i, i ∈ is_ → ∃ u, gw_udp_flows g !! i = Some u ∧ st_state (uf_stream u) = Readable) →
  ∃ flows, end_udp_flows false is_ g = (Done tt, g <| gw_udp_flows := flows |>) ∧ Forall queue_ok flows ∧ udp_ends is_ (gw_udp_flows g) flows.
Proof.
  revert g; induction is_ as [|i is_ IH]; intros g Hn Hq Hopen.
  - exists (gw_udp_flows g). split_and!; [by destruct g|done|]. intros j u' Hu'. exists u'. split_and!; try done. by intros ?%not_elem_of_nil.
  - apply NoDup_cons in Hn as [Hi Hn]. destruct (Hopen i) as (u&Hu&Hr); [by constructor|].
    set (g1 := g <| gw_udp_flows := <[i := ended u]> (gw_udp_flows g) |>). destruct (IH g1 Hn) as (flows&E&Hq'&He).
    { apply Forall_insert; [done|]. apply (queue_ok_ops u). by eapply Forall_lookup_1. }
    { intros j Hj. destruct (Hopen j) as (v&Hv&Hs); [by constructor|]. exists v. split; [|done]. cbn. rewrite list_lookup_insert_ne; [done|]. by intros ->. }
    exists flows. split_and!; [|done|by eapply udp_ends_cons].
    rewrite (end_udp_cons _ _ _ _ g1) by (by apply end_udp_step). rewrite E. by destruct g.
Qed.

(** ** The gateway *)
Definition attached (g : gateway) (a : attachment) : Prop := (at_ip a, a) ∈ gw_attachments g.
Record gateway_ok (g : gateway) : Prop := GatewayOk {
  go_address : 2 ≤ gw_next_address g ≤ 255;
  go_attached : ∀ ip a, (ip, a) ∈ gw_attachments g → ∃ k, 2 ≤ k < gw_next_address g ∧ a = attachment_of k ∧ ip = at_ip a;
  go_attachments : NoDup (gw_attachments g).*1;
  go_port : FIRST_PORT ≤ gw_next_port g ≤ 65535;
  go_tcp : tcp_ok (attached g) (gw_tcp g) (gw_flows g);
  go_udp : gudp_ok (attached g) g;
  go_closed : gw_closed g = true → gw_attachments g = [] ∧ gw_reassemblies g = [] ∧ gw_down g = true }.

Lemma gateway_ok_quiet g g' : gateway_ok g → quiet g g' → gateway_ok g'.
Proof. by intros [] (i&l&->). Qed.
Lemma gateway_ok_tcp g g' : gateway_ok g → tcp_part g g' → tcp_ok (attached g) (gw_tcp g') (gw_flows g') → gateway_ok g'.
Proof. intros [] (tcp&flows&i&l&->) Hok. by split. Qed.
Lemma gateway_ok_udp g g' : gateway_ok g → udp_part g g' → gudp_ok (attached g) g' → gateway_ok g'.
Proof. intros [] (udp&flows&->) Hok. by split. Qed.
Lemma gateway_ok_port g p : gateway_ok g → FIRST_PORT ≤ p ≤ 65535 → gateway_ok (g <| gw_next_port := p |>).
Proof. intros [] Hp. by split. Qed.

Lemma preserves_quiet {A} (m : G A) : stays quiet m → preserves gateway_ok m.
Proof. intros Hm g Hg. by eapply gateway_ok_quiet. Qed.
Lemma preserves_step i step : (∀ s, flow_moves (sy_flow s) (sy_flow (step s))) → preserves gateway_ok (with_flow i step).
Proof.
  intros Hs g Hg. destruct (gw_flows g !! i) as [t|] eqn:Ht.
  - destruct (with_flow_ok _ i step g t (go_tcp _ Hg) Ht (Hs _)) as (g'&->&Hp&Hok&_). by eapply gateway_ok_tcp.
  - unfold with_flow. erewrite (M_bind_done get_state) by done. by rewrite Ht.
Qed.
Lemma preserves_ignored {A} (m : G A) : preserves gateway_ok m → preserves gateway_ok (ignored m).
Proof. intros Hm g Hg. by apply Hm. Qed.

(** [allocate_port] changes the next port alone. *)
Lemma allocate_from_spec in_use attempts g : FIRST_PORT ≤ gw_next_port g ≤ 65535 → ∃ o p, allocate_from in_use attempts g = (o, g <| gw_next_port := p |>) ∧
  FIRST_PORT ≤ p ≤ 65535 ∧ match o with Done port => in_use port = false ∧ FIRST_PORT ≤ port ≤ 65535 | Raise _ => True | Loops => False end.
Proof.
  unfold FIRST_PORT. revert g; induction attempts as [|attempts IH]; intros g Hp; cbn [allocate_from].
  - exists (Raise (JsError "no network ports available")), (gw_next_port g). split; [by destruct g|]. done.
  - erewrite (M_bind_done get_state) by done. erewrite M_bind_done by done.
    set (p := if gw_next_port g =? 65535 then FIRST_PORT else gw_next_port g + 1).
    assert (Hp' : 49152 ≤ p ≤ 65535) by (unfold p, FIRST_PORT; destruct (Z.eqb_spec (gw_next_port g) 65535); lia).
    destruct (in_use (gw_next_port g)) eqn:E.
    + destruct (IH (g <| gw_next_port := p |>)) as (o&p'&E'&Hr&Ho); [cbn; exact Hp'|]. exists o, p'. rewrite E'. by destruct g.
    + exists (Done (gw_next_port g)), p. split_and!; done || lia.
Qed.
Lemma guest_at_spec hostname port invalid g : gateway_ok g → ∃ o, guest_at hostname port invalid g = (o, g) ∧
  match o with Done a => attached g a ∧ gw_closed g = false ∧ ipv4_number hostname = Done (at_ip a) ∧ valid_port port = true | _ => True end.
Proof.
  intros Hg. unfold guest_at. erewrite (M_bind_done get_state) by done. destruct (gw_closed g); [by eexists|].
  destruct (valid_port port); [|by eexists]. cbn [negb]. destruct (ipv4_number hostname) as [ip|e|]; [|by eexists..].
  erewrite M_bind_done by done. destruct (find_key ip (gw_attachments g)) as [a|] eqn:E; [|by eexists].
  eexists. split; [done|]. apply find_key_elem in E. destruct (go_attached _ Hg _ _ E) as (k&_&_&->). by split_and!.
Qed.
Lemma add_flow_ok t g : gateway_ok g → attached g (te_guest t) → live t = true → fl_guest_ip (sy_flow (te_sys t)) = at_ip (te_guest t) →
  entry_key t ∉ (gw_tcp g).*1 → ∃ g', add_flow t g = (Done (length (gw_flows g)), g') ∧ gateway_ok g'.
Proof.
  intros Hg Ha Hl Hip Hk. eexists. split; [done|]. eapply gateway_ok_tcp; [exact Hg| |].
  - exists (gw_tcp g ++ [(entry_key t, length (gw_flows g))]), (gw_flows g ++ [t]), (gw_identifier g), (gw_log g). by destruct g.
  - apply (table_add entry_key live); [apply Hg|done|done|by split].
Qed.

(** * Every operation keeps the gateway well-formed *)
Lemma attach_ok : preserves gateway_ok attach.
Proof.
  intros g Hg. unfold attach. erewrite (M_bind_done get_state) by done. destruct (gw_closed g) eqn:Hc; [done|].
  destruct (Z.ltb_spec 254 (gw_next_address g)); [done|]. erewrite M_bind_done by done. set (a := attachment_of (gw_next_address g)).
  destruct Hg as [Had Hat Hn Hp Ht [Hu Hq] Hcl]. 
  assert (Hw : ∀ g0 b, gw_attachments g0 = gw_attachments g ++ [(at_ip a, a)] → attached g b → attached g0 b).
  { intros g0 b Hg0 Hb. unfold attached. rewrite Hg0. apply elem_of_app. by left. }
  split; cbn; try done; [lia| | | | |congruence].
  - intros ip b [Hin|[= -> ->]%list_elem_of_singleton]%elem_of_app.
    + destruct (Hat _ _ Hin) as (k&?&?&?). exists k. split_and!; try done; lia.
    + exists (gw_next_address g). split_and!; try done; lia.
  - rewrite fmap_app. apply NoDup_app. split_and!; [done| |apply NoDup_singleton]. intros ip Hin ->%list_elem_of_singleton.
    apply list_elem_of_fmap in Hin as ((ip'&b)&Heq&Hin). cbn in Heq. subst ip'. destruct (Hat _ _ Hin) as (k&Hk&->&Heq). cbn in Heq. lia.
  - eapply table_impl; [exact Ht|]. intros i t _ _ [Hip HP]. split; [done|]. by apply Hw.
  - split; [|done]. eapply table_impl; [exact Hu|]. intros i u _ _ [Hs HP]. split; [done|]. by apply Hw.
Qed.

Lemma connect_tcp_ok hostname port aborted initial : preserves gateway_ok (connect_tcp hostname port aborted initial).
Proof.
  intros g Hg. unfold connect_tcp. destruct aborted as [reason|]; [done|].
  destruct (guest_at_spec hostname port (JsTypeError "invalid TCP port") g Hg) as (o&E&Ho).
  destruct o as [guest|e|]; [|by erewrite M_bind_raise by exact E|by erewrite M_bind_loops by exact E].
  destruct Ho as (Ha&Hc&_). erewrite M_bind_done by exact E. erewrite (M_bind_done get_state) by done.
  match goal with |- context [allocate_port ?u] => set (in_use := u) end. destruct (allocate_from_spec in_use (Z.to_nat (65535 - FIRST_PORT)) g (go_port _ Hg)) as (o&p&E1&Hp&Ho).
  pose proof (gateway_ok_port g p Hg Hp) as Hg1.
  destruct o as [hp|e|]; [|by erewrite M_bind_raise by exact E1|done].
  destruct Ho as [Hfree Hport]. apply bool_decide_eq_false in Hfree. erewrite M_bind_done by exact E1.
  destruct (add_flow_ok (TcpEntry guest false (sys_start (expire_tcp_handshake (connect_flow (at_ip guest) port GATEWAY_IP hp initial))))
    (g <| gw_next_port := p |>) Hg1) as (g2&E2&Hg2); [exact Ha|done|done|exact Hfree|].
  erewrite M_bind_done by exact E2. revert g2 Hg2 E2. intros g2 Hg2 _. revert g2 Hg2.
  match goal with |- ∀ g2, _ → gateway_ok (?m g2).2 => change (preserves gateway_ok m) end.
  apply preserves_bind; [apply preserves_lift|intros syn]. apply preserves_bind; [|intros _; apply preserves_ret].
  intros g2 Hg2. unfold catch. pose proof (preserves_quiet _ (quiet_to_guest guest GATEWAY_IP PROTO_TCP syn) g2 Hg2) as Hq.
  destruct (send_to_guest _ _ _ _ g2) as [[[]|e|] g3]; [done| |done]. apply preserves_step; [|done]. intros s. apply moves_close.
Qed.
Lemma connect_udp_ok hostname port : preserves gateway_ok (connect_udp hostname port).
Proof.
  intros g Hg. unfold connect_udp.
  destruct (guest_at_spec hostname port (JsTypeError "invalid UDP port") g Hg) as (o&E&Ho).
  destruct o as [guest|e|]; [|by erewrite M_bind_raise by exact E|by erewrite M_bind_loops by exact E].
  destruct Ho as (Ha&Hc&_). erewrite M_bind_done by exact E. erewrite (M_bind_done get_state) by done.
  match goal with |- context [allocate_port ?u] => set (in_use := u) end. destruct (allocate_from_spec in_use (Z.to_nat (65535 - FIRST_PORT)) g (go_port _ Hg)) as (o&p&E1&Hp&Ho).
  pose proof (gateway_ok_port g p Hg Hp) as Hg1.
  destruct o as [hp|e|]; [|by erewrite M_bind_raise by exact E1|done].
  destruct Ho as [Hfree Hport]. apply bool_decide_eq_false in Hfree. erewrite M_bind_done by exact E1.
  erewrite (M_bind_done get_state) by done. erewrite M_bind_done by done.
  set (u := UdpFlow guest port hp _ false). destruct (go_udp _ Hg1) as [Hu Hq]. eapply gateway_ok_udp; [exact Hg1| |].
  - exists (gw_udp g ++ [(udp_flow_key u, length (gw_udp_flows g))]), (gw_udp_flows g ++ [u]). by destruct g.
  - split.
    + apply (table_add udp_flow_key udp_live _ _ _ u); [exact Hu|done|exact Hfree|by split].
    + apply Forall_app. split; [exact Hq|]. apply Forall_singleton. split_and!; [done|done|]. cbn. unfold UDP_READABLE_QUEUE_CAP. lia.
Qed.

(** An open flow is in the table, so that its stream is readable. *)
Lemma open_readable P g i u : gudp_ok P g → gw_udp_flows g !! i = Some u → uf_closed u = false → st_state (uf_stream u) = Readable.
Proof.
  intros [Hok _] Hu Hc. assert (Hl : udp_live u = true) by (unfold udp_live; by rewrite Hc).
  destruct (tk_entry _ _ _ _ _ Hok _ _ (tk_live _ _ _ _ _ Hok _ _ Hu Hl)) as (u'&Hu'&_&_&Hg&_). congruence.
Qed.
Lemma preserves_with_udp i op :
  (∀ u, queue_ok u → (uf_closed u = false → st_state (uf_stream u) = Readable) → let u' := (op u).2 in
     udp_flow_key u' = udp_flow_key u ∧ uf_guest u' = uf_guest u ∧ uf_closed u' = uf_closed u ∧ queue_ok u' ∧
     (uf_closed u = false → st_state (uf_stream u') = Readable)) → preserves gateway_ok (with_udp i op).
Proof.
  intros Hop g Hg. destruct (with_udp_ok (attached g) i op g (go_udp _ Hg)) as [Hp Hok]; [|by eapply gateway_ok_udp].
  intros u Hu Hq. assert (Hr := open_readable _ _ _ _ (go_udp _ Hg) Hu). destruct (Hop u Hq Hr) as (?&?&?&?&Hs).
  split_and!; try done. intros Hc. by rewrite Hs, Hr.
Qed.
Lemma stream_read_readable s : st_state s = Readable → st_state (stream_read s) = Readable.
Proof. intros Hs. unfold stream_read. rewrite Hs. by destruct (st_queue s). Qed.
Lemma udp_read_ok i : preserves gateway_ok (udp_read i).
Proof.
  apply preserves_with_udp. intros u Hq Hr. cbn. split_and!; [done|done|done|by apply (queue_ok_ops u)|].
  intros Hc. by apply stream_read_readable, Hr.
Qed.
Lemma udp_close_ok i : preserves gateway_ok (udp_close i).
Proof. intros g Hg. destruct (udp_close_spec _ i g (go_udp _ Hg)) as (g'&->&Hp&Hok). by eapply gateway_ok_udp. Qed.
(** A cancel closes the stream before the flow. *)
Lemma udp_cancel_ok i : preserves gateway_ok (udp_cancel i).
Proof.
  intros g Hg. unfold udp_cancel. erewrite (M_bind_done get_state) by done. destruct (gw_udp_flows g !! i) as [u|] eqn:Hu; [|done].
  case_bool_decide; [|done]. pose proof (lookup_lt_Some _ _ _ Hu) as Hi. pose proof (go_udp _ Hg) as Hok.
  pose proof (queue_of _ _ _ _ _ Hok Hu) as Hq. destruct (queue_ok_ops u Hq) as (_&Hq1&_). set (u1 := u <| uf_stream := _ |>) in Hq1.
  destruct (queue_ok_ops u1 Hq1) as (_&_&Hq2). set (u2 := ended u1).
  set (g1 := g <| gw_udp_flows := <[i := u1]> (gw_udp_flows g) |>).
  assert (E : with_udp i (fun u => (Done tt, u <| uf_stream := stream_cancel (uf_stream u) |>)) g = (Done tt, g1)) by (unfold with_udp; by rewrite Hu).
  erewrite M_bind_done by exact E. unfold udp_close. erewrite (M_bind_done get_state) by done.
  replace (gw_udp_flows g1 !! i) with (Some u1) by (symmetry; by apply list_lookup_insert_eq). change (uf_closed u1) with (uf_closed u).
  destruct (uf_closed u) eqn:Hc.
  - change (gateway_ok g1). eapply gateway_ok_udp; [exact Hg|exists (gw_udp g), (<[i := u1]> (gw_udp_flows g)); by destruct g|].
    change (udp_ok (attached g) (gw_udp g) (<[i := u1]> (gw_udp_flows g))).
    rewrite <- (moved_live (gw_udp g) u u1) by done. apply udp_update; try done. change (uf_closed u1) with (uf_closed u). congruence.
  - assert (Hend : gateway_ok (g <| gw_udp_flows := <[i := u2]> (gw_udp_flows g) |> <| gw_udp := moved udp_flow_key udp_live (gw_udp g) u u2 |>)).
    { eapply gateway_ok_udp; [exact Hg|by eexists _, _|]. apply udp_update; try done. }
    erewrite M_bind_done by done. rewrite moved_closed in Hend by done. unfold catch, with_udp.
    set (g2 := g1 <| gw_udp_flows := _ |> <| gw_udp := _ |>).
    replace (gw_udp_flows g2 !! i) with (Some (u1 <| uf_closed := true |>)) by (symmetry; cbn; rewrite list_insert_insert_eq; by apply list_lookup_insert_eq).
    unfold on_udp_stream. change (uf_stream (u1 <| uf_closed := true |>)) with (uf_stream u1). unfold u2, ended in Hend.
    destruct (stream_close (uf_stream u1)) as [o s] eqn:Es. cbn in Hend.
    assert (Hg2 : gateway_ok (g2 <| gw_udp_flows := <[i := u1 <| uf_closed := true |> <| uf_stream := s |>]> (gw_udp_flows g2) |>)).
    { subst g2 g1. cbn. rewrite !list_insert_insert_eq. exact Hend. }
    by destruct o as [[]|e|].
Qed.
Lemma udp_write_ok i payload : preserves gateway_ok (udp_write i payload).
Proof.
  intros g Hg. unfold udp_write. erewrite (M_bind_done get_state) by done. destruct (gw_udp_flows g !! i) as [u|]; [|done].
  destruct (uf_closed u); [done|]. revert g Hg. match goal with |- ∀ g, _ → gateway_ok (?m g).2 => change (preserves gateway_ok m) end.
  apply preserves_bind; [apply preserves_lift|intros d]. apply preserves_quiet, quiet_to_guest.
Qed.

Lemma stream_enqueue_ok u c : queue_ok u → 0 < default 0 (desired_size (uf_stream u)) →
  queue_ok (u <| uf_stream := (stream_enqueue c (uf_stream u)).2 |>) ∧
  (st_state (uf_stream u) = Readable → st_state (stream_enqueue c (uf_stream u)).2 = Readable).
Proof.
  intros Hq Hd. destruct (stream_ops_shape (uf_stream u)) as (Hs&_). destruct (Hs c) as [Es Eh]. split.
  - apply queue_ok_stream; [done|done|done|]. right. destruct Hq as (Hh&Hz&Hle).
    pose proof (queue_size_enqueue c (uf_stream u) ltac:(rewrite Hz; lia)) as Hb. rewrite Hz in Hb.
    unfold desired_size in Hd. destruct (st_state (uf_stream u)); cbn in Hd; lia.
  - intros Hr. unfold stream_enqueue. rewrite Hr. by destruct (st_reads (uf_stream u)).
Qed.
Lemma receive_dns_ok guest datagram : preserves gateway_ok (receive_dns guest datagram).
Proof.
  intros g Hg. unfold receive_dns. destruct (decode_dns_name _ _) as [[name e]|e|]; [|done..].
  erewrite (M_bind_done get_state) by done. erewrite M_bind_done by done. apply preserves_quiet; [apply quiet_log|]. by destruct Hg.
Qed.
Lemma receive_udp_ok ip : preserves gateway_ok (receive_udp ip).
Proof.
  intros g Hg. unfold receive_udp. destruct (parse_udp (ip_payload ip)) as [parsed|e|]; [|done..].
  erewrite M_bind_done by done. erewrite (M_bind_done get_state) by done.
  destruct parsed as [d|], (find_key (ip_source ip) (gw_attachments g)) as [guest|]; try done.
  destruct (_ && _)%bool; [by apply receive_dns_ok|]. destruct (ip_destination ip =? GATEWAY_IP); [|done]. cbn [negb].
  destruct (find_key _ (gw_udp g)) as [i|]; [|done]. apply preserves_with_udp; [|done].
  intros u Hq Hr. destruct (Z.ltb_spec 0 (default 0 (desired_size (uf_stream u)))) as [Hd|]; [|by split_and!].
  destruct (stream_enqueue_ok u (ud_payload d) Hq Hd) as [Hq' Hr']. unfold on_udp_stream.
  destruct (stream_enqueue (ud_payload d) (uf_stream u)) as [o s]. cbn in *. split_and!; try done. auto.
Qed.
Lemma start_outbound_ok initial guest ip segment g : gateway_ok g → attached g guest → ip_source ip = at_ip guest →
  gateway_ok (start_outbound_tcp initial guest ip segment g).2.
Proof.
  intros Hg Ha Hip. unfold start_outbound_tcp. erewrite (M_bind_done get_state) by done. case_bool_decide as Hk; [done|].
  match goal with |- context [add_flow ?t] => destruct (add_flow_ok t g Hg) as (g1&E&Hg1); [exact Ha|done|exact Hip|exact Hk|] end.
  erewrite M_bind_done by exact E. apply preserves_quiet; [apply quiet_log|done].
Qed.
Lemma receive_tcp_ok initial ip mac : preserves gateway_ok (receive_tcp initial ip mac).
Proof.
  intros g Hg. unfold receive_tcp. destruct (parse_tcp (ip_payload ip)) as [parsed|e|]; [|done..].
  erewrite M_bind_done by done. erewrite (M_bind_done get_state) by done.
  destruct parsed as [segment|], (find_key (ip_source ip) (gw_attachments g)) as [guest|] eqn:Ef; try done.
  case_bool_decide; [|done]. cbn [negb]. apply find_key_elem in Ef. destruct (go_attached _ Hg _ _ Ef) as (k&_&_&Hip).
  destruct (find_key _ (gw_tcp g)) as [i|].
  - apply preserves_step; [|done]. intros s. by apply flow_moves_same.
  - destruct (_ && _)%bool; [|done]. apply start_outbound_ok; [done| |done]. unfold attached. by rewrite <- Hip.
Qed.
Lemma receive_frame_ok initial frame g : gw_down g = false → gateway_ok g → gateway_ok (receive_frame initial frame g).2.
Proof.
  intros Hd Hg. unfold receive_frame. destruct (receive_arp frame) as [reply|e|]; [|done..]. erewrite M_bind_done by done.
  assert (Hr : ∃ g1, (match reply with Some reply => gateway_send reply | None => mret tt end) g = (Done tt, g1) ∧ quiet g g1).
  { destruct reply as [reply|]; [|by exists g]. pose proof (quiet_send reply g) as Hq. unfold gateway_send in *.
    erewrite (M_bind_done get_state) in * by done. rewrite Hd in *. by eexists. }
  destruct Hr as (g1&E1&Hq). pose proof (gateway_ok_quiet _ _ Hg Hq) as Hg1. erewrite M_bind_done by exact E1.
  assert (Hd1 : gw_down g1 = false) by (by destruct Hq as (i&l&->)). clear E1 Hq.
  destruct (parse_ip frame) as [fragment|e|]; [|done..]. erewrite M_bind_done by done. destruct fragment as [fragment|]; [|done].
  erewrite (M_bind_done get_state) by done. destruct (reassemble_ip fragment (gw_reassemblies g1)) as [packet reassemblies].
  erewrite M_bind_done by done. set (g2 := g1 <| gw_reassemblies := reassemblies |>).
  assert (Hg2 : gateway_ok g2) by (destruct Hg1 as [? ? ? ? ? ? Hcl]; split; try done; intros Hc; destruct (Hcl Hc) as (_&_&Hdown); congruence).
  destruct packet as [ip|]; [|done]. destruct (struct_read EthernetHeader frame) as [header|e|]; [|done..]. erewrite M_bind_done by done.
  destruct (_ =? PROTO_TCP); [by apply receive_tcp_ok|]. destruct (_ =? PROTO_UDP); [by apply receive_udp_ok|done].
Qed.
Lemma preserves_catch {A} (m : G A) h : preserves gateway_ok m → (∀ e, preserves gateway_ok (h e)) → preserves gateway_ok (catch m h).
Proof. intros Hm Hh g Hg. unfold catch. specialize (Hm g Hg). destruct (m g) as [[a|e|] g']; [done|by apply Hh|done]. Qed.
Lemma dns_resolved_ok q addresses : preserves gateway_ok (dns_resolved q addresses).
Proof.
  intros g Hg. unfold dns_resolved. erewrite (M_bind_done get_state) by done. destruct (gw_queries g !! q) as [[query|]|]; [|done..].
  erewrite M_bind_done by done. apply preserves_catch.
  - repeat (apply preserves_bind; [apply preserves_lift|intros ?]). apply preserves_quiet, quiet_to_guest.
  - intros e. apply preserves_ret.
  - by destruct Hg.
Qed.

(** ** Detaching and closing *)
Lemma attachment_ip_inj k1 k2 : at_ip (attachment_of k1) = at_ip (attachment_of k2) → attachment_of k1 = attachment_of k2.
Proof. cbn. intros H. by assert (k1 = k2) as -> by lia. Qed.
Lemma attached_is g a : gateway_ok g → attached g a → ∃ k, a = attachment_of k.
Proof. intros Hg Ha. destruct (go_attached _ Hg _ _ Ha) as (k&_&?&_). by exists k. Qed.

(** The live flows of a guest are those that are aborted when it leaves. *)
Lemma abort_guest_ok P e g a : tcp_ok P (gw_tcp g) (gw_flows g) →
  ∃ g', abort_flows e (filter (fun i => flow_guest g i = Some a) (gw_tcp g).*2) g = (Done tt, g') ∧ tcp_part g g' ∧
    tcp_ok (fun b => P b ∧ b ≠ a) (gw_tcp g') (gw_flows g').
Proof.
  intros Hok. destruct (abort_flows_ok P e (filter (fun i => flow_guest g i = Some a) (gw_tcp g).*2) g Hok) as (g'&E&Hp&Hok'&Hd).
  exists g'. split_and!; [done|done|]. eapply table_impl; [exact Hok'|]. intros i t' Ht' Hl [Hip HP]. split; [done|]. split; [done|].
  intros Ha. destruct (Hd _ _ Ht') as (t&Ht&Hg&Hdead&Hin). rewrite Hin in Hl; [done|]. apply list_elem_of_filter. unfold flow_guest.
  rewrite Ht. cbn. split; [congruence|]. assert (Hlt : live t = true) by (destruct (live t); [done|rewrite Hdead in Hl; done]).
  apply list_elem_of_fmap. exists (entry_key t, i). split; [done|]. by apply (tk_live _ _ _ _ _ Hok).
Qed.
Lemma end_guest_ok P g a : gudp_ok P g →
  ∃ g', end_udp_flows true (filter (fun i => udp_guest g i = Some a) (gw_udp g).*2) g = (Done tt, g') ∧ udp_part g g' ∧
    gudp_ok (fun b => P b ∧ b ≠ a) g'.
Proof.
  intros Hok. destruct (end_udp_ok P (filter (fun i => udp_guest g i = Some a) (gw_udp g).*2) g Hok) as (g'&E&Hp&Hok'&Hd).
  - apply NoDup_filter. eapply table_ids. apply Hok.
  - intros i [_ Hi]%list_elem_of_filter. apply list_elem_of_fmap in Hi as ((k&i')&->&Hin). destruct Hok as [Hok _].
    destruct (tk_entry _ _ _ _ _ Hok _ _ Hin) as (u&Hu&Hl&_). exists u. split; [done|]. unfold udp_live in Hl. by apply negb_true_iff in Hl.
  - exists g'. split_and!; [done|done|]. destruct Hok' as [Hok' Hq]. split; [|done]. eapply table_impl; [exact Hok'|].
    intros i u' Hu' Hl [Hs HP]. split; [done|]. split; [done|]. intros Ha. destruct (Hd _ _ Hu') as (u&Hu&Hg&Hc&Hin).
    unfold udp_live in Hl. rewrite Hin in Hl; [done|]. apply list_elem_of_filter. unfold udp_guest. rewrite Hu. cbn. split; [congruence|].
    destruct Hok as [Hok _]. apply list_elem_of_fmap. exists (udp_flow_key u, i). split; [done|]. apply (tk_live _ _ _ _ _ Hok _ _ Hu).
    unfold udp_live. destruct (uf_closed u); [by rewrite Hc in Hl|done].
Qed.
Lemma detach_ok k : preserves gateway_ok (detach (attachment_of k)).
Proof.
  intros g Hg. unfold detach. set (a := attachment_of k). erewrite M_bind_done by done.
  set (g1 := g <| gw_attachments := remove_key (at_ip a) (gw_attachments g) |>). erewrite (M_bind_done get_state) by done.
  destruct (abort_guest_ok (attached g) (Some (JsError "guest detached from network")) g1 a (go_tcp _ Hg)) as (g2&E2&Hp2&Hok2).
  erewrite M_bind_done by exact E2. erewrite (M_bind_done get_state) by done.
  assert (Hu2 : gudp_ok (attached g) g2) by (destruct Hp2 as (tcp&flows&i&l&->); exact (go_udp _ Hg)).
  destruct (end_guest_ok (attached g) g2 a Hu2) as (g3&E3&Hp3&Hok3). erewrite M_bind_done by exact E3. clear E2 E3 Hu2.
  assert (Hatt : ∀ g' b, gw_attachments g' = remove_key (at_ip a) (gw_attachments g) → attached g b ∧ b ≠ a → attached g' b).
  { intros g' b Hg' [Hb Hne]. unfold attached. rewrite Hg'. apply elem_remove_key. split; [|done]. cbn. intros Heq.
    destruct (attached_is _ _ Hg Hb) as [k' ->]. by apply Hne, attachment_ip_inj. }
  destruct Hp2 as (tcp&flows&i&l&->). destruct Hp3 as (udp&uflows&->). destruct Hg as [Had Hat Hn Hp Ht Hu Hcl]. cbn in Hok2, Hok3. split; cbn.
  - done.
  - intros ip b [_ Hin]%elem_remove_key. by apply Hat.
  - by apply remove_key_nodup.
  - done.
  - eapply table_impl; [exact Hok2|]. intros j t _ _ [Hip HP]. split; [done|]. by apply Hatt.
  - destruct Hok3 as [Hok3 Hq3]. split; [|exact Hq3]. eapply table_impl; [exact Hok3|]. intros j u _ _ [Hs HP]. split; [done|]. by apply Hatt.
  - intros Hc. destruct (Hcl Hc) as (->&->&->). done.
Qed.
Lemma close_ok : preserves gateway_ok close.
Proof.
  intros g Hg. unfold close. erewrite (M_bind_done get_state) by done. destruct (gw_closed g) eqn:Hc; [done|].
  erewrite M_bind_done by done. set (g1 := g <| gw_closed := true |>).
  destruct (abort_flows_ok (attached g) (Some (JsError "network closed")) (gw_tcp g).*2 g1 (go_tcp _ Hg)) as (g2&E2&Hp2&Hok2&Hd2).
  erewrite M_bind_done by exact E2. destruct (go_udp _ Hg) as [Hu Hq].
  assert (Hg2 : gw_udp_flows g2 = gw_udp_flows g ∧ gw_udp g2 = gw_udp g) by (by destruct Hp2 as (tcp&flows&i&l&->)). destruct Hg2 as [Hf2 Hu2].
  destruct (end_udp_all (gw_udp g).*2 g2) as (uflows&E3&Hq3&Hd3).
  - by eapply table_ids.
  - by rewrite Hf2.
  - rewrite Hf2. intros i ((k&i')&->&Hin)%list_elem_of_fmap. destruct (tk_entry _ _ _ _ _ Hu _ _ Hin) as (u&?&_&_&?&_). by exists u.
  - erewrite M_bind_done by exact E3.
    assert (Ht : ∀ i t, gw_flows g2 !! i = Some t → live t = false).
    { intros i t' Ht'. destruct (Hd2 _ _ Ht') as (t&Ht&_&Hdead&Hin). destruct (live t) eqn:Hl; [|by apply Hdead].
      apply Hin. apply list_elem_of_fmap. exists (entry_key t, i). split; [done|]. by apply (tk_live _ _ _ _ _ (go_tcp _ Hg)). }
    assert (Hus : ∀ i u, uflows !! i = Some u → udp_live u = false).
    { intros i u' Hu'. destruct (Hd3 _ _ Hu') as (u&Hu0&_&Hdead&Hin). rewrite Hf2 in Hu0. unfold udp_live. apply negb_false_iff.
      destruct (uf_closed u) eqn:Hcu; [by apply Hdead|]. apply Hin. apply list_elem_of_fmap. exists (udp_flow_key u, i). split; [done|].
      apply (tk_live _ _ _ _ _ Hu _ _ Hu0). unfold udp_live. by rewrite Hcu. }
    clear E2 E3 Hd2 Hd3 Hok2. destruct Hp2 as (tcp&flows&i&l&->). destruct Hg as [Had Hat Hn Hp _ _ _]. split; cbn in *.
    + done.
    + by intros ip a ?%not_elem_of_nil.
    + apply NoDup_nil_2.
    + done.
    + by apply table_dead.
    + split; [by apply table_dead|done].
    + done.
Qed.

Lemma gateway_new_ok : gateway_ok gateway_new.
Proof.
  split; cbn; try done; [by intros ip a ?%not_elem_of_nil|apply NoDup_nil_2| |].
  - by apply table_dead.
  - split; [by apply table_dead|done].
Qed.
Lemma gateway_step_ok g g' : gateway_step g g' → gateway_ok g → gateway_ok g'.
Proof.
  destruct 1; intros Hg.
  - by apply attach_ok.
  - by apply detach_ok.
  - by apply close_ok.
  - by apply connect_tcp_ok.
  - by apply connect_udp_ok.
  - by apply receive_frame_ok.
  - by apply dns_resolved_ok.
  - match goal with H : flow_step _ _ _ _ |- _ => apply moves_step in H end.
    destruct (with_flow_ok _ i (fun _ => s) g t (go_tcp _ Hg)) as (g'&->&Hp&Hok&_); [done|done|]. by eapply gateway_ok_tcp.
  - by apply udp_close_ok.
  - by apply udp_read_ok.
  - by apply udp_cancel_ok.
  - by apply udp_write_ok.
  - destruct Hg as [? ? ? ? ? ? Hcl]. split; try done. intros Hc. destruct (Hcl Hc) as (?&Hr&?). split_and!; try done. cbn. by rewrite Hr.
Qed.

(** C29: whatever the guests send, the host does and the timers do: the table of each
    protocol holds exactly the flows that are open, each once under its own
    addresses and ports, and all of guests that are attached; attached guests have
    distinct addresses of the subnet; a UDP connection holds at most 64 datagrams; and
    once the network is closed nothing is left, no flow being open. *)
Theorem gateway_tables g : rtc gateway_step gateway_new g →
  gateway_ok g ∧
  (gw_closed g = true → gw_attachments g = [] ∧ gw_tcp g = [] ∧ gw_udp g = [] ∧ gw_reassemblies g = [] ∧
     (∀ i t, gw_flows g !! i = Some t → live t = false) ∧ (∀ i u, gw_udp_flows g !! i = Some u → udp_live u = false)).
Proof.
  intros Hr. assert (Hok : gateway_ok g).
  { remember gateway_new as g0 eqn:E. assert (H0 : gateway_ok g0) by (subst; apply gateway_new_ok). clear E.
    induction Hr as [|g0 g1 g2 Hs _ IH]; [done|]. by eapply IH, gateway_step_ok. }
  split; [done|]. intros Hc. destruct (go_closed _ Hok Hc) as (Ha&Hre&_).
  assert (Ht : ∀ i t, gw_flows g !! i = Some t → live t = false).
  { intros i t Ht. destruct (live t) eqn:Hl; [|done]. destruct (go_tcp _ Hok) as [_ He Hin].
    destruct (He _ _ (Hin _ _ Ht Hl)) as (t'&_&_&_&_&HP). unfold attached in HP. rewrite Ha in HP. by apply not_elem_of_nil in HP. }
  assert (Hu : ∀ i u, gw_udp_flows g !! i = Some u → udp_live u = false).
  { intros i u Hu. destruct (udp_live u) eqn:Hl; [|done]. destruct (go_udp _ Hok) as [[_ He Hin] _].
    destruct (He _ _ (Hin _ _ Hu Hl)) as (u'&_&_&_&_&HP). unfold attached in HP. rewrite Ha in HP. by apply not_elem_of_nil in HP. }
  split_and!; try done.
  - destruct (gw_tcp g) as [|[k i] tcp] eqn:E; [done|]. destruct (tk_entry _ _ _ _ _ (go_tcp _ Hok) k i) as (t&Hi&Hl&_); [rewrite E; constructor|].
    by rewrite (Ht _ _ Hi) in Hl.
  - destruct (gw_udp g) as [|[k i] udp] eqn:E; [done|]. destruct (tk_entry _ _ _ _ _ (proj1 (go_udp _ Hok)) k i) as (t&Hi&Hl&_); [rewrite E; constructor|].
    by rewrite (Hu _ _ Hi) in Hl.
Qed.

Definition attached_one : gateway := (attach gateway_new).2.
Definition used_tcp : gateway := (connect_tcp (lit "192.0.2.2") 80 None 1000 attached_one).2.
Definition used : gateway := (connect_udp (lit "192.0.2.2") 53 used_tcp).2.
Definition used_closed : gateway := (close used).2.
Lemma used_step_1 : gateway_step gateway_new attached_one. Proof. exact (GAttach gateway_new). Defined.
Lemma used_step_2 : gateway_step attached_one used_tcp. Proof. exact (GConnectTcp attached_one (lit "192.0.2.2") 80 None 1000). Defined.
Lemma used_step_3 : gateway_step used_tcp used. Proof. exact (GConnectUdp used_tcp (lit "192.0.2.2") 53). Defined.
Lemma used_step_4 : gateway_step used used_closed. Proof. exact (GClose used). Defined.
Lemma gateway_tables_witness :
  (gateway_ok used_closed ∧
   (gw_closed used_closed = true → gw_attachments used_closed = [] ∧ gw_tcp used_closed = [] ∧ gw_udp used_closed = [] ∧
     gw_reassemblies used_closed = [] ∧ (∀ i t, gw_flows used_closed !! i = Some t → live t = false) ∧
     (∀ i u, gw_udp_flows used_closed !! i = Some u → udp_live u = false))) ∧
  gw_closed used_closed = true ∧ (gw_tcp used).*1 = [(at_ip (attachment_of 2), 80, GATEWAY_IP, 49152)] ∧ length (gw_log used) = 1%nat.
Proof.
  split; [|split_and!; vm_compute; reflexivity].
  exact (gateway_tables used_closed (rtc_l _ _ _ _ used_step_1 (rtc_l _ _ _ _ used_step_2 (rtc_l _ _ _ _ used_step_3
    (rtc_l _ _ _ _ used_step_4 (rtc_refl _ _)))))).
Defined.

(** A guest's SYN to another host opens a session with the host's handler; a second
    one, from a NIC that is not the guest's, is not looked at. *)
Definition guest_frame (source_mac : list Z) (segment : list Z) : list Z :=
  enc EthernetHeader (eth_value GATEWAY_MAC source_mac TYPE_IPv4) ++
  enc Ipv4Header (ipv4_value (at_ip (attachment_of 2)) 1572395042 PROTO_TCP (zlen segment) 1 0x4000 0) ++ segment.
Example outbound_session :
  let segment := match tcp_segment (at_ip (attachment_of 2)) 1572395042 40000 80 7 0 SYN [] 1000 with Done s => s | _ => [] end in
  let g := (receive_frame 5 (guest_frame (at_mac (attachment_of 2)) segment) attached_one).2 in
  gw_log g = [Session 0 (lit "93.184.216.34") 80] ∧ length (gw_tcp g) = 1%nat ∧
  gw_tcp (receive_frame 5 (guest_frame (at_mac (attachment_of 3)) segment) attached_one).2 = [].
Proof. vm_compute. done. Qed.
