(* ===== verification/Devicetree.v ===== *)
(** The machine's description for the guest's kernel: packages/kernel/src/devicetree.ts,
    which prints a tree of JavaScript objects as a flattened devicetree, with a reader
    of that format after chapter 5 of the devicetree specification.

    Objects are the lists of their own properties in the order of [Object.entries]. *)
From S2P Require Export Bytes Text.

Definition FDT_MAGIC : Z := 0xd00dfeed.
Definition FDT_BEGIN_NODE : Z := 1.
Definition FDT_END_NODE : Z := 2.
Definition FDT_PROP : Z := 3.
Definition FDT_END : Z := 9.
Definition NODE_NAME_MAX_LEN : Z := 31.
Definition PROPERTY_NAME_MAX_LEN : Z := 31.

(** [DeviceTreeNode | DeviceTreeProperty]: a typed array is a view of a buffer. *)
Inductive dt_value :=
| DtNode (entries : list (text * dt_value)) | DtString (s : text) | DtNumber (n : Z) | DtBigint (n : Z)
| DtNumbers (l : list Z) | DtView (buffer : list Z) (offset length : Z) | DtArrayBuffer (bytes : list Z) | DtUndefined.

Definition FdtHeader_layout : list (string * ty) :=
  [("magic", U32BE); ("totalsize", U32BE); ("off_dt_struct", U32BE); ("off_dt_strings", U32BE); ("off_mem_rsvmap", U32BE);
   ("version", U32BE); ("last_comp_version", U32BE); ("boot_cpuid_phys", U32BE); ("size_dt_strings", U32BE);
   ("size_dt_struct", U32BE)].
Definition FdtHeader : ty := Struct FdtHeader_layout.
Definition FdtReserveEntry : ty := Struct [("address", U64BE); ("size", U64BE)].
Definition Property_layout : list (string * ty) := [("len", U32BE); ("nameoff", U32BE)].
Definition Property : ty := Struct Property_layout.

(** [bytes], and [strings]: the properties that have each name. *)
Record fdt := Fdt { fd_bytes : buf; fd_strings : list (text * list Z) }.
#[export] Instance fdt_eta : Eta fdt := fun f => Fdt (fd_bytes f) (fd_strings f).
Definition bytes_do {A} (m : M buf A) : M fdt A := focus fd_bytes (fun b f => f <| fd_bytes := b |>) m.

Definition align (alignment : Z) : M buf unit :=
  b ← get_state;
  let offset := b_length b mod alignment in
  if offset =? 0 then mret tt else repeat_m (Z.to_nat (alignment - offset)) (alloc U8) ;; mret tt.

(** [value?.constructor === Object] *)
Definition is_node (v : dt_value) : bool :=
  match v with DtNode entries => bool_decide (lit "constructor" ∉ entries.*1) | _ => false end.

(** What a plain object has without properties of its own: [strings] is one. *)
Definition object_prototype : list text :=
  lit <$> ["constructor"; "__defineGetter__"; "__defineSetter__"; "hasOwnProperty"; "__lookupGetter__"; "__lookupSetter__";
           "isPrototypeOf"; "propertyIsEnumerable"; "toString"; "valueOf"; "__proto__"; "toLocaleString"].
Definition push_entry (name : text) (property : Z) (s : list (text * list Z)) : list (text * list Z) :=
  match find_key name s with
  | Some _ => (fun kv => if decide (kv.1 = name) then (kv.1, kv.2 ++ [property]) else kv) <$> s
  | None => s ++ [(name, [property])]
  end.
(** [(strings[name] ??= []).push(property)] *)
Definition push_reference (name : text) (property : Z) : M fdt unit := fun f =>
  if bool_decide (name ∈ object_prototype) then (Raise (JsTypeError "push is not a function"), f)
  else (Done tt, f <| fd_strings := push_entry name property (fd_strings f) |>).

(** The numbers of an array, from the [i]th on. *)
Fixpoint set_numbers (i : Z) (l : list Z) (value : list Z) : outcome (list Z) :=
  match l with
  | [] => Done value
  | n :: l => value ← ty_set U32BE (dv_of value) (i * 4) (Num n); set_numbers (i + 1) l value
  end.
Definition property_value (prop : dt_value) : outcome (list Z) :=
  match prop with
  | DtNumber n => ty_set U32BE (dv_of (zeros 4)) 0 (Num n)
  | DtBigint n => ty_set U64BE (dv_of (zeros 8)) 0 (Num n)
  | DtString s => Done (utf8_encode (s ++ [0]))
  | DtView buffer _ _ => Done buffer
  | DtArrayBuffer bytes => Done bytes
  | DtNumbers l => set_numbers 0 l (zeros (4 * zlen l))
  | DtUndefined => Done []
  | DtNode _ => Raise (JsTypeError "prop.entries is not a function")
  end.

(** * Printing *)
Definition too_long (name : text) : string := "property name too long: " +:+ show name.
Definition walk_property (name : text) (prop : dt_value) : M fdt unit :=
  bytes_do (align 4) ;;
  bytes_do (emit U32BE (Num FDT_PROP)) ;;
  property ← bytes_do (alloc Property);
  assert_m (zlen (utf8_encode name) <=? PROPERTY_NAME_MAX_LEN) (too_long name) ;;
  push_reference name property ;;
  value ← lift (property_value prop);
  bytes_do (alloc_set Property property (Obj [("len", Num (zlen value))])) ;;
  bytes_do (append value) ;;
  bytes_do (align 4).
Fixpoint walk_properties (entries : list (text * dt_value)) : M fdt unit :=
  match entries with
  | [] => mret tt
  | (name, prop) :: entries => (if is_node prop then mret tt else walk_property name prop) ;; walk_properties entries
  end.
Section loops.
Context (walk : dt_value → text → M fdt unit).
Fixpoint walk_children (entries : list (text * dt_value)) : M fdt unit :=
  match entries with
  | [] => mret tt
  | (name, child) :: entries => (if is_node child then walk child name else mret tt) ;; walk_children entries
  end.
End loops.
Definition begin_node (name : text) : M fdt unit :=
  bytes_do (align 4) ;;
  bytes_do (emit U32BE (Num FDT_BEGIN_NODE)) ;;
  let encodedName := utf8_encode name in
  assert_m (zlen encodedName <=? NODE_NAME_MAX_LEN) (too_long name) ;;
  bytes_do (append encodedName) ;;
  bytes_do (emit U8 (Num 0)) ;;
  bytes_do (align 4).
Fixpoint walk_tree (node : dt_value) (name : text) : M fdt unit :=
  match node with
  | DtNode entries =>
      begin_node name ;;
      walk_properties entries ;;
      walk_children walk_tree entries ;;
      bytes_do (align 4) ;;
      bytes_do (emit U32BE (Num FDT_END_NODE)) ;;
      mret tt
  | _ => mret tt
  end.

(** [header.value.key = v] *)
Definition set_header (header : Z) (key : string) (v : Z) : M fdt unit :=
  bytes_do (alloc_set FdtHeader header (Obj [(key, Num v)])).
Fixpoint write_reservations (l : list (Z * Z)) : M fdt unit :=
  match l with
  | [] => mret tt
  | (address, size) :: l =>
      bytes_do (emit FdtReserveEntry (Obj [("address", Num address); ("size", Num size)])) ;; write_reservations l
  end.
Fixpoint set_references (refs : list Z) (nameoff : Z) : M fdt unit :=
  match refs with
  | [] => mret tt
  | ref :: refs => bytes_do (alloc_set Property ref (Obj [("nameoff", Num nameoff)])) ;; set_references refs nameoff
  end.
Fixpoint write_names (begin_dt_strings : Z) (l : list (text * list Z)) : M fdt unit :=
  match l with
  | [] => mret tt
  | (str, refs) :: l =>
      offset ← bytes_do (gets b_length);
      bytes_do (append (utf8_encode str)) ;;
      bytes_do (emit U8 (Num 0)) ;;
      set_references refs (offset - begin_dt_strings) ;;
      write_names begin_dt_strings l
  end.

Definition generate (tree : dt_value) (memory_reservations : list (Z * Z)) (boot_cpu_id : Z) : M fdt (list Z) :=
  header ← bytes_do (alloc FdtHeader);
  set_header header "magic" FDT_MAGIC ;;
  set_header header "version" 17 ;;
  set_header header "last_comp_version" 16 ;;
  set_header header "boot_cpuid_phys" boot_cpu_id ;;
  bytes_do (align 8) ;;
  off_mem_rsvmap ← bytes_do (gets b_length);
  set_header header "off_mem_rsvmap" off_mem_rsvmap ;;
  write_reservations memory_reservations ;;
  bytes_do (emit FdtReserveEntry (Obj [("address", Num 0); ("size", Num 0)])) ;;
  begin_dt_struct ← bytes_do (gets b_length);
  set_header header "off_dt_struct" begin_dt_struct ;;
  walk_tree tree [] ;;
  bytes_do (emit U32BE (Num FDT_END)) ;;
  end_struct ← bytes_do (gets b_length);
  set_header header "size_dt_struct" (end_struct - begin_dt_struct) ;;
  begin_dt_strings ← bytes_do (gets b_length);
  set_header header "off_dt_strings" begin_dt_strings ;;
  strings ← gets fd_strings;
  write_names begin_dt_strings (object_entries strings) ;;
  totalsize ← bytes_do (gets b_length);
  set_header header "size_dt_strings" (totalsize - begin_dt_strings) ;;
  set_header header "totalsize" totalsize ;;
  bytes_do (gets array).
Definition generate_devicetree (tree : dt_value) (memory_reservations : list (Z * Z)) (boot_cpu_id : Z) : outcome (list Z) :=
  (generate tree memory_reservations boot_cpu_id (Fdt (bytes_new 1024) [])).1.

(** * The format

    A tree as the guest reads it: of each node the properties and the children. *)
Inductive fdt_node := FdtNode (props : list (list Z * list Z)) (children : list (list Z * fdt_node)).
Record fdt_blob := FdtBlob { fb_reservations : list (Z * Z); fb_boot_cpu : Z; fb_root : list Z * fdt_node }.

Definition be32 (l : list Z) : option (Z * list Z) :=
  if 4 <=? zlen l then Some (le_decode (reverse (take 4 l)), drop 4 l) else None.
Definition be64 (l : list Z) : option (Z * list Z) :=
  if 8 <=? zlen l then Some (le_decode (reverse (take 8 l)), drop 8 l) else None.
(** [n] bytes, padded to words. *)
Definition padding (n : Z) : Z := (- n) mod 4.
Definition fdt_take (n : Z) (l : list Z) : option (list Z * list Z) :=
  if n + padding n <=? zlen l then Some (take (Z.to_nat n) l, drop (Z.to_nat (n + padding n)) l) else None.
(** The bytes up to the NUL. *)
Fixpoint fdt_cstring (l : list Z) : option (list Z) :=
  match l with [] => None | b :: l => if b =? 0 then Some [] else cons b <$> fdt_cstring l end.
Definition fdt_name (l : list Z) : option (list Z * list Z) :=
  name ← fdt_cstring l; '(_, rest) ← fdt_take (zlen name + 1) l; Some (name, rest).

(** ** What a property holds

    A number is a word, most significant byte first; a bigint is two words; a string
    ends with a NUL; an array is its numbers; a typed array is the bytes that it views. *)
Fixpoint big_endian (size : nat) (n : Z) : list Z :=
  match size with O => [] | S size => (n / 2 ^ (8 * Z.of_nat size)) mod 256 :: big_endian size n end.
Definition value_of (prop : dt_value) : list Z :=
  match prop with
  | DtNumber n => big_endian 4 n
  | DtBigint n => big_endian 8 n
  | DtString s => utf8_encode s ++ [0]
  | DtNumbers l => l ≫= big_endian 4
  | DtView buffer offset length => subarray buffer offset (offset + length)
  | DtArrayBuffer bytes => bytes
  | DtUndefined | DtNode _ => []
  end.
(** A typed array is printed with the whole of its buffer: it views the whole. *)
Definition whole (prop : dt_value) : bool :=
  match prop with DtView buffer offset length => ((offset =? 0) && (length =? zlen buffer))%bool | DtNode _ => false | _ => true end.

Section reader.
Context (strings : list Z).
(** What follows a node's name, and the node's end: the properties come first. *)
Fixpoint read_node (fuel : nat) (l : list Z) : option (fdt_node * list Z) :=
  match fuel with
  | O => None
  | S fuel =>
      '(token, l) ← be32 l;
      if token =? FDT_PROP then
        '(len, l) ← be32 l;
        '(nameoff, l) ← be32 l;
        '(value, l) ← fdt_take len l;
        name ← fdt_cstring (drop (Z.to_nat nameoff) strings);
        '(FdtNode props children, l) ← read_node fuel l;
        Some (FdtNode ((name, value) :: props) children, l)
      else if token =? FDT_BEGIN_NODE then
        '(name, l) ← fdt_name l;
        '(child, l) ← read_node fuel l;
        '(FdtNode props children, l) ← read_node fuel l;
        if bool_decide (props = []) then Some (FdtNode [] ((name, child) :: children), l) else None
      else if token =? FDT_END_NODE then Some (FdtNode [] [], l)
      else None
  end.
Definition read_root (l : list Z) : option (list Z * fdt_node) :=
  '(token, l) ← be32 l;
  if negb (token =? FDT_BEGIN_NODE) then None
  else
    '(name, l) ← fdt_name l;
    '(node, l) ← read_node (length l) l;
    '(token, l) ← be32 l;
    if ((token =? FDT_END) && bool_decide (l = []))%bool then Some (name, node) else None.
End reader.
Fixpoint read_reservations (fuel : nat) (l : list Z) : option (list (Z * Z)) :=
  match fuel with
  | O => None
  | S fuel =>
      '(address, l) ← be64 l;
      '(size, l) ← be64 l;
      if ((address =? 0) && (size =? 0))%bool then Some [] else cons (address, size) <$> read_reservations fuel l
  end.
Definition word (i : nat) (l : list Z) : Z := le_decode (reverse (take 4 (drop (4 * i) l))).
Definition read_devicetree (blob : list Z) : option fdt_blob :=
  let off_struct := word 2 blob in
  let off_strings := word 3 blob in
  let off_rsvmap := word 4 blob in
  if ((40 <=? zlen blob) && (word 0 blob =? FDT_MAGIC) && (word 1 blob =? zlen blob) && (word 6 blob <=? 17) && (off_struct mod 4 =? 0)
      && (off_rsvmap mod 8 =? 0))%bool then
    reservations ← read_reservations (length blob) (drop (Z.to_nat off_rsvmap) blob);
    root ← read_root (subarray blob off_strings (off_strings + word 8 blob)) (subarray blob off_struct (off_struct + word 9 blob));
    Some (FdtBlob reservations (word 7 blob) root)
  else None.

Example prints :
  (blob ← done_of (generate_devicetree (DtNode [(lit "reg", DtNumbers [0; 65536]);
     (lit "memory", DtNode [(lit "reg", DtNumber 7); (lit "7", DtUndefined)]); (lit "boot", DtString (lit "x=1"))]) [(4096, 16)] 2);
   read_devicetree blob) =
  Some (FdtBlob [(4096, 16)] 2 ([], FdtNode [(lit "reg", [0; 0; 0; 0; 0; 1; 0; 0]); (lit "boot", lit "x=1" ++ [0])]
    [(lit "memory", FdtNode [(lit "reg", [0; 0; 0; 7]); (lit "7", [])] [])])).
Proof. vm_compute. reflexivity. Qed.

(** * What is printed

    The printed tree, with a hole for each property's name: where the name is in the
    strings is known, and written, only when the tree is printed. *)
Definition w32 (z : Z) : list Z := enc U32BE (Num z).
Inductive chunk := Raw (bytes : list Z) | Hole (name : text) (v : Z).
Definition chunk_bytes (c : chunk) : list Z := match c with Raw bytes => bytes | Hole _ v => w32 v end.
Definition render (cs : list chunk) : list Z := cs ≫= chunk_bytes.
Definition prop_chunks (name : text) (value : list Z) : list chunk :=
  [Raw (w32 FDT_PROP ++ w32 (zlen value)); Hole name 0; Raw (value ++ zeros (padding (zlen value)))].
Definition props_chunks (entries : list (text * dt_value)) : list chunk :=
  entries ≫= fun '(name, prop) => if is_node prop then [] else prop_chunks name (value_of prop).
Definition begin_bytes (name : text) : list Z :=
  w32 FDT_BEGIN_NODE ++ utf8_encode name ++ [0] ++ zeros (padding (zlen (utf8_encode name) + 1)).
Section loops.
Context (chunks : dt_value → text → list chunk) (tree : dt_value → fdt_node) (ok : dt_value → bool).
Fixpoint children_chunks (entries : list (text * dt_value)) : list chunk :=
  match entries with
  | [] => []
  | (name, child) :: entries => (if is_node child then chunks child name else []) ++ children_chunks entries
  end.
Fixpoint children_of (entries : list (text * dt_value)) : list (list Z * fdt_node) :=
  match entries with
  | [] => []
  | (name, child) :: entries => (if is_node child then [(utf8_encode name, tree child)] else []) ++ children_of entries
  end.
Definition name_ok (name : text) : bool :=
  (bool_decide (0 ∉ utf8_encode name) && (zlen (utf8_encode name) <=? 31))%bool.
Definition prop_ok (name : text) (prop : dt_value) : bool :=
  (bool_decide (name ∉ object_prototype) && whole prop && (zlen (value_of prop) <? 2 ^ 32))%bool.
Fixpoint entries_ok (entries : list (text * dt_value)) : bool :=
  match entries with
  | [] => true
  | (name, v) :: entries => (name_ok name && (if is_node v then ok v else prop_ok name v) && entries_ok entries)%bool
  end.
End loops.
Fixpoint node_chunks (v : dt_value) (name : text) : list chunk :=
  match v with
  | DtNode entries =>
      Raw (begin_bytes name) :: props_chunks entries ++ children_chunks node_chunks entries ++ [Raw (w32 FDT_END_NODE)]
  | _ => []
  end.
(** The tree that is printed: the properties' bytes, the children's trees. *)
Definition props_of (entries : list (text * dt_value)) : list (list Z * list Z) :=
  entries ≫= fun '(name, prop) => if is_node prop then [] else [(utf8_encode name, value_of prop)].
Fixpoint tree_of (v : dt_value) : fdt_node :=
  match v with DtNode entries => FdtNode (props_of entries) (children_of tree_of entries) | _ => FdtNode [] [] end.
(** Names without NUL of at most 31 bytes, none that a plain object has of itself, and
    values that are numbers, strings, arrays, buffers, or typed arrays that view the
    whole of theirs. *)
Fixpoint dt_ok (v : dt_value) : bool := match v with DtNode entries => entries_ok dt_ok entries | _ => false end.

(** The references that printing from [pos] on adds. *)
Fixpoint hole_refs (pos : Z) (cs : list chunk) : list (text * Z) :=
  match cs with
  | [] => []
  | Raw bytes :: cs => hole_refs (pos + zlen bytes) cs
  | Hole name _ :: cs => (name, pos - 4) :: hole_refs (pos + 4) cs
  end.
Definition add_refs (refs : list (text * Z)) (s : list (text * list Z)) : list (text * list Z) :=
  foldl (fun s r => push_entry r.1 r.2 s) s refs.
(** The holes get the values that [f] gives for their properties. *)
Fixpoint map_holes (f : Z → Z → Z) (pos : Z) (cs : list chunk) : list chunk :=
  match cs with
  | [] => []
  | Raw bytes :: cs => Raw bytes :: map_holes f (pos + zlen bytes) cs
  | Hole name v :: cs => Hole name (f (pos - 4) v) :: map_holes f (pos + 4) cs
  end.

Definition dt_induction (P : dt_value → Prop) (Hnode : ∀ entries, Forall (fun kv => P kv.2) entries → P (DtNode entries))
    (Hleaf : ∀ v, (if v is DtNode _ then False else True) → P v) : ∀ v, P v :=
  fix ind v :=
    match v with
    | DtNode entries =>
        Hnode entries ((fix all l : Forall (fun kv => P kv.2) l :=
          match l with [] => Forall_nil_2 _ | kv :: l => Forall_cons_2 _ kv l (ind kv.2) (all l) end) entries)
    | v => Hleaf v I
    end.

(** * Lemmas on the format *)
Lemma w32_mod z : w32 z = w32 (to_u32 z).
Proof. change (sc_encode (Sc 4 false false false) z = sc_encode (Sc 4 false false false) (to_u32 z)). unfold sc_encode, to_u32. cbn [sc_bits sc_width]. change (sc_bits _) with 32. by rewrite Z.mod_mod. Qed.
Lemma zlen_w32 z : zlen (w32 z) = 4.
Proof. change (w32 z) with (reverse (le_encode 4 (z mod 2 ^ 32))). unfold zlen. by rewrite length_reverse, length_le_encode. Qed.
Lemma length_w32 z : length (w32 z) = 4%nat.
Proof. pose proof (zlen_w32 z). unfold zlen in *. lia. Qed.
Lemma be32_w32 z rest : 0 ≤ z < 2 ^ 32 → be32 (w32 z ++ rest) = Some (z, rest).
Proof.
  intros Hz. pose proof (zlen_w32 z) as Hl. pose proof (zlen_nonneg rest). unfold be32. rewrite zlen_app, Hl, (proj2 (Z.leb_le _ _)) by lia.
  assert (El : length (w32 z) = 4%nat) by (unfold zlen in Hl; lia). rewrite <- El, take_app_length, drop_app_length.
  change (w32 z) with (reverse (le_encode 4 (z mod 2 ^ 32))). rewrite reverse_involutive, le_decode_encode; rewrite Z.mod_small by done; done.
Qed.
Lemma be64_enc z rest : 0 ≤ z < 2 ^ 64 → be64 (enc U64BE (Num z) ++ rest) = Some (z, rest).
Proof.
  intros Hz. change (enc U64BE (Num z)) with (reverse (le_encode 8 (z mod 2 ^ 64))). set (b := reverse _).
  assert (El : length b = 8%nat) by (unfold b; by rewrite length_reverse, length_le_encode).
  unfold be64. rewrite zlen_app. pose proof (zlen_nonneg rest). rewrite (proj2 (Z.leb_le _ _)) by (unfold zlen; lia).
  rewrite <- El, take_app_length, drop_app_length. unfold b. rewrite reverse_involutive, le_decode_encode; rewrite Z.mod_small by done; done.
Qed.
Lemma padding_range n : 0 ≤ padding n < 4.
Proof. apply Z.mod_pos_bound. lia. Qed.
Lemma padding_mod n : (n + padding n) mod 4 = 0.
Proof. unfold padding. rewrite Z.add_mod_idemp_r by lia. by rewrite Z.add_opp_diag_r. Qed.
Lemma fdt_take_app bytes rest : fdt_take (zlen bytes) (bytes ++ zeros (padding (zlen bytes)) ++ rest) = Some (bytes, rest).
Proof.
  pose proof (padding_range (zlen bytes)). pose proof (zlen_nonneg rest). unfold fdt_take.
  rewrite !zlen_app, zlen_zeros, (proj2 (Z.leb_le _ _)) by lia. rewrite zlen_to_nat, take_app_length. do 2 f_equal.
  rewrite app_assoc. rewrite <- zlen_zeros with (n := padding (zlen bytes)) at 1 by lia.
  rewrite <- zlen_app, zlen_to_nat. apply drop_app_length.
Qed.
Lemma fdt_cstring_app name rest : (0 ∉ name) → fdt_cstring (name ++ 0 :: rest) = Some name.
Proof.
  induction name as [|b name IH]; intros H; [done|]. apply not_elem_of_cons in H as [Hb H]. cbn [app fdt_cstring].
  destruct (Z.eqb_spec b 0); [congruence|]. by rewrite IH.
Qed.
Lemma fdt_name_app name rest : (0 ∉ name) → fdt_name (name ++ [0] ++ zeros (padding (zlen name + 1)) ++ rest) = Some (name, rest).
Proof.
  intros H. unfold fdt_name. cbn [app]. rewrite fdt_cstring_app by done. cbn [mbind option_bind].
  replace (zlen name + 1) with (zlen (name ++ [0])) by (by rewrite zlen_app).
  replace (name ++ 0 :: zeros (padding (zlen (name ++ [0]))) ++ rest) with ((name ++ [0]) ++ zeros (padding (zlen (name ++ [0]))) ++ rest)
    by (by rewrite <- app_assoc).
  by rewrite fdt_take_app.
Qed.
Lemma render_app cs1 cs2 : render (cs1 ++ cs2) = render cs1 ++ render cs2.
Proof. apply bind_app. Qed.

(** * Printing *)

(** [builds], with the table of references. *)
Definition walks {A} (m : M fdt A) (l : list Z) (s : list (text * list Z)) (a : A) (l' : list Z) (s' : list (text * list Z)) : Prop :=
  ∀ b, repr b l → 0 < capacity b → ∃ b', m (Fdt b s) = (Done a, Fdt b' s') ∧ repr b' l' ∧ 0 < capacity b'.
Lemma walks_ret {A} (a : A) l s : walks (mret a) l s a l s.
Proof. intros b Hr Hc. by exists b. Qed.
Lemma walks_bind {A B} (m : M fdt A) (f : A → M fdt B) l s a l1 s1 r l2 s2 :
  walks m l s a l1 s1 → walks (f a) l1 s1 r l2 s2 → walks (m ≫= f) l s r l2 s2.
Proof.
  intros Hm Hf b Hr Hc. destruct (Hm b Hr Hc) as (b1&E&Hr1&Hc1). erewrite M_bind_done by exact E. by apply Hf.
Qed.
Lemma walks_bytes {A} (m : M buf A) l a l' s : builds m l a l' → walks (bytes_do m) l s a l' s.
Proof. intros H b Hr Hc. destruct (H b Hr Hc) as (b'&E&Hr'&Hc'). exists b'. unfold bytes_do, focus. cbn [fd_bytes]. by rewrite E. Qed.
Lemma walks_eq {A} (m : M fdt A) l s a l1 l2 s1 s2 : walks m l s a l1 s1 → l1 = l2 → s1 = s2 → walks m l s a l2 s2.
Proof. by intros ? <- <-. Qed.
Lemma walks_assert b msg l s : b = true → walks (assert_m b msg) l s tt l s.
Proof. intros -> c Hr Hc. by exists c. Qed.
Lemma walks_strings l s : walks (gets fd_strings) l s s l s.
Proof. intros b Hr Hc. by exists b. Qed.
Lemma builds_length l : builds (gets b_length) l (zlen l) l.
Proof. intros b Hr Hc. exists b. destruct Hr as (?&Hl&?). unfold gets. rewrite Hl. done. Qed.

Lemma builds_align l n : 0 < n → builds (align n) l tt (l ++ zeros ((- zlen l) mod n)).
Proof.
  intros Hn b Hr Hc. unfold align. erewrite M_bind_done by done. cbv zeta. assert (El : b_length b = zlen l) by apply Hr. rewrite El.
  destruct (Z.eqb_spec (zlen l mod n) 0) as [E|E].
  - exists b. rewrite Z.mod_opp_l_z by lia. by rewrite app_nil_r.
  - rewrite Z.mod_opp_l_nz by lia. pose proof (Z.mod_pos_bound (zlen l) n Hn).
    assert (Hrep : ∀ k m, ∃ r, builds (repeat_m k (alloc U8)) m r (m ++ zeros (Z.of_nat k))).
    { induction k as [|k IH]; intros m; [exists []; eapply builds_eq; [apply builds_ret|by rewrite app_nil_r]|].
      destruct (IH (m ++ zeros 1)) as [r Hk]. eexists. cbn [repeat_m]. eapply builds_bind; [apply builds_alloc|].
      eapply builds_bind; [exact Hk|]. eapply builds_eq; [apply builds_ret|]. rewrite <- app_assoc, zeros_app by lia. do 2 f_equal. lia. }
    destruct (Hrep (Z.to_nat (n - zlen l mod n)) l) as [r H1].
    assert (H2 : builds (repeat_m (Z.to_nat (n - zlen l mod n)) (alloc U8) ;; mret tt) l tt (l ++ zeros (n - zlen l mod n))).
    { eapply builds_bind; [exact H1|]. eapply builds_eq; [apply builds_ret|]. do 2 f_equal. lia. }
    exact (H2 b Hr Hc).
Qed.
Lemma builds_aligned l n : 0 < n → zlen l mod n = 0 → builds (align n) l tt l.
Proof. intros Hn H. eapply builds_eq; [by apply builds_align|]. rewrite Z.mod_opp_l_z by lia. apply app_nil_r. Qed.

(** Words of a struct are written modulo 2^32. *)
Lemma ty_set_w32 dv o z : ty_set U32BE dv o (Num z) = ty_set U32BE dv o (Num (to_u32 z)).
Proof. cbn [ty_set U32BE sc_set]. change (sc_encode ?s z) with (w32 z). by rewrite w32_mod. Qed.
Lemma typed_w32 z : typed U32BE (Num (to_u32 z)) = true.
Proof. apply typed_u32be, to_u32_range. Qed.
Lemma builds_set_word l l1 k l2 z o :
  k ∉ l1.*1 → k ∉ l2.*1 → 0 ≤ o → o + layout_size (l1 ++ (k, U32BE) :: l2) ≤ zlen l →
  builds (alloc_set (Struct (l1 ++ (k, U32BE) :: l2)) o (Obj [(k, Num z)])) l tt (splice l (Z.to_nat (o + layout_size l1)) (w32 z)).
Proof.
  intros H1 H2 Ho Hl. rewrite w32_mod.
  pose proof (builds_alloc_set_field l l1 k U32BE l2 (Num (to_u32 z)) o H1 H2 (typed_w32 z) Ho Hl) as H.
  intros b Hr Hc. destruct (H b Hr Hc) as (b'&E&Hb). exists b'. split; [|exact Hb]. rewrite <- E.
  unfold alloc_set, mbind, M_bind, get_state, lift, put_state. replace (ty_set (Struct (l1 ++ (k, U32BE) :: l2)) (dv_of (b_array b)) o (Obj [(k, Num z)]))
    with (ty_set (Struct (l1 ++ (k, U32BE) :: l2)) (dv_of (b_array b)) o (Obj [(k, Num (to_u32 z))])); [done|].
  cbn [ty_set]. destruct (narrow _ o) as [dv| |]; [|done..]. cbn [mbind outcome_bind].
  rewrite !set_fields_one by done. by rewrite <- ty_set_w32.
Qed.
Lemma builds_w32 l z : builds (emit U32BE (Num z)) l (zlen l) (l ++ w32 z).
Proof.
  rewrite w32_mod. intros b Hr Hc. destruct (builds_emit l U32BE (Num (to_u32 z)) (typed_w32 z) b Hr Hc) as (b'&E&Hb). exists b'. split; [|exact Hb].
  rewrite <- E. unfold emit, mbind, M_bind. destruct (alloc U32BE b) as [[o| |] b1]; [|done..].
  unfold alloc_set, mbind, M_bind, get_state, lift. by rewrite ty_set_w32.
Qed.
Lemma builds_u8_zero l : builds (emit U8 (Num 0)) l (zlen l) (l ++ [0]).
Proof. by apply builds_emit. Qed.

Lemma walks_push name property l s : name ∉ object_prototype →
  walks (push_reference name property) l s tt l (push_entry name property s).
Proof. intros H b Hr Hc. exists b. unfold push_reference. by rewrite bool_decide_false. Qed.
Lemma aligned_padding k n : k mod 4 = 0 → (- (k + n)) mod 4 = padding n.
Proof. intros H. unfold padding. rewrite Z.opp_add_distr, <- Zplus_mod_idemp_l, Z.mod_opp_l_z by lia. done. Qed.
Lemma aligned_add k n : k mod 4 = 0 → n mod 4 = 0 → (k + n) mod 4 = 0.
Proof. intros H1 H2. by rewrite Z.add_mod, H1, H2 by lia. Qed.

(** What the code writes for a value is what the value is. *)
Lemma big_endian_le n z : big_endian n z = reverse (le_encode n z).
Proof.
  enough (H : ∀ k, (fun i => (z / 2 ^ (8 * Z.of_nat i)) mod 256) <$> seq k n = le_encode n (z / 2 ^ (8 * Z.of_nat k))).
  { specialize (H 0%nat). change (z / 2 ^ (8 * Z.of_nat 0)) with (z / 1) in H. rewrite Z.div_1_r in H. rewrite <- H, <- fmap_reverse. clear H.
    induction n as [|n IH]; [done|]. cbn [big_endian]. rewrite IH, seq_S, reverse_snoc. done. }
  induction n as [|n IH]; intros k; [done|]. cbn [seq fmap list_fmap le_encode]. f_equal. etrans; [apply (IH (S k))|]. f_equal.
  replace (8 * Z.of_nat (S k)) with (8 * Z.of_nat k + 8) by lia. rewrite Z.pow_add_r, <- Z.div_div by lia. done.
Qed.
Lemma le_encode_mod n z : le_encode n (z mod 256 ^ Z.of_nat n) = le_encode n z.
Proof.
  revert z; induction n as [|n IH]; intros z; [done|]. cbn [le_encode]. replace (Z.of_nat (S n)) with (Z.of_nat n + 1) by lia.
  rewrite Z.pow_add_r, Z.pow_1_r, Z.mul_comm by lia. assert (0 < 256 ^ Z.of_nat n) by lia. rewrite Z.rem_mul_r by lia. f_equal.
  - by rewrite Z.mul_comm, Z.mod_add, Z.mod_mod by lia.
  - rewrite Z.mul_comm, Z.div_add by lia. rewrite (Z.div_small (z mod 256)) by (apply Z.mod_pos_bound; lia). apply IH.
Qed.
Lemma w32_bytes n : w32 n = big_endian 4 n.
Proof. rewrite big_endian_le. change (w32 n) with (reverse (le_encode 4 (n mod 256 ^ Z.of_nat 4))). by rewrite le_encode_mod. Qed.
Lemma set_word pre old rest v : zlen old = 4 → ty_set U32BE (dv_of (pre ++ old ++ rest)) (zlen pre) (Num v) = Done (pre ++ w32 v ++ rest).
Proof.
  intros Ho. change (ty_set U32BE (dv_of ?l) ?o (Num ?n)) with (dv_write (dv_of l) o (w32 n)). pose proof (zlen_nonneg rest).
  rewrite dv_write_ok; [|done|cbn [dv_of dv_length]; rewrite zlen_w32, !zlen_app; lia]. cbn [dv_of dv_buffer dv_offset].
  rewrite Z.add_0_l, zlen_to_nat. f_equal. apply splice_app_l. rewrite length_w32. unfold zlen in Ho. lia.
Qed.
Lemma set_numbers_words l i pre : zlen pre = 4 * i → set_numbers i l (pre ++ zeros (4 * zlen l)) = Done (pre ++ (l ≫= big_endian 4)).
Proof.
  revert i pre; induction l as [|n l IH]; intros i pre Hp; cbn [set_numbers]; [done|]. pose proof (zlen_nonneg l).
  replace (zeros (4 * zlen (n :: l))) with (zeros 4 ++ zeros (4 * zlen l)) by (rewrite zeros_app, zlen_cons by lia; f_equal; lia).
  replace (i * 4) with (zlen pre) by lia. rewrite set_word by done. cbn [mbind outcome_bind]. rewrite app_assoc, IH by (rewrite zlen_app, zlen_w32; lia).
  by rewrite bind_cons, <- app_assoc, w32_bytes.
Qed.
Lemma property_value_of prop : whole prop = true → property_value prop = Done (value_of prop).
Proof.
  intros Hw. destruct prop as [|s|n|n|l|buffer o n|bytes|]; cbn [property_value value_of whole] in *; try done.
  - unfold utf8_encode. by rewrite bind_app.
  - rewrite (set_word [] (zeros 4) []) by done. by rewrite app_nil_r, w32_bytes.
  - rewrite big_endian_le, <- (le_encode_mod 8).
    change (ty_set U64BE (dv_of ?l) ?o (Num n)) with (dv_write (dv_of l) o (reverse (le_encode 8 (n mod 256 ^ Z.of_nat 8)))).
    set (bytes := reverse _). assert (length bytes = 8%nat) by (unfold bytes; by rewrite length_reverse, length_le_encode).
    rewrite dv_write_ok by (cbn [dv_of dv_length]; unfold zlen in *; rewrite ?H; done). cbn [dv_of dv_buffer dv_offset]. f_equal.
  - apply (set_numbers_words l 0 []). done.
  - zbool. subst. f_equal. unfold subarray. symmetry. apply take_ge. unfold zlen. lia.
Qed.

Lemma walk_property_spec name prop l s :
  zlen l mod 4 = 0 → name_ok name = true → prop_ok name prop = true →
  walks (walk_property name prop) l s tt (l ++ render (prop_chunks name (value_of prop))) (push_entry name (zlen l + 4) s).
Proof.
  intros Hl Hn Hp. unfold name_ok in Hn. unfold prop_ok in *. zbool.
  match goal with Hw : whole _ = true |- _ => pose proof (property_value_of prop Hw) as Ev end. revert Ev. generalize dependent (value_of prop).
  intros value Hz Ev. unfold walk_property.
  eapply walks_bind; [apply walks_bytes, builds_aligned; [lia|done]|].
  eapply walks_bind; [apply walks_bytes, builds_w32|].
  eapply walks_bind; [apply walks_bytes, builds_alloc|].
  eapply walks_bind; [apply walks_assert, Z.leb_le; unfold PROPERTY_NAME_MAX_LEN; lia|].
  eapply walks_bind; [by apply walks_push|].
  rewrite Ev. eapply walks_bind; [intros b Hr Hc; by exists b|].
  eapply walks_bind.
  { apply walks_bytes. eapply builds_eq.
    - apply (builds_set_word _ [] "len" [("nameoff", U32BE)]); try (set_solver || done).
      rewrite !zlen_app. change (zlen (zeros _)) with 8. change (layout_size _) with 8. lia.
    - change (zeros (ty_size Property)) with (zeros 4 ++ zeros 4). rewrite Z.add_0_r, zlen_to_nat. apply splice_app_l. done. }
  eapply walks_bind; [apply walks_bytes, builds_append|].
  eapply walks_eq; [apply walks_bytes, builds_align; lia| |by rewrite zlen_app, zlen_w32].
  unfold render, prop_chunks. cbn [mbind list_bind chunk_bytes app]. change (w32 0) with (zeros 4). rewrite <- !app_assoc, app_nil_r.
  do 5 f_equal. rewrite !zlen_app, !zlen_w32. change (zlen (zeros 4)) with 4.
  replace (zlen l + (4 + (4 + (4 + zlen value)))) with (zlen l + 12 + zlen value) by lia.
  f_equal. apply aligned_padding. by apply aligned_add.
Qed.
Lemma render_cons c cs : render (c :: cs) = chunk_bytes c ++ render cs.
Proof. done. Qed.
Lemma hole_refs_app cs1 cs2 pos : hole_refs pos (cs1 ++ cs2) = hole_refs pos cs1 ++ hole_refs (pos + zlen (render cs1)) cs2.
Proof.
  revert pos; induction cs1 as [|[bytes|name v] cs1 IH]; intros pos; [cbn; by rewrite Z.add_0_r|..]; cbn [app hole_refs]; rewrite render_cons, zlen_app, IH; cbn [chunk_bytes].
  - do 2 f_equal. lia.
  - rewrite zlen_w32. cbn [app]. do 3 f_equal. lia.
Qed.
Lemma add_refs_app r1 r2 s : add_refs (r1 ++ r2) s = add_refs r2 (add_refs r1 s).
Proof. apply foldl_app. Qed.
(** A printer of aligned chunks. *)
Definition printer {A} (m : M fdt A) (a : A) (cs : list chunk) : Prop :=
  ∀ l s, zlen l mod 4 = 0 → walks m l s a (l ++ render cs) (add_refs (hole_refs (zlen l) cs) s).
Definition aligned (cs : list chunk) : Prop := zlen (render cs) mod 4 = 0.
Lemma aligned_app cs1 cs2 : aligned cs1 → aligned cs2 → aligned (cs1 ++ cs2).
Proof. unfold aligned. intros. rewrite render_app, zlen_app. by apply aligned_add. Qed.
Lemma printer_nil : printer (mret tt) tt [].
Proof. intros l s _. eapply walks_eq; [apply walks_ret|by rewrite app_nil_r|done]. Qed.
Lemma printer_bind {A B} (m : M fdt A) (f : A → M fdt B) a cs1 r cs2 :
  printer m a cs1 → aligned cs1 → printer (f a) r cs2 → printer (m ≫= f) r (cs1 ++ cs2).
Proof.
  intros Hm Ha Hf l s Hl. eapply walks_bind; [by apply Hm|].
  eapply walks_eq; [apply Hf; rewrite zlen_app; by apply aligned_add|by rewrite render_app, app_assoc|].
  by rewrite hole_refs_app, add_refs_app, zlen_app.
Qed.
Lemma printer_raw m bytes : (∀ l s, zlen l mod 4 = 0 → walks m l s tt (l ++ bytes) s) → printer m tt [Raw bytes].
Proof. intros H l s Hl. eapply walks_eq; [by apply H|unfold render; cbn; by rewrite app_nil_r|done]. Qed.

Lemma prop_aligned name value : aligned (prop_chunks name value).
Proof.
  unfold aligned, render, prop_chunks. cbn [mbind list_bind chunk_bytes]. rewrite !zlen_app, !zlen_w32. pose proof (padding_range (zlen value)).
  rewrite zlen_zeros, zlen_nil by lia. replace (4 + 4 + (4 + (zlen value + padding (zlen value) + 0))) with (zlen value + padding (zlen value) + 3 * 4) by lia.
  rewrite Z.mod_add by lia. apply padding_mod.
Qed.
Lemma props_aligned entries : aligned (props_chunks entries).
Proof.
  induction entries as [|[name prop] entries IH]; [done|]. unfold props_chunks. rewrite bind_cons. apply aligned_app; [|exact IH].
  destruct (is_node prop); [done|apply prop_aligned].
Qed.
Lemma begin_aligned name : aligned [Raw (begin_bytes name)].
Proof.
  unfold aligned, render, begin_bytes. cbn [mbind list_bind chunk_bytes]. pose proof (padding_range (zlen (utf8_encode name) + 1)).
  rewrite app_nil_r, !zlen_app, zlen_w32, zlen_zeros by lia. change (zlen [0]) with 1.
  replace (4 + (zlen (utf8_encode name) + (1 + padding (zlen (utf8_encode name) + 1))))
    with (zlen (utf8_encode name) + 1 + padding (zlen (utf8_encode name) + 1) + 1 * 4) by lia.
  rewrite Z.mod_add by lia. apply padding_mod.
Qed.
Lemma walk_properties_printer entries :
  entries_ok dt_ok entries = true → printer (walk_properties entries) tt (props_chunks entries).
Proof.
  induction entries as [|[name prop] entries IH]; cbn [entries_ok]; intros Hok; [apply printer_nil|]. zbool. cbn [walk_properties].
  unfold props_chunks. rewrite bind_cons. destruct (is_node prop).
  - apply (printer_bind (mret tt) (fun _ => _) tt []); [apply printer_nil|done|by apply IH].
  - eapply (printer_bind _ (fun _ => _) tt); [|apply prop_aligned|by apply IH]. intros l s Hl. eapply walks_eq; [by apply walk_property_spec|done|].
    unfold prop_chunks. cbn [hole_refs add_refs foldl fst snd]. rewrite zlen_app, !zlen_w32. f_equal. lia.
Qed.
Lemma begin_node_printer name : name_ok name = true → printer (begin_node name) tt [Raw (begin_bytes name)].
Proof.
  unfold name_ok. intros Hn. zbool. apply printer_raw. intros l s Hl. unfold begin_node.
  eapply walks_bind; [apply walks_bytes, builds_aligned; [lia|done]|].
  eapply walks_bind; [apply walks_bytes, builds_w32|]. cbv zeta.
  eapply walks_bind; [apply walks_assert, Z.leb_le; done|].
  eapply walks_bind; [apply walks_bytes, builds_append|].
  eapply walks_bind; [apply walks_bytes, builds_u8_zero|].
  eapply walks_eq; [apply walks_bytes, builds_align; lia| |done]. unfold begin_bytes. rewrite <- !app_assoc. do 5 f_equal.
  rewrite !zlen_app, zlen_w32. change (zlen [0]) with 1.
  replace (zlen l + (4 + (zlen (utf8_encode name) + 1))) with (zlen l + 4 + (zlen (utf8_encode name) + 1)) by lia. apply aligned_padding.
  by apply aligned_add.
Qed.
Lemma end_node_printer : printer (bytes_do (align 4) ;; bytes_do (emit U32BE (Num FDT_END_NODE)) ;; mret tt) tt [Raw (w32 FDT_END_NODE)].
Proof.
  apply printer_raw. intros l s Hl. eapply walks_bind; [apply walks_bytes, builds_aligned; [lia|done]|].
  eapply walks_bind; [apply walks_bytes, builds_w32|]. apply walks_ret.
Qed.
Lemma walk_tree_printer v name : name_ok name = true → dt_ok v = true →
  printer (walk_tree v name) tt (node_chunks v name) ∧ aligned (node_chunks v name).
Proof.
  revert name; induction v as [entries IH|v Hv] using dt_induction; intros name Hn Hok; [|by destruct v].
  cbn [walk_tree node_chunks]. cbn [dt_ok] in Hok.
  assert (Hch : printer (walk_children walk_tree entries) tt (children_chunks node_chunks entries) ∧ aligned (children_chunks node_chunks entries)).
  { clear name Hn. induction IH as [|[name child] entries Hc _ IHe]; [split; [apply printer_nil|done]|].
    cbn [entries_ok] in Hok. zbool. cbn [walk_children children_chunks]. destruct IHe as [He1 He2]; [done|].
    assert (Hchild : printer (if is_node child then walk_tree child name else mret tt) tt (if is_node child then node_chunks child name else [])
      ∧ aligned (if is_node child then node_chunks child name else [])).
    { destruct (is_node child); [by apply Hc|split; [apply printer_nil|done]]. }
    destruct Hchild as [Hp Ha]. split; [by eapply (printer_bind _ (fun _ => _) tt)|by apply aligned_app]. }
  destruct Hch as [H1 H2]. split.
  - apply (printer_bind (begin_node name) _ tt [Raw (begin_bytes name)]); [by apply begin_node_printer|apply begin_aligned|].
    eapply (printer_bind _ (fun _ => _) tt); [by apply walk_properties_printer|apply props_aligned|].
    eapply (printer_bind _ (fun _ => _) tt); [exact H1|exact H2|apply end_node_printer].
  - apply (aligned_app [Raw (begin_bytes name)]); [apply begin_aligned|]. apply aligned_app; [apply props_aligned|]. by apply aligned_app.
Qed.

(** * The names are filled in *)
Lemma map_holes_render f pos cs : zlen (render (map_holes f pos cs)) = zlen (render cs).
Proof.
  revert pos; induction cs as [|[bytes|name v] cs IH]; intros pos; [done|..]; cbn [map_holes]; rewrite !render_cons, !zlen_app; cbn [chunk_bytes].
  - by rewrite IH.
  - by rewrite !zlen_w32, IH.
Qed.
Lemma map_holes_compose f g pos cs : map_holes f pos (map_holes g pos cs) = map_holes (fun p v => f p (g p v)) pos cs.
Proof. revert pos; induction cs as [|[bytes|name v] cs IH]; intros pos; [done|..]; cbn [map_holes]; by rewrite IH. Qed.
Lemma map_holes_refs f pos cs : hole_refs pos (map_holes f pos cs) = hole_refs pos cs.
Proof. revert pos; induction cs as [|[bytes|name v] cs IH]; intros pos; [done|..]; cbn [map_holes hole_refs]; by rewrite IH. Qed.
Lemma map_holes_id f pos cs : (∀ p v, p ∈ (hole_refs pos cs).*2 → f p v = v) → map_holes f pos cs = cs.
Proof.
  revert pos; induction cs as [|[bytes|name v] cs IH]; intros pos H; [done|..]; cbn [map_holes hole_refs fmap list_fmap snd] in *.
  - by rewrite IH.
  - rewrite H by left. by rewrite IH by (intros; apply H; by right).
Qed.
Lemma hole_refs_bound pos cs p : p ∈ (hole_refs pos cs).*2 → pos - 4 ≤ p ∧ p + 8 ≤ pos + zlen (render cs).
Proof.
  revert pos; induction cs as [|[bytes|name v] cs IH]; intros pos; [by intros ?%not_elem_of_nil|..]; cbn [hole_refs fmap list_fmap snd];
    rewrite render_cons, zlen_app; cbn [chunk_bytes].
  - intros H%IH. pose proof (zlen_nonneg bytes). lia.
  - rewrite zlen_w32. intros [-> |H%IH]%elem_of_cons; [pose proof (zlen_nonneg (render cs)); lia|lia].
Qed.
Definition fill (p v : Z) : Z → Z → Z := fun q old => if q =? p then v else old.
Lemma fill_splice pre cs post p v : 0 ≤ p → p ∈ (hole_refs (zlen pre) cs).*2 →
  splice (pre ++ render cs ++ post) (Z.to_nat (p + 4)) (w32 v) = pre ++ render (map_holes (fill p v) (zlen pre) cs) ++ post.
Proof.
  revert pre; induction cs as [|[bytes|name old] cs IH]; intros pre Hp; [by intros ?%not_elem_of_nil|..];
    cbn [hole_refs fmap list_fmap snd map_holes]; rewrite !render_cons; cbn [chunk_bytes].
  - intros H. specialize (IH (pre ++ bytes) Hp). rewrite zlen_app, <- !app_assoc in IH. rewrite <- !app_assoc. by apply IH.
  - intros H. unfold fill at 1. destruct (Z.eqb_spec (zlen pre - 4) p) as [E|E].
    + rewrite map_holes_id.
      2:{ intros q w Hq. unfold fill. destruct (Z.eqb_spec q p); [|done]. apply hole_refs_bound in Hq. lia. }
      rewrite <- !app_assoc. replace (Z.to_nat (p + 4)) with (length pre) by (rewrite <- E, Z.sub_add, zlen_to_nat; done).
      apply splice_app_l. pose proof (zlen_w32 v). pose proof (zlen_w32 old). unfold zlen in *. lia.
    + apply elem_of_cons in H as [H|H]; [congruence|]. specialize (IH (pre ++ w32 old) Hp). rewrite zlen_app, zlen_w32, <- !app_assoc in IH.
      rewrite <- !app_assoc. by apply IH.
Qed.
Lemma map_holes_ext f g pos cs : (∀ p v, f p v = g p v) → map_holes f pos cs = map_holes g pos cs.
Proof. intros H. revert pos; induction cs as [|[bytes|name v] cs IH]; intros pos; [done|..]; cbn [map_holes]; by rewrite ?H, IH. Qed.
Definition fill_all (refs : list Z) (v : Z) : Z → Z → Z := fun q old => if bool_decide (q ∈ refs) then v else old.
Lemma set_references_spec refs v pre cs post s :
  4 ≤ zlen pre → Forall (fun p => p ∈ (hole_refs (zlen pre) cs).*2) refs →
  walks (set_references refs v) (pre ++ render cs ++ post) s tt (pre ++ render (map_holes (fill_all refs v) (zlen pre) cs) ++ post) s.
Proof.
  intros Hpre Hrefs. revert cs Hrefs; induction refs as [|p refs IH]; intros cs Hrefs; cbn [set_references].
  - eapply walks_eq; [apply walks_ret| |done]. rewrite map_holes_id; [done|]. intros q w _. unfold fill_all. by rewrite bool_decide_false by apply not_elem_of_nil.
  - apply Forall_cons in Hrefs as [Hp Hrefs]. pose proof (hole_refs_bound _ _ _ Hp) as Hb. pose proof (zlen_nonneg post). eapply walks_bind.
    + apply walks_bytes. eapply builds_eq.
      * apply (builds_set_word _ [("len", U32BE)] "nameoff" []); try (set_solver || lia). rewrite !zlen_app.
        change (layout_size _) with 8. lia.
      * change (layout_size _) with 4. apply fill_splice; [lia|exact Hp].
    + eapply walks_eq; [apply IH| |done].
      * eapply Forall_impl; [exact Hrefs|]. intros q. by rewrite map_holes_refs.
      * rewrite map_holes_compose. do 3 f_equal. apply map_holes_ext. intros q w. unfold fill_all, fill.
        destruct (Z.eqb_spec q p) as [->|Hq]; [rewrite (bool_decide_true (p ∈ p :: refs)) by left; by case_bool_decide|].
        destruct (bool_decide_reflect (q ∈ refs)), (bool_decide_reflect (q ∈ p :: refs)); set_solver.
Qed.

Definition names_bytes (l : list (text * list Z)) : list Z := l ≫= fun kv => utf8_encode kv.1 ++ [0].
Fixpoint assign (l : list (text * list Z)) (offset : Z) (p old : Z) : Z :=
  match l with
  | [] => old
  | (str, refs) :: l => assign l (offset + zlen (utf8_encode str) + 1) p (fill_all refs offset p old)
  end.
Lemma write_names_spec base l pre cs post s :
  4 ≤ zlen pre → Forall (fun kv => Forall (fun p => p ∈ (hole_refs (zlen pre) cs).*2) kv.2) l →
  walks (write_names base l) (pre ++ render cs ++ post) s tt
    (pre ++ render (map_holes (assign l (zlen (pre ++ render cs ++ post) - base)) (zlen pre) cs) ++ post ++ names_bytes l) s.
Proof.
  intros Hpre. revert cs post; induction l as [|[str refs] l IH]; intros cs post Hl; cbn [write_names].
  - eapply walks_eq; [apply walks_ret| |done]. by rewrite map_holes_id, app_nil_r by done.
  - apply Forall_cons in Hl as [Hr Hl]. eapply walks_bind; [apply walks_bytes, builds_length|].
    eapply walks_bind; [apply walks_bytes, builds_append|]. eapply walks_bind; [apply walks_bytes, builds_u8_zero|].
    rewrite <- !app_assoc. eapply walks_bind; [by apply set_references_spec|].
    eapply walks_eq; [apply IH; eapply Forall_impl; [exact Hl|]; intros kv Hkv; by rewrite map_holes_refs| |done].
    rewrite map_holes_compose. unfold names_bytes at 2. rewrite bind_cons. cbn [fst assign]. rewrite <- !app_assoc. do 3 f_equal.
    apply map_holes_ext. intros q w. f_equal. rewrite !zlen_app, map_holes_render. change (zlen [0]) with 1. lia.
Qed.

(** ** The table of references *)
Definition pairs (s : list (text * list Z)) : list (text * Z) := s ≫= fun kv => (kv.1,.) <$> kv.2.
Lemma elem_pairs n p s : (n, p) ∈ pairs s ↔ ∃ refs, (n, refs) ∈ s ∧ p ∈ refs.
Proof.
  unfold pairs. rewrite list_elem_of_bind. split.
  - intros ([n' refs]&(p'&[= <- <-]&Hp)%list_elem_of_fmap&Hin). by exists refs.
  - intros (refs&Hin&Hp). exists (n, refs). split; [apply list_elem_of_fmap; by exists p|done].
Qed.
Lemma pairs_push n p s r : r ∈ pairs (push_entry n p s) ↔ r ∈ pairs s ∨ r = (n, p).
Proof.
  destruct r as [m q]. rewrite !elem_pairs. unfold push_entry. destruct (find_key n s) as [old|] eqn:E.
  - apply find_key_elem in E. split.
    + intros (refs&([m' refs']&Heq&Hin)%list_elem_of_fmap&Hq). cbn [fst snd] in Heq. destruct (decide (m' = n)) as [->|].
      * injection Heq as -> ->. apply elem_of_app in Hq as [Hq|Hq%list_elem_of_singleton]; [left; by exists refs'|right; by subst].
      * injection Heq as -> ->. left. by exists refs'.
    + intros [(refs&Hin&Hq)|[= -> ->]].
      * destruct (decide (m = n)) as [->|Hm].
        -- exists (refs ++ [p]). split; [|by apply elem_of_app; left]. apply list_elem_of_fmap. exists (n, refs). cbn. by rewrite decide_True.
        -- exists refs. split; [|done]. apply list_elem_of_fmap. exists (m, refs). cbn. by rewrite decide_False.
      * exists (old ++ [p]). split; [|apply elem_of_app; right; by left]. apply list_elem_of_fmap. exists (n, old). cbn. by rewrite decide_True.
  - setoid_rewrite elem_of_app. setoid_rewrite list_elem_of_singleton. split.
    + intros (refs&[Hin|[= -> ->]]&Hq); [left; by exists refs|right]. apply list_elem_of_singleton in Hq. by subst.
    + intros [(refs&Hin&Hq)|[= -> ->]]; [exists refs; auto|]. exists [p]. split; [by right|by left].
Qed.
Lemma pairs_refs refs s r : r ∈ pairs (add_refs refs s) ↔ r ∈ pairs s ∨ r ∈ refs.
Proof.
  revert s; induction refs as [|[n p] refs IH]; intros s; [set_solver|]. unfold add_refs in *. cbn [foldl fst snd].
  rewrite IH, pairs_push, elem_of_cons. tauto.
Qed.
Lemma hole_refs_inj pos cs n1 n2 p : (n1, p) ∈ hole_refs pos cs → (n2, p) ∈ hole_refs pos cs → n1 = n2.
Proof.
  assert (Hb : ∀ pos cs n q, (n, q) ∈ hole_refs pos cs → pos - 4 ≤ q).
  { clear. intros pos cs n q H. apply hole_refs_bound with (cs := cs). apply list_elem_of_fmap. by exists (n, q). }
  revert pos; induction cs as [|[bytes|name v] cs IH]; intros pos; [by intros ?%not_elem_of_nil|apply IH|]. cbn [hole_refs].
  intros H1 H2. apply elem_of_cons in H1, H2. destruct H1 as [H1|H1], H2 as [H2|H2]; simplify_eq; try done.
  - apply Hb in H2. lia.
  - apply Hb in H1. lia.
  - by eapply IH.
Qed.

(** What the names are assigned: where they are in the strings. *)
Definition name_at (strings : list Z) (name : text) (v : Z) : Prop :=
  0 ≤ v ≤ zlen strings ∧ fdt_cstring (drop (Z.to_nat v) strings) = Some (utf8_encode name).
Lemma assign_name strings pre l n p old :
  strings = pre ++ names_bytes l → (0 ∉ utf8_encode n) → (∀ m refs, (m, refs) ∈ l → p ∈ refs → m = n) →
  name_at strings n old ∨ (∃ refs, (n, refs) ∈ l ∧ p ∈ refs) → name_at strings n (assign l (zlen pre) p old).
Proof.
  revert pre old; induction l as [|[str refs] l IH]; intros pre old Hs Hz Hu Hn; cbn [assign].
  - destruct Hn as [Hn|(?&Hin&_)]; [done|by apply not_elem_of_nil in Hin].
  - unfold names_bytes in Hs. rewrite bind_cons in Hs. cbn [fst] in Hs.
    replace (zlen pre + zlen (utf8_encode str) + 1) with (zlen (pre ++ utf8_encode str ++ [0])) by (rewrite !zlen_app; change (zlen [0]) with 1; lia).
    apply IH; [by rewrite Hs, <- !app_assoc|done|intros; eapply Hu; [by right|done]|].
    unfold fill_all. destruct (bool_decide_reflect (p ∈ refs)) as [Hp|Hp].
    + left. assert (Es : str = n) by (eapply Hu; [by left|done]). subst str. split.
      * rewrite Hs, zlen_app. pose proof (zlen_nonneg pre). match goal with |- context [zlen ?x] => lazymatch x with pre => fail | _ => pose proof (zlen_nonneg x) end end. lia.
      * rewrite Hs, zlen_to_nat, drop_app_length, <- app_assoc. by apply fdt_cstring_app.
    + destruct Hn as [Hn|(refs'&[[= -> ->]|Hin]%elem_of_cons&Hp')]; [by left|done|right; by exists refs'].
Qed.

(** * Reading *)
Definition filled (strings : list Z) (c c' : chunk) : Prop :=
  match c, c' with
  | Raw bytes, Raw bytes' => bytes = bytes'
  | Hole n _, Hole n' v => n = n' ∧ name_at strings n v
  | _, _ => False
  end.
Lemma map_holes_filled strings f pos cs :
  (∀ n p v, (n, p) ∈ hole_refs pos cs → name_at strings n (f p v)) → Forall2 (filled strings) cs (map_holes f pos cs).
Proof.
  revert pos; induction cs as [|[bytes|name v] cs IH]; intros pos H; cbn [map_holes]; constructor; try done.
  - by apply IH.
  - split; [done|]. apply H. by left.
  - apply IH. intros n p w Hin. apply H. by right.
Qed.


Section reading.
Context (strings : list Z) (Hstrings : zlen strings < 2 ^ 32).
(** However much fuel there is beyond the length, these chunks read as the node. *)
Definition reads (cs : list chunk) (node : fdt_node) : Prop :=
  ∀ fuel rest, (length (render cs) ≤ fuel)%nat → read_node strings fuel (render cs ++ rest) = Some (node, rest).

Lemma reads_end : reads [Raw (w32 FDT_END_NODE)] (FdtNode [] []).
Proof using.
  intros fuel rest Hf. rewrite render_cons in *. cbn [chunk_bytes render mbind list_bind] in *. rewrite app_nil_r in *. rewrite length_w32 in Hf.
  destruct fuel as [|fuel]; [lia|]. cbn [read_node]. rewrite be32_w32 by done. done.
Qed.
Lemma reads_child name body child tail children :
  name_ok name = true → reads body child → reads tail (FdtNode [] children) →
  reads (Raw (begin_bytes name) :: body ++ tail) (FdtNode [] ((utf8_encode name, child) :: children)).
Proof using.
  intros Hn Hb Ht fuel rest Hf. unfold name_ok in Hn. zbool. rewrite render_cons, render_app in *. cbn [chunk_bytes] in *. unfold begin_bytes in *.
  rewrite !length_app, length_w32 in Hf. destruct fuel as [|fuel]; [lia|]. cbn [read_node]. rewrite <- !app_assoc, be32_w32 by done.
  cbn [mbind option_bind]. change (FDT_BEGIN_NODE =? FDT_PROP) with false. change (FDT_BEGIN_NODE =? FDT_BEGIN_NODE) with true. cbv iota.
  rewrite fdt_name_app by done. cbn [mbind option_bind]. rewrite Hb by lia. cbn [mbind option_bind]. rewrite Ht by lia. done.
Qed.
Lemma reads_prop name value v tail props children :
  zlen value < 2 ^ 32 → name_at strings name v → reads tail (FdtNode props children) →
  reads (Raw (w32 FDT_PROP ++ w32 (zlen value)) :: Hole name v :: Raw (value ++ zeros (padding (zlen value))) :: tail)
    (FdtNode ((utf8_encode name, value) :: props) children).
Proof using Hstrings.
  intros Hz [Hv Hs] Ht fuel rest Hf. rewrite !render_cons in *. cbn [chunk_bytes] in *. rewrite !length_app, !length_w32 in Hf.
  pose proof (zlen_nonneg value). destruct fuel as [|fuel]; [lia|]. cbn [read_node]. rewrite <- !app_assoc, be32_w32 by done.
  cbn [mbind option_bind]. change (FDT_PROP =? FDT_PROP) with true. cbv iota. rewrite be32_w32 by lia. cbn [mbind option_bind].
  rewrite be32_w32 by lia. cbn [mbind option_bind]. rewrite fdt_take_app. cbn [mbind option_bind]. rewrite Hs. cbn [mbind option_bind].
  rewrite Ht by lia. done.
Qed.
Lemma reads_props entries tail cs children :
  entries_ok dt_ok entries = true → (∀ cs, Forall2 (filled strings) tail cs → reads cs (FdtNode [] children)) →
  Forall2 (filled strings) (props_chunks entries ++ tail) cs → reads cs (FdtNode (props_of entries) children).
Proof using Hstrings.
  intros Hok Ht. revert cs; induction entries as [|[name prop] entries IH]; intros cs; [by apply Ht|].
  cbn [entries_ok] in Hok. zbool. unfold props_chunks, props_of. rewrite !bind_cons, <- app_assoc. destruct (is_node prop); [by apply IH|].
  cbn [app prop_chunks]. unfold prop_ok in *. zbool.
  intros (c1&l1&F1&Hc&->)%Forall2_cons_inv_l. apply Forall2_cons_inv_l in Hc as (c2&l2&F2&Hc&->). apply Forall2_cons_inv_l in Hc as (c3&l3&F3&Hc&->).
  destruct c1 as [b1|], c2 as [|n w], c3 as [b3|]; try done. cbn [filled] in *. subst b1 b3. destruct F2 as [<- Hw].
  apply reads_prop; [done|done|]. by apply IH.
Qed.
Lemma reads_node v name : name_ok name = true → dt_ok v = true →
  ∃ body, node_chunks v name = Raw (begin_bytes name) :: body ∧ ∀ cs, Forall2 (filled strings) body cs → reads cs (tree_of v).
Proof using Hstrings.
  revert name; induction v as [entries IH|v Hv] using dt_induction; intros name Hn Hok; [|by destruct v].
  cbn [node_chunks tree_of]. cbn [dt_ok] in Hok. eexists. split; [done|]. intros cs. apply (reads_props entries); [done|].
  clear cs name Hn. induction IH as [|[name child] entries Hc _ IHe].
  - intros cs (c&l&Hc&Hl&->)%Forall2_cons_inv_l. apply Forall2_nil_inv_l in Hl as ->. destruct c as [b|]; [|done]. cbn in Hc. subst b. apply reads_end.
  - cbn [entries_ok] in Hok. zbool. cbn [children_chunks children_of]. destruct (is_node child); [|by apply IHe].
    cbn [snd] in Hc. destruct (Hc name) as (body&->&Hb); [done..|]. rewrite <- !app_assoc. cbn [app]. intros cs (c&l&Hr&Hl&->)%Forall2_cons_inv_l.
    destruct c as [b|]; [|done]. cbn [filled] in Hr. subst b. apply Forall2_app_inv_l in Hl as (l1&l2&F1&F2&->).
    apply reads_child; [done|by apply Hb|by apply IHe].
Qed.
Lemma read_root_spec v cs : dt_ok v = true → Forall2 (filled strings) (node_chunks v []) cs →
  read_root strings (render cs ++ w32 FDT_END) = Some ([], tree_of v).
Proof using Hstrings.
  intros Hok Hcs. destruct (reads_node v []) as (body&E&Hb); [done..|]. rewrite E in Hcs.
  apply Forall2_cons_inv_l in Hcs as (c&l&Hr&Hl&->). destruct c as [b|]; [|done]. cbn [filled] in Hr. subst b. specialize (Hb l Hl).
  rewrite render_cons. cbn [chunk_bytes]. unfold begin_bytes, read_root. rewrite <- !app_assoc, be32_w32 by done. cbn [mbind option_bind].
  change (negb (FDT_BEGIN_NODE =? FDT_BEGIN_NODE)) with false. cbv iota. rewrite fdt_name_app by (apply not_elem_of_nil). cbn [mbind option_bind].
  rewrite Hb by (rewrite length_app; lia). cbn [mbind option_bind]. rewrite <- (app_nil_r (w32 FDT_END)), be32_w32 by done. done.
Qed.
End reading.

Lemma read_reservations_spec l fuel rest :
  Forall (fun r => 0 ≤ r.1 < 2 ^ 64 ∧ 0 ≤ r.2 < 2 ^ 64 ∧ r ≠ (0, 0)) l → (length l < fuel)%nat →
  read_reservations fuel ((l ≫= fun r => enc U64BE (Num r.1) ++ enc U64BE (Num r.2)) ++ enc U64BE (Num 0) ++ enc U64BE (Num 0) ++ rest) = Some l.
Proof.
  intros Hl. revert fuel; induction Hl as [|[a s] l (H1&H2&H3) _ IH]; intros fuel Hf; (destruct fuel as [|fuel]; [cbn in Hf; lia|]); cbn [read_reservations].
  - cbn [mbind list_bind app]. rewrite be64_enc by done. cbn [mbind option_bind]. rewrite be64_enc by done. done.
  - rewrite bind_cons, <- !app_assoc, be64_enc by done. cbn [mbind option_bind fst snd] in *. rewrite be64_enc by done. cbn [mbind option_bind].
    destruct (Z.eqb_spec a 0), (Z.eqb_spec s 0); subst; cbn [andb]; try done; (rewrite IH by (cbn in Hf; lia)); done.
Qed.

(** * The header *)
Definition hdr (ws : list Z) : list Z := ws ≫= w32.
Lemma zlen_header_words ws : zlen (hdr ws) = 4 * zlen ws.
Proof. induction ws as [|w ws IH]; [done|]. unfold hdr in *. rewrite bind_cons, zlen_app, zlen_w32, zlen_cons, IH. lia. Qed.
Lemma words_layout layout : Forall (fun kt => kt.2 = U32BE) layout → layout_size layout = 4 * zlen layout.
Proof. induction 1 as [|[k t] layout Ht _ IH]; [done|]. cbn in Ht. subst t. rewrite layout_size_cons, zlen_cons, IH. change (ty_size U32BE) with 4. lia. Qed.
Lemma set_header_spec i key v ws rest s :
  FdtHeader_layout !! i = Some (key, U32BE) → length ws = 10%nat →
  walks (set_header 0 key v) (hdr ws ++ rest) s tt (hdr (<[i := v]> ws) ++ rest) s.
Proof.
  intros Hk Hws. apply walks_bytes. assert (Hi := lookup_lt_Some _ _ _ Hk). change (length FdtHeader_layout) with 10%nat in Hi.
  destruct (lookup_lt_is_Some_2 ws i) as [x Hx]; [lia|].
  assert (Hlay : take i FdtHeader_layout ++ (key, U32BE) :: drop (S i) FdtHeader_layout = FdtHeader_layout) by (by apply take_drop_middle).
  assert (Hnd : NoDup FdtHeader_layout.*1) by (apply (bool_decide_unpack _); vm_compute; exact I).
  rewrite <- Hlay, fmap_app, fmap_cons in Hnd. apply NoDup_app in Hnd as (_&Hd1&Hd2). apply NoDup_cons in Hd2 as [Hd2 _].
  unfold FdtHeader. rewrite <- Hlay. rewrite <- (take_drop_middle ws i x Hx) at 1. rewrite (insert_take_drop ws i v) by lia.
  unfold hdr. rewrite !bind_app, !bind_cons. fold (hdr (take i ws)) (hdr (drop (S i) ws)).
  assert (Hpos : layout_size (take i FdtHeader_layout) = zlen (hdr (take i ws))).
  { rewrite words_layout, zlen_header_words; [unfold zlen; rewrite !length_take; change (length FdtHeader_layout) with 10%nat; lia|].
    apply Forall_take. by repeat constructor. }
  eapply builds_eq.
  - apply builds_set_word; [intros Hin; by apply (Hd1 key Hin), list_elem_of_here|exact Hd2|lia|]. rewrite Hlay. change (layout_size _) with 40.
    rewrite !zlen_app, !zlen_header_words, zlen_w32. pose proof (zlen_nonneg rest). unfold zlen. rewrite length_take, length_drop. lia.
  - rewrite Z.add_0_l, Hpos, zlen_to_nat, <- !app_assoc. apply splice_app_l. by rewrite !length_w32.
Qed.
Lemma word_hdr i w ws rest : ws !! i = Some w → 0 ≤ w < 2 ^ 32 → word i (hdr ws ++ rest) = w.
Proof.
  intros Hi Hw. unfold word. rewrite <- (take_drop_middle ws i w Hi). unfold hdr. rewrite bind_app, bind_cons, <- !app_assoc. fold (hdr (take i ws)).
  replace (4 * i)%nat with (length (hdr (take i ws))).
  2:{ pose proof (zlen_header_words (take i ws)) as H. apply lookup_lt_Some in Hi. unfold zlen in H. rewrite length_take in H. lia. }
  rewrite drop_app_length. change (w32 w) with (reverse (le_encode 4 (w mod 2 ^ 32))) at 1. rewrite Z.mod_small by done.
  change 4%nat with (length (reverse (le_encode 4 w))). rewrite take_app_length, reverse_involutive. apply le_decode_encode. done.
Qed.
Lemma write_reservations_spec res l s :
  Forall (fun r => 0 ≤ r.1 < 2 ^ 64 ∧ 0 ≤ r.2 < 2 ^ 64 ∧ r ≠ (0, 0)) res →
  walks (write_reservations res) l s tt (l ++ (res ≫= fun r => enc U64BE (Num r.1) ++ enc U64BE (Num r.2))) s.
Proof.
  intros Hr. revert l; induction Hr as [|[a n] res (H1&H2&_) _ IH]; intros l; cbn [write_reservations].
  - eapply walks_eq; [apply walks_ret|by rewrite app_nil_r|done].
  - eapply walks_bind; [apply walks_bytes, builds_emit|].
    + unfold FdtReserveEntry. typed_struct; done.
    + eapply walks_eq; [apply IH| |done]. rewrite bind_cons, <- app_assoc. cbn [fst snd].
      replace (enc FdtReserveEntry (Obj [("address", Num a); ("size", Num n)])) with (enc U64BE (Num a) ++ enc U64BE (Num n)); [done|].
      change (enc FdtReserveEntry (Obj [("address", Num a); ("size", Num n)])) with (enc U64BE (Num a) ++ enc U64BE (Num n) ++ []). by rewrite app_nil_r.
Qed.

(** Every name of the tree is one that [name_ok] accepts. *)
Lemma hole_refs_named cs pos n p : (n, p) ∈ hole_refs pos cs → ∃ v, Hole n v ∈ cs.
Proof.
  revert pos; induction cs as [|[bytes|name v] cs IH]; intros pos; [by intros ?%not_elem_of_nil|..]; cbn [hole_refs].
  - intros [w H]%IH. exists w. by right.
  - rewrite elem_of_cons. intros [[= -> ->]|[w H]%IH]; [exists v; by left|exists w; by right].
Qed.
Lemma node_chunks_named v name n w : dt_ok v = true → Hole n w ∈ node_chunks v name → name_ok n = true.
Proof.
  revert name; induction v as [entries IH|v Hv] using dt_induction; intros name Hok; [|by destruct v].
  cbn [dt_ok node_chunks] in *. rewrite elem_of_cons, !elem_of_app. intros [[=]|[H|[H|H%list_elem_of_singleton]]]; [| |done].
  - clear IH. induction entries as [|[m prop] entries IHe]; [by apply not_elem_of_nil in H|]. cbn [entries_ok] in Hok. zbool.
    unfold props_chunks in H. rewrite bind_cons in H. apply elem_of_app in H as [H|H]; [|by apply IHe].
    destruct (is_node prop); [by apply not_elem_of_nil in H|]. unfold prop_chunks in H. set_solver.
  - induction IH as [|[m child] entries Hc _ IHe]; [by apply not_elem_of_nil in H|]. cbn [entries_ok] in Hok. zbool. cbn [children_chunks] in H.
    apply elem_of_app in H as [H|H]; [|by apply IHe]. destruct (is_node child); [by eapply Hc|by apply not_elem_of_nil in H].
Qed.

(** ** The whole *)
Definition reserve_bytes (res : list (Z * Z)) : list Z :=
  (res ≫= fun r => enc U64BE (Num r.1) ++ enc U64BE (Num r.2)) ++ enc U64BE (Num 0) ++ enc U64BE (Num 0).
Definition struct_offset (res : list (Z * Z)) : Z := 40 + zlen (reserve_bytes res).
Definition names_table (tree : dt_value) (res : list (Z * Z)) : list (text * list Z) :=
  object_entries (add_refs (hole_refs (struct_offset res) (node_chunks tree [])) []).
Definition printed_struct (tree : dt_value) (res : list (Z * Z)) : list chunk :=
  map_holes (assign (names_table tree res) 0) (struct_offset res) (node_chunks tree []).
Definition printed (tree : dt_value) (res : list (Z * Z)) (boot_cpu_id : Z) : list Z :=
  let struct_bytes := render (printed_struct tree res) ++ w32 FDT_END in
  let names := names_bytes (names_table tree res) in
  let off_strings := struct_offset res + zlen struct_bytes in
  hdr [FDT_MAGIC; off_strings + zlen names; struct_offset res; off_strings; 40; 17; 16; boot_cpu_id; zlen names; zlen struct_bytes] ++
  reserve_bytes res ++ struct_bytes ++ names.
Definition reservations_ok (res : list (Z * Z)) : Prop := Forall (fun r => 0 ≤ r.1 < 2 ^ 64 ∧ 0 ≤ r.2 < 2 ^ 64 ∧ r ≠ (0, 0)) res.

Lemma zlen_u64 z : zlen (enc U64BE (Num z)) = 8.
Proof. change (enc U64BE (Num z)) with (reverse (le_encode 8 (z mod 2 ^ 64))). unfold zlen. by rewrite length_reverse, length_le_encode. Qed.
Lemma zlen_reserve res : zlen (reserve_bytes res) = 16 * (zlen res + 1).
Proof.
  unfold reserve_bytes. rewrite !zlen_app, !zlen_u64. assert (zlen (res ≫= fun r => enc U64BE (Num r.1) ++ enc U64BE (Num r.2)) = 16 * zlen res) as ->; [|lia].
  induction res as [|r res IH]; [done|]. rewrite bind_cons, !zlen_app, !zlen_u64, IH, zlen_cons. lia.
Qed.
Lemma names_refs tree res :
  Forall (fun kv => Forall (fun p => p ∈ (hole_refs (struct_offset res) (node_chunks tree [])).*2) kv.2) (names_table tree res).
Proof.
  apply Forall_forall. intros [n refs] Hin. apply Forall_forall. intros p Hp. cbn [snd] in Hp. unfold names_table in Hin. rewrite object_entries_elem in Hin.
  assert (H : (n, p) ∈ pairs (add_refs (hole_refs (struct_offset res) (node_chunks tree [])) [])) by (apply elem_pairs; by exists refs).
  apply pairs_refs in H as [H|H]; [by apply not_elem_of_nil in H|]. apply list_elem_of_fmap. by exists (n, p).
Qed.
Lemma generate_spec tree res boot_cpu_id : dt_ok tree = true → reservations_ok res →
  ∃ s, walks (generate tree res boot_cpu_id) [] [] (printed tree res boot_cpu_id) (printed tree res boot_cpu_id) s.
Proof.
  intros Hok Hres. eexists. unfold generate.
  pose proof (zlen_reserve res) as Hz. set (cs := node_chunks tree []). set (resb := reserve_bytes res).
  assert (Hoff : ∀ ws, length ws = 10%nat → zlen (hdr ws ++ resb) = struct_offset res).
  { intros ws Hws. rewrite zlen_app, zlen_header_words. unfold struct_offset, zlen at 1. fold resb. lia. }
  assert (Hlen : ∀ ws rest, length ws = 10%nat → zlen (hdr ws ++ resb ++ rest) = struct_offset res + zlen rest).
  { intros ws rest Hws. by rewrite app_assoc, zlen_app, Hoff. }
  assert (Ht : length (replicate 10 0) = 10%nat) by done.
  eapply walks_bind; [apply walks_bytes; eapply builds_eq; [apply builds_alloc|]|].
  { change (zeros (ty_size FdtHeader)) with (hdr (replicate 10 0)). rewrite app_nil_l. symmetry. apply app_nil_r. }
  change (zlen []) with 0. cbv beta.
  eapply walks_bind; [by apply (set_header_spec 0)|]. eapply walks_bind; [by apply (set_header_spec 5)|].
  eapply walks_bind; [by apply (set_header_spec 6)|]. eapply walks_bind; [by apply (set_header_spec 7)|]. cbn [insert list_insert replicate].
  eapply walks_bind; [apply walks_bytes, builds_aligned; [lia|by rewrite app_nil_r, zlen_header_words]|].
  eapply walks_bind; [apply walks_bytes, builds_length|]. eapply walks_bind; [by apply (set_header_spec 4)|].
  rewrite !app_nil_r, !zlen_header_words. change (4 * zlen _) with 40. cbn [insert list_insert].
  eapply walks_bind; [eapply walks_eq; [by apply write_reservations_spec|reflexivity|reflexivity]|].
  eapply walks_bind; [apply walks_bytes, builds_emit; reflexivity|].
  change (enc FdtReserveEntry _) with (enc U64BE (Num 0) ++ enc U64BE (Num 0)). rewrite <- app_assoc. fold (reserve_bytes res). fold resb.
  eapply walks_bind; [apply walks_bytes, builds_length|]. eapply walks_bind; [by apply (set_header_spec 2)|].
  rewrite Hoff by done. cbn [insert list_insert]. eapply walks_bind.
  { apply (walk_tree_printer tree []); [done|done|]. rewrite Hoff by done. unfold struct_offset. rewrite Hz.
    replace (40 + 16 * (zlen res + 1)) with (4 * (zlen res + 1) * 4 + 10 * 4) by lia. by rewrite Z.mod_add, Z.mod_mul by lia. }
  rewrite Hoff by done. fold cs.
  eapply walks_bind; [apply walks_bytes, builds_w32|].
  eapply walks_bind; [apply walks_bytes, builds_length|]. rewrite <- !app_assoc, Hlen by done.
  eapply walks_bind; [by apply (set_header_spec 9)|]. eapply walks_bind; [apply walks_bytes, builds_length|]. rewrite Hlen by done.
  eapply walks_bind; [by apply (set_header_spec 3)|]. eapply walks_bind; [apply walks_strings|]. cbn [insert list_insert].
  fold (names_table tree res). match goal with |- context [hdr ?l] => set (ws := l) end.
  pose proof (write_names_spec (struct_offset res + zlen (render cs ++ w32 FDT_END)) (names_table tree res) (hdr ws ++ resb) cs (w32 FDT_END)
    (add_refs (hole_refs (struct_offset res) cs) [])) as Hnames. rewrite Hoff in Hnames by done.
  specialize (Hnames ltac:(unfold struct_offset; rewrite Hz; pose proof (zlen_nonneg res); lia) (names_refs tree res)).
  rewrite <- !app_assoc, Hlen, Z.sub_diag in Hnames by done. change (map_holes _ _ cs) with (printed_struct tree res) in Hnames.
  eapply walks_bind; [exact Hnames|].
  assert (Hps : zlen (render (printed_struct tree res)) = zlen (render cs)) by apply map_holes_render.
  eapply walks_bind; [apply walks_bytes, builds_length|]. rewrite Hlen by done.
  eapply walks_bind; [by apply (set_header_spec 8)|]. eapply walks_bind; [by apply (set_header_spec 1)|].
  unfold ws. cbn [insert list_insert].
  match goal with |- walks _ ?l _ _ _ _ => replace l with (printed tree res boot_cpu_id); [apply walks_bytes, builds_gets_array|] end.
  unfold printed. rewrite !zlen_app, Hps, <- !app_assoc. do 2 f_equal. repeat (f_equal; try lia).
Qed.
Lemma printed_filled tree res :
  dt_ok tree = true → Forall2 (filled (names_bytes (names_table tree res))) (node_chunks tree []) (printed_struct tree res).
Proof.
  intros Hok. apply map_holes_filled. intros n p v Hin. destruct (hole_refs_named _ _ _ _ Hin) as [w Hw].
  assert (Hn := node_chunks_named _ _ _ _ Hok Hw). unfold name_ok in Hn. zbool.
  assert (Hpairs : ∀ m refs, (m, refs) ∈ names_table tree res → p ∈ refs → (m, p) ∈ hole_refs (struct_offset res) (node_chunks tree [])).
  { intros m refs Hm Hp. unfold names_table in Hm. rewrite object_entries_elem in Hm.
    assert (Hq : (m, p) ∈ pairs (add_refs (hole_refs (struct_offset res) (node_chunks tree [])) [])) by (apply elem_pairs; by exists refs).
    apply pairs_refs in Hq as [Hq|Hq]; [by apply not_elem_of_nil in Hq|done]. }
  apply (assign_name (names_bytes (names_table tree res)) [] (names_table tree res) n p v); [done|done| |].
  - intros m refs Hm Hp. eapply hole_refs_inj; [by eapply Hpairs|exact Hin].
  - right. assert (Hq : (n, p) ∈ pairs (add_refs (hole_refs (struct_offset res) (node_chunks tree [])) [])) by (apply pairs_refs; by right).
    apply elem_pairs in Hq as (refs&Hr&Hp). exists refs. split; [|done]. unfold names_table. by rewrite object_entries_elem.
Qed.
Lemma struct_offset_eq res : struct_offset res = 40 + 16 * (zlen res + 1).
Proof. unfold struct_offset. by rewrite zlen_reserve. Qed.
Lemma printed_sizes tree res boot_cpu_id :
  zlen (printed tree res boot_cpu_id) =
  struct_offset res + zlen (render (printed_struct tree res) ++ w32 FDT_END) + zlen (names_bytes (names_table tree res)).
Proof. unfold printed. cbv zeta. rewrite (zlen_app (hdr _)), zlen_header_words. change (4 * zlen _) with 40. rewrite !zlen_app. unfold struct_offset. lia. Qed.
Lemma read_printed tree res boot_cpu_id :
  dt_ok tree = true → reservations_ok res → 0 ≤ boot_cpu_id < 2 ^ 32 → zlen (printed tree res boot_cpu_id) < 2 ^ 32 →
  read_devicetree (printed tree res boot_cpu_id) = Some (FdtBlob res boot_cpu_id ([], tree_of tree)).
Proof.
  intros Hok Hres Hcpu Hsize. rewrite printed_sizes in Hsize. assert (Hoff := struct_offset_eq res).
  assert (Hall := printed_sizes tree res boot_cpu_id). revert Hall. unfold printed.
  set (S := render (printed_struct tree res) ++ w32 FDT_END) in *. set (N := names_bytes (names_table tree res)) in *.
  set (ws := [_; _; _; _; _; _; _; _; _; _]). set (tail := reserve_bytes res ++ S ++ N). intros Hall.
  pose proof (zlen_nonneg S). pose proof (zlen_nonneg N). pose proof (zlen_nonneg res).
  assert (Hw : ∀ i w, ws !! i = Some w → 0 ≤ w < 2 ^ 32 → word i (hdr ws ++ tail) = w) by (intros; by apply word_hdr).
  unfold read_devicetree. cbv zeta.
  rewrite (Hw 0%nat _ eq_refl) by done. rewrite (Hw 1%nat _ eq_refl) by lia. rewrite (Hw 2%nat _ eq_refl) by lia.
  rewrite (Hw 3%nat _ eq_refl) by lia. rewrite (Hw 4%nat _ eq_refl) by lia. rewrite (Hw 6%nat _ eq_refl) by lia.
  rewrite (Hw 7%nat _ eq_refl) by done. rewrite (Hw 8%nat _ eq_refl) by lia. rewrite (Hw 9%nat _ eq_refl) by lia.
  assert (Hh : zlen (hdr ws) = 40) by apply zlen_header_words.
  replace (40 <=? zlen (hdr ws ++ tail)) with true by (symmetry; apply Z.leb_le; lia).
  replace (struct_offset res + zlen S + zlen N =? zlen (hdr ws ++ tail)) with true by (symmetry; apply Z.eqb_eq; lia).
  replace (struct_offset res mod 4) with 0.
  2:{ rewrite Hoff. replace (40 + 16 * (zlen res + 1)) with (4 * (zlen res + 1) * 4 + 10 * 4) by lia. by rewrite Z.mod_add, Z.mod_mul by lia. }
  cbn [andb]. change (FDT_MAGIC =? FDT_MAGIC) with true. change (16 <=? 17) with true. change (40 mod 8 =? 0) with true. change (0 =? 0) with true. cbn [andb].
  assert (E1 : drop (Z.to_nat 40) (hdr ws ++ tail) = tail) by (rewrite <- Hh, zlen_to_nat; apply drop_app_length).
  assert (E2 : subarray (hdr ws ++ tail) (struct_offset res) (struct_offset res + zlen S) = S).
  { unfold tail. rewrite app_assoc. replace (struct_offset res) with (zlen (hdr ws ++ reserve_bytes res)) by (by rewrite zlen_app, Hh). apply subarray_mid. }
  assert (E3 : subarray (hdr ws ++ tail) (struct_offset res + zlen S) (struct_offset res + zlen S + zlen N) = N).
  { unfold tail. rewrite <- (app_nil_r N), !app_assoc. rewrite (app_nil_r N). rewrite <- (app_assoc (hdr ws ++ reserve_bytes res)).
    replace (struct_offset res + zlen S) with (zlen ((hdr ws ++ reserve_bytes res) ++ S)) by (by rewrite !zlen_app, Hh).
    rewrite app_assoc, <- (app_assoc _ N []). apply subarray_mid. }
  assert (E4 : ∀ fuel, (length res < fuel)%nat → read_reservations fuel tail = Some res).
  { intros fuel Hf. unfold tail, reserve_bytes. rewrite <- !app_assoc. by apply read_reservations_spec. }
  rewrite E1, E2, E3, E4.
  2:{ rewrite length_app. unfold tail. rewrite length_app. pose proof (zlen_reserve res). unfold zlen in *. lia. }
  cbn [mbind option_bind]. unfold S. rewrite (read_root_spec N ltac:(lia) tree); [done|done|by apply printed_filled].
Qed.

Lemma generated tree res boot_cpu_id :
  dt_ok tree = true → reservations_ok res → generate_devicetree tree res boot_cpu_id = Done (printed tree res boot_cpu_id).
Proof.
  intros Hok Hres. destruct (generate_spec tree res boot_cpu_id Hok Hres) as [s Hs].
  destruct (Hs (bytes_new 1024)) as (b&E&_); [by apply repr_new|rewrite capacity_new; lia|]. unfold generate_devicetree. by rewrite E.
Qed.

(** C33: what is printed is the tree: any reader of the format finds the reservations,
    the boot processor and every node, with its properties and its children in their
    order, every property under its own name and with its value: numbers and bigints
    big-endian in four and eight bytes, arrays number by number, strings with a NUL at
    the end, and buffers and typed arrays byte by byte. (A typed array views the whole
    of its buffer.) *)
Theorem devicetree_roundtrip tree memory_reservations boot_cpu_id :
  dt_ok tree = true → reservations_ok memory_reservations → 0 ≤ boot_cpu_id < 2 ^ 32 →
  ∃ blob, generate_devicetree tree memory_reservations boot_cpu_id = Done blob ∧
    (zlen blob < 2 ^ 32 → read_devicetree blob = Some (FdtBlob memory_reservations boot_cpu_id ([], tree_of tree))).
Proof.
  intros Hok Hres Hcpu. exists (printed tree memory_reservations boot_cpu_id). split; [by apply generated|by apply read_printed].
Qed.
Definition sample_tree : dt_value :=
  DtNode [(lit "#address-cells", DtNumber 1);
    (lit "chosen", DtNode [(lit "bootargs", DtString (lit "console=hvc0")); (lit "ncpus", DtNumber 4); (lit "features", DtBigint 0x100000002)]);
    (lit "memory", DtNode [(lit "device_type", DtString (lit "memory")); (lit "reg", DtNumbers [0; 65536])]); (lit "ranges", DtUndefined);
    (lit "seed", DtView [7; 8; 9] 0 3)].
Example sample_values :
  tree_of sample_tree = FdtNode
    [(utf8_encode (lit "#address-cells"), [0; 0; 0; 1]); (utf8_encode (lit "ranges"), []); (utf8_encode (lit "seed"), [7; 8; 9])]
    [(utf8_encode (lit "chosen"), FdtNode
        [(utf8_encode (lit "bootargs"), utf8_encode (lit "console=hvc0") ++ [0]); (utf8_encode (lit "ncpus"), [0; 0; 0; 4]);
         (utf8_encode (lit "features"), [0; 0; 0; 1; 0; 0; 0; 2])] []);
     (utf8_encode (lit "memory"), FdtNode
        [(utf8_encode (lit "device_type"), utf8_encode (lit "memory") ++ [0]); (utf8_encode (lit "reg"), [0; 0; 0; 0; 0; 1; 0; 0])] [])].
Proof. vm_compute. reflexivity. Qed.
Lemma devicetree_roundtrip_witness :
  ∃ blob, generate_devicetree sample_tree [(65536, 4096)] 0 = Done blob ∧
    (zlen blob < 2 ^ 32 → read_devicetree blob = Some (FdtBlob [(65536, 4096)] 0 ([], tree_of sample_tree))).
Proof.
  apply (devicetree_roundtrip sample_tree [(65536, 4096)] 0); [vm_compute; reflexivity| |split; [discriminate|reflexivity]].
  repeat constructor; discriminate.
Defined.

(** A property with the name of something that every object has is refused, and a
    part of a buffer is printed with the whole of it. *)
Example inherited_name :
  generate_devicetree (DtNode [(lit "valueOf", DtNumber 1)]) [] 0 = Raise (JsTypeError "push is not a function").
Proof. vm_compute. reflexivity. Qed.
Example view_of_buffer : property_value (DtView [1; 2; 3; 4] 1 2) = Done [1; 2; 3; 4].
Proof. reflexivity. Qed.
