(* ===== verification/Worker.v ===== *)
(** The worker of a thread: packages/kernel/src/worker.ts, what the kernel's C code
    calls to load, run and reach user programs.

    The engine compiles, links and allocates ([Engine]); what a program does when it
    is called is a parameter ([User]), a computation on the worker, because programs
    call back through the kernel. Memories are in a store, named by their place:
    threads share one, a fork copies it. *)
From S2P Require Export Bytes Wasm.

Definition ENOEXEC : Z := -8.
Definition ENOMEM : Z := -12.
Definition EFAULT : Z := -14.
Definition EINVAL_ : Z := -22.
Definition ENOSYS : Z := -38.
Definition HALT_USER : exn := JsError "halt user".

(** [WebAssembly]: compiling a module, its imports, whether it links, and whether a
    shared memory of so many pages can be reserved. *)
Class Engine (Mod : Type) := {
  engine_compile : list Z → Mod + exn;
  engine_imports : Mod → list module_import;
  engine_link : Mod → option exn;
  engine_allocate : Z → Z → unit + exn }.

Record user_context (Mod : Type) := UserContext { uc_module : Mod; uc_memory : nat; uc_maximum_pages : Z }.
Arguments UserContext {Mod}.
Arguments uc_module {Mod}.
Arguments uc_memory {Mod}.
Arguments uc_maximum_pages {Mod}.
Inductive entry := CallStart | CallThread (fn arg : user_word).

(** What [user_imports] closes over; an instance is the context it was made with. *)
Record worker (Mod : Type) := Worker {
  w_memories : list (list Z); w_kernel : nat; w_parent : option (user_context Mod); w_context : option (user_context Mod);
  w_instance : option (user_context Mod); w_pending_module_bytes : option (list Z); w_pending : option (user_context Mod);
  w_siginfo_copy_results : list (option Z); w_call_entry : entry }.
Arguments Worker {Mod}.
Arguments w_memories {Mod}.
Arguments w_kernel {Mod}.
Arguments w_parent {Mod}.
Arguments w_context {Mod}.
Arguments w_instance {Mod}.
Arguments w_pending_module_bytes {Mod}.
Arguments w_pending {Mod}.
Arguments w_siginfo_copy_results {Mod}.
Arguments w_call_entry {Mod}.
#[export] Instance worker_eta Mod : Eta (worker Mod) := fun w =>
  Worker (w_memories w) (w_kernel w) (w_parent w) (w_context w) (w_instance w) (w_pending_module_bytes w) (w_pending w)
    (w_siginfo_copy_results w) (w_call_entry w).

(** What is called of the user's and the kernel's code: [_start] (if it is exported),
    a function of the table by its index (with the parameters it declares), and the
    kernel's [copy_siginfo] and [clear_siginfo]. *)
Class User (Mod : Type) := {
  user_start : user_context Mod → option (M (worker Mod) unit);
  user_function : user_context Mod → Z → outcome (option (nat * (list user_word → M (worker Mod) unit)));
  kernel_copy_siginfo : user_word → M (worker Mod) Z;
  kernel_clear_siginfo : M (worker Mod) unit }.

Section worker.
Context {Mod : Type} `{!Engine Mod}.
Abbreviation worker := (worker Mod).

(** [user_imports] *)
Definition user_imports (memories : list (list Z)) (kernel_memory : nat) (parent_user : option (user_context Mod)) : worker :=
  Worker memories kernel_memory parent_user parent_user None None None [] CallStart.

(** * Memories *)
(** [memory_bytes], of a memory of the store. *)
Definition bytes_at (memory : nat) (address : Z) (length : option Z) (w : worker) : option (Z * Z) :=
  memory_bytes (w_memories w !! memory) address length.
Definition buffer_of (memory : nat) (w : worker) : list Z := default [] (w_memories w !! memory).
Definition store_at (memory : nat) (address : Z) (bytes : list Z) : M worker unit :=
  modify (fun w => w <| w_memories := alter (fun b => splice b (Z.to_nat address) bytes) memory (w_memories w) |>).

Definition copy_bytes (destination_memory : nat) (destination : Z) (source_memory : nat) (source length : Z) : M worker Z :=
  w ← get_state;
  match bytes_at destination_memory destination (Some length) w, bytes_at source_memory source (Some length) w with
  | Some (to, n), Some (from, m) =>
      let view := subarray (buffer_of source_memory w) from (from + m) in
      match ta_set (subarray (buffer_of destination_memory w) to (to + n)) view 0 with
      | Done bytes => store_at destination_memory to bytes ;; mret 0
      | _ => mret length
      end
  | _, _ => mret length
  end.
Definition user_atomic_word (uaddr : Z) (w : worker) : option (nat * Z) :=
  let address := to_u32 uaddr in
  context ← w_context w;
  if negb (address &&& 3 =? 0) then None
  else '(a, _) ← bytes_at (uc_memory context) address (Some 4) w; Some (uc_memory context, a).
Definition write_kernel_u32 (addr value : Z) : M worker bool :=
  w ← get_state;
  match bytes_at (w_kernel w) (to_u32 addr) (Some 4) w with
  | None => mret false
  | Some (a, _) => store_at (w_kernel w) a (le_encode 4 (to_u32 value)) ;; mret true
  end.

Definition read (to from n : Z) : M worker Z :=
  let length := to_u32 n in
  w ← get_state;
  match w_context w with
  | None => mret length
  | Some context => copy_bytes (w_kernel w) (to_u32 to) (uc_memory context) (to_u32 from) length
  end.
Definition write (to from n : Z) : M worker Z :=
  let length := to_u32 n in
  w ← get_state;
  match w_context w with
  | None => mret length
  | Some context => copy_bytes (uc_memory context) (to_u32 to) (w_kernel w) (to_u32 from) length
  end.
Definition write_zeroes (to n : Z) : M worker Z :=
  let length := to_u32 n in
  w ← get_state;
  match w_context w with
  | None => mret length
  | Some context =>
      match bytes_at (uc_memory context) (to_u32 to) (Some length) w with
      | None => mret length
      | Some (a, n) => store_at (uc_memory context) a (zeros n) ;; mret 0
      end
  end.

(** [Atomics] on a word of an [Int32Array]: the old value, and the new one stored. *)
Definition load_i32 (memory : nat) (a : Z) (w : worker) : Z := to_i32 (le_decode (take 4 (drop (Z.to_nat a) (buffer_of memory w)))).
Definition atomic (memory : nat) (a : Z) (f : Z → Z) : M worker Z :=
  old ← gets (load_i32 memory a);
  store_at memory a (le_encode 4 (to_u32 (f old))) ;;
  mret old.
Definition futex_op (op oparg : Z) : option (Z → Z) :=
  if op =? 0 then Some (fun _ => oparg)
  else if op =? 1 then Some (fun old => old + oparg)
  else if op =? 2 then Some (fun old => Z.lor old oparg)
  else if op =? 3 then Some (fun old => Z.land old (Z.lnot oparg))
  else if op =? 4 then Some (fun old => Z.lxor old oparg)
  else None.
Definition futex_atomic_op (oldval uaddr op oparg : Z) : M worker Z :=
  w ← get_state;
  match user_atomic_word uaddr w with
  | None => mret EFAULT
  | Some (memory, a) =>
      match futex_op op oparg with
      | None => mret ENOSYS
      | Some f => old ← atomic memory a f; ok ← write_kernel_u32 oldval old; mret (if ok : bool then 0 else EFAULT)
      end
  end.
Definition futex_atomic_cmpxchg (oldval uaddr expected replacement : Z) : M worker Z :=
  w ← get_state;
  match user_atomic_word uaddr w with
  | None => mret EFAULT
  | Some (memory, a) =>
      old ← atomic memory a (fun old => if old =? to_i32 expected then replacement else old);
      ok ← write_kernel_u32 oldval old;
      mret (if ok : bool then 0 else EFAULT)
  end.

(** * Programs *)
Definition set_pending (bytes : option (list Z)) (pending : option (user_context Mod)) : M worker unit :=
  modify (fun w => w <| w_pending_module_bytes := bytes |> <| w_pending := pending |>).
(** [fits]: whether the host has the memory. *)
Definition compile_begin (fits : bool) (size : Z) : M worker Z :=
  set_pending None None ;;
  if fits then modify (fun w => w <| w_pending_module_bytes := Some (zeros (to_u32 size)) |>) ;; mret 0
  else mret ENOMEM.
Definition compile_write (buf offset size : Z) : M worker Z :=
  let source := to_u32 buf in
  let destination := to_u32 offset in
  let length := to_u32 size in
  w ← get_state;
  let kernel_buffer := buffer_of (w_kernel w) w in
  match w_pending_module_bytes w with
  | None => mret EINVAL_
  | Some bytes =>
      if ((zlen kernel_buffer - length <? source) || (zlen bytes - length <? destination))%bool then mret EINVAL_
      else
        chunk ← lift (uint8_view kernel_buffer source length);
        bytes ← lift (ta_set bytes chunk destination);
        modify (fun w => w <| w_pending_module_bytes := Some bytes |>) ;;
        mret 0
  end.
(** A shared memory of its own: [i32] and with a maximum. *)
Definition user_memory (memories : memories) : option (Z * Z) :=
  match m_imports memories, m_definitions memories with
  | [i], [] =>
      if bool_decide (mi_module i = lit "env" ∧ mi_name i = lit "memory" ∧ mt_address (mi_type i) = I32 ∧ mt_shared (mi_type i) = true)
      then (fun maximum => (mt_minimum (mi_type i), maximum)) <$> mt_maximum (mi_type i) else None
  | _, _ => None
  end.
(** The module, and the limits of its memory, if it can be run. *)
Definition compile (bytes : list Z) : option (Mod * Z * Z) :=
  memories ← done_of (read_wasm_memories bytes);
  '(minimum, maximum) ← user_memory memories;
  module ← match engine_compile bytes with inl module => Some module | inr _ => None end;
  supported ← done_of (user_module_imports_supported (engine_imports module) bytes W32);
  if supported : bool then Some (module, minimum, maximum) else None.
(** A new memory of the store. *)
Definition allocate (initial_pages preferred_maximum_pages : Z) : M worker (outcome (nat * Z)) := fun w =>
  match allocate_shared_memory engine_allocate initial_pages preferred_maximum_pages with
  | Done (_, maximum_pages) =>
      (Done (Done (length (w_memories w), maximum_pages)), w <| w_memories := w_memories w ++ [zeros (initial_pages * 0x10000)] |>)
  | Raise e => (Done (Raise e), w)
  | Loops => (Loops, w)
  end.
Definition compile_end (maximum_memory_pages : Z) : M worker Z :=
  w ← get_state;
  modify (fun w => w <| w_pending_module_bytes := None |>) ;;
  match w_pending_module_bytes w with
  | None => mret EINVAL_
  | Some bytes =>
      match compile bytes with
      | None => mret ENOEXEC
      | Some (module, minimum, declared) =>
          let maximum := Z.min declared (to_u32 maximum_memory_pages) in
          if maximum <? minimum then mret ENOMEM
          else
            allocated ← allocate minimum maximum;
            match allocated with
            | Done (memory, maximum_pages) =>
                modify (fun w => w <| w_pending := Some (UserContext module memory maximum_pages) |>) ;; mret 0
            | _ => mret ENOMEM
            end
      end
  end.
Definition compile_abort : M worker unit := set_pending None None.

Definition create_instance (context : user_context Mod) : M worker (user_context Mod) :=
  match engine_link (uc_module context) with None => mret context | Some e => throw e end.
Definition instantiate (fresh_memory : bool) : M worker unit :=
  (if fresh_memory then
     w ← get_state;
     match w_pending w with
     | None => throw (AssertionError "")
     | Some pending => modify (fun w => w <| w_context := Some pending |> <| w_pending := None |>)
     end
   else mret tt) ;;
  w ← get_state;
  match w_context w with
  | None => throw (AssertionError "")
  | Some context => instance ← create_instance context; modify (fun w => w <| w_instance := Some instance |>)
  end.
Definition prepare : M worker unit := w ← get_state; if w_parent w is Some _ then instantiate false else mret tt.

(** * Running *)
Section running.
Context `{!User Mod}.

Definition the_instance : M worker (user_context Mod) :=
  w ← get_state; lift (of_option (AssertionError "") (w_instance w)).
Definition call_start : M worker unit :=
  instance ← the_instance;
  match user_start instance with
  | None => throw (AssertionError "_start not found")
  | Some f => f ;; throw (JsError "_start reached the end without exiting")
  end.
(** A function of the table with so many parameters. *)
Definition table_function (index : Z) (arity : nat) (msg : string) : M worker (list user_word → M worker unit) :=
  instance ← the_instance;
  f ← lift (user_function instance index);
  match f with
  | Some (n, f) => if (n =? arity)%nat then mret f else throw (AssertionError msg)
  | None => throw (AssertionError msg)
  end.
Definition call_thread (fn arg : user_word) : M worker unit :=
  f ← table_function (user_word_number fn) 1 "Invalid function signature";
  f [arg].
Definition call_entry (e : entry) : M worker unit :=
  match e with CallStart => call_start | CallThread fn arg => call_thread fn arg end.
Fixpoint call (fuel : nat) : M worker unit :=
  match fuel with
  | O => lift Loops
  | S fuel => fun w =>
      match call_entry (w_call_entry w) w with
      | (Raise e, w) => if decide (e = HALT_USER) then call fuel w else if decide (e = HALT_KERNEL) then (Raise e, w) else (Done tt, w)
      | (Done tt, w) => call fuel w
      | (Loops, w) => (Loops, w)
      end
  end.
Definition switch_entry (fn arg : user_word) : M worker unit :=
  w ← get_state;
  if w_parent w is Some _ then modify (fun w => w <| w_call_entry := CallThread fn arg |>) else throw (AssertionError "").
Definition unwind : M worker unit := modify (fun w => w <| w_call_entry := CallStart |>) ;; throw HALT_USER.

Definition call_signal_handler (fn sig : user_word) : M worker unit :=
  f ← table_function (user_word_number fn) 1 "Invalid function signature";
  f [sig].
(** The import [copy_siginfo] that an instance has. *)
Definition copy_siginfo (to : user_word) : M worker Z :=
  result ← kernel_copy_siginfo to;
  modify (fun w =>
    let current := zlen (w_siginfo_copy_results w) - 1 in
    if 0 <=? current then w <| w_siginfo_copy_results := <[Z.to_nat current := Some result]> (w_siginfo_copy_results w) |> else w) ;;
  mret result.
(** [try { m } finally { cleanup() }], for a cleanup that may throw. *)
Definition try_finally {A} (m : M worker A) (cleanup : M worker unit) : M worker A := fun w =>
  match m w with
  | (Loops, w) => (Loops, w)
  | (o, w) => match cleanup w with (Done _, w) => (o, w) | (Raise e, w) => (Raise e, w) | (Loops, w) => (Loops, w) end
  end.
(** [array.pop()] *)
Definition pop {A} (l : list A) : list A := take (pred (length l)) l.
Definition pop_siginfo : M worker unit := modify (fun w => w <| w_siginfo_copy_results := pop (w_siginfo_copy_results w) |>).
Definition call_siginfo_handler (trampoline fn sig : user_word) : M worker Z :=
  f ← table_function (user_word_number trampoline) 2 "Invalid siginfo trampoline";
  modify (fun w => w <| w_siginfo_copy_results := w_siginfo_copy_results w ++ [None] |>) ;;
  try_finally
    (f [fn; sig] ;; w ← get_state; mret (default EINVAL_ (mjoin (last (w_siginfo_copy_results w)))))
    (try_finally kernel_clear_siginfo pop_siginfo).
End running.

(** * Forking: [start], for a worker that is given a copy of its parent's memory

    What it publishes: 1, or the errno; then its context. *)
Definition copy_user_memory (parent : user_context Mod) : M worker (Z * option (user_context Mod)) :=
  w ← get_state;
  match bytes_at (uc_memory parent) 0 None w with
  | None => mret (ENOMEM, None)
  | Some (source, n) =>
      copied ← allocate (n / 0x10000) (uc_maximum_pages parent);
      match copied with
      | Done (memory, maximum_pages) =>
          w' ← get_state;
          match bytes_at memory 0 (Some n) w' with
          | None => mret (ENOMEM, None)
          | Some (a, m) =>
              match ta_set (subarray (buffer_of memory w') a (a + m)) (subarray (buffer_of (uc_memory parent) w) source (source + n)) 0 with
              | Done bytes => store_at memory a bytes ;; mret (1, Some (UserContext (uc_module parent) memory maximum_pages))
              | _ => mret (ENOMEM, None)
              end
          end
      | _ => mret (ENOMEM, None)
      end
  end.
(** What the caller of [spawn_worker] returns once the copy is published. *)
Definition spawn_result (result : Z) : outcome Z :=
  _ ← assert_ ((result =? 1) || (result <? 0)) "copy wait completed without a result";
  Done (if result =? 1 then 0 else result).
End worker.

(** * The worker's memories

    Memories are no longer than arrays can be, and the program's is not the kernel's. *)
Record worker_ok {Mod} (w : worker Mod) : Prop := {
  wo_small : ∀ i b, w_memories w !! i = Some b → zlen b ≤ max_safe_integer;
  wo_kernel : is_Some (w_memories w !! w_kernel w);
  wo_context : ∀ c, w_context w = Some c → is_Some (w_memories w !! uc_memory c) ∧ uc_memory c ≠ w_kernel w }.

Section memories.
Context {Mod : Type} `{!Engine Mod}.
Implicit Types w : worker Mod.

Definition in_range (b : list Z) (address length : Z) : Prop := 0 ≤ address ∧ 0 ≤ length ∧ address + length ≤ zlen b.
Lemma bytes_at_range memory b address length w :
  worker_ok w → w_memories w !! memory = Some b →
  bytes_at memory address (Some length) w = if bool_decide (in_range b address length) then Some (address, length) else None.
Proof using.
  intros Hw Hb. unfold bytes_at. rewrite Hb. destruct (memory_bytes_bounds b address (Some length)) as [H _]; [by eapply wo_small|]. exact H.
Qed.
Lemma alter_splice_memory i (l : list (list Z)) b f : l !! i = Some b → alter f i l = <[i := f b]> l.
Proof using. intros H. apply list_eq. intros j. destruct (decide (i = j)) as [<-|Hj].
  - rewrite list_lookup_alter_eq, H, list_lookup_insert_eq by (by eapply lookup_lt_Some). done.
  - by rewrite list_lookup_alter_ne, list_lookup_insert_ne by done.
Qed.
(** A worker with the bytes of a memory replaced. *)
Definition with_memory (memory : nat) (b : list Z) w : worker Mod := w <| w_memories := <[memory := b]> (w_memories w) |>.
Lemma store_at_eq memory address bytes b w : w_memories w !! memory = Some b →
  store_at memory address bytes w = (Done tt, with_memory memory (splice b (Z.to_nat address) bytes) w).
Proof using. intros Hb. unfold store_at, modify, set_field, with_memory. cbn. by rewrite (alter_splice_memory _ _ b). Qed.
Lemma with_memory_ok memory b b' w : worker_ok w → w_memories w !! memory = Some b → zlen b' = zlen b → worker_ok (with_memory memory b' w).
Proof using.
  intros [Hs Hk Hc] Hb Hl. assert (Hin : ∀ i, is_Some (w_memories w !! i) → is_Some (w_memories (with_memory memory b' w) !! i)).
  { intros i [x Hx]. unfold with_memory. cbn. destruct (decide (memory = i)) as [<-|Hi].
    - rewrite list_lookup_insert_eq by (by eapply lookup_lt_Some). eauto.
    - rewrite list_lookup_insert_ne by done. eauto. }
  split; [|by apply Hin|].
  - intros i c. unfold with_memory. cbn. destruct (decide (memory = i)) as [<-|Hi].
    + rewrite list_lookup_insert_eq by (by eapply lookup_lt_Some). intros [= <-]. rewrite Hl. by eapply Hs.
    + rewrite list_lookup_insert_ne by done. apply Hs.
  - intros c Hcc. destruct (Hc c Hcc). split; [by apply Hin|done].
Qed.

Lemma copy_bytes_spec dm to sm from length d s w :
  worker_ok w → w_memories w !! dm = Some d → w_memories w !! sm = Some s → 
  copy_bytes dm to sm from length w =
    if bool_decide (in_range d to length ∧ in_range s from length)
    then (Done 0, with_memory dm (splice d (Z.to_nat to) (subarray s from (from + length))) w) else (Done length, w).
Proof using.
  intros Hw Hd Hs. unfold copy_bytes. erewrite M_bind_done by done. rewrite (bytes_at_range dm d), (bytes_at_range sm s) by done.
  destruct (bool_decide_reflect (in_range d to length)) as [Hrd|Hrd].
  2:{ rewrite bool_decide_false by tauto. done. }
  destruct (bool_decide_reflect (in_range s from length)) as [Hrs|Hrs].
  2:{ rewrite bool_decide_false by tauto. done. }
  rewrite bool_decide_true by done. cbv beta iota. unfold buffer_of. rewrite Hd, Hs. cbn [default from_option id].
  destruct Hrd as (?&?&?), Hrs as (?&?&?). rewrite ta_set_ok; [|lia|rewrite !zlen_subarray by lia; lia].
  erewrite M_bind_done by (by apply store_at_eq). do 2 f_equal. f_equal.
  replace (splice (subarray d to (to + length)) (Z.to_nat 0) (subarray s from (from + length))) with (subarray s from (from + length)); [done|].
  unfold splice. change (Z.to_nat 0) with 0%nat. rewrite take_0, drop_ge, app_nil_r; [done|].
  assert (E1 : zlen (subarray d to (to + length)) = zlen (subarray s from (from + length))) by (rewrite !zlen_subarray by lia; lia).
  unfold zlen in E1. lia.
Qed.

(** A copy between the kernel and the program is all or nothing: when both ranges
    are within their memories the bytes are those of the source and nothing else
    changes, and else nothing is copied; the result is what was not. *)
Theorem user_copy_exact to from n c w kernel user :
  worker_ok w → w_context w = Some c → w_memories w !! w_kernel w = Some kernel → w_memories w !! uc_memory c = Some user →
  let length := to_u32 n in
  read to from n w =
    (if bool_decide (to_u32 to + length ≤ zlen kernel ∧ to_u32 from + length ≤ zlen user)
     then (Done 0, with_memory (w_kernel w) (splice kernel (Z.to_nat (to_u32 to)) (subarray user (to_u32 from) (to_u32 from + length))) w)
     else (Done length, w)) ∧
  write to from n w =
    (if bool_decide (to_u32 to + length ≤ zlen user ∧ to_u32 from + length ≤ zlen kernel)
     then (Done 0, with_memory (uc_memory c) (splice user (Z.to_nat (to_u32 to)) (subarray kernel (to_u32 from) (to_u32 from + length))) w)
     else (Done length, w)) ∧
  write_zeroes to n w =
    (if bool_decide (to_u32 to + length ≤ zlen user)
     then (Done 0, with_memory (uc_memory c) (splice user (Z.to_nat (to_u32 to)) (zeros length)) w)
     else (Done length, w)).
Proof using.
  intros Hw Hc Hk Hu length. pose proof (to_u32_range n). pose proof (to_u32_range to). pose proof (to_u32_range from). fold length in H.
  assert (Hr : ∀ b a, in_range b (to_u32 a) length ↔ to_u32 a + length ≤ zlen b).
  { intros b a. unfold in_range. pose proof (to_u32_range a). lia. }
  split_and!.
  - unfold read. fold length. erewrite M_bind_done by done. rewrite Hc. rewrite (copy_bytes_spec _ _ _ _ _ kernel user) by done.
    by rewrite (bool_decide_ext _ (to_u32 to + length ≤ zlen kernel ∧ to_u32 from + length ≤ zlen user)) by (by rewrite !Hr).
  - unfold write. fold length. erewrite M_bind_done by done. rewrite Hc. rewrite (copy_bytes_spec _ _ _ _ _ user kernel) by done.
    by rewrite (bool_decide_ext _ (to_u32 to + length ≤ zlen user ∧ to_u32 from + length ≤ zlen kernel)) by (by rewrite !Hr).
  - unfold write_zeroes. fold length. erewrite M_bind_done by done. rewrite Hc, (bytes_at_range _ user) by done.
    rewrite (bool_decide_ext _ _ (Hr user to)). case_bool_decide; [|done]. by erewrite M_bind_done by (by apply store_at_eq).
Qed.

(** ** The words of a futex *)
Definition word_at (b : list Z) (a : Z) : list Z := take 4 (drop (Z.to_nat a) b).
Lemma word_splice (b : list Z) a src : in_range b a 4 → length src = 4%nat → word_at (splice b (Z.to_nat a) src) a = src.
Proof using.
  intros (?&?&?) Hl. unfold word_at. rewrite <- Hl. apply splice_range. unfold zlen in *. lia.
Qed.
Lemma word_splice_out (b : list Z) a src o : in_range b a 4 → length src = 4%nat → 0 ≤ o → o + 4 ≤ a ∨ a + 4 ≤ o →
  word_at (splice b (Z.to_nat a) src) o = word_at b o.
Proof using. intros (?&?&?) Hl Ho Hd. unfold word_at. apply splice_range_out; unfold zlen in *; lia. Qed.
Lemma to_u32_of_i32 z : to_u32 (to_i32 z) = to_u32 z.
Proof using.
  unfold to_u32, to_i32. rewrite <- Zminus_mod_idemp_l, Z.mod_mod, Zminus_mod_idemp_l by done. f_equal. lia.
Qed.
Lemma word_value (b : list Z) a : bytes_ok b → in_range b a 4 → 0 ≤ le_decode (word_at b a) < 2 ^ 32.
Proof using.
  intros Hb (?&?&?). assert (El : length (word_at b a) = 4%nat) by (unfold word_at; rewrite length_take, length_drop; unfold zlen in *; lia).
  pose proof (le_decode_bound (word_at b a)) as H2. rewrite El in H2. apply H2. unfold word_at. by apply Forall_take, Forall_drop.
Qed.
(** The old value and the new one of a word, when an operation has run. *)
Definition atomically (f : Z → Z) memory user a oldval kernel w : worker Mod :=
  let old := to_i32 (le_decode (word_at user a)) in
  with_memory (w_kernel w) (splice kernel (Z.to_nat oldval) (le_encode 4 (to_u32 old)))
    (with_memory memory (splice user (Z.to_nat a) (le_encode 4 (to_u32 (f old)))) w).
Lemma atomic_spec f c a oldval user kernel w :
  worker_ok w → w_context w = Some c → w_memories w !! w_kernel w = Some kernel → w_memories w !! uc_memory c = Some user →
  in_range user a 4 → in_range kernel (to_u32 oldval) 4 →
  (old ← atomic (uc_memory c) a f; ok ← write_kernel_u32 oldval old; mret (if ok : bool then 0 else EFAULT)) w =
  (Done 0, atomically f (uc_memory c) user a (to_u32 oldval) kernel w).
Proof using.
  intros Hw Hc Hk Hu Ha Ho. destruct (wo_context _ Hw c Hc) as [_ Hne]. set (old := to_i32 (le_decode (word_at user a))).
  set (w1 := with_memory (uc_memory c) (splice user (Z.to_nat a) (le_encode 4 (to_u32 (f old)))) w).
  assert (H1 : atomic (uc_memory c) a f w = (Done old, w1)).
  { unfold atomic. erewrite M_bind_done by done. unfold load_i32, buffer_of. rewrite Hu. cbn [default from_option id]. fold (word_at user a) old.
    by erewrite M_bind_done by (by apply store_at_eq). }
  erewrite M_bind_done by exact H1.
  assert (Hk1 : w_memories w1 !! w_kernel w = Some kernel) by (unfold w1, with_memory; cbn; by rewrite list_lookup_insert_ne).
  assert (Hw1 : worker_ok w1).
  { eapply with_memory_ok; [done..|]. unfold zlen. rewrite length_splice; [done|]. rewrite length_le_encode. destruct Ha as (?&?&?). unfold zlen in *. lia. }
  erewrite M_bind_done.
  2:{ unfold write_kernel_u32. erewrite M_bind_done by done. change (w_kernel w1) with (w_kernel w). rewrite (bytes_at_range _ kernel) by done.
      rewrite bool_decide_true by done. by erewrite M_bind_done by (by apply store_at_eq). }
  done.
Qed.
Lemma user_atomic_word_spec c user uaddr w :
  worker_ok w → w_context w = Some c → w_memories w !! uc_memory c = Some user →
  user_atomic_word uaddr w =
    if decide (to_u32 uaddr mod 4 = 0 ∧ to_u32 uaddr + 4 ≤ zlen user) then Some (uc_memory c, to_u32 uaddr) else None.
Proof using.
  intros Hw Hc Hu. unfold user_atomic_word. rewrite Hc. cbn [mbind option_bind].
  change 3 with (Z.ones 2). rewrite Z.land_ones by lia. change (2 ^ 2) with 4.
  rewrite (bytes_at_range _ user) by done. pose proof (to_u32_range uaddr).
  destruct (Z.eqb_spec (to_u32 uaddr mod 4) 0) as [E|E]; cbn [negb]; [|rewrite decide_False by tauto; done].
  destruct (bool_decide_reflect (in_range user (to_u32 uaddr) 4)) as [Hr|Hr]; unfold in_range in Hr.
  - rewrite decide_True by lia. done.
  - rewrite decide_False by lia. done.
Qed.

(** An operation on a futex's word puts the value that the word had in the
    kernel's word and the operation's result, modulo 2^32, in the program's; no other
    byte changes. An unaligned word or one outside the memory is a fault, an unknown
    operation is not implemented, and then nothing changes. *)
Theorem futex_exact oldval uaddr op oparg c w kernel user :
  worker_ok w → w_context w = Some c → w_memories w !! w_kernel w = Some kernel → w_memories w !! uc_memory c = Some user →
  bytes_ok user → to_u32 oldval + 4 ≤ zlen kernel →
  let a := to_u32 uaddr in
  let '(o, w') := futex_atomic_op oldval uaddr op oparg w in
  if decide (a mod 4 = 0 ∧ a + 4 ≤ zlen user) then
    match futex_op op oparg with
    | None => o = Done ENOSYS ∧ w' = w
    | Some f =>
        o = Done 0 ∧ w' = atomically f (uc_memory c) user a (to_u32 oldval) kernel w ∧
        ∃ kernel' user', w_memories w' !! w_kernel w = Some kernel' ∧ w_memories w' !! uc_memory c = Some user' ∧
          le_decode (word_at kernel' (to_u32 oldval)) = le_decode (word_at user a) ∧
          le_decode (word_at user' a) = to_u32 (f (to_i32 (le_decode (word_at user a))))
    end
  else o = Done EFAULT ∧ w' = w.
Proof using.
  intros Hw Hc Hk Hu Hb Ho a. unfold futex_atomic_op. erewrite M_bind_done by done. rewrite (user_atomic_word_spec c user) by done. fold a.
  destruct (decide _) as [[H4 Ha]|]; [|done]. destruct (futex_op op oparg) as [f|]; [|done].
  assert (Hra : in_range user a 4) by (pose proof (to_u32_range uaddr); unfold in_range; lia).
  assert (Hrk : in_range kernel (to_u32 oldval) 4) by (pose proof (to_u32_range oldval); unfold in_range; lia).
  rewrite (atomic_spec f c a oldval user kernel) by done. split_and!; [done|done|].
  destruct (wo_context _ Hw c Hc) as [_ Hne]. eexists _, _. unfold atomically, with_memory. cbn [w_memories w_kernel set_field eta worker_eta].
  split_and!.
  - apply list_lookup_insert_eq. rewrite length_insert. by eapply lookup_lt_Some.
  - rewrite list_lookup_insert_ne by done. apply list_lookup_insert_eq. by eapply lookup_lt_Some.
  - rewrite word_splice by (done || apply length_le_encode). rewrite le_decode_encode by (apply (Z.mod_pos_bound _ (2 ^ 32)); done).
    rewrite to_u32_of_i32. apply to_u32_id, word_value; done.
  - rewrite word_splice by (done || apply length_le_encode). rewrite le_decode_encode by (apply (Z.mod_pos_bound _ (2 ^ 32)); done). done.
Qed.
(** A compare-and-exchange replaces the word when it has the bits expected. *)
Theorem cmpxchg_exact oldval uaddr expected replacement c w kernel user :
  worker_ok w → w_context w = Some c → w_memories w !! w_kernel w = Some kernel → w_memories w !! uc_memory c = Some user →
  to_u32 uaddr mod 4 = 0 → to_u32 uaddr + 4 ≤ zlen user → to_u32 oldval + 4 ≤ zlen kernel →
  futex_atomic_cmpxchg oldval uaddr expected replacement w =
    (Done 0, atomically (fun old => if old =? to_i32 expected then replacement else old) (uc_memory c) user (to_u32 uaddr) (to_u32 oldval) kernel w).
Proof using.
  intros Hw Hc Hk Hu H4 Ha Ho. unfold futex_atomic_cmpxchg. erewrite M_bind_done by done. rewrite (user_atomic_word_spec c user) by done.
  rewrite decide_True by done. apply atomic_spec; try done; pose proof (to_u32_range uaddr); pose proof (to_u32_range oldval); unfold in_range; lia.
Qed.
End memories.

(** * Loading a program *)
Section loading.
Context {Mod : Type} `{!Engine Mod}.
Implicit Types w : worker Mod.

(** The kernel gives a module in pieces, each at a place of its memory, which it may
    change in between. *)
Record piece := Piece { pc_memories : list (list Z); pc_buf : Z; pc_chunk : list Z }.
Fixpoint feed (offset : Z) (pieces : list piece) w : outcome unit * worker Mod :=
  match pieces with
  | [] => (Done tt, w)
  | p :: pieces =>
      match compile_write (pc_buf p) offset (zlen (pc_chunk p)) (w <| w_memories := pc_memories p |>) with
      | (Done 0, w) => feed (offset + zlen (pc_chunk p)) pieces w
      | (Done _, w) => (Raise (JsError "refused"), w)
      | (o, w) => (o ≫= fun _ => Done tt, w)
      end
  end.
Definition piece_ok (kernel : nat) (p : piece) : Prop :=
  ∃ b, pc_memories p !! kernel = Some b ∧ 0 ≤ pc_buf p < 2 ^ 32 ∧ zlen (pc_chunk p) < 2 ^ 32 ∧
    pc_buf p + zlen (pc_chunk p) ≤ zlen b ∧ subarray b (pc_buf p) (pc_buf p + zlen (pc_chunk p)) = pc_chunk p.
Lemma feed_spec pieces pre w :
  Forall (piece_ok (w_kernel w)) pieces → zlen pre + zlen (concat (pc_chunk <$> pieces)) < 2 ^ 32 →
  w_pending_module_bytes w = Some (pre ++ zeros (zlen (concat (pc_chunk <$> pieces)))) →
  ∃ w', feed (zlen pre) pieces w = (Done tt, w') ∧ w_pending_module_bytes w' = Some (pre ++ concat (pc_chunk <$> pieces)) ∧
    w_context w' = w_context w ∧ w_instance w' = w_instance w ∧ w_pending w' = w_pending w.
Proof using.
  intros Hp. revert pre w Hp; induction pieces as [|p pieces IH]; intros pre w Hp Hz Hw.
  - exists w. cbn in *. done.
  - apply Forall_cons in Hp as [(b&Hb&Hbuf&Hc&Hl&Hs) Hp]. cbn [fmap list_fmap concat feed] in *.
    rewrite zlen_app in Hz, Hw. pose proof (zlen_nonneg (concat (pc_chunk <$> pieces))). pose proof (zlen_nonneg pre).
    pose proof (zlen_nonneg (pc_chunk p)). unfold compile_write. erewrite M_bind_done by done.
    cbn [w_pending_module_bytes w_kernel set_field eta worker_eta]. rewrite Hw. unfold buffer_of at 1. cbn [w_memories w_kernel set_field eta worker_eta].
    rewrite !to_u32_id by lia. rewrite Hb. cbn [default from_option id].
    destruct (Z.ltb_spec (zlen b - zlen (pc_chunk p)) (pc_buf p)); [lia|].
    rewrite zlen_app, zlen_zeros by lia.
    destruct (Z.ltb_spec (zlen pre + (zlen (pc_chunk p) + zlen (concat (pc_chunk <$> pieces))) - zlen (pc_chunk p)) (zlen pre)); [lia|]. cbn [orb].
    erewrite M_bind_done.
    2:{ unfold lift, uint8_view. unfold buffer_of. cbn [w_memories w_kernel set_field eta worker_eta]. rewrite Hb. cbn [default from_option id].
        rewrite bool_decide_true by lia. by rewrite Hs. }
    erewrite M_bind_done.
    2:{ unfold lift. rewrite ta_set_ok; [done|lia|rewrite zlen_app, zlen_zeros by lia; lia]. }
    erewrite M_bind_done by done. cbn [mret M_ret].
    destruct (IH (pre ++ pc_chunk p) (w <| w_memories := pc_memories p |>
      <| w_pending_module_bytes := Some ((pre ++ pc_chunk p) ++ zeros (zlen (concat (pc_chunk <$> pieces)))) |>)) as (w'&E&E1&E2&E3&E4).
    + exact Hp.
    + rewrite zlen_app. lia.
    + done.
    + rewrite <- app_assoc in E1. exists w'. split_and!; [|done..]. rewrite <- E, zlen_app. f_equal. cbn [set_field eta worker_eta]. do 2 f_equal.
      rewrite <- zeros_app, zlen_to_nat by lia. rewrite <- app_assoc. apply splice_app_l.
      unfold zeros. rewrite length_replicate. unfold zlen. lia.
Qed.
(** A module that the kernel gives in pieces, of any sizes and from wherever in
    its memory, is what is compiled: every write is accepted, and the bytes that
    [compile_end] finds are the pieces joined. *)
Theorem compile_assembles pieces w :
  Forall (piece_ok (w_kernel w)) pieces → zlen (concat (pc_chunk <$> pieces)) < 2 ^ 32 →
  let '(o, w1) := compile_begin true (zlen (concat (pc_chunk <$> pieces))) w in
  o = Done 0 ∧ ∃ w2, feed 0 pieces w1 = (Done tt, w2) ∧ w_pending_module_bytes w2 = Some (concat (pc_chunk <$> pieces)) ∧
    w_pending w2 = None ∧ w_context w2 = w_context w ∧ w_instance w2 = w_instance w.
Proof using.
  intros Hp Hz. set (n := zlen (concat (pc_chunk <$> pieces))) in *. pose proof (zlen_nonneg (concat (pc_chunk <$> pieces))). unfold compile_begin.
  erewrite M_bind_done by done. cbv iota. erewrite M_bind_done by done. cbn [mret M_ret]. split; [done|].
  destruct (feed_spec pieces [] (w <| w_pending_module_bytes := None |> <| w_pending := None |> <| w_pending_module_bytes := Some (zeros (to_u32 n)) |>))
    as (w2&E&E1&E2&E3&E4); [exact Hp|exact Hz|cbn [w_pending_module_bytes set_field eta worker_eta app]; rewrite to_u32_id by lia; done|].
  exists w2. by split_and!.
Qed.

(** What [compile_end] takes: a module the engine compiles, whose one memory is
    imported as a shared [env.memory] of 32 bits with a maximum, and that imports
    nothing but what programs are given. *)
Definition runnable (bytes : list Z) (module : Mod) (minimum maximum : Z) : Prop :=
  (∃ i, read_wasm_memories bytes = Done (Memories [i] []) ∧ mi_module i = lit "env" ∧ mi_name i = lit "memory" ∧
    mi_type i = MemoryType I32 minimum (Some maximum) true) ∧
  engine_compile bytes = inl module ∧ user_module_imports_supported (engine_imports module) bytes W32 = Done true.
Lemma compile_runnable bytes module minimum maximum :
  compile bytes = Some (module, minimum, maximum) ↔ runnable bytes module minimum maximum.
Proof using.
  unfold compile, runnable. destruct (read_wasm_memories bytes) as [[imports defs]| |]; cbn [done_of mbind option_bind]; [|split; [done|by intros [(?&?&_) _]]..].
  destruct imports as [|i [|]], defs; cbn [user_memory m_imports m_definitions mbind option_bind]; try (split; [done|by intros [(?&[= ]&_) _]]).
  destruct (bool_decide_reflect (mi_module i = lit "env" ∧ mi_name i = lit "memory" ∧ mt_address (mi_type i) = I32 ∧ mt_shared (mi_type i) = true)) as [Hi|Hi].
  2:{ cbn [mbind option_bind]. split; [done|]. intros [(j&[= <-]&H1&H2&H3) _]. exfalso. apply Hi. by rewrite H3. }
  destruct Hi as (H1&H2&H3&H4). destruct (mi_type i) as [a mn mx sh] eqn:Et. cbn in H3, H4. subst a sh. cbn [mt_maximum mt_minimum].
  destruct mx as [mx|]; cbn [fmap option_fmap option_map mbind option_bind].
  2:{ split; [done|]. intros [(j&[= <-]&_&_&H3) _]. congruence. }
  destruct (engine_compile bytes) as [m|] eqn:Em; cbn [mbind option_bind]; [|split; [done|by intros (_&?&_)]].
  destruct (user_module_imports_supported (engine_imports m) bytes W32) as [[]| |] eqn:Es; cbn [done_of mbind option_bind].
  2-4: (split; [done|intros (_&[= <-]&?); congruence]).
  split.
  - intros [= -> -> ->]. split_and!; [|done|done]. exists i. done.
  - intros [(j&[= <-]&_&_&H3) [[= <-] _]]. rewrite Et in H3. congruence.
Qed.
Lemma runnable_minimum bytes module minimum maximum : bytes_ok bytes → runnable bytes module minimum maximum → 0 ≤ minimum.
Proof using.
  intros Hb [(i&Hm&_&_&Ht) _]. assert (H : result_ok bytes memories_ok (read_wasm_memories bytes)).
  { apply (header_round bytes Hb _ (result_ok bytes memories_ok)); [done|]. intros c Hc Hf.
    apply safe_memory_sections; [done|done| |done]. by split; constructor. }
  rewrite Hm in H. destruct H as [H _]. apply Forall_cons in H as [[H _] _]. rewrite Ht in H. apply H.
Qed.
(** Every module but the one being loaded stays as it is. *)
Definition undisturbed w w' : Prop :=
  w_context w' = w_context w ∧ w_instance w' = w_instance w ∧ w_call_entry w' = w_call_entry w ∧ w_kernel w' = w_kernel w ∧
  w_memories w `prefix_of` w_memories w'.
(** How loading ends: with a program to start, or with an errno and none. *)
Definition load_result (rlimit_pages : Z) w (o : outcome Z) w' : Prop :=
  undisturbed w w' ∧ w_pending_module_bytes w' = None ∧
  match w_pending_module_bytes w, w_pending w' with
  | None, pending => o = Done EINVAL_ ∧ pending = None
  | Some bytes, Some pending =>
      o = Done 0 ∧ ∃ minimum maximum, runnable bytes (uc_module pending) minimum maximum ∧ minimum ≤ rlimit_pages ∧
        minimum ≤ uc_maximum_pages pending ≤ Z.min maximum rlimit_pages ∧
        w_memories w' = w_memories w ++ [zeros (minimum * 0x10000)] ∧ uc_memory pending = length (w_memories w)
  | Some bytes, None =>
      (o = Done ENOEXEC ∧ ∀ module minimum maximum, ¬ runnable bytes module minimum maximum) ∨
      (o = Done ENOMEM ∧ ∃ module minimum maximum, runnable bytes module minimum maximum ∧
        (Z.min maximum rlimit_pages < minimum ∨ ∃ e, allocate_shared_memory engine_allocate minimum (Z.min maximum rlimit_pages) = Raise e))
  end.
(** C34: loading a module does not disturb the running program, and is all or nothing:
    [compile_end] accepts exactly the modules that can be run within the memory that
    the process may have, and then has a fresh memory of zeros for it, as large as the
    module asks for and growing to no more than both allow; on every errno there is
    nothing to start. *)
Theorem compile_end_exact rlimit_pages w :
  w_pending w = None → from_option bytes_ok True (w_pending_module_bytes w) → 0 ≤ rlimit_pages < 2 ^ 32 →
  let '(o, w') := compile_end rlimit_pages w in load_result rlimit_pages w o w'.
Proof using.
  intros Hnone Hbytes Hr. unfold compile_end, load_result. erewrite M_bind_done by done. erewrite M_bind_done by done.
  assert (Hu : ∀ b, undisturbed w (w <| w_pending_module_bytes := b |>)) by (by intros b).
  destruct (w_pending_module_bytes w) as [bytes|] eqn:Eb; [|done]. cbn [from_option] in Hbytes.
  destruct (compile bytes) as [[[module minimum] maximum]|] eqn:Ec.
  2:{ cbn. rewrite Hnone. split_and!; [apply (Hu None)|done|]. left. split; [done|]. intros m mn mx H%compile_runnable. congruence. }
  apply compile_runnable in Ec. rewrite to_u32_id by done.
  destruct (Z.ltb_spec (Z.min maximum rlimit_pages) minimum) as [Hlt|Hle].
  { cbn. rewrite Hnone. split_and!; [apply (Hu None)|done|]. right. split; [done|]. exists module, minimum, maximum. auto. }
  assert (H0 : 0 ≤ minimum) by (by eapply runnable_minimum).
  unfold allocate. pose proof (allocate_loop_spec engine_allocate (Z.to_nat (Z.min maximum rlimit_pages - minimum)) minimum (Z.min maximum rlimit_pages)
    H0 (Nat.le_refl _)) as Ha. fold (allocate_shared_memory engine_allocate minimum (Z.min maximum rlimit_pages)) in Ha.
  destruct (allocate_shared_memory engine_allocate minimum (Z.min maximum rlimit_pages)) as [[[] m]|e|] eqn:Ea; [| |done].
  - erewrite M_bind_done by done. cbv beta iota. erewrite M_bind_done by done. cbn [mret M_ret]. destruct Ha as (_&H1&H2). split_and!; [|done|].
    + split_and!; try done. by exists [zeros (minimum * 0x10000)].
    + split; [done|]. exists minimum, maximum. cbn [w_pending set_field eta worker_eta uc_module uc_maximum_pages uc_memory]. split_and!; (done || lia).
  - erewrite M_bind_done by done. cbn. rewrite Hnone. split_and!; [apply (Hu None)|done|]. right. split; [done|].
    exists module, minimum, maximum. split; [done|]. right. by exists e.
Qed.

Lemma subarray_all {A} (l : list A) n : n = zlen l → subarray l 0 n = l.
Proof using. intros ->. apply subarray_full. Qed.
(** A forked process has its parent's memory of the moment: either the copy is
    published with a memory of the child's own that holds the same bytes, the parent's
    module and no more pages than the parent may have, or the errno is and the child
    has no program; no memory that was there changes. *)
Theorem fork_copies parent w source pages :
  worker_ok w → w_memories w !! uc_memory parent = Some source → zlen source = pages * 0x10000 →
  let '(o, w') := copy_user_memory parent w in
  w_memories w `prefix_of` w_memories w' ∧ w_context w' = w_context w ∧
  match o with
  | Done (1, Some child) =>
      uc_module child = uc_module parent ∧ w_memories w !! uc_memory child = None ∧ w_memories w' !! uc_memory child = Some source ∧
      uc_maximum_pages child ≤ uc_maximum_pages parent ∧ spawn_result 1 = Done 0
  | Done (e, None) => e = ENOMEM ∧ spawn_result e = Done ENOMEM
  | _ => False
  end.
Proof using.
  intros Hw Hs Hz. unfold copy_user_memory. erewrite M_bind_done by done. pose proof (zlen_nonneg source).
  unfold bytes_at at 1. rewrite Hs. destruct (memory_bytes_bounds source 0 None) as [-> _]; [by eapply wo_small|]. cbv zeta. cbn [default from_option].
  rewrite Z.sub_0_r, bool_decide_true by lia.
  assert (Hp : zlen source / 0x10000 = pages) by (rewrite Hz; by apply Z.div_mul). rewrite Hp. unfold allocate.
  pose proof (allocate_loop_spec engine_allocate (Z.to_nat (uc_maximum_pages parent - pages)) pages (uc_maximum_pages parent) ltac:(lia) (Nat.le_refl _)) as Ha.
  fold (allocate_shared_memory engine_allocate pages (uc_maximum_pages parent)) in Ha.
  destruct (allocate_shared_memory engine_allocate pages (uc_maximum_pages parent)) as [[[] m]|e|]; [|done|done].
  erewrite M_bind_done by done. cbv beta iota. erewrite M_bind_done by done. cbv beta iota.
  set (w1 := w <| w_memories := w_memories w ++ [zeros (pages * 0x10000)] |>).
  assert (Hn : w_memories w1 !! length (w_memories w) = Some (zeros (zlen source))).
  { unfold w1. cbn. rewrite lookup_app_r, Nat.sub_diag by lia. by rewrite Hz. }
  assert (Hzz : zlen (zeros (zlen source)) = zlen source) by (by apply zlen_zeros).
  unfold bytes_at at 1. rewrite Hn. destruct (memory_bytes_bounds (zeros (zlen source)) 0 (Some (zlen source))) as [-> _]; [rewrite Hzz; by eapply wo_small|].
  cbv zeta. cbn [default from_option]. rewrite Hzz. unfold id. rewrite bool_decide_true by lia. cbv iota.
  unfold buffer_of. rewrite Hn, Hs. cbn [default from_option]. unfold id. rewrite !Z.add_0_l.
  rewrite (subarray_all source), (subarray_all (zeros (zlen source))), ta_set_ok by (done || lia).
  erewrite M_bind_done by (by apply store_at_eq). cbn [mret M_ret].
  assert (Hsp : splice (zeros (zlen source)) (Z.to_nat 0) source = source).
  { change (Z.to_nat 0) with 0%nat. rewrite splice_zeros_l, Z.sub_diag by lia. apply app_nil_r. }
  rewrite !Hsp. assert (Hm : w_memories (with_memory (length (w_memories w)) source w1) = w_memories w ++ [source]).
  { unfold with_memory, w1. cbn. rewrite insert_app_r_alt, Nat.sub_diag by lia. done. }
  rewrite Hm. cbn [uc_module uc_memory uc_maximum_pages]. split_and!; try done; [by exists [source]|apply lookup_ge_None_2; lia| |lia].
  by rewrite lookup_app_r, Nat.sub_diag by lia.
Qed.
End loading.

(** * Running *)
Section running.
Context {Mod : Type} `{!User Mod}.
Implicit Types w : worker Mod.

(** What a handler may do to the results: nothing below its own. *)
Definition top_only w w' : Prop :=
  length (w_siginfo_copy_results w') = length (w_siginfo_copy_results w) ∧ pop (w_siginfo_copy_results w') = pop (w_siginfo_copy_results w).
Lemma pop_snoc {A} (l : list A) x : pop (l ++ [x]) = l.
Proof using. unfold pop. rewrite length_app. cbn. rewrite Nat.add_1_r. cbn. apply take_app_length. Qed.
Lemma pop_insert {A} (l : list A) x : pop (<[pred (length l) := x]> l) = pop l.
Proof using. unfold pop. rewrite length_insert. apply take_insert_ge. lia. Qed.
(** The import that a program has does no more, if the kernel's own does not. *)
Lemma copy_siginfo_top to : (∀ w, top_only w (kernel_copy_siginfo to w).2) → ∀ w, top_only w (copy_siginfo to w).2.
Proof using.
  intros H w. specialize (H w). unfold copy_siginfo. unfold mbind, M_bind. destruct (kernel_copy_siginfo to w) as [[r|e|] w1]; [|done..].
  cbn [modify]. cbn [mret M_ret snd] in *. destruct H as [H1 H2]. destruct (Z.leb_spec 0 (zlen (w_siginfo_copy_results w1) - 1)) as [Hz|Hz]; [|done].
  unfold top_only. cbn [w_siginfo_copy_results set_field eta worker_eta].
  replace (Z.to_nat (zlen (w_siginfo_copy_results w1) - 1)) with (pred (length (w_siginfo_copy_results w1))) by (unfold zlen in *; lia).
  rewrite length_insert, pop_insert. done.
Qed.
(** Signal handlers nest: a handler that takes its information leaves the results
    of the handlers below it alone, however it ends, and is told what its own last
    request for the information came to, or that it made none. *)
Theorem siginfo_nests trampoline fn sig w f :
  table_function (user_word_number trampoline) 2 "Invalid siginfo trampoline" w = (Done f, w) →
  (∀ w, top_only w (f [fn; sig] w).2) → (∀ w, w_siginfo_copy_results (kernel_clear_siginfo w).2 = w_siginfo_copy_results w) →
  let '(o, w') := call_siginfo_handler trampoline fn sig w in
  let '(r, w1) := f [fn; sig] (w <| w_siginfo_copy_results := w_siginfo_copy_results w ++ [None] |>) in
  o ≠ Loops →
  w_siginfo_copy_results w' = w_siginfo_copy_results w ∧
  (∀ z, o = Done z → ∃ own, w_siginfo_copy_results w1 = w_siginfo_copy_results w ++ [own] ∧ z = default EINVAL_ own).
Proof using.
  intros Hf Htop Hclear. unfold call_siginfo_handler. erewrite M_bind_done by exact Hf. erewrite M_bind_done by done.
  set (w0 := w <| w_siginfo_copy_results := _ |>). specialize (Htop w0). destruct (f [fn; sig] w0) as [r w1] eqn:E.
  assert (Hw1 : ∃ own, w_siginfo_copy_results w1 = w_siginfo_copy_results w ++ [own]).
  { destruct Htop as [H1 H2]. cbn [snd] in *. unfold w0 in H1, H2. cbn [w_siginfo_copy_results set_field eta worker_eta] in H1, H2. rewrite pop_snoc in H2.
    destruct (last (w_siginfo_copy_results w1)) as [own|] eqn:El.
    - apply last_Some in El as [l El]. exists own. rewrite El in H2 |- *. by rewrite pop_snoc in H2; subst.
    - apply last_None in El. rewrite El, length_app in H1. cbn in H1. lia. }
  destruct Hw1 as [own Hown].
  assert (Hpop : ∀ o, o = (try_finally kernel_clear_siginfo pop_siginfo w1).1 → o ≠ Loops →
    w_siginfo_copy_results (try_finally kernel_clear_siginfo pop_siginfo w1).2 = w_siginfo_copy_results w).
  { unfold try_finally. intros o Ho Hl. specialize (Hclear w1). destruct (kernel_clear_siginfo w1) as [[[]|e|] w2]; cbn [fst snd] in *; [| |by destruct (Hl Ho)];
      cbn [w_siginfo_copy_results pop_siginfo modify set_field eta worker_eta snd]; rewrite Hclear, Hown; apply pop_snoc. }
  unfold try_finally at 1. unfold mbind at 1, M_bind at 1. rewrite E.
  destruct r as [[]|e|]; [| |done].
  - erewrite M_bind_done by done. cbn [mret M_ret]. destruct (try_finally kernel_clear_siginfo pop_siginfo w1) as [o2 w2] eqn:E2. cbn [fst snd] in Hpop.
    rewrite Hown, last_snoc. destruct o2 as [u|e|]; intros Hl; (split; [by eapply Hpop|]); intros z Hz; [|discriminate Hz|discriminate Hz].
    injection Hz as <-. exists own. split; [done|]. by destruct own.
  - destruct (try_finally kernel_clear_siginfo pop_siginfo w1) as [o2 w2] eqn:E2. cbn [fst snd] in Hpop.
    destruct o2 as [u|e'|]; intros Hl; (split; [by eapply Hpop|]); intros z Hz; discriminate Hz.
Qed.

(** A program that was replaced starts again at the new one's [_start]; a thread whose
    function returns is run once more. *)
Lemma call_again fuel w w' : call_entry (w_call_entry w) w = (Done tt, w') ∨ call_entry (w_call_entry w) w = (Raise HALT_USER, w') →
  call (S fuel) w = call fuel w'.
Proof using. intros [E|E]; cbn [call]; rewrite E; [done|]. by rewrite decide_True. Qed.
End running.

(** * Examples

    An engine whose modules are their bytes, and a worker with a program. *)
#[export] Instance byte_engine : Engine (list Z) := {
  engine_compile bytes := inl bytes;
  engine_imports _ := [ModuleImport (lit "env") (lit "memory") (lit "memory")];
  engine_link _ := None;
  engine_allocate initial maximum := if maximum <=? 100 then inl tt else inr (RangeError "out of address space") }.
Definition tiny_module : list Z :=
  wasm_header ++ [2; 17; 1; 3] ++ lit "env" ++ [6] ++ lit "memory" ++ [2; 3; 0; 200; 1].
Definition small_context : user_context (list Z) := UserContext tiny_module 1 4.
Definition small_worker : worker (list Z) :=
  Worker [zeros 32; [1; 2; 3; 4; 250; 255; 255; 255]] 0 None (Some small_context) (Some small_context) None None [] CallStart.
Lemma small_worker_ok : worker_ok small_worker.
Proof.
  split.
  - intros i b Hb. apply list_elem_of_lookup_2 in Hb. cbn in Hb. apply elem_of_cons in Hb as [-> | ->%list_elem_of_singleton]; vm_compute; discriminate.
  - by exists (zeros 32).
  - intros c [= <-]. split; [by exists [1; 2; 3; 4; 250; 255; 255; 255]|done].
Defined.
Lemma user_copy_exact_witness :
  read 4 2 3 small_worker = (Done 0, with_memory 0 (splice (zeros 32) 4 [3; 4; 250]) small_worker) ∧
  write 6 0 3 small_worker = (Done 3, small_worker) ∧
  write_zeroes 6 2 small_worker = (Done 0, with_memory 1 [1; 2; 3; 4; 250; 255; 0; 0] small_worker).
Proof.
  pose (spec to from n := user_copy_exact to from n small_context small_worker (zeros 32) [1; 2; 3; 4; 250; 255; 255; 255] small_worker_ok
    eq_refl eq_refl eq_refl).
  split_and!; [exact (proj1 (spec 4 2 3))|exact (proj1 (proj2 (spec 6 0 3)))|exact (proj2 (proj2 (spec 6 0 2)))].
Defined.
Lemma futex_exact_witness :
  let '(o, w') := futex_atomic_op 8 4 1 10 small_worker in
  o = Done 0 ∧ w' = atomically (fun old => old + 10) 1 [1; 2; 3; 4; 250; 255; 255; 255] 4 8 (zeros 32) small_worker ∧
  ∃ kernel' user', w_memories w' !! 0%nat = Some kernel' ∧ w_memories w' !! 1%nat = Some user' ∧
    le_decode (word_at kernel' 8) = 2 ^ 32 - 6 ∧ le_decode (word_at user' 4) = 4.
Proof.
  refine (futex_exact 8 4 1 10 small_context small_worker (zeros 32) [1; 2; 3; 4; 250; 255; 255; 255] small_worker_ok eq_refl eq_refl eq_refl _ _);
    [apply (bool_decide_unpack _); vm_compute; exact I|vm_compute; discriminate].
Defined.

(** The module in two pieces, at different places of a memory that has changed. *)
Definition first_piece : piece := Piece [[0; 0] ++ take 10 tiny_module; []] 2 (take 10 tiny_module).
Definition second_piece : piece := Piece [drop 10 tiny_module; []] 0 (drop 10 tiny_module).
Lemma compile_assembles_witness :
  let '(o, w1) := compile_begin true (zlen tiny_module) small_worker in
  o = Done 0 ∧ ∃ w2, feed 0 [first_piece; second_piece] w1 = (Done tt, w2) ∧ w_pending_module_bytes w2 = Some tiny_module ∧
    w_pending w2 = None ∧ w_context w2 = Some small_context ∧ w_instance w2 = Some small_context.
Proof.
  refine (compile_assembles [first_piece; second_piece] small_worker _ _); [|vm_compute; reflexivity].
  repeat constructor; eexists; (split; [reflexivity|]); split_and!; vm_compute; (reflexivity || discriminate).
Defined.

Definition loading_worker : worker (list Z) := small_worker <| w_pending_module_bytes := Some tiny_module |>.
Lemma loading_bytes : bytes_ok tiny_module.
Proof. apply (bool_decide_unpack _). vm_compute. exact I. Defined.
Lemma compile_end_exact_witness : let '(o, w') := compile_end 50 loading_worker in load_result 50 loading_worker o w'.
Proof.
  pose proof (compile_end_exact 50 loading_worker eq_refl loading_bytes) as H.
  assert (Hr : 0 ≤ 50 < 2 ^ 32) by lia. specialize (H Hr). exact H.
Defined.
Example loads_tiny_module :
  let '(o, w') := compile_end 50 loading_worker in
  o = Done 0 ∧ w_pending w' = Some (UserContext tiny_module 2 50) ∧ (instantiate true w').2 = w' <| w_pending := None |>
    <| w_context := Some (UserContext tiny_module 2 50) |> <| w_instance := Some (UserContext tiny_module 2 50) |>.
Proof. vm_compute. done. Qed.

Lemma fork_copies_witness :
  let w := small_worker <| w_memories := [[]; zeros 65536] |> in
  let '(o, w') := copy_user_memory small_context w in
  w_memories w `prefix_of` w_memories w' ∧ w_context w' = w_context w ∧
  match o with
  | Done (1, Some child) =>
      uc_module child = tiny_module ∧ w_memories w !! uc_memory child = None ∧ w_memories w' !! uc_memory child = Some (zeros 65536) ∧
      uc_maximum_pages child ≤ 4 ∧ spawn_result 1 = Done 0
  | Done (e, None) => e = ENOMEM ∧ spawn_result e = Done ENOMEM
  | _ => False
  end.
Proof.
  refine (fork_copies small_context (small_worker <| w_memories := [[]; zeros 65536] |>) (zeros 65536) 1 _ eq_refl _); [|by apply zlen_zeros].
  split.
  - intros i b Hb. apply list_elem_of_lookup_2 in Hb. cbn [w_memories set_field eta worker_eta] in Hb.
    apply elem_of_cons in Hb as [-> | ->%list_elem_of_singleton]; [discriminate|]. by rewrite zlen_zeros.
  - by eexists.
  - intros c [= <-]. split; [by eexists|done].
Defined.

(** A handler that asks for its information, and a kernel that says 5. *)
Definition answer_five (_ : list user_word) : M (worker (list Z)) unit := modify (fun w =>
  w <| w_siginfo_copy_results := <[pred (length (w_siginfo_copy_results w)) := Some 5]> (w_siginfo_copy_results w) |>).
Lemma answer_five_top args w : top_only w (answer_five args w).2.
Proof. unfold top_only. cbn. by rewrite length_insert, pop_insert. Qed.
#[export] Instance asking_user : User (list Z) := {
  user_start _ := Some (mret tt);
  user_function _ i :=
    if i =? 7 then Done (Some (2%nat, answer_five))
    else if i =? 9 then Done (Some (1%nat, fun _ => mret tt))
    else Raise (RangeError "table index is out of bounds");
  kernel_copy_siginfo _ := mret 0;
  kernel_clear_siginfo := mret tt }.
Lemma siginfo_nests_witness :
  let w := small_worker <| w_siginfo_copy_results := [Some 3] |> in
  let '(o, w') := call_siginfo_handler (WNumber 7) (WNumber 1) (WNumber 2) w in
  o ≠ Loops →
  w_siginfo_copy_results w' = [Some 3] ∧ (∀ z, o = Done z → ∃ own, [Some 3; Some 5] = [Some 3] ++ [own] ∧ z = default EINVAL_ own).
Proof.
  refine (siginfo_nests (WNumber 7) (WNumber 1) (WNumber 2) (small_worker <| w_siginfo_copy_results := [Some 3] |>) answer_five eq_refl _ _);
    [|by intros w].
  intros w. apply answer_five_top.
Defined.

(** A thread's function that returns is called again, and again. *)
Definition thread_worker : worker (list Z) := small_worker <| w_call_entry := CallThread (WNumber 9) (WNumber 0) |>.
Example thread_runs_again fuel : (call fuel thread_worker).1 = Loops.
Proof. induction fuel as [|fuel IH]; [done|]. by rewrite (call_again fuel thread_worker thread_worker) by (by left). Qed.
