(* ===== verification/Machine.v ===== *)
(** A machine: packages/kernel/src/index.ts, plugin-internal.ts and virtio/bus.ts:
    how it is configured and laid out in memory, what its description says, and its
    life from boot until it is closed.

    The kernel, the workers and the devices are the environment: their messages and
    the settling of what they are asked come in any order ([machine_step]). *)
From S2P Require Export Devicetree Wasm.

Definition PAGE_SIZE : Z := 0x10000.
Definition KERNEL_MEMORY_MAXIMUM_PAGES : Z := 0xffff.

(** * Configuration *)

(** What [configure] may do: add arguments and devices, or throw. *)
Record setup (D : Type) := Setup { su_args : list text; su_devices : list D }.
Arguments Setup {D}.
Arguments su_args {D}.
Arguments su_devices {D}.
#[export] Instance setup_eta D : Eta (setup D) := fun s => Setup (su_args s) (su_devices s).
Definition args_add {D} (next : list text) : M (setup D) unit := modify (fun s => s <| su_args := su_args s ++ next |>).
Definition devices_add {D} (next : list D) : M (setup D) unit := modify (fun s => s <| su_devices := su_devices s ++ next |>).
Fixpoint configure_plugins {D} (plugins : list (M (setup D) unit)) : M (setup D) unit :=
  match plugins with [] => mret tt | configure :: plugins => configure ;; configure_plugins plugins end.
(** [configure_machine], and the devices that are closed when it throws. *)
Definition configure_machine {D} (args : list text) (plugins : list (M (setup D) unit)) : outcome (setup D) * list D :=
  match configure_plugins plugins (Setup args []) with
  | (Done _, s) => (Done s, [])
  | (Raise e, s) => (Raise e, su_devices s)
  | (Loops, s) => (Loops, [])
  end.

(** * Layout *)
Definition kernel_initial_pages (memory : memory_type) (initcpio_size : Z) : outcome Z :=
  let maximum := KERNEL_MEMORY_MAXIMUM_PAGES in
  _ ← assert_ ((mt_minimum memory <=? maximum) && (if mt_maximum memory is Some m then maximum <=? m else false))
        "Kernel memory limits are incompatible with a 4 GiB - 64 KiB memory";
  let initcpio_pages := (initcpio_size + PAGE_SIZE - 1) / PAGE_SIZE in
  let initial := mt_minimum memory + initcpio_pages in
  _ ← assert_ (initial <=? KERNEL_MEMORY_MAXIMUM_PAGES) "Initramfs does not fit in kernel memory";
  Done initial.
(** Where the initial ramdisk goes, which is where the kernel's own memory ends. *)
Definition initcpio_addr (memory : memory_type) : Z :=
  let module_pages := mt_minimum memory in module_pages * PAGE_SIZE.
Definition load_initcpio (memory : memory_type) (initcpio bytes : list Z) : outcome (list Z) :=
  ta_set bytes initcpio (initcpio_addr memory).
(** [get_devicetree] and [get_initramfs]: the address and the size are words. *)
Definition get_devicetree (blob memory : list Z) (buf size : Z) : outcome (Z * list Z) :=
  let address := to_u32 buf in
  let capacity := to_u32 size in
  if ((address =? 0) && (capacity =? 0))%bool then Done (zlen blob, memory)
  else
    _ ← assert_ (zlen blob <=? capacity) "Device tree truncated";
    memory ← ta_set memory blob address;
    Done (zlen blob, memory).
Definition get_initramfs (initramfs memory : list Z) (buf size : Z) : outcome (Z * list Z) :=
  let address := to_u32 buf in
  let capacity := to_u32 size in
  _ ← assert_ (zlen initramfs <=? capacity) "Initramfs truncated";
  memory ← ta_set memory initramfs address;
  Done (zlen initramfs, memory).

(** * The description *)
Record device := Device { dv_id : Z; dv_features : Z; dv_config : list Z }.
Definition describe_device (i : Z) (d : device) : text * dt_value :=
  (lit "virtio" ++ show_number i,
   DtNode [(lit "compatible", DtString (lit "virtio,wasm")); (lit "host-id", DtNumber i); (lit "virtio-device-id", DtNumber (dv_id d));
     (lit "features", DtBigint (dv_features d)); (lit "config", DtView (dv_config d) 0 (zlen (dv_config d)))]).
Fixpoint describe (i : Z) (devices : list device) : list (text * dt_value) :=
  match devices with [] => [] | d :: devices => describe_device i d :: describe (i + 1) devices end.
Record boot := Boot {
  bt_rng_seed : list Z; bt_args : list text; bt_cpus : Z; bt_maximum_pages : Z; bt_devices : list device;
  bt_initcpio : option (Z * Z) (* where it is and its size *); bt_sections : dt_value }.
Definition bootargs (args : list text) : text := lit "console=hvc0 " ++ join (lit " ") args.
Definition machine_devicetree (b : boot) : dt_value :=
  DtNode ([(lit "#address-cells", DtNumber 1); (lit "#size-cells", DtNumber 1);
     (lit "chosen", DtNode ([(lit "rng-seed", DtView (bt_rng_seed b) 0 (zlen (bt_rng_seed b)));
        (lit "bootargs", DtString (bootargs (bt_args b))); (lit "ncpus", DtNumber (bt_cpus b))] ++
        (match bt_initcpio b with
         | Some (address, size) => [(lit "linux,initrd-start", DtNumber address); (lit "linux,initrd-end", DtNumber (address + size))]
         | None => [] end) ++
        [(lit "sections", bt_sections b)]));
     (lit "aliases", DtNode []);
     (lit "memory", DtNode [(lit "device_type", DtString (lit "memory")); (lit "reg", DtNumbers [0; bt_maximum_pages b * PAGE_SIZE])]);
     (lit "reserved-memory", DtNode [(lit "#address-cells", DtNumber 1); (lit "#size-cells", DtNumber 1); (lit "ranges", DtUndefined)])] ++
    describe 0 (bt_devices b)).
Definition machine_blob (b : boot) : outcome (list Z) :=
  generate_devicetree (machine_devicetree b) (option_list (bt_initcpio b)) 0.

(** * Life *)

(** [VirtioBus.close]: the first device that failed to shut down. *)
Fixpoint bus_close (results : list (option exn)) : option exn :=
  match results with [] => None | Some e :: _ => Some e | None :: results => bus_close results end.

(** The boot console: a stream of which a reader may have been taken or cancelled. *)
Record console := Console { co_closed : bool; co_locked : bool; co_chunks : list (list Z) }.
#[export] Instance console_eta : Eta console := fun c => Console (co_closed c) (co_locked c) (co_chunks c).
(** Where [finish] is: it waits for the devices, then for the workers. *)
Inductive phase := Running | ClosingDevices | Terminating | Finished.
#[export] Instance phase_eq_dec : EqDecision phase.
Proof. solve_decision. Defined.

Record machine := Machine {
  m_closed : bool; m_failed : bool; m_finish_error : option exn; m_phase : phase;
  m_workers : list nat; m_started : nat; m_terminated : list nat; m_console : console; m_closed_promise : option (option exn);
  (* what was reported and which workers said that they end, in order *) m_failures : list exn; m_exited : list nat }.
#[export] Instance machine_eta : Eta machine := fun m =>
  Machine (m_closed m) (m_failed m) (m_finish_error m) (m_phase m) (m_workers m) (m_started m) (m_terminated m) (m_console m)
    (m_closed_promise m) (m_failures m) (m_exited m).
Definition machine_new : machine := Machine false false None Running [] 0 [] (Console false false []) None [] [].

Definition boot_console_close : M machine unit := modify (fun m =>
  if co_closed (m_console m) then m else m <| m_console := m_console m <| co_closed := true |> |>).
Definition boot_console_write (message : list Z) : M machine unit := modify (fun m =>
  if (negb (co_closed (m_console m)) && co_locked (m_console m))%bool
  then m <| m_console := m_console m <| co_chunks := co_chunks (m_console m) ++ [message] |> |> else m).
(** [if (!failed) { failed = true; finish_error = error; }] *)
Definition note_failure (e : exn) : M machine unit := modify (fun m =>
  (if m_failed m then m else m <| m_failed := true |> <| m_finish_error := Some e |>) <| m_failures := m_failures m ++ [e] |>).
Definition finish : M machine unit := modify (fun m =>
  if decide (m_phase m = Running) then m <| m_closed := true |> <| m_phase := ClosingDevices |> else m).
(** [finish], where the devices have closed. *)
Definition devices_closed (o : option exn) : M machine unit :=
  (if o is Some e then note_failure e else mret tt) ;;
  modify (fun m => m <| m_terminated := m_workers m |> <| m_phase := Terminating |>).
(** [finish], where the workers have ended. *)
Definition workers_terminated (o : option exn) : M machine unit :=
  (if o is Some e then note_failure e else mret tt) ;;
  boot_console_close ;;
  modify (fun m => m <| m_phase := Finished |> <| m_closed_promise := Some (if m_failed m then m_finish_error m else None) |>).
Definition fail (e : exn) : M machine unit := note_failure e ;; finish.
Definition close : M machine unit := finish.

(** [start_worker], where the platform may fail to start one. *)
Definition start_worker (spawns : option exn) : M machine unit := fun m =>
  if m_closed m then (Done tt, m)
  else match spawns with
       | Some e => (Raise e, m)
       | None => (Done tt, m <| m_workers := m_workers m ++ [m_started m] |> <| m_started := S (m_started m) |>)
       end.
Inductive worker_message :=
| MsgSpawnWorker (spawns : option exn) | MsgConsoleWrite (message : list Z) | MsgConsoleClose
| MsgTerminate (reason : Z) | MsgRunOnMain (result : option exn) | MsgWorkerExit.
Definition MachinePanicError : exn := JsError "kernel panic".
Definition on_message (worker : nat) (message : worker_message) : M machine unit :=
  match message with
  | MsgSpawnWorker spawns => catch (start_worker spawns) fail
  | MsgConsoleWrite message => boot_console_write message
  | MsgConsoleClose => boot_console_close
  | MsgTerminate reason =>
      if reason =? 0 then finish
      else if reason =? 1 then fail MachinePanicError
      else fail (JsError ("unknown machine termination reason: " +:+ show (show_number reason)))
  | MsgRunOnMain None => mret tt
  | MsgRunOnMain (Some e) => throw e
  | MsgWorkerExit => modify (fun m => m <| m_workers := filter (fun w => w ≠ worker) (m_workers m) |> <| m_exited := m_exited m ++ [worker] |>)
  end.

(** What can happen: [HBoot] is the kernel's own call of [spawn_worker], [HFail] an
    error of a worker or a device, [HClose] a call of [close] or a boot that throws. *)
Inductive happening :=
| HBoot (spawns : option exn) | HMessage (worker : nat) (message : worker_message) | HFail (e : exn) | HClose
| HDevices (results : list (option exn)) | HWorkers (o : option exn) | HLock | HCancel.
Definition happens (h : happening) : M machine unit :=
  match h with
  | HBoot spawns => start_worker spawns
  | HMessage worker message => on_message worker message
  | HFail e => fail e
  | HClose => close
  | HDevices results => devices_closed (bus_close results)
  | HWorkers o => workers_terminated o
  | HLock => modify (fun m => m <| m_console := m_console m <| co_locked := true |> |>)
  | HCancel => modify (fun m => m <| m_console := m_console m <| co_closed := true |> |>)
  end.
(** A worker is heard from its start until it is terminated. *)
Definition may_happen (m : machine) (h : happening) : Prop :=
  match h with
  | HMessage worker _ => (worker < m_started m)%nat ∧ (worker ∉ m_terminated m)
  | HDevices _ => m_phase m = ClosingDevices
  | HWorkers _ => m_phase m = Terminating
  | _ => True
  end.
Definition machine_step (m m' : machine) : Prop := ∃ h, may_happen m h ∧ m' = (happens h m).2.

(** * The life of a machine *)
Record life_ok (m : machine) : Prop := {
  lo_closed : m_closed m = negb (bool_decide (m_phase m = Running));
  lo_failed : m_failed m = negb (bool_decide (m_failures m = []));
  lo_error : m_finish_error m = head (m_failures m);
  lo_workers : ∀ w, (w < m_started m)%nat → w ∈ m_workers m ∨ w ∈ m_exited m;
  lo_terminated : m_phase m = Terminating ∨ m_phase m = Finished → ∀ w, w ∈ m_workers m → w ∈ m_terminated m;
  lo_finished : m_phase m = Finished ↔ is_Some (m_closed_promise m) }.
(** Of a step: a closed machine starts nothing and stays closed, and what was
    announced stays announced. *)
Record life_moves (m m' : machine) : Prop := {
  lm_closed : m_closed m = true → m_closed m' = true ∧ m_started m' = m_started m;
  lm_promise : ∀ r, m_closed_promise m = Some r → m_closed_promise m' = Some r;
  lm_failures : m_failures m `prefix_of` m_failures m' }.
#[export] Instance life_moves_order : PreOrder life_moves.
Proof.
  split.
  - intros m. by split.
  - intros m1 m2 m3 [A1 A2 A3] [B1 B2 B3]. split; [|by auto|by etrans].
    intros Hc. destruct (A1 Hc) as [Hc2 E2]. destruct (B1 Hc2) as [Hc3 E3]. split; [done|congruence].
Qed.

Definition life_keeps {A} (m : M machine A) : Prop := ∀ s, life_ok s → life_ok (m s).2 ∧ life_moves s (m s).2.
Lemma life_ret {A} (a : A) : life_keeps (mret a).
Proof. intros s H. by split. Qed.
Lemma life_bind {A B} (m : M machine A) (k : A → M machine B) : life_keeps m → (∀ a, life_keeps (k a)) → life_keeps (m ≫= k).
Proof.
  intros Hm Hk s Hs. destruct (Hm s Hs) as [H1 H2]. unfold mbind, M_bind. destruct (m s) as [[a|e|] s']; [|done..].
  destruct (Hk a s' H1) as [H3 H4]. split; [done|by etrans].
Qed.
Lemma life_console f : life_keeps (modify (fun m => m <| m_console := f m |>)).
Proof. intros s [H1 H2 H3 H4 H5 H6]. split; [by split|by split]. Qed.
Lemma life_close_console : life_keeps boot_console_close.
Proof. intros s H. unfold boot_console_close, modify. cbn. destruct (co_closed _); [by split|]. exact (life_console (fun m => m_console m <| co_closed := true |>) s H). Qed.
Lemma life_write_console b : life_keeps (boot_console_write b).
Proof.
  intros s H. unfold boot_console_write, modify. cbn. destruct (_ && _)%bool; [|by split].
  exact (life_console (fun m => m_console m <| co_chunks := co_chunks (m_console m) ++ [b] |>) s H).
Qed.
Lemma life_note e : life_keeps (note_failure e).
Proof.
  intros s [H1 H2 H3 H4 H5 H6]. unfold note_failure, modify. cbn [snd].
  assert (Hp : m_failures s `prefix_of` m_failures s ++ [e]) by by exists [e].
  destruct (m_failed s) eqn:E; (split; [split|split]); try done; cbn [m_failed m_finish_error m_failures set_field eta machine_eta].
  - rewrite E. by destruct (m_failures s).
  - rewrite H3. by destruct (m_failures s).
  - by destruct (m_failures s).
  - by destruct (m_failures s).
Qed.
Lemma life_finish : life_keeps finish.
Proof.
  intros s [H1 H2 H3 H4 H5 H6]. unfold finish, modify. cbn [snd]. destruct (decide (m_phase s = Running)) as [E|E]; [|by split].
  split; [split|split]; cbn [m_closed m_phase m_closed_promise set_field eta machine_eta]; try done.
  - intros [|]; done.
  - split; [done|]. intros Hs%H6. congruence.
Qed.
Lemma life_fail e : life_keeps (fail e).
Proof. apply life_bind; [apply life_note|intros; apply life_finish]. Qed.
Lemma life_start o : life_keeps (start_worker o).
Proof.
  intros s Hs. assert (Hs' := Hs). destruct Hs' as [H1 H2 H3 H4 H5 H6]. unfold start_worker. destruct (m_closed s) eqn:E; [by split|].
  destruct o as [e|]; [by split|]. cbn [snd]. assert (Hr : m_phase s = Running) by (symmetry in H1; by rewrite negb_false_iff, bool_decide_eq_true in H1).
  split; [split|split]; cbn [m_closed m_phase m_started m_workers m_exited m_terminated m_failed m_failures m_closed_promise set_field eta machine_eta]; try done.
  - congruence.
  - intros w Hw. destruct (decide (w = m_started s)) as [->|]; [left; apply elem_of_app; right; by left|].
    destruct (H4 w) as [Hin|Hin]; [lia|left; by apply elem_of_app; left|by right].
  - rewrite Hr. by intros [|].
  - congruence.
Qed.
Lemma life_message w msg : life_keeps (on_message w msg).
Proof.
  destruct msg as [spawns|b| |reason|[e|]|]; cbn [on_message].
  - intros s Hs. destruct (life_start spawns s Hs) as [H1 H2]. unfold catch. destruct (start_worker spawns s) as [[u|e|] s']; [done| |done].
    destruct (life_fail e s' H1) as [H3 H4]. split; [done|by etrans].
  - apply life_write_console.
  - apply life_close_console.
  - destruct (_ =? 0); [apply life_finish|]. destruct (_ =? 1); apply life_fail.
  - intros s H. by split.
  - apply life_ret.
  - intros s [H1 H2 H3 H4 H5 H6]. split; [split|split];
      cbn [m_closed m_phase m_started m_workers m_exited m_terminated m_failed m_failures m_closed_promise modify snd set_field eta machine_eta]; try done.
    + intros v Hv. destruct (decide (v = w)) as [->|]; [right; apply elem_of_app; right; by left|].
      destruct (H4 v Hv) as [Hin|Hin]; [left; by apply list_elem_of_filter|right; by apply elem_of_app; left].
    + intros Hp v [_ Hv]%list_elem_of_filter. by apply H5.
Qed.
Lemma life_devices o s : m_phase s = ClosingDevices → life_ok s → life_ok (devices_closed o s).2 ∧ life_moves s (devices_closed o s).2.
Proof.
  intros Hp Hs. unfold devices_closed.
  assert (Hn : ∃ s', (if o is Some e then note_failure e else mret tt) s = (Done tt, s') ∧ life_ok s' ∧ life_moves s s' ∧ m_phase s' = ClosingDevices).
  { destruct o as [e|]; [|by exists s]. destruct (life_note e s Hs) as [H1 H2]. eexists. split; [done|]. split_and!; [done|done|].
    unfold note_failure, modify. cbn. by destruct (m_failed s). }
  destruct Hn as (s'&E&H1&H2&Hp'). erewrite M_bind_done by exact E. cbn [modify snd]. destruct H1 as [A1 A2 A3 A4 A5 A6].
  assert (Hm : life_moves s' (s' <| m_terminated := m_workers s' |> <| m_phase := Terminating |>)) by by split.
  split; [|by etrans]. split; cbn [m_closed m_phase m_workers m_terminated m_closed_promise set_field eta machine_eta]; try done.
  - by rewrite A1, Hp'.
  - split; [done|]. intros Hx%A6. congruence.
Qed.
Lemma life_workers o s : m_phase s = Terminating → life_ok s →
  let s' := (workers_terminated o s).2 in
  life_ok s' ∧ life_moves s s' ∧ m_closed_promise s' = Some (head (m_failures s')) ∧ co_closed (m_console s') = true.
Proof.
  intros Hp Hs. unfold workers_terminated.
  assert (Hn : ∃ s', (if o is Some e then note_failure e else mret tt) s = (Done tt, s') ∧ life_ok s' ∧ life_moves s s' ∧ m_phase s' = Terminating).
  { destruct o as [e|]; [|by exists s]. destruct (life_note e s Hs) as [H1 H2]. eexists. split; [done|]. split_and!; [done|done|].
    unfold note_failure, modify. cbn. by destruct (m_failed s). }
  destruct Hn as (s1&E&H1&H2&Hp1). erewrite M_bind_done by exact E. destruct (life_close_console s1 H1) as [H3 H4].
  assert (Hc : ∃ s2, boot_console_close s1 = (Done tt, s2) ∧ co_closed (m_console s2) = true ∧ m_phase s2 = Terminating).
  { eexists. split; [done|]. destruct (co_closed (m_console s1)) eqn:Ec; cbn; rewrite ?Ec; done. }
  destruct Hc as (s2&E2&Hc&Hp2). rewrite E2 in H3, H4. cbn [snd] in *. erewrite M_bind_done by exact E2. cbn [modify snd]. cbv zeta.
  destruct H3 as [A1 A2 A3 A4 A5 A6].
  assert (Hr : (if m_failed s2 then m_finish_error s2 else None) = head (m_failures s2)) by (rewrite A2, A3; by destruct (m_failures s2)).
  assert (Hnone : m_closed_promise s2 = None) by (destruct (m_closed_promise s2); [|done]; destruct A6 as [_ A6]; rewrite A6 in Hp2 by eauto; done).
  assert (Hm : life_moves s2 (s2 <| m_phase := Finished |> <| m_closed_promise := Some (if m_failed s2 then m_finish_error s2 else None) |>)).
  { split; try done. rewrite Hnone. done. }
  split_and!.
  - split; cbn [m_closed m_phase m_workers m_terminated m_closed_promise set_field eta machine_eta]; try done.
    + by rewrite A1, Hp2.
    + intros _. apply A5. by left.
  - etrans; [exact H2|]. by etrans.
  - cbn [m_closed_promise m_failures set_field eta machine_eta]. by rewrite Hr.
  - done.
Qed.

Lemma machine_step_ok m m' : life_ok m → machine_step m m' → life_ok m' ∧ life_moves m m'.
Proof.
  intros Hm (h&Hh&->). destruct h as [spawns|w msg|e| |results|o| |]; cbn [happens may_happen] in *.
  - by apply life_start.
  - by apply life_message.
  - by apply life_fail.
  - by apply life_finish.
  - by apply life_devices.
  - destruct (life_workers o m Hh Hm) as (H1&H2&_). done.
  - exact (life_console (fun m => m_console m <| co_locked := true |>) m Hm).
  - exact (life_console (fun m => m_console m <| co_closed := true |>) m Hm).
Qed.
(** Only the workers' end finishes a machine. *)
Lemma finished_by m h : may_happen m h → m_phase m ≠ Finished → m_phase (happens h m).2 = Finished → ∃ o, h = HWorkers o.
Proof.
  intros Hh Hnf.
  assert (Hnote : ∀ e s, m_phase (note_failure e s).2 = m_phase s) by (intros e s; unfold note_failure, modify; cbn; by destruct (m_failed s)).
  assert (Hfin : ∀ s, m_phase (finish s).2 = Finished → m_phase s = Finished).
  { intros s. unfold finish, modify. cbn. by destruct (decide (m_phase s = Running)). }
  assert (Hfail : ∀ e s, m_phase (fail e s).2 = Finished → m_phase s = Finished).
  { intros e s H. unfold fail in H. erewrite M_bind_done in H by done. apply Hfin in H. exact (eq_trans (eq_sym (Hnote e s)) H). }
  assert (Hstart : ∀ o s, m_phase (start_worker o s).2 = m_phase s) by (intros o s; unfold start_worker; by destruct (m_closed s), o).
  destruct h as [spawns|w msg|e| |results|o| |]; cbn [happens]; intros Hp; [exfalso; apply Hnf..|by exists o|by destruct (Hnf Hp)|by destruct (Hnf Hp)].
  - by rewrite Hstart in Hp.
  - destruct msg as [spawns|b| |reason|[e|]|]; cbn [on_message] in Hp; try exact Hp.
    + unfold catch in Hp. pose proof (Hstart spawns m) as Hs. destruct (start_worker spawns m) as [[u|e|] s']; cbn [snd] in Hs; rewrite <- Hs;
        [exact Hp|by apply (Hfail e)|exact Hp].
    + unfold boot_console_write, modify in Hp. cbn in Hp. by destruct (_ && _)%bool.
    + unfold boot_console_close, modify in Hp. cbn in Hp. by destruct (co_closed _).
    + destruct (_ =? 0); [by apply Hfin|]. destruct (_ =? 1); by eapply Hfail.
  - by apply (Hfail e).
  - by apply Hfin.
  - unfold devices_closed in Hp. destruct (bus_close results); by cbn in Hp.
Qed.

(** C31: however the kernel, the workers, the devices and the embedder take turns, a
    machine that was closed or failed starts no worker, has told every worker that did
    not end by itself to end once its devices are shut down, and then settles its
    promise once: with the first failure of all that was reported, or with none when
    nothing failed. The boot console is closed by then. *)
Theorem machine_life m m' :
  rtc machine_step machine_new m → machine_step m m' →
  (m_phase m = Terminating ∨ m_phase m = Finished → ∀ w, (w < m_started m)%nat → w ∈ m_terminated m ∨ w ∈ m_exited m) ∧
  (m_closed m = true → m_closed m' = true ∧ m_started m' = m_started m) ∧
  (∀ r, m_closed_promise m = Some r → m_closed_promise m' = Some r) ∧
  (m_closed_promise m = None → ∀ r, m_closed_promise m' = Some r →
     r = head (m_failures m') ∧ m_phase m = Terminating ∧ co_closed (m_console m') = true).
Proof.
  intros Hr Hstep. assert (Hm : life_ok m).
  { clear Hstep. assert (H0 : life_ok machine_new).
    { split; try done; [by intros w Hw%Nat.nlt_0_r|]. split; [done|by intros []]. }
    induction Hr as [m|m1 m2 m3 H1 _ IH]; [done|]. apply IH. by eapply machine_step_ok. }
  destruct (machine_step_ok m m' Hm Hstep) as [Hm' [H1 H2 _]]. split_and!; [|done|done|].
  - intros Hp w Hw. destruct (lo_workers _ Hm w Hw) as [Hin|Hin]; [left; by apply (lo_terminated _ Hm)|by right].
  - intros Hn r Hs. destruct Hstep as (h&Hh&->).
    assert (Hnf : m_phase m ≠ Finished) by (intros E%(lo_finished _ Hm); destruct E; congruence).
    destruct (finished_by m h Hh Hnf) as [o ->]; [apply (lo_finished _ Hm'); by eexists|]. cbn [may_happen happens] in *.
    destruct (life_workers o m Hh Hm) as (_&_&E&Hc). split_and!; [congruence|done|done].
Qed.
(** A machine whose worker starts another, panics and is closed. *)
Definition panicked : machine := Eval vm_compute in
  (workers_terminated None (devices_closed (Some (JsError "disk")) (on_message 1 (MsgTerminate 1) (on_message 0 (MsgSpawnWorker None)
    (start_worker None machine_new).2).2).2).2).2.
Lemma machine_life_witness :
  let m := (devices_closed (Some (JsError "disk")) (on_message 1 (MsgTerminate 1) (on_message 0 (MsgSpawnWorker None)
    (start_worker None machine_new).2).2).2).2 in
  (∀ w, (w < 2)%nat → w ∈ [0; 1]%nat ∨ w ∈ ([] : list nat)) ∧
  (∀ r, m_closed_promise panicked = Some r → r = Some MachinePanicError).
Proof.
  intros m.
  assert (Hr : rtc machine_step machine_new m).
  { eapply rtc_l; [exists (HBoot None); by split|]. eapply rtc_l; [exists (HMessage 0 (MsgSpawnWorker None)); split; [split; [apply Nat.lt_succ_diag_r|apply not_elem_of_nil]|reflexivity]|].
    eapply rtc_l; [exists (HMessage 1 (MsgTerminate 1)); split; [split; [apply Nat.lt_succ_diag_r|apply not_elem_of_nil]|reflexivity]|].
    eapply rtc_l; [exists (HDevices [None; Some (JsError "disk")]); by split|]. apply rtc_refl. }
  assert (Hs : machine_step m panicked) by (exists (HWorkers None); by split).
  destruct (machine_life m panicked Hr Hs) as (H1&_&_&H4). split.
  - exact (H1 (or_introl eq_refl)).
  - intros r Hp. exact (proj1 (H4 eq_refl r Hp)).
Defined.

(** * The memory of a machine *)

(** A child and a property of a node, by their names. *)
Fixpoint named {A} (n : list Z) (l : list (list Z * A)) : option A :=
  match l with [] => None | (m, a) :: l => if decide (m = n) then Some a else named n l end.
Definition child (n : string) (t : fdt_node) : option fdt_node := match t with FdtNode _ children => named (lit n) children end.
Definition prop (n : string) (t : fdt_node) : option (list Z) := match t with FdtNode props _ => named (lit n) props end.

Lemma initial_pages memory size pages : kernel_initial_pages memory size = Done pages → 0 ≤ size →
  mt_minimum memory * PAGE_SIZE + size ≤ pages * PAGE_SIZE ∧ mt_minimum memory ≤ pages ≤ KERNEL_MEMORY_MAXIMUM_PAGES ∧
  pages * PAGE_SIZE < mt_minimum memory * PAGE_SIZE + size + PAGE_SIZE.
Proof.
  unfold kernel_initial_pages, assert_. intros H Hs. destruct (_ && _)%bool; [|done]. cbn [mbind outcome_bind] in H.
  destruct (Z.leb_spec (mt_minimum memory + (size + PAGE_SIZE - 1) / PAGE_SIZE) KERNEL_MEMORY_MAXIMUM_PAGES) as [Hle|]; [|done].
  cbn [mbind outcome_bind] in H. injection H as <-. pose proof (Z.div_mod (size + PAGE_SIZE - 1) PAGE_SIZE ltac:(done)) as Hd.
  pose proof (Z.mod_pos_bound (size + PAGE_SIZE - 1) PAGE_SIZE ltac:(done)) as Hm.
  assert (0 ≤ (size + PAGE_SIZE - 1) / PAGE_SIZE) by (apply Z.div_pos; [unfold PAGE_SIZE in *; lia|done]).
  set (q := (size + PAGE_SIZE - 1) / PAGE_SIZE) in *. unfold PAGE_SIZE, KERNEL_MEMORY_MAXIMUM_PAGES in *. lia.
Qed.
Lemma described b address size : bt_initcpio b = Some (address, size) →
  let root := tree_of (machine_devicetree b) in
  (child "memory" root ≫= prop "reg") = Some (big_endian 4 0 ++ big_endian 4 (bt_maximum_pages b * PAGE_SIZE)) ∧
  (child "chosen" root ≫= prop "linux,initrd-start") = Some (big_endian 4 address) ∧
  (child "chosen" root ≫= prop "linux,initrd-end") = Some (big_endian 4 (address + size)).
Proof.
  intros Hi. unfold machine_devicetree. rewrite Hi. generalize (bt_maximum_pages b * PAGE_SIZE) (describe 0 (bt_devices b)).
  generalize (address + size). intros e m d.
  replace (big_endian 4 0 ++ big_endian 4 m) with (value_of (DtNumbers [0; m])) by (cbn [value_of mbind list_bind]; by rewrite app_nil_r).
  change (big_endian 4 address) with (value_of (DtNumber address)). change (big_endian 4 e) with (value_of (DtNumber e)).
  split_and!; lazy -[value_of big_endian Z.mul]; reflexivity.
Qed.

(** C32: the initial ramdisk fits behind the kernel's own memory, which loading it
    leaves alone, and the guest reads from its description exactly that: where the
    ramdisk is, in words that did not wrap, that its memory is reserved, and how large
    the memory may become. *)
Theorem boot_layout b memory size pages cpio bytes :
  kernel_initial_pages memory size = Done pages → 0 < mt_minimum memory → zlen cpio = size → zlen bytes = pages * PAGE_SIZE →
  let address := initcpio_addr memory in
  bt_initcpio b = Some (address, size) → pages ≤ bt_maximum_pages b ≤ KERNEL_MEMORY_MAXIMUM_PAGES → dt_ok (machine_devicetree b) = true →
  (∃ loaded, load_initcpio memory cpio bytes = Done loaded ∧ take (Z.to_nat address) loaded = take (Z.to_nat address) bytes ∧
     subarray loaded address (address + size) = cpio) ∧
  address + size ≤ bt_maximum_pages b * PAGE_SIZE < 2 ^ 32 ∧
  ∃ blob, machine_blob b = Done blob ∧ (zlen blob < 2 ^ 32 →
    ∃ root, read_devicetree blob = Some (FdtBlob [(address, size)] 0 ([], root)) ∧
      (child "memory" root ≫= prop "reg") = Some (big_endian 4 0 ++ big_endian 4 (bt_maximum_pages b * PAGE_SIZE)) ∧
      (child "chosen" root ≫= prop "linux,initrd-start") = Some (big_endian 4 address) ∧
      (child "chosen" root ≫= prop "linux,initrd-end") = Some (big_endian 4 (address + size))).
Proof.
  intros Hp Hmin Hc Hb address Hi Hmax Hok. pose proof (zlen_nonneg cpio). destruct (initial_pages _ _ _ Hp) as (H1&H2&_); [lia|]. change (mt_minimum memory * PAGE_SIZE) with address in H1.
  assert (Ha : 0 < address) by (unfold address, initcpio_addr, PAGE_SIZE; lia). assert (Hr : address + size ≤ bt_maximum_pages b * PAGE_SIZE < 2 ^ 32).
  { unfold PAGE_SIZE, KERNEL_MEMORY_MAXIMUM_PAGES in *. lia. }
  split_and!; [|apply Hr|apply Hr|].
  - unfold load_initcpio. fold address. rewrite ta_set_ok by lia. eexists. split; [done|]. split.
    + unfold splice. rewrite take_app_le by (rewrite length_take; unfold zlen in *; lia). rewrite take_take. f_equal. lia.
    + unfold subarray. replace (Z.to_nat (address + size) - Z.to_nat address)%nat with (length cpio) by (unfold zlen in Hc; lia).
      apply splice_range. unfold zlen in *. lia.
  - exists (printed (machine_devicetree b) [(address, size)] 0). assert (Hres : reservations_ok [(address, size)]).
    { apply Forall_singleton. cbn. split_and!; try lia. intros [= ? ?]. lia. }
    split; [unfold machine_blob; rewrite Hi; by apply generated|].
    intros Hz. exists (tree_of (machine_devicetree b)). split; [by apply read_printed|]. by apply described.
Qed.
Definition sample_boot : boot :=
  Boot (zeros 8) [lit "quiet"] 2 100 [Device 4 0 []; Device 3 1 [80; 0; 24; 0]] (Some (65536, 3)) (DtNode [(lit "text", DtNumber 7)]).
Definition sample_memory : memory_type := MemoryType I32 1 (Some 65535) true.
Lemma boot_layout_witness :
  kernel_initial_pages sample_memory 3 = Done 2 ∧
  (∃ loaded, load_initcpio sample_memory [1; 2; 3] (zeros (2 * PAGE_SIZE)) = Done loaded ∧
     take (Z.to_nat (1 * PAGE_SIZE)) loaded = take (Z.to_nat (1 * PAGE_SIZE)) (zeros (2 * PAGE_SIZE)) ∧
     subarray loaded (1 * PAGE_SIZE) (1 * PAGE_SIZE + 3) = [1; 2; 3]).
Proof.
  split; [reflexivity|].
  refine (proj1 (boot_layout sample_boot sample_memory 3 2 [1; 2; 3] (zeros (2 * PAGE_SIZE)) eq_refl eq_refl eq_refl _ eq_refl _ _)).
  - by apply zlen_zeros.
  - split; discriminate.
  - vm_compute. reflexivity.
Defined.

(** The kernel asks for the description's size first; a buffer too small is refused. *)
Example gets_devicetree :
  get_devicetree [1; 2; 3] [0; 0; 0; 0; 0] 0 0 = Done (3, [0; 0; 0; 0; 0]) ∧
  get_devicetree [1; 2; 3] [0; 0; 0; 0; 0] 1 4 = Done (3, [0; 1; 2; 3; 0]) ∧
  raises (get_devicetree [1; 2; 3] [0; 0; 0; 0; 0] 1 2) = true ∧ raises (get_devicetree [1; 2; 3] [0; 0; 0; 0; 0] 3 8) = true.
Proof. by vm_compute. Qed.
Example failed_configuration :
  configure_machine (D := Z) [lit "a"] [devices_add [1]; args_add [lit "b"]; throw (JsError "plugin")] = (Raise (JsError "plugin"), [1]).
Proof. reflexivity. Qed.
