(* ===== verification/Client.v ===== *)
(** The guest as an embedder uses it: packages/linux-guest/src/client.ts and the options
    and metadata of file.ts, composed from the calls of Syscalls.v. What the operations
    on files do is in ClientFiles.v, the objects that processes and open files are in
    Process.v.

    An operation runs on its own over a connected session; the calls of concurrent
    operations are exchanges of Conn.v. *)
From S2P Require Export AgentSpawn.

(** * Files and their metadata *)

(** [new Date(seconds * 1000 + nanoseconds / 1_000_000)] *)
Record date := Date { da_seconds : Z; da_nanoseconds : Z }.
Record FileInfo := Info {
  fi_isFile : bool; fi_isDirectory : bool; fi_isSymlink : bool; fi_size : Z; fi_mtime : date; fi_atime : date;
  fi_dev : Z; fi_ino : Z; fi_mode : Z; fi_nlink : Z; fi_uid : Z; fi_gid : Z; fi_blocks : Z }.
Definition statToInfo (st : value) : FileInfo :=
  let type := st.["st_mode"] &&& S_IF "MT" in
  Info (type =? S_IF "REG") (type =? S_IF "DIR") (type =? S_IF "LNK") (js_number st.["st_size"])
    (Date st.["st_mtime"] st.["st_mtime_nsec"]) (Date st.["st_atime"] st.["st_atime_nsec"])
    (js_number st.["st_dev"]) (js_number st.["st_ino"]) st.["st_mode"] st.["st_nlink"] st.["st_uid"] st.["st_gid"]
    (js_number st.["st_blocks"]).

Record OpenOptions := Options {
  oo_read : option bool; oo_write : option bool; oo_append : option bool; oo_truncate : option bool;
  oo_create : option bool; oo_createNew : option bool; oo_mode : option Z }.
(** [if (option)] *)
Definition given (o : option bool) : bool := default false o.
Definition openFlags (options : OpenOptions) : Z :=
  let wants_write := default (default false (oo_append options)) (oo_write options) in
  let wants_read := default (negb wants_write) (oo_read options) in
  let flags := if (wants_read && wants_write)%bool then O_ "RDWR" else if wants_write then O_ "WRONLY" else O_ "RDONLY" in
  let flags := if given (oo_create options) then flags ||| O_ "CREAT" else flags in
  let flags := if given (oo_createNew options) then flags ||| (O_ "CREAT" ||| O_ "EXCL") else flags in
  let flags := if given (oo_truncate options) then flags ||| O_ "TRUNC" else flags in
  if given (oo_append options) then flags ||| O_ "APPEND" else flags.
Record WriteFileOptions := WriteOptions {
  wo_append : option bool; wo_create : option bool; wo_createNew : option bool; wo_mode : option Z }.
Definition write_flags (options : WriteFileOptions) : Z :=
  let flags := O_ "WRONLY" in
  let flags := if default true (wo_create options) then flags ||| O_ "CREAT" else flags in
  let flags := if given (wo_createNew options) then flags ||| (O_ "CREAT" ||| O_ "EXCL") else flags in
  if given (wo_append options) then flags ||| O_ "APPEND" else flags ||| O_ "TRUNC".

(** * The client

    An [AbortSignal] is what each look at it finds, in turn: nothing, or the reason
    that it was aborted with. *)
Definition abort_signal : Type := nat → option exn.
Definition no_signal : abort_signal := fun _ => None.
Record client (P : Type) := Client { cl_session : P; cl_looks : nat }.
Arguments Client {P}.
Arguments cl_session {P}.
Arguments cl_looks {P}.
#[export] Instance client_eta P : Eta (client P) := fun c => Client (cl_session c) (cl_looks c).

(** [error instanceof SystemError && error.code === code] *)
Definition has_code (code : string) (e : exn) : bool :=
  match e with SystemError errno => bool_decide (error_code errno = Some code) | _ => false end.
Definition endless {S A} : M S A := fun s => (Loops, s).
(** What is thrown when a block and the disposal that follows it both throw. *)
Definition SuppressedError : exn := JsError "An error was suppressed during disposal.".

Section client.
Context {P : Type} `{!Peer P}.
Abbreviation client := (client P).

Definition on_session {A} (m : M P A) : M client A := focus cl_session (fun p c => c <| cl_session := p |>) m.
Definition look (signal : abort_signal) : M client (option exn) := fun c =>
  (Done (signal (cl_looks c)), c <| cl_looks := S (cl_looks c) |>).
(** [signal?.throwIfAborted()] *)
Definition throw_if_aborted (signal : abort_signal) : M client unit :=
  reason ← look signal; match reason with Some e => throw e | None => mret tt end.
(** [await using fd = ...] and the rest of the block. *)
Definition await_using {A} (fd : guest_fd) (body : M client A) : M client A := fun c =>
  match body c with
  | (Loops, c) => (Loops, c)
  | (o, c) =>
      let '(closed, (p, _)) := close (cl_session c, fd) in
      (match closed, o with
       | Done _, o => o
       | Raise e, Raise _ => Raise SuppressedError
       | Raise e, _ => Raise e
       | Loops, _ => Loops
       end, c <| cl_session := p |>)
  end.

Fixpoint write_all (fuel : nat) (signal : abort_signal) (fd : guest_fd) (data : list Z) (offset : Z) : M client unit :=
  match fuel with
  | O => endless
  | S fuel =>
      if offset <? zlen data then
        throw_if_aborted signal ;;
        written ← on_session (write fd (subarray data offset (offset + CHUNK)));
        if written =? 0 then throw (SystemError (E "IO")) else write_all fuel signal fd data (offset + written)
      else mret tt
  end.

(** ** Reading *)
Fixpoint read_chunks (fuel : nat) (signal : abort_signal) (fd : guest_fd) (chunks : list (list Z)) : M client (list (list Z)) :=
  match fuel with
  | O => endless
  | S fuel =>
      throw_if_aborted signal ;;
      data ← on_session (read fd CHUNK);
      if zlen data =? 0 then mret chunks else read_chunks fuel signal fd (chunks ++ [data])
  end.
Fixpoint set_chunks (chunks : list (list Z)) (offset : Z) (result : list Z) : outcome (list Z) :=
  match chunks with
  | [] => Done result
  | chunk :: chunks => result ← ta_set result chunk offset; set_chunks chunks (offset + zlen chunk) result
  end.
Definition readFile (fuel : nat) (path : text) (signal : abort_signal) : M client (list Z) :=
  throw_if_aborted signal ;;
  fd ← on_session (openat path (O_ "RDONLY" ||| O_ "CLOEXEC") 0);
  await_using fd
    (chunks ← read_chunks fuel signal fd [];
     lift (set_chunks chunks 0 (zeros (sum_list_z (zlen <$> chunks))))).
(** [new TextDecoder("utf-8", { fatal: true }).decode(bytes)] *)
Definition decode (bytes : list Z) : outcome text :=
  of_option (JsTypeError "The encoded data was not valid for encoding utf-8") (utf8_decode bytes).
Definition readTextFile (fuel : nat) (path : text) (signal : abort_signal) : M client text :=
  bytes ← readFile fuel path signal; lift (decode bytes).

(** ** Writing

    The data is a stream of chunks that ends, or errors; when the signal is aborted the
    reader is cancelled, and a read finds the end. *)
Fixpoint write_chunks (fuel : nat) (signal : abort_signal) (fd : guest_fd) (chunks : list (list Z)) (fin : option exn) : M client unit :=
  throw_if_aborted signal ;;
  cancelled ← look signal;
  match cancelled, chunks with
  | Some _, _ => mret tt
  | None, [] => match fin with Some e => throw e | None => mret tt end
  | None, value :: chunks => write_all fuel signal fd value 0 ;; write_chunks fuel signal fd chunks fin
  end.
Definition writeFile (fuel : nat) (path : text) (chunks : list (list Z)) (fin : option exn) (options : WriteFileOptions)
    (signal : abort_signal) : M client unit :=
  throw_if_aborted signal ;;
  fd ← on_session (openat path (write_flags options) (default 0x1b6 (wo_mode options)));
  await_using fd
    (catch (write_chunks fuel signal fd chunks fin ;; throw_if_aborted signal)
       (fun error => throw_if_aborted signal ;; throw error)).
(** [writeTextFile] of a string. *)
Definition writeTextFile (fuel : nat) (path data : text) (options : WriteFileOptions) (signal : abort_signal) : M client unit :=
  writeFile fuel path [utf8_encode data] None options signal.

(** ** Directories *)
Record DirEntryInfo := Entry { di_name : text; di_isFile : bool; di_isDirectory : bool; di_isSymlink : bool }.
Definition dir_entry_of (e : dir_entry) : DirEntryInfo :=
  Entry (de_name e) (de_dtype e =? DT "REG") (de_dtype e =? DT "DIR") (de_dtype e =? DT "LNK").
Fixpoint read_entries (fuel : nat) (fd : guest_fd) : M client (list DirEntryInfo) :=
  match fuel with
  | O => endless
  | S fuel =>
      buffer ← on_session (getdents64 fd CHUNK);
      if zlen buffer =? 0 then mret []
      else
        entries ← lift (parse_dirents buffer);
        rest ← read_entries fuel fd;
        mret ((dir_entry_of <$> entries) ++ rest)
  end.
(** [readDir], read to its end. *)
Definition readDir (fuel : nat) (path : text) : M client (list DirEntryInfo) :=
  fd ← on_session (openat path (O_ "RDONLY" ||| O_ "DIRECTORY" ||| O_ "CLOEXEC") 0);
  await_using fd (read_entries fuel fd).
Definition stat (path : text) : M client FileInfo := st ← on_session (fstatat64 path 0); mret (statToInfo st).
Definition lstat (path : text) : M client FileInfo := st ← on_session (fstatat64 path (AT "SYMLINK_NOFOLLOW")); mret (statToInfo st).

(** The generator [prefixes]. *)
Fixpoint prefixes_from (i : nat) (parts : list text) (accumulated : text) : list text :=
  match parts with
  | [] => []
  | part :: parts =>
      if bool_decide (part = []) then prefixes_from (S i) parts (if (i =? 0)%nat then lit "/" else accumulated)
      else
        let accumulated := if bool_decide (accumulated = [] ∨ accumulated = lit "/") then accumulated ++ part else accumulated ++ lit "/" ++ part in
        accumulated :: prefixes_from (S i) parts accumulated
  end.
Definition prefixes (path : text) : list text := prefixes_from 0 (split_text 47 path) [].
Fixpoint make_all (paths : list text) (mode : Z) : M client unit :=
  match paths with
  | [] => mret tt
  | prefix :: paths =>
      catch (on_session (mkdirat prefix mode)) (fun error =>
        if negb (has_code "EEXIST" error) then throw error
        else
          info ← stat prefix;
          if fi_isDirectory info then mret tt else throw (SystemError (E "NOTDIR"))) ;;
      make_all paths mode
  end.
Record MkdirOptions := DirOptions { mo_recursive : option bool; mo_mode : option Z }.
Definition mkdir (path : text) (options : MkdirOptions) : M client unit :=
  let mode := default 0x1ff (mo_mode options) in
  if negb (given (mo_recursive options)) then on_session (mkdirat path mode) else make_all (prefixes path) mode.

(** [#unlink] *)
Definition unlink (path : text) : M client unit :=
  catch (on_session (unlinkat path 0)) (fun error =>
    if negb (has_code "EISDIR" error || has_code "EPERM" error) then throw error
    else on_session (unlinkat path (AT "REMOVEDIR"))).
(** [#remove_recursive]: the fuel is for the depth; [reads] for each directory. *)
Fixpoint remove_recursive (fuel reads : nat) (path : text) : M client unit :=
  match fuel with
  | O => endless
  | S fuel =>
      info ← lstat path;
      if negb (fi_isDirectory info) then unlink path
      else
        names ← readDir reads path;
        foldr (fun entry rest => remove_recursive fuel reads (path ++ lit "/" ++ di_name entry) ;; rest) (mret tt) names ;;
        on_session (unlinkat path (AT "REMOVEDIR"))
  end.
Definition remove (fuel reads : nat) (path : text) (recursive : option bool) : M client unit :=
  if given recursive then remove_recursive fuel reads path else unlink path.

(** ** The other calls *)
Definition rename (from to : text) : M client unit := on_session (renameat from to).
Fixpoint copy_chunks (fuel : nat) (src_fd dst_fd : guest_fd) : M client unit :=
  match fuel with
  | O => endless
  | S fuel =>
      data ← on_session (read src_fd CHUNK);
      if zlen data =? 0 then mret tt else write_all (S (length data)) no_signal dst_fd data 0 ;; copy_chunks fuel src_fd dst_fd
  end.
Definition same_file (dst src : FileInfo) : bool := ((fi_dev dst =? fi_dev src) && (fi_ino dst =? fi_ino src))%bool.
Definition copyFile (fuel : nat) (from to : text) : M client unit :=
  src ← stat from;
  dst ← catch (info ← stat to; mret (Some info)) (fun error => if negb (has_code "ENOENT" error) then throw error else mret None);
  if (if dst is Some dst then same_file dst src else false) then throw (SystemError (E "INVAL"))
  else
    src_fd ← on_session (openat from (O_ "RDONLY") 0);
    await_using src_fd
      (dst_fd ← on_session (openat to (O_ "WRONLY" ||| O_ "CREAT") 0x1b6);
       await_using dst_fd (on_session (ftruncate64 dst_fd 0) ;; copy_chunks fuel src_fd dst_fd)).
Definition proc_path (fd : Z) : text := lit "/proc/self/fd/" ++ show_number fd.
Definition realPath (path : text) : M client text :=
  fd ← on_session (openat path (O_ "PATH" ||| O_ "CLOEXEC") 0);
  await_using fd (target ← on_session (readlinkat (proc_path (gf_fd fd)) 4096); lift (decode target)).
Definition readLink (path : text) : M client text :=
  target ← on_session (readlinkat path 4096);
  if zlen target =? 4096 then throw (SystemError (E "NAMETOOLONG")) else lift (decode target).
Definition symlink (target path : text) : M client unit := on_session (symlinkat target path).
Definition chmod (path : text) (mode : Z) : M client unit := on_session (fchmodat path mode).
Definition chown (path : text) (uid gid : Z) : M client unit := on_session (fchownat path uid gid).
Definition truncate (path : text) (length : option Z) : M client unit :=
  fd ← on_session (openat path (O_ "WRONLY") 0);
  await_using fd (on_session (ftruncate64 fd (default 0 length))).
(** [open], whose result an [FsFile] holds. *)
Definition open (path : text) (options : OpenOptions) : M client guest_fd :=
  on_session (openat path (openFlags options) (default 0x1b6 (oo_mode options))).
Definition ping : M client unit := on_session getpid ;; mret tt.
Record MountOptions := Mounting { mt_type : option text; mt_flags : option Z; mt_data : option text }.
Definition mount (source : option text) (target : text) (options : MountOptions) : M client unit :=
  on_session (Syscalls.mount source target (mt_type options) (default 0 (mt_flags options)) (mt_data options)).
Definition unmount (target : text) (flags : option Z) : M client unit := on_session (umount2 target (default 0 flags)).

(** [exec], past its wait for a process slot. *)
Fixpoint assign_key (key value : text) (l : list (text * text)) : list (text * text) :=
  match l with
  | [] => [(key, value)]
  | (k, v) :: l => if bool_decide (k = key) then (k, value) :: l else (k, v) :: assign_key key value l
  end.
Definition environment (env : list (text * text)) : list text :=
  let defaults := [(lit "PATH", lit "/bin:/usr/bin:/sbin:/usr/sbin"); (lit "HOME", lit "/root"); (lit "TMPDIR", lit "/tmp")] in
  (fun kv => kv.1 ++ lit "=" ++ kv.2) <$> object_entries (foldl (fun l kv => assign_key kv.1 kv.2 l) defaults env).
Record ExecOptions := Executing { ex_cwd : option text; ex_env : list (text * text) }.
Definition exec (argv : list text) (options : ExecOptions) (signal : abort_signal) : M client spawned :=
  if bool_decide (argv = []) then throw (JsTypeError "exec argv must not be empty")
  else
    throw_if_aborted signal ;; throw_if_aborted signal ;;
    on_session (spawn argv (default (lit "/tmp") (ex_cwd options)) (environment (ex_env options))).
End client.

(** ** The prefixes of a path *)
Definition names (path : text) : list text := filter (fun part => part ≠ []) (split_text 47 path).
Definition rooted (path : text) : text := match path with c :: _ => if c =? 47 then lit "/" else [] | [] => [] end.
Lemma join_cons (sep p : text) parts : Text.join sep (p :: parts) = p ++ concat ((sep ++.) <$> parts).
Proof.
  revert p. induction parts as [|q parts IH]; intros p; [cbn; by rewrite app_nil_r|].
  change (Text.join sep (p :: q :: parts)) with (p ++ sep ++ Text.join sep (q :: parts)). rewrite IH. cbn. by rewrite <- app_assoc.
Qed.
Lemma prefixes_from_spec i parts accumulated : accumulated ≠ [] → accumulated ≠ lit "/" → i ≠ 0%nat →
  prefixes_from i parts accumulated =
    (fun n => accumulated ++ concat ((lit "/" ++.) <$> take (S n) (filter (fun part => part ≠ []) parts))) <$> seq 0 (length (filter (fun part => part ≠ []) parts)).
Proof.
  revert i accumulated. induction parts as [|part parts IH]; intros i acc Ha Hr Hi; cbn [prefixes_from]; [done|].
  rewrite filter_cons. case_bool_decide as Hp.
  - rewrite decide_False by (by intros []). destruct (Nat.eqb_spec i 0) as [|_]; [done|]. by apply IH.
  - rewrite decide_True by done. rewrite bool_decide_false by tauto. cbn [length seq fmap list_fmap]. f_equal.
    + cbn. by rewrite app_nil_r.
    + assert (Hne : acc ++ lit "/" ++ part ≠ [] ∧ acc ++ lit "/" ++ part ≠ lit "/").
      { destruct acc as [|c acc]; [done|]. split; [done|]. intros [= _ H]. by destruct acc. }
      destruct Hne. rewrite IH by done. rewrite <- (fmap_S_seq 0), <- list_fmap_compose. apply list_fmap_ext. intros k n _. cbn. by rewrite <- !app_assoc.
Qed.
Lemma split_text_parts s : Forall (fun part => 47 ∉ part) (split_text 47 s).
Proof.
  unfold split_text. assert (H : ∀ part, 47 ∉ part → Forall (fun part => 47 ∉ part) (split_from 47 s part)); [|by apply H, not_elem_of_nil].
  induction s as [|c s IH]; intros part Hp; cbn [split_from]; [apply Forall_singleton; by rewrite elem_of_reverse|].
  destruct (Z.eqb_spec c 47) as [->|]; [constructor; [by rewrite elem_of_reverse|apply IH, not_elem_of_nil]|]. apply IH. set_solver.
Qed.
Lemma split_from_first sep s part rest : split_from sep s part = [] :: rest → part = [].
Proof.
  revert part. induction s as [|c s IH]; intros part; cbn [split_from].
  - intros [= H _]. apply (f_equal reverse) in H. by rewrite reverse_involutive in H.
  - destruct (c =? sep); [intros [= H _]; apply (f_equal reverse) in H; by rewrite reverse_involutive in H|]. by intros ?%IH.
Qed.
(** [prefixes] lists the directories on the way to a path, from the outermost: of
    its names that are not empty the first, the first two and so on, joined by single
    slashes, under the root when the path begins with one. *)
Theorem prefixes_spec path :
  prefixes path = (fun n => rooted path ++ Text.join (lit "/") (take (S n) (names path))) <$> seq 0 (length (names path)).
Proof.
  unfold prefixes, names, rooted. destruct path as [|c path]; [done|].
  assert (Hslash : Forall (fun part => 47 ∉ part) (split_text 47 (c :: path))) by apply split_text_parts.
  assert (Hfirst : ∀ parts acc, Forall (fun part => 47 ∉ part) parts → acc = [] ∨ acc = lit "/" → ∀ i, i ≠ 0%nat ∨ (∃ part rest, parts = part :: rest ∧ part ≠ []) →
    prefixes_from i parts acc = (fun n => acc ++ Text.join (lit "/") (take (S n) (filter (fun part => part ≠ []) parts))) <$> seq 0 (length (filter (fun part => part ≠ []) parts))).
  { induction parts as [|part parts IH]; intros acc Hs Ha i Hi; cbn [prefixes_from]; [done|]. rewrite filter_cons. apply Forall_cons in Hs as [Hp1 Hs].
    case_bool_decide as Hp.
    - rewrite decide_False by (by intros []). destruct (Nat.eqb_spec i 0) as [->|_]; [by destruct Hi as [|(?&?&[= <- <-]&?)]|]. apply IH; auto.
    - rewrite decide_True by done. rewrite bool_decide_true by tauto. cbn [length seq fmap list_fmap]. f_equal.
      assert (Hne : acc ++ part ≠ [] ∧ acc ++ part ≠ lit "/").
      { destruct Ha as [->| ->]; cbn; [split; [done|]; intros ->; apply Hp1; by left|]. split; [done|]. by intros [= ->]. }
      destruct Hne. rewrite prefixes_from_spec by done. rewrite <- (fmap_S_seq 0), <- list_fmap_compose. apply list_fmap_ext. intros k n _.
      unfold compose. rewrite firstn_cons, join_cons. by rewrite <- app_assoc. }
  unfold split_text in *. cbn [split_from] in *. destruct (Z.eqb_spec c 47) as [->|Hc].
  - cbn [prefixes_from reverse rev_append]. rewrite filter_cons_False by (by intros []). apply Forall_cons in Hslash as [_ Hs]. by apply Hfirst; [|right|left].
  - destruct (split_from_nil 47 path [c]) as (p&ps&E). assert (p ≠ []) by (intros ->; by pose proof (split_from_first 47 path [c] ps E)).
    apply Hfirst; [done|by left|right]. rewrite E. by exists p, ps.
Qed.
