(* ===== verification/ClientFiles.v ===== *)
(** What the operations on files of Client.v do, over the wire, for a kernel that keeps
    what POSIX promises of files ([posix]); and a kernel that does ([file_kernel]). *)
From S2P Require Export Client.

(** * What a kernel's files promise

    The files by their identity, which is a device and a number on it; the files that
    paths name; and the open descriptions: of each its file, its offset and whether it
    appends. *)
Abbreviation file_id := (nat * nat)%type.
Record filesystem := FileSystem {
  fs_files : gmap file_id (list Z); fs_paths : gmap (list Z) file_id; fs_open : gmap Z (file_id * Z * bool) }.
#[export] Instance filesystem_eta : Eta filesystem := fun s => FileSystem (fs_files s) (fs_paths s) (fs_open s).
Definition file_named (path : text) (fs : filesystem) : option file_id := fs_paths fs !! utf8_encode path.
(** What [bytes] make of a file when they are written from [offset] on. *)
Definition overwrite (data : list Z) (offset : Z) (bytes : list Z) : list Z :=
  take (Z.to_nat offset) (data ++ zeros (offset - zlen data)) ++ bytes ++ drop (Z.to_nat (offset + zlen bytes)) data.
Definition resize (data : list Z) (length : Z) : list Z := take (Z.to_nat length) (data ++ zeros (length - zlen data)).
Definition has_flag (flags : Z) (name : string) : Prop := flags &&& O_ name ≠ 0.
#[export] Instance has_flag_dec flags name : Decision (has_flag flags name) := _.

Definition store_file (ino : file_id) (data : list Z) (fs : filesystem) : filesystem := fs <| fs_files := <[ino := data]> (fs_files fs) |>.
Definition set_open (fd : Z) (d : file_id * Z * bool) (fs : filesystem) : filesystem := fs <| fs_open := <[fd := d]> (fs_open fs) |>.
Definition closed_fd (fd : Z) (fs : filesystem) : filesystem := fs <| fs_open := delete fd (fs_open fs) |>.
(** A file as opening it leaves it. *)
Definition opened_file (flags : Z) (data : list Z) : list Z := if decide (has_flag flags "TRUNC") then [] else data.
Definition creates (path : text) (ino : file_id) (fs : filesystem) : filesystem :=
  FileSystem (<[ino := []]> (fs_files fs)) (<[utf8_encode path := ino]> (fs_paths fs)) (fs_open fs).

(** A call that succeeds as [good] says, or fails with one of [errors] and leaves the
    files as they were. *)
Definition answers {S A} (errors : Z → Prop) (view : S → filesystem → Prop) (m : M S A) (s : S) (fs : filesystem) (good : A → filesystem → Prop) : Prop :=
  ∃ o s', m s = (o, s') ∧
    match o with
    | Done a => ∃ fs', view s' fs' ∧ good a fs'
    | Raise e => view s' fs ∧ ∃ errno, errors errno ∧ e = SystemError errno
    | Loops => False
    end.

(** What [fstatat64] tells of a path: the device and the number of its file, or of
    something that is not a regular file, both below 2^53 (see [inodes_collide]). *)
Definition identifies (path : text) (fs : filesystem) (dev number : Z) : Prop :=
  ∃ ino : file_id, dev = Z.of_nat ino.1 ∧ number = Z.of_nat ino.2 ∧ dev < 2 ^ 53 ∧ number < 2 ^ 53 ∧
    match file_named path fs with Some ino' => ino = ino' | None => fs_files fs !! ino = None end.

(** Of a kernel, as [call] calls it and [view] sees its files: reads and writes may be
    short, and any call may fail, with an errno that [errors] has. *)
Record posix {S} (errors : Z → Prop) (call : Z → list arg → M S (Z * list (list Z))) (view : S → filesystem → Prop) : Prop := {
  px_open s fs path flags mode : view s fs → (0 ∉ path) → zlen (utf8_encode path) < MAX_BLOB →
    is_Some (file_named path fs) ∨ has_flag flags "CREAT" →
    answers errors view (call (NR "openat") [ArgNumber (AT "FDCWD"); c_string path; ArgNumber flags; ArgNumber mode]) s fs (fun r fs' =>
      fs_open fs !! r.1 = None ∧ ∃ ino,
        match file_named path fs with
        | Some ino' => ¬ (has_flag flags "CREAT" ∧ has_flag flags "EXCL") ∧ ino = ino' ∧ fs' = set_open r.1 (ino, 0, bool_decide (has_flag flags "APPEND"))
            (store_file ino (opened_file flags (default [] (fs_files fs !! ino))) fs)
        | None => fs_files fs !! ino = None ∧ fs' = set_open r.1 (ino, 0, bool_decide (has_flag flags "APPEND")) (creates path ino fs)
        end);
  px_read s fs fd capacity ino offset appends data : view s fs → fs_open fs !! gf_fd fd = Some (ino, offset, appends) →
    fs_files fs !! ino = Some data → 0 < capacity ≤ MAX_BLOB →
    answers errors view (call (NR "read") [ArgFd fd; ArgOut capacity true; ArgNumber capacity]) s fs (fun r fs' =>
      0 ≤ r.1 ≤ capacity ∧ (r.1 = 0 ↔ zlen data ≤ offset) ∧ (0 < r.1 → offset + r.1 ≤ zlen data) ∧
      r.2 = [subarray data offset (offset + r.1)] ∧ fs' = set_open (gf_fd fd) (ino, offset + r.1, appends) fs);
  px_write s fs fd bytes ino offset appends data : view s fs → fs_open fs !! gf_fd fd = Some (ino, offset, appends) →
    fs_files fs !! ino = Some data → 0 < zlen bytes ≤ MAX_BLOB →
    answers errors view (call (NR "write") [ArgFd fd; ArgIn bytes; ArgNumber (zlen bytes)]) s fs (fun r fs' =>
      0 ≤ r.1 ≤ zlen bytes ∧
      let at_ := if (appends : bool) then zlen data else offset in
      fs' = set_open (gf_fd fd) (ino, at_ + r.1, appends) (store_file ino (overwrite data at_ (take (Z.to_nat r.1) bytes)) fs));
  px_truncate s fs fd ino offset appends data length : view s fs → fs_open fs !! gf_fd fd = Some (ino, offset, appends) →
    fs_files fs !! ino = Some data → 0 ≤ length < 2 ^ 63 →
    answers errors view (call (NR "ftruncate64") [ArgFd fd; ArgNumber (length &&& 0xffffffff); ArgNumber (length >>> 32)]) s fs
      (fun _ fs' => fs' = store_file ino (resize data length) fs);
  px_stat s fs path flags : view s fs → (0 ∉ path) → zlen (utf8_encode path) < MAX_BLOB →
    ∃ o s', call (NR "fstatat64") [ArgNumber (AT "FDCWD"); c_string path; ArgOut stat_size false; ArgNumber flags] s = (o, s') ∧ view s' fs ∧
      match o with
      | Done r => ∃ bytes st, r.2 = [bytes] ∧ struct_read Stat bytes = Done st ∧ identifies path fs st.["st_dev"] st.["st_ino"]
      | Raise e => ∃ errno, errors errno ∧ e = SystemError errno ∧ (error_code errno = Some "ENOENT"%string → file_named path fs = None)
      | Loops => False
      end;
  px_close s fs fd : view s fs → is_Some (fs_open fs !! gf_fd fd) →
    ∃ o s', call (NR "close") [ArgFd fd] s = (o, s') ∧ view s' (closed_fd (gf_fd fd) fs) ∧
      match o with Done _ => True | Raise e => ∃ errno, errors errno ∧ e = SystemError errno | Loops => False end }.
(** A kernel may have more errors than it gives. *)
Lemma answers_errors {S A} (errors errors' : Z → Prop) view (m : M S A) s fs good : (∀ e, errors e → errors' e) →
  answers errors view m s fs good → answers errors' view m s fs good.
Proof.
  intros He (o&s'&E&H). exists o, s'. split; [done|]. destruct o; [done| |done]. destruct H as (Hv&errno&Herr&->). split; [done|]. exists errno. auto.
Qed.
Lemma posix_errors {S} (errors errors' : Z → Prop) (call : Z → list arg → M S (Z * list (list Z))) view :
  (∀ e, errors e → errors' e) → posix errors call view → posix errors' call view.
Proof.
  intros He [H1 H2 H3 H4 H5 H6]. split; intros; try (by eapply answers_errors; [exact He|eauto]).
  - destruct (H5 s fs path flags) as (o&s'&E&Hv&Ho); [done..|]. exists o, s'. split; [done|]. split; [done|].
    destruct o; [done| |done]. destruct Ho as (errno&?&?&?). exists errno. auto.
  - destruct (H6 s fs fd) as (o&s'&E&Hv&Ho); [done..|]. exists o, s'. split; [done|]. split; [done|].
    destruct o; [done| |done]. destruct Ho as (errno&?&?). exists errno. auto.
Qed.

(** What a client may be told instead of a result: an errno of the kernel's, or EIO
    for a write that took nothing; why it was aborted or how its data ended; or that
    closing failed as well. *)
Definition fault (errors : Z → Prop) (signal : abort_signal) (fin : option exn) (e : exn) : Prop :=
  (∃ errno, (errors errno ∨ errno = E "IO") ∧ e = SystemError errno) ∨ (∃ k, signal k = Some e) ∨ fin = Some e ∨ e = SuppressedError.

Section files.
Context {P : Type} `{!Peer P} (errors : Z → Prop) (view : P → filesystem → Prop) (Hposix : posix errors syscall view).

Lemma answers_bind {A B} (m : M P A) (k : A → M P B) s fs (Q : A → filesystem → Prop) (R : B → filesystem → Prop) :
  answers errors view m s fs Q → (∀ a s' fs', view s' fs' → Q a fs' → ∃ b, k a s' = (Done b, s') ∧ R b fs') → answers errors view (m ≫= k) s fs R.
Proof using.
  intros (o&s'&E&H) Hk. destruct o as [a|e|]; [|by exists (Raise e), s'; erewrite M_bind_raise by done|done].
  destruct H as (fs'&Hv&HQ). destruct (Hk a s' fs' Hv HQ) as (b&Eb&HR). exists (Done b), s'. erewrite M_bind_done by done. rewrite Eb.
  split; [done|]. by exists fs'.
Qed.
(** ** Steps of a client

    [leads m c Q]: from [c], [m] ends, with a result or a fault, and [Q] says of both
    what the files then are. *)
Section steps.
Context (signal : abort_signal) (fin : option exn).
Definition leads {A} (m : M (client P) A) (c : client P) (Q : option A → filesystem → Prop) : Prop :=
  ∃ o c' fs', m c = (o, c') ∧ view (cl_session c') fs' ∧
    match o with Done a => Q (Some a) fs' | Raise e => fault errors signal fin e ∧ Q None fs' | Loops => False end.
Lemma leads_weaken {A} (m : M (client P) A) c (Q R : option A → filesystem → Prop) :
  leads m c Q → (∀ r fs, Q r fs → R r fs) → leads m c R.
Proof using. intros (o&c'&fs'&E&Hv&H) HQ. exists o, c', fs'. split_and!; [done|done|]. destruct o; [by apply HQ|destruct H; eauto|done]. Qed.
Lemma leads_ret {A} (a : A) c fs (Q : option A → filesystem → Prop) : view (cl_session c) fs → Q (Some a) fs → leads (mret a) c Q.
Proof using. intros Hv HQ. by exists (Done a), c, fs. Qed.
Lemma leads_throw {A} e c fs (Q : option A → filesystem → Prop) : view (cl_session c) fs → fault errors signal fin e → Q None fs → leads (throw e) c Q.
Proof using. intros Hv He HQ. by exists (Raise e), c, fs. Qed.
Lemma leads_bind {A B} (m : M (client P) A) (k : A → M (client P) B) c (R : option A → filesystem → Prop) (Q : option B → filesystem → Prop) :
  leads m c R → (∀ a c' fs, view (cl_session c') fs → R (Some a) fs → leads (k a) c' Q) → (∀ fs, R None fs → Q None fs) → leads (m ≫= k) c Q.
Proof using.
  intros (o&c'&fs'&E&Hv&H) Hk Hn. destruct o as [a|e|]; [|destruct H as [He H]|done].
  - destruct (Hk a c' fs' Hv H) as (o2&c2&fs2&E2&H2). exists o2, c2, fs2. by erewrite M_bind_done by done.
  - exists (Raise e), c', fs'. erewrite M_bind_raise by done. auto.
Qed.
Lemma leads_session {A} (m : M P A) c fs good : answers errors view m (cl_session c) fs good →
  leads (on_session m) c (fun r fs' => match r with Some a => good a fs' | None => fs' = fs end).
Proof using.
  intros (o&p&E&H). unfold leads, on_session, focus. rewrite E. destruct o as [a|e|]; [| |done].
  - destruct H as (fs'&Hv&H). by eexists _, _, fs'.
  - destruct H as (Hv&errno&He&->). eexists _, _, fs. split; [done|]. split; [exact Hv|]. split; [left; exists errno; auto|done].
Qed.
Lemma leads_check c fs : view (cl_session c) fs → leads (throw_if_aborted signal) c (fun _ fs' => fs' = fs).
Proof using.
  intros Hv. unfold leads, throw_if_aborted. erewrite M_bind_done by done. cbv beta iota.
  destruct (signal (cl_looks c)) as [e|] eqn:Es; (eexists _, _, fs; split_and!; [done|done|]); [|done].
  split; [|done]. right. left. by exists (cl_looks c).
Qed.
Lemma leads_using {A} fd (body : M (client P) A) c (R : option A → filesystem → Prop) : gf_close fd = None → leads body c R →
  (∀ r fs, R r fs → is_Some (fs_open fs !! gf_fd fd)) →
  leads (await_using fd body) c (fun r fs => ∃ r' fs', R r' fs' ∧ fs = closed_fd (gf_fd fd) fs' ∧ (r = r' ∨ r = None)).
Proof using Hposix.
  intros Hfd (o&c'&fs'&E&Hv&H) Hopen.
  assert (Hr : ∃ r, R r fs' ∧ match o with Done a => r = Some a | Raise e => r = None ∧ fault errors signal fin e | Loops => False end).
  { destruct o as [a|e|]; [by exists (Some a)|exists None; by destruct H|done]. }
  destruct Hr as (r&HR&Ho). destruct (px_close _ _ _ Hposix (cl_session c') fs' fd Hv (Hopen r fs' HR)) as (oc&p&Ec&Hvc&Hoc).
  unfold leads, await_using. rewrite E.
  assert (Hc : ∃ fd', close (cl_session c', fd) = (match oc with Done _ => Done tt | Raise e => Raise e | Loops => Loops end, (p, fd'))).
  { unfold close. rewrite Hfd. unfold mbind, M_bind. rewrite Ec. destruct oc; by eexists. }
  destruct Hc as (fd'&->).
  destruct o as [a|e|], oc as [x|ec|]; try done; (eexists _, _, (closed_fd (gf_fd fd) fs'); split_and!; [done|exact Hvc|]).
  - exists (Some a), fs'. subst. by auto.
  - split; [left; destruct Hoc as (n&?&->); exists n; auto|]. exists r, fs'. auto.
  - destruct Ho as [-> Ho]. split; [done|]. exists None, fs'. auto.
  - split; [by do 3 right|]. exists r, fs'. auto.
Qed.
End steps.

(** ** Reading a file *)
Lemma read_answers p fs fd ino offset appends data : view p fs → fs_open fs !! gf_fd fd = Some (ino, offset, appends) →
  fs_files fs !! ino = Some data → 0 ≤ offset →
  answers errors view (read fd CHUNK) p fs (fun bytes fs' =>
    bytes = subarray data offset (offset + zlen bytes) ∧ (zlen bytes = 0 ↔ zlen data ≤ offset) ∧
    fs' = set_open (gf_fd fd) (ino, offset + zlen bytes, appends) fs).
Proof using Hposix.
  intros Hv Ho Hd H0. unfold read. eapply answers_bind; [eapply (px_read _ _ _ Hposix); try done|].
  intros [n out] s' fs' _ (H1&H2&H3&H4&H5). cbn in *. subst out. exists (subarray data offset (offset + n)). split; [done|].
  assert (Hn : zlen (subarray data offset (offset + n)) = n).
  { destruct (decide (n = 0)) as [->|]; [rewrite Z.add_0_r, subarray_empty by lia; done|]. rewrite zlen_subarray; lia. }
  rewrite Hn. done.
Qed.
Lemma set_open_twice fd d d' fs : set_open fd d (set_open fd d' fs) = set_open fd d fs.
Proof using. unfold set_open. cbn. by rewrite insert_insert_eq. Qed.
Lemma set_open_same fd d fs : fs_open fs !! fd = Some d → set_open fd d fs = fs.
Proof using. intros H. unfold set_open. destruct fs as [files paths open]. cbn in *. by rewrite insert_id. Qed.
Lemma open_set fd d fs : fs_open (set_open fd d fs) !! fd = Some d.
Proof using. cbn. by rewrite lookup_insert_eq. Qed.
Lemma close_set fd d fs : fs_open fs !! fd = None → closed_fd fd (set_open fd d fs) = fs.
Proof using. intros H. unfold closed_fd, set_open. destruct fs as [files paths open]. cbn in *. by rewrite delete_insert_id. Qed.
Lemma store_same ino data fs : fs_files fs !! ino = Some data → store_file ino data fs = fs.
Proof using. intros H. unfold store_file. destruct fs as [files paths open]. cbn in *. by rewrite insert_id. Qed.

Lemma read_chunks_leads signal fin fuel fd ino offset appends data chunks c fs :
  view (cl_session c) fs → fs_open fs !! gf_fd fd = Some (ino, offset, appends) → fs_files fs !! ino = Some data → 0 ≤ offset →
  Z.max 0 (zlen data - offset) < Z.of_nat fuel →
  leads signal fin (read_chunks fuel signal fd chunks) c (fun r fs' => (∃ offset', fs' = set_open (gf_fd fd) (ino, offset', appends) fs) ∧
    from_option (fun l => concat l = concat chunks ++ drop (Z.to_nat offset) data) True r).
Proof using Hposix.
  revert offset chunks c fs. induction fuel as [|fuel IH]; intros offset chunks c fs Hv Ho Hd H0 Hf; [lia|]. cbn [read_chunks].
  assert (Hsame : ∃ offset', fs = set_open (gf_fd fd) (ino, offset', appends) fs) by (exists offset; by rewrite set_open_same).
  eapply leads_bind; [by apply leads_check| |by intros fs' ->]. intros _ c1 fs1 Hv1 ->.
  eapply leads_bind; [apply leads_session; by eapply read_answers| |by intros fs' ->]. cbv beta iota.
  intros bytes c2 fs2 Hv2 (Hb&Hz&->). destruct (Z.eqb_spec (zlen bytes) 0) as [E|E].
  - eapply leads_ret; [done|]. rewrite E in *. split; [by eexists|]. cbn [from_option]. rewrite drop_ge; [by rewrite app_nil_r|].
    apply proj1 in Hz. specialize (Hz eq_refl). unfold zlen in Hz. lia.
  - pose proof (zlen_nonneg bytes). eapply leads_weaken; [apply (IH (offset + zlen bytes))|].
    + done.
    + by rewrite open_set.
    + done.
    + lia.
    + lia.
    + intros r fs' ((offset'&->)&Hr). split; [exists offset'; by rewrite set_open_twice|]. destruct r as [l|]; [|done]. cbn [from_option] in *.
      rewrite Hr, concat_app. cbn [concat]. rewrite app_nil_r, <- app_assoc. f_equal. rewrite Hb at 1. unfold subarray.
      rewrite Z2Nat.inj_add by lia. rewrite <- drop_drop. replace (Z.to_nat offset + Z.to_nat (zlen bytes) - Z.to_nat offset)%nat with (Z.to_nat (zlen bytes)) by lia.
      apply take_drop.
Qed.

Lemma set_chunks_concat chunks pre rest : zlen rest = sum_list_z (zlen <$> chunks) →
  set_chunks chunks (zlen pre) (pre ++ rest) = Done (pre ++ concat chunks).
Proof using.
  revert pre rest. induction chunks as [|chunk chunks IH]; intros pre rest Hz; cbn [set_chunks concat].
  - by rewrite (zlen_0_nil rest) by done.
  - cbn [fmap list_fmap sum_list_z foldr] in Hz. fold (sum_list_z (zlen <$> chunks)) in Hz. pose proof (zlen_nonneg pre).
    assert (0 ≤ sum_list_z (zlen <$> chunks)) by (clear; induction chunks as [|l ls IH]; [done|]; cbn; pose proof (zlen_nonneg l); unfold sum_list_z in *; lia).
    pose proof (zlen_nonneg chunk). rewrite <- (take_drop (length chunk) rest).
    rewrite ta_set_ok by (rewrite ?zlen_app, ?zlen_take, ?zlen_drop; unfold zlen in *; lia). cbn [mbind outcome_bind].
    rewrite zlen_to_nat, splice_app_l by (rewrite length_take; unfold zlen in *; lia).
    rewrite app_assoc, <- zlen_app, IH by (rewrite zlen_drop; unfold zlen in *; lia). by rewrite <- app_assoc.
Qed.
Lemma concat_chunks chunks : set_chunks chunks 0 (zeros (sum_list_z (zlen <$> chunks))) = Done (concat chunks).
Proof using.
  apply (set_chunks_concat chunks []). apply zlen_zeros.
  induction chunks as [|l ls IH]; [done|]; cbn; pose proof (zlen_nonneg l); unfold sum_list_z in *; lia.
Qed.

(** Opening a file, using it and closing it. *)
Lemma opened_answers p fs path flags mode ino data : view p fs → (0 ∉ path) → zlen (utf8_encode path) < MAX_BLOB →
  file_named path fs = Some ino → fs_files fs !! ino = Some data →
  answers errors view (openat path flags mode) p fs (fun fd fs' => gf_close fd = None ∧ fs_open fs !! gf_fd fd = None ∧
    fs' = set_open (gf_fd fd) (ino, 0, bool_decide (has_flag flags "APPEND")) (store_file ino (opened_file flags data) fs)).
Proof using Hposix.
  intros Hv Hp Hl Hn Hd. unfold openat. eapply answers_bind; [apply (px_open _ _ _ Hposix); by eauto|].
  intros [ret out] p' fs' _ (H1&ino'&H2). rewrite Hn in H2. destruct H2 as (_&->&->). rewrite Hd. by eexists.
Qed.
Lemma file_using_leads {A} signal fin fd (body : M (client P) A) c (Q : option A → filesystem → Prop) : gf_close fd = None →
  leads signal fin body c (fun r fs2 => ∃ fs' d, fs2 = set_open (gf_fd fd) d fs' ∧ fs_open fs' !! gf_fd fd = None ∧ Q r fs' ∧ Q None fs') →
  leads signal fin (await_using fd body) c Q.
Proof using Hposix.
  intros Hc Hbody. eapply leads_weaken; [eapply leads_using; [done|exact Hbody|]|].
  - intros r fs2 (fs'&d&->&_). rewrite open_set. by eexists.
  - intros r fs2 (r'&fs3&(fs'&d&->&Ho&HQ&HQn)&->&Hr). rewrite close_set by done. by destruct Hr as [->| ->].
Qed.

Lemma read_file_leads fin fuel path signal c fs ino data : view (cl_session c) fs → (0 ∉ path) → zlen (utf8_encode path) < MAX_BLOB →
  file_named path fs = Some ino → fs_files fs !! ino = Some data → zlen data < Z.of_nat fuel →
  leads signal fin (readFile fuel path signal) c (fun r fs' => fs' = fs ∧ from_option (eq data) True r).
Proof using Hposix.
  intros Hv Hp Hl Hn Hd Hf. unfold readFile.
  eapply leads_bind; [by apply leads_check| |by intros fs' ->]. intros _ c1 fs1 Hv1 ->.
  eapply leads_bind; [apply leads_session; by eapply opened_answers| |by intros fs' ->]. cbv beta iota.
  intros fd c2 fs2 Hv2 (Hc&Ho&->). change (opened_file _ data) with data in *. rewrite (store_same ino data fs) in * by done.
  eapply file_using_leads; [done|].
  eapply leads_bind; [eapply (read_chunks_leads signal fin fuel fd ino 0 _ data); [done|by rewrite open_set|done|done|pose proof (zlen_nonneg data); lia]| |].
  - intros chunks c3 fs3 Hv3 ((o&->)&Hcs). cbn [from_option] in Hcs. rewrite concat_chunks. eapply leads_weaken; [by eapply (leads_ret signal fin (concat chunks) _ _ (fun r fs => r = Some (concat chunks) ∧ fs = _))|].
    intros r fs4 [-> ->]. rewrite set_open_twice. exists fs. eexists. split; [done|]. cbn [from_option]. by rewrite Hcs.
  - intros fs3 ((o&->)&_). rewrite set_open_twice. by exists fs, (ino, o, bool_decide (has_flag (O_ "RDONLY" ||| O_ "CLOEXEC") "APPEND")).
Qed.

(** ** Writing a file *)
Lemma overwrite_end data bytes : overwrite data (zlen data) bytes = data ++ bytes.
Proof using.
  unfold overwrite. rewrite Z.sub_diag, app_nil_r, zlen_to_nat, firstn_all. f_equal. rewrite drop_ge; [apply app_nil_r|].
  pose proof (zlen_nonneg bytes). unfold zlen in *. lia.
Qed.
Lemma write_answers p fs fd bytes ino offset appends data : view p fs → fs_open fs !! gf_fd fd = Some (ino, offset, appends) →
  fs_files fs !! ino = Some data → appends = true ∨ offset = zlen data → 0 < zlen bytes ≤ MAX_BLOB →
  answers errors view (write fd bytes) p fs (fun n fs' => 0 ≤ n ≤ zlen bytes ∧
    fs' = set_open (gf_fd fd) (ino, zlen data + n, appends) (store_file ino (data ++ take (Z.to_nat n) bytes) fs)).
Proof using Hposix.
  intros Hv Ho Hd Ha Hb. unfold write. eapply answers_bind; [by eapply (px_write _ _ _ Hposix)|].
  intros [n out] p' fs' _ (H1&H2). exists n. split; [done|]. split; [done|]. cbn [fst] in H2. rewrite H2.
  replace (if appends then zlen data else offset) with (zlen data) by (destruct Ha as [->| ->]; [done|by destruct appends]).
  by rewrite overwrite_end.
Qed.
(** What a file holds once [w] has been added to it, and where its writer is. *)
Definition added (fd : Z) (ino : file_id) (appends : bool) (data w : list Z) (fs fs' : filesystem) : Prop :=
  ∃ offset, fs' = set_open fd (ino, offset, appends) (store_file ino (data ++ w) fs) ∧ (appends = true ∨ offset = zlen (data ++ w)).
Lemma added_here fd ino appends data fs offset : fs_open fs !! fd = Some (ino, offset, appends) → fs_files fs !! ino = Some data →
  appends = true ∨ offset = zlen data → added fd ino appends data [] fs fs.
Proof using. intros Ho Hd Ha. exists offset. rewrite app_nil_r, store_same, set_open_same by done. done. Qed.
Lemma added_open fd ino appends data w fs fs' : added fd ino appends data w fs fs' →
  ∃ offset, fs_open fs' !! fd = Some (ino, offset, appends) ∧ fs_files fs' !! ino = Some (data ++ w) ∧ (appends = true ∨ offset = zlen (data ++ w)).
Proof using. intros (o&->&Ho). exists o. rewrite open_set. split_and!; [done|cbn; by rewrite lookup_insert_eq|done]. Qed.
Lemma store_set_store fd d ino x y fs : store_file ino x (set_open fd d (store_file ino y fs)) = set_open fd d (store_file ino x fs).
Proof using. unfold store_file, set_open. cbn. by rewrite insert_insert_eq. Qed.
Lemma added_trans fd ino appends data w v fs fs' fs2 : added fd ino appends data w fs fs' → added fd ino appends (data ++ w) v fs' fs2 →
  added fd ino appends data (w ++ v) fs fs2.
Proof using.
  intros (o&->&_) (o'&->&H). exists o'. rewrite store_set_store, set_open_twice. rewrite <- app_assoc in *. done.
Qed.

Lemma write_all_leads signal fin fuel fd src k ino offset appends data c fs :
  view (cl_session c) fs → fs_open fs !! gf_fd fd = Some (ino, offset, appends) → fs_files fs !! ino = Some data →
  appends = true ∨ offset = zlen data → 0 ≤ k ≤ zlen src → zlen src - k < Z.of_nat fuel →
  leads signal fin (write_all fuel signal fd src k) c (fun r fs' => ∃ w, added (gf_fd fd) ino appends data w fs fs' ∧
    w `prefix_of` drop (Z.to_nat k) src ∧ (is_Some r → w = drop (Z.to_nat k) src)).
Proof using Hposix.
  revert offset data k c fs. induction fuel as [|fuel IH]; intros offset data k c fs Hv Ho Hd Ha Hk Hf; [lia|]. cbn [write_all].
  assert (Hsame : added (gf_fd fd) ino appends data [] fs fs) by by eapply added_here.
  destruct (Z.ltb_spec k (zlen src)) as [Hlt|Hge].
  2:{ eapply leads_ret; [done|]. exists []. split; [done|]. rewrite drop_ge by (unfold zlen in *; lia). done. }
  assert (Hnone : ∃ w, added (gf_fd fd) ino appends data w fs fs ∧ w `prefix_of` drop (Z.to_nat k) src ∧ (is_Some (@None unit) → w = drop (Z.to_nat k) src)).
  { exists []. split_and!; [done|apply prefix_nil|by intros []]. }
  eapply leads_bind; [by apply leads_check| |by intros fs' ->]. intros _ c1 fs1 Hv1 ->.
  set (piece := subarray src k (k + CHUNK)).
  assert (Hp : 0 < zlen piece ≤ CHUNK ∧ piece `prefix_of` drop (Z.to_nat k) src).
  { unfold piece, subarray. split; [|apply prefix_take]. rewrite zlen_take, zlen_drop. unfold CHUNK, zlen in *. lia. }
  eapply leads_bind; [apply leads_session; eapply write_answers; [done..|unfold CHUNK, MAX_BLOB in *; lia]| |by intros fs' ->]. cbv beta iota.
  intros n c2 fs2 Hv2 (Hn&E2). set (v := take (Z.to_nat n) piece) in *.
  assert (Hzv : zlen v = n) by (unfold v; rewrite zlen_take; lia).
  assert (Hadd : added (gf_fd fd) ino appends data v fs fs2) by (exists (zlen data + n); rewrite zlen_app, Hzv; auto).
  assert (Hpre : drop (Z.to_nat k) src = v ++ drop (Z.to_nat (k + n)) src).
  { destruct Hp as (_&rest&Hrest). rewrite Z2Nat.inj_add, <- drop_drop, Hrest by lia.
    replace v with (take (Z.to_nat n) (piece ++ rest)) by (unfold v; rewrite take_app_le; [done|unfold zlen in Hn; lia]). by rewrite take_drop. }
  destruct (Z.eqb_spec n 0) as [E|E].
  - eapply leads_throw; [done|left; eexists; auto|]. exists v. split_and!; [done|rewrite Hpre; by apply prefix_app_r|by intros []].
  - destruct (added_open _ _ _ _ _ _ _ Hadd) as (o'&Ho'&Hd'&Ha'). assert (k + n ≤ zlen src).
    { destruct Hp as [_ Hl%prefix_length]. rewrite length_drop in Hl. unfold zlen in *. lia. }
    eapply leads_weaken; [eapply (IH o'); [done|exact Ho'|exact Hd'|exact Ha'|lia|lia]|].
    intros r fs3 (w&H1&H2&H3). exists (v ++ w). split; [by eapply added_trans|]. rewrite Hpre. split; [by apply prefix_app|].
    intros Hr. f_equal. by apply H3.
Qed.
Lemma leads_assoc {A B C} signal fin (m : M (client P) A) (k : A → M (client P) B) (h : B → M (client P) C) c (Q : option C → filesystem → Prop) :
  leads signal fin (m ≫= fun a => k a ≫= h) c Q → leads signal fin ((m ≫= k) ≫= h) c Q.
Proof using. unfold leads, mbind, M_bind. by destruct (m c) as [[a|e|] c']. Qed.
Lemma leads_look {A} signal fin (k : option exn → M (client P) A) c (Q : option A → filesystem → Prop) :
  leads signal fin (k (signal (cl_looks c))) (c <| cl_looks := S (cl_looks c) |>) Q → leads signal fin (look signal ≫= k) c Q.
Proof using. done. Qed.
Lemma leads_aborted signal fin c fs (Q : option unit → filesystem → Prop) : is_Some (signal (cl_looks c)) → view (cl_session c) fs → Q None fs →
  leads signal fin (throw_if_aborted signal) c Q.
Proof using.
  intros [e He] Hv HQ. apply leads_look. rewrite He. eapply leads_throw; [done| |done]. right. left. by exists (cl_looks c).
Qed.
Lemma leads_catch {A} signal fin (m : M (client P) A) h c (Q : option A → filesystem → Prop) : leads signal fin m c Q →
  (∀ e c' fs, fault errors signal fin e → view (cl_session c') fs → Q None fs → leads signal fin (h e) c' Q) → leads signal fin (catch m h) c Q.
Proof using.
  intros (o&c'&fs'&E&Hv&H) Hh. unfold leads, catch. rewrite E. destruct o as [a|e|]; [by eexists _, _, fs'| |done].
  destruct H as [He HQ]. by apply (Hh e c' fs').
Qed.

(** A signal that was aborted stays so. *)
Definition stays_aborted (signal : abort_signal) : Prop := ∀ k, is_Some (signal k) → is_Some (signal (S k)).
Lemma write_chunks_leads signal fin fuel fd chunks ino offset appends data c fs : stays_aborted signal →
  view (cl_session c) fs → fs_open fs !! gf_fd fd = Some (ino, offset, appends) → fs_files fs !! ino = Some data →
  appends = true ∨ offset = zlen data → Forall (fun chunk => zlen chunk < Z.of_nat fuel) chunks →
  leads signal fin (write_chunks fuel signal fd chunks fin ;; throw_if_aborted signal) c (fun r fs' => ∃ w, added (gf_fd fd) ino appends data w fs fs' ∧
    w `prefix_of` concat chunks ∧ (is_Some r → w = concat chunks)).
Proof using Hposix.
  intros Hs. revert offset data c fs. induction chunks as [|chunk chunks IH]; intros offset data c fs Hv Ho Hd Ha Hf; cbn [write_chunks].
  all: assert (Hsame : added (gf_fd fd) ino appends data [] fs fs) by (by eapply added_here).
  all: assert (Hn : ∀ l, ∃ w, added (gf_fd fd) ino appends data w fs fs ∧ w `prefix_of` l ∧ (is_Some (@None unit) → w = l))
    by (intros l; exists []; split_and!; [done|apply prefix_nil|by intros []]).
  all: apply leads_assoc; eapply leads_bind; [by apply leads_check| |by intros fs' ->]; intros _ c1 fs1 Hv1 ->.
  all: apply leads_assoc, leads_look; destruct (signal (cl_looks c1)) as [reason|] eqn:Er.
  1,3: eapply (leads_aborted signal fin); [apply Hs; by rewrite Er|exact Hv1|by apply Hn].
  - destruct fin as [e|] eqn:Ef.
    + eapply (leads_bind signal _ _ _ _ (fun r fs' => r = None ∧ fs' = fs)).
      * eapply leads_throw; [exact Hv1| |done]. right. right. by left.
      * by intros a c' fs' _ [? _].
      * intros fs' [_ ->]. apply Hn.
    + eapply leads_weaken; [by apply leads_check|]. intros r fs' ->. exists []. split_and!; [done|apply prefix_nil|done].
  - apply Forall_cons in Hf as [Hf1 Hf2]. apply leads_assoc. eapply leads_bind; [eapply (write_all_leads signal fin fuel fd chunk 0); [exact Hv1|done..|pose proof (zlen_nonneg chunk); lia|lia]| |].
    + intros [] c2 fs2 Hv2 (w&Hw&_&E). rewrite drop_0 in E. specialize (E (ex_intro _ tt eq_refl)). subst w.
      destruct (added_open _ _ _ _ _ _ _ Hw) as (o'&Ho'&Hd'&Ha'). eapply leads_weaken; [by eapply (IH o')|].
      intros r fs3 (w&H1&H2&H3). exists (chunk ++ w). split; [by eapply added_trans|]. cbn [concat]. split; [by apply prefix_app|].
      intros Hr. f_equal. by apply H3.
    + intros fs2 (w&Hw&Hp&_). exists w. split; [done|]. rewrite drop_0 in Hp. cbn [concat]. split; [by apply prefix_app_r|by intros []].
Qed.

(** What [fs] becomes when the file that [path] names holds [data]: the file is made
    where there is none, and nothing else changes. *)
Definition holds (path : text) (data : list Z) (fs fs' : filesystem) : Prop :=
  ∃ ino, fs_open fs' = fs_open fs ∧ fs_files fs' = <[ino := data]> (fs_files fs) ∧
    match file_named path fs with
    | Some ino' => ino = ino' ∧ fs_paths fs' = fs_paths fs
    | None => fs_files fs !! ino = None ∧ fs_paths fs' = <[utf8_encode path := ino]> (fs_paths fs)
    end.
Definition contents (path : text) (fs : filesystem) : list Z := default [] (file_named path fs ≫= fun ino => fs_files fs !! ino).

Lemma opened_holds p fs path flags mode : view p fs → (0 ∉ path) → zlen (utf8_encode path) < MAX_BLOB →
  is_Some (file_named path fs) ∨ has_flag flags "CREAT" →
  answers errors view (openat path flags mode) p fs (fun fd fs' => gf_close fd = None ∧ fs_open fs !! gf_fd fd = None ∧
    (is_Some (file_named path fs) → ¬ (has_flag flags "CREAT" ∧ has_flag flags "EXCL")) ∧
    ∃ fs0 ino, fs' = set_open (gf_fd fd) (ino, 0, bool_decide (has_flag flags "APPEND")) fs0 ∧
      fs_files fs0 !! ino = Some (opened_file flags (contents path fs)) ∧ (∀ data, holds path data fs (store_file ino data fs0)) ∧
      match file_named path fs with Some ino' => ino = ino' | None => fs_files fs !! ino = None end ∧
      ∀ j, j ≠ ino → fs_files fs0 !! j = fs_files fs !! j).
Proof using Hposix.
  intros Hv Hp Hl Hn. unfold openat. eapply answers_bind; [apply (px_open _ _ _ Hposix); by eauto|].
  intros [ret out] p' fs' _ (H1&ino&H2). eexists. split; [done|]. cbn [fst gf_fd gf_close guest_fd_new] in *.
  unfold contents, holds. destruct (file_named path fs) as [ino'|] eqn:En.
  - destruct H2 as (Hx&->&->). split_and!; [done|done|done|]. eexists _, ino'. split; [done|]. cbn [mbind option_bind]. split_and!.
    + cbn. by rewrite lookup_insert_eq.
    + intros data. exists ino'. cbn. by rewrite insert_insert_eq.
    + done.
    + intros j Hj. cbn. by rewrite lookup_insert_ne.
  - destruct H2 as (Hx&->). split_and!; [done|done|by intros []|]. eexists _, ino. split; [done|]. cbn [mbind option_bind default]. split_and!.
    + cbn. rewrite lookup_insert_eq. unfold opened_file. by destruct (decide _).
    + intros data. exists ino. cbn. by rewrite insert_insert_eq.
    + done.
    + intros j Hj. cbn. by rewrite lookup_insert_ne.
Qed.
Lemma write_flags_ok options :
  (has_flag (write_flags options) "APPEND" ↔ given (wo_append options) = true) ∧
  (has_flag (write_flags options) "TRUNC" ↔ given (wo_append options) = false) ∧
  (default true (wo_create options) = true ∨ given (wo_createNew options) = true → has_flag (write_flags options) "CREAT") ∧
  (given (wo_createNew options) = true → has_flag (write_flags options) "CREAT" ∧ has_flag (write_flags options) "EXCL").
Proof using.
  clear. destruct options as [a b n mode]. unfold has_flag, write_flags, given. cbn [wo_append wo_create wo_createNew].
  destruct a as [[]|], b as [[]|], n as [[]|]; cbn [default from_option id]; split_and!; vm_compute; try done;
    try (by intros [|]); (split; [by intros|by intros; congruence]).
Qed.
(** What a written file starts with. *)
Definition base (path : text) (options : WriteFileOptions) (fs : filesystem) : list Z :=
  if given (wo_append options) then contents path fs else [].
(** How writing ends: with the file that the data makes; or with a fault, and nothing
    done or a part of it. A file that was there is never taken for a new one. *)
Definition written (path : text) (data : list Z) (options : WriteFileOptions) (fs : filesystem) (all : bool) (fs' : filesystem) : Prop :=
  (all = false ∧ fs' = fs) ∨
  ∃ w, holds path (base path options fs ++ w) fs fs' ∧ w `prefix_of` data ∧ (all = true → w = data) ∧
    (given (wo_createNew options) = true → file_named path fs = None).
Lemma write_file_leads signal fin fuel path chunks options c fs : stays_aborted signal →
  view (cl_session c) fs → (0 ∉ path) → zlen (utf8_encode path) < MAX_BLOB →
  is_Some (file_named path fs) ∨ default true (wo_create options) = true ∨ given (wo_createNew options) = true →
  Forall (fun chunk => zlen chunk < Z.of_nat fuel) chunks →
  leads signal fin (writeFile fuel path chunks fin options signal) c (fun r fs' =>
    written path (concat chunks) options fs (bool_decide (is_Some r)) fs').
Proof using Hposix.
  intros Hs Hv Hp Hl Hn Hf. unfold writeFile. destruct (write_flags_ok options) as (Fa&Ft&Fc&Fx).
  assert (Hsame : written path (concat chunks) options fs (bool_decide (is_Some (@None unit))) fs) by by left.
  eapply leads_bind; [by apply leads_check| |by intros fs' ->]. intros _ c1 fs1 Hv1 ->.
  eapply leads_bind; [apply leads_session; apply opened_holds; [done..|destruct Hn; auto]| |by intros fs' ->].
  cbv beta iota. intros fd c2 fs2 Hv2 (Hc&Ho&Hx&fs0&ino&->&Hd&Hholds&_).
  assert (Hopen : ∀ x, fs_open (store_file ino x fs0) = fs_open fs) by (intros x; by destruct (Hholds x) as (?&?&_)).
  assert (Hbase : opened_file (write_flags options) (contents path fs) = base path options fs).
  { unfold opened_file, base. destruct (decide _) as [E|E]; rewrite Ft in E; destruct (given (wo_append options)); done. }
  rewrite Hbase in Hd. eapply file_using_leads; [done|].
  assert (Ha : bool_decide (has_flag (write_flags options) "APPEND") = true ∨ 0 = zlen (base path options fs)).
  { unfold base. destruct (given (wo_append options)); [left; by apply bool_decide_eq_true, Fa|by right]. }
  assert (Hres : ∀ (r : option unit) w fs', added (gf_fd fd) ino (bool_decide (has_flag (write_flags options) "APPEND")) (base path options fs) w
      (set_open (gf_fd fd) (ino, 0, bool_decide (has_flag (write_flags options) "APPEND")) fs0) fs' →
    w `prefix_of` concat chunks → (is_Some r → w = concat chunks) →
    ∃ fs3 d, fs' = set_open (gf_fd fd) d fs3 ∧ fs_open fs3 !! gf_fd fd = None ∧
      written path (concat chunks) options fs (bool_decide (is_Some r)) fs3 ∧ written path (concat chunks) options fs (bool_decide (is_Some (@None unit))) fs3).
  { intros r w fs' (o&->&_) Hw Hr. exists (store_file ino (base path options fs ++ w) fs0). eexists. split.
    { change (store_file ino ?x (set_open ?f ?d fs0)) with (set_open f d (store_file ino x fs0)). by rewrite set_open_twice. }
    split; [by rewrite Hopen|]. assert (Hnew : given (wo_createNew options) = true → file_named path fs = None).
    { intros Hg. destruct (file_named path fs) as [i|]; [|done]. destruct Hx; [by eexists|]. auto. }
    split; right; exists w; (split_and!; [apply Hholds|done| |done]).
    - intros Hr'%bool_decide_eq_true. auto.
    - done. }
  apply leads_catch.
  - eapply leads_weaken; [eapply write_chunks_leads; [done|exact Hv2|by rewrite open_set|exact Hd|exact Ha|done]|].
    cbv beta. intros r fs' (w&H1&H2&H3). by eapply Hres.
  - intros e c3 fs3 He Hv3 H. eapply leads_bind; [by apply leads_check| |by intros fs' ->]. intros _ c4 fs4 Hv4 ->.
    eapply leads_throw; [exact Hv4|done|exact H].
Qed.
(** ** Copying a file *)
Lemma js_number_small z : 0 ≤ z < 2 ^ 53 → js_number z = z.
Proof using. clear. intros H. unfold js_number. rewrite Z.abs_eq by lia. by destruct (Z.ltb_spec z (2 ^ 53)); [|lia]. Qed.
Lemma stat_spec path c fs : view (cl_session c) fs → (0 ∉ path) → zlen (utf8_encode path) < MAX_BLOB →
  ∃ o c', stat path c = (o, c') ∧ view (cl_session c') fs ∧
    match o with
    | Done info => identifies path fs (fi_dev info) (fi_ino info)
    | Raise e => ∃ errno, errors errno ∧ e = SystemError errno ∧ (error_code errno = Some "ENOENT"%string → file_named path fs = None)
    | Loops => False
    end.
Proof using Hposix.
  intros Hv Hp Hl. destruct (px_stat _ _ _ Hposix (cl_session c) fs path 0 Hv Hp Hl) as (o&p&E&Hv'&H).
  unfold stat, on_session, focus, fstatat64. destruct o as [[ret out]|e|]; [| |done].
  - destruct H as (bytes&st&Hout&Hst&ino&Hd&Hi&Hltd&Hlt&Hf). cbn [snd] in Hout. subst out.
    exists (Done (statToInfo st)), (c <| cl_session := p |>). split.
    { erewrite M_bind_done; [done|]. erewrite M_bind_done by exact E. cbv beta iota. unfold out0. cbn [default head from_option id]. unfold lift. by rewrite Hst. }
    split; [done|]. cbn [statToInfo fi_dev fi_ino]. exists ino. rewrite Hd in Hltd. rewrite Hi in Hlt. rewrite Hd, Hi, !js_number_small by lia. done.
  - exists (Raise e), (c <| cl_session := p |>). split; [|done]. erewrite M_bind_raise; [done|]. by erewrite M_bind_raise by exact E.
Qed.
Lemma added_source fd ino appends data w fd' d d' fs fs' : fd ≠ fd' → added fd ino appends data w (set_open fd' d fs) fs' →
  added fd ino appends data w (set_open fd' d' fs) (set_open fd' d' fs').
Proof using.
  intros Hne (o&->&H). exists o. split; [|done]. unfold set_open, store_file. cbn. f_equal.
  rewrite (insert_insert_ne _ fd fd') by done. by rewrite insert_insert_eq, insert_insert_ne by done.
Qed.
Lemma copy_chunks_leads fuel src dst ino ino' offset appends cur data c fs :
  view (cl_session c) fs → fs_open fs !! gf_fd src = Some (ino, offset, appends) → fs_files fs !! ino = Some data →
  fs_open fs !! gf_fd dst = Some (ino', zlen cur, false) → fs_files fs !! ino' = Some cur → ino ≠ ino' → gf_fd dst ≠ gf_fd src →
  0 ≤ offset → Z.max 0 (zlen data - offset) < Z.of_nat fuel →
  leads no_signal None (copy_chunks fuel src dst) c (fun r fs' => ∃ w offset',
    added (gf_fd dst) ino' false cur w (set_open (gf_fd src) (ino, offset', appends) fs) fs' ∧
    w `prefix_of` drop (Z.to_nat offset) data ∧ (is_Some r → w = drop (Z.to_nat offset) data)).
Proof using Hposix.
  revert offset cur c fs. induction fuel as [|fuel IH]; intros offset cur c fs Hv Ho Hd Ho' Hd' Hne Hfd H0 Hf; [lia|]. cbn [copy_chunks].
  assert (Hsame : ∀ l, ∃ w offset', added (gf_fd dst) ino' false cur w (set_open (gf_fd src) (ino, offset', appends) fs) fs ∧
    w `prefix_of` l ∧ (is_Some (@None unit) → w = l)).
  { intros l. exists [], offset. rewrite set_open_same by done. split_and!; [eapply added_here; eauto|apply prefix_nil|by intros []]. }
  eapply leads_bind; [apply leads_session; by eapply read_answers| |by intros fs' ->]. cbv beta iota.
  intros bytes c1 fs1 Hv1 (Hb&Hz&->). set (fs1 := set_open (gf_fd src) (ino, offset + zlen bytes, appends) fs).
  assert (Ho1 : fs_open fs1 !! gf_fd dst = Some (ino', zlen cur, false)) by (unfold fs1; cbn; rewrite lookup_insert_ne; done).
  destruct (Z.eqb_spec (zlen bytes) 0) as [E|E].
  - eapply leads_ret; [exact Hv1|]. exists [], (offset + zlen bytes). split_and!; [eapply added_here; [exact Ho1|done|by right]|apply prefix_nil|].
    intros _. apply proj1 in Hz. specialize (Hz E). rewrite drop_ge; [done|]. unfold zlen in Hz. lia.
  - pose proof (zlen_nonneg bytes). assert (Hpre : drop (Z.to_nat offset) data = bytes ++ drop (Z.to_nat (offset + zlen bytes)) data).
    { rewrite Hb at 1. unfold subarray. rewrite Z2Nat.inj_add, <- drop_drop by lia.
      replace (Z.to_nat offset + Z.to_nat (zlen bytes) - Z.to_nat offset)%nat with (Z.to_nat (zlen bytes)) by lia. by rewrite take_drop. }
    eapply leads_bind; [eapply (write_all_leads no_signal None _ dst bytes 0); [exact Hv1|exact Ho1|exact Hd'|by right|lia|unfold zlen; lia]| |].
    + intros [] c2 fs2 Hv2 (w&Hw&_&Ew). rewrite drop_0 in Ew. specialize (Ew (ex_intro _ tt eq_refl)). subst w.
      assert (Hw' := Hw). destruct Hw' as (o&->&[?|Ho2]); [done|]. subst o.
      eapply leads_weaken; [eapply (IH (offset + zlen bytes) (cur ++ bytes) c2); [exact Hv2|..]|].
      * cbn. rewrite lookup_insert_ne by done. by rewrite lookup_insert_eq.
      * cbn. by rewrite lookup_insert_ne by done.
      * by rewrite open_set.
      * cbn. by rewrite lookup_insert_eq.
      * done.
      * done.
      * lia.
      * lia.
      * intros r fs3 (w&o&H1&H2&H3). exists (bytes ++ w), o. rewrite Hpre. split; [|split; [by apply prefix_app|intros Hr; f_equal; by apply H3]].
        eapply added_trans; [|exact H1]. by eapply added_source.
    + intros fs2 (w&Hw&Hp&_). exists w, (offset + zlen bytes). rewrite drop_0 in Hp. rewrite Hpre. split_and!; [exact Hw|by apply prefix_app_r|by intros []].
Qed.
Lemma stat_leads path c fs : view (cl_session c) fs → (0 ∉ path) → zlen (utf8_encode path) < MAX_BLOB →
  leads no_signal None (stat path) c (fun r fs' => fs' = fs ∧ from_option (fun info => identifies path fs (fi_dev info) (fi_ino info)) True r).
Proof using Hposix.
  intros Hv Hp Hl. destruct (stat_spec path c fs Hv Hp Hl) as (o&c'&E&Hv'&H). exists o, c', fs. split; [done|]. split; [done|].
  destruct o as [info|e|]; [done| |done]. destruct H as (errno&He&->&_). split; [left; exists errno; auto|done].
Qed.
(** Whether [copyFile] may write: there is no such file, or it is another. *)
Lemma destination_leads path c fs : view (cl_session c) fs → (0 ∉ path) → zlen (utf8_encode path) < MAX_BLOB →
  leads no_signal None (catch (info ← stat path; mret (Some info)) (fun error => if negb (has_code "ENOENT" error) then throw error else mret None)) c
    (fun r fs' => fs' = fs ∧
      match r with
      | Some (Some info) => identifies path fs (fi_dev info) (fi_ino info)
      | Some None => file_named path fs = None
      | None => True
      end).
Proof using Hposix.
  intros Hv Hp Hl. destruct (stat_spec path c fs Hv Hp Hl) as (o&c'&E&Hv'&H). unfold leads, catch. destruct o as [info|e|]; [| |done].
  - erewrite M_bind_done by done. by exists (Done (Some info)), c', fs.
  - erewrite M_bind_raise by done. destruct H as (errno&He&->&H). unfold has_code. case_bool_decide as Hc; cbn [negb].
    + exists (Done None), c', fs. auto.
    + exists (Raise (SystemError errno)), c', fs. split_and!; [done|done|left; exists errno; auto|done|done].
Qed.
(** How copying ends: the copy is the file, or a part of it or what it was. *)
Definition copied (to : text) (data : list Z) (fs : filesystem) (all : bool) (fs' : filesystem) : Prop :=
  (all = false ∧ fs' = fs) ∨
  ∃ w, holds to w fs fs' ∧ (w `prefix_of` data ∨ w = contents to fs) ∧ (all = true → w = data).
Lemma holds_source path data fs fs' fd d : holds path data (set_open fd d fs) fs' → fs_open fs !! fd = None → holds path data fs (closed_fd fd fs').
Proof using. intros (ino&H1&H2&H3) Hn. exists ino. split_and!; [|done|done]. cbn. rewrite H1. cbn. by rewrite delete_insert_id. Qed.
Lemma reopen_source fd d fs : set_open fd d (closed_fd fd fs) = set_open fd d fs.
Proof using. unfold set_open, closed_fd. cbn. by rewrite insert_delete_eq. Qed.
Lemma truncate_answers p fs fd length ino offset appends data : view p fs → fs_open fs !! gf_fd fd = Some (ino, offset, appends) →
  fs_files fs !! ino = Some data → 0 ≤ length < 2 ^ 63 →
  answers errors view (ftruncate64 fd length) p fs (fun _ fs' => fs' = store_file ino (resize data length) fs).
Proof using Hposix.
  intros Hv Ho Hd Hl. unfold ftruncate64. replace (to_u64 length) with length by (symmetry; apply Z.mod_small; lia).
  eapply answers_bind; [by eapply (px_truncate _ _ _ Hposix)|]. intros r p' fs' _ ->. by exists tt.
Qed.
Lemma copy_opened_leads fuel src_fd to c fs ino data : fs_open fs !! gf_fd src_fd = None → fs_files fs !! ino = Some data →
  let fs1 := set_open (gf_fd src_fd) (ino, 0, false) fs in view (cl_session c) fs1 →
  (0 ∉ to) → zlen (utf8_encode to) < MAX_BLOB → file_named to fs ≠ Some ino → zlen data < Z.of_nat fuel →
  leads no_signal None
    (dst_fd ← on_session (openat to (O_ "WRONLY" ||| O_ "CREAT") 0x1b6);
     await_using dst_fd (on_session (ftruncate64 dst_fd 0) ;; copy_chunks fuel src_fd dst_fd)) c
    (fun r fs2 => ∃ fs' d, fs2 = set_open (gf_fd src_fd) d fs' ∧ fs_open fs' = fs_open fs ∧
      copied to data fs (bool_decide (is_Some r)) fs' ∧ copied to data fs (bool_decide (is_Some (@None unit))) fs').
Proof using Hposix.
  intros Hso Hd fs1 Hv Hp Hl Hother Hf.
  assert (Hstop : ∃ fs' d, fs1 = set_open (gf_fd src_fd) d fs' ∧ fs_open fs' = fs_open fs ∧
    copied to data fs (bool_decide (is_Some (@None unit))) fs' ∧ copied to data fs (bool_decide (is_Some (@None unit))) fs').
  { exists fs. eexists. split; [done|]. split; [done|]. split; by left. }
  eapply leads_bind; [apply leads_session; apply opened_holds; [exact Hv|done..|right; discriminate]| |by intros fs' ->]. cbv beta iota.
  intros dst_fd c2 fs2 Hv2 (Hc&Ho&_&fs0&ino'&->&Hd'&Hholds&Hno&Hsame). change (bool_decide (has_flag (O_ "WRONLY" ||| O_ "CREAT") "APPEND")) with false in *.
  change (opened_file _ ?x) with x in Hd'. change (contents to fs1) with (contents to fs) in Hd'. change (fs_files fs1) with (fs_files fs) in *.
  change (file_named to fs1) with (file_named to fs) in Hno.
  assert (Hne : ino ≠ ino') by (intros ->; destruct (file_named to fs); congruence).
  assert (Hfd : gf_fd dst_fd ≠ gf_fd src_fd) by (intros E; rewrite E in Ho; unfold fs1 in Ho; by rewrite open_set in Ho).
  assert (Hd0 : fs_files fs0 !! ino = Some data) by by rewrite Hsame.
  assert (Hopen : fs_open fs0 = fs_open fs1) by (by destruct (Hholds []) as (?&?&_)).
  set (R := fun (r : option unit) fs4 => ∃ fs' d, fs4 = set_open (gf_fd src_fd) d fs' ∧ fs_open fs' = fs_open fs ∧
    copied to data fs (bool_decide (is_Some r)) fs' ∧ copied to data fs (bool_decide (is_Some (@None unit))) fs').
  assert (Hres : ∀ (r : option unit) w d d', w `prefix_of` data ∨ w = contents to fs → (is_Some r → w = data) →
    ∃ fs' d2, set_open (gf_fd dst_fd) d (set_open (gf_fd src_fd) d' (store_file ino' w fs0)) = set_open (gf_fd dst_fd) d2 fs' ∧
      fs_open fs' !! gf_fd dst_fd = None ∧ R r fs' ∧ R None fs').
  { intros r w d d' Hw Hr. eexists _, _. split; [done|]. split; [cbn; rewrite Hopen, lookup_insert_ne; done|].
    assert (Hh : holds to w fs (closed_fd (gf_fd src_fd) (store_file ino' w fs0))) by (eapply holds_source; [apply Hholds|done]).
    assert (Hc' : fs_open (closed_fd (gf_fd src_fd) (store_file ino' w fs0)) = fs_open fs) by (cbn; rewrite Hopen; cbn; by rewrite delete_insert_id).
    split; exists (closed_fd (gf_fd src_fd) (store_file ino' w fs0)), d'; rewrite reopen_source; (split; [done|]); (split; [done|]);
      (split; right; exists w; (split; [exact Hh|]); (split; [done|])); done || (by intros ?%bool_decide_eq_true; apply Hr). }
  eapply (file_using_leads no_signal None dst_fd _ c2 R); [done|].
  eapply leads_bind; [apply leads_session; eapply (truncate_answers _ _ dst_fd 0); [exact Hv2|by rewrite open_set|exact Hd'|done]| |].
  - cbv beta iota. intros _ c3 fs3 Hv3 ->. change (resize _ 0) with (@nil Z) in *.
    eapply leads_weaken; [eapply (copy_chunks_leads fuel src_fd dst_fd ino ino' 0 false [] data c3); [exact Hv3|..]|].
    + cbn. rewrite lookup_insert_ne by done. rewrite Hopen. apply lookup_insert_eq.
    + cbn. by rewrite lookup_insert_ne by done.
    + cbn. apply lookup_insert_eq.
    + cbn. apply lookup_insert_eq.
    + done.
    + done.
    + done.
    + pose proof (zlen_nonneg data). lia.
    + intros r fs' (w&o&(o'&->&_)&Hw&Hr). rewrite drop_0 in Hw, Hr.
      destruct (Hres r w (ino', o', false) (ino, o, false)) as (fs4&d2&E&H); [by left|exact Hr|]. exists fs4, d2. split; [|exact H].
      rewrite <- E. unfold set_open, store_file. cbn. f_equal.
      * by rewrite insert_insert_eq.
      * rewrite (insert_insert_ne _ (gf_fd src_fd)) by done. by rewrite insert_insert_eq.
  - intros fs' ->. destruct (Hres None (contents to fs) (ino', 0, false) (ino, 0, false)) as (fs4&d2&E&H); [by right|by intros []|].
    exists fs4, d2. split; [|exact H]. rewrite <- E, store_same by done. rewrite (set_open_same (gf_fd src_fd)); [done|]. rewrite Hopen. apply open_set.
Qed.
Lemma copy_file_leads fuel from to c fs ino data : view (cl_session c) fs →
  (0 ∉ from) → zlen (utf8_encode from) < MAX_BLOB → (0 ∉ to) → zlen (utf8_encode to) < MAX_BLOB →
  file_named from fs = Some ino → fs_files fs !! ino = Some data → zlen data < Z.of_nat fuel →
  (file_named to fs = Some ino → errors (E "INVAL")) →
  leads no_signal None (copyFile fuel from to) c (fun r fs' => copied to data fs (bool_decide (is_Some r)) fs' ∧
    (file_named to fs = Some ino → r = None ∧ fs' = fs)).
Proof using Hposix.
  intros Hv Hp Hl Hp' Hl' Hn Hd Hf Hinval. unfold copyFile.
  assert (Hstop : ∀ fs', fs' = fs → copied to data fs (bool_decide (is_Some (@None unit))) fs' ∧ (file_named to fs = Some ino → @None unit = None ∧ fs' = fs))
    by (intros fs' ->; split; [by left|done]).
  eapply leads_bind; [by apply stat_leads| |by intros fs' [-> _]; apply Hstop]. cbn [from_option]. intros src c1 fs1 Hv1 [-> (i&Hsd&Hsi&_&_&Hi)].
  rewrite Hn in Hi. subst i. eapply leads_bind; [by apply destination_leads| |by intros fs' [-> _]; apply Hstop].
  intros dst c2 fs2 Hv2 [-> Hdst].
  assert (Hother : if (if dst is Some dst then same_file dst src else false) then file_named to fs = Some ino else file_named to fs ≠ Some ino).
  { destruct dst as [info|]; [|congruence]. destruct Hdst as (i&Hdd&Hdi&_&_&Hi).
    unfold same_file. rewrite Hdd, Hsd, Hdi, Hsi. destruct i as [d n], ino as [d' n']. cbn [fst snd].
    destruct (Z.eqb_spec (Z.of_nat d) (Z.of_nat d')) as [->%Nat2Z.inj|Hne], (Z.eqb_spec (Z.of_nat n) (Z.of_nat n')) as [->%Nat2Z.inj|Hne']; cbn [andb].
    - destruct (file_named to fs) as [x|]; [by f_equal|congruence].
    - intros Hto. rewrite Hto in Hi. congruence.
    - intros Hto. rewrite Hto in Hi. congruence.
    - intros Hto. rewrite Hto in Hi. congruence. }
  destruct (if dst is Some dst then same_file dst src else false); [by eapply leads_throw; [done|left; exists (E "INVAL"); auto|apply Hstop]|].
  change (file_named to fs ≠ Some ino) in Hother. clear dst Hdst. assert (Hq : ∀ (r : option unit) fs', copied to data fs (bool_decide (is_Some r)) fs' →
    copied to data fs (bool_decide (is_Some r)) fs' ∧ (file_named to fs = Some ino → r = None ∧ fs' = fs)) by done.
  eapply leads_bind; [apply leads_session; by eapply opened_answers| |by intros fs' ->; apply Hstop]. cbv beta iota.
  intros src_fd c3 fs3 Hv3 (Hc&Ho&->). change (opened_file _ data) with data in *. rewrite (store_same ino data fs) in * by done.
  change (bool_decide (has_flag (O_ "RDONLY") "APPEND")) with false in *. eapply leads_weaken; [|intros r fs'; apply Hq].
  eapply file_using_leads; [done|]. eapply leads_weaken; [by eapply copy_opened_leads|]. intros r fs2 (fs'&d&E&Hopen&H). exists fs', d. by rewrite Hopen.
Qed.
End files.

(** A refusal of the client's own, or a fault. *)
Lemma refusal (errors : Z → Prop) (same : Prop) signal fin e :
  fault (fun errno => errors errno ∨ (same ∧ errno = E "INVAL")) signal fin e →
  (same ∧ e = SystemError (E "INVAL")) ∨ fault errors signal fin e.
Proof.
  intros [(errno&[[He|[Hs ->]]|He]&->)|H]; [right; left; exists errno; auto|by left|right; left; exists errno; auto|right; by right].
Qed.

(** * Over the wire *)
Section wire.
Context {W : Type} `{!Kernel W} `{!KernelOk W} (errors : Z → Prop) (view : W → filesystem → Prop) (Hposix : posix errors call_kernel view).

(** A lane that serves a kernel with such files, and has no request under way. *)
Definition lane_view (l : lane W) (fs : filesystem) : Prop := ∃ w, l = idle_lane w ∧ view w fs.
Lemma lane_answers number args l fs good : (∀ w, view w fs → answers errors view (call_kernel number args) w fs good) →
  0 ≤ number < 2 ^ 32 → (length args ≤ 6)%nat → Forall arg_ok args → lane_view l fs → answers errors lane_view (syscall number args) l fs good.
Proof using KernelOk0.
  intros H Hn Hl Ha (w&->&Hv). destruct (H w Hv) as (o&w'&E&Ho). exists o, (idle_lane w'). rewrite syscall_lane, E by done. split; [done|].
  destruct o as [a|e|]; [|destruct Ho as [Hw He]|done].
  - destruct Ho as (fs'&Hv'&Hg). exists fs'. split; [by exists w'|done].
  - split; [by exists w'|done].
Qed.
Lemma arg_path path : zlen (utf8_encode path) < MAX_BLOB → arg_ok (c_string path).
Proof using. intros H. cbn. unfold utf8_encode in *. rewrite bind_app, zlen_app. change (zlen ([0] ≫= utf8_encode_point)) with 1. lia. Qed.
Lemma lane_posix : posix errors syscall lane_view.
Proof using Hposix KernelOk0.
  split.
  - intros l fs path flags mode Hv Hp Hl Hn. apply lane_answers; [|split; [discriminate|reflexivity]|cbn; lia| |done].
    + intros w Hw. by apply (px_open _ _ _ Hposix).
    + repeat constructor. by apply arg_path.
  - intros l fs fd capacity ino offset appends data Hv Ho Hd Hc. apply lane_answers; [|split; [discriminate|reflexivity]|cbn; lia| |done].
    + intros w Hw. by eapply (px_read _ _ _ Hposix).
    + repeat constructor; cbn; lia.
  - intros l fs fd bytes ino offset appends data Hv Ho Hd Hb. apply lane_answers; [|split; [discriminate|reflexivity]|cbn; lia| |done].
    + intros w Hw. by eapply (px_write _ _ _ Hposix).
    + repeat constructor; cbn; lia.
  - intros l fs fd ino offset appends data length Hv Ho Hd Hb. apply lane_answers; [|split; [discriminate|reflexivity]|cbn; lia| |done].
    + intros w Hw. by eapply (px_truncate _ _ _ Hposix).
    + repeat constructor.
  - intros l fs path flags (w&->&Hv) Hp Hl. destruct (px_stat _ _ _ Hposix w fs path flags Hv Hp Hl) as (o&w'&E&Hv'&H). exists o, (idle_lane w').
    rewrite syscall_lane, E; [split_and!; [done|by exists w'|done]|split; [discriminate|reflexivity]|cbn; lia|].
    repeat constructor; [by apply arg_path|discriminate..].
  - intros l fs fd (w&->&Hv) Ho. destruct (px_close _ _ _ Hposix w fs fd Hv Ho) as (o&w'&E&Hv'&H). exists o, (idle_lane w').
    rewrite syscall_lane, E; [split_and!; [done|by exists w'|done]|split; [discriminate|reflexivity]|cbn; lia|repeat constructor].
Qed.

Lemma wire_leads {A} signal fin (m : M (client (lane W)) A) w k Q : leads errors lane_view signal fin m (Client (idle_lane w) k) Q →
  ∃ o w' k' fs', m (Client (idle_lane w) k) = (o, Client (idle_lane w') k') ∧ view w' fs' ∧
    match o with Done a => Q (Some a) fs' | Raise e => fault errors signal fin e ∧ Q None fs' | Loops => False end.
Proof using. intros (o&[l k']&fs'&E&(w'&Hl&Hv)&H). cbn in Hl. subst l. by exists o, w', k', fs'. Qed.

(** C9: [readFile] reads the file: for a path without a NUL, over the wire, from a kernel whose reads may be
    short and whose calls may fail, it gives exactly what the file holds, or a fault;
    and either way nothing stays open and the files are as they were. *)
Theorem read_file_contents fuel path signal k w fs ino data :
  view w fs → (0 ∉ path) → zlen (utf8_encode path) < MAX_BLOB → file_named path fs = Some ino → fs_files fs !! ino = Some data →
  zlen data < Z.of_nat fuel →
  ∃ o w' k', readFile fuel path signal (Client (idle_lane w) k) = (o, Client (idle_lane w') k') ∧ view w' fs ∧
    match o with Done bytes => bytes = data | Raise e => fault errors signal None e | Loops => False end.
Proof using Hposix KernelOk0.
  intros Hv Hp Hl Hn Hd Hf.
  destruct (wire_leads signal None _ w k _ (read_file_leads _ _ lane_posix None fuel path signal (Client (idle_lane w) k) fs ino data
    ltac:(by exists w) Hp Hl Hn Hd Hf)) as (o&w'&k'&fs'&E&Hv'&H).
  exists o, w', k'. destruct o as [bytes|e|]; [destruct H as [-> H]|destruct H as [He [-> _]]|done]; by subst.
Qed.

(** C10: [writeFile] writes the file: for a path without a NUL that fits a request,
    whatever chunks the data comes in and however short the kernel's writes are, when it
    succeeds the file holds exactly the data, or what it held and then the data when it
    appends, and with [createNew] no file was there; when it fails, nothing was done or a
    part of the data is there. Nothing stays open and no other file changes. *)
Theorem write_file_contents fuel path chunks fin options signal k w fs :
  stays_aborted signal → view w fs → (0 ∉ path) → zlen (utf8_encode path) < MAX_BLOB →
  is_Some (file_named path fs) ∨ default true (wo_create options) = true ∨ given (wo_createNew options) = true →
  Forall (fun chunk => zlen chunk < Z.of_nat fuel) chunks →
  ∃ o w' k' fs', writeFile fuel path chunks fin options signal (Client (idle_lane w) k) = (o, Client (idle_lane w') k') ∧ view w' fs' ∧
    match o with
    | Done _ => written path (concat chunks) options fs true fs'
    | Raise e => fault errors signal fin e ∧ written path (concat chunks) options fs false fs'
    | Loops => False
    end.
Proof using Hposix KernelOk0.
  intros Hs Hv Hp Hl Hn Hf.
  destruct (wire_leads signal fin _ w k _ (write_file_leads _ _ lane_posix signal fin fuel path chunks options (Client (idle_lane w) k) fs
    Hs ltac:(by exists w) Hp Hl Hn Hf)) as (o&w'&k'&fs'&E&Hv'&H).
  exists o, w', k', fs'. split; [done|]. split; [done|]. by destruct o.
Qed.

End wire.

(** C35: [copyFile] makes a copy, and never of a file onto itself: when it succeeds the
    two are different files (on one device or two, whose numbers are below 2^53), and
    the copy holds what the first does, which has not changed. It refuses with EINVAL, and nothing changes, when both
    paths name one file, and only then: between different files it fails only as the
    kernel's calls do, and the copy is then as it was, or a part. *)
Theorem copy_file_contents {W} `{!Kernel W} `{!KernelOk W} (errors : Z → Prop) (view : W → filesystem → Prop) fuel from to k w fs ino data :
  posix errors call_kernel view →
  view w fs → (0 ∉ from) → zlen (utf8_encode from) < MAX_BLOB → (0 ∉ to) → zlen (utf8_encode to) < MAX_BLOB →
  file_named from fs = Some ino → fs_files fs !! ino = Some data → zlen data < Z.of_nat fuel →
  ∃ o w' k' fs', copyFile fuel from to (Client (idle_lane w) k) = (o, Client (idle_lane w') k') ∧ view w' fs' ∧
    match o with
    | Done _ => file_named to fs ≠ Some ino ∧ holds to data fs fs'
    | Raise e =>
        if decide (file_named to fs = Some ino) then fs' = fs ∧ (e = SystemError (E "INVAL") ∨ fault errors no_signal None e)
        else copied to data fs false fs' ∧ fault errors no_signal None e
    | Loops => False
    end.
Proof.
  intros Hposix Hv Hp Hl Hp' Hl' Hn Hd Hf.
  set (errors' := fun errno => errors errno ∨ (file_named to fs = Some ino ∧ errno = E "INVAL")).
  assert (Hposix' : posix errors' call_kernel view) by (eapply posix_errors; [|exact Hposix]; by left).
  destruct (wire_leads errors' view no_signal None _ w k _ (copy_file_leads _ _ (lane_posix _ _ Hposix') fuel from to (Client (idle_lane w) k) fs ino data
    ltac:(by exists w) Hp Hl Hp' Hl' Hn Hd Hf ltac:(by right))) as (o&w'&k'&fs'&E&Hv'&H).
  exists o, w', k', fs'. split; [done|]. split; [done|]. destruct o as [u|e|]; [|destruct H as (He&Hc&Hs)|done].
  - destruct H as [H Hs]. change (bool_decide (is_Some (Some u))) with true in H. destruct H as [[? _]|(v&Hh&_&Hw)]; [done|].
    rewrite (Hw eq_refl) in Hh. split; [|done]. by intros [? _]%Hs.
  - apply refusal in He. destruct (decide _) as [Ht|Ht].
    + split; [by apply Hs|]. destruct He as [[_ He]|He]; auto.
    + split; [exact Hc|]. destruct He as [[? _]|He]; done.
Qed.

(** * A kernel of files

    Its reads give at most three bytes, its writes take at most five; new files are on
    its device 0. *)
Definition OPEN_MAX : Z := 1024.
Definition blank (args : list karg) : list (list Z) := zeros <$> buffers args.
Definition free_fd (w : filesystem) : option Z := head (filter (fun fd => fs_open w !! fd = None) (seqZ 3 (OPEN_MAX - 3))).
Definition stat_value (ino : file_id) : value := Obj ((fun kt => (kt.1, Num (if String.eqb kt.1 "st_dev" then Z.of_nat ino.1 else if String.eqb kt.1 "st_ino" then Z.of_nat ino.2 else 0))) <$> stat_layout).
Definition stat_bytes (ino : file_id) : list Z := enc Stat (stat_value ino).
Definition answered : Type := (Z * list (list Z) * filesystem) + Z.
Definition fresh_file (w : filesystem) : file_id := (0%nat, fresh (set_map snd (dom (fs_files w)) : gset nat)).
Lemma fresh_file_new w : fs_files w !! fresh_file w = None.
Proof.
  apply not_elem_of_dom. intros H. apply (is_fresh (set_map snd (dom (fs_files w)) : gset nat)).
  apply elem_of_map. by exists (fresh_file w).
Qed.
Definition open_call (path : list Z) (flags : Z) (w : filesystem) : answered :=
  let appends := bool_decide (has_flag flags "APPEND") in
  match free_fd w, fs_paths w !! path with
  | None, _ => inr 24
  | Some fd, Some ino =>
      if decide (has_flag flags "CREAT" ∧ has_flag flags "EXCL") then inr (E "EXIST")
      else inl (fd, [], set_open fd (ino, 0, appends) (store_file ino (opened_file flags (default [] (fs_files w !! ino))) w))
  | Some fd, None =>
      if decide (has_flag flags "CREAT") then
        let ino := fresh_file w in
        inl (fd, [], set_open fd (ino, 0, appends) (FileSystem (<[ino := []]> (fs_files w)) (<[path := ino]> (fs_paths w)) (fs_open w)))
      else inr (E "NOENT")
  end.
Definition with_open (fd : Z) (w : filesystem) (k : file_id → Z → bool → list Z → answered) : answered :=
  match fs_open w !! fd with
  | None => inr (E "BADF")
  | Some (ino, offset, appends) => k ino offset appends (default [] (fs_files w !! ino))
  end.
Definition read_call (fd capacity : Z) (w : filesystem) : answered := with_open fd w (fun ino offset appends data =>
  let bytes := take (Z.to_nat (Z.min 3 capacity)) (drop (Z.to_nat offset) data) in
  inl (zlen bytes, [bytes ++ zeros (capacity - zlen bytes)], set_open fd (ino, offset + zlen bytes, appends) w)).
Definition write_call (fd : Z) (bytes : list Z) (w : filesystem) : answered := with_open fd w (fun ino offset appends data =>
  let bytes := take 5 bytes in
  let at_ := if appends then zlen data else offset in
  inl (zlen bytes, [], set_open fd (ino, at_ + zlen bytes, appends) (store_file ino (overwrite data at_ bytes) w))).
Definition truncate_call (fd length : Z) (w : filesystem) : answered := with_open fd w (fun ino _ _ data =>
  inl (0, [], store_file ino (resize data length) w)).
Definition close_call (fd : Z) (w : filesystem) : answered := with_open fd w (fun _ _ _ _ => inl (0, [], closed_fd fd w)).
Definition stat_call (path : list Z) (capacity : Z) (w : filesystem) : answered :=
  match fs_paths w !! path with
  | None => inr (E "NOENT")
  | Some ino => if ((Z.of_nat ino.1 <? 2 ^ 53) && (Z.of_nat ino.2 <? 2 ^ 53) && (capacity =? stat_size))%bool then inl (0, [stat_bytes ino], w) else inr (E "OVERFLOW")
  end.
Definition is_number (a : karg) : bool := match a with KNumber _ => true | _ => false end.
Definition file_call (number : Z) (args : list karg) (w : filesystem) : answered :=
  match args with
  | a :: b :: c :: rest =>
      if negb (forallb is_number rest) then inr (E "NOSYS")
      else match a, b, c with
      | KNumber fd, KIn bytes, KNumber flags =>
          if number =? NR "openat" then open_call (until_nul bytes) flags w
          else if number =? NR "write" then write_call fd bytes w
          else inr (E "NOSYS")
      | KNumber fd, KOut capacity, KNumber _ => if number =? NR "read" then read_call fd capacity w else inr (E "NOSYS")
      | KNumber fd, KNumber low, KNumber high =>
          if number =? NR "ftruncate64" then truncate_call fd (high * 2 ^ 32 + low) w
          else if number =? NR "close" then close_call fd w
          else inr (E "NOSYS")
      | KNumber _, KIn path, KOut capacity =>
          if number =? NR "fstatat64" then stat_call (until_nul path) capacity w else inr (E "NOSYS")
      | _, _, _ => inr (E "NOSYS")
      end
  | _ => inr (E "NOSYS")
  end.
#[export] Instance file_kernel : Kernel filesystem := {
  k_syscall number args w :=
    match file_call number args w with
    | inl (ret, outs, w') => (ret, 0, outs, w')
    | inr errno => (-1, errno, blank args, w)
    end;
  k_spawn argv cwd envp w := (inl (E "NOSYS"), w);
  k_reap pid w := Some (inl (E "SRCH"), w) }.
(** The errors that it gives: EINVAL is not among them. *)
Definition file_errors (errno : Z) : Prop := errno ∈ [24; E "NOENT"; E "EXIST"; E "BADF"; E "OVERFLOW"; E "NOSYS"].
(** The descriptors that it gives out. *)
Definition fds_ok (fs : filesystem) : Prop := map_Forall (fun fd d => 0 ≤ fd < OPEN_MAX ∧ 0 ≤ d.1.2) (fs_open fs).
Definition file_view (w fs : filesystem) : Prop := w = fs ∧ fds_ok fs.
Lemma free_fd_spec w fd : free_fd w = Some fd → 3 ≤ fd < OPEN_MAX ∧ fs_open w !! fd = None.
Proof.
  unfold free_fd. intros H. apply head_Some_elem_of in H. apply list_elem_of_filter in H as [H1 H2]. apply elem_of_seqZ in H2. unfold OPEN_MAX in *. split; [lia|done].
Qed.
(** What an answer is, for the buffers that it was asked for. *)
Definition answer_fits (capacities : list Z) (r : answered) : Prop :=
  match r with
  | inl (ret, outs, _) => - 2 ^ 31 ≤ ret < 2 ^ 31 ∧ zlen <$> outs = capacities
  | inr errno => 0 ≤ errno < 2 ^ 32
  end.
Lemma with_open_fits capacities fd w k : (∀ ino offset appends data, answer_fits capacities (k ino offset appends data)) →
  answer_fits capacities (with_open fd w k).
Proof. intros H. unfold with_open. destruct (fs_open w !! fd) as [[[ino offset] appends]|]; [apply H|]. vm_compute. done. Qed.
Lemma open_call_fits path flags w : answer_fits [] (open_call path flags w).
Proof.
  unfold open_call. destruct (free_fd w) as [fd|] eqn:E; [|by vm_compute]. apply free_fd_spec in E as [E _].
  destruct (fs_paths w !! path); destruct (decide _); first [split; [unfold OPEN_MAX in E; lia|done]|by vm_compute].
Qed.
Lemma read_call_fits fd capacity w : 0 ≤ capacity → answer_fits [capacity] (read_call fd capacity w).
Proof.
  intros Hc. apply with_open_fits. intros ino offset appends data. cbn [answer_fits]. set (bytes := take _ _).
  assert (0 ≤ zlen bytes ≤ Z.min 3 capacity) by (split; [apply zlen_nonneg|]; unfold bytes; rewrite zlen_take; lia).
  split; [lia|]. cbn. rewrite zlen_app, zlen_zeros by lia. do 2 f_equal. lia.
Qed.
Lemma write_call_fits fd bytes w : answer_fits [] (write_call fd bytes w).
Proof.
  apply with_open_fits. intros ino offset appends data. cbn [answer_fits]. split; [|done].
  pose proof (zlen_nonneg (take 5 bytes)). assert (zlen (take 5 bytes) ≤ 5) by (unfold zlen; rewrite length_take; lia). lia.
Qed.
Lemma stat_typed ino : Z.of_nat ino.1 < 2 ^ 53 → Z.of_nat ino.2 < 2 ^ 53 → typed Stat (stat_value ino) = true.
Proof.
  intros H1 H2. unfold Stat, stat_value, stat_layout. cbn [Abi.stat define_struct fst fmap list_fmap snd String.eqb Ascii.eqb Bool.eqb].
  typed_struct; try (by apply typed_i64le); try lia; try reflexivity.
Qed.
Lemma zlen_stat ino : Z.of_nat ino.1 < 2 ^ 53 → Z.of_nat ino.2 < 2 ^ 53 → zlen (stat_bytes ino) = stat_size.
Proof. intros H1 H2. unfold stat_bytes. by rewrite zlen_enc by by apply stat_typed. Qed.
Lemma truncate_call_fits fd length w : answer_fits [] (truncate_call fd length w).
Proof. apply with_open_fits. by intros. Qed.
Lemma close_call_fits fd w : answer_fits [] (close_call fd w).
Proof. apply with_open_fits. by intros. Qed.
Lemma stat_call_fits path capacity w : answer_fits [capacity] (stat_call path capacity w).
Proof.
  unfold stat_call. destruct (fs_paths w !! path); [|by vm_compute]. destruct (_ && _)%bool eqn:E; [|by vm_compute].
  apply andb_true_iff in E as [[E1%Z.ltb_lt E2%Z.ltb_lt]%andb_true_iff ->%Z.eqb_eq]. split; [done|]. cbn [fmap list_fmap]. by rewrite zlen_stat.
Qed.
Lemma file_call_fits number args w : Forall (fun capacity => 0 ≤ capacity) (buffers args) → answer_fits (buffers args) (file_call number args w).
Proof.
  intros Hb. assert (Hno : ∀ l, answer_fits l (inr (E "NOSYS"))) by by intros l; vm_compute.
  unfold file_call. destruct args as [|a [|b [|c rest]]]; try apply Hno. destruct (forallb is_number rest) eqn:Er; cbn [negb]; [|apply Hno].
  assert (Hr : buffers rest = []).
  { clear -Er. induction rest as [|x rest IH]; [done|]. cbn in Er. apply andb_true_iff in Er as [Ex Er]. unfold buffers in *. destruct x; try done. by apply IH. }
  assert (E : buffers (a :: b :: c :: rest) = buffers [a; b; c]) by (unfold buffers in *; change (a :: b :: c :: rest) with ([a; b; c] ++ rest); by rewrite omap_app, Hr, app_nil_r).
  rewrite E in *. destruct a as [fd|?|?]; [|apply Hno..]. destruct b as [low|bytes|capacity], c as [high|?|capacity']; try apply Hno.
  - destruct (_ =? _); [apply truncate_call_fits|]. destruct (_ =? _); [apply close_call_fits|apply Hno].
  - destruct (_ =? _); [apply open_call_fits|]. destruct (_ =? _); [apply write_call_fits|apply Hno].
  - destruct (_ =? _); [apply stat_call_fits|apply Hno].
  - destruct (_ =? _); [|apply Hno]. apply read_call_fits. by inversion Hb.
Qed.
#[export] Instance file_kernel_ok : KernelOk filesystem.
Proof.
  split.
  - intros number args w ret errno outs w' Hb E. cbn in E. pose proof (file_call_fits number args w Hb) as H.
    destruct (file_call number args w) as [[[r o] w2]|e]; injection E as <- <- <- <-.
    + destruct H as [H1 H2]. done.
    + split; [done|]. split; [exact H|]. unfold blank. clear -Hb. induction Hb as [|c l Hc _ IH]; [done|]. cbn. rewrite IH. by rewrite zlen_zeros.
  - intros argv cwd envp w r w' E. cbn in E. injection E as <- <-. vm_compute. done.
  - intros pid w r w' E. cbn in E. injection E as <- <-. vm_compute. done.
Qed.

(** ** It keeps the promises *)
Definition errors_ok (r : answered) : Prop := match r with inr errno => file_errors errno | inl _ => True end.
Lemma file_errs number args w : errors_ok (file_call number args w).
Proof.
  assert (Hlit : ∀ n, (if decide (file_errors n) then true else false) = true → errors_ok (inr n)) by (intros n; by case_decide).
  assert (Ho : ∀ fd k, (∀ i o a d, errors_ok (k i o a d)) → errors_ok (with_open fd w k)).
  { intros fd k Hk. unfold with_open. destruct (fs_open w !! fd) as [[[i o] a]|]; [apply Hk|]. by apply Hlit; vm_compute. }
  unfold file_call. destruct args as [|a [|b [|c rest]]]; try (by apply Hlit; vm_compute).
  destruct (negb _); [by apply Hlit; vm_compute|].
  destruct a, b, c; try (by apply Hlit; vm_compute); repeat (destruct (_ =? _)); try (by apply Hlit; vm_compute); try (by apply Ho; intros).
  - unfold open_call. destruct (free_fd w); [|by apply Hlit; vm_compute].
    destruct (fs_paths w !! _); destruct (decide _); try done; by apply Hlit; vm_compute.
  - unfold stat_call. destruct (fs_paths w !! _); [destruct (_ && _)%bool|]; try done; by apply Hlit; vm_compute.
Qed.
Definition as_u32 (z : Z) : Z := to_u32 (to_u64 z).
Lemma as_u32_land z : as_u32 z = Z.land z (Z.ones 32).
Proof. unfold as_u32, to_u32, to_u64. rewrite Z.land_ones by lia. apply Z.mod_mod_divide. by exists (2 ^ 32). Qed.
Lemma as_u32_id z : 0 ≤ z < 2 ^ 32 → as_u32 z = z.
Proof. intros H. rewrite as_u32_land, Z.land_ones by lia. by apply Z.mod_small. Qed.
Lemma has_flag_u32 flags name : Z.ones 32 &&& O_ name = O_ name → has_flag (as_u32 flags) name ↔ has_flag flags name.
Proof. intros H. unfold has_flag. by rewrite as_u32_land, <- Z.land_assoc, H. Qed.
Lemma opened_file_u32 flags data : opened_file (as_u32 flags) data = opened_file flags data.
Proof. unfold opened_file. assert (H := has_flag_u32 flags "TRUNC" eq_refl). destruct (decide _), (decide _); tauto. Qed.
Lemma path_bytes path : (0 ∉ path) → until_nul (utf8_encode (path ++ [0])) = utf8_encode path.
Proof.
  intros Hp. unfold utf8_encode. rewrite bind_app. change ([0] ≫= utf8_encode_point) with [0]. apply until_nul_name.
  intros (c&Hc&Hin)%list_elem_of_bind. assert (c ≠ 0) by (by intros ->). clear -Hc H. unfold utf8_encode_point in Hc.
  destruct (Z.ltb_spec c 0x80); [apply list_elem_of_singleton in Hc; lia|].
  assert (∀ a b, 0 ≤ a → 0 < b → 0 ≤ a / b) as Hdiv by (intros; by apply Z.div_pos).
  pose proof (Hdiv c 64). pose proof (Hdiv c 4096). pose proof (Hdiv c 262144).
  pose proof (Z.mod_pos_bound c 64 ltac:(lia)). pose proof (Z.mod_pos_bound (c / 64) 64 ltac:(lia)). pose proof (Z.mod_pos_bound (c / 4096) 64 ltac:(lia)).
  repeat case_match; rewrite ?elem_of_cons, elem_of_nil in Hc; lia.
Qed.

Lemma call_file number args (w : filesystem) : call_kernel number args w =
  match file_call number (kargs args) w with
  | inl (ret, outs, w') => (if ret =? -1 then Raise (SystemError 0)
      else Done (ret, zip_with (fun spec out => take (Z.to_nat (out_length ret spec)) out) (args ≫= arg_out) outs), w')
  | inr errno => (Raise (SystemError errno), w)
  end.
Proof. unfold call_kernel. cbn [k_syscall file_kernel]. destruct (file_call _ _ _) as [[[ret outs] w']|errno]; done. Qed.
Lemma file_answers number args w fs good : file_view w fs →
  match file_call number (kargs args) w with
  | inl (ret, outs, w') => 0 ≤ ret ∧ fds_ok w' ∧
      good (ret, zip_with (fun spec out => take (Z.to_nat (out_length ret spec)) out) (args ≫= arg_out) outs) w'
  | inr _ => True
  end → answers file_errors file_view (call_kernel number args) w fs good.
Proof.
  intros [-> Hok] H. unfold answers. rewrite call_file. pose proof (file_errs number (kargs args) fs) as He. destruct (file_call _ _ _) as [[[ret outs] w']|errno].
  - destruct H as (H0&Hok'&Hg). destruct (Z.eqb_spec ret (-1)); [lia|]. eexists _, w'. split; [done|]. exists w'. done.
  - eexists _, fs. split; [done|]. split; [done|]. exists errno. split; [exact He|done].
Qed.
Lemma take_length_take {A} n (l : list A) : take (length (take n l)) l = take n l.
Proof. rewrite length_take. destruct (Nat.min_spec n (length l)) as [[_ ->]|[H ->]]; [done|]. by rewrite !take_ge by lia. Qed.
Lemma fds_set_open fd d fs : fds_ok fs → 0 ≤ fd < OPEN_MAX → 0 ≤ d.1.2 → fds_ok (set_open fd d fs).
Proof. intros H H1 H2. unfold fds_ok. cbn. by apply map_Forall_insert_2. Qed.
Lemma fds_open fd ino offset appends fs : fds_ok fs → fs_open fs !! fd = Some (ino, offset, appends) → 0 ≤ fd < OPEN_MAX ∧ 0 ≤ offset ∧ as_u32 fd = fd.
Proof. intros H Ho. destruct (H fd _ Ho) as [H1 H2]. split; [done|]. split; [done|]. apply as_u32_id. unfold OPEN_MAX in *. lia. Qed.
Lemma file_posix : posix file_errors call_kernel file_view.
Proof.
  split.
  - intros w fs path flags mode Hv Hp Hl Hn. apply file_answers; [done|]. destruct Hv as [-> Hok].
    change (kargs _) with [KNumber (as_u32 (AT "FDCWD")); KIn (utf8_encode (path ++ [0])); KNumber (as_u32 flags); KNumber (as_u32 mode); KNumber 0; KNumber 0].
    unfold file_call. cbn [forallb is_number negb andb]. rewrite Z.eqb_refl, path_bytes by done. unfold open_call.
    destruct (free_fd fs) as [fd|] eqn:Ef; [|done]. apply free_fd_spec in Ef as [Ef1 Ef2].
    assert (Hflag : ∀ name, Z.ones 32 &&& O_ name = O_ name → bool_decide (has_flag (as_u32 flags) name) = bool_decide (has_flag flags name))
      by (intros name Hname; apply bool_decide_ext; by apply has_flag_u32).
    rewrite Hflag by done. change (fs_paths fs !! utf8_encode path) with (file_named path fs). destruct (file_named path fs) as [ino|] eqn:En.
    + destruct (decide _) as [?|Hx]; [done|]. split; [lia|]. split; [apply (fds_set_open fd _ (store_file _ _ fs)); [done|lia|done]|].
      split; [done|]. exists ino. rewrite opened_file_u32. split_and!; [|done|done]. by rewrite <- !(has_flag_u32 flags) by done.
    + destruct (decide _) as [Hc|?]; [|done]. split; [lia|]. split; [apply (fds_set_open fd _ (FileSystem _ _ (fs_open fs))); [done|lia|done]|].
      split; [done|]. eexists. split; [|done]. apply fresh_file_new.
  - intros w fs fd capacity ino offset appends data Hv Ho Hd Hc. apply file_answers; [done|]. destruct Hv as [-> Hok].
    destruct (fds_open _ _ _ _ _ Hok Ho) as (Hfd&H0&Hu).
    change (kargs _) with [KNumber (as_u32 (gf_fd fd)); KOut capacity; KNumber (as_u32 capacity); KNumber 0; KNumber 0; KNumber 0].
    unfold file_call. cbn [forallb is_number negb andb]. rewrite Z.eqb_refl, Hu. unfold read_call, with_open. rewrite Ho, Hd. cbn [default from_option id].
    set (bytes := take _ _). assert (Hb : zlen bytes = Z.min (Z.min 3 capacity) (Z.max 0 (zlen data - offset))).
    { unfold bytes. rewrite zlen_take, zlen_drop by lia. pose proof (zlen_nonneg data). lia. }
    pose proof (zlen_nonneg data). split; [lia|]. split; [apply fds_set_open; [done..|cbn; lia]|]. cbn [fst snd]. split; [lia|]. split; [lia|]. split; [lia|].
    split; [|done]. cbn [arg_out mbind list_bind app zip_with]. f_equal.
    assert (E : out_length (zlen bytes) (capacity, true) = zlen bytes) by (unfold out_length; cbn; lia). rewrite E, zlen_to_nat, take_app_length.
    unfold subarray. rewrite Z2Nat.inj_add by (apply zlen_nonneg || lia).
    replace (Z.to_nat offset + Z.to_nat (zlen bytes) - Z.to_nat offset)%nat with (length bytes) by (rewrite zlen_to_nat; lia).
    symmetry. apply take_length_take.
  - intros w fs fd bytes ino offset appends data Hv Ho Hd Hb. apply file_answers; [done|]. destruct Hv as [-> Hok].
    destruct (fds_open _ _ _ _ _ Hok Ho) as (Hfd&H0&Hu).
    change (kargs _) with [KNumber (as_u32 (gf_fd fd)); KIn bytes; KNumber (as_u32 (zlen bytes)); KNumber 0; KNumber 0; KNumber 0].
    unfold file_call. cbn [forallb is_number negb andb]. change (NR "write" =? NR "openat") with false. rewrite Z.eqb_refl, Hu.
    unfold write_call, with_open. rewrite Ho, Hd. cbn [default from_option id]. pose proof (zlen_nonneg (take 5 bytes)). pose proof (zlen_nonneg data).
    split; [done|]. split; [apply (fds_set_open (gf_fd fd) _ (store_file _ _ fs)); [done..|cbn; destruct appends; lia]|]. cbn [fst snd].
    split; [split; [done|]; unfold zlen; rewrite length_take; lia|]. replace (take (Z.to_nat (zlen (take 5 bytes))) bytes) with (take 5 bytes); [done|].
    rewrite zlen_to_nat. symmetry. apply take_length_take.
  - intros w fs fd ino offset appends data length Hv Ho Hd Hl. apply file_answers; [done|]. destruct Hv as [-> Hok].
    destruct (fds_open _ _ _ _ _ Hok Ho) as (Hfd&H0&Hu).
    change (kargs _) with [KNumber (as_u32 (gf_fd fd)); KNumber (as_u32 (length &&& 0xffffffff)); KNumber (as_u32 (length >>> 32)); KNumber 0; KNumber 0; KNumber 0].
    unfold file_call. cbn [forallb is_number negb andb]. rewrite Z.eqb_refl, Hu. unfold truncate_call, with_open. rewrite Ho, Hd. cbn [default from_option id].
    split; [done|]. split; [done|]. f_equal. f_equal. change 0xffffffff with (Z.ones 32). rewrite Z.land_ones, Z.shiftr_div_pow2 by lia.
    pose proof (Z.mod_pos_bound length (2 ^ 32) ltac:(lia)). rewrite !as_u32_id; [rewrite Z.mul_comm; symmetry; by apply Z.div_mod|lia|].
    split; [apply Z.div_pos; lia|apply Z.div_lt_upper_bound; lia].
  - intros w fs path flags [-> Hok] Hp Hl. rewrite call_file.
    change (kargs _) with [KNumber (as_u32 (AT "FDCWD")); KIn (utf8_encode (path ++ [0])); KOut stat_size; KNumber (as_u32 flags); KNumber 0; KNumber 0].
    unfold file_call. cbn [forallb is_number negb andb]. rewrite Z.eqb_refl, path_bytes by done. unfold stat_call.
    change (fs_paths fs !! utf8_encode path) with (file_named path fs). destruct (file_named path fs) as [ino|] eqn:En.
    2:{ eexists _, fs. split; [done|]. split; [done|]. exists (E "NOENT"). split; [by apply (bool_decide_unpack _)|done]. }
    rewrite Z.eqb_refl, andb_true_r. destruct (_ && _)%bool eqn:Elt.
    2:{ eexists _, fs. split; [done|]. split; [done|]. exists (E "OVERFLOW"). split; [by apply (bool_decide_unpack _)|split; [done|discriminate]]. }
    apply andb_true_iff in Elt as [Hltd%Z.ltb_lt Hlt%Z.ltb_lt].
    eexists _, fs. split; [done|]. split; [done|]. exists (stat_bytes ino), (stat_value ino). split; [|split].
    + reflexivity.
    + unfold stat_bytes. rewrite <- (app_nil_r (enc _ _)). apply struct_read_enc. by apply stat_typed.
    + exists ino. split_and!; [done|done|exact Hltd|exact Hlt|]. by rewrite En.
  - intros w fs fd [-> Hok] [[[ino offset] appends] Ho]. rewrite call_file. destruct (fds_open _ _ _ _ _ Hok Ho) as (Hfd&H0&Hu).
    change (kargs _) with [KNumber (as_u32 (gf_fd fd)); KNumber 0; KNumber 0; KNumber 0; KNumber 0; KNumber 0].
    unfold file_call. cbn [forallb is_number negb andb]. change (NR "close" =? NR "ftruncate64") with false. rewrite Z.eqb_refl, Hu.
    unfold close_call, with_open. rewrite Ho. eexists _, _. split; [done|]. split; [|done]. split; [done|]. unfold fds_ok. cbn. by apply map_Forall_delete.
Qed.

(** Three files, and nothing open: [a] and [b] have one number on two devices, [a] and
    [d] are on one device, and [l] is a link to [a]. *)
Definition some_files : filesystem :=
  FileSystem {[(0, 0)%nat := [1; 2; 3; 4; 5; 6; 7]; (1, 0)%nat := [9; 9]; (0, 1)%nat := [8]]}
    {[lit "a" := (0, 0)%nat; lit "b" := (1, 0)%nat; lit "d" := (0, 1)%nat; lit "l" := (0, 0)%nat]} ∅.
Lemma some_files_ok : file_view some_files some_files.
Proof. split; [done|]. apply map_Forall_empty. Qed.
Definition sample_text : list (list Z) := [[10; 11; 12; 13; 14; 15]; []; [16]].
Definition plain_write : WriteFileOptions := WriteOptions None None None None.
Lemma read_file_contents_witness :
  ∃ o w' k', readFile 8 (lit "a") no_signal (Client (idle_lane some_files) 0) = (o, Client (idle_lane w') k') ∧ file_view w' some_files ∧
    match o with Done bytes => bytes = [1; 2; 3; 4; 5; 6; 7] | Raise e => fault file_errors no_signal None e | Loops => False end.
Proof.
  exact (read_file_contents file_errors file_view file_posix 8 (lit "a") no_signal 0 some_files some_files (0, 0)%nat [1; 2; 3; 4; 5; 6; 7] some_files_ok
    ltac:(by apply (bool_decide_unpack _)) ltac:(by apply (bool_decide_unpack _)) eq_refl eq_refl eq_refl).
Defined.
Lemma write_file_contents_witness :
  ∃ o w' k' fs', writeFile 7 (lit "c") sample_text None plain_write no_signal (Client (idle_lane some_files) 0) = (o, Client (idle_lane w') k') ∧
    file_view w' fs' ∧
    match o with
    | Done _ => written (lit "c") (concat sample_text) plain_write some_files true fs'
    | Raise e => fault file_errors no_signal None e ∧ written (lit "c") (concat sample_text) plain_write some_files false fs'
    | Loops => False
    end.
Proof.
  refine (write_file_contents file_errors file_view file_posix 7 (lit "c") sample_text None plain_write no_signal 0 some_files some_files _ some_files_ok
    ltac:(by apply (bool_decide_unpack _)) ltac:(by apply (bool_decide_unpack _)) (or_intror (or_introl eq_refl)) _).
  - by intros k [].
  - by apply (bool_decide_unpack _).
Defined.
Lemma copy_file_contents_witness :
  ∃ o w' k' fs', copyFile 8 (lit "a") (lit "b") (Client (idle_lane some_files) 0) = (o, Client (idle_lane w') k') ∧ file_view w' fs' ∧
    match o with
    | Done _ => file_named (lit "b") some_files ≠ Some (0, 0)%nat ∧ holds (lit "b") [1; 2; 3; 4; 5; 6; 7] some_files fs'
    | Raise e =>
        if decide (file_named (lit "b") some_files = Some (0, 0)%nat)
        then fs' = some_files ∧ (e = SystemError (E "INVAL") ∨ fault file_errors no_signal None e)
        else copied (lit "b") [1; 2; 3; 4; 5; 6; 7] some_files false fs' ∧ fault file_errors no_signal None e
    | Loops => False
    end.
Proof.
  exact (copy_file_contents file_errors file_view 8 (lit "a") (lit "b") 0 some_files some_files (0, 0)%nat [1; 2; 3; 4; 5; 6; 7] file_posix some_files_ok
    ltac:(by apply (bool_decide_unpack _)) ltac:(by apply (bool_decide_unpack _)) ltac:(by apply (bool_decide_unpack _)) ltac:(by apply (bool_decide_unpack _))
    eq_refl eq_refl eq_refl).
Defined.
(** With this kernel all three succeed, and copying a file onto itself does not. *)
Example files_in_use :
  (readFile 8 (lit "a") no_signal (Client (idle_lane some_files) 0)).1 = Done [1; 2; 3; 4; 5; 6; 7] ∧
  (let '(o, c) := writeFile 7 (lit "c") sample_text None plain_write no_signal (Client (idle_lane some_files) 0) in
   o = Done tt ∧ contents (lit "c") (ln_world (cl_session c)) = concat sample_text) ∧
  (let '(o, c) := copyFile 8 (lit "a") (lit "b") (Client (idle_lane some_files) 0) in
   o = Done tt ∧ contents (lit "b") (ln_world (cl_session c)) = [1; 2; 3; 4; 5; 6; 7]) ∧
  (let '(o, c) := copyFile 8 (lit "a") (lit "d") (Client (idle_lane some_files) 0) in
   o = Done tt ∧ contents (lit "d") (ln_world (cl_session c)) = [1; 2; 3; 4; 5; 6; 7]) ∧
  (copyFile 8 (lit "a") (lit "l") (Client (idle_lane some_files) 0)).1 = Raise (SystemError (E "INVAL")).
Proof. vm_compute. done. Qed.
(** A path with a NUL names another file than was asked for. *)
Example nul_in_path : (readFile 8 (lit "b" ++ [0] ++ lit "x") no_signal (Client (idle_lane some_files) 0)).1 = Done [9; 9].
Proof. vm_compute. done. Qed.
(** Two inodes that are the same as numbers. *)
Example inodes_collide : js_number (2 ^ 53) = js_number (2 ^ 53 + 1).
Proof. reflexivity. Qed.
