(* ===== verification/Process.v ===== *)
(** The processes and the open files of a guest as objects: ChildProcess of
    packages/linux-guest/src/process.ts, FsFile of file.ts, and the process slots of
    client.ts.

    What runs between two waits is a function; what may happen in between, in any
    order, a step. *)
From S2P Require Export Client.

(** * Process slots: [#acquire_process_slot] *)
Definition MAX_PROCESSES : Z := 8.
(** [#processes] and [#process_waiters]; of the requests, numbered as they came, those
    whose promise was resolved, in that order, and those whose [release] was called. *)
Record slots := Slots { sl_processes : Z; sl_waiters : list nat; sl_next : nat; sl_granted : list nat; sl_released : list nat }.
#[export] Instance slots_eta : Eta slots := fun s =>
  Slots (sl_processes s) (sl_waiters s) (sl_next s) (sl_granted s) (sl_released s).
Definition slots_new : slots := Slots 0 [] 0 [] [].
Definition grant (id : nat) : M slots unit := modify (fun s => s <| sl_granted := sl_granted s ++ [id] |>).
Definition acquire_process_slot : M slots unit :=
  s ← get_state;
  let id := sl_next s in
  modify (fun s => s <| sl_next := S id |>) ;;
  if sl_processes s <? MAX_PROCESSES then modify (fun s => s <| sl_processes := sl_processes s + 1 |>) ;; grant id
  else modify (fun s => s <| sl_waiters := sl_waiters s ++ [id] |>).
Definition release (id : nat) : M slots unit :=
  s ← get_state;
  if bool_decide (id ∈ sl_released s) then mret tt
  else
    modify (fun s => s <| sl_released := sl_released s ++ [id] |>) ;;
    match sl_waiters s with
    | waiter :: waiters => modify (fun s => s <| sl_waiters := waiters |>) ;; grant waiter
    | [] => modify (fun s => s <| sl_processes := sl_processes s - 1 |>)
    end.
(** Only who was granted a slot has its [release]. *)
Definition slots_step (s s' : slots) : Prop :=
  s' = (acquire_process_slot s).2 ∨ ∃ id, id ∈ sl_granted s ∧ s' = (release id s).2.
Definition held (s : slots) : gset nat := list_to_set (sl_granted s) ∖ list_to_set (sl_released s).

Record slots_ok (s : slots) : Prop := {
  so_count : sl_processes s = Z.of_nat (length (sl_granted s)) - Z.of_nat (length (sl_released s));
  so_bound : sl_processes s ≤ MAX_PROCESSES;
  so_full : sl_waiters s ≠ [] → sl_processes s = MAX_PROCESSES;
  so_order : sl_granted s ++ sl_waiters s = seq 0 (sl_next s);
  so_released : NoDup (sl_released s) ∧ sl_released s ⊆ sl_granted s }.
Lemma slots_ok_step s s' : slots_ok s → slots_step s s' → slots_ok s'.
Proof.
  intros [H1 H2 H3 H4 [H5 H6]] [->|(id&Hid&->)].
  - unfold acquire_process_slot. erewrite M_bind_done by done. erewrite M_bind_done by done.
    destruct (Z.ltb_spec (sl_processes s) MAX_PROCESSES) as [Hlt|Hge].
    + erewrite M_bind_done by done. cbn -[seq]. assert (Hw : sl_waiters s = []) by (destruct (sl_waiters s); [done|]; specialize (H3 ltac:(done)); lia).
      split; cbn -[seq]; [rewrite length_app; cbn; lia|lia|by rewrite Hw| |split; [done|set_solver]].
      rewrite Hw, app_nil_r in *. rewrite seq_S. by rewrite H4.
    + cbn -[seq]. split; cbn -[seq]; [done|lia|unfold MAX_PROCESSES in *; lia|by rewrite seq_S, app_assoc, H4|done].
  - unfold release. erewrite M_bind_done by done. case_bool_decide as Hr; [by split|]. erewrite M_bind_done by done.
    assert (Hn : NoDup (sl_released s ++ [id])) by (apply NoDup_app; split_and!; [done|set_solver|apply NoDup_singleton]).
    destruct (sl_waiters s) as [|w ws] eqn:Ew.
    + cbn -[seq]. split; cbn -[seq]; [rewrite length_app; cbn; lia|lia|by rewrite Ew|by rewrite Ew|split; [done|set_solver]].
    + erewrite M_bind_done by done. cbn -[seq]. split; cbn -[seq]; [rewrite !length_app; cbn; lia|done|intros _; by apply H3|by rewrite <- app_assoc|split; [done|set_solver]].
Qed.

(** At most eight processes run at a time, whoever starts and ends when: a slot is
    held from its grant to its first release, as many as [#processes] says; requests
    wait only while all are held, and are granted in the order they came. *)
Theorem process_slots s : rtc slots_step slots_new s →
  Z.of_nat (size (held s)) = sl_processes s ∧ sl_processes s ≤ MAX_PROCESSES ∧ (sl_waiters s ≠ [] → sl_processes s = MAX_PROCESSES) ∧
  sl_granted s ++ sl_waiters s = seq 0 (sl_next s).
Proof.
  intros Hr. assert (Hs : slots_ok s).
  { remember slots_new as s0 eqn:E0. assert (H0 : slots_ok s0) by (subst; split; try done; split; [apply NoDup_nil_2|done]). clear E0.
    induction Hr as [s|s1 s2 s3 H _ IH]; [done|]. apply IH. by eapply slots_ok_step. }
  destruct Hs as [H1 H2 H3 H4 [H5 H6]]. split_and!; [|done..]. rewrite H1. unfold held.
  assert (Hn := NoDup_seq 0 (sl_next s)). rewrite <- H4 in Hn. apply NoDup_app in Hn as [Hn _].
  rewrite size_difference by set_solver. rewrite !size_list_to_set by done.
  assert (length (sl_released s) ≤ length (sl_granted s))%nat by (by apply submseteq_length, NoDup_submseteq). lia.
Qed.
Lemma process_slots_witness :
  let s := (release 0 ((acquire_process_slot ((release 0 (acquire_process_slot slots_new).2).2)).2)).2 in
  Z.of_nat (size (held s)) = sl_processes s ∧ sl_processes s ≤ MAX_PROCESSES ∧ (sl_waiters s ≠ [] → sl_processes s = MAX_PROCESSES) ∧
  sl_granted s ++ sl_waiters s = seq 0 (sl_next s).
Proof.
  apply process_slots. eapply rtc_l; [by left|]. eapply rtc_l; [right; exists 0%nat; split; [by left|reflexivity]|].
  eapply rtc_l; [by left|]. eapply rtc_l; [right; exists 0%nat; split; [by left|reflexivity]|]. apply rtc_refl.
Defined.

(** * Open files: FsFile *)
Section file.
Context {P : Type} `{!Peer P}.

(** The operations that [#run] is given. [file_read] of a buffer: what came and, but at
    the end of the file, how much. *)
Definition file_read (fd : guest_fd) (buffer : list Z) : M P (option Z * list Z) :=
  if zlen buffer =? 0 then mret (Some 0, buffer)
  else
    data ← read fd (Z.min (zlen buffer) CHUNK);
    if zlen data =? 0 then mret (None, buffer)
    else buffer ← lift (ta_set buffer data 0); mret (Some (zlen data), buffer).
Definition file_write (fd : guest_fd) (buffer : list Z) : M P Z := write fd (subarray buffer 0 CHUNK).
Definition file_seek (fd : guest_fd) (offset whence : Z) : M P Z := n ← llseek fd offset whence; mret (js_number n).
Definition file_stat (fd : guest_fd) : M P FileInfo := st ← fstatat64 (proc_path (gf_fd fd)) 0; mret (statToInfo st).
Definition file_truncate (fd : guest_fd) (length : option Z) : M P unit := ftruncate64 fd (default 0 length).
Definition file_sync (fd : guest_fd) : M P unit := fsync fd.
(** [pull] of [readable]: a chunk, or the end. *)
Definition file_pull (fd : guest_fd) : M P (option (list Z)) :=
  '(length, buffer) ← file_read fd (zeros CHUNK);
  mret (match length with None => None | Some n => Some (subarray buffer 0 n) end).
(** [write] of [writable]. *)
Fixpoint file_write_chunk (fuel : nat) (fd : guest_fd) (chunk : list Z) (offset : Z) : M P unit :=
  match fuel with
  | O => endless
  | S fuel =>
      if offset <? zlen chunk then
        written ← file_write fd (subarray chunk offset (zlen chunk));
        if written =? 0 then throw (SystemError (E "IO")) else file_write_chunk fuel fd chunk (offset + written)
      else mret tt
  end.
End file.

(** ** The order of operations

    A job is an operation that [#run] was given, or the closing of the descriptor;
    [jo_after] is the job whose promise it is chained to, the [#tail] of its time. *)
Inductive job_state := Chained | Started | Settled.
#[export] Instance job_state_eq_dec : EqDecision job_state.
Proof. solve_decision. Defined.
Record file_job := FileJob { jo_closes : bool; jo_after : option nat; jo_state : job_state }.
#[export] Instance file_job_eta : Eta file_job := fun j => FileJob (jo_closes j) (jo_after j) (jo_state j).
Record open_file := OpenFile { of_closed : bool; of_close : option nat; of_tail : option nat; of_jobs : list file_job; of_rejected : nat }.
#[export] Instance open_file_eta : Eta open_file := fun f => OpenFile (of_closed f) (of_close f) (of_tail f) (of_jobs f) (of_rejected f).
Definition FsFile : open_file := OpenFile false None None [] 0.
Definition chain (closes : bool) : M open_file nat := fun f =>
  (Done (length (of_jobs f)), f <| of_jobs := of_jobs f ++ [FileJob closes (of_tail f) Chained] |>).
Definition file_run : M open_file unit :=
  f ← get_state;
  if of_closed f then modify (fun f => f <| of_rejected := S (of_rejected f) |>)
  else result ← chain false; modify (fun f => f <| of_tail := Some result |>).
Definition file_close : M open_file unit :=
  modify (fun f => f <| of_closed := true |>) ;;
  f ← get_state;
  match of_close f with
  | Some _ => mret tt
  | None => promise ← chain true; modify (fun f => f <| of_close := Some promise |>)
  end.
Definition job_settled (f : open_file) (after : option nat) : Prop :=
  match after with None => True | Some i => jo_state <$> of_jobs f !! i = Some Settled end.
Definition set_job (i : nat) (state : job_state) (f : open_file) : open_file :=
  f <| of_jobs := alter (fun j => j <| jo_state := state |>) i (of_jobs f) |>.
Inductive file_step (f : open_file) : open_file → Prop :=
| FileRun : file_step f (file_run f).2
| FileClose : file_step f (file_close f).2
| FileStart i j : of_jobs f !! i = Some j → jo_state j = Chained → job_settled f (jo_after j) → file_step f (set_job i Started f)
| FileSettle i j : of_jobs f !! i = Some j → jo_state j = Started → file_step f (set_job i Settled f).

(** Every job is chained to the one before it, and nothing follows the close. *)
Record file_ok (f : open_file) : Prop := {
  fo_after : ∀ i j, of_jobs f !! i = Some j → jo_after j = match i with O => None | S i => Some i end;
  fo_tail : of_close f = None → of_tail f = match length (of_jobs f) with O => None | S n => Some n end;
  fo_close : ∀ i j, of_jobs f !! i = Some j → jo_closes j = true ↔ of_close f = Some i;
  fo_last : ∀ i, of_close f = Some i → of_closed f = true ∧ S i = length (of_jobs f);
  fo_open : of_close f = None → of_closed f = false;
  fo_order : ∀ i j j', of_jobs f !! i = Some j → of_jobs f !! S i = Some j' → jo_state j' ≠ Chained → jo_state j = Settled }.
Lemma chained_ok closes f : file_ok f → of_close f = None → let f' := (chain closes f).2 in
  (∀ i j, of_jobs f' !! i = Some j → jo_after j = match i with O => None | S i => Some i end) ∧
  (∀ i j, of_jobs f' !! i = Some j → jo_closes j = true ↔ closes = true ∧ i = length (of_jobs f)) ∧
  (∀ i j j', of_jobs f' !! i = Some j → of_jobs f' !! S i = Some j' → jo_state j' ≠ Chained → jo_state j = Settled).
Proof.
  intros [H1 H2 H3 H4 H5 H6] Hc. cbn. specialize (H2 Hc).
  assert (Hat : ∀ i j, (of_jobs f ++ [FileJob closes (of_tail f) Chained]) !! i = Some j →
    of_jobs f !! i = Some j ∨ i = length (of_jobs f) ∧ j = FileJob closes (of_tail f) Chained).
  { intros i j Hj. apply lookup_app_Some in Hj as [Hj|[Hi Hj]]; [by left|]. apply list_lookup_singleton_Some in Hj as [Hi' <-]. right. split; [lia|done]. }
  split_and!.
  - intros i j [Hj|[-> ->]]%Hat; [by apply H1|done].
  - intros i j [Hj|[-> ->]]%Hat; [|tauto]. rewrite H3 by done. rewrite Hc. pose proof (lookup_lt_Some _ _ _ Hj). split; [done|lia].
  - intros i j j' [Hj|[-> ->]]%Hat [Hj'|[Hi' ->]]%Hat Hs; [by eapply H6|done| |done]. apply lookup_lt_Some in Hj'. lia.
Qed.
Lemma set_job_lookup i state f k j : of_jobs (set_job i state f) !! k = Some j →
  ∃ j0, of_jobs f !! k = Some j0 ∧ jo_closes j = jo_closes j0 ∧ jo_after j = jo_after j0 ∧ jo_state j = if decide (k = i) then state else jo_state j0.
Proof.
  cbn. destruct (decide (k = i)) as [->|Hne].
  - rewrite list_lookup_alter_eq. destruct (of_jobs f !! i) as [j0|]; [|done]. intros [= <-]. by exists j0.
  - rewrite list_lookup_alter_ne by done. intros Hj. by exists j.
Qed.
Lemma set_job_ok i j state f : file_ok f → of_jobs f !! i = Some j → jo_state j ≠ Settled →
  (state = Started → job_settled f (jo_after j)) → (state = Settled → jo_state j = Started) → state ≠ Chained → file_ok (set_job i state f).
Proof.
  intros [H1 H2 H3 H4 H5 H6] Hi Hns Hstart Hsettle Hnc. split.
  - intros k j' (j0&Hj0&_&->&_)%set_job_lookup. by apply H1.
  - intros Hc. cbn. rewrite length_alter. by apply H2.
  - intros k j' (j0&Hj0&->&_)%set_job_lookup. cbn. by apply H3.
  - intros k Hk. cbn. rewrite length_alter. by apply H4.
  - done.
  - intros k a b (a0&Ha0&_&_&->)%set_job_lookup (b0&Hb0&_&_&->)%set_job_lookup Hs.
    destruct (decide (S k = i)) as [<-|Hb].
    + rewrite decide_False by lia. assert (b0 = j) as -> by congruence. destruct state; [done| |].
      * specialize (Hstart eq_refl). rewrite (H1 _ _ Hi) in Hstart. cbn in Hstart. rewrite Ha0 in Hstart. by injection Hstart.
      * eapply H6; [done|done|]. by rewrite Hsettle.
    + destruct (decide (k = i)) as [->|Ha]; [|by eapply H6]. assert (a0 = j) as -> by congruence. destruct Hns. by eapply H6.
Qed.
Lemma file_step_ok f f' : file_ok f → file_step f f' → file_ok f'.
Proof.
  intros Hf [| |i j Hi Hs Ha|i j Hi Hs].
  - unfold file_run. erewrite M_bind_done by done. destruct (of_closed f) eqn:Ec; [destruct Hf; by split|].
    assert (Hc : of_close f = None) by (destruct (of_close f) as [i|] eqn:E; [|done]; destruct (fo_last _ Hf i E); congruence).
    destruct (chained_ok false f Hf Hc) as (A1&A2&A3). erewrite M_bind_done by done. split; cbn; [exact A1| |..|exact A3].
    + intros _. rewrite length_app. cbn. by rewrite Nat.add_1_r.
    + intros i j Hj. rewrite (A2 i j Hj), Hc. split; [by intros []|done].
    + by rewrite Hc.
    + done.
  - unfold file_close. erewrite M_bind_done by done. erewrite M_bind_done by done. destruct (of_close f) as [i|] eqn:Ec; cbn [set_field eta open_file_eta of_close]; rewrite Ec.
    + destruct Hf as [H1 H2 H3 H4 H5 H6]. rewrite Ec in *. split; cbn; rewrite ?Ec; try done. intros k Hk. by destruct (H4 k Hk).
    + destruct (chained_ok true f Hf Ec) as (A1&A2&A3). erewrite M_bind_done by done. split; cbn; [exact A1|done| | |done|exact A3].
      * intros i j Hj. rewrite (A2 i j Hj). split; [by intros [_ ->]|by intros [= ->]].
      * intros i [= <-]. split; [done|]. rewrite length_app. cbn. lia.
  - eapply set_job_ok; [done..|by rewrite Hs|done|done|done].
  - eapply set_job_ok; [done..|by rewrite Hs|done|done|done].
Qed.

(** The operations on an open file are serialized: each starts only when every
    one that was called before it has settled, so that one at most is under way; the
    descriptor is closed at most once, when all of them have settled; and what is
    called after that is rejected. *)
Theorem file_serialized f : rtc file_step FsFile f →
  (∀ i j a b, (i < j)%nat → of_jobs f !! i = Some a → of_jobs f !! j = Some b → jo_state b ≠ Chained → jo_state a = Settled) ∧
  (∀ i j, of_jobs f !! i = Some j → jo_closes j = true → of_closed f = true ∧ S i = length (of_jobs f)) ∧
  (of_closed f = true → (file_run f).2 = f <| of_rejected := S (of_rejected f) |>).
Proof.
  intros Hr. assert (Hf : file_ok f).
  { remember FsFile as f0 eqn:E0. assert (H0 : file_ok f0) by (subst; by split). clear E0.
    induction Hr as [f|f1 f2 f3 H _ IH]; [done|]. apply IH. by eapply file_step_ok. }
  split_and!.
  - intros i j a b Hij Ha Hb Hs. revert b Hb Hs. induction Hij as [|j Hij IH]; intros b Hb Hs; [by eapply (fo_order _ Hf i a b)|].
    pose proof (lookup_lt_Some _ _ _ Hb). destruct (of_jobs f !! j) as [c|] eqn:Ec; [|apply lookup_ge_None in Ec; lia].
    apply (IH c eq_refl). by rewrite (fo_order _ Hf j c b Ec Hb Hs).
  - intros i j Hj Hc. apply (fo_last _ Hf). by apply (fo_close _ Hf i j).
  - intros Hc. unfold file_run. erewrite M_bind_done by done. by rewrite Hc.
Qed.
Definition closing_file : open_file := Eval vm_compute in
  set_job 1 Started (set_job 0 Settled (set_job 0 Started (file_close (file_run FsFile).2).2)).
Lemma file_serialized_witness :
  (∀ i j a b, (i < j)%nat → of_jobs closing_file !! i = Some a → of_jobs closing_file !! j = Some b → jo_state b ≠ Chained → jo_state a = Settled) ∧
  of_jobs closing_file !! 1%nat = Some (FileJob true (Some 0%nat) Started) ∧ (file_run closing_file).2 = closing_file <| of_rejected := 1%nat |>.
Proof.
  assert (Hr : rtc file_step FsFile closing_file).
  { eapply rtc_l; [apply FileRun|]. eapply rtc_l; [apply FileClose|]. eapply rtc_l; [by apply (FileStart _ 0 (FileJob false None Chained))|].
    eapply rtc_l; [by apply (FileSettle _ 0 (FileJob false None Started))|]. eapply rtc_l; [by apply (FileStart _ 1 (FileJob true (Some 0%nat) Chained))|]. apply rtc_refl. }
  destruct (file_serialized closing_file Hr) as (H1&_&H3). split; [exact H1|]. split; [reflexivity|]. exact (H3 eq_refl).
Defined.

(** * Processes: ChildProcess *)

(** ** How a process ended *)
Definition signal_numbers : list (string * Z) :=
  [("SIGHUP", SIG "HUP"); ("SIGINT", SIG "INT"); ("SIGQUIT", SIG "QUIT"); ("SIGKILL", SIG "KILL"); ("SIGTERM", SIG "TERM");
   ("SIGUSR1", SIG "USR1"); ("SIGUSR2", SIG "USR2")].
(** [signal_names]: the name of a number, or the number itself. *)
Definition signal_name (number : Z) : string + Z :=
  match list_find (fun p => p.2 = number) signal_numbers with Some (_, (name, _)) => inl name | None => inr number end.
Record CommandStatus := Status { cs_success : bool; cs_code : Z; cs_signal : option (string + Z) }.
#[export] Instance command_status_eq_dec : EqDecision CommandStatus.
Proof. solve_decision. Defined.
Definition command_status (status : Z) : CommandStatus :=
  let code := WEXITSTATUS status in
  let signal := if WIFSIGNALED status then Some (signal_name (WTERMSIG status)) else None in
  Status (WIFEXITED status && (code =? 0)) code signal.
(** [#reap], from what the reap gave and whether the process was aborted. *)
Definition reap_result (aborted : option exn) (reaped : outcome Z) : outcome CommandStatus :=
  match reaped, aborted with
  | Loops, _ => Loops
  | _, Some reason => Raise reason
  | Done status, None => Done (command_status status)
  | Raise e, None => Raise e
  end.
Section child.
Context {P : Type} `{!Peer P}.
Definition child_reap (pid : Z) (aborted : option exn) : M P CommandStatus := fun p =>
  let '(o, p) := reap pid p in (reap_result aborted o, p).
Definition child_kill (pid : Z) (signal : string) : M P unit :=
  kill pid (default 0 (Bytes.assoc signal signal_numbers)).
(** [pull] of [stdout] and [stderr]: a chunk, the end, or an error; at the end and on
    an error the descriptor is closed. *)
Definition output_pull : M (P * guest_fd) (outcome (option (list Z))) := fun '(p, fd) =>
  match read fd CHUNK p with
  | (Loops, p) => (Loops, (p, fd))
  | (Raise e, p) => let '(_, s) := close (p, fd) in (Done (Raise e), s)
  | (Done data, p) =>
      if zlen data =? 0 then
        match close (p, fd) with
        | (Done _, s) => (Done (Done None), s)
        | (Raise e, s) => let '(_, s) := close s in (Done (Raise e), s)
        | (Loops, s) => (Loops, s)
        end
      else (Done (Done (Some data)), (p, fd))
  end.
End child.

(** The status of a process that exited, and of one that a signal ended. *)
Lemma command_status_exact :
  (∀ code, 0 ≤ code < 256 → command_status (code * 256) = Status (code =? 0) code None) ∧
  (∀ number core, 0 < number < 127 → core = 0 ∨ core = 128 →
    command_status (number + core) = Status false 0 (Some (signal_name number))).
Proof.
  split.
  - assert (H : Forall (fun code => command_status (code * 256) = Status (code =? 0) code None) (seqZ 0 256)) by (apply (bool_decide_unpack _); vm_compute; exact I).
    intros code Hc. rewrite Forall_forall in H. apply H, elem_of_seqZ. lia.
  - assert (H : Forall (fun number => command_status (number + 0) = Status false 0 (Some (signal_name number)) ∧
      command_status (number + 128) = Status false 0 (Some (signal_name number))) (seqZ 1 126)) by (apply (bool_decide_unpack _); vm_compute; exact I).
    intros number core Hn Hcore. rewrite Forall_forall in H. destruct (H number) as [H1 H2]; [apply elem_of_seqZ; lia|]. by destruct Hcore as [->| ->].
Qed.

(** ** Its standard input

    The chunks that [stdin] was given are pumped in turn, each job chained to the one
    before ([#stdin_tail]). A [pump] has a call of [write] under way. *)
Inductive close_phase := NotClosing | Killing | Draining (tail : nat) | Closing | Closed (failed : option exn).
Record child := Child {
  ch_given : list (list Z) (* every chunk with a job *); ch_settled : nat (* how many jobs have settled *);
  ch_pump : option (list Z * Z); ch_stdin_error : option exn; ch_stdin_stopped : bool;
  ch_eof : option nat (* the tail that the stream's close waits for *); ch_close : close_phase;
  ch_fd_closed : bool (* [close] of the descriptor was called *); ch_rejected : nat;
  ch_sent : list Z (* what the guest has taken, in order *) }.
#[export] Instance child_eta : Eta child := fun c =>
  Child (ch_given c) (ch_settled c) (ch_pump c) (ch_stdin_error c) (ch_stdin_stopped c) (ch_eof c) (ch_close c) (ch_fd_closed c)
    (ch_rejected c) (ch_sent c).
Definition ChildProcess : child := Child [] 0 None None false None NotClosing false 0 [].
Definition stdin_write (chunk : list Z) : M child unit := modify (fun c =>
  if ch_stdin_error c is Some _ then c <| ch_rejected := S (ch_rejected c) |> else c <| ch_given := ch_given c ++ [chunk] |>).
(** The loop of [pump]: to its next write, or to its end. *)
Definition pump_loop (data : list Z) (offset : Z) : M child unit := modify (fun c =>
  if (negb (ch_stdin_stopped c) && (offset <? zlen data))%bool then c <| ch_pump := Some (data, offset) |>
  else c <| ch_pump := None |> <| ch_settled := S (ch_settled c) |>).
Definition next_job : M child unit :=
  c ← get_state;
  match ch_given c !! ch_settled c, ch_stdin_error c with
  | None, _ => mret tt
  | Some _, Some _ => modify (fun c => c <| ch_settled := S (ch_settled c) |>)
  | Some data, None => pump_loop data 0
  end.
Definition pump_fails (e : exn) : M child unit := modify (fun c =>
  c <| ch_stdin_error := Some e |> <| ch_pump := None |> <| ch_settled := S (ch_settled c) |>).
(** What the write under way came to. *)
Definition pump_written (data : list Z) (offset written : Z) : M child unit :=
  if written =? 0 then pump_fails (SystemError (E "IO"))
  else
    modify (fun c => c <| ch_sent := ch_sent c ++ take (Z.to_nat written) (subarray data offset (offset + CHUNK)) |>) ;;
    pump_loop data (offset + written).
Definition stdin_close : M child unit := modify (fun c => c <| ch_eof := Some (length (ch_given c)) |>).
Definition stdin_closed : M child unit := modify (fun c => c <| ch_fd_closed := true |>).
(** [close] and [#close_all]. *)
Definition child_close : M child unit := modify (fun c =>
  if ch_close c is NotClosing then c <| ch_stdin_stopped := true |> <| ch_close := Killing |> else c).
Definition close_killed : M child unit := modify (fun c => c <| ch_close := Draining (length (ch_given c)) |>).
Definition close_drained : M child unit := modify (fun c => c <| ch_close := Closing |> <| ch_fd_closed := true |>).
Definition close_settled (results : list (option exn)) : M child unit := modify (fun c =>
  c <| ch_close := Closed (list_find (fun r => is_Some r) results ≫= snd) |>).

(** The stream gives no chunk once it is closed. *)
Inductive child_step (c : child) : child → Prop :=
| StepWrite chunk : ch_eof c = None → child_step c (stdin_write chunk c).2
| StepNext : ch_pump c = None → child_step c (next_job c).2
| StepWritten data offset written : ch_pump c = Some (data, offset) → 0 ≤ written ≤ zlen (subarray data offset (offset + CHUNK)) →
    child_step c (pump_written data offset written c).2
| StepFails data offset e : ch_pump c = Some (data, offset) → child_step c (pump_fails e c).2
| StepEof : ch_eof c = None → child_step c (stdin_close c).2
| StepEofClose tail : ch_eof c = Some tail → (tail ≤ ch_settled c)%nat → child_step c (stdin_closed c).2
| StepClose : child_step c (child_close c).2
| StepKilled : ch_close c = Killing → child_step c (close_killed c).2
| StepDrained tail : ch_close c = Draining tail → (tail ≤ ch_settled c)%nat → child_step c (close_drained c).2
| StepSettled results : ch_close c = Closing → child_step c (close_settled results c).2.

Record child_ok (c : child) : Prop := {
  co_settled : (ch_settled c ≤ length (ch_given c))%nat;
  co_pump : ∀ data offset, ch_pump c = Some (data, offset) →
    ch_given c !! ch_settled c = Some data ∧ 0 ≤ offset < zlen data ∧ ch_stdin_error c = None ∧
    ch_sent c = concat (take (ch_settled c) (ch_given c)) ++ take (Z.to_nat offset) data;
  co_sent : ch_sent c `prefix_of` concat (ch_given c);
  co_live : ch_stdin_error c = None → ch_stdin_stopped c = false → ch_pump c = None → ch_sent c = concat (take (ch_settled c) (ch_given c));
  co_eof : ∀ tail, ch_eof c = Some tail → length (ch_given c) = tail;
  co_stopped : ch_stdin_stopped c = true ↔ ch_close c ≠ NotClosing;
  co_draining : ∀ tail data offset, ch_close c = Draining tail → ch_pump c = Some (data, offset) → (ch_settled c < tail)%nat;
  co_closed : ch_fd_closed c = true → ch_pump c = None ∧ (ch_stdin_stopped c = true ∨ ch_settled c = length (ch_given c) ∧ is_Some (ch_eof c)) }.
Lemma take_S_given {A} (l : list A) n x : l !! n = Some x → take (S n) l = take n l ++ [x].
Proof. apply take_S_r. Qed.
Lemma concat_take_prefix (l : list (list Z)) n x offset : l !! n = Some x → concat (take n l) ++ take offset x `prefix_of` concat l.
Proof.
  intros Hx. exists (drop offset x ++ concat (drop (S n) l)). rewrite <- (take_drop_middle l n x Hx) at 1. rewrite concat_app. cbn.
  by rewrite <- app_assoc, (app_assoc (take _ _)), take_drop.
Qed.
(** Of a child but for its pump, which is between two writes of a chunk. *)
Record pumping_ok (data : list Z) (offset : Z) (c : child) : Prop := {
  po_given : ch_given c !! ch_settled c = Some data;
  po_offset : 0 ≤ offset ≤ zlen data;
  po_error : ch_stdin_error c = None;
  po_live : ch_stdin_stopped c = false → ch_sent c = concat (take (ch_settled c) (ch_given c)) ++ take (Z.to_nat offset) data;
  po_sent : ch_sent c `prefix_of` concat (ch_given c);
  po_eof : ∀ tail, ch_eof c = Some tail → length (ch_given c) = tail;
  po_stopped : ch_stdin_stopped c = true ↔ ch_close c ≠ NotClosing;
  po_closed : ch_fd_closed c = true → ch_stdin_stopped c = true }.
Lemma pump_loop_ok data offset c : pumping_ok data offset c → child_ok (pump_loop data offset c).2.
Proof.
  intros [H1 H2 H3 H4 H5 H6 H7 H8]. pose proof (lookup_lt_Some _ _ _ H1). unfold pump_loop, modify. cbn [snd].
  destruct (ch_stdin_stopped c) eqn:Est; [|destruct (Z.ltb_spec offset (zlen data))]; cbn [negb andb]; (split; cbn; try done; try lia).
  - by rewrite Est.
  - by rewrite Est.
  - intros _. split; [done|by left].
  - intros d o [= <- <-]. split_and!; [done|lia|lia|done|by apply H4].
  - by rewrite Est.
  - intros tail d o Hc. assert (false = true) by (apply H7; by rewrite Hc). done.
  - by intros ?%H8.
  - intros _ _ _. rewrite H4 by done. rewrite (take_S_given _ _ data) by done. rewrite concat_app. cbn. rewrite app_nil_r.
    rewrite (take_ge data) by (unfold zlen in *; lia). done.
  - by rewrite Est.
  - by intros ?%H8.
Qed.
Lemma child_step_ok c c' : child_ok c → child_step c c' → child_ok c'.
Proof.
  intros Hc Hstep. assert (Hc' := Hc). destruct Hc' as [H1 H2 H3 H4 H5 H6 H7 H8].
  destruct Hstep as [chunk He|Hp|data offset n Hp Hn|data offset e Hp|He|tail He Ht| |Hk|tail Hk Ht|results Hk].
  - unfold stdin_write, modify. cbn [snd]. destruct (ch_stdin_error c) as [e|] eqn:Ee; [split; cbn; rewrite ?Ee; done|].
    split; cbn; [rewrite length_app; lia| |rewrite concat_app; by apply prefix_app_r| |by rewrite He|done|done|].
    + intros d o Hd. destruct (H2 d o Hd) as (A1&A2&A3&A4). split_and!; [by apply lookup_app_l_Some|lia|lia|done|]. by rewrite take_app_le by lia.
    + intros _ Hs Hp. rewrite take_app_le by lia. by apply H4.
    + intros Hf. destruct (H8 Hf) as [A1 [A2|[_ A2]]]; [auto|]. rewrite He in A2. by destruct A2.
  - unfold next_job. erewrite M_bind_done by done. destruct (ch_given c !! ch_settled c) as [data|] eqn:Eg; [|done].
    pose proof (lookup_lt_Some _ _ _ Eg). assert (Hf : ch_fd_closed c = true → ch_stdin_stopped c = true) by (intros Hf; destruct (H8 Hf) as [_ [?|[? _]]]; [done|lia]).
    destruct (ch_stdin_error c) as [e|] eqn:Ee.
    + unfold modify. cbn [snd]. split; cbn; rewrite ?Ee, ?Hp; try done; try lia. intros Hfc. split; [done|]. left. auto.
    + apply pump_loop_ok. split; try done; try (pose proof (zlen_nonneg data); lia). intros Hs. cbn. rewrite app_nil_r. by apply H4.
  - destruct (H2 data offset Hp) as (A1&A2&A3&A4). pose proof (lookup_lt_Some _ _ _ A1).
    assert (Hf : ch_fd_closed c = true → ch_stdin_stopped c = true) by (intros Hf; destruct (H8 Hf); congruence).
    unfold pump_written. destruct (Z.eqb_spec n 0) as [E|E].
    + unfold pump_fails, modify. cbn [snd]. split; cbn; try done; try lia. intros Hfc. split; [done|]. left. auto.
    + erewrite M_bind_done by done. apply pump_loop_ok.
      assert (Hs : ch_sent c ++ take (Z.to_nat n) (subarray data offset (offset + CHUNK)) =
        concat (take (ch_settled c) (ch_given c)) ++ take (Z.to_nat (offset + n)) data).
      { rewrite A4, <- app_assoc. f_equal. unfold subarray. rewrite take_take.
        unfold subarray in Hn. rewrite zlen_take, zlen_drop in Hn by lia. rewrite Nat.min_l by (unfold CHUNK in *; lia).
        rewrite Z2Nat.inj_add by lia. by rewrite take_take_drop. }
      split; cbn; try done.
      * unfold subarray in Hn. rewrite zlen_take, zlen_drop in Hn by lia. lia.
      * rewrite Hs. by apply concat_take_prefix.
  - destruct (H2 data offset Hp) as (A1&A2&A3&A4). pose proof (lookup_lt_Some _ _ _ A1).
    unfold pump_fails, modify. cbn [snd]. split; cbn; try done; try lia. intros Hf. destruct (H8 Hf); congruence.
  - unfold stdin_close, modify. cbn [snd]. split; cbn; try done; [by intros tail [= <-]|]. intros Hf. destruct (H8 Hf) as [A1 [A2|[_ A2]]]; [auto|].
    rewrite He in A2. by destruct A2.
  - unfold stdin_closed, modify. cbn [snd]. pose proof (H5 _ He) as Hl. split; cbn; try done. intros _. split.
    + destruct (ch_pump c) as [[d o]|] eqn:Ep; [|done]. destruct (H2 d o eq_refl) as (A1&_). apply lookup_lt_Some in A1. lia.
    + right. split; [lia|]. by rewrite He.
  - unfold child_close, modify. cbn [snd]. destruct (ch_close c) eqn:Ec; [|by split; cbn; rewrite ?Ec..]. split; cbn; try done.
    intros Hf. destruct (H8 Hf). auto.
  - unfold close_killed, modify. cbn [snd]. split; cbn; try done.
    + split; [done|]. intros _. apply H6. by rewrite Hk.
    + intros tail d o [= <-] Hd. destruct (H2 d o Hd) as (A1&_). by apply lookup_lt_Some in A1.
  - unfold close_drained, modify. cbn [snd]. assert (Hs : ch_stdin_stopped c = true) by (apply H6; by rewrite Hk). split; cbn; try done.
    intros _. split; [|by left]. destruct (ch_pump c) as [[d o]|] eqn:Ep; [|done]. specialize (H7 tail d o Hk eq_refl). lia.
  - unfold close_settled, modify. cbn [snd]. split; cbn; try done. split; [done|]. intros _. apply H6. by rewrite Hk.
Qed.

(** C36: what the guest's process reads is what [stdin] was given, in order and with
    nothing left out, whatever the writes and the close of the process do in between;
    all of it once every job has settled without an error or a close; and a descriptor
    that was closed has no write under way, and none is begun. *)
Theorem child_stdin_in_order c c' : rtc child_step ChildProcess c → child_step c c' →
  ch_sent c `prefix_of` concat (ch_given c) ∧
  (ch_stdin_error c = None → ch_stdin_stopped c = false → ch_settled c = length (ch_given c) → ch_pump c = None ∧ ch_sent c = concat (ch_given c)) ∧
  (ch_fd_closed c = true → ch_pump c = None ∧ ch_pump c' = None ∧ ch_sent c' = ch_sent c).
Proof.
  intros Hr Hstep. assert (Hc : child_ok c).
  { clear Hstep. remember ChildProcess as c0 eqn:E0. assert (H0 : child_ok c0) by (subst; by split). clear E0.
    induction Hr as [c|c1 c2 c3 H _ IH]; [done|]. apply IH. by eapply child_step_ok. }
  split_and!; [by apply co_sent| |].
  - intros He Hs Hn. assert (Hp : ch_pump c = None).
    { destruct (ch_pump c) as [[d o]|] eqn:Ep; [|done]. destruct (co_pump _ Hc d o Ep) as (A1&_). apply lookup_lt_Some in A1. lia. }
    split; [done|]. rewrite (co_live _ Hc) by done. by rewrite Hn, firstn_all.
  - intros Hf. destruct (co_closed _ Hc Hf) as [Hp Hx]. split; [done|].
    destruct Hstep; try congruence; try (by unfold stdin_close, stdin_closed, close_killed, close_drained, close_settled, modify).
    + unfold stdin_write, modify. cbn. by destruct (ch_stdin_error c).
    + unfold next_job. erewrite M_bind_done by done. destruct (ch_given c !! ch_settled c) as [data|] eqn:Eg; [|done].
      destruct (ch_stdin_error c); [done|]. unfold pump_loop, modify. cbn. destruct Hx as [->|[Hx _]]; [done|]. apply lookup_lt_Some in Eg. lia.
    + unfold child_close, modify. cbn. by destruct (ch_close c).
Qed.
Definition pumped_child : child := Eval vm_compute in
  (pump_written [1; 2; 3] 0 2 (next_job (stdin_write [1; 2; 3] ChildProcess).2).2).2.
Lemma child_stdin_in_order_witness :
  let c' := (pump_written [1; 2; 3] 2 1 pumped_child).2 in
  ch_sent pumped_child `prefix_of` [1; 2; 3] ∧ (ch_fd_closed pumped_child = true → ch_pump c' = None) ∧ ch_sent c' = [1; 2; 3].
Proof.
  assert (Hr : rtc child_step ChildProcess pumped_child).
  { eapply rtc_l; [by apply (StepWrite _ [1; 2; 3])|]. eapply rtc_l; [by apply StepNext|].
    eapply rtc_l; [apply (StepWritten _ [1; 2; 3] 0 2); [reflexivity|by apply (bool_decide_unpack _)]|]. apply rtc_refl. }
  assert (Hs : child_step pumped_child (pump_written [1; 2; 3] 2 1 pumped_child).2).
  { apply (StepWritten _ [1; 2; 3] 2 1); [reflexivity|by apply (bool_decide_unpack _)]. }
  destruct (child_stdin_in_order pumped_child _ Hr Hs) as (H1&_&H3). split; [exact H1|]. split; [|reflexivity]. intros Hf. exact (proj1 (proj2 (H3 Hf))).
Defined.
(** An error of the pipe is told to the next write, and to the stream's close. *)
Example broken_pipe :
  let c := (stdin_write [4] (pump_fails (SystemError (E "PIPE")) (next_job (stdin_write [1; 2; 3] ChildProcess).2).2).2).2 in
  ch_rejected c = 1%nat ∧ ch_sent c = [] ∧ ch_pump c = None.
Proof. vm_compute. done. Qed.
Example ended_by_signal : command_status 9 = Status false 0 (Some (inl "SIGKILL"%string)) ∧ command_status 6 = Status false 0 (Some (inr 6)).
Proof. vm_compute. done. Qed.
